(* ===== verification/_CoqProject ===== *)
-Q . S2P
Prelude.v
Pipe.v
Blocks.v
Log.v
Inode.v
Index.v
FileIo.v
CsFs.v
CsIo.v
Vm.v
LazyAlloc.v
Uvm.v
Args.v
Kvm.v
Exec.v
ExecSpec.v
MlFs.v
MlIo.v
CStr.v
Print.v
Dir.v
DirSpec.v
DirWalk.v
MlDir.v
ExecFs.v
File.v
Quiet.v
CsSys.v
Holding.v
SysInv.v
Syscalls.v
Console.v
Bio.v
Umalloc.v
Spin.v
Sh.v
ShSpec.v
ShRun.v
Score.v
ScoreSpec.v
Blank.v
BlankSpec.v
BlankTree.v
Mkfs.v
MkfsSpec.v
MkfsImage.v
Grep.v
Ext2.v
Ext2Spec.v
Ext2Cmd.v
Ext2Image.v
Proc.v
ProcInv.v
ProcSpec.v
