(* ===== verification/Prelude.v ===== *)
(** * Verification of the LinuxSystem programs

    The repository holds two xv6 kernels (xv6-lazy-allocation-multilevel-fs,
    below "lazy", and xv6-continuous-sector-fs, below "CS"), an ext2 image
    reader (ssu_ext2), a grading program (ssu_score) and a cleanup daemon
    (ssu_cleanup).  The kernels share most files: proc.c, pipe.c, log.c,
    kalloc.c, grep.c and the directory part of fs.c are the same in both, and a
    file that differs is modelled per kernel.

    ** How the code is modelled

    Kernel code is a function in the state monad [M S A] below, over a record
    with the state the code keeps: a result is [Ok] with the value and the new
    state, [Panic] for [panic], and [Block] for a call that goes to sleep.
    [returns m s Q] says that [m] started in [s] returns and that [Q] holds then
    (so it also excludes panics, sleeping and running out of fuel); [safe m s Q]
    says [Q] if it returns.  User programs are pure functions on bytes.
    Machine integers are [Z] with the wrap-around written out ([u32], [i32],
    [u16], ...), bytes are [Z] in 0..255, arrays and strings are lists.  A
    section of code under a spin lock is one atomic step; code that other
    processors can interleave with is split into steps and the theorems
    quantify over all sequences of steps.

    ** Files and the code they model

    - Prelude: the monad, machine integers, bits, little-endian words, ranges
      of arrays.
    - Pipe: pipe.c.
    - Blocks: the block layer of fs.c (ballocx, balloc, bfree, bzero), with the
      cached and logged blocks as one map from block numbers to bytes.
    - Log: log.c and bwrite, over a disk, a cache and the sequence of disk
      writes; it provides what Blocks assumes ([log_refines_blocks]).
    - Inode: struct dinode, the inode cache (iget, idup, ilock, iunlock, iput),
      iupdate, ialloc and stati; what iput asks of a kernel's itrunc is the class
      [TruncateSpec].
    - Index, FileIo: what the two kernels' bmap, itrunc, readi and writei share.
    - CsFs, CsIo: csbmap, bmap, itrunc, readi and writei of the CS kernel.
    - MlFs, MlIo: bmap, bfreeindirect, itrunc, readi and writei of the lazy
      kernel.
    - CStr: C strings.
    - Dir, DirSpec, DirWalk: namecmp, dirlookup, dirlink, skipelem, namex, namei
      and nameiparent, against the classes [FileOps] (operations) and
      [FileLaws] (what a file promises); MlDir shows that the lazy kernel meets
      [FileLaws].
    - File: file.c and sysfile.c over the operations of either kernel ([FileOps])
      and the pipes of Pipe; CsSys: what the CS kernel adds (savefilename,
      sys_printinfo); a class [Variant] holds the points where they differ.
    - Quiet, Holding, SysInv, Syscalls: the invariant of all system calls: Quiet
      shows that the contents of files never touch counts and locks, Holding
      follows the references and locks in the hands of a running call, SysInv
      does so for every call, Syscalls puts the calls together.
    - Console: console.c but its formatted output; Bio: bio.c, sleeplock.c and the
      memory disk memide.c; Umalloc: umalloc.c over a model of sbrk.
    - Print: printint and cprintf of console.c, printf.c, atoi.
    - Vm: kalloc.c, the page tables of vm.c, growproc, sys_sbrk, sys_ssualloc,
      sys_getvp, sys_getpp and the page-fault case of trap; LazyAlloc proves the
      invariant of page tables and free list, the free list, ssualloc and page
      faults; Uvm growing, shrinking and copyout; Kvm the kernel's part,
      freevm and copyuvm.
    - Args: how a system call reads its arguments (fetchint, fetchstr, argint,
      argptr and argstr of syscall.c) from user memory, page faults of the kernel
      included.
    - Spin: spinlock.c as the instructions of eight processors with interrupts; it
      is what lets the other files take a section under a spin lock as one step.
    - Exec, ExecSpec: exec.c and loaduvm, over the memory of Vm and the bytes of
      the program file; ExecFs: that these are the bytes of an inode, and runs on
      a concrete machine.
    - Proc, ProcInv, ProcSpec: proc.c.
    - Mkfs, MkfsSpec, MkfsImage: mkfs.c of the lazy kernel over the sectors of the
      image; MkfsSpec follows it against a kernel state with the same blocks, so
      that what is proved of the kernel's bmap carries over; MkfsImage has the
      files of an image and the whole run.
    - Grep: grep.c.
    - Sh, ShSpec, ShRun: sh.c: the lexer and parser, their grammar, and the
      execution of commands and lines over tables of open files.
    - Score, ScoreSpec: of ssu_score.c the scanner of the command line, the merge
      sort of the students, the comparison of outputs and the score table.
    - Blank, BlankSpec, BlankTree: of blank.c the comparison of the trees of two
      fill-in answers, the equivalence it decides, and how make_tree builds a
      tree from tokens.
    - Ext2, Ext2Spec, Ext2Cmd, Ext2Image: ssu_ext2.c.

    ** What the theorems show

    - Storage: the log is atomic under crashes at any disk write, and has room for
      every operation that logs at most nine blocks ([log_space], which also says
      what larger logs and operations need); the allocator returns the lowest free block;
      the block maps of both kernels refine maps from block numbers to blocks,
      truncation gives back exactly the blocks of a file, and reads and writes
      act on exactly the bytes of their range, on every error branch too.
    - First image: the kernel that starts on what mkfs wrote finds the host's files,
      a tree of directories that names them, an empty log, and every other block
      and inode free ([mkfs_correct]).
    - Names: a directory is a finite map, dirlookup and dirlink are its lookup
      and insertion, and path resolution walks the tree they form, leaving no
      lock held and no reference behind.
    - Devices: the buffer cache and the disk are one map from blocks to contents,
      whatever is recycled in between ([cache_refines_disk]); the console is a line
      editor ([console_refines]), its screen an 80 by 24 terminal.
    - System calls: on every path of every call, errors included, each reference,
      lock and transaction that is taken is given back or handed to an open file,
      a descriptor or the current directory ([syscalls_balanced]).
    - Memory: page tables and the free list keep their invariant, reserved
      pages read as zeros, and a page fault on one is invisible to the program
      while there is a free page; sbrk, copyout and the copy made by fork act on
      exactly the bytes of their range, and when free pages run out sbrk and fork
      have changed no address space and copyout has written a prefix.
    - Programs in memory: a program file denotes an image; exec gives the process
      exactly this image and a stack with its arguments, or changes nothing
      ([exec_correct]).
    - Processes: the invariant of the process table on every reachable state,
      fork, exit and wait on every branch with what they ask of the other
      components, and that a pass of a scheduler leaves no runnable process
      unserved, on any number of processors ([scheduler_fair]).
    - Locks: a spin lock is held by one processor at a time, with its interrupts
      off, and code that pairs acquire and release never panics
      ([spinlock_correct]).
    - Arguments: a system call reads an argument only from memory the process
      has, and fails otherwise ([args_correct]).
    - Pipes: bytes come out in the order they went in, for every interleaving.
    - Programs: malloc, below 2 GB, and free keep the blocks in use apart, and free blocks
      joined; grep's matcher decides the language of its pattern; the ext2
      reader never reads outside an image it accepted, lists and prints exactly
      what the image holds, and ends.
    - Shell: the parser accepts exactly the lines of a grammar with the trees they
      mean ([parsecmd_correct]); every program that a line starts gets the input
      and output the line says, and the shell never hangs in a wait because a pipe
      was left open ([sh_main_correct]).
    - Grading: the command lines that are accepted and what they mean
      ([parse_options_correct]), the order of the students, when two outputs count
      as the same, and that two fill-in answers whose operands do not repeat match
      exactly when their trees are equal up to commutation and turned comparisons
      ([same_answer_correct]).

    ** Fuel and bounds

    A loop that is not structural has a fuel argument, and running out is
    [Block] or [None].  Copy loops get one unit per block of the range and three
    more ([fuel_enough]); scans of directories one per entry and two more
    ([dir_fuel]); path walks one per byte of the path; the loops of the user
    programs one per byte of input, those of the ext2 reader one per byte of the
    block or line, and of the option scanner one per argument.  The functional
    theorems say [returns], so they prove that this is enough.

    ** Not modelled

    Device drivers and interrupt controllers (ide.c, kbd.c, uart.c, lapic.c,
    ioapic.c, picirq.c, mp.c), the assembly files and bootmain.c drive hardware;
    main.c, the rest of trap.c and the segments and control registers of vm.c
    depend on it.  Of ssu_score, compiling and running answers and writing the
    tables is input and output, and the tokenizer of blank.c is not modelled: the
    trees are built from tokens.  Test programs and the small user programs are
    wrappers of system calls.  ssu_cleanup is a C++ daemon made of signals,
    directory traversal and file copies.  mkfs.c of the CS kernel is
    the modelled one with another block map. *)

From stdpp Require Export base option list gmap strings.
From Stdlib Require Export ZArith Lia Bool.
From Stdlib Require Ascii String.

#[global] Open Scope Z_scope.

(** ** Outcomes of C code and the state monad

    [Panic msg] is the kernel's [panic(msg)] (or [exit] of a program after a
    fatal message); [Block] is a call that puts the caller to sleep, so that
    the operation does not return in this schedule. *)

Inductive res (A : Type) : Type :=
| Ok (a : A)
| Panic (msg : string)
| Block.
Arguments Ok {A} a.
Arguments Panic {A} msg.
Arguments Block {A}.

Definition M (S A : Type) : Type := S -> res (A * S).

#[export] Instance M_ret {S} : MRet (M S) := fun A a s => Ok (a, s).
#[export] Instance M_bind {S} : MBind (M S) := fun A B f m s =>
  match m s with
  | Ok (a, s') => f a s'
  | Panic msg => Panic msg
  | Block => Block
  end.

Definition panic {S A} (msg : string) : M S A := fun _ => Panic msg.
Definition block {S A} : M S A := fun _ => Block.
Definition get {S} : M S S := fun s => Ok (s, s).
Definition gets {S A} (f : S -> A) : M S A := fun s => Ok (f s, s).
Definition modify {S} (f : S -> S) : M S unit := fun s => Ok (tt, f s).

(** [returns m s Q]: [m] started in [s] returns, and its value and final
    state satisfy [Q].  [safe m s Q]: if it returns, they satisfy [Q]. *)
Definition returns {S A} (m : M S A) (s : S) (Q : A -> S -> Prop) : Prop :=
  match m s with Ok (a, s') => Q a s' | _ => False end.
Definition safe {S A} (m : M S A) (s : S) (Q : A -> S -> Prop) : Prop :=
  match m s with Ok (a, s') => Q a s' | _ => True end.

Section Rules.
Context {S A B : Type}.
Implicit Types (m : M S A) (s : S).

Lemma returns_ret (a : A) s (Q : A -> S -> Prop) : Q a s -> returns (mret a) s Q.
Proof. done. Qed.

Lemma returns_bind m (f : A -> M S B) s Q :
  returns m s (fun a s' => returns (f a) s' Q) -> returns (m ≫= f) s Q.
Proof. unfold returns, mbind, M_bind. by destruct (m s) as [[a s']| |]. Qed.

Lemma returns_mono m s (P Q : A -> S -> Prop) :
  returns m s P -> (forall a s', P a s' -> Q a s') -> returns m s Q.
Proof. unfold returns. destruct (m s) as [[a s']| |]; auto. Qed.

Lemma returns_eq m s Q : returns m s Q <-> exists a s', m s = Ok (a, s') /\ Q a s'.
Proof.
  unfold returns. split.
  - destruct (m s) as [[a s']| |]; [eauto|done|done].
  - by intros (a & s' & -> & HQ).
Qed.

Lemma returns_inv m s Q a s' : returns m s Q -> m s = Ok (a, s') -> Q a s'.
Proof. unfold returns. intros H E. by rewrite E in H. Qed.

Lemma safe_ret (a : A) s (Q : A -> S -> Prop) : Q a s -> safe (mret a) s Q.
Proof. done. Qed.

Lemma safe_bind m (f : A -> M S B) s Q :
  safe m s (fun a s' => safe (f a) s' Q) -> safe (m ≫= f) s Q.
Proof. unfold safe, mbind, M_bind. by destruct (m s) as [[a s']| |]. Qed.

Lemma safe_mono m s (P Q : A -> S -> Prop) :
  safe m s P -> (forall a s', P a s' -> Q a s') -> safe m s Q.
Proof. unfold safe. destruct (m s) as [[a s']| |]; auto. Qed.

Lemma safe_eq m s Q a s' : safe m s Q -> m s = Ok (a, s') -> Q a s'.
Proof. unfold safe. intros H E. by rewrite E in H. Qed.
End Rules.

Lemma returns_get {S} (s : S) (Q : S -> S -> Prop) : Q s s -> returns get s Q.
Proof. done. Qed.
Lemma returns_gets {S A} (f : S -> A) (s : S) (Q : A -> S -> Prop) : Q (f s) s -> returns (gets f) s Q.
Proof. done. Qed.
Lemma returns_modify {S} (f : S -> S) (s : S) (Q : unit -> S -> Prop) : Q tt (f s) -> returns (modify f) s Q.
Proof. done. Qed.
Lemma safe_get {S} (s : S) (Q : S -> S -> Prop) : Q s s -> safe get s Q.
Proof. done. Qed.
Lemma safe_gets {S A} (f : S -> A) (s : S) (Q : A -> S -> Prop) : Q (f s) s -> safe (gets f) s Q.
Proof. done. Qed.
Lemma safe_modify {S} (f : S -> S) (s : S) (Q : unit -> S -> Prop) : Q tt (f s) -> safe (modify f) s Q.
Proof. done. Qed.
Lemma safe_panic {S A} msg (s : S) (Q : A -> S -> Prop) : safe (panic msg) s Q.
Proof. done. Qed.

(** one step of symbolic execution of a monadic definition *)
Ltac step :=
  cbv beta zeta;
  lazymatch goal with
  | |- returns _ _ _ =>
      first [ apply returns_bind; first [apply returns_get | apply returns_gets | apply returns_modify | apply returns_ret]
            | apply returns_get | apply returns_gets | apply returns_modify | apply returns_ret ]
  | |- safe _ _ _ =>
      first [ apply safe_bind; first [apply safe_get | apply safe_gets | apply safe_modify | apply safe_ret | apply safe_panic]
            | apply safe_get | apply safe_gets | apply safe_modify | apply safe_ret | apply safe_panic ]
  | |- _ => idtac
  end;
  cbv beta zeta.

(** ** Machine integers *)

Definition u8 (x : Z) : Z := x mod 2 ^ 8.
Definition u16 (x : Z) : Z := x mod 2 ^ 16.
Definition u32 (x : Z) : Z := x mod 2 ^ 32.
Definition u64 (x : Z) : Z := x mod 2 ^ 64.
(** reinterpretation of a 32-bit pattern as a C [int] *)
Definition i32 (x : Z) : Z := (x + 2 ^ 31) mod 2 ^ 32 - 2 ^ 31.

Lemma u32_small x : 0 <= x < 2 ^ 32 -> u32 x = x.
Proof. apply Z.mod_small. Qed.
Lemma u32_range x : 0 <= u32 x < 2 ^ 32.
Proof. apply Z.mod_pos_bound. lia. Qed.
Lemma u32_wrap x : 2 ^ 32 <= x < 2 * 2 ^ 32 -> u32 x = x - 2 ^ 32.
Proof.
  intros Hx. unfold u32. symmetry. apply (Z.mod_unique_pos _ _ 1); lia.
Qed.
Lemma i32_small x : - 2 ^ 31 <= x < 2 ^ 31 -> i32 x = x.
Proof. intros. unfold i32. rewrite Z.mod_small; lia. Qed.
Lemma i32_range x : - 2 ^ 31 <= i32 x < 2 ^ 31.
Proof. unfold i32. pose proof (Z.mod_pos_bound (x + 2 ^ 31) (2 ^ 32)). lia. Qed.

(** ** Bytes and bits *)

Definition byte_ok (b : Z) : Prop := 0 <= b < 256.

(** [x & (1 << k)] is zero exactly when bit [k] of [x] is clear *)
Lemma land_bit_zero x k : 0 <= k -> (Z.land x (Z.shiftl 1 k) =? 0) = negb (Z.testbit x k).
Proof.
  intros Hk. rewrite Z.shiftl_1_l. destruct (Z.testbit x k) eqn:E; simpl.
  - apply Z.eqb_neq. intros H. apply (f_equal (fun z => Z.testbit z k)) in H.
    rewrite Z.land_spec, E, Z.pow2_bits_true, Z.bits_0 in H by done. done.
  - apply Z.eqb_eq, Z.bits_inj'. intros n Hn. rewrite Z.land_spec, Z.bits_0.
    destruct (Z.eq_dec n k) as [->|Hne]; [by rewrite E|].
    by rewrite Z.pow2_bits_false, andb_false_r by congruence.
Qed.

Lemma byte_bits_high x k : byte_ok x -> 8 <= k -> Z.testbit x k = false.
Proof.
  unfold byte_ok. intros Hx Hk. rewrite <- (Z.mod_small x (2 ^ 8)) by lia.
  by apply Z.mod_pow2_bits_high.
Qed.

Lemma byte_of_bits x : 0 <= x -> (forall k, 8 <= k -> Z.testbit x k = false) -> byte_ok x.
Proof.
  intros H0 Hb. unfold byte_ok. split; [done|]. change 256 with (2 ^ 8).
  assert (x = x mod 2 ^ 8) as ->; [|apply Z.mod_pos_bound; lia].
  apply Z.bits_inj'. intros n Hn. destruct (Z_lt_le_dec n 8).
  - by rewrite Z.mod_pow2_bits_low.
  - rewrite Z.mod_pow2_bits_high by lia. auto.
Qed.

Lemma lor_bit_spec x k j :
  0 <= k -> 0 <= j -> Z.testbit (Z.lor x (Z.shiftl 1 k)) j = (k =? j) || Z.testbit x j.
Proof.
  intros Hk Hj. rewrite Z.lor_spec, Z.shiftl_1_l, Z.pow2_bits_eqb by done. apply orb_comm.
Qed.

Lemma ldiff_bit_spec x k j :
  0 <= k -> 0 <= j -> Z.testbit (Z.land x (Z.lnot (Z.shiftl 1 k))) j = negb (k =? j) && Z.testbit x j.
Proof.
  intros Hk Hj. rewrite Z.land_spec, Z.lnot_spec, Z.shiftl_1_l, Z.pow2_bits_eqb by done.
  apply andb_comm.
Qed.

Lemma byte_ok_lor_bit x k : byte_ok x -> 0 <= k < 8 -> byte_ok (Z.lor x (Z.shiftl 1 k)).
Proof.
  intros Hx Hk. apply byte_of_bits.
  - apply Z.lor_nonneg. unfold byte_ok in Hx. rewrite Z.shiftl_1_l. lia.
  - intros j Hj. rewrite lor_bit_spec, byte_bits_high by (done || lia).
    destruct (Z.eqb_spec k j); [lia | done].
Qed.

Lemma byte_ok_ldiff_bit x k : byte_ok x -> 0 <= k < 8 -> byte_ok (Z.land x (Z.lnot (Z.shiftl 1 k))).
Proof.
  intros Hx Hk. apply byte_of_bits.
  - apply Z.land_nonneg. unfold byte_ok in Hx. lia.
  - intros j Hj. rewrite ldiff_bit_spec, byte_bits_high by (done || lia). apply andb_false_r.
Qed.

(** bit [i] of a byte array, least significant bit first, as the on-disk
    bitmaps store it *)
Definition bit_at (d : list Z) (i : Z) : bool := Z.testbit (d !!! Z.to_nat (i / 8)) (i mod 8).
Definition set_bit (d : list Z) (i : Z) : list Z :=
  <[Z.to_nat (i / 8) := Z.lor (d !!! Z.to_nat (i / 8)) (Z.shiftl 1 (i mod 8))]> d.
Definition clear_bit (d : list Z) (i : Z) : list Z :=
  <[Z.to_nat (i / 8) := Z.land (d !!! Z.to_nat (i / 8)) (Z.lnot (Z.shiftl 1 (i mod 8)))]> d.

Section Bits.
Context (d : list Z) (i j : Z).
Hypothesis Hi : 0 <= i < 8 * Z.of_nat (length d).
Hypothesis Hj : 0 <= j.

Lemma bit_index_lt : (Z.to_nat (i / 8) < length d)%nat.
Proof using Hi. Z.div_mod_to_equations. lia. Qed.

Lemma bit_same_byte : Z.to_nat (i / 8) = Z.to_nat (j / 8) -> i / 8 = j / 8.
Proof using Hi Hj. intros H. Z.div_mod_to_equations. lia. Qed.

Lemma bit_at_update f g :
  (forall x k k', 0 <= k < 8 -> 0 <= k' < 8 ->
    Z.testbit (f x k) k' = g (k =? k') (Z.testbit x k')) ->
  (forall b, g false b = b) ->
  bit_at (<[Z.to_nat (i / 8) := f (d !!! Z.to_nat (i / 8)) (i mod 8)]> d) j
    = g (i =? j) (bit_at d j).
Proof using Hi Hj.
  intros Hf Hg. unfold bit_at.
  pose proof (Z.mod_pos_bound i 8 ltac:(lia)). pose proof (Z.mod_pos_bound j 8 ltac:(lia)).
  destruct (decide (Z.to_nat (i / 8) = Z.to_nat (j / 8))) as [E|E].
  - rewrite <- E, list_lookup_total_insert_eq by apply bit_index_lt.
    rewrite Hf by lia. f_equal. apply bit_same_byte in E.
    apply eq_true_iff_eq. rewrite !Z.eqb_eq. Z.div_mod_to_equations. lia.
  - rewrite list_lookup_total_insert_ne by done.
    destruct (Z.eqb_spec i j) as [->|]; [done | by rewrite Hg].
Qed.

Lemma bit_at_set : bit_at (set_bit d i) j = (i =? j) || bit_at d j.
Proof using Hi Hj.
  apply (bit_at_update (fun x k => Z.lor x (Z.shiftl 1 k)) orb); [|done].
  intros. by rewrite lor_bit_spec by lia.
Qed.

Lemma bit_at_clear : bit_at (clear_bit d i) j = negb (i =? j) && bit_at d j.
Proof using Hi Hj.
  apply (bit_at_update (fun x k => Z.land x (Z.lnot (Z.shiftl 1 k))) (fun e b => negb e && b)); [|done].
  intros. by rewrite ldiff_bit_spec by lia.
Qed.
End Bits.

Lemma length_set_bit d i : length (set_bit d i) = length d.
Proof. apply length_insert. Qed.
Lemma length_clear_bit d i : length (clear_bit d i) = length d.
Proof. apply length_insert. Qed.

(** ** Little-endian integers in byte arrays *)

Fixpoint le_bytes (n : nat) (v : Z) : list Z :=
  match n with
  | O => []
  | S n' => v mod 256 :: le_bytes n' (v / 256)
  end.

Fixpoint le_val (l : list Z) : Z :=
  match l with
  | [] => 0
  | b :: l' => b + 256 * le_val l'
  end.

Lemma length_le_bytes n v : length (le_bytes n v) = n.
Proof. revert v. induction n as [|n IH]; intros v; simpl; [done | by rewrite IH]. Qed.

Lemma le_val_bytes n v : le_val (le_bytes n v) = v mod 256 ^ Z.of_nat n.
Proof.
  revert v. induction n as [|n IH]; intros v.
  - simpl. by rewrite Z.mod_1_r.
  - cbn [le_bytes le_val]. rewrite IH, Nat2Z.inj_succ, Z.pow_succ_r by lia.
    rewrite Z.rem_mul_r by lia. done.
Qed.

Lemma le_val_range l : Forall byte_ok l -> 0 <= le_val l < 256 ^ Z.of_nat (length l).
Proof.
  induction 1 as [|b l Hb _ IH]; [done|]. cbn [le_val length].
  rewrite Nat2Z.inj_succ, Z.pow_succ_r by lia. unfold byte_ok in Hb. nia.
Qed.

Lemma le_bytes_ok n v : Forall byte_ok (le_bytes n v).
Proof.
  revert v. induction n as [|n IH]; intros v; simpl; constructor; [|done].
  unfold byte_ok. apply Z.mod_pos_bound. lia.
Qed.

Lemma le_val32 v : 0 <= v < 2 ^ 32 -> le_val (le_bytes 4 v) = v.
Proof. intros. rewrite le_val_bytes. by apply Z.mod_small. Qed.

(** reinterpretation of a 16-bit pattern as a C [short] *)
Definition i16 (x : Z) : Z := (x + 2 ^ 15) mod 2 ^ 16 - 2 ^ 15.

Lemma i16_le v : - 2 ^ 15 <= v < 2 ^ 15 -> i16 (le_val (le_bytes 2 v)) = v.
Proof.
  intros. rewrite le_val_bytes. unfold i16. change (256 ^ Z.of_nat 2) with (2 ^ 16).
  Z.div_mod_to_equations. lia.
Qed.

(** ** Ranges of arrays *)

(** [slice l off n]: [n] elements from [off];  [splice l off x]: store [x] at
    [off] *)
Definition slice (l : list Z) (off n : Z) : list Z := take (Z.to_nat n) (drop (Z.to_nat off) l).
Definition splice (l : list Z) (off : Z) (x : list Z) : list Z :=
  take (Z.to_nat off) l ++ x ++ drop (Z.to_nat off + length x) l.

Lemma length_splice l off x :
  0 <= off -> off + Z.of_nat (length x) <= Z.of_nat (length l) -> length (splice l off x) = length l.
Proof. intros. unfold splice. rewrite !length_app, length_take, length_drop. lia. Qed.

Lemma length_slice l off n :
  0 <= off -> 0 <= n -> off + n <= Z.of_nat (length l) -> length (slice l off n) = Z.to_nat n.
Proof. intros. unfold slice. rewrite length_take, length_drop. lia. Qed.

Lemma slice_splice_same l off x n :
  0 <= off -> off + Z.of_nat (length x) <= Z.of_nat (length l) -> n = Z.of_nat (length x) ->
  slice (splice l off x) off n = x.
Proof.
  intros H1 H2 ->. unfold slice, splice. rewrite drop_app_length', Nat2Z.id.
  - by rewrite take_app_length.
  - rewrite length_take. lia.
Qed.

Lemma splice_lookup_out l off x i :
  0 <= off -> off + Z.of_nat (length x) <= Z.of_nat (length l) ->
  (i < Z.to_nat off \/ Z.to_nat off + length x <= i)%nat ->
  splice l off x !! i = l !! i.
Proof.
  intros H1 H2 Hi. unfold splice. destruct Hi as [Hi|Hi].
  - rewrite lookup_app_l by (rewrite length_take; lia). by rewrite lookup_take_lt.
  - rewrite lookup_app_r; rewrite length_take; [|lia].
    rewrite lookup_app_r by lia. rewrite lookup_drop. f_equal. lia.
Qed.

Lemma splice_lookup l off x i :
  0 <= off <= Z.of_nat (length l) ->
  splice l off x !! i =
    if decide (i < Z.to_nat off)%nat then l !! i
    else if decide (i < Z.to_nat off + length x)%nat then x !! (i - Z.to_nat off)%nat else l !! i.
Proof.
  intros H. unfold splice. repeat case_decide.
  - rewrite lookup_app_l by (rewrite length_take; lia). by rewrite lookup_take_lt.
  - rewrite lookup_app_r; rewrite length_take; [|lia]. rewrite lookup_app_l by lia. f_equal. lia.
  - rewrite lookup_app_r; rewrite length_take; [|lia]. rewrite lookup_app_r by lia.
    rewrite lookup_drop. f_equal. lia.
Qed.

(** two adjacent stores are one *)
Lemma splice_splice_next l off x y :
  0 <= off <= Z.of_nat (length l) ->
  splice (splice l off x) (off + Z.of_nat (length x)) y = splice l off (x ++ y).
Proof.
  intros H. assert (length (splice l off x) >= Z.to_nat off + length x)%nat as HL.
  { unfold splice. rewrite !length_app, length_take. lia. }
  apply list_eq. intros i. rewrite !splice_lookup by lia. rewrite length_app.
  repeat case_decide; try done; try lia.
  - rewrite lookup_app_l by lia. done.
  - rewrite lookup_app_r by lia. f_equal. lia.
Qed.

Lemma take_splice l x off e :
  0 <= off <= e -> e <= Z.of_nat (length l) -> off + Z.of_nat (length x) <= Z.of_nat (length l) ->
  take (Z.to_nat (Z.max e (off + Z.of_nat (length x)))) (splice l off x) = splice (take (Z.to_nat e) l) off x.
Proof.
  intros H1 H2 H3. apply list_eq. intros i. rewrite splice_lookup by (rewrite length_take; lia).
  destruct (decide (i < Z.to_nat (Z.max e (off + Z.of_nat (length x))))%nat).
  - rewrite lookup_take_lt, splice_lookup by lia. repeat case_decide; try done; rewrite lookup_take_lt by lia; done.
  - rewrite lookup_take_ge by lia. repeat case_decide; try lia. by rewrite lookup_take_ge by lia.
Qed.

Lemma slice_splice_other l off x off' n :
  0 <= off -> 0 <= off' -> 0 <= n -> off + Z.of_nat (length x) <= Z.of_nat (length l) ->
  off' + n <= off \/ off + Z.of_nat (length x) <= off' ->
  slice (splice l off x) off' n = slice l off' n.
Proof.
  intros H1 H2 H3 H4 Hd. apply list_eq. intros i. unfold slice.
  destruct (decide (i < Z.to_nat n)%nat) as [Hi|Hi].
  - rewrite !lookup_take_lt, !lookup_drop by done. apply splice_lookup_out; lia.
  - rewrite !lookup_take_ge by lia. done.
Qed.

Lemma slice_splice_in l off x a n :
  0 <= off -> 0 <= a -> 0 <= n -> off + Z.of_nat (length x) <= Z.of_nat (length l) ->
  a + n <= Z.of_nat (length x) -> slice (splice l off x) (off + a) n = slice x a n.
Proof.
  intros H1 H2 H3 H4 H5. apply list_eq. intros i. unfold slice.
  destruct (decide (i < Z.to_nat n)%nat) as [Hi|Hi].
  - rewrite !lookup_take_lt, !lookup_drop by done. unfold splice.
    rewrite lookup_app_r; rewrite length_take; [|lia].
    rewrite lookup_app_l by lia. f_equal. lia.
  - rewrite !lookup_take_ge by lia. done.
Qed.

(** arrays of 32-bit words *)
Lemma slice_words (l : list Z) k :
  0 <= k < Z.of_nat (length l) -> slice (l ≫= le_bytes 4) (4 * k) 4 = le_bytes 4 (l !!! Z.to_nat k).
Proof.
  intros Hk. assert (exists n, k = Z.of_nat n /\ (n < length l)%nat) as (n & -> & Hn).
  { exists (Z.to_nat k). lia. }
  clear Hk. rewrite Nat2Z.id. unfold slice. replace (Z.to_nat (4 * Z.of_nat n)) with (4 * n)%nat by lia.
  change (Z.to_nat 4) with 4%nat. revert n Hn. induction l as [|x l IH]; intros n Hn; simpl in Hn; [lia|].
  rewrite bind_cons. destruct n as [|n].
  - simpl. by rewrite take_0.
  - replace (4 * S n)%nat with (length (le_bytes 4 x) + 4 * n)%nat by (rewrite length_le_bytes; lia).
    rewrite drop_app_add. apply IH. lia.
Qed.

Lemma length_words (l : list Z) : length (l ≫= le_bytes 4) = (4 * length l)%nat.
Proof.
  induction l as [|x l IH]; [done|]. rewrite bind_cons, length_app, length_le_bytes, IH. simpl. lia.
Qed.

Lemma list_alter_insert {A} (f : A -> A) (l : list A) i x :
  l !! i = Some x -> alter f i l = <[i := f x]> l.
Proof.
  intros Hx. apply list_eq. intros j. rewrite list_lookup_alter. case_decide as E.
  - subst. rewrite Hx, list_lookup_insert_eq by (by eapply lookup_lt_Some). done.
  - by rewrite list_lookup_insert_ne.
Qed.

Lemma seqZ_lookup_map (l : list Z) :
  (fun k => l !!! Z.to_nat k) <$> seqZ 0 (Z.of_nat (length l)) = l.
Proof.
  apply list_eq. intros n. rewrite list_lookup_fmap.
  destruct (decide (n < length l)%nat) as [Hn|Hn].
  - rewrite lookup_seqZ_lt by lia. cbn [fmap option_fmap option_map]. rewrite Z.add_0_l, Nat2Z.id. symmetry. by apply list_lookup_lookup_total_lt.
  - rewrite lookup_seqZ_ge by lia. simpl. symmetry. apply lookup_ge_None. lia.
Qed.

(** prefixes of a concatenation *)
Lemma prefix_app_cases {A} (p a b : list A) :
  p `prefix_of` a ++ b -> p `prefix_of` a \/ exists q, p = a ++ q /\ q `prefix_of` b.
Proof.
  intros [k E]. symmetry in E. apply app_eq_inv in E as [(q & -> & ->)|(q & -> & ->)].
  - right. exists q. split; [done|]. by exists k.
  - left. by exists q.
Qed.

Lemma prefix_singleton_cases {A} (q : list A) x : q `prefix_of` [x] -> q = [] \/ q = [x].
Proof.
  intros [k E]. destruct q as [|y [|z q]]; [by left | right; by simplify_eq/= | by simplify_eq/=].
Qed.

(** replacing the continuation of a bind *)
Lemma bind_ext_r {S A B} (m : M S A) (f g : A -> M S B) s :
  (forall a s', f a s' = g a s') -> (m ≫= f) s = (m ≫= g) s.
Proof. intros H. unfold mbind, M_bind. destruct (m s) as [[a s']| |]; [apply H | done | done]. Qed.

Lemma bind_assoc {S A B C} (m : M S A) (f : A -> M S B) (g : B -> M S C) s :
  ((m ≫= f) ≫= g) s = (m ≫= fun a => f a ≫= g) s.
Proof. unfold mbind, M_bind. by destruct (m s) as [[a s']| |]. Qed.

Lemma returns_ext {S A} (m m' : M S A) s (Q : A -> S -> Prop) : m s = m' s -> returns m' s Q -> returns m s Q.
Proof. unfold returns. by intros ->. Qed.

(** ** Counting occurrences *)

Fixpoint occ (k : nat) (l : list nat) : Z :=
  match l with
  | [] => 0
  | x :: l' => (if decide (x = k) then 1 else 0) + occ k l'
  end.

Lemma occ_app k a b : occ k (a ++ b) = occ k a + occ k b.
Proof. induction a as [|x a IH]; simpl; [done | lia]. Qed.
Lemma occ_perm k a b : a ≡ₚ b -> occ k a = occ k b.
Proof. induction 1; simpl; lia. Qed.
Lemma occ_nonneg k l : 0 <= occ k l.
Proof. induction l as [|x l IH]; simpl; [done|]. case_decide; lia. Qed.
Lemma occ_in k l : k ∈ l -> 1 <= occ k l.
Proof.
  induction l as [|x l IH]; intros Hk; [by apply elem_of_nil in Hk|]. simpl. apply elem_of_cons in Hk as [->|Hk].
  - rewrite decide_True by done. pose proof (occ_nonneg x l). lia.
  - specialize (IH Hk). case_decide; lia.
Qed.
Lemma occ_length k l : occ k l <= Z.of_nat (length l).
Proof. induction l as [|x l IH]; simpl; [done|]. case_decide; lia. Qed.

(** ** Running a concrete computation *)

Definition final {S A} (m : M S A) (s : S) : S := match m s with Ok (_, s') => s' | _ => s end.
Definition finishes {S A} (m : M S A) (s : S) : bool := match m s with Ok _ => true | _ => false end.
Lemma finishes_eq {S A} (m : M S A) s : finishes m s = true -> exists r, m s = Ok (r, final m s).
Proof. unfold finishes, final. destruct (m s) as [[r s']| |]; [by exists r | done | done]. Qed.
