(* ===== verification/Pipe.v ===== *)
(** * Pipes: [pipe.c] of the lazy-allocation kernel (the file is the same in
    both kernels).

    A pipe is a ring buffer indexed by two free-running 32-bit counters.  One
    call of [pipewrite]/[piperead] runs under [p->lock]; [sleep] gives the lock
    up, so an operation is modelled as a sequence of critical sections: a run
    ends by returning or by sleeping at loop index [i], and a sleeping writer
    is later resumed at that same index.  [wakeup] calls are recorded, in
    order, in [woken]. *)

From S2P Require Import Prelude.

Definition PIPESIZE : Z := 512.

(** the two sleep channels, [&p->nread] and [&p->nwrite] *)
Inductive chan : Set := CH_nread | CH_nwrite.
#[export] Instance chan_eq_dec : EqDecision chan.
Proof. solve_decision. Defined.

Record pipe : Type := mkpipe {
  data : list Z;
  nread : Z;
  nwrite : Z;
  readopen : Z;
  writeopen : Z;
  woken : list chan
}.

Inductive run (A : Type) : Type :=
| Returned (r : A)
| Sleeping (i : Z).
Arguments Returned {A} r.
Arguments Sleeping {A} i.

Definition wakeup (c : chan) (p : pipe) : pipe :=
  mkpipe (data p) (nread p) (nwrite p) (readopen p) (writeopen p) (woken p ++ [c]).

(** the state set up by [pipealloc] in a page obtained from [kalloc] *)
Definition pipealloc_init (page : list Z) : pipe := mkpipe page 0 0 1 1 [].

(** [pipeclose]; the boolean says that the page was given back to [kfree] *)
Definition pipeclose (p : pipe) (writable : Z) : pipe * bool :=
  let p1 :=
    if negb (writable =? 0)
    then wakeup CH_nread (mkpipe (data p) (nread p) (nwrite p) (readopen p) 0 (woken p))
    else wakeup CH_nwrite (mkpipe (data p) (nread p) (nwrite p) 0 (writeopen p) (woken p)) in
  (p1, (readopen p1 =? 0) && (writeopen p1 =? 0)).

(** [p->data[p->nwrite++ % PIPESIZE] = c] *)
Definition put (c : Z) (p : pipe) : pipe :=
  mkpipe (<[Z.to_nat (nwrite p mod PIPESIZE) := c]> (data p))
    (nread p) (u32 (nwrite p + 1)) (readopen p) (writeopen p) (woken p).

(** [p->data[p->nread++ % PIPESIZE]] *)
Definition take1 (p : pipe) : Z * pipe :=
  (data p !!! Z.to_nat (nread p mod PIPESIZE),
   mkpipe (data p) (u32 (nread p + 1)) (nwrite p) (readopen p) (writeopen p) (woken p)).

Definition full (p : pipe) : bool := nwrite p =? u32 (nread p + PIPESIZE).

(** [pipewrite] from loop index [i] ([k] counts the [n - i] remaining
    iterations), up to its next [sleep] or its return *)
Fixpoint pipewrite_loop (k : nat) (killed : bool) (addr : Z -> Z) (n i : Z) (p : pipe)
  : run Z * pipe :=
  match k with
  | O => (Returned n, wakeup CH_nread p)
  | S k' =>
      if full p then
        if (readopen p =? 0) || killed then (Returned (-1), p)
        else (Sleeping i, wakeup CH_nread p)
      else pipewrite_loop k' killed addr n (i + 1) (put (addr i) p)
  end.

Definition pipewrite (p : pipe) (killed : bool) (addr : Z -> Z) (n i : Z) : run Z * pipe :=
  pipewrite_loop (Z.to_nat (n - i)) killed addr n i p.

(** the copy loop of [piperead]: the bytes stored to [addr[0..]] *)
Fixpoint piperead_copy (k : nat) (p : pipe) : list Z * pipe :=
  match k with
  | O => ([], p)
  | S k' =>
      if nread p =? nwrite p then ([], p)
      else let '(c, p1) := take1 p in
           let '(cs, p2) := piperead_copy k' p1 in (c :: cs, p2)
  end.

(** [piperead]: [None] is the return value -1, [Some bytes] the bytes copied
    (the return value is their number) *)
Definition piperead (p : pipe) (killed : bool) (n : Z) : run (option (list Z)) * pipe :=
  if (nread p =? nwrite p) && negb (writeopen p =? 0) then
    if killed then (Returned None, p) else (Sleeping 0, p)
  else
    let '(cs, p1) := piperead_copy (Z.to_nat n) p in
    (Returned (Some cs), wakeup CH_nwrite p1).

(** ** The queue a pipe represents *)

Definition count (p : pipe) : Z := u32 (nwrite p - nread p).

Definition contents (p : pipe) : list Z :=
  (fun j => data p !!! Z.to_nat ((nread p + Z.of_nat j) mod PIPESIZE)) <$> seq 0 (Z.to_nat (count p)).

Record pipe_ok (p : pipe) : Prop := {
  ok_len : length (data p) = Z.to_nat PIPESIZE;
  ok_rd : 0 <= nread p < 2 ^ 32;
  ok_wr : 0 <= nwrite p < 2 ^ 32;
  ok_cnt : count p <= PIPESIZE
}.

Lemma full_iff p : pipe_ok p -> full p = true <-> count p = PIPESIZE.
Proof.
  intros [_ Hr Hw Hc]. unfold full, count, PIPESIZE, u32 in *. rewrite Z.eqb_eq.
  split; intros H; Z.div_mod_to_equations; lia.
Qed.

Lemma empty_iff p : pipe_ok p -> nread p = nwrite p <-> count p = 0.
Proof.
  intros [_ Hr Hw Hc]. unfold count, u32 in *.
  split; intros H; Z.div_mod_to_equations; lia.
Qed.

Lemma length_contents p : length (contents p) = Z.to_nat (count p).
Proof. unfold contents. by rewrite length_fmap, length_seq. Qed.

Lemma count_nonneg p : 0 <= count p.
Proof. unfold count. apply u32_range. Qed.

Lemma contents_wakeup c p : contents (wakeup c p) = contents p.
Proof. done. Qed.
Lemma pipe_ok_wakeup c p : pipe_ok p -> pipe_ok (wakeup c p).
Proof. by intros [????]. Qed.

(** writing one byte appends it to the queue *)
Lemma count_put c p : pipe_ok p -> full p = false -> count (put c p) = count p + 1.
Proof.
  intros Hok Hf. assert (count p <> PIPESIZE) as Hne.
  { intros E. apply full_iff in E; [congruence | done]. }
  destruct Hok as [_ Hr Hw Hc]. unfold count, put, PIPESIZE, u32 in *; simpl in *.
  Z.div_mod_to_equations; lia.
Qed.

Lemma pipe_ok_put c p : pipe_ok p -> full p = false -> pipe_ok (put c p).
Proof.
  intros Hok Hf. pose proof (count_put c p Hok Hf) as E.
  assert (count p <> PIPESIZE) as Hne.
  { intros E'. apply full_iff in E'; [congruence | done]. }
  destruct Hok as [Hl Hr Hw Hc]. split; simpl; [|done| |lia].
  - by rewrite length_insert.
  - apply u32_range.
Qed.

Lemma ring_index_ne r w j :
  0 <= r < 2 ^ 32 -> 0 <= w < 2 ^ 32 -> 0 <= j < u32 (w - r) -> u32 (w - r) < PIPESIZE ->
  w mod PIPESIZE <> (r + j) mod PIPESIZE.
Proof. unfold u32, PIPESIZE. intros. Z.div_mod_to_equations; lia. Qed.

Lemma contents_put c p :
  pipe_ok p -> full p = false -> contents (put c p) = contents p ++ [c].
Proof.
  intros Hok Hf. pose proof (count_put c p Hok Hf) as E.
  pose proof (count_nonneg p) as H0.
  assert (count p < PIPESIZE) as Hlt.
  { assert (count p <> PIPESIZE) by (intros E'; apply full_iff in E'; [congruence | done]).
    destruct Hok; lia. }
  destruct Hok as [Hl Hr Hw Hc]. unfold contents at 1. rewrite E.
  replace (Z.to_nat (count p + 1)) with (Z.to_nat (count p) + 1)%nat by lia.
  rewrite seq_app, fmap_app. cbn [seq fmap list_fmap put data nread]. f_equal.
  - apply list_fmap_ext. intros i x Hx. apply lookup_seq in Hx as [-> Hi].
    rewrite list_lookup_total_insert_ne; [done|].
    pose proof (ring_index_ne (nread p) (nwrite p) (Z.of_nat i)) as Hne.
    unfold count in *. simpl in *.
    specialize (Hne Hr Hw ltac:(lia) Hlt). unfold PIPESIZE in *.
    intros Heq. apply Hne. apply Z2Nat.inj in Heq; [done| |]; apply Z.mod_pos_bound; lia.
  - f_equal. rewrite Nat.add_0_l.
    replace ((nread p + Z.of_nat (Z.to_nat (count p))) mod PIPESIZE) with (nwrite p mod PIPESIZE).
    + rewrite list_lookup_total_insert_eq; [done|]. rewrite Hl. unfold PIPESIZE.
      apply Z2Nat.inj_lt; [apply Z.mod_pos_bound; lia | lia |].
      apply Z.mod_pos_bound; lia.
    + rewrite Z2Nat.id by lia. unfold count, u32, PIPESIZE in *.
      Z.div_mod_to_equations; lia.
Qed.

(** reading one byte removes the oldest one *)
Lemma take1_spec p :
  pipe_ok p -> nread p <> nwrite p ->
  contents p = (take1 p).1 :: contents (take1 p).2 /\ pipe_ok (take1 p).2.
Proof.
  intros Hok Hne. assert (count p <> 0) as Hc0.
  { intros E. apply empty_iff in E; [congruence | done]. }
  pose proof (count_nonneg p) as H0.
  assert (count (take1 p).2 = count p - 1) as E.
  { destruct Hok as [_ Hr Hw Hc]. unfold count in *; simpl in *; unfold u32, PIPESIZE in *.
    Z.div_mod_to_equations; lia. }
  destruct Hok as [Hl Hr Hw Hc]. split.
  - unfold contents at 1. replace (Z.to_nat (count p)) with (S (Z.to_nat (count p - 1))) by lia.
    cbn [seq]. rewrite fmap_cons. rewrite Z.add_0_r. f_equal. unfold contents. rewrite E.
    rewrite <- fmap_S_seq, <- list_fmap_compose. apply list_fmap_ext.
    intros i x Hx. simpl. unfold u32, PIPESIZE. do 2 f_equal.
    Z.div_mod_to_equations; lia.
  - split; simpl; [done | apply u32_range | done |]. simpl in E. unfold PIPESIZE in *. lia.
Qed.

(** ** Runs of the two operations *)

Definition same_ends (p p' : pipe) : Prop :=
  readopen p' = readopen p /\ writeopen p' = writeopen p.

Definition write_ended (killed : bool) (n i m : Z) (p' : pipe) (r : run Z) : Prop :=
  match r with
  | Sleeping j => j = i + m /\ count p' = PIPESIZE /\ readopen p' <> 0 /\ killed = false
                  /\ last (woken p') = Some CH_nread
  | Returned v =>
      (v = n /\ m = Z.max 0 (n - i) /\ last (woken p') = Some CH_nread)
      \/ (v = -1 /\ m < n - i /\ count p' = PIPESIZE /\ (readopen p' = 0 \/ killed = true))
  end.

Lemma pipewrite_loop_spec k killed addr n i p :
  pipe_ok p -> k = Z.to_nat (n - i) ->
  let '(r, p') := pipewrite_loop k killed addr n i p in
  pipe_ok p' /\ same_ends p p' /\
  exists m, 0 <= m /\ contents p' = contents p ++ (addr <$> seqZ i m) /\
            write_ended killed n i m p' r.
Proof.
  revert i p. induction k as [|k IH]; intros i p Hok Hk; cbn [pipewrite_loop].
  - split_and!; [by apply pipe_ok_wakeup | done |].
    exists 0. simpl. rewrite app_nil_r. rewrite last_snoc. split_and!; [lia | done |].
    left. split_and!; [done | lia | done].
  - destruct (full p) eqn:Ef.
    + apply full_iff in Ef as Ec; [|done].
      destruct ((readopen p =? 0) || killed) eqn:Eb.
      * split_and!; [done | done |]. exists 0. simpl. rewrite app_nil_r.
        split_and!; [lia | done |]. right. rewrite orb_true_iff, Z.eqb_eq in Eb.
        split_and!; [done | lia | done | done].
      * apply orb_false_iff in Eb as [E1 ->]. apply Z.eqb_neq in E1.
        split_and!; [by apply pipe_ok_wakeup | done |].
        exists 0. simpl. rewrite app_nil_r, last_snoc. split_and!; try done; lia.
    + specialize (IH (i + 1) (put (addr i) p) (pipe_ok_put _ _ Hok Ef) ltac:(lia)).
      destruct (pipewrite_loop k killed addr n (i + 1) (put (addr i) p)) as [r p'].
      destruct IH as (Hok' & [Hr Hw] & m & Hm & Hc & Hend).
      split_and!; [done | done |]. exists (m + 1). split_and!; [lia | |].
      * rewrite Hc, contents_put, <- (assoc_L (++)) by done. f_equal.
        by rewrite (Z.add_comm m 1), (seqZ_app i 1 m), fmap_app by lia.
      * destruct r as [v|j]; simpl in *; [|naive_solver lia].
        destruct Hend as [(-> & -> & Hl)|(-> & ? & ? & ?)]; [left|right]; split_and!; auto; lia.
Qed.

Lemma piperead_copy_spec k p :
  pipe_ok p ->
  let '(cs, p') := piperead_copy k p in
  pipe_ok p' /\ same_ends p p' /\ contents p = cs ++ contents p' /\
  cs = take k (contents p).
Proof.
  revert p. induction k as [|k IH]; intros p Hok; cbn [piperead_copy].
  - split_and!; done.
  - destruct (Z.eqb_spec (nread p) (nwrite p)) as [E|E].
    + split_and!; [done | done | done |].
      apply empty_iff in E; [|done].
      assert (length (contents p) = 0%nat) as Hl by (rewrite length_contents; lia).
      apply nil_length_inv in Hl. by rewrite Hl.
    + destruct (take1_spec p Hok E) as [Hc Hok1]. destruct (take1 p) as [c p1] eqn:Et.
      simpl in *. specialize (IH p1 Hok1). destruct (piperead_copy k p1) as [cs p2].
      destruct IH as (Hok2 & Hse & Hc2 & ->).
      assert (same_ends p p1) as Hse1 by (unfold take1 in Et; by simplify_eq).
      destruct Hse, Hse1. split_and!; [done | unfold same_ends; split; congruence | |].
      * rewrite Hc, Hc2 at 1. done.
      * by rewrite Hc.
Qed.

(** ** The pipe as a FIFO between arbitrarily interleaved writers and readers

    [hist] pairs the pipe with the bytes accepted so far and the bytes handed
    out so far.  Each step is one critical section of some process, so every
    interleaving of any number of writers and readers is a path. *)

Record hist : Type := mkhist { hp : pipe; hw : list Z; hr : list Z }.

Definition accepted (p p' : pipe) (addr : Z -> Z) (i : Z) : list Z :=
  addr <$> seqZ i (count p' - count p).

Definition copied (r : run (option (list Z))) : list Z :=
  match r with Returned (Some cs) => cs | _ => [] end.

Inductive step : hist -> hist -> Prop :=
| step_write killed addr n i r p' h :
    pipewrite (hp h) killed addr n i = (r, p') ->
    step h (mkhist p' (hw h ++ accepted (hp h) p' addr i) (hr h))
| step_read killed n r p' h :
    piperead (hp h) killed n = (r, p') ->
    step h (mkhist p' (hw h) (hr h ++ copied r))
| step_close w p' h :
    pipeclose (hp h) w = (p', false) ->
    step h (mkhist p' (hw h) (hr h)).

Definition fifo (h : hist) : Prop := pipe_ok (hp h) /\ hw h = hr h ++ contents (hp h).

Lemma count_contents p : count p = Z.of_nat (length (contents p)).
Proof. rewrite length_contents, Z2Nat.id; [done | apply count_nonneg]. Qed.

Lemma pipe_ok_close p w : pipe_ok p -> pipe_ok (pipeclose p w).1.
Proof. intros [????]. unfold pipeclose. by destruct (negb _). Qed.
Lemma contents_close p w : contents (pipeclose p w).1 = contents p.
Proof. unfold pipeclose. by destruct (negb _). Qed.

Lemma step_fifo h h' : step h h' -> fifo h -> fifo h'.
Proof.
  intros Hs [Hok Hf]. unfold fifo.
  destruct Hs as [killed addr n i r p' h E|killed n r p' h E|w p' h E]; cbn [hp hw hr].
  - pose proof (pipewrite_loop_spec _ killed addr n i _ Hok eq_refl) as H.
    unfold pipewrite in E. rewrite E in H.
    destruct H as (Hok' & _ & m & Hm & Hc & _). split; [done|].
    rewrite Hf, Hc, <- (assoc_L (++)). do 2 f_equal. unfold accepted. do 2 f_equal.
    rewrite !count_contents, Hc, length_app, length_fmap, length_seqZ. lia.
  - unfold piperead in E. destruct (_ && _).
    + destruct killed; simplify_eq; simpl; by rewrite app_nil_r.
    + pose proof (piperead_copy_spec (Z.to_nat n) _ Hok) as H.
      destruct (piperead_copy _ _) as [cs p1]. simplify_eq; simpl.
      destruct H as (Hok1 & _ & Hc & _). split; [by apply pipe_ok_wakeup|].
      rewrite contents_wakeup, Hf, Hc. by rewrite (assoc_L (++)).
  - rewrite <- (f_equal fst E : _ = p'). rewrite contents_close. auto using pipe_ok_close.
Qed.

Lemma init_fifo page :
  length page = Z.to_nat PIPESIZE -> fifo (mkhist (pipealloc_init page) [] []).
Proof. intros Hl. split; [split; simpl; try done; lia | done]. Qed.

(** C30: In every interleaving of writers, readers and closers of a pipe, the
    bytes handed to readers are a prefix of the bytes accepted from writers, in
    order, and the rest is what the 512-byte ring still holds.  The 32-bit
    counters may wrap any number of times. *)
Theorem pipe_fifo page h :
  length page = Z.to_nat PIPESIZE ->
  rtc step (mkhist (pipealloc_init page) [] []) h ->
  hw h = hr h ++ contents (hp h) /\ Z.of_nat (length (contents (hp h))) <= PIPESIZE.
Proof.
  intros Hl Hrtc. assert (fifo h) as [Hok Hf].
  { apply init_fifo in Hl. induction Hrtc; eauto using step_fifo. }
  split; [done|]. rewrite <- count_contents. by destruct Hok.
Qed.

Definition demo_page : list Z := replicate 512 7.

Lemma pipe_fifo_witness :
  exists h, hr h = [10; 11] /\ hw h = hr h ++ contents (hp h) /\
            Z.of_nat (length (contents (hp h))) <= PIPESIZE.
Proof.
  eexists. split; [|apply (pipe_fifo demo_page)]; [| done |].
  - shelve.
  - eapply rtc_l; [eapply (step_write false (fun i => 10 + i) 5 0); reflexivity|].
    eapply rtc_l; [eapply (step_read false 2); reflexivity|]. apply rtc_refl.
  Unshelve. vm_compute. reflexivity.
Defined.

(** a run of [pipewrite] appends to the queue exactly the next bytes of
    the caller's buffer and ends in one of three ways: it returns [n] with all
    remaining bytes accepted and readers woken; it sleeps at the index of the
    first byte not accepted, with the pipe full, its read end open and readers
    woken; or it returns -1 with the pipe full and the read end closed or the
    caller killed. *)
Theorem pipewrite_correct killed addr n i p r p' :
  pipe_ok p -> pipewrite p killed addr n i = (r, p') ->
  pipe_ok p' /\ same_ends p p' /\
  exists m, 0 <= m /\ contents p' = contents p ++ (addr <$> seqZ i m) /\
            write_ended killed n i m p' r.
Proof.
  intros Hok E. pose proof (pipewrite_loop_spec _ killed addr n i p Hok eq_refl) as H.
  unfold pipewrite in E. by rewrite E in H.
Qed.

Lemma pipewrite_correct_witness :
  exists m, 0 <= m /\
    contents (pipewrite (pipealloc_init demo_page) false (fun i => i) 3 1).2
      = contents (pipealloc_init demo_page) ++ ((fun i => i) <$> seqZ 1 m).
Proof.
  pose proof (pipewrite_correct false (fun i => i) 3 1 (pipealloc_init demo_page)
    (pipewrite (pipealloc_init demo_page) false (fun i => i) 3 1).1
    (pipewrite (pipealloc_init demo_page) false (fun i => i) 3 1).2
    (proj1 (init_fifo demo_page eq_refl)) (surjective_pairing _)) as (_ & _ & m & Hm & Hc & _).
  exists m. split; [exact Hm | exact Hc].
Defined.

(** [piperead] sleeps exactly when the pipe is empty, the write end is
    open and the caller is not killed; otherwise (not killed) it returns the
    oldest [min n count] bytes, removes exactly those, and wakes writers. *)
Theorem piperead_correct killed n p :
  pipe_ok p ->
  let '(r, p') := piperead p killed n in
  if bool_decide (contents p = []) && negb (writeopen p =? 0)
  then p' = p /\ r = (if killed then Returned None else Sleeping 0)
  else r = Returned (Some (take (Z.to_nat n) (contents p))) /\
       contents p' = drop (Z.to_nat n) (contents p) /\ pipe_ok p' /\
       last (woken p') = Some CH_nwrite.
Proof.
  intros Hok. unfold piperead.
  assert (bool_decide (contents p = []) = (nread p =? nwrite p)) as ->.
  { apply eq_true_iff_eq. rewrite bool_decide_eq_true, Z.eqb_eq, empty_iff by done.
    rewrite count_contents. destruct (contents p); simpl; split; intros; try done; lia. }
  destruct (_ && _).
  - by destruct killed.
  - pose proof (piperead_copy_spec (Z.to_nat n) p Hok) as H.
    destruct (piperead_copy _ _) as [cs p1]. destruct H as (Hok1 & _ & Hc & ->).
    split_and!; [done | | by apply pipe_ok_wakeup | simpl; by rewrite last_snoc].
    rewrite contents_wakeup. apply (app_inv_head (take (Z.to_nat n) (contents p))).
    by rewrite <- Hc, take_drop.
Qed.

Lemma piperead_correct_witness :
  contents (piperead (put 9 (pipealloc_init demo_page)) false 4).2 = [].
Proof.
  assert (pipe_ok (put 9 (pipealloc_init demo_page))) as Hok.
  { apply pipe_ok_put; [apply (init_fifo demo_page eq_refl) | reflexivity]. }
  pose proof (piperead_correct false 4 _ Hok) as H. vm_compute in H |- *. apply H.
Defined.
