(* ===== verification/Blocks.v ===== *)
(** * Disk blocks of the xv6 file system

    The state shared by the file-system layers of both kernels ([fs.c]) and the
    lowest layer: the logged block writes ([log_write] of [log.c]) and the block
    allocator ([ballocx]/[balloc], [bfree], [bzero] of [fs.c]).

    [blk] is the content of each block as the buffer cache presents it:
    [bread] returns the cached or on-disk content (absent blocks of the sparse
    image read as zeros), a store through [bp->data] changes it, and [brelse]
    does not.  There is one disk, so device numbers select nothing. *)

From S2P Require Import Prelude.

Definition BSIZE : Z := 512.
Definition BPB : Z := BSIZE * 8.
Definition MAXOPBLOCKS : Z := 10.
Definition LOGSIZE : Z := MAXOPBLOCKS * 3.

Record superblock : Type := mksb {
  sb_size : Z;
  sb_nblocks : Z;
  sb_ninodes : Z;
  sb_nlog : Z;
  sb_logstart : Z;
  sb_inodestart : Z;
  sb_bmapstart : Z
}.

(** in-memory inode ([struct inode] of [file.h]) *)
Record inode : Type := mkinode {
  i_dev : Z;
  i_inum : Z;
  i_ref : Z;
  i_locked : bool;
  i_valid : bool;
  i_type : Z;
  i_major : Z;
  i_minor : Z;
  i_nlink : Z;
  i_size : Z;
  i_addrs : list Z
}.

Record fsys : Type := mkfs {
  sb : superblock;
  blk : gmap Z (list Z);
  lh : list Z;          (** blocks in the current transaction, [log.lh] *)
  outstanding : Z;      (** [log.outstanding] *)
  icache : list inode;
  console : list string (** [cprintf] output, newest last *)
}.

Definition zero_block : list Z := replicate (Z.to_nat BSIZE) 0.

Definition block_of (s : fsys) (b : Z) : list Z := default zero_block (blk s !! b).

Definition set_blk (f : gmap Z (list Z) -> gmap Z (list Z)) (s : fsys) : fsys :=
  mkfs (sb s) (f (blk s)) (lh s) (outstanding s) (icache s) (console s).
Definition set_lh (f : list Z -> list Z) (s : fsys) : fsys :=
  mkfs (sb s) (blk s) (f (lh s)) (outstanding s) (icache s) (console s).
Definition set_icache (f : list inode -> list inode) (s : fsys) : fsys :=
  mkfs (sb s) (blk s) (lh s) (outstanding s) (f (icache s)) (console s).

Definition cprintf (msg : string) : M fsys unit := modify (fun s =>
  mkfs (sb s) (blk s) (lh s) (outstanding s) (icache s) (console s ++ [msg])).

Definition bread (b : Z) : M fsys (list Z) := gets (fun s => block_of s b).
(** a store of new contents through [bp->data] *)
Definition set_data (b : Z) (d : list Z) : M fsys unit := modify (set_blk (fun m => <[b := d]> m)).
Definition brelse (b : Z) : M fsys unit := mret tt.

Definition absorb (b : Z) (l : list Z) : list Z := if bool_decide (b ∈ l) then l else l ++ [b].

(** [log_write]: the block number is absorbed when it is already logged *)
Definition log_write (b : Z) : M fsys unit :=
  s ← get;
  if (LOGSIZE <=? Z.of_nat (length (lh s))) || (sb_nlog (sb s) - 1 <=? Z.of_nat (length (lh s)))
  then panic "too big a transaction"
  else if outstanding s <? 1 then panic "log_write outside of trans"
  else modify (set_lh (absorb b)).

Definition BBLOCK (b : Z) (sb : superblock) : Z := b / BPB + sb_bmapstart sb.

(** [bzero] *)
Definition bzero (bno : Z) : M fsys unit :=
  _ ← bread bno;
  set_data bno zero_block ;;
  log_write bno ;;
  brelse bno.

(** the inner loop of [ballocx]: first clear bit of a bitmap block, the block
    it stands for being below [size] *)
Fixpoint find_free (k : nat) (d : list Z) (size b bi : Z) : option Z :=
  match k with
  | O => None
  | S k' =>
      if (bi <? BPB) && (b + bi <? size) then
        if Z.land (d !!! Z.to_nat (bi / 8)) (Z.shiftl 1 (bi mod 8)) =? 0 then Some bi
        else find_free k' d size b (bi + 1)
      else None
  end.

Definition ballocx_none (failok : bool) : M fsys Z :=
  if failok then cprintf "csfs: no free data blocks" ;; mret 0
  else panic "balloc: out of blocks".

Fixpoint balloc_loop (fuel : nat) (failok : bool) (b : Z) : M fsys Z :=
  s ← get;
  if b <? sb_size (sb s) then
    match fuel with
    | O => ballocx_none failok
    | S fuel' =>
        let bb := BBLOCK b (sb s) in
        d ← bread bb;
        match find_free (Z.to_nat BPB) d (sb_size (sb s)) b 0 with
        | Some bi =>
            set_data bb (set_bit d bi) ;;
            log_write bb ;;
            brelse bb ;;
            bzero (b + bi) ;;
            mret (b + bi)
        | None => brelse bb ;; balloc_loop fuel' failok (b + BPB)
        end
    end
  else ballocx_none failok.

(** [ballocx] of the continuous-sector kernel *)
Definition ballocx (failok : bool) : M fsys Z :=
  s ← get; balloc_loop (Z.to_nat (sb_size (sb s) / BPB + 1)) failok 0.

(** [balloc]: the lazy-allocation kernel's allocator, and the wrapper of the
    continuous-sector kernel *)
Definition balloc : M fsys Z := ballocx false.

(** [bfree] *)
Definition bfree (b : Z) : M fsys unit :=
  s ← get;
  let bb := BBLOCK b (sb s) in
  d ← bread bb;
  let bi := b mod BPB in
  if Z.land (d !!! Z.to_nat (bi / 8)) (Z.shiftl 1 (bi mod 8)) =? 0
  then panic "freeing free block"
  else
    set_data bb (clear_bit d bi) ;;
    log_write bb ;;
    brelse bb.

(** ** What the bitmap says *)

Definition used (s : fsys) (b : Z) : bool :=
  bit_at (block_of s (BBLOCK b (sb s))) (b mod BPB).

(** Geometry: bitmap blocks are whole blocks, they are marked in use
    themselves, and so is block 0. *)
Record geom (s : fsys) : Prop := {
  g_size : 0 < sb_size (sb s);
  g_len : forall b, length (block_of s b) = Z.to_nat BSIZE;
  g_zero : used s 0 = true;
  g_in : forall b, 0 <= b < sb_size (sb s) -> 0 <= BBLOCK b (sb s) < sb_size (sb s);
  g_bmap : forall b, 0 <= b < sb_size (sb s) -> used s (BBLOCK b (sb s)) = true
}.

(** [n] more [log_write]s fit into the transaction *)
Definition log_room (s : fsys) (n : Z) : Prop :=
  Z.of_nat (length (lh s)) + n <= Z.min LOGSIZE (sb_nlog (sb s) - 1) /\ 1 <= outstanding s.

(** [s'] differs from [s] only in block contents and the transaction's block
    list, which grew by at most [n] *)
Record frame (n : Z) (s s' : fsys) : Prop := {
  f_sb : sb s' = sb s;
  f_icache : icache s' = icache s;
  f_out : outstanding s' = outstanding s;
  f_lh : Z.of_nat (length (lh s')) <= Z.of_nat (length (lh s)) + n
}.

Lemma frame_trans n m s1 s2 s3 : frame n s1 s2 -> frame m s2 s3 -> frame (n + m) s1 s3.
Proof. intros [????] [????]. split; try congruence. lia. Qed.

Lemma frame_room n m s s' : frame n s s' -> log_room s (n + m) -> log_room s' m.
Proof. intros [Hs _ Ho Hl] [Hr H1]. split; [rewrite Hs; lia | lia]. Qed.

Lemma log_room_weaken s n m : log_room s n -> m <= n -> log_room s m.
Proof. intros [H1 H2] ?. split; [lia | done]. Qed.

Lemma length_absorb b l : Z.of_nat (length (absorb b l)) <= Z.of_nat (length l) + 1.
Proof. unfold absorb. case_bool_decide; [lia|]. rewrite length_app. simpl. lia. Qed.

Lemma log_write_ok b s (Q : unit -> fsys -> Prop) :
  log_room s 1 -> Q tt (set_lh (absorb b) s) -> returns (log_write b) s Q.
Proof.
  intros [Hr Ho] HQ. unfold log_write. step.
  destruct (Z.leb_spec LOGSIZE (Z.of_nat (length (lh s)))); [lia|].
  destruct (Z.leb_spec (sb_nlog (sb s) - 1) (Z.of_nat (length (lh s)))); [lia|].
  destruct (Z.ltb_spec (outstanding s) 1); [lia|]. by step.
Qed.

(** the state after storing [d] in block [b] and logging it *)
Record logged (b : Z) (d : list Z) (s s' : fsys) : Prop := {
  l_frame : frame 1 s s';
  l_console : console s' = console s;
  l_blk : blk s' = <[b := d]> (blk s);
  l_lh : lh s' = absorb b (lh s)
}.

(** store-then-log, the way every metadata update is written *)
Lemma set_data_log_ok {A} b d s (k : M fsys A) (Q : A -> fsys -> Prop) :
  log_room s 1 -> (forall s', logged b d s s' -> returns k s' Q) ->
  returns (set_data b d ;; log_write b ;; brelse b ;; k) s Q.
Proof.
  intros Hr HQ. unfold set_data. step. apply returns_bind, log_write_ok; [done|].
  step. apply HQ. split; try done. split; simpl; try done. apply length_absorb.
Qed.

Lemma set_data_log_ok_end b d s (Q : unit -> fsys -> Prop) :
  log_room s 1 -> (forall s', logged b d s s' -> Q tt s') ->
  returns (set_data b d ;; log_write b ;; brelse b) s Q.
Proof.
  intros Hr HQ. unfold set_data. step. apply returns_bind, log_write_ok; [done|].
  step. apply HQ. split; try done. split; simpl; try done. apply length_absorb.
Qed.

Lemma bzero_ok b s (Q : unit -> fsys -> Prop) :
  log_room s 1 -> (forall s', logged b zero_block s s' -> Q tt s') -> returns (bzero b) s Q.
Proof. intros. unfold bzero, bread. step. by apply set_data_log_ok_end. Qed.

Lemma block_of_insert s s' b d c :
  blk s' = <[b := d]> (blk s) -> block_of s' c = if decide (b = c) then d else block_of s c.
Proof. intros E. unfold block_of. rewrite E, lookup_insert. by case_decide. Qed.

Lemma set_bit_length d i : length d = Z.to_nat BSIZE -> length (set_bit d i) = Z.to_nat BSIZE.
Proof. by rewrite length_set_bit. Qed.

Lemma mod_BPB_bound a (d : list Z) :
  length d = Z.to_nat BSIZE -> 0 <= a mod BPB < 8 * Z.of_nat (length d).
Proof.
  intros ->. unfold BPB, BSIZE. pose proof (Z.mod_pos_bound a (512 * 8)). lia.
Qed.

Lemma same_bit_iff a c :
  BBLOCK a = BBLOCK c -> (a mod BPB =? c mod BPB) = (a =? c).
Proof.
  intros E. apply eq_true_iff_eq. rewrite !Z.eqb_eq. split; [|by intros ->].
  apply (f_equal (fun f => f (mksb 0 0 0 0 0 0 0))) in E. unfold BBLOCK, BPB, BSIZE in *. simpl in E.
  intros H. Z.div_mod_to_equations. lia.
Qed.

Lemma BBLOCK_inj a c (x : superblock) : BBLOCK a x = BBLOCK c x -> BBLOCK a = BBLOCK c.
Proof. unfold BBLOCK. intros H. assert (a / BPB = c / BPB) as -> by lia. done. Qed.

(** an update [f] of the bit of block [a] in its bitmap block *)
Lemma used_update s s' a c (upd : list Z -> Z -> list Z) g :
  geom s -> sb s' = sb s -> 0 <= a -> 0 <= c ->
  (forall d i j, 0 <= i < 8 * Z.of_nat (length d) -> 0 <= j ->
     bit_at (upd d i) j = g (i =? j) (bit_at d j)) ->
  (forall b, g false b = b) ->
  block_of s' (BBLOCK c (sb s)) =
    (if decide (BBLOCK a (sb s) = BBLOCK c (sb s))
     then upd (block_of s (BBLOCK a (sb s))) (a mod BPB)
     else block_of s (BBLOCK c (sb s))) ->
  used s' c = g (a =? c) (used s c).
Proof.
  intros Hg Hs Ha Hc Hu Hid E. unfold used. rewrite Hs, E.
  destruct (decide _) as [Eb|Eb].
  - rewrite Hu.
    + rewrite same_bit_iff by (by eapply BBLOCK_inj). by rewrite Eb.
    + apply mod_BPB_bound, (g_len s Hg).
    + apply Z.mod_pos_bound. done.
  - destruct (Z.eqb_spec a c) as [->|]; [done | by rewrite Hid].
Qed.

Definition alloc_post (s : fsys) (a : Z) (s' : fsys) : Prop :=
  0 < a < sb_size (sb s) /\ used s a = false /\
  (forall c, 0 <= c < a -> used s c = true) /\
  frame 2 s s' /\ lh s' = absorb a (absorb (BBLOCK a (sb s)) (lh s)) /\
  block_of s' a = zero_block /\
  (forall c, 0 <= c < sb_size (sb s) -> used s' c = (a =? c) || used s c) /\
  (forall c, c <> a -> c <> BBLOCK a (sb s) -> block_of s' c = block_of s c) /\
  geom s'.

Lemma find_free_Some k d size b bi x :
  find_free k d size b bi = Some x -> 0 <= bi ->
  bi <= x < BPB /\ b + x < size /\ bit_at d x = false /\
  (forall y, bi <= y < x -> bit_at d y = true).
Proof.
  revert bi. induction k as [|k IH]; intros bi; simpl; [done|].
  destruct (Z.ltb_spec bi BPB); [|done]. destruct (Z.ltb_spec (b + bi) size); [|done].
  rewrite land_bit_zero by (apply Z.mod_pos_bound; done).
  destruct (Z.testbit _ _) eqn:E; simpl.
  - intros Hx Hb. apply IH in Hx as (? & ? & ? & Hall); [|lia]. split_and!; try lia; [done|].
    intros y Hy. destruct (Z.eq_dec y bi) as [->|]; [done | apply Hall; lia].
  - intros [= <-] Hb. split_and!; try lia; done.
Qed.

Lemma find_free_None k d size b bi :
  find_free k d size b bi = None -> 0 <= bi ->
  forall y, bi <= y < bi + Z.of_nat k -> y < BPB -> b + y < size -> bit_at d y = true.
Proof.
  revert bi. induction k as [|k IH]; intros bi; simpl; [lia|].
  destruct (Z.ltb_spec bi BPB); [|lia]. destruct (Z.ltb_spec (b + bi) size); [|lia].
  rewrite land_bit_zero by (apply Z.mod_pos_bound; done).
  destruct (Z.testbit _ _) eqn:E; simpl; [|done].
  intros Hx Hb y Hy Hy1 Hy2. destruct (Z.eq_dec y bi) as [->|]; [done|].
  apply (IH (bi + 1)); [done | lia..].
Qed.

(** marking a free block in use and zeroing it *)
Lemma alloc_writes_ok s a (Q : Z -> fsys -> Prop) :
  geom s -> log_room s 2 -> 0 <= a < sb_size (sb s) -> used s a = false ->
  (forall c, 0 <= c < a -> used s c = true) ->
  (forall s', alloc_post s a s' -> Q a s') ->
  let bb := BBLOCK a (sb s) in
  returns (set_data bb (set_bit (block_of s bb) (a mod BPB)) ;;
           log_write bb ;; brelse bb ;; bzero a ;; mret a) s Q.
Proof.
  intros Hg Hroom Ha Hu Hmin HQ bb.
  apply set_data_log_ok; [by eapply log_room_weaken|].
  intros s1 [F1 C1 B1 L1].
  apply returns_bind, bzero_ok; [by eapply (frame_room 1 1)|].
  intros s2 [F2 C2 B2 L2]. apply HQ. clear HQ.
  assert (a <> 0) as Ha0 by (intros ->; rewrite (g_zero s Hg) in Hu; done).
  assert (forall c, 0 <= c < sb_size (sb s) -> a <> BBLOCK c (sb s)) as Hnb.
  { intros c Hc ->. rewrite (g_bmap s Hg) in Hu by done. done. }
  pose proof (f_sb _ _ _ F1) as S1. pose proof (f_sb _ _ _ F2) as S2.
  assert (forall c, 0 <= c < sb_size (sb s) -> used s2 c = (a =? c) || used s c) as Hused.
  { intros c Hc. apply (used_update s s2 a c set_bit orb); try done; try lia; [congruence| |].
    - intros. apply bit_at_set; done.
    - rewrite (block_of_insert _ _ _ _ _ B2), decide_False by (by apply Hnb).
      by rewrite (block_of_insert _ _ _ _ _ B1). }
  split_and!; try done; try lia.
  - apply (frame_trans 1 1 _ _ _ F1 F2).
  - by rewrite L2, L1.
  - by rewrite (block_of_insert _ _ _ _ _ B2), decide_True.
  - intros c H1 H2. rewrite (block_of_insert _ _ _ _ _ B2), decide_False by done.
    by rewrite (block_of_insert _ _ _ _ _ B1), decide_False.
  - pose proof (g_size s Hg) as Hpos. split.
    + rewrite S2, S1. done.
    + intros c. rewrite (block_of_insert _ _ _ _ _ B2). case_decide; [done|].
      rewrite (block_of_insert _ _ _ _ _ B1). case_decide; [apply set_bit_length|]; apply (g_len s Hg).
    + rewrite Hused, (g_zero s Hg) by lia. apply orb_true_r.
    + rewrite S2, S1. apply (g_in s Hg).
    + rewrite S2, S1. intros c Hc. rewrite Hused by (by apply (g_in s Hg)).
      rewrite (g_bmap s Hg) by done. apply orb_true_r.
Qed.

Lemma BPB_chunk b y (x : superblock) :
  b mod BPB = 0 -> 0 <= y < BPB -> BBLOCK (b + y) x = BBLOCK b x /\ (b + y) mod BPB = y.
Proof.
  unfold BBLOCK. change BPB with 4096. intros Hb Hy.
  rewrite (Z.div_mod b 4096), Hb, Z.add_0_r by done. rewrite (Z.mul_comm 4096).
  rewrite Z.div_add_l, Z.div_mul, (Z.div_small y), Z.add_0_r by lia. split; [done|].
  rewrite Z.add_comm, Z_mod_plus_full. by apply Z.mod_small.
Qed.

Lemma balloc_loop_ok failok fuel b s (Q : Z -> fsys -> Prop) :
  geom s -> log_room s 2 -> 0 <= b -> b mod BPB = 0 ->
  sb_size (sb s) <= b + Z.of_nat fuel * BPB ->
  (forall c, 0 <= c < b -> c < sb_size (sb s) -> used s c = true) ->
  (forall a s', alloc_post s a s' -> Q a s') ->
  ((forall c, 0 <= c < sb_size (sb s) -> used s c = true) -> returns (ballocx_none failok) s Q) ->
  returns (balloc_loop fuel failok b) s Q.
Proof.
  intros Hg Hroom. revert b. induction fuel as [|fuel IH]; intros b Hb Hal Hfuel Hbelow HQ Hfull;
    cbn [balloc_loop]; step.
  - destruct (Z.ltb_spec b (sb_size (sb s))); [lia|]. apply Hfull. intros; apply Hbelow; lia.
  - destruct (Z.ltb_spec b (sb_size (sb s))) as [Hlt|]; [|apply Hfull; intros; apply Hbelow; lia].
    step. assert (forall y, 0 <= y < BPB -> BBLOCK (b + y) (sb s) = BBLOCK b (sb s) /\ (b + y) mod BPB = y) as Hbi.
    { intros y Hy. by apply BPB_chunk. }
    destruct (find_free _ _ _ b 0) as [bi|] eqn:Ef.
    + apply find_free_Some in Ef as (Hr & Hsz & Hfree & Hprev); [|lia].
      destruct (Hbi bi) as [Eb Em]; [lia|].
      pose proof (alloc_writes_ok s (b + bi) Q Hg Hroom) as H.
      cbv zeta in H. rewrite Eb, Em in H. apply H; [lia| | |auto].
      * unfold used. by rewrite Eb, Em.
      * intros c Hc. destruct (Z.lt_ge_cases c b); [apply Hbelow; lia|].
        destruct (Hbi (c - b)) as [Eb' Em']; [lia|]. replace (b + (c - b)) with c in * by lia.
        unfold used. rewrite Eb', Em'. apply Hprev. lia.
    + assert (forall c, 0 <= c < b + BPB -> c < sb_size (sb s) -> used s c = true) as Hbelow'.
      { intros c Hc Hs. destruct (Z.lt_ge_cases c b); [apply Hbelow; lia|].
        destruct (Hbi (c - b)) as [Eb' Em']; [lia|]. replace (b + (c - b)) with c in * by lia.
        unfold used. rewrite Eb', Em'.
        apply (find_free_None _ _ _ _ _ Ef); unfold BPB, BSIZE in *; lia. }
      step. apply IH; try done.
      * unfold BPB, BSIZE in *. lia.
      * rewrite Z.add_mod, Hal by (by vm_compute). done.
      * lia.
Qed.

(** [ballocx] finds the lowest free block, or reports that there is none *)
Lemma ballocx_ok failok s (Q : Z -> fsys -> Prop) :
  geom s -> log_room s 2 ->
  (forall a s', alloc_post s a s' -> Q a s') ->
  ((forall c, 0 <= c < sb_size (sb s) -> used s c = true) -> returns (ballocx_none failok) s Q) ->
  returns (ballocx failok) s Q.
Proof.
  intros Hg Hr HQ Hn. unfold ballocx. step. pose proof (g_size s Hg).
  apply balloc_loop_ok; auto; try lia.
  change BPB with 4096. rewrite Z2Nat.id; Z.div_mod_to_equations; lia.
Qed.

Definition free_post (s : fsys) (b : Z) (s' : fsys) : Prop :=
  frame 1 s s' /\ lh s' = absorb (BBLOCK b (sb s)) (lh s) /\
  (forall c, length (block_of s' c) = Z.to_nat BSIZE) /\
  (forall c, 0 <= c < sb_size (sb s) -> used s' c = negb (b =? c) && used s c) /\
  (forall c, c <> BBLOCK b (sb s) -> block_of s' c = block_of s c).

Lemma bfree_ok b s (Q : unit -> fsys -> Prop) :
  geom s -> log_room s 1 -> 0 <= b < sb_size (sb s) -> used s b = true ->
  (forall s', free_post s b s' -> Q tt s') ->
  returns (bfree b) s Q.
Proof.
  intros Hg Hr Hb Hu HQ. unfold bfree. do 2 step.
  rewrite land_bit_zero by (apply Z.mod_pos_bound; done).
  unfold used, bit_at in Hu. rewrite Hu. simpl.
  apply set_data_log_ok_end; [done|]. intros s' [F C B L]. apply HQ.
  pose proof (f_sb _ _ _ F) as S. split_and!; try done.
  - intros c. rewrite (block_of_insert _ _ _ _ _ B).
    case_decide; rewrite ?length_clear_bit; apply (g_len s Hg).
  - intros c Hc. apply (used_update s s' b c clear_bit (fun e b => negb e && b)); try done; try lia.
    + intros. apply bit_at_clear; done.
    + by rewrite (block_of_insert _ _ _ _ _ B).
  - intros c Hc. by rewrite (block_of_insert _ _ _ _ _ B), decide_False.
Qed.

(** a logged store to a data block *)
Lemma logged_data_geom b d s s' :
  geom s -> (forall c, 0 <= c < sb_size (sb s) -> b <> BBLOCK c (sb s)) -> length d = Z.to_nat BSIZE ->
  logged b d s s' ->
  geom s' /\ (forall c, 0 <= c < sb_size (sb s) -> used s' c = used s c).
Proof.
  intros Hg Hb Hd [F C B L]. pose proof (f_sb _ _ _ F) as S.
  assert (forall c, 0 <= c < sb_size (sb s) -> used s' c = used s c) as Hu.
  { intros c Hc. unfold used. by rewrite S, (block_of_insert _ _ _ _ _ B), decide_False by (by apply Hb). }
  split; [|done]. pose proof (g_size s Hg). split; rewrite ?S; try done.
  - intros c. rewrite (block_of_insert _ _ _ _ _ B). case_decide; [done | apply (g_len s Hg)].
  - rewrite Hu by lia. apply (g_zero s Hg).
  - apply (g_in s Hg).
  - intros c Hc. rewrite Hu by (by apply (g_in s Hg)). by apply (g_bmap s Hg).
Qed.

(** freeing a block other than the reserved ones keeps the geometry *)
Lemma free_geom s b s' :
  geom s -> free_post s b s' -> 0 < b < sb_size (sb s) ->
  (forall c, 0 <= c < sb_size (sb s) -> b <> BBLOCK c (sb s)) -> geom s'.
Proof.
  intros Hg (F & _ & Hlen & Hu & Hblk) Hb Hnb. pose proof (f_sb _ _ _ F) as S.
  pose proof (g_size s Hg).
  split; rewrite ?S; try done; try apply (g_in s Hg).
  - rewrite Hu, (g_zero s Hg) by lia. destruct (Z.eqb_spec b 0); [lia | done].
  - intros c Hc. rewrite Hu, (g_bmap s Hg) by (done || by apply (g_in s Hg)).
    destruct (Z.eqb_spec b (BBLOCK c (sb s))) as [E|]; [by apply Hnb in E | done].
Qed.

Lemma balloc_loop_full failok fuel b s :
  geom s -> (forall c, 0 <= c < sb_size (sb s) -> used s c = true) ->
  0 <= b -> b mod BPB = 0 -> balloc_loop fuel failok b s = ballocx_none failok s.
Proof.
  intros Hg Hfull. revert b. induction fuel as [|fuel IH]; intros b Hb Hal; cbn [balloc_loop];
    unfold mbind at 1, M_bind at 1, get at 1; cbv beta iota.
  - by destruct (_ <? _).
  - destruct (Z.ltb_spec b (sb_size (sb s))); [|done]. cbv zeta.
    unfold mbind at 1, M_bind at 1, bread, gets. cbv beta iota.
    destruct (find_free _ _ _ b 0) as [bi|] eqn:Ef.
    + apply find_free_Some in Ef as (Hr & Hsz & Hfree & _); [|lia].
      destruct (BPB_chunk b bi (sb s) Hal) as [Eb Em]; [lia|].
      assert (used s (b + bi) = true) as E by (apply Hfull; lia).
      unfold used in E. rewrite Eb, Em in E. congruence.
    + apply IH; [unfold BPB, BSIZE in *; lia |].
      by rewrite Z.add_mod, Hal by (by vm_compute).
Qed.

(** ** Properties of the allocator *)

(** the block allocator.  When some block below [sb.size] is free,
    [ballocx] returns the lowest such block, marks exactly that one in use,
    zeroes it, and changes nothing else; when none is free it has no effect
    besides its report (the CS variant prints and returns 0, [balloc] panics). *)
Theorem ballocx_correct failok s :
  geom s -> log_room s 2 ->
  ((exists c, 0 <= c < sb_size (sb s) /\ used s c = false) ->
     returns (ballocx failok) s (alloc_post s)) /\
  ((forall c, 0 <= c < sb_size (sb s) -> used s c = true) ->
     ballocx failok s = ballocx_none failok s).
Proof.
  intros Hg Hr. split.
  - intros (c & Hc & Hf). apply ballocx_ok; try done.
    intros Hall. by rewrite Hall in Hf.
  - intros Hall. by apply balloc_loop_full.
Qed.

(** A small image: 40 blocks, log header room, bitmap in block 3, blocks 0 to
    7 reserved. *)
Definition demo_sb : superblock := mksb 40 32 8 30 2 2 3.
Definition demo_fs (cache : list inode) : fsys :=
  mkfs demo_sb {[3 := 255 :: replicate 511 0]} [] 1 cache [].

Lemma demo_bblock c : 0 <= c < 40 -> BBLOCK c demo_sb = 3.
Proof. intros. unfold BBLOCK, BPB, BSIZE. rewrite Z.div_small by lia. done. Qed.

Lemma demo_geom cache : geom (demo_fs cache).
Proof.
  split; [done | | done | |].
  - intros b. unfold block_of, demo_fs. cbn [blk]. destruct (decide (b = 3)) as [->|].
    + by rewrite lookup_singleton_eq.
    + by rewrite lookup_singleton_ne.
  - intros b Hb. rewrite demo_bblock; [split; done | done].
  - intros b Hb. rewrite demo_bblock by done. done.
Qed.

Lemma demo_room cache n : n <= 29 -> log_room (demo_fs cache) n.
Proof. intros. split; [|done]. change (0 + n <= 29). lia. Qed.

Lemma ballocx_correct_witness : returns (ballocx true) (demo_fs []) (alloc_post (demo_fs [])).
Proof.
  apply (ballocx_correct true (demo_fs [])); [apply demo_geom | by apply demo_room |].
  exists 8. split; [split; done | reflexivity].
Defined.

(** freeing the block just allocated restores the bitmap of every block;
    freeing a free block panics. *)
Theorem balloc_bfree_roundtrip failok s :
  geom s -> log_room s 3 -> (exists c, 0 <= c < sb_size (sb s) /\ used s c = false) ->
  returns (a ← ballocx failok; bfree a) s
    (fun _ s' => geom s' /\ forall c, 0 <= c < sb_size (sb s) -> used s' c = used s c) /\
  (forall b, used s b = false -> 0 <= b -> bfree b s = Panic "freeing free block").
Proof.
  intros Hg Hr Hfree. split.
  - apply returns_bind, ballocx_ok; [done | by eapply log_room_weaken | |].
    2:{ intros Hall. destruct Hfree as (c & Hc & Hf). by rewrite Hall in Hf. }
    intros a s1 (Ha & Hua & _ & F1 & _ & _ & Hu1 & _ & Hg1). pose proof (f_sb _ _ _ F1) as S1.
    apply bfree_ok; [done | by eapply (frame_room 2 1) | rewrite S1; lia | |].
    + rewrite Hu1 by lia. by rewrite Z.eqb_refl.
    + intros s2 P2. pose proof P2 as (_ & _ & _ & Hu2 & _). rewrite S1 in Hu2. split.
      * apply (free_geom s1 a s2 Hg1 P2); rewrite S1; [lia|].
        intros c Hc ->. by rewrite (g_bmap s Hg) in Hua.
      * intros c Hc. rewrite Hu2, Hu1 by done. destruct (Z.eqb_spec a c) as [->|]; simpl; congruence.
  - intros b Hb H0. unfold bfree, mbind, M_bind, get, bread, gets. cbv zeta.
    rewrite land_bit_zero by (apply Z.mod_pos_bound; done).
    unfold used, bit_at in Hb. by rewrite Hb.
Qed.

Lemma balloc_bfree_roundtrip_witness :
  returns (a ← ballocx true; bfree a) (demo_fs [])
    (fun _ s' => geom s' /\ forall c, 0 <= c < 40 -> used s' c = used (demo_fs []) c).
Proof.
  apply (balloc_bfree_roundtrip true (demo_fs [])); [apply demo_geom | by apply demo_room |].
  exists 8. split; [split; done | reflexivity].
Defined.

(** ** Freeing many blocks

    [log_write] refuses when the transaction is full even if the block is
    already in it, so a run of frees needs one spare slot beyond the distinct
    bitmap blocks [L] it touches. *)

Definition log_cap (s : fsys) : Z := Z.min LOGSIZE (sb_nlog (sb s) - 1).

Definition room_for (L : gset Z) (s : fsys) : Prop :=
  Z.of_nat (length (lh s)) + Z.of_nat (size (L ∖ list_to_set (lh s))) < log_cap s
  /\ 1 <= outstanding s.

Lemma room_for_room L s : room_for L s -> log_room s 1.
Proof. intros [H ?]. split; [|done]. unfold log_cap in H. lia. Qed.

Lemma room_for_absorb L b s s' :
  room_for L s -> b ∈ L -> lh s' = absorb b (lh s) -> sb s' = sb s ->
  outstanding s' = outstanding s -> room_for L s'.
Proof.
  intros [Hr Ho] Hb El Es Eo. split; [|lia]. unfold log_cap in *. rewrite Es, El.
  unfold absorb. case_bool_decide as Hin; [done|].
  assert (L ∖ list_to_set (lh s ++ [b]) = (L ∖ list_to_set (lh s)) ∖ {[b]}) as -> by set_solver.
  assert ({[b]} ⊆ L ∖ list_to_set (lh s)) as Hsub by set_solver.
  rewrite size_difference, size_singleton, length_app by done. simpl.
  apply subseteq_size in Hsub. rewrite size_singleton in Hsub. lia.
Qed.

(** blocks a file may own: distinct, in use, and neither reserved nor part of
    the bitmap *)
Definition data_block (s : fsys) (b : Z) : Prop :=
  0 < b < sb_size (sb s) /\ used s b = true /\
  forall c, 0 <= c < sb_size (sb s) -> b <> BBLOCK c (sb s).

Definition owned (s : fsys) (l : list Z) : Prop := NoDup l /\ Forall (data_block s) l.

(** what freeing the blocks [l] amounts to *)
Record freed (L : gset Z) (l : list Z) (s s' : fsys) : Prop := {
  fr_sb : sb s' = sb s;
  fr_icache : icache s' = icache s;
  fr_geom : geom s';
  fr_room : room_for L s';
  fr_used : forall c, 0 <= c < sb_size (sb s) -> used s' c = negb (bool_decide (c ∈ l)) && used s c;
  fr_blk : forall c, (forall b, b ∈ l -> c <> BBLOCK b (sb s)) -> block_of s' c = block_of s c
}.

Lemma freed_nil L s : geom s -> room_for L s -> freed L [] s s.
Proof. by split. Qed.

Lemma freed_cons L b l s s1 s2 :
  sb s1 = sb s -> icache s1 = icache s -> freed L l s1 s2 ->
  (forall c, 0 <= c < sb_size (sb s) -> used s1 c = negb (b =? c) && used s c) ->
  (forall c, c <> BBLOCK b (sb s) -> block_of s1 c = block_of s c) ->
  freed L (b :: l) s s2.
Proof.
  intros E1 E2 [A B C D U K] Hu Hb. rewrite E1 in *. split; try done; [congruence | |].
  - intros c Hc. rewrite U, Hu by done.
    destruct (Z.eqb_spec b c) as [->|Hne]; simpl.
    + rewrite andb_false_r. rewrite bool_decide_eq_true_2 by set_solver. done.
    + do 2 f_equal. apply bool_decide_ext. set_solver.
  - intros c Hc. rewrite K by set_solver. apply Hb. apply Hc. set_solver.
Qed.

Lemma freed_app L l1 l2 s s1 s2 : freed L l1 s s1 -> freed L l2 s1 s2 -> freed L (l1 ++ l2) s s2.
Proof.
  intros [A B C D U K] [A' B' C' D' U' K']. rewrite A in *.
  split; try done; [congruence | |].
  - intros c Hc. rewrite U', U by done. rewrite andb_assoc, <- negb_orb. f_equal. f_equal.
    rewrite orb_comm. apply eq_true_iff_eq. rewrite orb_true_iff, !bool_decide_eq_true. set_solver.
  - intros c Hc. rewrite K', K; set_solver.
Qed.

Lemma owned_app s l1 l2 : owned s (l1 ++ l2) -> owned s l1 /\ owned s l2 /\ (forall b, b ∈ l1 -> b ∉ l2).
Proof.
  intros [Hn Hf]. apply NoDup_app in Hn as (? & ? & ?). apply Forall_app in Hf as [? ?].
  by repeat split.
Qed.

(** what is owned and not freed stays owned *)
Lemma freed_owned L l s s' m :
  freed L l s s' -> owned s m -> (forall b, b ∈ l -> b ∉ m) -> owned s' m.
Proof.
  intros F [Hn Hf] Hd. split; [done|]. rewrite Forall_forall in *. intros b Hb.
  destruct (Hf b Hb) as (H1 & H2 & H3). unfold data_block. rewrite (fr_sb _ _ _ _ F).
  split_and!; try done; try lia. rewrite (fr_used _ _ _ _ F) by lia.
  rewrite bool_decide_eq_false_2 by (intros ?; by eapply Hd). done.
Qed.

Lemma bfree_freed L b s (Q : unit -> fsys -> Prop) :
  geom s -> room_for L s -> data_block s b -> BBLOCK b (sb s) ∈ L ->
  (forall s', freed L [b] s s' -> Q tt s') -> returns (bfree b) s Q.
Proof.
  intros Hg Hr (Hb & Hu & Hnb) HL HQ.
  apply bfree_ok; [done | by eapply room_for_room | lia | done |].
  intros s1 P1. pose proof P1 as (F1 & L1 & Hlen & Hu1 & K1). apply HQ.
  apply (freed_cons L b [] s s1 s1); try apply F1; try done.
  apply freed_nil; [by eapply (free_geom s b)|].
  eapply room_for_absorb; [done | exact HL | done | apply F1 | apply F1].
Qed.

(** ** Index blocks: arrays of 32-bit block numbers *)

Definition word (d : list Z) (k : Z) : Z := le_val (slice d (4 * k) 4).
Definition set_word (d : list Z) (k v : Z) : list Z := splice d (4 * k) (le_bytes 4 v).

(** [a[k] = v] through the buffer of block [b] *)
Definition store_word (b k v : Z) : M fsys unit :=
  modify (fun s => set_blk (fun m => <[b := set_word (block_of s b) k v]> m) s).

Section Words.
Context (d : list Z) (j k v : Z).
Hypothesis Hd : length d = Z.to_nat BSIZE.
Hypothesis Hk : 0 <= k < 128.
Hypothesis Hj : 0 <= j < 128.

Lemma length_set_word : length (set_word d k v) = Z.to_nat BSIZE.
Proof using Hd Hk.
  unfold set_word. change BSIZE with 512 in *.
  rewrite length_splice; rewrite ?length_le_bytes, ?Hd; lia.
Qed.

Lemma word_set_word : 0 <= v < 2 ^ 32 -> word (set_word d k v) j = if k =? j then v else word d j.
Proof using Hd Hk Hj.
  intros Hv. change BSIZE with 512 in *. unfold word, set_word.
  destruct (Z.eqb_spec k j) as [<-|Hne].
  - rewrite slice_splice_same; rewrite ?length_le_bytes, ?Hd; try lia. by apply le_val32.
  - rewrite slice_splice_other; rewrite ?length_le_bytes, ?Hd; try done; lia.
Qed.
End Words.
