(* ===== verification/Log.v ===== *)
(** * The write-ahead log of the xv6 kernels ([log.c], [bwrite] of [bio.c])

    [disk] is the persistent image and [cache] the buffers that are valid in
    memory; a crash keeps [disk] and loses the rest.  [writes] records every
    block written to the disk, oldest first, so that a crash point is a prefix
    of it (a block write is atomic, which the log relies on).  A call that
    sleeps is [Block]. *)

From S2P Require Import Prelude Blocks.

Record logst : Type := mklog {
  disk : gmap Z (list Z);
  cache : gmap Z (list Z);
  l_start : Z;            (** [log.start] *)
  l_size : Z;             (** [log.size] *)
  l_out : Z;              (** [log.outstanding] *)
  l_committing : bool;    (** [log.committing] *)
  l_lh : list Z;          (** [log.lh.block[0 .. log.lh.n)] *)
  writes : list (Z * list Z)
}.

Definition dblk (D : gmap Z (list Z)) (b : Z) : list Z := default zero_block (D !! b).

Definition with_disk f s := mklog (f (disk s)) (cache s) (l_start s) (l_size s) (l_out s) (l_committing s) (l_lh s) (writes s).
Definition with_cache f s := mklog (disk s) (f (cache s)) (l_start s) (l_size s) (l_out s) (l_committing s) (l_lh s) (writes s).
Definition with_out n s := mklog (disk s) (cache s) (l_start s) (l_size s) n (l_committing s) (l_lh s) (writes s).
Definition with_committing c s := mklog (disk s) (cache s) (l_start s) (l_size s) (l_out s) c (l_lh s) (writes s).
Definition with_llh l s := mklog (disk s) (cache s) (l_start s) (l_size s) (l_out s) (l_committing s) l (writes s).

(** the contents of a buffer *)
Definition cached (s : logst) (b : Z) : list Z := default (dblk (disk s) b) (cache s !! b).

Definition buf_read (b : Z) : M logst (list Z) := gets (fun s => cached s b).
Definition buf_store (b : Z) (d : list Z) : M logst unit := modify (with_cache (fun m => <[b := d]> m)).

(** [bwrite] *)
Definition bwrite (b : Z) : M logst unit := modify (fun s =>
  mklog (<[b := cached s b]> (disk s)) (<[b := cached s b]> (cache s)) (l_start s) (l_size s) (l_out s)
    (l_committing s) (l_lh s) (writes s ++ [(b, cached s b)])).

(** copy block [from] to block [to] and write it *)
Definition copy_block (from to : Z) : M logst unit :=
  d ← buf_read from;
  buf_store to d ;;
  bwrite to.

Fixpoint install_loop (k : nat) (tail : Z) : M logst unit :=
  match k with
  | O => mret tt
  | S k' =>
      s ← get;
      copy_block (l_start s + tail + 1) (l_lh s !!! Z.to_nat tail) ;;
      install_loop k' (tail + 1)
  end.

(** [install_trans] *)
Definition install_trans : M logst unit := s ← get; install_loop (length (l_lh s)) 0.

(** the decoded header block: [n] and the first [n] block numbers *)
Definition head_n (d : list Z) : Z := i32 (word d 0).
Definition head_blocks (d : list Z) : list Z := (fun i => word d (1 + i)) <$> seqZ 0 (head_n d).

(** [read_head]; a count above [LOGSIZE] overruns [log.lh.block] *)
Definition read_head : M logst unit :=
  s ← get;
  d ← buf_read (l_start s);
  if LOGSIZE <? head_n d then panic "log header out of bounds"
  else modify (with_llh (head_blocks d)).

(** the header block [write_head] stores over the old contents [d] *)
Definition head_bytes (d : list Z) (l : list Z) : list Z :=
  splice d 0 (le_bytes 4 (Z.of_nat (length l)) ++ (l ≫= le_bytes 4)).

(** [write_head] *)
Definition write_head : M logst unit :=
  s ← get;
  d ← buf_read (l_start s);
  buf_store (l_start s) (head_bytes d (l_lh s)) ;;
  bwrite (l_start s).

(** [recover_from_log] *)
Definition recover_from_log : M logst unit :=
  read_head ;;
  install_trans ;;
  modify (with_llh []) ;;
  write_head.

(** [readsb]: the superblock in block 1 *)
Definition readsb (d : list Z) : superblock :=
  mksb (word d 0) (word d 1) (word d 2) (word d 3) (word d 4) (word d 5) (word d 6).

(** [initlog] *)
Definition initlog : M logst unit :=
  if BSIZE <=? 4 + 4 * LOGSIZE then panic "initlog: too big logheader"
  else
    d ← buf_read 1;
    let sb := readsb d in
    modify (fun s => mklog (disk s) (cache s) (sb_logstart sb) (sb_nlog sb) (l_out s) (l_committing s) (l_lh s) (writes s)) ;;
    recover_from_log.

(** [begin_op]: sleeps while a commit runs or the log might not have room *)
Definition begin_op : M logst unit :=
  s ← get;
  if l_committing s then block
  else if LOGSIZE <? Z.of_nat (length (l_lh s)) + (l_out s + 1) * MAXOPBLOCKS then block
  else modify (with_out (l_out s + 1)).

Fixpoint write_log_loop (k : nat) (tail : Z) : M logst unit :=
  match k with
  | O => mret tt
  | S k' =>
      s ← get;
      copy_block (l_lh s !!! Z.to_nat tail) (l_start s + tail + 1) ;;
      write_log_loop k' (tail + 1)
  end.

(** [write_log] *)
Definition write_log : M logst unit := s ← get; write_log_loop (length (l_lh s)) 0.

(** [commit] *)
Definition commit : M logst unit :=
  s ← get;
  if 0 <? Z.of_nat (length (l_lh s)) then
    write_log ;;
    write_head ;;
    install_trans ;;
    modify (with_llh []) ;;
    write_head
  else mret tt.

(** [end_op] *)
Definition end_op : M logst unit :=
  s ← get;
  modify (with_out (l_out s - 1)) ;;
  if l_committing s then panic "log.committing"
  else if l_out s - 1 =? 0 then
    modify (with_committing true) ;;
    commit ;;
    modify (with_committing false)
  else mret tt.

(** [log_write] *)
Definition log_write (b : Z) : M logst unit :=
  s ← get;
  if (LOGSIZE <=? Z.of_nat (length (l_lh s))) || (l_size s - 1 <=? Z.of_nat (length (l_lh s)))
  then panic "too big a transaction"
  else if l_out s <? 1 then panic "log_write outside of trans"
  else modify (with_llh (absorb b (l_lh s))).

(** a store to a buffer followed by [log_write] *)
Definition log_store (b : Z) (d : list Z) : M logst unit := buf_store b d ;; log_write b.

(** ** Crashes *)

(** power is lost: only the disk survives *)
Definition crash (s : logst) (D : gmap Z (list Z)) : logst :=
  mklog D ∅ (l_start s) (l_size s) 0 false [] [].

Definition apply_writes (ws : list (Z * list Z)) (D : gmap Z (list Z)) : gmap Z (list Z) :=
  foldl (fun D w => <[w.1 := w.2]> D) D ws.

(** The meaning of a disk image: what block [b] holds once recovery has run. *)
Fixpoint log_index (b i : Z) (l : list Z) : option Z :=
  match l with
  | [] => None
  | x :: l' => if x =? b then Some i else log_index b (i + 1) l'
  end.

Definition recovered (start : Z) (D : gmap Z (list Z)) (b : Z) : list Z :=
  match log_index b 0 (head_blocks (dblk D start)) with
  | Some i => dblk D (start + i + 1)
  | None => dblk D b
  end.

(** ** The disk writes of each operation *)

(** the state after the disk writes [ws] *)
Definition lput (ws : list (Z * list Z)) (s : logst) : logst :=
  mklog (apply_writes ws (disk s)) (apply_writes ws (cache s)) (l_start s) (l_size s) (l_out s)
    (l_committing s) (l_lh s) (writes s ++ ws).

Lemma lput_nil s : lput [] s = s.
Proof. destruct s. unfold lput. simpl. by rewrite app_nil_r. Qed.

Lemma lput_app a b s : lput (a ++ b) s = lput b (lput a s).
Proof. unfold lput, apply_writes. simpl. by rewrite !foldl_app, (assoc_L (++)). Qed.

Lemma cached_lput1 a d s b : cached (lput [(a, d)] s) b = if decide (a = b) then d else cached s b.
Proof. unfold cached, dblk, lput. simpl. rewrite !lookup_insert. by case_decide. Qed.

Lemma dblk_apply_out ws D b : b ∉ ws.*1 -> dblk (apply_writes ws D) b = dblk D b.
Proof.
  revert D. induction ws as [|[a d] ws IH]; intros D Hb; [done|]. rewrite fmap_cons, not_elem_of_cons in Hb.
  unfold apply_writes. simpl. fold (apply_writes ws (<[a:=d]> D)). rewrite IH by apply Hb.
  unfold dblk. by rewrite lookup_insert_ne by (destruct Hb; simpl in *; congruence).
Qed.

Lemma cached_lput_out ws s b : b ∉ ws.*1 -> cached (lput ws s) b = cached s b.
Proof.
  revert s. induction ws as [|[a d] ws IH]; intros s Hb; [by rewrite lput_nil|].
  rewrite fmap_cons, not_elem_of_cons in Hb. change ((a, d) :: ws) with ([(a, d)] ++ ws). rewrite lput_app, IH by apply Hb.
  rewrite cached_lput1, decide_False; [done|]. destruct Hb; simpl in *; congruence.
Qed.

Lemma dblk_apply_in ws D b d :
  NoDup (ws.*1) -> (b, d) ∈ ws -> dblk (apply_writes ws D) b = d.
Proof.
  revert D. induction ws as [|[a e] ws IH]; intros D Hnd Hin; [by apply not_elem_of_nil in Hin|].
  rewrite fmap_cons in Hnd. apply NoDup_cons in Hnd as [Hna Hnd].
  unfold apply_writes. simpl. fold (apply_writes ws (<[a:=e]> D)).
  rewrite elem_of_cons in Hin; destruct Hin as [[= -> ->]|Hin]; [|by apply IH].
  rewrite dblk_apply_out by done. unfold dblk. by rewrite lookup_insert_eq.
Qed.

Lemma copy_block_eq from to s :
  copy_block from to s = Ok (tt, lput [(to, cached s from)] s).
Proof.
  unfold copy_block, mbind, M_bind, buf_read, gets, buf_store, modify, bwrite. cbv beta iota.
  assert (cached (with_cache (fun m => <[to:=cached s from]> m) s) to = cached s from) as E.
  { unfold cached at 1. simpl. by rewrite lookup_insert_eq. }
  unfold modify. cbv beta. rewrite E. unfold lput, apply_writes, with_cache. simpl. by rewrite insert_insert_eq.
Qed.

Lemma cached_lput_in ws s b d : NoDup (ws.*1) -> (b, d) ∈ ws -> cached (lput ws s) b = d.
Proof.
  revert s. induction ws as [|[a e] ws IH]; intros s Hnd Hin; [by apply not_elem_of_nil in Hin|].
  rewrite fmap_cons in Hnd. apply NoDup_cons in Hnd as [Hna Hnd].
  change ((a, e) :: ws) with ([(a, e)] ++ ws). rewrite lput_app.
  rewrite elem_of_cons in Hin. destruct Hin as [[= -> ->]|Hin]; [|by apply IH].
  rewrite cached_lput_out by done. by rewrite cached_lput1, decide_True.
Qed.

(** the block writes of [write_log] and [install_trans] *)
Definition log_writes (s : logst) (tail k : Z) : list (Z * list Z) :=
  (fun i => (l_start s + i + 1, cached s (l_lh s !!! Z.to_nat i))) <$> seqZ tail k.
Definition install_writes (s : logst) (tail k : Z) : list (Z * list Z) :=
  (fun i => (l_lh s !!! Z.to_nat i, cached s (l_start s + i + 1))) <$> seqZ tail k.

(** the logged blocks are distinct and lie outside the log's own blocks *)
Record loggable (start : Z) (l : list Z) : Prop := {
  lg_nodup : NoDup l;
  lg_len : Z.of_nat (length l) <= LOGSIZE;
  lg_out : Forall (fun b => 0 <= b < 2 ^ 32 /\ (b < start \/ start + LOGSIZE < b)) l
}.

Lemma loggable_at start l i : loggable start l -> 0 <= i < Z.of_nat (length l) ->
  0 <= l !!! Z.to_nat i < 2 ^ 32 /\ (l !!! Z.to_nat i < start \/ start + LOGSIZE < l !!! Z.to_nat i).
Proof.
  intros [_ _ Hf] Hi. rewrite Forall_forall in Hf. apply Hf, list_elem_of_lookup_total_2. lia.
Qed.

Section Loops.
Context (s0 : logst).
Hypothesis Hlg : loggable (l_start s0) (l_lh s0).

Lemma write_log_loop_eq k tail s :
  l_lh s = l_lh s0 -> l_start s = l_start s0 -> 0 <= tail ->
  tail + Z.of_nat k = Z.of_nat (length (l_lh s0)) ->
  write_log_loop k tail s = Ok (tt, lput (log_writes s tail (Z.of_nat k)) s).
Proof using Hlg.
  revert tail s. induction k as [|k IH]; intros tail s Hl Hs Ht Hk.
  - unfold log_writes. simpl. by rewrite lput_nil.
  - cbn [write_log_loop]. unfold mbind at 1, M_bind at 1, get. cbv beta iota.
    unfold mbind, M_bind. rewrite copy_block_eq. cbv beta iota.
    rewrite IH; [|done|done|lia|lia]. f_equal. f_equal. rewrite <- lput_app. f_equal.
    unfold log_writes. rewrite (seqZ_cons tail) by lia. rewrite fmap_cons. cbn [app]. f_equal.
    replace (Z.pred (Z.of_nat (S k))) with (Z.of_nat k) by lia. replace (Z.succ tail) with (tail + 1) by lia.
    apply list_fmap_ext. intros j i Hj. apply lookup_seqZ in Hj as [-> Hj]. cbn [l_start l_lh lput]. f_equal.
    rewrite cached_lput1, decide_False; [done|]. rewrite Hl, Hs.
    pose proof (loggable_at _ _ (tail + 1 + Z.of_nat j) Hlg ltac:(lia)) as [_ Hb].
    pose proof (lg_len _ _ Hlg). lia.
Qed.

Lemma install_loop_eq k tail s :
  l_lh s = l_lh s0 -> l_start s = l_start s0 -> 0 <= tail ->
  tail + Z.of_nat k = Z.of_nat (length (l_lh s0)) ->
  install_loop k tail s = Ok (tt, lput (install_writes s tail (Z.of_nat k)) s).
Proof using Hlg.
  revert tail s. induction k as [|k IH]; intros tail s Hl Hs Ht Hk.
  - unfold install_writes. simpl. by rewrite lput_nil.
  - cbn [install_loop]. unfold mbind at 1, M_bind at 1, get. cbv beta iota.
    unfold mbind, M_bind. rewrite copy_block_eq. cbv beta iota.
    rewrite IH; [|done|done|lia|lia]. f_equal. f_equal. rewrite <- lput_app. f_equal.
    unfold install_writes. rewrite (seqZ_cons tail) by lia. rewrite fmap_cons. cbn [app]. f_equal.
    replace (Z.pred (Z.of_nat (S k))) with (Z.of_nat k) by lia. replace (Z.succ tail) with (tail + 1) by lia.
    apply list_fmap_ext. intros j i Hj. apply lookup_seqZ in Hj as [-> Hj]. cbn [l_start l_lh lput]. f_equal.
    rewrite cached_lput1, decide_False; [done|]. rewrite Hl, Hs.
    pose proof (loggable_at _ _ tail Hlg ltac:(lia)) as [_ Hb].
    pose proof (lg_len _ _ Hlg). lia.
Qed.
End Loops.

Lemma write_head_eq s :
  write_head s = Ok (tt, lput [(l_start s, head_bytes (cached s (l_start s)) (l_lh s))] s).
Proof.
  unfold write_head, mbind, M_bind, get, buf_read, gets, buf_store, modify, bwrite. cbv beta iota.
  set (d := head_bytes _ _).
  assert (cached (with_cache (fun m => <[l_start s:=d]> m) s) (l_start s) = d) as E.
  { unfold cached at 1. simpl. by rewrite lookup_insert_eq. }
  unfold modify. cbv beta. rewrite E. unfold lput, apply_writes, with_cache. simpl. by rewrite insert_insert_eq.
Qed.

(** ** The header block *)

Lemma head_bytes_words d l : head_bytes d l = splice d 0 ((Z.of_nat (length l) :: l) ≫= le_bytes 4).
Proof. unfold head_bytes. by rewrite bind_cons. Qed.

Section Head.
Context (d l : list Z).
Hypothesis Hd : length d = Z.to_nat BSIZE.
Hypothesis Hl : Z.of_nat (length l) <= LOGSIZE.

Lemma length_head_bytes : length (head_bytes d l) = Z.to_nat BSIZE.
Proof using Hd Hl.
  rewrite head_bytes_words, length_splice; rewrite ?length_words, ?Hd; cbn [length];
    change LOGSIZE with 30 in *; change BSIZE with 512; lia.
Qed.

Lemma head_bytes_word k :
  0 <= k <= Z.of_nat (length l) -> Forall (fun b => 0 <= b < 2 ^ 32) l ->
  word (head_bytes d l) k = (Z.of_nat (length l) :: l) !!! Z.to_nat k.
Proof using Hd Hl.
  intros Hk Hf. unfold word. rewrite head_bytes_words.
  replace (4 * k) with (0 + 4 * k) at 1 by lia. change LOGSIZE with 30 in *.
  rewrite slice_splice_in; rewrite ?length_words, ?Hd; cbn [length]; change BSIZE with 512; try lia.
  rewrite slice_words by (cbn [length]; lia). apply le_val32.
  destruct (Z.to_nat k) as [|n] eqn:En; [simpl; lia|].
  change (0 <= l !!! n < 2 ^ 32). rewrite Forall_forall in Hf. apply Hf, list_elem_of_lookup_total_2. lia.
Qed.

Lemma head_n_bytes : Forall (fun b => 0 <= b < 2 ^ 32) l -> head_n (head_bytes d l) = Z.of_nat (length l).
Proof using Hd Hl.
  intros Hf. unfold head_n. rewrite head_bytes_word by (done || lia). simpl.
  apply i32_small. change LOGSIZE with 30 in *. lia.
Qed.

(** the header reads back as the list written *)
Lemma head_blocks_bytes : Forall (fun b => 0 <= b < 2 ^ 32) l -> head_blocks (head_bytes d l) = l.
Proof using Hd Hl.
  intros Hf. unfold head_blocks. rewrite head_n_bytes by done.
  apply list_eq. intros i. rewrite list_lookup_fmap.
  destruct (decide (i < length l)%nat) as [Hi|Hi].
  - rewrite lookup_seqZ_lt by lia. cbn [fmap option_fmap option_map].
    rewrite head_bytes_word by (done || lia). replace (Z.to_nat (1 + (0 + Z.of_nat i))) with (S i) by lia.
    simpl. symmetry. by apply list_lookup_lookup_total_lt.
  - rewrite lookup_seqZ_ge by lia. simpl. symmetry. apply lookup_ge_None. lia.
Qed.
End Head.

(** ** Recovery *)

Definition out_of_log (start b : Z) : Prop := b < start \/ start + LOGSIZE < b.

Record head_ok (start : Z) (D : gmap Z (list Z)) : Prop := {
  ho_len : length (dblk D start) = Z.to_nat BSIZE;
  ho_load : loggable start (head_blocks (dblk D start))
}.

Lemma log_index_spec b k l :
  match log_index b k l with
  | Some i => k <= i < k + Z.of_nat (length l) /\ l !!! Z.to_nat (i - k) = b
  | None => b ∉ l
  end.
Proof.
  revert k. induction l as [|x l IH]; intros k; cbn [log_index]; [by apply not_elem_of_nil|].
  destruct (Z.eqb_spec x b) as [->|Hne].
  - rewrite Z.sub_diag. cbn [length]. split; [lia | done].
  - specialize (IH (k + 1)). destruct (log_index b (k + 1) l) as [i|].
    + destruct IH as [Hi E]. cbn [length]. split; [lia|].
      replace (Z.to_nat (i - k)) with (S (Z.to_nat (i - (k + 1)))) by lia. exact E.
    + rewrite not_elem_of_cons. auto.
Qed.

Lemma recovered_in start D b l :
  head_blocks (dblk D start) = l -> b ∈ l ->
  exists i, 0 <= i < Z.of_nat (length l) /\ l !!! Z.to_nat i = b /\ recovered start D b = dblk D (start + i + 1).
Proof.
  intros E Hb. unfold recovered. rewrite E. pose proof (log_index_spec b 0 l) as H.
  destruct (log_index b 0 l) as [i|]; [|done]. rewrite Z.sub_0_r in H. exists i. split_and!; try apply H. done.
Qed.

Lemma recovered_out start D b l :
  head_blocks (dblk D start) = l -> b ∉ l -> recovered start D b = dblk D b.
Proof.
  intros E Hb. unfold recovered. rewrite E. pose proof (log_index_spec b 0 l) as H.
  destruct (log_index b 0 l) as [i|]; [|done]. destruct H as [Hi <-]. exfalso. apply Hb.
  apply list_elem_of_lookup_total_2. lia.
Qed.

Lemma seq_blocks (l : list Z) (f : Z -> list Z) :
  ((fun i => (l !!! Z.to_nat i, f i)) <$> seqZ 0 (Z.of_nat (length l))).*1 = l.
Proof. rewrite <- list_fmap_compose. apply seqZ_lookup_map. Qed.

Lemma install_writes_fst s : (install_writes s 0 (Z.of_nat (length (l_lh s)))).*1 = l_lh s.
Proof. apply (seq_blocks (l_lh s) (fun i => cached s (l_start s + i + 1))). Qed.

Lemma start_not_in start l : loggable start l -> start ∉ l.
Proof. intros [_ _ Hf] Hin. rewrite Forall_forall in Hf. destruct (Hf _ Hin). change LOGSIZE with 30 in *. lia. Qed.

Lemma log_block_not_in start l i : loggable start l -> 0 <= i < LOGSIZE -> start + i + 1 ∉ l.
Proof. intros [_ _ Hf] Hi Hin. rewrite Forall_forall in Hf. destruct (Hf _ Hin). change LOGSIZE with 30 in *. lia. Qed.

(** what recovery writes *)
Definition recover_writes (start : Z) (D : gmap Z (list Z)) : list (Z * list Z) :=
  let l := head_blocks (dblk D start) in
  ((fun i => (l !!! Z.to_nat i, dblk D (start + i + 1))) <$> seqZ 0 (Z.of_nat (length l))) ++
  [(start, head_bytes (dblk D start) [])].

Lemma loggable_nil start : loggable start [].
Proof. split; [constructor | done | constructor]. Qed.

Lemma apply_writes_app a b D : apply_writes (a ++ b) D = apply_writes b (apply_writes a D).
Proof. apply foldl_app. Qed.

Lemma dblk_apply_last ws D a d b :
  dblk (apply_writes (ws ++ [(a, d)]) D) b = if decide (a = b) then d else dblk (apply_writes ws D) b.
Proof. rewrite apply_writes_app. unfold apply_writes at 1, dblk. simpl. rewrite lookup_insert. by case_decide. Qed.

Lemma prefix_fst (p ws : list (Z * list Z)) b : p `prefix_of` ws -> b ∉ ws.*1 -> b ∉ p.*1.
Proof. intros [q ->]. rewrite fmap_app. set_solver. Qed.

(** a crash during recovery loses nothing *)
Lemma recovered_prefix start D p :
  head_ok start D -> p `prefix_of` recover_writes start D ->
  head_ok start (apply_writes p D) /\
  forall b, out_of_log start b -> recovered start (apply_writes p D) b = recovered start D b.
Proof.
  intros [Hlen Hld] Hp. unfold recover_writes in Hp. set (l := head_blocks (dblk D start)) in *.
  set (I := (fun i : Z => _) <$> _) in Hp. assert (I.*1 = l) as EI by apply seq_blocks.
  apply prefix_app_cases in Hp as [Hp|(q & -> & Hq)].
  - assert (forall b, b ∉ l -> dblk (apply_writes p D) b = dblk D b) as Hout.
    { intros b Hb. apply dblk_apply_out. eapply prefix_fst; [exact Hp|]. by rewrite EI. }
    pose proof (Hout start (start_not_in _ _ Hld)) as Hs. split; [by split; rewrite Hs|].
    intros b _. destruct (decide (b ∈ l)) as [Hb|Hb].
    + unfold recovered. rewrite Hs. fold l. pose proof (log_index_spec b 0 l) as Hi.
      destruct (log_index b 0 l) as [i|]; [|done]. apply Hout, log_block_not_in; [done|].
      pose proof (lg_len _ _ Hld). lia.
    + rewrite !(recovered_out start _ b l) by (rewrite ?Hs; done). by apply Hout.
  - assert (forall b, out_of_log start b ->
      dblk (apply_writes I D) b = recovered start D b) as Hinst.
    { intros b Hb. destruct (decide (b ∈ l)) as [Hin|Hin].
      - destruct (recovered_in start D b l eq_refl Hin) as (i & Hi & <- & ->).
        apply dblk_apply_in; [rewrite EI; apply Hld|]. apply list_elem_of_fmap. exists i.
        split; [done|]. apply elem_of_seqZ. lia.
      - rewrite (recovered_out start D b l) by done. apply dblk_apply_out. by rewrite EI. }
    assert (dblk (apply_writes I D) start = dblk D start) as Hs.
    { apply dblk_apply_out. rewrite EI. by apply start_not_in. }
    apply prefix_singleton_cases in Hq as [->| ->].
    + rewrite app_nil_r. split; [by split; rewrite Hs|]. intros b Hb.
      assert (forall c, c ∉ l -> dblk (apply_writes I D) c = dblk D c) as Hout.
      { intros c Hc. apply dblk_apply_out. by rewrite EI. }
      destruct (decide (b ∈ l)) as [Hin|Hin].
      * unfold recovered. rewrite Hs. fold l. pose proof (log_index_spec b 0 l) as Hi.
        destruct (log_index b 0 l) as [i|]; [|done]. apply Hout, log_block_not_in; [done|].
        pose proof (lg_len _ _ Hld). lia.
      * rewrite (recovered_out start _ b l) by (rewrite ?Hs; done). by apply Hinst.
    + assert (head_blocks (dblk (apply_writes (I ++ [(start, head_bytes (dblk D start) [])]) D) start) = []) as Hh.
      { rewrite dblk_apply_last, decide_True by done. by apply head_blocks_bytes. }
      split.
      * split; [|rewrite Hh; apply loggable_nil]. rewrite dblk_apply_last, decide_True by done.
        by apply length_head_bytes.
      * intros b Hb. rewrite (recovered_out start _ b []) by (done || apply not_elem_of_nil).
        rewrite dblk_apply_last, decide_False; [by apply Hinst|]. intros <-. unfold out_of_log in Hb.
        change LOGSIZE with 30 in *. lia.
Qed.

(** cache and disk agree *)
Definition synced (s : logst) : Prop := forall b, cached s b = dblk (disk s) b.

Lemma cached_lput_dblk ws s b : cached s b = dblk (disk s) b -> cached (lput ws s) b = dblk (apply_writes ws (disk s)) b.
Proof.
  revert s. induction ws as [|[a d] ws IH]; intros s Hs; [by rewrite lput_nil|].
  change ((a, d) :: ws) with ([(a, d)] ++ ws). rewrite lput_app, IH.
  - by rewrite apply_writes_app.
  - rewrite cached_lput1. unfold lput, apply_writes, dblk. simpl. rewrite lookup_insert. by case_decide.
Qed.

Lemma recover_eq s D :
  head_ok (l_start s) D -> exists s',
  recover_from_log (crash s D) = Ok (tt, s') /\ disk s' = apply_writes (recover_writes (l_start s) D) D /\
  writes s' = recover_writes (l_start s) D /\ synced s' /\ l_lh s' = [] /\ l_start s' = l_start s /\ l_size s' = l_size s.
Proof.
  intros [Hlen Hld]. unfold recover_from_log, read_head, install_trans, mbind, M_bind, get, buf_read, gets, modify.
  cbv beta iota. change (cached (crash s D) (l_start (crash s D))) with (dblk D (l_start s)).
  set (l := head_blocks (dblk D (l_start s))) in *.
  assert (head_n (dblk D (l_start s)) <= LOGSIZE) as Hn.
  { pose proof (lg_len _ _ Hld) as H. unfold l, head_blocks in H. rewrite length_fmap, length_seqZ in H. lia. }
  destruct (Z.ltb_spec LOGSIZE (head_n (dblk D (l_start s)))); [lia|].
  set (s1 := with_llh l (crash s D)). change (l_lh s1) with l.
  rewrite (install_loop_eq s1 Hld (length l) 0 s1) by (done || lia).
  cbv beta iota. set (s2 := with_llh [] _). rewrite write_head_eq. eexists. split; [done|].
  assert (install_writes s1 0 (Z.of_nat (length l)) ++
     [(l_start s2, head_bytes (cached s2 (l_start s2)) (l_lh s2))] = recover_writes (l_start s) D) as E.
  { unfold recover_writes. fold l. change (l_start s2) with (l_start s). change (l_lh s2) with (@nil Z). do 4 f_equal.
    change (cached s2 (l_start s)) with (cached (lput (install_writes s1 0 (Z.of_nat (length l))) s1) (l_start s)).
    rewrite cached_lput_out; [done|]. change l with (l_lh s1). rewrite install_writes_fst. by apply start_not_in. }
  rewrite <- E. split_and!; try done.
  - simpl. by rewrite apply_writes_app.
  - intros b. apply (cached_lput_dblk _ s2). apply (cached_lput_dblk _ s1). done.
Qed.

(** ** Commit *)

(** between operations: the cache differs from the disk only on logged blocks,
    and the on-disk log is empty *)
Record log_ok (s : logst) : Prop := {
  lo_load : loggable (l_start s) (l_lh s);
  lo_clean : forall b, b ∉ l_lh s -> cached s b = dblk (disk s) b;
  lo_head : head_blocks (dblk (disk s) (l_start s)) = [];
  lo_len : length (dblk (disk s) (l_start s)) = Z.to_nat BSIZE
}.

Definition commit_writes (s : logst) : list (Z * list Z) :=
  let n := Z.of_nat (length (l_lh s)) in
  let h := head_bytes (dblk (disk s) (l_start s)) (l_lh s) in
  ((fun i => (l_start s + i + 1, cached s (l_lh s !!! Z.to_nat i))) <$> seqZ 0 n) ++
  (l_start s, h) ::
  ((fun i => (l_lh s !!! Z.to_nat i, cached s (l_lh s !!! Z.to_nat i))) <$> seqZ 0 n) ++
  [(l_start s, head_bytes h [])].

Lemma log_writes_fst s b :
  b ∈ ((fun i => (l_start s + i + 1, cached s (l_lh s !!! Z.to_nat i))) <$> seqZ 0 (Z.of_nat (length (l_lh s)))).*1 ->
  l_start s < b <= l_start s + Z.of_nat (length (l_lh s)).
Proof.
  rewrite <- list_fmap_compose, list_elem_of_fmap. intros (i & -> & Hi). apply elem_of_seqZ in Hi. simpl. lia.
Qed.

Lemma commit_eq s : log_ok s -> l_lh s <> [] ->
  commit s = Ok (tt, with_llh [] (lput (commit_writes s) s)).
Proof.
  intros [Hld Hcl Hh Hlen] Hne. unfold commit, mbind, M_bind, get. cbv beta iota.
  destruct (Z.ltb_spec 0 (Z.of_nat (length (l_lh s)))); [|destruct (l_lh s); [done | simpl in *; lia]].
  unfold write_log, mbind, M_bind, get. cbv beta iota.
  rewrite (write_log_loop_eq s Hld) by (done || lia). set (s1 := lput _ s). cbv beta iota.
  rewrite write_head_eq. cbv beta iota. unfold install_trans, mbind, M_bind, get. cbv beta iota.
  set (s2 := lput _ s1). rewrite (install_loop_eq s Hld) by (done || lia). cbv beta iota. unfold modify. cbv beta iota.
  set (s3 := lput _ s2). rewrite write_head_eq. do 2 f_equal.
  pose proof (start_not_in _ _ Hld) as Hst. pose proof (lg_len _ _ Hld) as Hll.
  assert (forall b, b ∈ l_lh s -> cached s1 b = cached s b) as H1.
  { intros b Hb. apply cached_lput_out. intros Hin%log_writes_fst.
    destruct Hld as [_ _ Hf]. rewrite Forall_forall in Hf. destruct (Hf b Hb). lia. }
  assert (cached s1 (l_start s) = dblk (disk s) (l_start s)) as H2.
  { unfold s1. rewrite cached_lput_out; [by apply Hcl|]. intros Hin%log_writes_fst. lia. }
  assert (forall i, 0 <= i < Z.of_nat (length (l_lh s)) ->
    cached s2 (l_start s + i + 1) = cached s (l_lh s !!! Z.to_nat i)) as H3.
  { intros i Hi. unfold s2. rewrite cached_lput1, decide_False by (change (l_start s1) with (l_start s); lia).
    apply cached_lput_in; [|apply list_elem_of_fmap; exists i; split; [done | apply elem_of_seqZ; lia]].
    unfold log_writes. rewrite <- list_fmap_compose. apply NoDup_fmap_2; [intros ??; simpl; lia | apply NoDup_seqZ]. }
  assert (cached s3 (l_start s) = head_bytes (dblk (disk s) (l_start s)) (l_lh s)) as H4.
  { unfold s3. change (cached (lput (install_writes s2 0 (Z.of_nat (length (l_lh s)))) s2) (l_start s) =
      head_bytes (dblk (disk s) (l_start s)) (l_lh s)).
    rewrite cached_lput_out; [|change (length (l_lh s)) with (length (l_lh s2)); by rewrite install_writes_fst].
    unfold s2. rewrite cached_lput1, decide_True by done.
    change (l_start s1) with (l_start s). by rewrite H2. }
  assert (install_writes s2 0 (Z.of_nat (length (l_lh s))) =
    ((fun i => (l_lh s !!! Z.to_nat i, cached s (l_lh s !!! Z.to_nat i))) <$> seqZ 0 (Z.of_nat (length (l_lh s))))) as H5.
  { apply list_fmap_ext. intros j i Hj. apply lookup_seqZ in Hj as [-> Hj]. f_equal. apply H3. lia. }
  change (l_start (with_llh [] s3)) with (l_start s). change (l_lh (with_llh [] s3)) with (@nil Z).
  change (cached (with_llh [] s3) (l_start s)) with (cached s3 (l_start s)). rewrite H4.
  transitivity (with_llh [] (lput [(l_start s, head_bytes (head_bytes (dblk (disk s) (l_start s)) (l_lh s)) [])] s3)); [done|].
  f_equal. unfold s3. change (l_lh s2) with (l_lh s). rewrite H5. unfold s2.
  change (l_start s1) with (l_start s). change (l_lh s1) with (l_lh s). rewrite H2. unfold s1.
  unfold commit_writes, log_writes.
  by rewrite <- !lput_app.
Qed.

(** the state of the disk right after the header write, the commit point *)
Definition commit_point (s : logst) : gmap Z (list Z) :=
  apply_writes (log_writes s 0 (Z.of_nat (length (l_lh s))) ++
                [(l_start s, head_bytes (dblk (disk s) (l_start s)) (l_lh s))]) (disk s).

Lemma loggable_u32 start l : loggable start l -> Forall (fun b => 0 <= b < 2 ^ 32) l.
Proof. intros [_ _ Hf]. eapply Forall_impl; [exact Hf|]. simpl. tauto. Qed.

Lemma commit_point_ok s :
  log_ok s -> let D := commit_point s in
  head_ok (l_start s) D /\ head_blocks (dblk D (l_start s)) = l_lh s /\
  commit_writes s = log_writes s 0 (Z.of_nat (length (l_lh s))) ++
    (l_start s, head_bytes (dblk (disk s) (l_start s)) (l_lh s)) :: recover_writes (l_start s) D /\
  forall b, out_of_log (l_start s) b -> recovered (l_start s) D b = cached s b.
Proof.
  intros [Hld Hcl Hh Hlen] D. pose proof (lg_len _ _ Hld) as Hll.
  assert (dblk D (l_start s) = head_bytes (dblk (disk s) (l_start s)) (l_lh s)) as Hs.
  { unfold D, commit_point. by rewrite dblk_apply_last, decide_True. }
  assert (head_blocks (dblk D (l_start s)) = l_lh s) as Hb.
  { rewrite Hs. apply head_blocks_bytes; [done | done | by eapply loggable_u32]. }
  assert (forall i, 0 <= i < Z.of_nat (length (l_lh s)) ->
    dblk D (l_start s + i + 1) = cached s (l_lh s !!! Z.to_nat i)) as Hi.
  { intros i Hi. unfold D, commit_point. rewrite dblk_apply_last, decide_False by lia.
    apply dblk_apply_in; [|apply list_elem_of_fmap; exists i; split; [done | apply elem_of_seqZ; lia]].
    unfold log_writes. rewrite <- list_fmap_compose. apply NoDup_fmap_2; [intros ??; simpl; lia | apply NoDup_seqZ]. }
  split; [|split_and!; [done | |]].
  - split; [rewrite Hs; by apply length_head_bytes | by rewrite Hb].
  - unfold commit_writes, recover_writes. rewrite Hb, Hs. do 3 f_equal.
    apply list_fmap_ext. intros j i Hj. apply lookup_seqZ in Hj as [-> Hj]. f_equal. symmetry. apply Hi. lia.
  - intros b Hout. destruct (decide (b ∈ l_lh s)) as [Hin|Hin].
    + destruct (recovered_in (l_start s) D b (l_lh s) Hb Hin) as (i & Hi' & <- & ->). by apply Hi.
    + rewrite (recovered_out (l_start s) D b (l_lh s) Hb Hin), Hcl by done. apply dblk_apply_out.
      rewrite fmap_app. intros [Hin'|Hin']%elem_of_app.
      * apply log_writes_fst in Hin'. unfold out_of_log in Hout. change LOGSIZE with 30 in *. lia.
      * simpl in Hin'. rewrite elem_of_cons in Hin'. unfold out_of_log in Hout. change LOGSIZE with 30 in *.
        destruct Hin' as [->|Hin']; [lia | by apply not_elem_of_nil in Hin'].
Qed.

(** a crash before the header write leaves the old image *)
Lemma before_commit_point s p :
  log_ok s -> p `prefix_of` log_writes s 0 (Z.of_nat (length (l_lh s))) ->
  head_ok (l_start s) (apply_writes p (disk s)) /\
  forall b, out_of_log (l_start s) b -> recovered (l_start s) (apply_writes p (disk s)) b = dblk (disk s) b.
Proof.
  intros [Hld Hcl Hh Hlen] Hp. pose proof (lg_len _ _ Hld) as Hll.
  assert (forall b, b ∈ (log_writes s 0 (Z.of_nat (length (l_lh s)))).*1 ->
    l_start s < b <= l_start s + Z.of_nat (length (l_lh s))) as HW1 by apply log_writes_fst.
  assert (forall b, b ∉ (log_writes s 0 (Z.of_nat (length (l_lh s)))).*1 ->
    dblk (apply_writes p (disk s)) b = dblk (disk s) b) as Hout.
  { intros b Hb. apply dblk_apply_out. by eapply prefix_fst. }
  assert (dblk (apply_writes p (disk s)) (l_start s) = dblk (disk s) (l_start s)) as Hs.
  { apply Hout. intros Hin%HW1. lia. }
  split; [split; rewrite Hs; [done | rewrite Hh; apply loggable_nil]|]. intros b Hb.
  rewrite (recovered_out _ _ b []) by (rewrite ?Hs; done || apply not_elem_of_nil).
  apply Hout. intros Hin%HW1. unfold out_of_log in Hb. change LOGSIZE with 30 in *. lia.
Qed.

(** every crash point of a commit is before or after the header write *)
Lemma commit_prefix s p :
  log_ok s -> p `prefix_of` commit_writes s ->
  head_ok (l_start s) (apply_writes p (disk s)) /\
  ((p <> commit_writes s /\
    forall b, out_of_log (l_start s) b -> recovered (l_start s) (apply_writes p (disk s)) b = dblk (disk s) b) \/
   (forall b, out_of_log (l_start s) b -> recovered (l_start s) (apply_writes p (disk s)) b = cached s b)).
Proof.
  intros Hok Hp. destruct (commit_point_ok s Hok) as (Hho & _ & Ew & Hrec).
  rewrite Ew in *. set (w := (l_start s, head_bytes _ _)) in *.
  assert (forall q, log_writes s 0 (Z.of_nat (length (l_lh s))) ++ w :: q =
    (log_writes s 0 (Z.of_nat (length (l_lh s))) ++ [w]) ++ q) as Eq by (intros; by rewrite <- (assoc_L (++))).
  apply prefix_app_cases in Hp as [Hp|([|w' q] & -> & Hq)].
  - destruct (before_commit_point s p Hok Hp) as [H1 H2]. split; [done|]. left. split; [|done].
    intros ->. apply prefix_length in Hp. rewrite length_app in Hp. cbn [length] in Hp. lia.
  - rewrite !app_nil_r. destruct (before_commit_point s _ Hok (reflexivity _)) as [H1 H2].
    split; [done|]. left. split; [|done]. intros E%(f_equal length). rewrite length_app in E. cbn [length] in E. lia.
  - pose proof (prefix_cons_inv_1 _ _ _ _ Hq) as ->. apply prefix_cons_inv_2 in Hq.
    rewrite Eq, apply_writes_app. fold (commit_point s).
    destruct (recovered_prefix (l_start s) (commit_point s) q Hho Hq) as [H1 H2]. split; [done|].
    right. intros b Hb. by rewrite H2, Hrec.
Qed.

(** a boot that is itself interrupted: [D'] is the disk after a prefix of the
    writes of [recover_from_log] *)
Definition interrupted (s : logst) (D D' : gmap Z (list Z)) : Prop :=
  exists s1 p, recover_from_log (crash s D) = Ok (tt, s1) /\ p `prefix_of` writes s1 /\ D' = apply_writes p D.

Lemma interrupted_recovered s D D' :
  rtc (interrupted s) D D' -> head_ok (l_start s) D ->
  head_ok (l_start s) D' /\ forall b, out_of_log (l_start s) b -> recovered (l_start s) D' b = recovered (l_start s) D b.
Proof.
  induction 1 as [D|D D1 D2 (s1 & p & Er & Hp & ->) _ IH]; intros Hho; [done|].
  destruct (recover_eq s D Hho) as (s1' & Er' & _ & Ew & _). rewrite Er' in Er. injection Er as ->.
  rewrite Ew in Hp. destruct (recovered_prefix _ _ _ Hho Hp) as [H1 H2].
  destruct (IH H1) as [H3 H4]. split; [done|]. intros b Hb. by rewrite H4, H2.
Qed.


(** one block logged, the commit interrupted after its first write *)
Definition demo_log : logst :=
  mklog ∅ {[100 := replicate 512 1]} 2 31 0 false [100] [].

Lemma demo_log_ok : log_ok demo_log.
Proof.
  split.
  - split; [apply NoDup_singleton | done | repeat constructor; done].
  - intros b Hb. unfold cached, demo_log. cbn [cache]. rewrite lookup_singleton_ne; [done|]. set_solver.
  - vm_compute. reflexivity.
  - reflexivity.
Qed.


(** ** Log space *)

Lemma cached_lput_written ws s b : b ∈ ws.*1 -> cached (lput ws s) b = dblk (apply_writes ws (disk s)) b.
Proof.
  induction ws as [|[a d] ws IH] using rev_ind; intros Hin; [by apply not_elem_of_nil in Hin|].
  rewrite lput_app, cached_lput1, dblk_apply_last. case_decide as E; [done|]. apply IH.
  rewrite fmap_app in Hin. apply elem_of_app in Hin as [?|Hin]; [done|]. simpl in Hin.
  rewrite elem_of_cons in Hin. destruct Hin as [->|Hin]; [done | by apply not_elem_of_nil in Hin].
Qed.

Lemma commit_log_ok s : log_ok s -> exists s', commit s = Ok (tt, s') /\ log_ok s' /\ l_lh s' = [] /\
  l_out s' = l_out s /\ l_size s' = l_size s /\ l_start s' = l_start s /\ l_committing s' = l_committing s.
Proof.
  intros Hok. destruct (decide (l_lh s = [])) as [E|E].
  - exists s. split; [|by split_and!]. unfold commit, mbind, M_bind, get. by rewrite E.
  - rewrite (commit_eq s Hok E). eexists. split; [done|]. split; [|done].
    destruct Hok as [Hld Hcl Hh Hlen]. set (h := head_bytes (dblk (disk s) (l_start s)) (l_lh s)).
    assert (length h = Z.to_nat BSIZE) as Hhl by (apply length_head_bytes; [done | apply Hld]).
    assert (dblk (apply_writes (commit_writes s) (disk s)) (l_start s) = head_bytes h []) as Hst.
    { unfold commit_writes. fold h. rewrite app_comm_cons, (assoc_L (++)), dblk_apply_last. by rewrite decide_True. }
    split; cbn [with_llh lput disk l_start l_lh]; [apply loggable_nil | | |].
    + intros b _. change (cached (lput (commit_writes s) s) b = dblk (apply_writes (commit_writes s) (disk s)) b).
      destruct (decide (b ∈ l_lh s)) as [Hin|Hin]; [|by apply cached_lput_dblk, Hcl].
      apply cached_lput_written. unfold commit_writes. rewrite fmap_app, fmap_cons, fmap_app.
      rewrite (seq_blocks (l_lh s)). set_solver.
    + rewrite Hst. by apply head_blocks_bytes.
    + rewrite Hst. by apply length_head_bytes.
Qed.

Definition op_block (start b : Z) : Prop := 0 <= b < 2 ^ 32 /\ out_of_log start b.

(** concurrent file-system operations over the log, each the list of the blocks
    that it has logged; none logs more than [B] different blocks *)
Inductive log_step (B : Z) : logst * list (list Z) -> logst * list (list Z) -> Prop :=
| LsBegin l ops l' : begin_op l = Ok (tt, l') -> log_step B (l, ops) (l', [] :: ops)
| LsStore l ops i D b d l' : ops !! i = Some D -> b ∈ D \/ Z.of_nat (length D) < B -> op_block (l_start l) b ->
    log_store b d l = Ok (tt, l') -> log_step B (l, ops) (l', <[i := absorb b D]> ops)
| LsEnd l ops i D l' : ops !! i = Some D -> end_op l = Ok (tt, l') -> log_step B (l, ops) (l', delete i ops).

Definition zsum (l : list Z) : Z := foldr Z.add 0 l.

(** how many blocks each operation may still log *)
Definition left_over (B : Z) (ops : list (list Z)) : list Z := (fun D => B - Z.of_nat (length D)) <$> ops.

Record log_inv (B start size : Z) (x : logst * list (list Z)) : Prop := {
  li_ok : log_ok x.1;
  li_start : l_start x.1 = start;
  li_size : l_size x.1 = size;
  li_out : l_out x.1 = Z.of_nat (length x.2);
  li_com : l_committing x.1 = false;
  li_ops : Forall (fun k => 0 <= k <= B) (left_over B x.2);
  li_logged : Forall (fun D => D ⊆ l_lh x.1) x.2;
  li_idle : x.2 = [] -> l_lh x.1 = [];
  li_room : Z.of_nat (length (l_lh x.1)) + zsum (left_over B x.2) <= MAXOPBLOCKS + 2 * B
}.

Lemma zsum_bound B l : Forall (fun k => 0 <= k <= B) l -> 0 <= zsum l <= B * Z.of_nat (length l).
Proof. unfold zsum. induction 1 as [|x l Hx _ IH]; cbn [foldr length]; [lia|]. lia. Qed.

Lemma zsum_insert l i k k' : l !! i = Some k -> zsum (<[i := k']> l) = zsum l - k + k'.
Proof.
  unfold zsum. revert i. induction l as [|x l IH]; intros [|i] H; simplify_eq/=; [lia|]. rewrite (IH _ H). lia.
Qed.

Lemma zsum_delete l i k : l !! i = Some k -> zsum (delete i l) = zsum l - k.
Proof.
  unfold zsum. revert i. induction l as [|x l IH]; intros [|i] H; simplify_eq/=; [lia|]. rewrite (IH _ H). lia.
Qed.

Lemma zsum_ge B l i k : Forall (fun k => 0 <= k <= B) l -> l !! i = Some k -> k <= zsum l.
Proof.
  intros Hf. revert i. induction Hf as [|x l Hx Hf IH]; intros [|i] H; simplify_eq/=.
  - pose proof (zsum_bound B l Hf). unfold zsum in *. lia.
  - apply IH in H. unfold zsum in *. lia.
Qed.

Lemma log_store_ok b d s :
  log_ok s -> op_block (l_start s) b -> Z.of_nat (length (l_lh s)) < Z.min LOGSIZE (l_size s - 1) -> 1 <= l_out s ->
  exists s', log_store b d s = Ok (tt, s') /\ log_ok s' /\ l_lh s' = absorb b (l_lh s) /\
    l_out s' = l_out s /\ l_size s' = l_size s /\ l_start s' = l_start s /\ l_committing s' = l_committing s.
Proof.
  intros [Hld Hcl Hh Hlen] [Hb1 Hb2] Hr Ho. unfold log_store, buf_store, log_write, mbind, M_bind, modify, get.
  cbn [with_cache l_lh l_size l_out].
  destruct (Z.leb_spec LOGSIZE (Z.of_nat (length (l_lh s)))); [lia|].
  destruct (Z.leb_spec (l_size s - 1) (Z.of_nat (length (l_lh s)))); [lia|].
  destruct (Z.ltb_spec (l_out s) 1); [lia|]. cbn [orb]. eexists. split; [done|]. split; [|done].
  split; cbn [with_llh with_cache disk l_start l_lh]; try done.
  - destruct Hld as [Hnd Hl Hf]. unfold absorb. case_bool_decide as Hin; [done|]. split.
    + apply NoDup_app. split_and!; [done | set_solver | apply NoDup_singleton].
    + rewrite length_app. simpl. lia.
    + apply Forall_app. split; [done|]. apply Forall_singleton. done.
  - intros c Hc. assert (c ∉ l_lh s /\ c <> b) as [Hc1 Hc2].
    { unfold absorb in Hc. case_bool_decide; set_solver. }
    unfold cached. cbn [with_llh with_cache cache disk]. rewrite lookup_insert_ne by done. by apply Hcl.
Qed.

Lemma log_store_inv b d s s' : log_store b d s = Ok (tt, s') ->
  Z.of_nat (length (l_lh s)) < Z.min LOGSIZE (l_size s - 1) /\ 1 <= l_out s.
Proof.
  unfold log_store, buf_store, log_write, mbind, M_bind, modify, get, panic. cbn [with_cache l_lh l_size l_out].
  destruct (Z.leb_spec LOGSIZE (Z.of_nat (length (l_lh s)))); [done|].
  destruct (Z.leb_spec (l_size s - 1) (Z.of_nat (length (l_lh s)))); [done|].
  destruct (Z.ltb_spec (l_out s) 1); [done|]. lia.
Qed.

Lemma absorb_elem x b l : x ∈ absorb b l <-> x ∈ l \/ x = b.
Proof. unfold absorb. case_bool_decide; rewrite ?elem_of_app, ?list_elem_of_singleton; [|done]. split; [auto|]. by intros [?| ->]. Qed.
Lemma absorb_length b l : Z.of_nat (length (absorb b l)) = Z.of_nat (length l) + (if bool_decide (b ∈ l) then 0 else 1).
Proof. unfold absorb. case_bool_decide as Hb; [lia|]. rewrite length_app. simpl. lia. Qed.

Lemma begin_inv B start size l ops l' : 0 <= B <= MAXOPBLOCKS ->
  log_inv B start size (l, ops) -> begin_op l = Ok (tt, l') -> log_inv B start size (l', [] :: ops).
Proof.
  intros HB [Hok Hst Hs Ho Hc Hf Hlg Hid Hr] E. cbn [fst snd] in *. unfold begin_op, mbind, M_bind, get, modify in E. rewrite Hc in E.
  destruct (Z.ltb_spec LOGSIZE (Z.of_nat (length (l_lh l)) + (l_out l + 1) * MAXOPBLOCKS)) as [|Hadm]; [done|].
  injection E as <-. pose proof (zsum_bound B _ Hf) as Hz. assert (length (left_over B ops) = length ops) as El by apply length_fmap. rewrite El in Hz.
  split; cbn [fst snd with_out l_start l_size l_out l_committing l_lh]; try done.
  - destruct Hok. by split.
  - cbn [length]. lia.
  - constructor; [simpl; lia | done].
  - constructor; [set_solver | done].
  - change (left_over B ([] :: ops)) with (B - 0 :: left_over B ops). unfold zsum in *. cbn [foldr]. rewrite Ho in Hadm. change MAXOPBLOCKS with 10 in *. change LOGSIZE with 30 in Hadm.
    destruct ops as [|D ops]; [rewrite (Hid eq_refl) in *; simpl in *; lia|]. cbn [length] in *. nia.
Qed.

Lemma store_inv B start size l ops i D b d l' : log_inv B start size (l, ops) -> ops !! i = Some D ->
  b ∈ D \/ Z.of_nat (length D) < B -> op_block (l_start l) b -> log_store b d l = Ok (tt, l') ->
  log_inv B start size (l', <[i := absorb b D]> ops).
Proof.
  intros [Hok Hst Hs Ho Hc Hf Hlg Hid Hr] Hi HD Hb E. cbn [fst snd] in *.
  destruct (log_store_inv _ _ _ _ E) as [Hroom Hout].
  destruct (log_store_ok b d l Hok Hb Hroom Hout) as (l2 & E2 & Hok2 & Hlh2 & Ho2 & Hs2 & Hst2 & Hc2).
  rewrite E2 in E. injection E as ->. pose proof (absorb_length b D) as A3. pose proof (absorb_length b (l_lh l)) as L3.
  assert (left_over B ops !! i = Some (B - Z.of_nat (length D))) as Hli by (unfold left_over; by rewrite list_lookup_fmap, Hi).
  pose proof (proj1 (Forall_lookup _ _) Hf _ _ Hli) as Hk. pose proof (proj1 (Forall_lookup _ _) Hlg _ _ Hi) as HDl. cbn beta in Hk, HDl.
  assert (bool_decide (b ∈ D) = true -> bool_decide (b ∈ l_lh l) = true) as Himp by (rewrite !bool_decide_eq_true; apply HDl).
  split; cbn [fst snd]; try congruence.
  - rewrite length_insert. congruence.
  - unfold left_over. rewrite list_fmap_insert. apply Forall_insert; [done|]. rewrite A3.
    destruct (bool_decide_reflect (b ∈ D)); [lia|]. destruct HD; [done | lia].
  - rewrite Hlh2. apply Forall_insert.
    + eapply Forall_impl; [exact Hlg|]. intros D' HD' x Hx. apply absorb_elem. left. by apply HD'.
    + intros x. rewrite !absorb_elem. intros [Hx| ->]; [left; by apply HDl | by right].
  - intros E. apply (f_equal length) in E. rewrite length_insert in E. apply lookup_lt_Some in Hi. simpl in E. lia.
  - unfold left_over. rewrite list_fmap_insert. fold (left_over B ops). rewrite (zsum_insert _ _ _ _ Hli), Hlh2, L3, A3.
    destruct (bool_decide (b ∈ D)); [rewrite Himp by done; lia|]. destruct (bool_decide (b ∈ l_lh l)); lia.
Qed.

Lemma end_inv B start size l ops i D l' : 0 <= B -> log_inv B start size (l, ops) -> ops !! i = Some D -> end_op l = Ok (tt, l') ->
  log_inv B start size (l', delete i ops).
Proof.
  intros HB [Hok Hst Hs Ho Hc Hf Hlg Hid Hr] Hi E. cbn [fst snd] in *. unfold end_op, mbind, M_bind, get, modify in E. rewrite Hc in E.
  pose proof (length_delete ops i ltac:(by eexists)) as Hdel. pose proof (lookup_lt_Some _ _ _ Hi).
  assert (left_over B ops !! i = Some (B - Z.of_nat (length D))) as Hli by (unfold left_over; by rewrite list_lookup_fmap, Hi).
  assert (left_over B (delete i ops) = delete i (left_over B ops)) as Hld.
  { unfold left_over. clear. revert i. induction ops as [|x ops IH]; intros [|i]; [done..|]. cbn. f_equal. apply IH. }
  pose proof (zsum_delete _ _ _ Hli) as Hsd. pose proof (zsum_bound B _ Hf). pose proof (proj1 (Forall_lookup _ _) Hf _ _ Hli) as Hki. cbn beta in Hki.
  assert (Forall (fun k => 0 <= k <= B) (left_over B (delete i ops))) as Hfd by (rewrite Hld; by apply Forall_delete).
  destruct (Z.eqb_spec (l_out l - 1) 0) as [E0|E0].
  - assert (log_ok (with_committing true (with_out (l_out l - 1) l))) as Hok1 by (destruct Hok; by split).
    destruct (commit_log_ok _ Hok1) as (l2 & E2 & Hok2 & Hlh2 & Ho2 & Hs2 & Hst2 & _). rewrite E2 in E.
    injection E as <-. cbn [with_committing with_out l_out l_size l_start] in *.
    assert (delete i ops = []) as Hnil by (apply nil_length_inv; lia). rewrite Hnil in *.
    split; cbn [fst snd with_committing l_start l_size l_out l_committing l_lh]; try congruence; try constructor.
    + by destruct Hok2.
    + by destruct Hok2.
    + by destruct Hok2.
    + by destruct Hok2.
    + rewrite Ho2. simpl in Hdel. simpl. lia.
    + rewrite Hlh2. simpl. change MAXOPBLOCKS with 10. lia.
  - injection E as <-. split; cbn [fst snd with_out l_start l_size l_out l_committing l_lh]; try congruence; try lia.
    + destruct Hok. by split.
    + by apply Forall_delete.
    + intros En. apply (f_equal length) in En. simpl in En. lia.
    + rewrite Hld. lia.
Qed.

Lemma log_inv_rtc B start size x y : 0 <= B <= MAXOPBLOCKS -> rtc (log_step B) x y -> log_inv B start size x -> log_inv B start size y.
Proof.
  intros HB. induction 1 as [|x y z Hxy _ IH]; [done|]. intros H. apply IH.
  destruct Hxy; [by eapply begin_inv | by eapply store_inv | eapply end_inv; [lia | done..]].
Qed.

Lemma end_op_ok B start size l ops i D :
  log_inv B start size (l, ops) -> ops !! i = Some D -> exists l', end_op l = Ok (tt, l').
Proof.
  intros [Hok _ _ _ Hc _ _ _ _] _. cbn [fst] in *. unfold end_op, mbind, M_bind, get, modify. rewrite Hc.
  destruct (Z.eqb_spec (l_out l - 1) 0); [|by eexists].
  assert (log_ok (with_committing true (with_out (l_out l - 1) l))) as Hok1 by (destruct Hok; by split).
  destruct (commit_log_ok _ Hok1) as (l2 & E2 & _). rewrite E2. by eexists.
Qed.


Definition idle_log (size : Z) : logst := mklog ∅ ∅ 2 size 0 false [] [].

Lemma idle_log_ok size : log_ok (idle_log size).
Proof. split; [apply loggable_nil | done | vm_compute; reflexivity | reflexivity]. Qed.


(** three operations that each stay within [MAXOPBLOCKS] *)
Fixpoint store_many (n : nat) (b : Z) (x : logst * list (list Z)) : option (logst * list (list Z)) :=
  match n with
  | O => Some x
  | S n' =>
      let i := (length x.2 - 1 - Z.to_nat ((b - 100) / MAXOPBLOCKS))%nat in
      match x.2 !! i, log_store b zero_block x.1 with
      | Some D, Ok (tt, l') =>
          if (Z.of_nat (length D) <? MAXOPBLOCKS) && (100 <=? b) && (b <? 200) then store_many n' (b + 1) (l', <[i := absorb b D]> x.2) else None
      | _, _ => None
      end
  end.

Lemma store_many_steps n b x y :
  l_start x.1 = 2 -> store_many n b x = Some y -> rtc (log_step MAXOPBLOCKS) x y.
Proof.
  revert b x. induction n as [|n IH]; intros b x Hs E; cbn [store_many] in E; [by injection E as ->|].
  destruct (x.2 !! _) as [D|] eqn:HD; [|done].
  destruct (log_store b zero_block x.1) as [[[] l']| |] eqn:El; [|done..].
  destruct (_ && _) eqn:Hc; [|done]. rewrite !andb_true_iff, !Z.ltb_lt, Z.leb_le in Hc.
  eapply rtc_l; [|apply (IH (b + 1)); [|exact E]].
  - destruct x as [l ops]. eapply (LsStore _ l ops); [exact HD | right; apply Hc | | exact El].
    cbn [fst] in Hs. rewrite Hs. split; [lia | right; change LOGSIZE with 30; lia].
  - cbn [fst]. unfold log_store, buf_store, log_write, mbind, M_bind, modify, get, panic in El.
    cbn [with_cache l_lh l_size l_out] in El. destruct (_ || _); [done|]. destruct (_ <? _); [done|].
    injection El as <-. done.
Qed.

Definition three_ops (size : Z) : logst * list (list Z) := (with_out 3 (idle_log size), replicate 3 []).
Lemma three_ops_steps size : rtc (log_step MAXOPBLOCKS) (idle_log size, []) (three_ops size).
Proof. do 3 (eapply rtc_l; [eapply LsBegin; reflexivity|]). reflexivity. Qed.

(** the bounds of [log_space] are tight: on mkfs's log three operations that
    each log at most [MAXOPBLOCKS] blocks, and that [begin_op] had admitted, reach
    a state in which the next block of one of them panics *)
Theorem log_space_tight :
  exists x i D, rtc (log_step MAXOPBLOCKS) (idle_log LOGSIZE, []) x /\ x.2 !! i = Some D /\ Z.of_nat (length D) < MAXOPBLOCKS /\
    log_store 129 zero_block x.1 = Panic "too big a transaction".
Proof.
  destruct (store_many 29 100 (three_ops LOGSIZE)) as [y|] eqn:E; [|by vm_compute in E].
  exists y, 0%nat, [120; 121; 122; 123; 124; 125; 126; 127; 128]. split.
  - etrans; [apply three_ops_steps|]. by eapply store_many_steps in E.
  - vm_compute in E. injection E as <-. split_and!; reflexivity.
Qed.

(** and on a larger log one of them panics when it stores again to a block that
    it has logged, because [log_write] looks for room before it absorbs *)
Theorem log_rewrite_panics :
  exists x i D, rtc (log_step MAXOPBLOCKS) (idle_log (LOGSIZE + 1), []) x /\ x.2 !! i = Some D /\ 129 ∈ D /\
    log_store 129 zero_block x.1 = Panic "too big a transaction".
Proof.
  destruct (store_many 30 100 (three_ops (LOGSIZE + 1))) as [y|] eqn:E; [|by vm_compute in E].
  exists y, 0%nat, [120; 121; 122; 123; 124; 125; 126; 127; 128; 129]. split.
  - etrans; [apply three_ops_steps|]. by eapply store_many_steps in E.
  - vm_compute in E. injection E as <-. split_and!; [reflexivity | | reflexivity]. apply (bool_decide_unpack _). by vm_compute.
Qed.

(** ** The file-system layers' view of the log

    The layers above see the cache and the transaction ([fsys] of [Blocks]);
    a logged store here is a store and a [log_write] there. *)

Definition as_fsys (s : logst) (b : superblock) (ic : list inode) (con : list string) : fsys :=
  mkfs b (cache s ∪ disk s) (l_lh s) (l_out s) ic con.

Lemma as_fsys_block s x ic con b : block_of (as_fsys s x ic con) b = cached s b.
Proof.
  unfold block_of, cached, dblk, as_fsys. cbn [blk]. rewrite lookup_union.
  destruct (cache s !! b), (disk s !! b); done.
Qed.

(** the block layer of [Blocks] is what the log provides: reading a block
    through the cache and logging a store give the same result, the same panic
    and the same transaction on both levels, whatever the disk holds. *)
Lemma log_refines_blocks s x ic con b d :
  sb_nlog x = l_size s ->
  bread b (as_fsys s x ic con) = Ok (cached s b, as_fsys s x ic con) /\
  match log_store b d s, (set_data b d ;; Blocks.log_write b) (as_fsys s x ic con) with
  | Ok (_, s'), Ok (_, f') => f' = as_fsys s' x ic con
  | Panic m, Panic m' => m = m'
  | _, _ => False
  end.
Proof.
  intros Hx. split; [unfold bread, gets; by rewrite as_fsys_block|].
  unfold log_store, buf_store, log_write, Blocks.log_write, set_data, mbind, M_bind, modify, get, panic.
  cbn [with_cache l_lh l_size l_out as_fsys set_blk lh sb outstanding]. rewrite Hx.
  destruct (_ || _); [done|]. destruct (l_out s <? 1); [done|].
  unfold as_fsys, set_lh, set_blk. cbn. by rewrite insert_union_l.
Qed.
