(* ===== verification/Inode.v ===== *)
(** * Inodes of the xv6 file system

    The on-disk inode format and the inode cache of [fs.c], common to both
    kernels (13 block addresses in a 64-byte [struct dinode]).  An inode
    pointer is an index into [icache].  [itrunc] differs between the kernels
    and is what the class [Truncate] asks of a kernel; [iput] is written
    against it.  A sleep lock that is already held blocks its caller. *)

From S2P Require Import Prelude Blocks.

Definition NADDRS : Z := 13.
Definition DINODE_SIZE : Z := 64.
Definition IPB : Z := BSIZE / DINODE_SIZE.
Definition IBLOCK (i : Z) (sb : superblock) : Z := i / IPB + sb_inodestart sb.

Definition T_DIR : Z := 1.
Definition T_FILE : Z := 2.
Definition T_DEV : Z := 3.

#[export] Instance inode_inhabited : Inhabited inode :=
  populate (mkinode 0 0 0 false false 0 0 0 0 0 []).

(** the contents of a [struct dinode] *)
Definition dinode_bytes (i : inode) : list Z :=
  le_bytes 2 (i_type i) ++ le_bytes 2 (i_major i) ++ le_bytes 2 (i_minor i) ++
  le_bytes 2 (i_nlink i) ++ le_bytes 4 (i_size i) ++ (i_addrs i ≫= le_bytes 4).

Definition dinode_off (inum : Z) : Z := inum mod IPB * DINODE_SIZE.

(** the fields [ilock] copies from a dinode at byte offset [off] of block [d] *)
Definition read_dinode (d : list Z) (off : Z) (i : inode) : inode :=
  mkinode (i_dev i) (i_inum i) (i_ref i) (i_locked i) (i_valid i)
    (i16 (le_val (slice d off 2))) (i16 (le_val (slice d (off + 2) 2)))
    (i16 (le_val (slice d (off + 4) 2))) (i16 (le_val (slice d (off + 6) 2)))
    (le_val (slice d (off + 8) 4))
    ((fun k => le_val (slice d (off + 12 + 4 * k) 4)) <$> seqZ 0 NADDRS).

Definition with_ref (r : Z) (i : inode) : inode :=
  mkinode (i_dev i) (i_inum i) r (i_locked i) (i_valid i) (i_type i) (i_major i) (i_minor i)
    (i_nlink i) (i_size i) (i_addrs i).
Definition with_locked (l : bool) (i : inode) : inode :=
  mkinode (i_dev i) (i_inum i) (i_ref i) l (i_valid i) (i_type i) (i_major i) (i_minor i)
    (i_nlink i) (i_size i) (i_addrs i).
Definition with_valid (v : bool) (i : inode) : inode :=
  mkinode (i_dev i) (i_inum i) (i_ref i) (i_locked i) v (i_type i) (i_major i) (i_minor i)
    (i_nlink i) (i_size i) (i_addrs i).
Definition with_type (t : Z) (i : inode) : inode :=
  mkinode (i_dev i) (i_inum i) (i_ref i) (i_locked i) (i_valid i) t (i_major i) (i_minor i)
    (i_nlink i) (i_size i) (i_addrs i).
Definition with_nlink (n : Z) (i : inode) : inode :=
  mkinode (i_dev i) (i_inum i) (i_ref i) (i_locked i) (i_valid i) (i_type i) (i_major i) (i_minor i)
    n (i_size i) (i_addrs i).
Definition with_size (z : Z) (i : inode) : inode :=
  mkinode (i_dev i) (i_inum i) (i_ref i) (i_locked i) (i_valid i) (i_type i) (i_major i) (i_minor i)
    (i_nlink i) z (i_addrs i).
Definition with_addrs (a : list Z) (i : inode) : inode :=
  mkinode (i_dev i) (i_inum i) (i_ref i) (i_locked i) (i_valid i) (i_type i) (i_major i) (i_minor i)
    (i_nlink i) (i_size i) a.

Definition inode_at (ip : nat) : M fsys inode := gets (fun s => icache s !!! ip).
Definition upd_inode (ip : nat) (f : inode -> inode) : M fsys unit := modify (set_icache (alter f ip)).
Definition set_addr (ip : nat) (k v : Z) : M fsys unit :=
  upd_inode ip (fun i => with_addrs (<[Z.to_nat k := v]> (i_addrs i)) i).

(** [iupdate] *)
Definition iupdate (ip : nat) : M fsys unit :=
  s ← get;
  i ← inode_at ip;
  let b := IBLOCK (i_inum i) (sb s) in
  d ← bread b;
  set_data b (splice d (dinode_off (i_inum i)) (dinode_bytes i)) ;;
  log_write b ;;
  brelse b.

(** the search of [iget]: the cached entry, or the first free one *)
Fixpoint iget_scan (l : list inode) (k : nat) (dev inum : Z) (empty : option nat) : nat + option nat :=
  match l with
  | [] => inr empty
  | i :: l' =>
      if (0 <? i_ref i) && (i_dev i =? dev) && (i_inum i =? inum) then inl k
      else
        let empty' := match empty with None => if i_ref i =? 0 then Some k else None | _ => empty end in
        iget_scan l' (S k) dev inum empty'
  end.

(** [iget] *)
Definition iget (dev inum : Z) : M fsys nat :=
  s ← get;
  match iget_scan (icache s) 0 dev inum None with
  | inl ip => upd_inode ip (fun i => with_ref (i_ref i + 1) i) ;; mret ip
  | inr None => panic "iget: no inodes"
  | inr (Some ip) =>
      upd_inode ip (fun i =>
        with_valid false (with_ref 1 (mkinode dev inum (i_ref i) (i_locked i) (i_valid i) (i_type i)
          (i_major i) (i_minor i) (i_nlink i) (i_size i) (i_addrs i)))) ;;
      mret ip
  end.

(** [idup] *)
Definition idup (ip : nat) : M fsys nat :=
  upd_inode ip (fun i => with_ref (i_ref i + 1) i) ;; mret ip.

Definition acquiresleep (ip : nat) : M fsys unit :=
  i ← inode_at ip;
  if i_locked i then block else upd_inode ip (with_locked true).
Definition releasesleep (ip : nat) : M fsys unit := upd_inode ip (with_locked false).

(** [ilock] *)
Definition ilock (ip : nat) : M fsys unit :=
  i ← inode_at ip;
  if i_ref i <? 1 then panic "ilock"
  else
    acquiresleep ip ;;
    if i_valid i then mret tt
    else
      s ← get;
      let b := IBLOCK (i_inum i) (sb s) in
      d ← bread b;
      upd_inode ip (read_dinode d (dinode_off (i_inum i))) ;;
      brelse b ;;
      upd_inode ip (with_valid true) ;;
      i' ← inode_at ip;
      if i_type i' =? 0 then panic "ilock: no type" else mret tt.

(** [iunlock] *)
Definition iunlock (ip : nat) : M fsys unit :=
  i ← inode_at ip;
  if negb (i_locked i) || (i_ref i <? 1) then panic "iunlock" else releasesleep ip.

(** what a kernel provides: discarding the contents of an inode *)
Class Truncate : Type := { itrunc : nat -> M fsys unit }.

Section Put.
Context `{Truncate}.

(** [iput] *)
Definition iput (ip : nat) : M fsys unit :=
  acquiresleep ip ;;
  i ← inode_at ip;
  (if i_valid i && (i_nlink i =? 0) then
     if i_ref i =? 1 then
       itrunc ip ;;
       upd_inode ip (with_type 0) ;;
       iupdate ip ;;
       upd_inode ip (with_valid false)
     else mret tt
   else mret tt) ;;
  releasesleep ip ;;
  upd_inode ip (fun i => with_ref (i_ref i - 1) i).

(** [iunlockput] *)
Definition iunlockput (ip : nat) : M fsys unit := iunlock ip ;; iput ip.
End Put.

(** [ialloc]; [k] counts the inode numbers left to look at *)
Fixpoint ialloc_loop (k : nat) (dev type inum : Z) : M fsys nat :=
  match k with
  | O => panic "ialloc: no inodes"
  | S k' =>
      s ← get;
      let b := IBLOCK inum (sb s) in
      d ← bread b;
      if i16 (le_val (slice d (dinode_off inum) 2)) =? 0 then
        let zeroed := splice d (dinode_off inum) (replicate (Z.to_nat DINODE_SIZE) 0) in
        set_data b (splice zeroed (dinode_off inum) (le_bytes 2 type)) ;;
        log_write b ;;
        brelse b ;;
        iget dev inum
      else brelse b ;; ialloc_loop k' dev type (inum + 1)
  end.

Definition ialloc (dev type : Z) : M fsys nat :=
  s ← get; ialloc_loop (Z.to_nat (sb_ninodes (sb s) - 1)) dev type 1.

Record stat : Type := mkstat { st_type : Z; st_dev : Z; st_ino : Z; st_nlink : Z; st_size : Z }.

(** [stati] *)
Definition stati (ip : nat) : M fsys stat :=
  i ← inode_at ip; mret (mkstat (i_type i) (i_dev i) (i_inum i) (i_nlink i) (i_size i)).

(** ** The on-disk format *)

(** field values that fit their C types *)
Definition short_ok (v : Z) : Prop := - 2 ^ 15 <= v < 2 ^ 15.
#[export] Instance short_ok_dec v : Decision (short_ok v) := _.
Definition uint_ok (v : Z) : Prop := 0 <= v < 2 ^ 32.
#[export] Instance uint_ok_dec v : Decision (uint_ok v) := _.
Record fields_ok (i : inode) : Prop := {
  fo_type : short_ok (i_type i);
  fo_major : short_ok (i_major i);
  fo_minor : short_ok (i_minor i);
  fo_nlink : short_ok (i_nlink i);
  fo_size : uint_ok (i_size i);
  fo_naddrs : length (i_addrs i) = Z.to_nat NADDRS;
  fo_addrs : Forall uint_ok (i_addrs i)
}.

Lemma length_dinode i : length (i_addrs i) = Z.to_nat NADDRS -> length (dinode_bytes i) = Z.to_nat DINODE_SIZE.
Proof.
  intros H. unfold dinode_bytes. rewrite !length_app, !length_le_bytes, length_words, H. done.
Qed.

Lemma dinode_off_bound n : 0 <= dinode_off n /\ dinode_off n + DINODE_SIZE <= BSIZE.
Proof. unfold dinode_off. change IPB with 8. change DINODE_SIZE with 64. change BSIZE with 512.
  pose proof (Z.mod_pos_bound n 8). lia. Qed.

(** the inode as [ilock] would reload it into entry [j] *)
Definition reloaded (i j : inode) : inode :=
  mkinode (i_dev j) (i_inum j) (i_ref j) (i_locked j) (i_valid j) (i_type i) (i_major i) (i_minor i)
    (i_nlink i) (i_size i) (i_addrs i).

Lemma read_dinode_bytes d off i j :
  fields_ok i -> 0 <= off -> off + DINODE_SIZE <= Z.of_nat (length d) ->
  read_dinode (splice d off (dinode_bytes i)) off j = reloaded i j.
Proof.
  intros [H1 H2 H3 H4 H5 H6 H7] Ho Hl. pose proof (length_dinode i H6) as HL.
  assert (DINODE_SIZE = 64) as ED by done.
  assert (forall a n, 0 <= a -> 0 <= n -> a + n <= 64 ->
    slice (splice d off (dinode_bytes i)) (off + a) n = slice (dinode_bytes i) a n) as Hs.
  { intros a n Ha Hn Hb. apply slice_splice_in; rewrite ?HL, ?ED; lia. }
  unfold read_dinode, reloaded. f_equal.
  - pose proof (Hs 0 2) as H0. rewrite Z.add_0_r in H0. rewrite H0 by lia. by apply i16_le.
  - rewrite Hs by lia. by apply i16_le.
  - rewrite Hs by lia. by apply i16_le.
  - rewrite Hs by lia. by apply i16_le.
  - rewrite Hs by lia. by apply le_val32.
  - pose proof (seqZ_lookup_map (i_addrs i)) as Ha. rewrite H6 in Ha.
    change (Z.of_nat (Z.to_nat NADDRS)) with NADDRS in Ha. rewrite <- Ha.
    apply list_fmap_ext. intros n k Hk. apply lookup_seqZ in Hk as [-> Hk]. change NADDRS with 13 in *.
    cbv beta. rewrite <- Z.add_assoc, Hs by lia.
    assert (slice (dinode_bytes i) (12 + 4 * (0 + Z.of_nat n)) 4
            = slice (i_addrs i ≫= le_bytes 4) (4 * (0 + Z.of_nat n)) 4) as ->.
    { unfold slice. rewrite Z2Nat.inj_add by lia. rewrite <- drop_drop. done. }
    rewrite slice_words by lia. apply le_val32.
    rewrite Forall_forall in H7. apply H7. apply list_elem_of_lookup_total_2. lia.
Qed.

(** writing one dinode leaves the others of its block alone *)
Lemma dinode_slots_disjoint a b :
  0 <= a -> 0 <= b -> a <> b -> a / IPB = b / IPB ->
  dinode_off a + DINODE_SIZE <= dinode_off b \/ dinode_off b + DINODE_SIZE <= dinode_off a.
Proof.
  unfold dinode_off. change IPB with 8. change DINODE_SIZE with 64. intros. Z.div_mod_to_equations. lia.
Qed.

Lemma read_dinode_other d off x off' j :
  0 <= off -> 0 <= off' -> off + Z.of_nat (length x) <= Z.of_nat (length d) ->
  off' + DINODE_SIZE <= off \/ off + Z.of_nat (length x) <= off' ->
  read_dinode (splice d off x) off' j = read_dinode d off' j.
Proof.
  change DINODE_SIZE with 64. intros H1 H2 H3 H4. unfold read_dinode. f_equal; try (rewrite slice_splice_other by lia; done).
  apply list_fmap_ext. intros n k Hk. apply lookup_seqZ in Hk as [-> Hk]. change NADDRS with 13 in *.
  rewrite slice_splice_other by lia. done.
Qed.

(** [disk_inode s n j]: what [ilock] loads for inode number [n] *)
Definition disk_inode (s : fsys) (n : Z) (j : inode) : inode :=
  read_dinode (block_of s (IBLOCK n (sb s))) (dinode_off n) j.

Lemma iupdate_ok ip s (Q : unit -> fsys -> Prop) :
  log_room s 1 ->
  (forall s', let i := icache s !!! ip in let b := IBLOCK (i_inum i) (sb s) in
     logged b (splice (block_of s b) (dinode_off (i_inum i)) (dinode_bytes i)) s s' -> Q tt s') ->
  returns (iupdate ip) s Q.
Proof.
  intros Hr HQ. unfold iupdate, inode_at, bread. do 3 step. by apply set_data_log_ok_end.
Qed.

(** the inode written back reads as the cached one, and every other inode of
    the block as before *)
Lemma iupdate_synced ip s (Q : unit -> fsys -> Prop) :
  log_room s 1 -> (forall b, length (block_of s b) = Z.to_nat BSIZE) ->
  fields_ok (icache s !!! ip) -> 0 <= i_inum (icache s !!! ip) ->
  (forall s' d, logged (IBLOCK (i_inum (icache s !!! ip)) (sb s)) d s s' -> length d = Z.to_nat BSIZE ->
     (forall j, disk_inode s' (i_inum (icache s !!! ip)) j = reloaded (icache s !!! ip) j) ->
     (forall n j, 0 <= n -> n <> i_inum (icache s !!! ip) -> disk_inode s' n j = disk_inode s n j) -> Q tt s') ->
  returns (iupdate ip) s Q.
Proof.
  intros Hr Hlen Hf Hn HQ. apply iupdate_ok; [done|]. intros s' i b Hlog. pose proof Hlog as [F C B L].
  pose proof (dinode_off_bound (i_inum i)) as [Ho1 Ho2].
  pose proof (length_dinode i (fo_naddrs i Hf)) as HL.
  assert (DINODE_SIZE = 64) as ED by done. assert (BSIZE = 512) as EB by done.
  eapply HQ; [exact Hlog | rewrite length_splice; rewrite ?Hlen, ?HL; lia | |].
  - intros j. unfold disk_inode. rewrite (f_sb _ _ _ F), (block_of_insert _ _ _ _ _ B), decide_True by done.
    apply read_dinode_bytes; rewrite ?Hlen; try done; lia.
  - intros n j Hn0 Hne. unfold disk_inode. rewrite (f_sb _ _ _ F), (block_of_insert _ _ _ _ _ B).
    case_decide as E; [|done]. rewrite <- E.
    pose proof (dinode_off_bound n) as [Ho3 Ho4].
    apply read_dinode_other; rewrite ?Hlen, ?HL; try lia.
    destruct (dinode_slots_disjoint n (i_inum i)); try done; try lia.
    unfold b, IBLOCK in E. change IPB with 8 in *. lia.
Qed.

(** [iupdate] followed by a reload gives back every field of the inode
    that lives on disk, and no other inode changes on disk. *)
Theorem iupdate_reload ip s :
  log_room s 1 -> (forall b, length (block_of s b) = Z.to_nat BSIZE) ->
  fields_ok (icache s !!! ip) -> 0 <= i_inum (icache s !!! ip) ->
  returns (iupdate ip) s (fun _ s' =>
    icache s' = icache s /\
    (forall j, disk_inode s' (i_inum (icache s !!! ip)) j = reloaded (icache s !!! ip) j) /\
    (forall n j, 0 <= n -> n <> i_inum (icache s !!! ip) -> disk_inode s' n j = disk_inode s n j)).
Proof.
  intros Hr Hlen Hf Hn. apply iupdate_synced; try done. intros s' d [F _ _ _] _ H1 H2.
  split_and!; [apply F | done | done].
Qed.

Definition demo_inode : inode :=
  mkinode 1 9 1 true true T_FILE 0 (-3) 1 1000 (seqZ 70000 13).

#[export] Instance fields_ok_dec i : Decision (fields_ok i).
Proof.
  refine (cast_if (decide ((short_ok (i_type i) /\ short_ok (i_major i) /\ short_ok (i_minor i) /\
    short_ok (i_nlink i)) /\ uint_ok (i_size i) /\
    length (i_addrs i) = Z.to_nat NADDRS /\ Forall uint_ok (i_addrs i)))).
  - abstract (destruct_and!; by split).
  - abstract (intros []; tauto).
Defined.

Lemma demo_fields : bool_decide (fields_ok demo_inode).
Proof. vm_compute. exact I. Qed.

Lemma iupdate_reload_witness :
  returns (iupdate 0) (demo_fs [demo_inode]) (fun _ s' =>
    forall j, disk_inode s' 9 j = reloaded demo_inode j).
Proof.
  eapply returns_mono.
  - apply (iupdate_reload 0 (demo_fs [demo_inode])).
    + by apply demo_room.
    + apply (g_len _ (demo_geom _)).
    + apply (bool_decide_unpack _ demo_fields).
    + vm_compute. congruence.
  - intros a s' (_ & H & _). exact H.
Defined.

(** ** The inode cache *)

(** no inode number has two live entries *)
Definition cache_ok (l : list inode) : Prop :=
  (forall a x, l !! a = Some x -> 0 <= i_ref x) /\
  forall a b x y, l !! a = Some x -> l !! b = Some y -> 0 < i_ref x -> 0 < i_ref y ->
    i_dev x = i_dev y -> i_inum x = i_inum y -> a = b.

Definition caches (dev inum : Z) (i : inode) : Prop := 0 < i_ref i /\ i_dev i = dev /\ i_inum i = inum.

Lemma iget_scan_inl l k dev inum e ip :
  iget_scan l k dev inum e = inl ip ->
  exists n i, ip = (k + n)%nat /\ l !! n = Some i /\ caches dev inum i.
Proof.
  revert k e. induction l as [|i l IH]; intros k e; cbn [iget_scan]; [done|].
  destruct (_ && _) eqn:E.
  - intros [= <-]. rewrite !andb_true_iff, Z.ltb_lt, !Z.eqb_eq in E.
    exists 0%nat, i. split_and!; [lia | done | unfold caches; tauto].
  - intros H. apply IH in H as (n & j & -> & ? & ?). exists (S n), j. split_and!; [lia | done..].
Qed.

Lemma iget_scan_inr l k dev inum e r :
  iget_scan l k dev inum e = inr r ->
  (forall n i, l !! n = Some i -> ~ caches dev inum i) /\
  match e with
  | Some _ => r = e
  | None => match r with
            | Some ip => exists n i, ip = (k + n)%nat /\ l !! n = Some i /\ i_ref i = 0
            | None => forall n i, l !! n = Some i -> i_ref i <> 0
            end
  end.
Proof.
  revert k e. induction l as [|i l IH]; intros k e; cbn [iget_scan].
  { intros [= <-]. split; [done|]. by destruct e. }
  destruct (_ && _) eqn:E; [done|]. intros H. apply IH in H as [Hno He].
  assert (~ caches dev inum i) as Hi.
  { intros (? & ? & ?). rewrite !andb_false_iff, Z.ltb_ge, !Z.eqb_neq in E. naive_solver lia. }
  split; [by intros [|n] j; [intros [= <-]|apply Hno]|].
  destruct e as [e|]; [done|]. destruct (Z.eqb_spec (i_ref i) 0) as [E0|E0].
  - subst r. exists 0%nat, i. split_and!; [lia | done | done].
  - destruct r as [ip|].
    + destruct He as (n & j & -> & ? & ?). exists (S n), j. split_and!; [lia | done..].
    + intros [|n] j; [intros [= <-]; done | apply He].
Qed.

Lemma cache_ok_alter l ip f x :
  cache_ok l -> l !! ip = Some x -> 0 <= i_ref (f x) ->
  (forall b y, b <> ip -> l !! b = Some y -> 0 < i_ref (f x) -> ~ caches (i_dev (f x)) (i_inum (f x)) y) ->
  cache_ok (alter f ip l).
Proof.
  intros [Hp Hu] Hx Hr Hn. split.
  - intros a z. rewrite list_lookup_alter. case_decide; [subst a; rewrite Hx; simpl; naive_solver | apply Hp].
  - intros a b y z. rewrite !list_lookup_alter.
    repeat case_decide; subst; rewrite ?Hx; cbn [fmap option_fmap option_map]; unfold caches in Hn;
      [done | naive_solver | naive_solver | apply Hu].
Qed.

Lemma iget_ok dev inum s :
  cache_ok (icache s) ->
  match iget dev inum s with
  | Ok (ip, s') =>
      cache_ok (icache s') /\ blk s' = blk s /\ lh s' = lh s /\
      exists i i', icache s !! ip = Some i /\ icache s' = <[ip := i']> (icache s) /\
        caches dev inum i' /\ i_ref i' = i_ref i + 1 /\
        (caches dev inum i -> i' = with_ref (i_ref i + 1) i) /\
        (~ caches dev inum i -> i_ref i = 0 /\ i_valid i' = false)
  | Panic msg => msg = "iget: no inodes"%string /\ (forall n i, icache s !! n = Some i -> 0 < i_ref i /\ ~ caches dev inum i)
  | Block => False
  end.
Proof.
  intros Hok. unfold iget, mbind, M_bind, get. destruct (iget_scan _ _ _ _ _) as [ip|[ip|]] eqn:E; cbv beta iota.
  - apply iget_scan_inl in E as (n & i & -> & Hi & Hc). simpl. unfold caches in Hc.
    split_and!; [|done|done|].
    + eapply cache_ok_alter; [done | done | simpl; lia|]. intros b y Hb Hy _ (Hr & Hd & Hn). simpl in *.
      apply Hb. eapply (proj2 Hok); eauto; try lia; congruence.
    + exists i, (with_ref (i_ref i + 1) i). unfold caches. rewrite (list_alter_insert _ _ _ _ Hi). simpl.
      split_and!; try done; try lia; naive_solver.
  - apply iget_scan_inr in E as [Hno (n & i & -> & Hi & Hr)]. simpl.
    split_and!; [|done|done|].
    + eapply cache_ok_alter; [done | done | simpl; lia|]. intros b y Hb Hy _. simpl. by eapply Hno.
    + eexists i, _. rewrite (list_alter_insert _ _ _ _ Hi). split_and!; [done | done | unfold caches; simpl; lia | simpl; lia | |].
      * intros [? _]. lia.
      * intros _. done.
  - apply iget_scan_inr in E as [Hno Hf]. split; [done|]. intros n i Hi. split; [|by eapply Hno].
    pose proof (proj1 Hok _ _ Hi). specialize (Hf _ _ Hi). lia.
Qed.

(** [iget] keeps at most one live cache entry per inode number, returns
    the entry of the requested inode with one more reference, changes no other
    entry, and panics only when the inode is not cached and no entry is
    free. *)
Theorem iget_correct dev inum s :
  cache_ok (icache s) ->
  match iget dev inum s with
  | Ok (ip, s') =>
      cache_ok (icache s') /\ blk s' = blk s /\ lh s' = lh s /\
      exists i i', icache s !! ip = Some i /\ icache s' = <[ip := i']> (icache s) /\
        caches dev inum i' /\ i_ref i' = i_ref i + 1 /\
        (caches dev inum i -> i' = with_ref (i_ref i + 1) i) /\
        (~ caches dev inum i -> i_ref i = 0 /\ i_valid i' = false)
  | Panic msg => msg = "iget: no inodes"%string /\ (forall n i, icache s !! n = Some i -> 0 < i_ref i /\ ~ caches dev inum i)
  | Block => False
  end.
Proof. apply iget_ok. Qed.

Lemma iget_correct_witness :
  match iget 1 9 (demo_fs [demo_inode; with_ref 0 demo_inode]) with
  | Ok (ip, s') => ip = 0%nat /\ cache_ok (icache s')
  | _ => False
  end.
Proof.
  assert (cache_ok [demo_inode; with_ref 0 demo_inode]) as Hok.
  { split.
    - intros [|[|a]] x; [intros [= <-]; done.. | done].
    - intros [|[|a]] [|[|b]] x y; try done; intros [= <-] [= <-]; simpl; lia. }
  pose proof (iget_correct 1 9 (demo_fs [demo_inode; with_ref 0 demo_inode]) Hok) as H.
  change (iget 1 9 _) with (Ok (0%nat, set_icache (alter (fun i => with_ref (i_ref i + 1) i) 0%nat)
    (demo_fs [demo_inode; with_ref 0 demo_inode]))) in *.
  split; [done | apply H].
Defined.

(** ** Discarding an inode, against any kernel's [itrunc] *)

(** the block holding inode [n] is not part of the bitmap *)
Definition iblock_ok (s : fsys) (n : Z) : Prop :=
  forall c, 0 <= c < sb_size (sb s) -> IBLOCK n (sb s) <> BBLOCK c (sb s).

(** [itrunc ip] gave back exactly the blocks [l] and left an empty inode, in
    memory and on disk *)
Record truncated (L : gset Z) (l : list Z) (ip : nat) (s s' : fsys) : Prop := {
  tr_sb : sb s' = sb s;
  tr_geom : geom s';
  tr_room : room_for L s';
  tr_used : forall c, 0 <= c < sb_size (sb s) -> used s' c = negb (bool_decide (c ∈ l)) && used s c;
  tr_icache : icache s' =
    alter (fun i => with_size 0 (with_addrs (replicate (Z.to_nat NADDRS) 0) i)) ip (icache s);
  tr_disk : forall j, disk_inode s' (i_inum (icache s !!! ip)) j = reloaded (icache s' !!! ip) j
}.

(** The contract of [itrunc]: [owns i s l] says that [l] are the blocks of the
    file [i] in state [s]. *)
Class TruncateSpec `{Truncate} (owns : inode -> fsys -> list Z -> Prop) : Prop := {
  itrunc_spec : forall (L : gset Z) (l : list Z) (ip : nat) (s : fsys),
    geom s -> room_for L s -> fields_ok (icache s !!! ip) -> (ip < length (icache s))%nat ->
    owns (icache s !!! ip) s l -> owned s l -> (forall b, b ∈ l -> BBLOCK b (sb s) ∈ L) ->
    IBLOCK (i_inum (icache s !!! ip)) (sb s) ∈ L ->
    iblock_ok s (i_inum (icache s !!! ip)) -> 0 <= i_inum (icache s !!! ip) ->
    returns (itrunc ip) s (fun _ s' => truncated L l ip s s')
}.

(** [iupdate] inside a larger update *)
Record updated (L : gset Z) (ip : nat) (s s' : fsys) : Prop := {
  up_sb : sb s' = sb s;
  up_icache : icache s' = icache s;
  up_geom : geom s';
  up_room : room_for L s';
  up_used : forall c, 0 <= c < sb_size (sb s) -> used s' c = used s c;
  up_blk : forall c, c <> IBLOCK (i_inum (icache s !!! ip)) (sb s) -> block_of s' c = block_of s c;
  up_disk : forall j, disk_inode s' (i_inum (icache s !!! ip)) j = reloaded (icache s !!! ip) j
}.

Lemma iupdate_updated L ip s (Q : unit -> fsys -> Prop) :
  geom s -> room_for L s -> fields_ok (icache s !!! ip) -> 0 <= i_inum (icache s !!! ip) ->
  IBLOCK (i_inum (icache s !!! ip)) (sb s) ∈ L -> iblock_ok s (i_inum (icache s !!! ip)) ->
  (forall s', updated L ip s s' -> Q tt s') -> returns (iupdate ip) s Q.
Proof.
  intros Hg Hr Hf Hn HL Hib HQ. apply iupdate_synced; try done; [by eapply room_for_room | apply (g_len s Hg) |].
  intros s' d Hlog Hd Hsync _. apply HQ. pose proof Hlog as [F C B Lh]. pose proof (f_sb _ _ _ F) as S.
  destruct (logged_data_geom _ d s s' Hg Hib Hd Hlog) as [Hg' Hu].
  split; try done; try apply F.
  - eapply room_for_absorb; [done | exact HL | done | done | apply F].
  - intros c Hc. by rewrite (block_of_insert _ _ _ _ _ B), decide_False.
Qed.

Lemma upd_inode_at f ip (l : list inode) : (ip < length l)%nat ->
  alter f ip l !!! ip = f (l !!! ip).
Proof.
  intros H. apply list_lookup_lookup_total_lt in H as E.
  apply list_lookup_total_correct. by rewrite list_lookup_alter_eq, E.
Qed.

Lemma geom_set_icache f s : geom s -> geom (set_icache f s).
Proof. intros []. by split. Qed.

Lemma fields_ok_emptied i :
  fields_ok i -> fields_ok (with_type 0 (with_size 0 (with_addrs (replicate (Z.to_nat NADDRS) 0) i))).
Proof.
  intros []. assert (uint_ok 0) by (unfold uint_ok; lia).
  split; try done. by apply Forall_replicate.
Qed.

Section PutProofs.
Context `{TruncateSpec owns}.

(** C29: dropping the last reference to an inode with no links frees its
    data blocks and its on-disk slot (type 0), and empties the cache entry;
    this holds of every kernel's [itrunc] that meets its contract. *)
Theorem iput_last L l ip s :
  geom s -> room_for L s -> (ip < length (icache s))%nat ->
  let i := icache s !!! ip in
  fields_ok i -> i_locked i = false -> i_valid i = true -> i_nlink i = 0 -> i_ref i = 1 ->
  owns (with_locked true i) (set_icache (alter (with_locked true) ip) s) l -> owned s l ->
  (forall b, b ∈ l -> BBLOCK b (sb s) ∈ L) -> IBLOCK (i_inum i) (sb s) ∈ L ->
  iblock_ok s (i_inum i) -> 0 <= i_inum i ->
  returns (iput ip) s (fun _ s' =>
    (forall c, 0 <= c < sb_size (sb s) -> used s' c = negb (bool_decide (c ∈ l)) && used s c) /\
    (forall j, i_type (disk_inode s' (i_inum i) j) = 0) /\
    i_ref (icache s' !!! ip) = 0 /\ i_valid (icache s' !!! ip) = false /\
    i_locked (icache s' !!! ip) = false).
Proof.
  intros Hg Hr Hip i Hf Hl Hv Hn Href Hown Hod HL HIL Hib Hi0.
  unfold iput, acquiresleep, inode_at, upd_inode.
  apply returns_bind. step. fold i. rewrite Hl. step. step.
  set (s1 := set_icache (alter (with_locked true) ip) s).
  assert (icache s1 !!! ip = with_locked true i) as E1 by (by apply upd_inode_at).
  rewrite E1. cbn [with_locked i_valid i_nlink i_ref]. rewrite Hv, Hn, Href.
  cbn [Z.eqb andb Pos.eqb]. apply returns_bind.
  assert (fields_ok (icache s1 !!! ip)) as Hf1 by (rewrite E1; by destruct Hf).
  eapply returns_mono.
  { apply (itrunc_spec L l ip s1); try done; rewrite ?E1; try done.
    - by apply geom_set_icache.
    - simpl. by rewrite length_alter. }
  intros [] s2 T. step.
  assert (ip < length (icache s2))%nat as Hip2.
  { rewrite (tr_icache _ _ _ _ _ T). simpl. by rewrite !length_alter. }
  set (s3 := set_icache (alter (with_type 0) ip) s2).
  assert (icache s3 !!! ip = with_type 0 (with_size 0
    (with_addrs (replicate (Z.to_nat NADDRS) 0) (with_locked true i)))) as E3.
  { unfold s3. cbn [set_icache icache]. rewrite upd_inode_at by done. f_equal.
    rewrite (tr_icache _ _ _ _ _ T), upd_inode_at by (simpl; by rewrite length_alter). by rewrite E1. }
  apply returns_bind. pose proof (tr_sb _ _ _ _ _ T) as S2. simpl in S2.
  apply (iupdate_updated L ip s3); rewrite ?E3; cbn [with_type with_size with_addrs with_locked i_inum];
    try done; [apply geom_set_icache, (tr_geom _ _ _ _ _ T) | apply (tr_room _ _ _ _ _ T) | | | |].
  { apply fields_ok_emptied. by rewrite <- E1. }
  { simpl. by rewrite S2. }
  { unfold iblock_ok. simpl. by rewrite S2. }
  intros s4 U. do 2 step.
  assert (ip < length (icache s4))%nat as Hip4.
  { rewrite (up_icache _ _ _ _ U). simpl. by rewrite length_alter. }
  cbn [set_icache icache]. rewrite !upd_inode_at by (simpl; rewrite ?length_alter; done).
  split_and!.
  - intros c Hc. pose proof (up_used _ _ _ _ U c) as U1. pose proof (tr_used _ _ _ _ _ T c) as T1.
    simpl in U1, T1. rewrite S2 in U1.
    change (used s4 c = negb (bool_decide (c ∈ l)) && used s c). rewrite U1 by done. exact (T1 Hc).
  - intros j. pose proof (up_disk _ _ _ _ U j) as D. rewrite E3 in D.
    change (i_type (disk_inode s4 (i_inum i) j) = 0).
    cbn [with_type with_size with_addrs with_locked i_inum] in D. by rewrite D.
  - simpl. rewrite (up_icache _ _ _ _ U), E3. simpl. lia.
  - done.
  - done.
Qed.
End PutProofs.
