(* ===== verification/Index.v ===== *)
(** * Block maps and truncation shared by the two kernels

    The steps that [bmap] of both kernels is made of (an address of the inode,
    or an entry of an index block, allocated on first use), what they change,
    and the reasoning about giving blocks back that both kernels' [itrunc]
    share. *)

From S2P Require Import Prelude Blocks Inode.

(** [addrs[k]], allocated on first use *)
Definition addr_or_balloc (ip : nat) (k : Z) : M fsys Z :=
  i ← inode_at ip;
  let addr := i_addrs i !!! Z.to_nat k in
  if addr =? 0 then a ← balloc; set_addr ip k a ;; mret a else mret addr.

(** [a[k]] of the index block [b], allocated on first use *)
Definition entry_or_balloc (b k : Z) : M fsys Z :=
  d ← bread b;
  let addr := word d k in
  if addr =? 0 then a ← balloc; store_word b k a ;; log_write b ;; brelse b ;; mret a
  else brelse b ;; mret addr.

(** ** Block maps *)

(** [s'] differs from [s] in block contents, the inode cache, the console and
    the transaction's block list, which grew by at most [n] *)
Record grown (n : Z) (s s' : fsys) : Prop := {
  gr_sb : sb s' = sb s;
  gr_out : outstanding s' = outstanding s;
  gr_lh : Z.of_nat (length (lh s')) <= Z.of_nat (length (lh s)) + n
}.

Lemma frame_grown n s s' : frame n s s' -> grown n s s'.
Proof. intros []. by split. Qed.
Lemma grown_trans n m s1 s2 s3 : grown n s1 s2 -> grown m s2 s3 -> grown (n + m) s1 s3.
Proof. intros [???] [???]. split; try congruence. lia. Qed.
Lemma grown_room n m s s' : grown n s s' -> log_room s (n + m) -> log_room s' m.
Proof. intros [Hs Ho Hl] [Hr H1]. split; [rewrite Hs; lia | lia]. Qed.
Lemma grown_weaken n m s s' : grown n s s' -> n <= m -> grown m s s'.
Proof. intros [???] ?. split; try done. lia. Qed.

(** blocks in use that hold no bitmap keep their contents *)
Definition data_kept (s s' : fsys) : Prop := forall c, data_block s c -> block_of s' c = block_of s c.

Lemma alloc_data_kept s a s' : alloc_post s a s' -> data_kept s s'.
Proof.
  intros (Ha & Hu & _ & _ & _ & _ & _ & K & _) c (_ & Huc & Hb). apply K; [|by apply Hb; lia].
  intros ->. congruence.
Qed.

Lemma absorb_in b l : b ∈ l -> absorb b l = l.
Proof. intros. unfold absorb. by rewrite bool_decide_eq_true_2. Qed.
Lemma elem_of_absorb b c l : c ∈ absorb b l <-> c = b \/ c ∈ l.
Proof. unfold absorb. case_bool_decide; set_solver. Qed.

Lemma console_geom s c : geom s -> geom (mkfs (sb s) (blk s) (lh s) (outstanding s) (icache s) c).
Proof. intros []. by split. Qed.

Lemma cprintf_ok msg s (Q : unit -> fsys -> Prop) :
  Q tt (mkfs (sb s) (blk s) (lh s) (outstanding s) (icache s) (console s ++ [msg])) ->
  returns (cprintf msg) s Q.
Proof. done. Qed.

(** giving a freshly allocated block back *)
Lemma alloc_undo s a s1 (Q : unit -> fsys -> Prop) :
  geom s -> log_room s 3 -> alloc_post s a s1 ->
  (forall s', geom s' -> grown 2 s s' -> icache s' = icache s -> data_kept s s' ->
     (forall c, 0 <= c < sb_size (sb s) -> used s' c = used s c) -> Q tt s') ->
  returns (bfree a) s1 Q.
Proof.
  intros Hg Hr Hal HQ. pose proof Hal as (Ha & Hua & _ & F1 & L1 & _ & Hu1 & _ & Hg1).
  pose proof (f_sb _ _ _ F1) as S1.
  apply bfree_ok; [done | by eapply (frame_room 2 1) | rewrite S1; lia | |].
  { rewrite Hu1 by lia. by rewrite Z.eqb_refl. }
  intros s2 P2. pose proof P2 as (F2 & L2 & _ & Hu2 & K2). rewrite S1 in Hu2, K2, L2. apply HQ.
  - apply (free_geom s1 a s2 Hg1 P2); rewrite S1; [lia|].
    intros c Hc ->. by rewrite (g_bmap s Hg) in Hua.
  - rewrite L1 in L2. rewrite absorb_in in L2 by (rewrite !elem_of_absorb; tauto).
    destruct F1 as [_ _ O1 G1], F2 as [S2 _ O2 _]. split; [congruence|lia|]. by rewrite L2, <- L1.
  - by rewrite (f_icache _ _ _ F2), (f_icache _ _ _ F1).
  - intros c Hc. pose proof Hc as (_ & _ & Hb). rewrite K2 by (by apply Hb; lia).
    by apply (alloc_data_kept _ _ _ Hal).
  - intros c Hc. rewrite Hu2, Hu1 by done. destruct (Z.eqb_spec a c) as [->|]; simpl; congruence.
Qed.

Lemma data_block_mono s s' c :
  sb s' = sb s -> (forall c, 0 <= c < sb_size (sb s) -> used s c = true -> used s' c = true) ->
  data_block s c -> data_block s' c.
Proof.
  intros E U (H1 & H2 & H3). unfold data_block. rewrite E. split_and!; try done; try lia.
  apply U; [lia | done].
Qed.

Lemma owned_mono s s' l :
  sb s' = sb s -> (forall c, 0 <= c < sb_size (sb s) -> used s c = true -> used s' c = true) ->
  owned s l -> owned s' l.
Proof.
  intros E U [H1 H2]. split; [done|]. eapply Forall_impl; [exact H2|].
  intros c Hc. by eapply data_block_mono.
Qed.

(** [n] free blocks are left *)
Definition avail (s : fsys) (n : nat) : Prop :=
  exists l, length l = n /\ NoDup l /\ Forall (fun b => 0 <= b < sb_size (sb s) /\ used s b = false) l.

Lemma avail_le s n m : avail s n -> (m <= n)%nat -> avail s m.
Proof.
  intros (l & <- & Hn & Hf) Hm. exists (take m l). split_and!.
  - rewrite length_take. lia.
  - rewrite <- (take_drop m l) in Hn. by apply NoDup_app in Hn as (? & _ & _).
  - by apply Forall_take.
Qed.

Lemma avail_keep s s' n :
  sb s' = sb s -> (forall c, 0 <= c < sb_size (sb s) -> used s' c = used s c) -> avail s n -> avail s' n.
Proof.
  intros E U (l & Hl & Hn & Hf). exists l. split_and!; try done. eapply Forall_impl; [exact Hf|].
  intros b [Hb Hu]. rewrite E. split; [done|]. by rewrite U.
Qed.

Lemma avail_alloc s a s' n : alloc_post s a s' -> avail s (S n) -> avail s' n.
Proof.
  intros (Ha & _ & _ & F & _ & _ & U & _) (l & Hl & Hn & Hf).
  assert (exists l', length l' = n /\ NoDup l' /\ a ∉ l' /\ forall b, b ∈ l' -> b ∈ l) as (l' & L' & N' & A' & I').
  { destruct (decide (a ∈ l)) as [Hin|Hin].
    - apply list_elem_of_split in Hin as (l1 & l2 & ->). exists (l1 ++ l2). rewrite length_app in *. simpl in Hl.
      apply NoDup_app in Hn as (N1 & D & N2). apply NoDup_cons in N2 as [Na N2].
      split_and!; [lia | | set_solver | set_solver]. apply NoDup_app. split_and!; try done. set_solver.
    - destruct l as [|x l]; [done|]. exists l. apply NoDup_cons in Hn as [_ Hn].
      split_and!; [simpl in Hl; lia | done | set_solver | set_solver]. }
  exists l'. split_and!; try done. rewrite Forall_forall in *. intros b Hb.
  destruct (Hf b (I' b Hb)) as [Hr Hu]. rewrite (f_sb _ _ _ F). split; [done|]. rewrite U, Hu by done.
  destruct (Z.eqb_spec a b) as [->|]; [done | done].
Qed.

Lemma balloc_ok s n (Q : Z -> fsys -> Prop) :
  geom s -> log_room s 2 -> avail s (S n) ->
  (forall a s', alloc_post s a s' -> avail s' n -> Q a s') -> returns balloc s Q.
Proof.
  intros Hg Hr Hav HQ. apply ballocx_ok; try done.
  - intros a s' Ha. apply HQ; [done|]. by eapply avail_alloc.
  - intros Hfull. destruct Hav as ([|b l] & Hl & _ & Hf); [done|].
    apply Forall_cons in Hf as [[Hb Hu] _]. rewrite Hfull in Hu by done. done.
Qed.

(** the part of the state that a block map may change: the blocks [chg] and
    blocks not in use; [g] bounds the growth of the transaction *)
Record mapped (chg : Z -> Prop) (g : Z) (s s' : fsys) : Prop := {
  m_sb : sb s' = sb s;
  m_out : outstanding s' = outstanding s;
  m_geom : geom s';
  m_lh : Z.of_nat (length (lh s')) <= Z.of_nat (length (lh s)) + g;
  m_in : forall b, b ∈ lh s -> b ∈ lh s';
  m_used : forall c, 0 <= c < sb_size (sb s) -> used s c = true -> used s' c = true;
  m_blk : forall b, data_block s b -> ~ chg b -> block_of s' b = block_of s b
}.

Lemma mapped_refl chg g s : geom s -> 0 <= g -> mapped chg g s s.
Proof. intros. split; try done. lia. Qed.

Lemma mapped_data_block chg g s s' b : mapped chg g s s' -> data_block s b -> data_block s' b.
Proof. intros [E _ _ _ _ U _]. by apply data_block_mono. Qed.

Lemma mapped_trans c1 c2 g1 g2 s1 s2 s3 (chg : Z -> Prop) :
  mapped c1 g1 s1 s2 -> mapped c2 g2 s2 s3 ->
  (forall b, data_block s1 b -> c1 b \/ c2 b -> chg b) -> mapped chg (g1 + g2) s1 s3.
Proof.
  intros M1 M2 Hc. pose proof M1 as [E1 O1 G1 L1 I1 U1 B1]. pose proof M2 as [E2 O2 G2 L2 I2 U2 B2].
  rewrite E1 in U2. split; try done; try congruence; try lia.
  - auto.
  - intros c Hr Hu. auto.
  - intros b Hb Hn. rewrite B2, B1; try done.
    + intros H1. apply Hn, Hc; [done | by left].
    + by eapply mapped_data_block.
    + intros H2. apply Hn, Hc; [done | by right].
Qed.

Lemma mapped_room chg g m s s' : mapped chg g s s' -> log_room s (g + m) -> log_room s' m.
Proof. intros [E O _ L _ _ _] [H1 H2]. split; [rewrite E; lia | by rewrite O]. Qed.

(** 1 when logging [a] takes a new slot *)
Definition slot_cost (s : fsys) (a : Z) : Z := if bool_decide (a ∈ lh s) then 0 else 1.

Lemma slot_cost_range s a : 0 <= slot_cost s a <= 1.
Proof. unfold slot_cost. case_bool_decide; lia. Qed.

Lemma slot_cost_in s a : a ∈ lh s -> slot_cost s a = 0.
Proof. intros. unfold slot_cost. by rewrite bool_decide_eq_true_2. Qed.

Lemma length_absorb_cost s a : Z.of_nat (length (absorb a (lh s))) = Z.of_nat (length (lh s)) + slot_cost s a.
Proof. unfold absorb, slot_cost. case_bool_decide; [lia|]. rewrite length_app. simpl. lia. Qed.

Lemma alloc_mapped s a s' : alloc_post s a s' -> mapped (fun _ => False) 2 s s'.
Proof.
  intros Hal. pose proof (alloc_data_kept _ _ _ Hal) as Hk. destruct Hal as (Ha & Hu & _ & F & L & Z & U & K & G).
  destruct F as [F1 F2 F3 F4]. split; try done.
  - intros b Hb. rewrite L, !elem_of_absorb. tauto.
  - intros c Hc Hcu. rewrite U, Hcu by done. apply orb_true_r.
  - intros b Hb _. by apply Hk.
Qed.

Lemma alloc_data_block s a s' : geom s -> alloc_post s a s' -> data_block s' a.
Proof.
  intros Hg (Ha & Hu & _ & F & _ & _ & U & _). unfold data_block. rewrite (f_sb _ _ _ F). split_and!; try lia.
  - by rewrite U, Z.eqb_refl by lia.
  - intros c Hc ->. by rewrite (g_bmap s Hg) in Hu.
Qed.

(** ** Truncation *)

Definition keep_icache (s s' : fsys) : fsys := set_icache (fun _ => icache s) s'.

Lemma keep_icache_self s : keep_icache s s = s.
Proof. by destruct s. Qed.

(** [freed], for a computation that also rewrites the cache entry [ip] *)
Definition freed_upd (L : gset Z) (l : list Z) (f : list Z) (ip : nat) (s s' : fsys) : Prop :=
  freed L l s (keep_icache s s') /\ icache s' = alter (with_addrs f) ip (icache s).

Lemma freed_icache c L l s s' :
  freed L l s s' -> freed L l (set_icache (fun _ => c) s) (set_icache (fun _ => c) s').
Proof.
  intros [E1 E2 G R U B]. split; simpl; try done. by apply geom_set_icache.
Qed.

Lemma alter_addrs_twice a b ip (l : list inode) :
  alter (with_addrs a) ip (alter (with_addrs b) ip l) = alter (with_addrs a) ip l.
Proof.
  apply list_eq. intros j. rewrite !list_lookup_alter. repeat case_decide; try done.
  by destruct (l !! ip) as [x|].
Qed.

Lemma alter_addrs_same ip (l : list inode) a :
  i_addrs (l !!! ip) = a -> alter (with_addrs a) ip l = l.
Proof.
  intros <-. apply list_eq. intros j. rewrite list_lookup_alter. case_decide as E; [|done]. subst.
  destruct (l !! j) as [x|] eqn:Ex; [|done]. simpl. rewrite (list_lookup_total_correct _ _ _ Ex).
  by destruct x.
Qed.

Lemma freed_upd_seq L l1 l2 f1 f2 ip s s1 s2 :
  freed_upd L l1 f1 ip s s1 -> freed_upd L l2 f2 ip s1 s2 -> freed_upd L (l1 ++ l2) f2 ip s s2.
Proof.
  intros [F1 E1] [F2 E2]. split.
  - eapply freed_app; [exact F1|]. apply (freed_icache (icache s)) in F2. exact F2.
  - by rewrite E2, E1, alter_addrs_twice.
Qed.

Lemma freed_upd_of L l f ip s s1 s2 :
  freed L l s s1 -> s2 = set_icache (alter (with_addrs f) ip) s1 -> freed_upd L l f ip s s2.
Proof.
  intros F ->. split.
  - unfold keep_icache. simpl. pose proof (freed_icache (icache s) _ _ _ _ F) as H.
    replace (set_icache (fun _ => icache s) s) with s in H by (by destruct s). exact H.
  - simpl. by rewrite (fr_icache _ _ _ _ F).
Qed.

Lemma freed_upd_nil L f ip s :
  geom s -> room_for L s -> i_addrs (icache s !!! ip) = f -> freed_upd L [] f ip s s.
Proof. intros. split; [rewrite keep_icache_self; by apply freed_nil | by rewrite alter_addrs_same]. Qed.

Lemma freed_upd_geom L l f ip s s' : freed_upd L l f ip s s' -> geom s' /\ room_for L s'.
Proof.
  intros [[? ? G R ? ?] _]. split; [|done].
  apply (geom_set_icache (fun _ => icache s')) in G. by destruct s'.
Qed.

Lemma freed_upd_at L l f ip s s' :
  freed_upd L l f ip s s' -> (ip < length (icache s))%nat ->
  icache s' !!! ip = with_addrs f (icache s !!! ip) /\ (ip < length (icache s'))%nat.
Proof. intros [_ ->] Hip. rewrite length_alter. split; [by apply upd_inode_at | done]. Qed.

Lemma freed_upd_sb L l f ip s s' : freed_upd L l f ip s s' -> sb s' = sb s.
Proof. intros [F _]. apply F. Qed.

Lemma freed_upd_owned L l f ip s s' m :
  freed_upd L l f ip s s' -> owned s m -> (forall b, b ∈ l -> b ∉ m) -> owned s' m.
Proof. intros [F _] Ho Hd. pose proof (freed_owned _ _ _ _ _ F Ho Hd) as H. exact H. Qed.

(** the hypotheses under which a list of blocks can be given back *)
Record freeable (L : gset Z) (l : list Z) (s : fsys) : Prop := {
  fa_geom : geom s;
  fa_room : room_for L s;
  fa_owned : owned s l;
  fa_in : forall b, b ∈ l -> BBLOCK b (sb s) ∈ L
}.

Lemma freeable_rest L l1 l2 f ip s s' :
  freeable L (l1 ++ l2) s -> freed_upd L l1 f ip s s' -> freeable L l2 s'.
Proof.
  intros [G R O I] F. pose proof (freed_upd_geom _ _ _ _ _ _ F) as [G' R'].
  apply owned_app in O as (O1 & O2 & Hd). split; try done.
  - by eapply freed_upd_owned.
  - intros b Hb. rewrite (freed_upd_sb _ _ _ _ _ _ F). apply I. set_solver.
Qed.

Lemma freeable_app_l L l1 l2 s : freeable L (l1 ++ l2) s -> freeable L l1 s.
Proof. intros [G R O I]. apply owned_app in O as (O1 & O2 & Hd). split; try done. set_solver. Qed.

(** one entry of the address array given back and cleared *)
Lemma clear_entry_ok L l ip z x rest s (m : M fsys unit) (Q : unit -> fsys -> Prop) :
  i_addrs (icache s !!! ip) = replicate z 0 ++ x :: rest -> (ip < length (icache s))%nat ->
  (forall Q' : unit -> fsys -> Prop, (forall s', freed L l s s' -> Q' tt s') -> returns m s Q') ->
  (forall s', freed_upd L l (replicate (S z) 0 ++ rest) ip s s' -> Q tt s') ->
  returns (m ;; set_addr ip (Z.of_nat z) 0) s Q.
Proof.
  intros Ha Hip Hm HQ. apply returns_bind, Hm. intros s1 F. unfold set_addr, upd_inode. step. apply HQ.
  eapply freed_upd_of; [exact F|]. unfold set_icache. f_equal.
  rewrite (fr_icache _ _ _ _ F). apply list_lookup_lookup_total_lt in Hip.
  rewrite !(list_alter_insert _ _ _ _ Hip). do 2 f_equal. rewrite Ha, Nat2Z.id.
  rewrite insert_app_r_alt by (rewrite length_replicate; lia).
  rewrite length_replicate, Nat.sub_diag, replicate_S_end. simpl. by rewrite <- (assoc_L (++)).
Qed.

(** the blocks behind one address *)
Definition addr_blocks (addr : Z) : list Z := if addr =? 0 then [] else [addr].

Section ClearLoop.
Context (body : Z -> M fsys unit) (blocks : Z -> list Z) (loop : nat -> nat -> Z -> M fsys unit) (L : gset Z).
Context (P : fsys -> Prop).
Hypothesis P_step : forall s s' l f ip, owned s l -> P s -> freed_upd L l f ip s s' -> P s'.
Hypothesis loop_O : forall ip i, loop O ip i = mret tt.
Hypothesis loop_S : forall k ip i, loop (S k) ip i =
  (ino ← inode_at ip;
   let a := i_addrs ino !!! Z.to_nat i in
   (if a =? 0 then mret tt else (body a ;; set_addr ip i 0)) ;; loop k ip (i + 1)).
Hypothesis blocks_0 : blocks 0 = [].
Hypothesis body_ok : forall a s (Q : unit -> fsys -> Prop),
  a <> 0 -> P s -> freeable L (blocks a) s -> (forall s', freed L (blocks a) s s' -> Q tt s') -> returns (body a) s Q.

Lemma clear_loop_ok ip xs rest z s (Q : unit -> fsys -> Prop) :
  (ip < length (icache s))%nat -> i_addrs (icache s !!! ip) = replicate z 0 ++ xs ++ rest ->
  P s -> freeable L (xs ≫= blocks) s ->
  (forall s', freed_upd L (xs ≫= blocks) (replicate (z + length xs) 0 ++ rest) ip s s' -> Q tt s') ->
  returns (loop (length xs) ip (Z.of_nat z)) s Q.
Proof using Type*.
  revert z s Q. induction xs as [|x xs IH]; intros z s Q Hip Ha HP Hf HQ; cbn [length].
  - rewrite loop_O. step. apply HQ. rewrite Nat.add_0_r. apply freed_upd_nil; try apply Hf. done.
  - rewrite loop_S. unfold inode_at at 1. step.
    assert (i_addrs (icache s !!! ip) !!! Z.to_nat (Z.of_nat z) = x) as ->.
    { rewrite Ha, Nat2Z.id. apply list_lookup_total_correct.
      rewrite lookup_app_r by (rewrite length_replicate; lia). by rewrite length_replicate, Nat.sub_diag. }
    rewrite bind_cons in Hf, HQ. apply returns_bind.
    assert (forall s1, freed_upd L (blocks x) (replicate (S z) 0 ++ xs ++ rest) ip s s1 ->
      returns (loop (length xs) ip (Z.of_nat z + 1)) s1 Q) as Hnext.
    { intros s1 F1. replace (Z.of_nat z + 1) with (Z.of_nat (S z)) by lia.
      destruct (freed_upd_at _ _ _ _ _ _ F1 Hip) as [E1 Hip1].
      apply IH; [done | by rewrite E1 | | by eapply freeable_rest |].
      { eapply P_step; [|exact HP | exact F1]. apply freeable_app_l in Hf. apply Hf. }
      intros s2 F2. apply HQ. replace (z + length (x :: xs))%nat with (S z + length xs)%nat by (simpl; lia).
      by eapply freed_upd_seq. }
    destruct (Z.eqb_spec x 0) as [->|Hx].
    + step. apply Hnext. rewrite blocks_0. apply freed_upd_nil; try apply Hf.
      rewrite Ha, replicate_S_end. by rewrite <- (assoc_L (++)).
    + eapply clear_entry_ok; [exact Ha | done | | exact Hnext].
      intros Q' HQ'. apply body_ok; [done | done | by eapply freeable_app_l | done].
Qed.
End ClearLoop.

(** the blocks an index block points to *)
Definition index_blocks (d : list Z) (j k : Z) : list Z := seqZ j k ≫= fun i => addr_blocks (word d i).

Lemma freed_keeps L l s s' b : freed L l s s' -> owned s l -> data_block s b -> block_of s' b = block_of s b.
Proof.
  intros F [_ O] (_ & _ & Hb). rewrite Forall_forall in O. apply (fr_blk _ _ _ _ F).
  intros c Hc. destruct (O c Hc) as (H & _ & _). apply Hb. lia.
Qed.

Lemma freed_keep L l s s' : freed L l s s' -> keep_icache s s' = s'.
Proof. intros [_ E _ _ _ _]. unfold keep_icache. rewrite <- E. by destruct s'. Qed.

(** the common end of [itrunc]: size 0, and the empty inode written back *)
Lemma trunc_finish L l ip s s1 :
  (ip < length (icache s))%nat -> fields_ok (icache s !!! ip) ->
  IBLOCK (i_inum (icache s !!! ip)) (sb s) ∈ L ->
  iblock_ok s (i_inum (icache s !!! ip)) -> 0 <= i_inum (icache s !!! ip) ->
  freed_upd L l (replicate (Z.to_nat NADDRS) 0) ip s s1 ->
  returns (upd_inode ip (with_size 0) ;; iupdate ip) s1 (fun _ s' => truncated L l ip s s').
Proof.
  intros Hip Hf HL Hib H0 F. unfold upd_inode. step.
  destruct (freed_upd_at _ _ _ _ _ _ F Hip) as [E1 Hip1].
  pose proof (freed_upd_sb _ _ _ _ _ _ F) as S1.
  destruct (freed_upd_geom _ _ _ _ _ _ F) as [G1 R1].
  set (s2 := set_icache (alter (with_size 0) ip) s1).
  assert (icache s2 !!! ip = with_size 0 (with_addrs (replicate (Z.to_nat NADDRS) 0) (icache s !!! ip))) as E2.
  { unfold s2. simpl. by rewrite upd_inode_at, E1. }
  apply (iupdate_updated L ip s2); rewrite ?E2; cbn [with_size with_addrs i_inum]; try done.
  - by apply geom_set_icache.
  - destruct Hf. split; try done. by apply Forall_replicate.
  - simpl. by rewrite S1.
  - unfold iblock_ok. simpl. by rewrite S1.
  - intros s3 U. split.
    + rewrite (up_sb _ _ _ _ U). apply S1.
    + apply U.
    + apply U.
    + intros c Hc. rewrite (up_used _ _ _ _ U) by (simpl; by rewrite S1).
      destruct F as [F _]. apply (fr_used _ _ _ _ F c Hc).
    + rewrite (up_icache _ _ _ _ U). simpl. destruct F as [_ ->].
      apply list_eq. intros j. rewrite !list_lookup_alter. repeat case_decide; try done.
      by destruct (icache s !! ip).
    + intros j. pose proof (up_disk _ _ _ _ U j) as D. rewrite E2 in D.
      rewrite (up_icache _ _ _ _ U), E2. exact D.
Qed.
