(* ===== verification/FileIo.v ===== *)
(** * What the copy loops of both kernels share

    The device switch, the arithmetic of copying a byte range block by block
    (chunk sizes, fuel, number of blocks), and the agreement of a cached inode
    with its copy on disk. *)

From S2P Require Import Prelude Blocks Inode Index.

Definition NDEV : Z := 10.

(** [devsw[major].read] and [.write]; [None] is a null pointer.  A read
    returns its result and the bytes it stored. *)
Class DevSw : Type := {
  dev_read : Z -> option (nat -> Z -> M fsys (Z * list Z));
  dev_write : Z -> option (nat -> list Z -> Z -> M fsys Z)
}.

Definition dev_guard {A} (major : Z) (f : option A) : option A :=
  if (major <? 0) || (NDEV <=? major) then None else f.

(** byte offsets as block and position *)
Lemma off_split off : 0 <= off ->
  Z.to_nat off = (Z.to_nat BSIZE * Z.to_nat (off / BSIZE) + Z.to_nat (off mod BSIZE))%nat.
Proof. change BSIZE with 512. intros. Z.div_mod_to_equations. lia. Qed.

Lemma off_mod off : 0 <= off mod BSIZE < BSIZE.
Proof. apply Z.mod_pos_bound. done. Qed.

Lemma slice_nil l off : slice l off 0 = [].
Proof. unfold slice. by rewrite take_0. Qed.

Lemma slice_add l off m n :
  0 <= off -> 0 <= m -> 0 <= n -> slice l off (m + n) = slice l off m ++ slice l (off + m) n.
Proof.
  intros. unfold slice. rewrite !Z2Nat.inj_add by lia. rewrite <- drop_drop.
  symmetry. apply take_take_drop.
Qed.

(** enough fuel for [rem] more bytes from [off] *)
Definition enough (fuel : nat) (off rem : Z) : Prop :=
  (0 < fuel)%nat /\ (0 < rem -> off mod BSIZE + rem + BSIZE <= Z.of_nat fuel * BSIZE).

(** one step of the copy loops: [m] bytes, up to the end of a block *)
Lemma chunk_step off rem fuel :
  0 <= off -> 0 < rem -> enough (S fuel) off rem ->
  let m := Z.min rem (BSIZE - off mod BSIZE) in
  0 < m <= rem /\ off mod BSIZE + m <= BSIZE /\ enough fuel (off + m) (rem - m).
Proof.
  intros Ho Hr [_ Hf] m. specialize (Hf Hr). unfold enough. change BSIZE with 512 in *. unfold m. clear m.
  pose proof (Z.mod_pos_bound off 512 ltac:(lia)).
  destruct (Z.min_spec rem (512 - off mod 512)) as [[? ->]|[? ->]].
  - split; [lia|]. split; [lia|]. split; lia.
  - split; [lia|]. split; [lia|]. split; [lia|]. intros _.
    assert ((off + (512 - off mod 512)) mod 512 = 0) as ->; [|lia].
    Z.div_mod_to_equations. lia.
Qed.

Lemma fuel_enough off n : 0 <= n -> enough (Z.to_nat (n / BSIZE + 3)) off n.
Proof.
  intros Hn. pose proof (off_mod off). split; change BSIZE with 512 in *; Z.div_mod_to_equations; lia.
Qed.

(** blocks touched by a transfer of [rem] bytes at [off] *)
Definition nblocks (off rem : Z) : Z := if rem <=? 0 then 0 else (off mod BSIZE + rem + BSIZE - 1) / BSIZE.

Lemma nblocks_step off rem :
  0 <= off -> 0 < rem -> let m := Z.min rem (BSIZE - off mod BSIZE) in
  nblocks (off + m) (rem - m) = nblocks off rem - 1 /\ 1 <= nblocks off rem.
Proof.
  intros Ho Hr m. unfold nblocks, m. clear m. change BSIZE with 512.
  pose proof (Z.mod_pos_bound off 512 ltac:(lia)).
  destruct (Z.leb_spec rem 0); [lia|].
  destruct (Z.min_spec rem (512 - off mod 512)) as [[? ->]|[? ->]].
  - rewrite Z.sub_diag. rewrite <- (Z.div_unique_pos (off mod 512 + rem + 512 - 1) 512 1 (off mod 512 + rem - 1)) by lia.
    done.
  - destruct (Z.leb_spec (rem - (512 - off mod 512)) 0).
    + rewrite <- (Z.div_unique_pos (off mod 512 + rem + 512 - 1) 512 1 511) by lia. done.
    + assert ((off + (512 - off mod 512)) mod 512 = 0) as -> by (Z.div_mod_to_equations; lia).
      split; [|Z.div_mod_to_equations; lia].
      replace (off mod 512 + rem + 512 - 1) with ((0 + (rem - (512 - off mod 512)) + 512 - 1) + 1 * 512) by lia.
      rewrite Z.div_add by lia. lia.
Qed.

Lemma nblocks_mono off n m : 0 <= off -> n <= m -> nblocks off n <= nblocks off m.
Proof.
  intros. unfold nblocks. pose proof (off_mod off). change BSIZE with 512 in *.
  destruct (Z.leb_spec n 0), (Z.leb_spec m 0); try lia.
  - apply Z.div_pos; lia.
  - apply Z.div_le_mono; lia.
Qed.

(** the on-disk inode is the cached one *)
Definition synced (s : fsys) (ip : nat) : Prop :=
  forall j, disk_inode s (i_inum (icache s !!! ip)) j = reloaded (icache s !!! ip) j.

(** the device switch with only the null entries *)
Definition no_devs : DevSw := {| dev_read := fun _ => None; dev_write := fun _ => None |}.
