(* ===== verification/CsFs.v ===== *)
(** * Continuous-sector files: [fs.c] of the xv6-continuous-sector-fs kernel

    A CS inode stores its blocks as runs: each of the 12 direct entries packs a
    24-bit start block and an 8-bit run length.  The block map [csbmap]/[bmap],
    [itrunc], [readi] and [writei] of that kernel, and the refinement of the
    run table to a plain list of blocks. *)

From S2P Require Import Prelude Blocks Inode Index.

Definition NDIRECT : Z := 12.
Definition NINDIRECT : Z := BSIZE / 4.
Definition MAXFILE : Z := NDIRECT + NINDIRECT.
Definition CS_LENGTH_BITS : Z := 8.
Definition CS_LENGTH_MASK : Z := 255.
Definition CS_MAX_LENGTH : Z := 255.
Definition MAXCSBLOCKS : Z := NDIRECT * CS_MAX_LENGTH.
Definition T_CS : Z := 4.

(** outcome of the scan over the direct entries *)
Inductive cs_scan : Type :=
| CsHit (a : Z)              (** the block holding [bn] *)
| CsBad                      (** an entry with length 0 *)
| CsEnd (total last : Z).    (** blocks mapped, index of the last run *)

Fixpoint csbmap_scan (entries : list Z) (bn i total last : Z) : cs_scan :=
  match entries with
  | [] => CsEnd total last
  | entry :: rest =>
      if entry =? 0 then CsEnd total last
      else
        let start := Z.shiftr entry CS_LENGTH_BITS in
        let length := Z.land entry CS_LENGTH_MASK in
        if length =? 0 then CsBad
        else if bn <? total + length then CsHit (start + (bn - total))
        else csbmap_scan rest bn (i + 1) (total + length) i
  end.

(** [csbmap] *)
Definition csbmap (ip : nat) (bn : Z) : M fsys Z :=
  i ← inode_at ip;
  match csbmap_scan (take (Z.to_nat NDIRECT) (i_addrs i)) bn 0 0 (-1) with
  | CsHit a => mret a
  | CsBad => cprintf "csfs: invalid zero-length CS" ;; mret 0
  | CsEnd total last =>
      if negb (bn =? total) then cprintf "csfs: non-sequential block allocation" ;; mret 0
      else if MAXCSBLOCKS <=? bn then cprintf "csfs: direct block range exceeded" ;; mret 0
      else
        addr ← ballocx true;
        if addr =? 0 then mret 0
        else if 0xFFFFFF <? addr then
          bfree addr ;; cprintf "csfs: disk block number exceeds 24 bits" ;; mret 0
        else
          let entry := i_addrs i !!! Z.to_nat last in
          let start := Z.shiftr entry CS_LENGTH_BITS in
          let length := Z.land entry CS_LENGTH_MASK in
          if (0 <=? last) && ((length <? CS_MAX_LENGTH) && (addr =? start + length)) then
            set_addr ip last (Z.lor (Z.shiftl start CS_LENGTH_BITS) (length + 1)) ;; mret addr
          else if NDIRECT <=? last + 1 then
            bfree addr ;; cprintf "csfs: no free direct block entries" ;; mret 0
          else
            set_addr ip (last + 1) (Z.lor (Z.shiftl addr CS_LENGTH_BITS) 1) ;; mret addr
  end.

(** [bmap] *)
Definition bmap (ip : nat) (bn : Z) : M fsys Z :=
  i ← inode_at ip;
  if i_type i =? T_CS then csbmap ip bn
  else if bn <? NDIRECT then addr_or_balloc ip bn
  else
    let bn := bn - NDIRECT in
    if bn <? NINDIRECT then
      addr ← addr_or_balloc ip NDIRECT;
      entry_or_balloc addr bn
    else panic "bmap: out of range".

(** the run-freeing loop of [itrunc] *)
Fixpoint bfree_run (k : nat) (b : Z) : M fsys unit :=
  match k with
  | O => mret tt
  | S k' => bfree b ;; bfree_run k' (b + 1)
  end.

Fixpoint itrunc_cs_loop (k : nat) (ip : nat) (i : Z) : M fsys unit :=
  match k with
  | O => mret tt
  | S k' =>
      ino ← inode_at ip;
      let entry := i_addrs ino !!! Z.to_nat i in
      (if entry =? 0 then mret tt
       else
         bfree_run (Z.to_nat (Z.land entry CS_LENGTH_MASK)) (Z.shiftr entry CS_LENGTH_BITS) ;;
         set_addr ip i 0) ;;
      itrunc_cs_loop k' ip (i + 1)
  end.

Fixpoint itrunc_direct_loop (k : nat) (ip : nat) (i : Z) : M fsys unit :=
  match k with
  | O => mret tt
  | S k' =>
      ino ← inode_at ip;
      let addr := i_addrs ino !!! Z.to_nat i in
      (if addr =? 0 then mret tt else bfree addr ;; set_addr ip i 0) ;;
      itrunc_direct_loop k' ip (i + 1)
  end.

(** the loop over the index block [b], read through its buffer *)
Fixpoint itrunc_entries (k : nat) (b j : Z) : M fsys unit :=
  match k with
  | O => mret tt
  | S k' =>
      d ← gets (fun s => block_of s b);
      (if word d j =? 0 then mret tt else bfree (word d j)) ;;
      itrunc_entries k' b (j + 1)
  end.

(** [itrunc] *)
Definition itrunc_cs (ip : nat) : M fsys unit :=
  i ← inode_at ip;
  if i_type i =? T_CS then
    itrunc_cs_loop (Z.to_nat NDIRECT) ip 0 ;;
    set_addr ip NDIRECT 0 ;;
    upd_inode ip (with_size 0) ;;
    iupdate ip
  else
    itrunc_direct_loop (Z.to_nat NDIRECT) ip 0 ;;
    i ← inode_at ip;
    let ind := i_addrs i !!! Z.to_nat NDIRECT in
    (if ind =? 0 then mret tt
     else
       _ ← bread ind;
       itrunc_entries (Z.to_nat NINDIRECT) ind 0 ;;
       brelse ind ;;
       bfree ind ;;
       set_addr ip NDIRECT 0) ;;
    upd_inode ip (with_size 0) ;;
    iupdate ip.

#[export] Instance cs_truncate : Truncate := {| itrunc := itrunc_cs |}.

(** ** The run table as a list of blocks *)

Definition cs_enc (e : Z * Z) : Z := Z.lor (Z.shiftl e.1 CS_LENGTH_BITS) e.2.
Definition run_ok (e : Z * Z) : Prop := 0 < e.1 < 2 ^ 24 /\ 1 <= e.2 <= CS_MAX_LENGTH.
Definition cs_blocks (exts : list (Z * Z)) : list Z := exts ≫= fun e => seqZ e.1 e.2.

(** the address array that stores the runs [exts] *)
Definition cs_table (exts : list (Z * Z)) : list Z :=
  (cs_enc <$> exts) ++ replicate (Z.to_nat NDIRECT - length exts) 0.

Record cs_file (i : inode) (exts : list (Z * Z)) : Prop := {
  cf_type : i_type i = T_CS;
  cf_len : Z.of_nat (length exts) <= NDIRECT;
  cf_runs : Forall run_ok exts;
  cf_addrs : i_addrs i = cs_table exts ++ [0]
}.

Lemma cs_enc_add e : run_ok e -> cs_enc e = 256 * e.1 + e.2.
Proof.
  unfold run_ok, cs_enc, CS_LENGTH_BITS, CS_MAX_LENGTH. intros [H1 H2].
  rewrite Z.shiftl_mul_pow2 by lia. change (2 ^ 8) with 256. rewrite (Z.mul_comm e.1 256).
  symmetry. rewrite (Z.add_comm), (Z.lor_comm). apply Z.bits_inj'. intros n Hn.
  rewrite Z.lor_spec. destruct (Z.lt_ge_cases n 8).
  - rewrite <- (Z.mod_pow2_bits_low (e.2 + 256 * e.1) 8) by lia.
    rewrite <- (Z.mod_pow2_bits_low (256 * e.1) 8) by lia.
    change (2 ^ 8) with 256. rewrite (Z.mul_comm 256), Z.mod_add, Z.mod_mul, Z.bits_0, orb_false_r by lia.
    by rewrite Z.mod_small by lia.
  - replace n with ((n - 8) + 8) by lia. rewrite <- !Z.div_pow2_bits by lia. change (2 ^ 8) with 256.
    rewrite (Z.mul_comm 256), Z.div_add, Z.div_mul by lia.
    rewrite (Z.div_small e.2), Z.add_0_l, Z.bits_0 by lia. done.
Qed.

(** the 24/8-bit packing loses nothing, and never looks like a free entry *)
Lemma cs_enc_decode e :
  run_ok e -> Z.shiftr (cs_enc e) CS_LENGTH_BITS = e.1 /\
              Z.land (cs_enc e) CS_LENGTH_MASK = e.2 /\ 0 < cs_enc e < 2 ^ 32.
Proof.
  intros H. rewrite cs_enc_add by done. destruct H as [H1 H2].
  unfold CS_LENGTH_BITS, CS_LENGTH_MASK, CS_MAX_LENGTH in *.
  change 255 with (Z.ones 8). rewrite Z.land_ones, Z.shiftr_div_pow2 by lia.
  change (2 ^ 8) with 256. rewrite Z.add_comm, (Z.mul_comm 256), Z.div_add, Z.mod_add by lia.
  rewrite Z.div_small, Z.mod_small by lia. lia.
Qed.

Lemma csbmap_scan_runs exts m bn i total last :
  Forall run_ok exts -> total <= bn ->
  csbmap_scan ((cs_enc <$> exts) ++ replicate m 0) bn i total last =
  match cs_blocks exts !! Z.to_nat (bn - total) with
  | Some a => CsHit a
  | None => CsEnd (total + Z.of_nat (length (cs_blocks exts)))
                  (if exts is [] then last else i + Z.of_nat (length exts) - 1)
  end.
Proof.
  revert i total last. induction exts as [|e exts IH]; intros i total last Hf Hb.
  - simpl. destruct m; simpl; f_equal; lia.
  - apply Forall_cons in Hf as [He Hf]. destruct (cs_enc_decode e He) as (E1 & E2 & E3).
    rewrite fmap_cons. cbn [app csbmap_scan]. rewrite E1, E2.
    destruct (Z.eqb_spec (cs_enc e) 0); [lia|].
    destruct He as [Hs Hl]. destruct (Z.eqb_spec e.2 0); [lia|].
    unfold cs_blocks. rewrite bind_cons. fold (cs_blocks exts).
    destruct (Z.ltb_spec bn (total + e.2)).
    + rewrite lookup_app_l by (rewrite length_seqZ; lia).
      rewrite lookup_seqZ_lt by lia. f_equal. lia.
    + rewrite IH by (done || lia). rewrite lookup_app_r by (rewrite length_seqZ; lia).
      rewrite length_app, length_seqZ.
      replace (Z.to_nat (bn - total) - Z.to_nat e.2)%nat with (Z.to_nat (bn - (total + e.2))) by lia.
      destruct (cs_blocks exts !! _); [done|]. f_equal; [lia|].
      destruct exts; simpl; lia.
Qed.

Lemma length_cs_table exts :
  Z.of_nat (length exts) <= NDIRECT -> length (cs_table exts) = Z.to_nat NDIRECT.
Proof.
  intros H. unfold cs_table. rewrite length_app, length_fmap, length_replicate.
  change NDIRECT with 12 in *. lia.
Qed.

Lemma cs_file_scan i exts bn :
  cs_file i exts -> 0 <= bn ->
  csbmap_scan (take (Z.to_nat NDIRECT) (i_addrs i)) bn 0 0 (-1) =
  match cs_blocks exts !! Z.to_nat bn with
  | Some a => CsHit a
  | None => CsEnd (Z.of_nat (length (cs_blocks exts))) (Z.of_nat (length exts) - 1)
  end.
Proof.
  intros [_ Hl Hf Ha] Hb. rewrite Ha.
  rewrite take_app_length' by (by rewrite length_cs_table). unfold cs_table.
  rewrite csbmap_scan_runs, Z.sub_0_r by done.
  destruct (cs_blocks exts !! _); [done|]. f_equal. destruct exts; simpl; lia.
Qed.

Lemma cs_blocks_snoc exts e : cs_blocks (exts ++ [e]) = cs_blocks exts ++ seqZ e.1 e.2.
Proof. unfold cs_blocks. by rewrite bind_app, bind_singleton. Qed.

Lemma length_cs_blocks exts :
  Forall run_ok exts -> Z.of_nat (length (cs_blocks exts)) <= CS_MAX_LENGTH * Z.of_nat (length exts).
Proof.
  unfold CS_MAX_LENGTH. induction 1 as [|e exts [_ He] _ IH]; [done|].
  unfold cs_blocks. rewrite bind_cons, length_app, length_seqZ. fold (cs_blocks exts).
  unfold CS_MAX_LENGTH in He. simpl length. lia.
Qed.

(** storing one more block: extending the last run, or opening a new one *)
Lemma cs_table_extend exts st len :
  Z.of_nat (length (exts ++ [(st, len)])) <= NDIRECT ->
  <[Z.to_nat (Z.of_nat (length exts)) := cs_enc (st, len + 1)]> (cs_table (exts ++ [(st, len)]) ++ [0])
    = cs_table (exts ++ [(st, len + 1)]) ++ [0].
Proof.
  intros _. unfold cs_table. rewrite !fmap_app, !length_app. simpl.
  rewrite <- !(assoc_L (++)). rewrite insert_app_r_alt by (rewrite length_fmap; lia).
  rewrite length_fmap, Nat2Z.id, Nat.sub_diag. done.
Qed.

Lemma cs_table_new exts e :
  Z.of_nat (length exts) < NDIRECT ->
  <[Z.to_nat (Z.of_nat (length exts)) := cs_enc e]> (cs_table exts ++ [0]) = cs_table (exts ++ [e]) ++ [0].
Proof.
  intros H. unfold cs_table. rewrite fmap_app, length_app. simpl.
  change NDIRECT with 12 in *.
  replace (Z.to_nat 12 - length exts)%nat with (S (Z.to_nat 12 - (length exts + 1))) by lia.
  rewrite <- !(assoc_L (++)). rewrite insert_app_r_alt by (rewrite length_fmap; lia).
  rewrite length_fmap, Nat2Z.id, Nat.sub_diag. done.
Qed.

(** ** The block map *)

(** [exts'] stores one block more than [exts]: the last run grew, or a run of
    length 1 was added *)
Definition appended (exts exts' : list (Z * Z)) (r : Z) : Prop :=
  (exists l st len, exts = l ++ [(st, len)] /\ exts' = l ++ [(st, len + 1)] /\ r = st + len) \/
  exts' = exts ++ [(r, 1)].

Lemma appended_blocks exts exts' r : Forall run_ok exts -> appended exts exts' r -> cs_blocks exts' = cs_blocks exts ++ [r].
Proof.
  intros Hf [(l & st & len & -> & -> & ->)| ->].
  - apply Forall_app in Hf as [_ Hf]. apply Forall_singleton in Hf as [_ Hl]. simpl in Hl.
    rewrite !cs_blocks_snoc. simpl. rewrite seqZ_app by lia. simpl. by rewrite <- (assoc_L (++)).
  - by rewrite cs_blocks_snoc.
Qed.

(** why an append is refused *)
Definition cs_refused (s : fsys) (exts : list (Z * Z)) (bn : Z) : Prop :=
  bn <> Z.of_nat (length (cs_blocks exts)) \/ Z.of_nat (length exts) = NDIRECT \/
  2 ^ 24 < sb_size (sb s) \/ (forall c, 0 <= c < sb_size (sb s) -> used s c = true).

Definition csbmap_post (ip : nat) (exts : list (Z * Z)) (bn : Z) (s : fsys) (r : Z) (s' : fsys) : Prop :=
  match cs_blocks exts !! Z.to_nat bn with
  | Some a => r = a /\ s' = s
  | None =>
      geom s' /\ grown 2 s s' /\
      ((r = 0 /\ cs_refused s exts bn /\ icache s' = icache s /\ data_kept s s' /\
        forall c, 0 <= c < sb_size (sb s) -> used s' c = used s c) \/
       (bn = Z.of_nat (length (cs_blocks exts)) /\ alloc_post s r (set_icache (fun _ => icache s) s') /\
        exists exts' a, appended exts exts' r /\ cs_file (icache s' !!! ip) exts' /\
          icache s' = alter (with_addrs a) ip (icache s)))
  end.

Lemma cs_table_last exts e :
  Z.of_nat (length (exts ++ [e])) <= NDIRECT ->
  (cs_table (exts ++ [e]) ++ [0]) !!! length exts = cs_enc e.
Proof.
  intros _. unfold cs_table. rewrite fmap_app, <- !(assoc_L (++)).
  apply list_lookup_total_correct. rewrite lookup_app_r by (rewrite length_fmap; lia).
  rewrite length_fmap, Nat.sub_diag. done.
Qed.

Lemma cs_blocks_last_full exts :
  Forall run_ok exts -> Z.of_nat (length exts) <= NDIRECT ->
  MAXCSBLOCKS <= Z.of_nat (length (cs_blocks exts)) -> Z.of_nat (length exts) = NDIRECT.
Proof.
  intros Hf Hl Hm. pose proof (length_cs_blocks exts Hf). unfold MAXCSBLOCKS, CS_MAX_LENGTH in *.
  change NDIRECT with 12 in *. lia.
Qed.

Lemma cs_file_with_addrs i exts exts' :
  cs_file i exts -> Z.of_nat (length exts') <= NDIRECT -> Forall run_ok exts' ->
  cs_file (with_addrs (cs_table exts' ++ [0]) i) exts'.
Proof. intros [H _ _ _] ??. by split. Qed.

(** recording the new block [a] in entry [k] *)
Lemma cs_record_ok ip exts exts' a k v bn s s1 (Q : Z -> fsys -> Prop) :
  (ip < length (icache s))%nat -> cs_file (icache s !!! ip) exts ->
  alloc_post s a s1 -> bn = Z.of_nat (length (cs_blocks exts)) ->
  <[Z.to_nat k := v]> (cs_table exts ++ [0]) = cs_table exts' ++ [0] ->
  Z.of_nat (length exts') <= NDIRECT -> Forall run_ok exts' -> appended exts exts' a ->
  (forall s', csbmap_post ip exts bn s a s' -> Q a s') ->
  returns (set_addr ip k v ;; mret a) s1 Q.
Proof.
  intros Hip Hcs Hal -> Hins Hlen Hf Happ HQ. unfold set_addr, upd_inode. step. step. apply HQ.
  destruct Hal as (Ha & Hua & Hmin & F & L & B & U & K & G).
  pose proof (f_icache _ _ _ F) as EI.
  assert (alter (fun i => with_addrs (<[Z.to_nat k := v]> (i_addrs i)) i) ip (icache s)
          = alter (with_addrs (cs_table exts' ++ [0])) ip (icache s)) as EA.
  { apply list_lookup_lookup_total_lt in Hip. rewrite !(list_alter_insert _ _ _ _ Hip).
    by rewrite (cf_addrs _ _ Hcs), Hins. }
  unfold csbmap_post. rewrite lookup_ge_None_2 by lia.
  split; [by apply geom_set_icache|]. split.
  { destruct F. split; simpl; try done. }
  right. split; [done|]. split.
  - destruct s1 as [a1 a2 a3 a4 a5 a6]. simpl in *. subst a5. split_and!; try done; try lia.
  - exists exts', (cs_table exts' ++ [0]). split_and!; [done| |].
    + simpl. rewrite EI, EA, upd_inode_at by done. by eapply cs_file_with_addrs.
    + simpl. by rewrite EI, EA.
Qed.

Lemma csbmap_ok ip exts bn s (Q : Z -> fsys -> Prop) :
  geom s -> log_room s 3 -> (ip < length (icache s))%nat ->
  cs_file (icache s !!! ip) exts -> 0 <= bn ->
  (forall r s', csbmap_post ip exts bn s r s' -> Q r s') ->
  returns (csbmap ip bn) s Q.
Proof.
  intros Hg Hr Hip Hcs Hbn HQ. unfold csbmap, inode_at. step.
  rewrite (cs_file_scan _ exts) by done.
  destruct (cs_blocks exts !! Z.to_nat bn) as [a|] eqn:Elk.
  { step. apply HQ. unfold csbmap_post. by rewrite Elk. }
  pose proof Hcs as [Hty Hlen Hruns Haddrs].
  assert (forall msg, cs_refused s exts bn ->
    returns (cprintf msg ;; mret 0) s Q) as Hrefuse.
  { intros msg Hw. apply returns_bind, cprintf_ok. step. apply HQ. unfold csbmap_post. rewrite Elk.
    split; [by apply console_geom|]. split; [by split; simpl; try lia|]. left. by split_and!. }
  destruct (Z.eqb_spec bn (Z.of_nat (length (cs_blocks exts)))) as [Ebn|Ebn]; simpl negb; cbv iota;
    [|apply Hrefuse; by left].
  destruct (Z.leb_spec MAXCSBLOCKS bn).
  { apply Hrefuse. right. left. apply cs_blocks_last_full; try done. lia. }
  apply returns_bind, ballocx_ok; [done | by eapply log_room_weaken | |].
  2:{ intros Hfull. unfold ballocx_none. apply returns_bind, cprintf_ok. step. simpl. step.
      apply HQ. unfold csbmap_post. rewrite Elk.
      split; [by apply console_geom|]. split; [by split; simpl; try lia|]. left. split_and!; try done.
      by do 3 right. }
  intros a s1 Hal. pose proof Hal as (Ha & Hua & _ & F1 & _).
  pose proof (f_icache _ _ _ F1) as EI.
  destruct (Z.eqb_spec a 0); [lia|].
  assert (forall msg, cs_refused s exts bn ->
    returns (bfree a ;; cprintf msg ;; mret 0) s1 Q) as Hundo.
  { intros msg Hw. apply returns_bind. eapply alloc_undo; [exact Hg | exact Hr | exact Hal |].
    intros s2 G2 Gr2 I2 D2 U2. apply returns_bind, cprintf_ok. step. apply HQ. unfold csbmap_post. rewrite Elk.
    split; [by apply console_geom|]. split; [by destruct Gr2|]. left. by split_and!. }
  destruct (Z.ltb_spec 0xFFFFFF a). { apply Hundo. right; right; left. lia. }
  assert (Forall run_ok [(a, 1)]) as Hra. { apply Forall_singleton. unfold run_ok, CS_MAX_LENGTH. simpl. lia. }
  rewrite Haddrs.
  destruct exts as [|e0 exts0 _] using rev_ind.
  { simpl (Z.of_nat _ - 1). simpl (0 <=? _). cbn [andb]. simpl (NDIRECT <=? _). cbv iota.
    eapply (cs_record_ok ip [] [(a, 1)] a); try done. by right. exact (HQ a). }
  rewrite length_app. replace (Z.of_nat (length exts0 + length [e0]) - 1) with (Z.of_nat (length exts0)) by (simpl; lia).
  rewrite Nat2Z.id, cs_table_last by done.
  pose proof Hruns as Hf2. rewrite Forall_app, Forall_singleton in Hf2. destruct Hf2 as [Hf0 He0].
  destruct (cs_enc_decode e0 He0) as (-> & -> & _).
  destruct (Z.leb_spec 0 (Z.of_nat (length exts0))); [|lia]. cbn [andb].
  destruct e0 as [st len]. cbn [fst snd].
  destruct (_ && _) eqn:Emerge.
  - rewrite andb_true_iff, Z.ltb_lt, Z.eqb_eq in Emerge. destruct Emerge as [Hl1 Ea].
    eapply (cs_record_ok ip (exts0 ++ [(st, len)]) (exts0 ++ [(st, len + 1)])); try done.
    + by apply cs_table_extend.
    + by rewrite length_app in *.
    + apply Forall_app. split; [done|]. apply Forall_singleton. destruct He0 as [??].
      unfold run_ok. simpl in *. lia.
    + left. exists exts0, st, len. by subst a.
    + exact (HQ a).
  - destruct (Z.leb_spec NDIRECT (Z.of_nat (length exts0) + 1)) as [Hfull|Hfull].
    { apply Hundo. right; left. rewrite length_app in *. simpl in *. lia. }
    eapply (cs_record_ok ip (exts0 ++ [(st, len)]) ((exts0 ++ [(st, len)]) ++ [(a, 1)])); try done.
    + rewrite <- (cs_table_new (exts0 ++ [(st, len)]) (a, 1)) by (rewrite length_app; simpl; lia).
      f_equal. rewrite length_app. simpl. lia.
    + rewrite !length_app. simpl. lia.
    + apply Forall_app. by split.
    + by right.
    + exact (HQ a).
Qed.

(** ** Truncation *)

Lemma bfree_run_ok L k b s (Q : unit -> fsys -> Prop) :
  freeable L (seqZ b (Z.of_nat k)) s ->
  (forall s', freed L (seqZ b (Z.of_nat k)) s s' -> Q tt s') -> returns (bfree_run k b) s Q.
Proof.
  revert b s Q. induction k as [|k IH]; intros b s Q [G R O I] HQ; cbn [bfree_run].
  - step. apply HQ. by apply freed_nil.
  - rewrite seqZ_cons in * by lia. replace (Z.pred (Z.of_nat (S k))) with (Z.of_nat k) in * by lia.
    replace (Z.succ b) with (b + 1) in * by lia.
    pose proof (owned_app _ [b] _ O) as (O1 & O2 & Hd). pose proof O1 as [_ Hb]. rewrite Forall_singleton in Hb.
    apply returns_bind, (bfree_freed L); try done; [apply I; set_solver|]. intros s1 F1.
    apply IH.
    + split; [apply F1 | apply F1 | by eapply freed_owned |].
      intros c Hc. rewrite (fr_sb _ _ _ _ F1). apply I. set_solver.
    + intros s2 F2. apply HQ. by apply (freed_app L [b] _ s s1 s2).
Qed.

(** the blocks behind one entry of a CS inode *)
Definition run_blocks (entry : Z) : list Z :=
  if entry =? 0 then [] else seqZ (Z.shiftr entry CS_LENGTH_BITS) (Z.land entry CS_LENGTH_MASK).

Lemma itrunc_cs_loop_ok L ip xs rest z s (Q : unit -> fsys -> Prop) :
  (ip < length (icache s))%nat -> i_addrs (icache s !!! ip) = replicate z 0 ++ xs ++ rest ->
  freeable L (xs ≫= run_blocks) s ->
  (forall s', freed_upd L (xs ≫= run_blocks) (replicate (z + length xs) 0 ++ rest) ip s s' -> Q tt s') ->
  returns (itrunc_cs_loop (length xs) ip (Z.of_nat z)) s Q.
Proof.
  intros Hip Ha. apply (clear_loop_ok
    (fun a => bfree_run (Z.to_nat (Z.land a CS_LENGTH_MASK)) (Z.shiftr a CS_LENGTH_BITS))
    run_blocks itrunc_cs_loop L (fun _ => True)); try done. clear.
  intros a s0 Q0 Ha _ Hf HQ0. unfold run_blocks in *. destruct (Z.eqb_spec a 0); [done|].
  assert (Z.of_nat (Z.to_nat (Z.land a CS_LENGTH_MASK)) = Z.land a CS_LENGTH_MASK) as E.
  { apply Z2Nat.id, Z.land_nonneg. by right. }
  apply (bfree_run_ok L); by rewrite E.
Qed.

Lemma itrunc_direct_loop_ok L ip xs rest z s (Q : unit -> fsys -> Prop) :
  (ip < length (icache s))%nat -> i_addrs (icache s !!! ip) = replicate z 0 ++ xs ++ rest ->
  freeable L (xs ≫= addr_blocks) s ->
  (forall s', freed_upd L (xs ≫= addr_blocks) (replicate (z + length xs) 0 ++ rest) ip s s' -> Q tt s') ->
  returns (itrunc_direct_loop (length xs) ip (Z.of_nat z)) s Q.
Proof.
  intros Hip Ha. apply (clear_loop_ok bfree addr_blocks itrunc_direct_loop L (fun _ => True)); try done. clear.
  intros a s0 Q0 Ha _ [G R [_ O] I] HQ0. unfold addr_blocks in *. destruct (Z.eqb_spec a 0); [done|].
  rewrite Forall_singleton in O. apply (bfree_freed L); try done. apply I. set_solver.
Qed.

Lemma itrunc_entries_ok L k b j s (Q : unit -> fsys -> Prop) :
  let l := index_blocks (block_of s b) j (Z.of_nat k) in
  freeable L (l ++ [b]) s ->
  (forall s', freed L l s s' -> Q tt s') -> returns (itrunc_entries k b j) s Q.
Proof.
  revert j s Q. induction k as [|k IH]; intros j s Q l [G R O I] HQ; cbn [itrunc_entries].
  - step. apply HQ. by apply freed_nil.
  - assert (l = addr_blocks (word (block_of s b) j) ++ index_blocks (block_of s b) (j + 1) (Z.of_nat k)) as El.
    { unfold l, index_blocks. rewrite seqZ_cons by lia. rewrite bind_cons. do 2 f_equal. f_equal; lia. }
    rewrite El, <- (assoc_L (++)) in *. apply owned_app in O as (O1 & O2 & Hd).
    assert (data_block s b) as Hb by (destruct O2 as [_ H]; apply Forall_app in H as [_ H]; by inversion H).
    step. apply returns_bind.
    assert (forall s1, freed L (addr_blocks (word (block_of s b) j)) s s1 ->
      returns (itrunc_entries k b (j + 1)) s1 Q) as Hnext.
    { intros s1 F1. pose proof (freed_keeps _ _ _ _ b F1 O1 Hb) as Eb. apply IH; rewrite ?Eb.
      - split; [apply F1 | apply F1 | by eapply freed_owned |].
        intros c Hc. rewrite (fr_sb _ _ _ _ F1). apply I. set_solver.
      - intros s2 F2. apply HQ. by eapply freed_app. }
    unfold addr_blocks in Hnext at 1. unfold addr_blocks in O1. destruct (Z.eqb_spec (word (block_of s b) j) 0) as [E0|E0].
    + step. apply Hnext. by apply freed_nil.
    + destruct O1 as [_ O1]. rewrite Forall_singleton in O1. apply (bfree_freed L); try done.
      apply I. unfold addr_blocks. destruct (Z.eqb_spec (word (block_of s b) j) 0); [done | set_solver].
Qed.

(** which blocks an inode of this kernel owns *)
Definition plain_blocks (i : inode) (s : fsys) : list Z :=
  let ind := i_addrs i !!! Z.to_nat NDIRECT in
  (take (Z.to_nat NDIRECT) (i_addrs i) ≫= addr_blocks) ++
  (if ind =? 0 then [] else index_blocks (block_of s ind) 0 NINDIRECT ++ [ind]).

Definition cs_owns (i : inode) (s : fsys) (l : list Z) : Prop :=
  (exists exts, cs_file i exts /\ l = cs_blocks exts) \/ (i_type i <> T_CS /\ l = plain_blocks i s).

Lemma cs_table_blocks exts : Forall run_ok exts -> cs_table exts ≫= run_blocks = cs_blocks exts.
Proof.
  intros Hf. unfold cs_table. rewrite bind_app.
  assert (forall n, replicate n 0 ≫= run_blocks = []) as -> by (induction n; [done | by rewrite replicate_S, bind_cons]).
  rewrite app_nil_r. induction Hf as [|e exts He _ IH]; [done|].
  rewrite fmap_cons, bind_cons, IH. unfold cs_blocks. rewrite bind_cons. f_equal.
  unfold run_blocks. destruct (cs_enc_decode e He) as (-> & -> & Hp).
  destruct (Z.eqb_spec (cs_enc e) 0); [lia | done].
Qed.

Lemma NADDRS_split (l : list Z) : length l = Z.to_nat NADDRS ->
  l = take (Z.to_nat NDIRECT) l ++ [l !!! Z.to_nat NDIRECT].
Proof.
  intros H. rewrite <- (take_drop (Z.to_nat NDIRECT) l) at 1. f_equal.
  change (Z.to_nat NADDRS) with 13%nat in H. change (Z.to_nat NDIRECT) with 12%nat.
  do 13 (destruct l as [|? l]; [done|]). by destruct l.
Qed.

(** clearing the last address, at the end of both branches *)
Lemma clear_last_ok L l ip s s1 (Q : unit -> fsys -> Prop) x :
  (ip < length (icache s))%nat -> freed_upd L l (replicate (Z.to_nat NDIRECT) 0 ++ [x]) ip s s1 ->
  (forall s2, freed_upd L l (replicate (Z.to_nat NADDRS) 0) ip s s2 -> Q tt s2) ->
  returns (set_addr ip NDIRECT 0) s1 Q.
Proof.
  intros Hip F HQ. destruct (freed_upd_at _ _ _ _ _ _ F Hip) as [E1 Hip1].
  destruct (freed_upd_geom _ _ _ _ _ _ F) as [G1 R1].
  unfold set_addr, upd_inode. step. apply HQ.
  rewrite <- (app_nil_r l). eapply freed_upd_seq; [exact F|].
  eapply freed_upd_of; [by apply freed_nil|]. unfold set_icache. f_equal.
  apply list_lookup_lookup_total_lt in Hip1. rewrite !(list_alter_insert _ _ _ _ Hip1). by rewrite E1.
Qed.

Lemma itrunc_cs_branch_ok L ip exts s :
  (ip < length (icache s))%nat -> fields_ok (icache s !!! ip) ->
  IBLOCK (i_inum (icache s !!! ip)) (sb s) ∈ L ->
  iblock_ok s (i_inum (icache s !!! ip)) -> 0 <= i_inum (icache s !!! ip) ->
  cs_file (icache s !!! ip) exts -> freeable L (cs_blocks exts) s ->
  returns (itrunc_cs ip) s (fun _ s' => truncated L (cs_blocks exts) ip s s').
Proof.
  intros Hip Hf HL Hib H0 Hcs Hfr. unfold itrunc_cs, inode_at at 1. step.
  pose proof Hcs as [Hty Hlen Hruns Ha]. rewrite Hty. cbn [Z.eqb T_CS Pos.eqb].
  rewrite <- (cs_table_blocks exts) in * by done.
  apply returns_bind. replace (Z.to_nat NDIRECT) with (length (cs_table exts)) by (by apply length_cs_table).
  apply (itrunc_cs_loop_ok L ip (cs_table exts) [0] 0); try done.
  intros s1 F1. apply returns_bind. rewrite length_cs_table in F1 by done.
  eapply clear_last_ok; [done | exact F1 |]. intros s2 F2. by eapply trunc_finish.
Qed.

Lemma itrunc_plain_branch_ok L ip s :
  (ip < length (icache s))%nat -> fields_ok (icache s !!! ip) ->
  IBLOCK (i_inum (icache s !!! ip)) (sb s) ∈ L ->
  iblock_ok s (i_inum (icache s !!! ip)) -> 0 <= i_inum (icache s !!! ip) ->
  i_type (icache s !!! ip) <> T_CS -> freeable L (plain_blocks (icache s !!! ip) s) s ->
  returns (itrunc_cs ip) s (fun _ s' => truncated L (plain_blocks (icache s !!! ip) s) ip s s').
Proof.
  intros Hip Hf HL Hib H0 Hty Hfr. unfold itrunc_cs, inode_at at 1. step.
  destruct (Z.eqb_spec (i_type (icache s !!! ip)) T_CS); [done|].
  pose proof (NADDRS_split _ (fo_naddrs _ Hf)) as Ha. unfold plain_blocks in *.
  set (ads := take (Z.to_nat NDIRECT) (i_addrs (icache s !!! ip))) in *.
  set (ind := i_addrs (icache s !!! ip) !!! Z.to_nat NDIRECT) in *.
  assert (length ads = Z.to_nat NDIRECT) as Hl. { unfold ads. rewrite length_take, (fo_naddrs _ Hf). done. }
  apply returns_bind. rewrite <- Hl.
  apply (itrunc_direct_loop_ok L ip ads [ind] 0); try done; [by eapply freeable_app_l|].
  rewrite Hl. intros s1 F1. unfold inode_at. step.
  destruct (freed_upd_at _ _ _ _ _ _ F1 Hip) as [E1 Hip1].
  assert (i_addrs (icache s1 !!! ip) !!! Z.to_nat NDIRECT = ind) as -> by (by rewrite E1).
  pose proof (freeable_rest _ _ _ _ _ _ _ Hfr F1) as Hfr1.
  destruct (Z.eqb_spec ind 0) as [E0|E0].
  { step. rewrite app_nil_r. eapply trunc_finish; try done. by rewrite E0 in F1. }
  assert (block_of s1 ind = block_of s ind) as Eb.
  { destruct Hfr as [_ _ O _]. apply owned_app in O as (O1 & [_ O2] & _).
    rewrite Forall_app, Forall_singleton in O2. destruct O2 as [_ O2].
    destruct F1 as [F1 _]. apply (freed_keeps _ _ _ _ ind F1); done. }
  apply returns_bind. unfold bread. step. apply returns_bind, (itrunc_entries_ok L); rewrite ?Eb; [done|].
  change (Z.of_nat (Z.to_nat NINDIRECT)) with NINDIRECT. intros s2 F2. step.
  assert (freed_upd L (index_blocks (block_of s ind) 0 NINDIRECT)
    (replicate (Z.to_nat NDIRECT) 0 ++ [ind]) ip s1 s2) as F2'.
  { split.
    - by rewrite <- (freed_keep _ _ _ _ F2) in F2.
    - rewrite (fr_icache _ _ _ _ F2), alter_addrs_same by (by rewrite E1). done. }
  pose proof (freeable_rest _ _ _ _ _ _ _ Hfr1 F2') as [G2 R2 O2 I2].
  destruct O2 as [_ O2]. rewrite Forall_singleton in O2.
  apply returns_bind, (bfree_freed L); try done; [apply I2; set_solver|]. intros s3 F3.
  eapply (clear_last_ok L _ ip s s3); [done | |].
  - eapply freed_upd_seq; [exact F1|]. eapply freed_upd_seq; [exact F2'|]. split.
    + instantiate (1 := [ind]). by rewrite <- (freed_keep _ _ _ _ F3) in F3.
    + rewrite (fr_icache _ _ _ _ F3), alter_addrs_same; [done|]. destruct F2' as [_ ->].
      by rewrite upd_inode_at.
  - intros s4 F4. by eapply trunc_finish.
Qed.

(** this kernel's [itrunc] meets the contract of [iput] *)
#[export] Instance cs_truncate_spec : TruncateSpec cs_owns.
Proof.
  split. intros L l ip s Hg Hr Hf Hip [(exts & Hcs & ->)|[Hty ->]] Ho HI HL Hib H0.
  - by apply itrunc_cs_branch_ok.
  - by apply itrunc_plain_branch_ok.
Qed.

(** ** Properties *)

(** C27: the continuous-sector block map refines a plain list of blocks.  With
    the inode's table storing the list [cs_blocks exts], a block that the list
    has is returned and nothing changes; otherwise either exactly one block,
    free before, is marked in use and appended to the list (its table entry is
    the last run grown by one, or a new run), which happens only for the next
    block in order, or 0 is returned with inode and bitmap unchanged, which
    happens only for a block out of order, a table with no entry left, an image
    of more than 2^24 blocks or a full disk. *)
Theorem csbmap_correct ip exts bn s :
  geom s -> log_room s 3 -> (ip < length (icache s))%nat ->
  cs_file (icache s !!! ip) exts -> 0 <= bn ->
  returns (csbmap ip bn) s (fun r s' =>
    match cs_blocks exts !! Z.to_nat bn with
    | Some a => r = a /\ s' = s
    | None =>
        (r = 0 /\ cs_refused s exts bn /\ icache s' = icache s /\
         forall c, 0 <= c < sb_size (sb s) -> used s' c = used s c) \/
        (r <> 0 /\ used s r = false /\ bn = Z.of_nat (length (cs_blocks exts)) /\
         (forall c, 0 <= c < sb_size (sb s) -> used s' c = (r =? c) || used s c) /\
         exists exts', cs_file (icache s' !!! ip) exts' /\
           cs_blocks exts' = cs_blocks exts ++ [r] /\ Z.of_nat (length exts') <= Z.of_nat (length exts) + 1)
    end).
Proof.
  intros Hg Hr Hip Hcs Hbn. apply (csbmap_ok ip exts); try done. intros r s' H. unfold csbmap_post in H.
  destruct (cs_blocks exts !! Z.to_nat bn); [done|].
  destruct H as (_ & _ & [(?&?&?&_&?)|(Eb & Hal & exts' & a & Happ & Hcs' & _)]); [by left|right].
  destruct Hal as (Ha & Hu & _ & _ & _ & _ & Hu' & _). split_and!; try done; [lia|].
  exists exts'. split_and!; [done | by apply appended_blocks; [apply Hcs|] |].
  destruct Happ as [(l & st & len & -> & -> & _)| ->]; rewrite !length_app; simpl; lia.
Qed.

Definition demo_cs : inode := mkinode 1 9 1 false true T_CS 0 0 1 0 (replicate 13 0).

Lemma demo_cs_file : cs_file demo_cs [].
Proof. by split. Qed.

Lemma csbmap_correct_witness :
  returns (csbmap 0 0) (demo_fs [demo_cs]) (fun r s' =>
    exists exts', cs_file (icache s' !!! 0%nat) exts' /\ cs_blocks exts' = [r]).
Proof.
  eapply returns_mono; [apply (csbmap_correct 0 [] 0 (demo_fs [demo_cs])) |].
  - apply demo_geom.
  - by apply demo_room.
  - vm_compute. lia.
  - exact demo_cs_file.
  - lia.
  - cbv beta. intros r s' [(_ & [H|[H|[H|H]]] & _)|(_ & _ & _ & _ & exts' & H1 & H2 & _)]; try done.
    + specialize (H 8 ltac:(split; done)). by vm_compute in H.
    + by exists exts'.
Defined.

Definition demo_dead : inode := mkinode 1 1 1 false true T_CS 0 0 0 1024 (cs_enc (4, 2) :: replicate 12 0).

Lemma demo_dead_fields : bool_decide (fields_ok demo_dead).
Proof. vm_compute. exact I. Qed.

Lemma demo_dead_owned : owned (demo_fs [demo_dead]) [4; 5].
Proof.
  split; [by apply (bool_decide_unpack _); vm_compute|].
  repeat constructor; try done; intros c Hc; rewrite demo_bblock; done.
Qed.

Lemma iput_last_witness : returns (iput 0) (demo_fs [demo_dead]) (fun _ s' =>
  used s' 4 = false /\ used s' 5 = false /\ used s' 6 = true /\ i_ref (icache s' !!! 0%nat) = 0).
Proof.
  assert (Hroom : room_for {[3; 2]} (demo_fs [demo_dead])).
  { split; [|done]. cbn [lh demo_fs]. rewrite list_to_set_nil, difference_empty_L. by vm_compute. }
  eapply returns_mono.
  - apply (iput_last {[3; 2]} [4; 5] 0 (demo_fs [demo_dead])); try done.
    + apply demo_geom.
    + vm_compute. lia.
    + apply (bool_decide_unpack _ demo_dead_fields).
    + left. exists [(4, 2)]. split; [|done]. split; try done. repeat constructor; done.
    + exact demo_dead_owned.
    + intros b Hb. rewrite demo_bblock; [set_solver|]. rewrite !elem_of_cons, elem_of_nil in Hb. lia.
    + intros c Hc. change (2 <> BBLOCK c demo_sb). rewrite demo_bblock; done.
  - cbv beta. intros _ s' (Hu & _ & Hr & _). split_and!; [| | |done]; by rewrite Hu.
Defined.
