(* ===== verification/CsIo.v ===== *)
(** * Reading and writing files of the continuous-sector kernel

    [readi] and [writei] of [fs.c] over the block map of [CsFs].  The device
    switch [devsw] is a table of function pointers filled in at run time; the
    class [DevSw] is that table.  The loops run with one unit of fuel per
    block; running out is [Block], which the theorems exclude. *)

From S2P Require Import Prelude Blocks Inode Index FileIo CsFs.

Section Io.
Context `{DevSw}.

Fixpoint readi_loop (fuel : nat) (ip : nat) (off n tot : Z) (dst : list Z) : M fsys (Z * list Z) :=
  match fuel with
  | O => block
  | S fuel' =>
      if tot <? n then
        addr ← bmap ip (off / BSIZE);
        if addr =? 0 then mret (if 0 <? tot then tot else -1, dst)
        else
          d ← bread addr;
          let m := Z.min (n - tot) (BSIZE - off mod BSIZE) in
          brelse addr ;;
          readi_loop fuel' ip (off + m) n (tot + m) (dst ++ slice d (off mod BSIZE) m)
      else mret (i32 n, dst)
  end.

(** [readi]: the result and the bytes copied to [dst] *)
Definition readi (ip : nat) (off n : Z) : M fsys (Z * list Z) :=
  i ← inode_at ip;
  if i_type i =? T_DEV then
    match dev_guard (i_major i) (dev_read (i_major i)) with
    | None => mret (-1, [])
    | Some f => f ip n
    end
  else if (i_size i <? off) || (u32 (off + n) <? off) then mret (-1, [])
  else
    let n := if i_size i <? u32 (off + n) then i_size i - off else n in
    readi_loop (Z.to_nat (n / BSIZE + 3)) ip off n 0 [].

(** the copy loop of [writei]: the bytes written and the final offset *)
Fixpoint writei_loop (fuel : nat) (ip : nat) (src : list Z) (off n tot : Z) : M fsys (Z * Z) :=
  match fuel with
  | O => block
  | S fuel' =>
      if tot <? n then
        addr ← bmap ip (off / BSIZE);
        if addr =? 0 then mret (tot, off)
        else
          d ← bread addr;
          let m := Z.min (n - tot) (BSIZE - off mod BSIZE) in
          set_data addr (splice d (off mod BSIZE) (slice src 0 m)) ;;
          log_write addr ;;
          brelse addr ;;
          writei_loop fuel' ip (drop (Z.to_nat m) src) (off + m) n (tot + m)
      else mret (tot, off)
  end.

(** the part of [writei] after the limit check, with the final [n] *)
Definition writei_body (ip : nat) (src : list Z) (off n : Z) : M fsys Z :=
  '(tot, off) ← writei_loop (Z.to_nat (n / BSIZE + 3)) ip src off n 0;
  i ← inode_at ip;
  (if (0 <? n) && (i_size i <? off) then upd_inode ip (with_size off) ;; iupdate ip else mret tt) ;;
  if (tot =? 0) && (0 <? n) then mret (-1) else mret (i32 tot).

(** [writei] *)
Definition writei (ip : nat) (src : list Z) (off n : Z) : M fsys Z :=
  i ← inode_at ip;
  if i_type i =? T_DEV then
    match dev_guard (i_major i) (dev_write (i_major i)) with
    | None => mret (-1)
    | Some f => f ip src n
    end
  else if (i_size i <? off) || (u32 (off + n) <? off) then mret (-1)
  else
    let limit := (if i_type i =? T_CS then MAXCSBLOCKS else MAXFILE) * BSIZE in
    if limit <? u32 (off + n) then
      if negb (i_type i =? T_CS) || (limit <=? off) then mret (-1)
      else cprintf "csfs: direct block range exceeded" ;; writei_body ip src off (limit - off)
    else writei_body ip src off n.
End Io.

(** ** The contents of a CS file *)

Definition cs_data (s : fsys) (exts : list (Z * Z)) : list Z := cs_blocks exts ≫= block_of s.

(** [exts] are the runs of entry [ip]: its blocks are allocated and distinct,
    and the size stays within them *)
Record cs_ok (s : fsys) (ip : nat) (exts : list (Z * Z)) : Prop := {
  ok_geom : geom s;
  ok_ip : (ip < length (icache s))%nat;
  ok_file : cs_file (icache s !!! ip) exts;
  ok_owned : owned s (cs_blocks exts)
}.

(** the bytes of the file *)
Definition contents (s : fsys) (ip : nat) (exts : list (Z * Z)) : list Z :=
  take (Z.to_nat (i_size (icache s !!! ip))) (cs_data s exts).

Lemma length_bind_blocks s l :
  (forall b, length (block_of s b) = Z.to_nat BSIZE) ->
  length (l ≫= block_of s) = (Z.to_nat BSIZE * length l)%nat.
Proof.
  intros Hl. induction l as [|b l IH]; [simpl; lia|]. rewrite bind_cons, length_app, IH, Hl.
  cbn [length]. lia.
Qed.

Lemma drop_bind_blocks s l k :
  (forall b, length (block_of s b) = Z.to_nat BSIZE) ->
  drop (Z.to_nat BSIZE * k) (l ≫= block_of s) = drop k l ≫= block_of s.
Proof.
  intros Hl. revert k. induction l as [|b l IH]; intros [|k]; rewrite ?Nat.mul_0_r; try done.
  rewrite bind_cons. cbn [drop]. rewrite <- IH.
  replace (Z.to_nat BSIZE * S k)%nat with (length (block_of s b) + Z.to_nat BSIZE * k)%nat by (rewrite Hl; lia).
  by rewrite drop_app_add.
Qed.

Lemma take_bind_blocks s l k :
  (forall b, length (block_of s b) = Z.to_nat BSIZE) ->
  take (Z.to_nat BSIZE * k) (l ≫= block_of s) = take k l ≫= block_of s.
Proof.
  intros Hl. revert k. induction l as [|b l IH]; intros [|k]; rewrite ?Nat.mul_0_r; try done.
  rewrite bind_cons. cbn [take]. rewrite bind_cons, <- IH.
  replace (Z.to_nat BSIZE * S k)%nat with (length (block_of s b) + Z.to_nat BSIZE * k)%nat by (rewrite Hl; lia).
  by rewrite take_app_add.
Qed.

Section Blocks.
Context (s : fsys) (l : list Z).
Hypothesis Hl : forall b, length (block_of s b) = Z.to_nat BSIZE.

Lemma slice_blocks off m a :
  0 <= off -> 0 <= m -> off mod BSIZE + m <= BSIZE -> l !! Z.to_nat (off / BSIZE) = Some a ->
  slice (l ≫= block_of s) off m = slice (block_of s a) (off mod BSIZE) m.
Proof using Hl.
  intros H0 Hm Hb Ha. pose proof (off_mod off). unfold slice. rewrite (off_split off) by done.
  rewrite <- drop_drop, drop_bind_blocks by done. rewrite (drop_S _ _ _ Ha), bind_cons.
  rewrite drop_app_le by (rewrite Hl; lia). rewrite take_app_le; [done|].
  rewrite length_drop, Hl. lia.
Qed.
End Blocks.

Lemma cs_bmap_hit ip exts bn a s (Q : Z -> fsys -> Prop) :
  cs_file (icache s !!! ip) exts -> 0 <= bn -> cs_blocks exts !! Z.to_nat bn = Some a -> Q a s ->
  returns (bmap ip bn) s Q.
Proof.
  intros Hcs Hbn Ha HQ. unfold bmap, inode_at. step. rewrite (cf_type _ _ Hcs). cbn [Z.eqb T_CS Pos.eqb].
  unfold csbmap, inode_at. step. rewrite (cs_file_scan _ exts), Ha by done. by step.
Qed.

Lemma cs_block_nonzero s exts b : owned s (cs_blocks exts) -> b ∈ cs_blocks exts -> 0 < b < sb_size (sb s).
Proof. intros [_ Ho] Hb. rewrite Forall_forall in Ho. by apply Ho. Qed.

(** the block of an offset below the end of the run list *)
Lemma off_block s exts off :
  0 <= off < BSIZE * Z.of_nat (length (cs_blocks exts)) -> owned s (cs_blocks exts) ->
  exists a, cs_blocks exts !! Z.to_nat (off / BSIZE) = Some a /\ 0 < a < sb_size (sb s).
Proof.
  intros Hoff Ho. destruct (lookup_lt_is_Some_2 (cs_blocks exts) (Z.to_nat (off / BSIZE))) as [a Ha].
  { change BSIZE with 512 in *. Z.div_mod_to_equations. lia. }
  exists a. split; [done|]. eapply cs_block_nonzero; [done|]. by eapply list_elem_of_lookup_2.
Qed.

Section ReadWrite.
Context `{DevSw}.

Lemma cs_readi_loop_ok fuel ip exts off n tot dst s (Q : Z * list Z -> fsys -> Prop) :
  cs_ok s ip exts -> 0 <= off -> 0 <= tot <= n -> n < 2 ^ 31 ->
  off + (n - tot) <= BSIZE * Z.of_nat (length (cs_blocks exts)) ->
  enough fuel off (n - tot) ->
  Q (n, dst ++ slice (cs_data s exts) off (n - tot)) s ->
  returns (readi_loop fuel ip off n tot dst) s Q.
Proof.
  intros [Hg Hip Hcs Ho]. revert off tot dst.
  induction fuel as [|fuel IH]; intros off tot dst Hoff Htot Hn Hend Hfuel HQ.
  { destruct Hfuel. lia. }
  cbn [readi_loop]. destruct (Z.ltb_spec tot n) as [Hlt|Hge].
  - destruct (off_block s exts off) as (a & Ha & Hpos); [lia | done |].
    assert (0 <= off / BSIZE) by (apply Z.div_pos; [lia | done]).
    apply returns_bind, (cs_bmap_hit ip exts (off / BSIZE) a); [done | done | done |].
    destruct (Z.eqb_spec a 0); [lia|]. unfold bread. do 2 step.
    pose proof (chunk_step off (n - tot) fuel Hoff ltac:(lia) Hfuel) as (Hm & Hmb & Hf').
    set (m := Z.min (n - tot) (BSIZE - off mod BSIZE)) in *.
    apply IH; try lia; [by replace (n - (tot + m)) with (n - tot - m) by lia|].
    rewrite <- (slice_blocks s (cs_blocks exts)) by (done || lia || apply (g_len s Hg)).
    rewrite <- (assoc_L (++)). fold (cs_data s exts). rewrite <- slice_add by lia.
    by replace (m + (n - (tot + m))) with (n - tot) by lia.
  - step. assert (n - tot = 0) as E by lia. rewrite E, slice_nil, app_nil_r in HQ.
    by rewrite i32_small by lia.
Qed.

(** [readi] on a CS file returns exactly the bytes of the file in the
    requested range, cut at the end of the file, and -1 for a start past the
    end or a range that wraps around 2^32; it changes nothing and its loop
    ends. *)
Theorem readi_cs_correct ip exts off n s :
  cs_ok s ip exts -> 0 <= off < 2 ^ 32 -> 0 <= n < 2 ^ 32 ->
  0 <= i_size (icache s !!! ip) <= BSIZE * Z.of_nat (length (cs_blocks exts)) ->
  readi ip off n s =
    Ok (if (i_size (icache s !!! ip) <? off) || (2 ^ 32 <=? off + n) then (-1, [])
        else let n' := Z.min n (i_size (icache s !!! ip) - off) in
             (n', slice (contents s ip exts) off n'), s).
Proof.
  intros Hok Hoff Hn Hsz. pose proof Hok as [Hg Hip Hcs Ho].
  set (size := i_size (icache s !!! ip)) in *.
  assert (size < 2 ^ 31) as Hsz31.
  { pose proof (length_cs_blocks exts (cf_runs _ _ Hcs)). pose proof (cf_len _ _ Hcs).
    change NDIRECT with 12 in *. change BSIZE with 512 in *. unfold CS_MAX_LENGTH in *. lia. }
  assert (returns (readi ip off n) s (fun r s' => (r, s') =
    (if (size <? off) || (2 ^ 32 <=? off + n) then (-1, [])
     else let n' := Z.min n (size - off) in (n', slice (contents s ip exts) off n'), s))) as HR.
  2:{ apply returns_eq in HR as (r & s' & -> & E). by rewrite E. }
  unfold readi, inode_at. step. rewrite (cf_type _ _ Hcs). change (T_CS =? T_DEV) with false. cbv iota.
  fold size. destruct (Z.ltb_spec size off) as [Hso|Hso]; simpl orb; [by step|].
  destruct (Z.leb_spec (2 ^ 32) (off + n)) as [Hov|Hov].
  { rewrite u32_wrap by lia. destruct (Z.ltb_spec (off + n - 2 ^ 32) off); [|lia]. by step. }
  rewrite u32_small by lia. destruct (Z.ltb_spec (off + n) off); [lia|].
  assert ((if size <? off + n then size - off else n) = Z.min n (size - off)) as ->.
  { destruct (Z.ltb_spec size (off + n)); lia. }
  apply (cs_readi_loop_ok _ ip exts); try done; try lia.
  { rewrite Z.sub_0_r. apply fuel_enough. lia. }
  rewrite Z.sub_0_r. cbn [app]. do 2 f_equal. unfold contents, slice. fold size.
  rewrite <- (take_drop (Z.to_nat size) (cs_data s exts)) at 1.
  rewrite drop_app_le.
  2:{ rewrite length_take. unfold cs_data. rewrite length_bind_blocks by apply (g_len s Hg).
      change BSIZE with 512 in *. lia. }
  rewrite take_app_le; [done|]. rewrite length_drop, length_take. unfold cs_data.
  rewrite length_bind_blocks by apply (g_len s Hg). change BSIZE with 512 in *. lia.
Qed.
End ReadWrite.

(** ** Writing *)

(** what the block map and the data writes do to a file's run list *)
Record extended (ip : nat) (exts : list (Z * Z)) (s : fsys) (exts' : list (Z * Z)) (s' : fsys) : Prop := {
  ex_ok : cs_ok s' ip exts';
  ex_sb : sb s' = sb s;
  ex_new : exists l, cs_blocks exts' = cs_blocks exts ++ l /\ Forall (fun b => used s b = false) l;
  ex_icache : exists a, icache s' = alter (with_addrs a) ip (icache s);
  ex_same : cs_blocks exts' = cs_blocks exts -> icache s' = icache s;
  ex_used : forall c, 0 <= c < sb_size (sb s) -> used s c = true -> used s' c = true;
  ex_other : forall c, data_block s c -> c ∉ cs_blocks exts -> block_of s' c = block_of s c
}.

Lemma with_addrs_at a ip s : (ip < length (icache s))%nat ->
  alter (with_addrs a) ip (icache s) !!! ip = with_addrs a (icache s !!! ip).
Proof. apply upd_inode_at. Qed.

Lemma extended_refl ip exts s : cs_ok s ip exts -> extended ip exts s exts s.
Proof.
  intros Hok. split; try done.
  - exists []. by rewrite app_nil_r.
  - exists (i_addrs (icache s !!! ip)). by rewrite alter_addrs_same.
Qed.

Lemma extended_trans ip e0 e1 e2 s0 s1 s2 :
  cs_ok s0 ip e0 -> extended ip e0 s0 e1 s1 -> extended ip e1 s1 e2 s2 -> extended ip e0 s0 e2 s2.
Proof.
  intros H0 [K1 S1 (l1 & N1 & F1) (a1 & I1) M1 U1 O1] [K2 S2 (l2 & N2 & F2) (a2 & I2) M2 U2 O2].
  rewrite S1 in *. split; try done.
  - exists (l1 ++ l2). split; [by rewrite N2, N1, (assoc_L (++))|]. apply Forall_app. split; [done|].
    pose proof (ok_owned _ _ _ K2) as [_ Hd]. rewrite N2 in Hd. apply Forall_app in Hd as [_ Hd].
    rewrite Forall_forall in *. intros b Hb. destruct (Hd b Hb) as (Hr & _). rewrite S2 in Hr.
    destruct (used s0 b) eqn:E; [|done]. rewrite <- (F2 b Hb). symmetry. apply U1; [lia | done].
  - exists a2. by rewrite I2, I1, alter_addrs_twice.
  - intros E. rewrite N2, N1, <- (assoc_L (++)) in E.
    apply (f_equal length) in E as EL. rewrite !length_app in EL.
    assert (l1 = [] /\ l2 = []) as [-> ->] by (split; apply nil_length_inv; lia).
    rewrite app_nil_r in N1. rewrite app_nil_r in N2. rewrite M2, M1; done.
  - intros c Hc Hu. auto.
  - intros c Hc Hn. rewrite O2, O1; try done; [by eapply data_block_mono|].
    rewrite N1. intros [?|Hin]%elem_of_app; [done|]. rewrite Forall_forall in F1.
    destruct Hc as (_ & Hu & _). by rewrite (F1 c Hin) in Hu.
Qed.

Lemma logged_extended b d ip exts s s' :
  cs_ok s ip exts -> b ∈ cs_blocks exts -> length d = Z.to_nat BSIZE -> logged b d s s' ->
  extended ip exts s exts s'.
Proof.
  intros [Hg Hip Hcs Ho] Hb Hd Hlog. pose proof Ho as [_ Hall]. rewrite Forall_forall in Hall.
  destruct (Hall b Hb) as (Hr & Hub & Hnb).
  destruct (logged_data_geom b d s s' Hg Hnb Hd Hlog) as [Hg' Hu]. destruct Hlog as [F C B L].
  pose proof (f_sb _ _ _ F) as S. pose proof (f_icache _ _ _ F) as I.
  assert (forall c, 0 <= c < sb_size (sb s) -> used s c = true -> used s' c = true) as Hmono.
  { intros c Hc. by rewrite Hu. }
  split; try done.
  - split; rewrite ?I; try done. by eapply owned_mono.
  - exists []. by rewrite app_nil_r.
  - exists (i_addrs (icache s !!! ip)). by rewrite I, alter_addrs_same.
  - intros c _ Hc. rewrite (block_of_insert _ _ _ _ _ B), decide_False; [done|]. by intros ->.
Qed.

(** the block map on the way of a write: the block at [off], one allocated at
    the end of the list if [off] is there, or a refusal *)
Record mapped (ip : nat) (exts : list (Z * Z)) (off : Z) (s : fsys) (a : Z) (exts' : list (Z * Z)) (s' : fsys) : Prop := {
  mp_ext : extended ip exts s exts' s';
  mp_out : outstanding s' = outstanding s;
  mp_at : cs_blocks exts' !! Z.to_nat (off / BSIZE) = Some a;
  mp_lh : (a ∈ lh s' /\ Z.of_nat (length (lh s')) <= Z.of_nat (length (lh s)) + 2) \/ lh s' = lh s;
  mp_data : (cs_data s' exts' = cs_data s exts /\ cs_blocks exts' = cs_blocks exts) \/
            (cs_data s' exts' = cs_data s exts ++ zero_block /\
             BSIZE * Z.of_nat (length (cs_blocks exts)) <= off)
}.

(** why the file cannot grow *)
Definition cs_full (s : fsys) (exts : list (Z * Z)) : Prop :=
  Z.of_nat (length exts) = NDIRECT \/ 2 ^ 24 < sb_size (sb s) \/
  (forall c, 0 <= c < sb_size (sb s) -> used s c = true).

Lemma alloc_extended ip exts off s a s' :
  cs_ok s ip exts -> 0 <= off <= BSIZE * Z.of_nat (length (cs_blocks exts)) ->
  cs_blocks exts !! Z.to_nat (off / BSIZE) = None ->
  csbmap_post ip exts (off / BSIZE) s a s' -> a <> 0 ->
  outstanding s' = outstanding s /\ exists exts', mapped ip exts off s a exts' s'.
Proof.
  intros [Hg Hip Hcs Ho] Hoff Elk H Ha0. unfold csbmap_post in H. rewrite Elk in H.
  destruct H as (Hg' & Hgr & [(-> & _)|(Ebn & Hal & exts' & aa & Happ & Hcs' & HI)]); [done|].
  split; [apply Hgr|]. exists exts'.
  pose proof (appended_blocks _ _ _ (cf_runs _ _ Hcs) Happ) as Ebl.
  pose proof Hal as (Har & Hua & _ & F & L & Bz & Hu & K & _). pose proof (gr_sb _ _ _ Hgr) as S.
  assert (data_kept s s') as Hkeep by apply (alloc_data_kept _ _ _ Hal).
  assert (forall c, 0 <= c < sb_size (sb s) -> used s c = true -> used s' c = true) as Hmono.
  { intros c Hc Hc1. change (used s' c) with (used (set_icache (fun _ => icache s) s') c).
    rewrite Hu, Hc1 by done. apply orb_true_r. }
  assert (data_block s' a) as Hda.
  { split; [by rewrite S|]. split.
    - change (used s' a) with (used (set_icache (fun _ => icache s) s') a). rewrite Hu by lia. by rewrite Z.eqb_refl.
    - rewrite S. intros c Hc ->. by rewrite (g_bmap s Hg) in Hua. }
  assert (a ∉ cs_blocks exts) as Hnin.
  { intros Hin. destruct Ho as [_ Ho]. rewrite Forall_forall in Ho. destruct (Ho a Hin) as (_ & Hx & _). congruence. }
  split; try done.
  - split; try done.
    + split; try done; [by rewrite HI, length_alter|]. rewrite Ebl.
      destruct (owned_mono s s' _ S Hmono Ho) as [N1 N2]. split.
      * apply NoDup_app. split_and!; [done | set_solver | apply NoDup_singleton].
      * apply Forall_app. split; [done|]. by apply Forall_singleton.
    + exists [a]. split; [done|]. by apply Forall_singleton.
    + by exists aa.
    + intros E. rewrite Ebl in E. apply (f_equal length) in E. rewrite length_app in E. simpl in E. lia.
    + intros c Hc _. by apply Hkeep.
  - apply Hgr.
  - rewrite Ebl, Ebn, Nat2Z.id, lookup_app_r, Nat.sub_diag by lia. done.
  - left. split; [|apply Hgr]. change (lh s') with (lh (set_icache (fun _ => icache s) s')). rewrite L.
    rewrite elem_of_absorb. by left.
  - right. split.
    + unfold cs_data. rewrite Ebl, bind_app. f_equal.
      * apply Forall_bind_ext. destruct Ho as [_ Ho]. eapply Forall_impl; [exact Ho|]. intros c. apply Hkeep.
      * simpl. rewrite app_nil_r. exact Bz.
    + rewrite <- Ebn. change BSIZE with 512 in *. Z.div_mod_to_equations. lia.
Qed.

Lemma refused_extended ip exts s s' :
  cs_ok s ip exts -> geom s' -> sb s' = sb s -> icache s' = icache s -> data_kept s s' ->
  (forall c, 0 <= c < sb_size (sb s) -> used s' c = used s c) ->
  extended ip exts s exts s' /\ cs_data s' exts = cs_data s exts.
Proof.
  intros [Hg Hip Hcs Ho] Hg' S HI Hk Hu.
  assert (forall c, 0 <= c < sb_size (sb s) -> used s c = true -> used s' c = true) as Hmono.
  { intros c Hc. by rewrite Hu. }
  split.
  - split; try done.
    + split; rewrite ?HI; try done. by eapply owned_mono.
    + exists []. by rewrite app_nil_r.
    + exists (i_addrs (icache s !!! ip)). by rewrite HI, alter_addrs_same.
    + intros c Hc _. by apply Hk.
  - apply Forall_bind_ext. destruct Ho as [_ Ho]. eapply Forall_impl; [exact Ho|]. intros c. apply Hk.
Qed.

Lemma bmap_write_ok ip exts off s (Q : Z -> fsys -> Prop) :
  cs_ok s ip exts -> log_room s 3 -> 0 <= off <= BSIZE * Z.of_nat (length (cs_blocks exts)) ->
  (forall a exts' s', a <> 0 -> mapped ip exts off s a exts' s' -> Q a s') ->
  (forall s', extended ip exts s exts s' -> cs_data s' exts = cs_data s exts -> cs_full s' exts ->
     grown 2 s s' -> Q 0 s') ->
  returns (bmap ip (off / BSIZE)) s Q.
Proof.
  intros Hok Hr Hoff Hhit Href. pose proof Hok as [Hg Hip Hcs Ho].
  assert (0 <= off / BSIZE) as Hb0 by (apply Z.div_pos; [lia | done]).
  unfold bmap, inode_at at 1. step. rewrite (cf_type _ _ Hcs). cbn [Z.eqb T_CS Pos.eqb].
  apply (csbmap_ok ip exts); try done. intros a s' H.
  destruct (cs_blocks exts !! Z.to_nat (off / BSIZE)) as [b|] eqn:Elk.
  { unfold csbmap_post in H. rewrite Elk in H. destruct H as [-> ->].
    apply (Hhit b exts).
    - pose proof (cs_block_nonzero s exts b Ho ltac:(by eapply list_elem_of_lookup_2)). lia.
    - split; try done; [by apply extended_refl | by right | by left]. }
  destruct (decide (a = 0)) as [->|Ha].
  - unfold csbmap_post in H. rewrite Elk in H.
    destruct H as (Hg' & Hgr & [(_ & Hw & HI & Hk & Hu)|(_ & (Hx & _) & _)]); [|lia].
    destruct (refused_extended ip exts s s') as [He Hd]; try done; [apply Hgr|].
    apply Href; try done. unfold cs_refused, cs_full in *. rewrite (gr_sb _ _ _ Hgr).
    destruct Hw as [Hne|[?|[?|Hfull]]]; [|by left|by right; left|].
    + exfalso. apply lookup_ge_None in Elk. change BSIZE with 512 in *. apply Hne. Z.div_mod_to_equations. lia.
    + do 2 right. intros c Hc. rewrite Hu by done. by apply Hfull.
  - destruct (alloc_extended ip exts off s a s') as (_ & exts' & M); try done. by eapply Hhit.
Qed.

(** the bytes behind a store to one block of the list *)
Lemma splice_app_mid (P A R x : list Z) o :
  0 <= o -> o + Z.of_nat (length x) <= Z.of_nat (length A) ->
  splice (P ++ A ++ R) (Z.of_nat (length P) + o) x = P ++ splice A o x ++ R.
Proof.
  intros H1 H2. unfold splice. rewrite Z2Nat.inj_add, Nat2Z.id by lia.
  rewrite take_app_add, <- (assoc_L (++)). rewrite take_app_le by lia. f_equal.
  rewrite <- !(assoc_L (++)). do 2 f_equal.
  rewrite <- Nat.add_assoc, drop_app_add. by rewrite drop_app_le by lia.
Qed.

Lemma cs_data_store s s' exts k a o x :
  (forall b, length (block_of s b) = Z.to_nat BSIZE) -> NoDup (cs_blocks exts) ->
  cs_blocks exts !! k = Some a -> 0 <= o -> o + Z.of_nat (length x) <= BSIZE ->
  block_of s' a = splice (block_of s a) o x ->
  (forall c, c <> a -> block_of s' c = block_of s c) ->
  cs_data s' exts = splice (cs_data s exts) (BSIZE * Z.of_nat k + o) x.
Proof.
  intros Hl Hnd Hk Ho Hx Ha Hother. unfold cs_data.
  rewrite <- (take_drop_middle _ _ _ Hk) in *. set (P := take k (cs_blocks exts)) in *.
  set (R := drop (S k) (cs_blocks exts)) in *.
  assert (length P = k) as EP.
  { unfold P. apply lookup_lt_Some in Hk. rewrite length_take. lia. }
  apply NoDup_app in Hnd as (_ & Hd & [Hna _]%NoDup_cons).
  rewrite !bind_app, !bind_cons, Ha.
  assert (P ≫= block_of s' = P ≫= block_of s) as ->.
  { apply Forall_bind_ext, Forall_forall. intros c Hc. apply Hother. intros ->. eapply Hd; [exact Hc|]. set_solver. }
  assert (R ≫= block_of s' = R ≫= block_of s) as ->.
  { apply Forall_bind_ext, Forall_forall. intros c Hc. apply Hother. by intros ->. }
  rewrite <- splice_app_mid by (rewrite ?Hl; change BSIZE with 512 in *; lia).
  f_equal. rewrite length_bind_blocks, EP by done. change BSIZE with 512. lia.
Qed.

(** one block of the write: map, copy, log *)
Lemma write_block_ok {A} ip exts off x s a exts1 s1 (k : M fsys A) (Q : A -> fsys -> Prop) :
  cs_ok s ip exts -> 0 <= off -> log_room s 3 -> off mod BSIZE + Z.of_nat (length x) <= BSIZE ->
  mapped ip exts off s a exts1 s1 ->
  (forall s', extended ip exts s exts1 s' -> grown 2 s s' ->
     cs_data s' exts1 = splice (cs_data s1 exts1) off x -> returns k s' Q) ->
  returns (set_data a (splice (block_of s1 a) (off mod BSIZE) x) ;; log_write a ;; brelse a ;; k) s1 Q.
Proof.
  intros Hok Ho Hr Hx [E1 Out Hat Hlh Hd] HQ. pose proof (ex_ok _ _ _ _ _ E1) as Hok1.
  pose proof Hok1 as [Hg1 Hip1 Hcs1 Ho1]. pose proof (off_mod off) as Hm.
  assert (log_room s1 1) as Hr1.
  { destruct Hr as [Hr HO]. split; [|lia]. rewrite (ex_sb _ _ _ _ _ E1).
    destruct Hlh as [[_ ?]| ->]; lia. }
  apply set_data_log_ok; [done|]. intros s' Hlog. pose proof Hlog as [F C B L].
  assert (length (splice (block_of s1 a) (off mod BSIZE) x) = Z.to_nat BSIZE) as HL.
  { rewrite length_splice; rewrite ?(g_len _ Hg1); change BSIZE with 512 in *; lia. }
  assert (a ∈ cs_blocks exts1) as Hin by (by eapply list_elem_of_lookup_2).
  pose proof (logged_extended a _ ip exts1 s1 s' Hok1 Hin HL Hlog) as E2.
  apply HQ.
  - by eapply extended_trans.
  - destruct F as [S I O G]. split; [rewrite S; apply E1 | congruence |]. rewrite L.
    destruct Hlh as [[Ha ?]| E]; [by rewrite absorb_in|].
    pose proof (length_absorb a (lh s1)). rewrite E in *. lia.
  - rewrite (cs_data_store s1 s' exts1 (Z.to_nat (off / BSIZE)) a (off mod BSIZE) x); try done; try lia.
    + f_equal. pose proof (off_split off Ho). change BSIZE with 512 in *. Z.div_mod_to_equations. lia.
    + apply (g_len _ Hg1).
    + apply Ho1.
    + by rewrite (block_of_insert _ _ _ _ _ B), decide_True.
    + intros c Hc. by rewrite (block_of_insert _ _ _ _ _ B), decide_False.
Qed.

(** the first [e] bytes behind the runs *)
Definition view (s : fsys) (exts : list (Z * Z)) (e : Z) : list Z := take (Z.to_nat e) (cs_data s exts).

Definition cs_span (exts : list (Z * Z)) : Z := BSIZE * Z.of_nat (length (cs_blocks exts)).

Lemma length_cs_data s ip exts : cs_ok s ip exts -> Z.of_nat (length (cs_data s exts)) = cs_span exts.
Proof.
  intros Hok. unfold cs_data, cs_span. rewrite length_bind_blocks by apply (g_len s (ok_geom _ _ _ Hok)).
  change BSIZE with 512. lia.
Qed.

(** what a write of [w] bytes of [src] at [off] leaves behind; [e] bytes were
    valid before *)
Record written (ip : nat) (src : list Z) (off e : Z) (s : fsys) (exts : list (Z * Z)) (w : Z)
    (s' : fsys) (exts' : list (Z * Z)) : Prop := {
  wn_ext : extended ip exts s exts' s';
  wn_view : view s' exts' (Z.max e (off + w)) = splice (view s exts e) off (take (Z.to_nat w) src);
  wn_end : Z.max e (off + w) <= cs_span exts';
  wn_same : cs_blocks exts' = cs_blocks exts \/ cs_span exts < off + w
}.

Lemma written_step ip off e s exts x s1 exts1 src w s2 exts2 :
  cs_ok s ip exts -> 0 <= off <= e -> 0 <= w -> e <= cs_span exts ->
  written ip x off e s exts (Z.of_nat (length x)) s1 exts1 ->
  written ip src (off + Z.of_nat (length x)) (Z.max e (off + Z.of_nat (length x))) s1 exts1 w s2 exts2 ->
  written ip (x ++ src) off e s exts (Z.of_nat (length x) + w) s2 exts2.
Proof.
  intros Hok Hoff Hw He [E1 V1 L1 M1] [E2 V2 L2 M2].
  replace (Z.max (Z.max e (off + Z.of_nat (length x))) (off + Z.of_nat (length x) + w))
    with (Z.max e (off + (Z.of_nat (length x) + w))) in * by lia.
  split; [by eapply extended_trans | | done |].
  - rewrite Nat2Z.id, (take_ge x) in V1 by lia. rewrite V2, V1, splice_splice_next.
    + by rewrite Z2Nat.inj_add, Nat2Z.id, take_app_add by lia.
    + unfold view. rewrite length_take. pose proof (length_cs_data _ _ _ Hok). lia.
  - unfold cs_span in *. destruct M1 as [M1|M1]; [|right; lia]. destruct M2 as [M2|M2].
    + left. congruence.
    + right. rewrite M1 in M2. lia.
Qed.

(** the bytes after one mapped and stored block *)
Lemma written_block ip exts off e x s a exts1 s1 s' :
  cs_ok s ip exts -> 0 <= off <= e -> e <= cs_span exts -> 0 < Z.of_nat (length x) ->
  off mod BSIZE + Z.of_nat (length x) <= BSIZE ->
  mapped ip exts off s a exts1 s1 -> extended ip exts s exts1 s' ->
  cs_data s' exts1 = splice (cs_data s1 exts1) off x ->
  written ip x off e s exts (Z.of_nat (length x)) s' exts1.
Proof.
  intros Hok Hoff He Hx Hm [E1 _ Hat _ Hd] E2 Hdata.
  pose proof (length_cs_data _ _ _ Hok) as HL. pose proof (length_cs_data _ _ _ (ex_ok _ _ _ _ _ E1)) as HL1.
  assert (off + Z.of_nat (length x) <= cs_span exts1) as Hend.
  { apply lookup_lt_Some in Hat. unfold cs_span. change BSIZE with 512 in *. Z.div_mod_to_equations. lia. }
  assert (cs_span exts <= cs_span exts1) as Hle.
  { destruct (ex_new _ _ _ _ _ E1) as (l & E & _). unfold cs_span. rewrite E, length_app. change BSIZE with 512. lia. }
  split; [done | | lia |].
  - unfold view. rewrite Hdata. rewrite take_splice by lia.
    rewrite Nat2Z.id, (take_ge x) by lia. f_equal.
    destruct Hd as [[-> _]|[-> _]]; [done|]. rewrite take_app_le; [done|]. lia.
  - destruct Hd as [[_ Hs]|[_ Hd]]; [by left|right]. unfold cs_span in *. lia.
Qed.

Section Write.
Context `{DevSw}.

Lemma cs_writei_loop_ok fuel ip exts off n tot src e s (Q : Z * Z -> fsys -> Prop) :
  cs_ok s ip exts -> 0 <= off <= e -> e <= cs_span exts -> 0 <= tot <= n ->
  n - tot <= Z.of_nat (length src) -> enough fuel off (n - tot) ->
  log_room s (2 * nblocks off (n - tot) + 1) ->
  (forall w s' exts', 0 <= w <= n - tot -> written ip src off e s exts w s' exts' ->
     grown (2 * nblocks off (n - tot)) s s' -> (w < n - tot -> cs_full s' exts') -> Q (tot + w, off + w) s') ->
  returns (writei_loop fuel ip src off n tot) s Q.
Proof.
  revert off tot src e s exts Q.
  induction fuel as [|fuel IH]; intros off tot src e s exts Q Hok Hoff He Htot Hsrc Hfuel Hroom HQ.
  { destruct Hfuel. lia. }
  cbn [writei_loop]. destruct (Z.ltb_spec tot n) as [Hlt|Hge].
  2:{ step. replace tot with (tot + 0) by lia. replace off with (off + 0) by lia.
      apply (HQ 0 s exts); [lia | | |lia].
      - split; [by apply extended_refl | | lia | by left]. rewrite Z.max_l by lia.
        rewrite Z2Nat.inj_0, take_0. unfold splice. cbn [app length]. rewrite Nat.add_0_r. by rewrite take_drop.
      - split; try done. unfold nblocks. destruct (Z.leb_spec (n - tot) 0); lia. }
  pose proof (chunk_step off (n - tot) fuel ltac:(lia) ltac:(lia) Hfuel) as (Hm & Hmb & Hf').
  pose proof (nblocks_step off (n - tot) ltac:(lia) ltac:(lia)) as [Hnb Hnb1]. cbv zeta in Hnb.
  set (m := Z.min (n - tot) (BSIZE - off mod BSIZE)) in *.
  assert (log_room s 3) as Hr3 by (eapply log_room_weaken; [done|lia]).
  apply returns_bind, (bmap_write_ok ip exts); try done; [unfold cs_span in *; lia | |].
  - intros a exts1 s1 Ha M. destruct (Z.eqb_spec a 0); [done|]. unfold bread. step.
    assert (Z.of_nat (length (slice src 0 m)) = m) as Hlx by (rewrite length_slice; lia).
    eapply (write_block_ok ip exts off (slice src 0 m) s a exts1 s1); try done; [lia | by rewrite Hlx |].
    intros s2 E2 G2 D2.
    pose proof (written_block ip exts off e (slice src 0 m) s a exts1 s1 s2 Hok Hoff He
      ltac:(lia) ltac:(lia) M E2 D2) as W1. rewrite Hlx in W1.
    replace (n - tot - m) with (n - (tot + m)) in * by lia.
    apply (IH _ _ _ (Z.max e (off + m)) s2 exts1); try done; try lia.
    + apply E2.
    + apply W1.
    + rewrite length_drop. lia.
    + rewrite Hnb. eapply (grown_room 2 (2 * (nblocks off (n - tot) - 1) + 1)); [done|].
      eapply log_room_weaken; [exact Hroom|lia].
    + intros w s' exts' Hw W2 G' Hfull. rewrite <- !Z.add_assoc. apply (HQ (m + w) s' exts'); [lia | | |].
      * pose proof (written_step ip off e s exts (slice src 0 m) s2 exts1 (drop (Z.to_nat m) src) w s' exts') as H0.
        rewrite Hlx in H0. unfold slice in H0. rewrite drop_0, take_drop in H0. apply H0; try done; lia.
      * replace (2 * nblocks off (n - tot)) with (2 + 2 * nblocks (off + m) (n - (tot + m))) by lia.
        by eapply grown_trans.
      * intros. apply Hfull. lia.
  - intros s' E D Hfull G. cbn [Z.eqb]. step.
    replace tot with (tot + 0) by lia. replace off with (off + 0) by lia.
    apply (HQ 0 s' exts); [lia | | | done].
    + split; [done | | lia | by left]. rewrite Z.max_l by lia. unfold view. rewrite D.
      rewrite Z2Nat.inj_0, take_0. unfold splice. cbn [app length]. rewrite Nat.add_0_r. by rewrite take_drop.
    + eapply grown_weaken; [done|lia].
Qed.
End Write.

(** the inode's own block is allocated, holds no bitmap, and is not one of the
    file's blocks *)
Definition home_ok (s : fsys) (ip : nat) (exts : list (Z * Z)) : Prop :=
  let b := IBLOCK (i_inum (icache s !!! ip)) (sb s) in data_block s b /\ b ∉ cs_blocks exts.

Lemma fields_ok_cs i exts z a :
  fields_ok i -> cs_file (with_addrs a i) exts -> uint_ok z -> fields_ok (with_size z (with_addrs a i)).
Proof.
  intros [] [_ Hl Hr Ha] Hz. simpl in Ha. split; try done; simpl.
  - rewrite Ha, length_app, length_cs_table by done. done.
  - rewrite Ha. unfold cs_table. rewrite !Forall_app. assert (uint_ok 0) as H0 by (unfold uint_ok; lia).
    split_and!; [|by apply Forall_replicate | by apply Forall_singleton].
    apply Forall_fmap. eapply Forall_impl; [exact Hr|]. intros e He.
    destruct (cs_enc_decode e He) as (_ & _ & ?). unfold compose, uint_ok. lia.
Qed.

Lemma cs_span_limit s ip exts : cs_ok s ip exts -> cs_span exts <= MAXCSBLOCKS * BSIZE.
Proof.
  intros Hok. pose proof (ok_file _ _ _ Hok) as Hcs. pose proof (length_cs_blocks exts (cf_runs _ _ Hcs)).
  pose proof (cf_len _ _ Hcs). unfold cs_span, MAXCSBLOCKS. change NDIRECT with 12 in *. unfold CS_MAX_LENGTH in *.
  change BSIZE with 512. lia.
Qed.

(** the outcome of a write of [w] of the [n] bytes of [src] *)
Record write_done (ip : nat) (exts : list (Z * Z)) (src : list Z) (off n : Z) (s : fsys) (w : Z)
    (s' : fsys) (exts' : list (Z * Z)) : Prop := {
  wd_ok : cs_ok s' ip exts';
  wd_size : i_size (icache s' !!! ip) = Z.max (i_size (icache s !!! ip)) (off + w);
  wd_span : i_size (icache s' !!! ip) <= cs_span exts';
  wd_data : contents s' ip exts' = splice (contents s ip exts) off (take (Z.to_nat w) src);
  wd_full : w < n -> cs_full s' exts';
  wd_sync : synced s' ip;
  wd_log : Z.of_nat (length (lh s')) <= Z.of_nat (length (lh s)) + 2 * nblocks off n + 1
}.

Lemma written_home ip src off e s exts w s1 exts1 :
  home_ok s ip exts -> written ip src off e s exts w s1 exts1 -> (ip < length (icache s))%nat ->
  home_ok s1 ip exts1 /\ block_of s1 (IBLOCK (i_inum (icache s !!! ip)) (sb s)) =
                         block_of s (IBLOCK (i_inum (icache s !!! ip)) (sb s)).
Proof.
  intros [Hd Hn] [E _ _ _] Hip. destruct (ex_icache _ _ _ _ _ E) as (a & Ei).
  split; [|by apply (ex_other _ _ _ _ _ E)].
  unfold home_ok. rewrite Ei, with_addrs_at, (ex_sb _ _ _ _ _ E) by done. cbn [with_addrs i_inum]. split.
  - eapply data_block_mono; [apply E | apply E | done].
  - destruct (ex_new _ _ _ _ _ E) as (l & El & Hl). rewrite El. intros [?|Hin]%elem_of_app; [done|].
    rewrite Forall_forall in Hl. destruct Hd as (_ & Hu & _). by rewrite (Hl _ Hin) in Hu.
Qed.

(** recording a new size: [ip->size = z; iupdate(ip)] *)
Lemma size_update_ok ip exts z s (Q : unit -> fsys -> Prop) :
  cs_ok s ip exts -> home_ok s ip exts -> fields_ok (with_size z (icache s !!! ip)) ->
  0 <= i_inum (icache s !!! ip) -> log_room s 1 ->
  (forall s', cs_ok s' ip exts -> icache s' !!! ip = with_size z (icache s !!! ip) ->
     cs_data s' exts = cs_data s exts -> synced s' ip -> grown 1 s s' ->
     (forall c, 0 <= c < sb_size (sb s) -> used s' c = used s c) -> Q tt s') ->
  returns (upd_inode ip (with_size z) ;; iupdate ip) s Q.
Proof.
  intros [Hg Hip Hcs Ho] [(Hb1 & Hb2 & Hb3) Hn] Hf H0 Hr HQ. unfold upd_inode. step.
  set (s2 := set_icache (alter (with_size z) ip) s).
  assert (icache s2 !!! ip = with_size z (icache s !!! ip)) as E2 by (by apply upd_inode_at).
  apply iupdate_synced; rewrite ?E2; try done; [apply (g_len _ Hg)|].
  cbn [with_size i_inum]. intros s3 d Hlog HL Hsync _. pose proof Hlog as [F C B L].
  destruct (logged_data_geom _ d s2 s3 (geom_set_icache _ _ Hg) Hb3 HL Hlog) as [Hg3 Hu3].
  pose proof (f_sb _ _ _ F) as S3. pose proof (f_icache _ _ _ F) as I3. apply HQ.
  - split; [done | by rewrite I3; simpl; rewrite length_alter | |].
    + rewrite I3, E2. destruct Hcs. by split.
    + eapply (owned_mono s2); [done | | done]. intros c Hc Hc1. by rewrite Hu3.
  - by rewrite I3, E2.
  - apply Forall_bind_ext, Forall_forall. intros c Hc. rewrite (block_of_insert _ _ _ _ _ B), decide_False; [done|].
    by intros <-.
  - unfold synced. rewrite I3, E2. exact Hsync.
  - destruct F as [? ? Oo Gg]. split; done.
  - done.
Qed.

Lemma cs_full_same s s' exts :
  sb s' = sb s -> (forall c, 0 <= c < sb_size (sb s) -> used s' c = used s c) -> cs_full s exts -> cs_full s' exts.
Proof.
  intros S U [?|[?|Hall]]; unfold cs_full; rewrite S; [by left | by right; left |].
  do 2 right. intros c Hc. rewrite U by done. by apply Hall.
Qed.

Lemma view_contents s ip exts : view s exts (i_size (icache s !!! ip)) = contents s ip exts.
Proof. done. Qed.

(** the end of [writei]: the new size, when the file grew *)
Lemma write_size_ok ip exts src off n s w s1 exts1 (Q : unit -> fsys -> Prop) :
  cs_ok s ip exts -> fields_ok (icache s !!! ip) -> home_ok s ip exts -> synced s ip ->
  0 <= i_inum (icache s !!! ip) -> log_room s (2 * nblocks off n + 1) ->
  0 <= off <= i_size (icache s !!! ip) -> i_size (icache s !!! ip) <= cs_span exts -> 0 <= w <= n ->
  written ip src off (i_size (icache s !!! ip)) s exts w s1 exts1 ->
  grown (2 * nblocks off n) s s1 -> (w < n -> cs_full s1 exts1) ->
  (forall s', write_done ip exts src off n s w s' exts1 -> Q tt s') ->
  returns (if (0 <? n) && (i_size (icache s1 !!! ip) <? off + w)
           then upd_inode ip (with_size (off + w)) ;; iupdate ip else mret tt) s1 Q.
Proof.
  intros Hok Hf Hhome Hsync Hn0 Hroom Hoff Hspan Hw W G Hfull HQ. pose proof W as [E V L M].
  destruct (ex_icache _ _ _ _ _ E) as (a & Ei). pose proof (ok_ip _ _ _ Hok) as Hip.
  pose proof (ex_ok _ _ _ _ _ E) as Hok1. pose proof (ex_sb _ _ _ _ _ E) as S1.
  assert (icache s1 !!! ip = with_addrs a (icache s !!! ip)) as E1 by (by rewrite Ei, with_addrs_at).
  destruct (written_home _ _ _ _ _ _ _ _ _ Hhome W Hip) as [Hhome1 Hb1].
  pose proof (cs_span_limit _ _ _ Hok1) as Hlim. change (MAXCSBLOCKS * BSIZE) with 1566720 in Hlim.
  rewrite E1. cbn [with_addrs i_size].
  destruct (_ && _) eqn:Eg.
  - rewrite andb_true_iff, !Z.ltb_lt in Eg. rewrite Z.max_r in * by lia.
    apply (size_update_ok ip exts1); rewrite ?E1; try done.
    + eapply fields_ok_cs; [done | rewrite <- E1; apply Hok1 | unfold uint_ok; lia].
    + by eapply (grown_room (2 * nblocks off n)).
    + intros s3 Hok3 E3 D3 Sy3 G3 U3. apply HQ. cbn [with_addrs with_size i_size] in E3.
      split; rewrite ?E3; cbn [with_size with_addrs i_size]; try done; try lia.
      * rewrite <- view_contents, E3. cbn [with_size i_size]. unfold view. rewrite D3. exact V.
      * intros Hlt. eapply cs_full_same; [apply G3 | done | auto].
      * destruct G, G3. lia.
  - step. apply HQ.
    assert (Z.max (i_size (icache s !!! ip)) (off + w) = i_size (icache s !!! ip)) as Emax.
    { rewrite andb_false_iff, !Z.ltb_ge in Eg. lia. }
    assert (icache s1 = icache s) as Esame by (apply E; destruct M; [done|lia]).
    rewrite Emax in *. split; rewrite ?Esame; try done.
    + rewrite <- !view_contents, Esame. exact V.
    + unfold synced, disk_inode in *. rewrite Esame, S1, Hb1. exact Hsync.
    + destruct G. lia.
Qed.

Section WriteTheorem.
Context `{DevSw}.

Lemma writei_body_ok ip exts src off n s :
  cs_ok s ip exts -> fields_ok (icache s !!! ip) -> home_ok s ip exts -> synced s ip ->
  0 <= i_inum (icache s !!! ip) -> log_room s (2 * nblocks off n + 1) ->
  0 <= off <= i_size (icache s !!! ip) -> i_size (icache s !!! ip) <= cs_span exts ->
  0 <= n <= Z.of_nat (length src) -> off + n <= MAXCSBLOCKS * BSIZE ->
  returns (writei_body ip src off n) s (fun r s' => exists w exts', 0 <= w <= n /\
    r = (if (w =? 0) && (0 <? n) then -1 else w) /\ write_done ip exts src off n s w s' exts').
Proof.
  intros Hok Hf Hhome Hsync Hn0 Hroom Hoff Hspan Hn Hlim.
  change (MAXCSBLOCKS * BSIZE) with 1566720 in Hlim. unfold writei_body.
  apply returns_bind.
  apply (cs_writei_loop_ok _ ip exts off n 0 src (i_size (icache s !!! ip))); rewrite ?Z.sub_0_r; try done; try lia.
  { apply fuel_enough. lia. }
  intros w s1 exts1 Hw W G Hfull. unfold inode_at. step. apply returns_bind.
  eapply write_size_ok; try done. intros s2 D.
  assert (returns (if (0 + w =? 0) && (0 <? n) then mret (-1) else mret (i32 (0 + w)) : M fsys Z) s2
    (fun r s' => r = (if (w =? 0) && (0 <? n) then -1 else w) /\ s' = s2)) as HR.
  { rewrite Z.add_0_l. destruct (_ && _); step; [done|]. rewrite i32_small by lia. done. }
  eapply returns_mono; [exact HR|]. intros r s' [-> ->]. by exists w, exts1.
Qed.

(** C25: [writei] on a CS file.  It returns (its loop ends, and no panic: the
    transaction never overflows when it has room for two log slots per
    touched block and one more); a start past the end, a range that wraps
    around 2^32, or a start at the limit of 12 runs of 255 blocks is refused
    with no change; otherwise [w] bytes are written, the new contents are the
    old ones with those bytes stored at [off], the size is extended to cover
    them, the result is [w] (or -1 when nothing of a non-empty request could
    be written), a short write happens only when the file cannot grow, and
    the inode on disk equals the one in memory. *)
Theorem writei_cs_correct ip exts src off s :
  let i := icache s !!! ip in
  let n := Z.of_nat (length src) in
  let limit := MAXCSBLOCKS * BSIZE in
  cs_ok s ip exts -> fields_ok i -> home_ok s ip exts -> synced s ip -> 0 <= i_inum i ->
  log_room s (2 * nblocks off n + 1) -> 0 <= i_size i <= cs_span exts ->
  0 <= off < 2 ^ 32 -> n < 2 ^ 32 ->
  returns (writei ip src off n) s (fun r s' =>
    if (i_size i <? off) || (2 ^ 32 <=? off + n) || ((limit <? off + n) && (limit <=? off))
    then r = -1 /\ s' = s
    else
      let n' := Z.min n (limit - off) in
      exists w exts', 0 <= w <= n' /\ r = (if (w =? 0) && (0 <? n') then -1 else w) /\
        write_done ip exts src off n' s w s' exts').
Proof.
  intros i n limit Hok Hf Hhome Hsync Hn0 Hroom Hsz Hoff Hn. unfold writei, inode_at. step. fold i.
  pose proof (ok_file _ _ _ Hok) as Hcs. fold i in Hcs. rewrite (cf_type _ _ Hcs).
  change (T_CS =? T_DEV) with false. change (T_CS =? T_CS) with true. cbv iota. cbn [negb orb].
  fold limit. destruct (Z.ltb_spec (i_size i) off) as [Hso|Hso]; cbn [orb]; [by step|].
  assert (0 <= n) by lia.
  destruct (Z.leb_spec (2 ^ 32) (off + n)) as [Hov|Hov]; cbn [orb].
  { rewrite u32_wrap by lia. destruct (Z.ltb_spec (off + n - 2 ^ 32) off); [|lia]. by step. }
  rewrite u32_small by lia. destruct (Z.ltb_spec (off + n) off); [lia|].
  destruct (Z.ltb_spec limit (off + n)) as [Hl|Hl]; cbn [andb].
  - destruct (Z.leb_spec limit off); [by step|]. rewrite Z.min_r by lia.
    apply returns_bind, cprintf_ok.
    pose proof (nblocks_mono off (limit - off) n ltac:(lia) ltac:(lia)) as Hmono.
    set (s0 := mkfs _ _ _ _ _ _).
    assert (returns (writei_body ip src off (limit - off)) s0 (fun r s' => exists w exts', 0 <= w <= limit - off /\
      r = (if (w =? 0) && (0 <? limit - off) then -1 else w) /\ write_done ip exts src off (limit - off) s0 w s' exts')) as HW.
    { apply writei_body_ok; try done; try lia.
      - destruct Hok. split; try done. by apply console_geom.
      - eapply (log_room_weaken s); [exact Hroom | lia].
      - change (0 <= off <= i_size i). lia.
      - change (i_size i <= cs_span exts). lia. }
    eapply returns_mono; [exact HW|]. intros r s' (w & exts' & Hw & -> & D).
    exists w, exts'. split; [done|]. split; [done|]. destruct D. by split.
  - rewrite Z.min_l by lia. apply writei_body_ok; try done; fold i; fold limit; lia.
Qed.
End WriteTheorem.

Lemma demo_cs_ok : cs_ok (demo_fs [demo_cs]) 0 [].
Proof.
  split; [apply demo_geom | vm_compute; lia | exact demo_cs_file |].
  split; [by apply (bool_decide_unpack _); vm_compute | constructor].
Qed.

Lemma readi_cs_correct_witness :
  readi (H := no_devs) 0 0 7 (demo_fs [demo_cs]) = Ok ((0, []), demo_fs [demo_cs]).
Proof.
  rewrite (readi_cs_correct (H := no_devs) 0 [] 0 7 (demo_fs [demo_cs]) demo_cs_ok);
    [reflexivity | lia | lia | vm_compute; split; congruence].
Defined.

Definition demo_inum1 : inode := mkinode 1 1 1 true true T_CS 0 0 1 0 (replicate 13 0).
(** the demo image with [demo_inum1] also on disk *)
Definition demo_sync : fsys := set_blk (fun m => <[2 := splice zero_block 64 (dinode_bytes demo_inum1)]> m)
  (demo_fs [demo_inum1]).

Lemma demo_inum1_fields : bool_decide (fields_ok demo_inum1).
Proof. vm_compute. exact I. Qed.

Lemma demo_sync_block b :
  block_of demo_sync b = if decide (2 = b) then splice zero_block 64 (dinode_bytes demo_inum1) else block_of (demo_fs []) b.
Proof. by apply (block_of_insert (demo_fs []) demo_sync). Qed.

Lemma demo_sync_ok : cs_ok demo_sync 0 [].
Proof.
  pose proof (demo_geom []) as [G1 G2 G3 G4 G5].
  assert (forall c, 0 <= c < 40 -> used demo_sync c = used (demo_fs []) c) as Hu.
  { intros c Hc. unfold used. rewrite demo_sync_block. change (sb demo_sync) with demo_sb.
    change (sb (demo_fs [])) with demo_sb. by rewrite demo_bblock. }
  split; [| vm_compute; lia | by split |].
  - split; try done.
    + intros b. rewrite demo_sync_block. case_decide; [reflexivity | apply G2].
    + intros b Hb. rewrite Hu by (by apply G4). by apply G5.
  - split; [by apply (bool_decide_unpack _); vm_compute | constructor].
Qed.

Lemma writei_cs_correct_witness :
  returns (writei (H := no_devs) 0 [104; 105] 0 2) demo_sync (fun r s' =>
    exists w exts', r = (if (w =? 0) then -1 else w) /\ 0 <= w <= 2 /\
      contents s' 0 exts' = take (Z.to_nat w) [104; 105] /\ synced s' 0).
Proof.
  eapply returns_mono.
  - apply (writei_cs_correct (H := no_devs) 0 [] [104; 105] 0 demo_sync); try (vm_compute; split; congruence).
    + exact demo_sync_ok.
    + apply (bool_decide_unpack _ demo_inum1_fields).
    + split; [|by apply not_elem_of_nil]. split; [vm_compute; split; reflexivity|].
      split; [vm_compute; reflexivity|]. intros c Hc. change (2 <> BBLOCK c demo_sb). by rewrite demo_bblock.
    + vm_compute. congruence.
  - cbv beta zeta. intros r s' (w & exts' & Hw & Hr & D). exists w, exts'.
    split; [by rewrite andb_true_r in Hr|]. split; [exact Hw|].
    split; [|apply D]. rewrite (wd_data _ _ _ _ _ _ _ _ _ D). vm_compute (contents demo_sync 0 []).
    unfold splice. cbn [app take Z.to_nat]. by rewrite drop_nil, app_nil_r.
Defined.
