(* ===== verification/Vm.v ===== *)
(** * Physical pages and page tables with demand allocation

    [kalloc.c], [vm.c], [growproc] of [proc.c], [sys_sbrk], [sys_ssualloc],
    [sys_getvp] and [sys_getpp] of [sysproc.c] and the page-fault case of
    [trap] of the xv6-lazy-allocation-multilevel-fs kernel.

    Memory is a byte for every kernel virtual address, as the direct map gives
    it: the free list is threaded through the free pages, and page directories
    and page tables are words of it.  [end] and [data] are symbols of the linker
    script. *)

From S2P Require Import Prelude.

Definition PGSIZE : Z := 4096.
Definition KERNBASE : Z := 0x80000000.
Definition EXTMEM : Z := 0x100000.
Definition PHYSTOP : Z := 0xE000000.
Definition DEVSPACE : Z := 0xFE000000.
Definition KERNLINK : Z := KERNBASE + EXTMEM.
Definition NPDENTRIES : Z := 1024.
Definition PTE_P : Z := 0x001.
Definition PTE_W : Z := 0x002.
Definition PTE_U : Z := 0x004.
Definition PTE_SSU : Z := 0x200.

Definition PDX (va : Z) : Z := Z.land (Z.shiftr va 22) 0x3FF.
Definition PTX (va : Z) : Z := Z.land (Z.shiftr va 12) 0x3FF.
Definition PGADDR (d t o : Z) : Z := u32 (Z.lor (Z.lor (Z.shiftl d 22) (Z.shiftl t 12)) o).
Definition PGROUNDUP (sz : Z) : Z := Z.land (u32 (sz + PGSIZE - 1)) (Z.lnot (PGSIZE - 1)).
Definition PGROUNDDOWN (a : Z) : Z := Z.land a (Z.lnot (PGSIZE - 1)).
Definition PTE_ADDR (pte : Z) : Z := Z.land pte (Z.lnot 0xFFF).
Definition PTE_FLAGS (pte : Z) : Z := Z.land pte 0xFFF.
Definition V2P (a : Z) : Z := u32 (a - KERNBASE).
Definition P2V (a : Z) : Z := u32 (a + KERNBASE).

(** [*pte & flag] is not zero *)
Definition has (pte flag : Z) : bool := negb (Z.land pte flag =? 0).

(** the machine: memory, the head of the free list, and the running process's
    fields that this code uses *)
Record mach : Type := mkmach {
  mem : Z -> Z;
  freelist : Z;        (** [kmem.freelist]; 0 is the null pointer *)
  p_sz : Z;
  p_pgdir : Z;
  p_killed : bool;
  con : list string
}.

Definition set_mem (f : (Z -> Z) -> Z -> Z) (s : mach) : mach :=
  mkmach (f (mem s)) (freelist s) (p_sz s) (p_pgdir s) (p_killed s) (con s).
Definition set_freelist (r : Z) (s : mach) : mach :=
  mkmach (mem s) r (p_sz s) (p_pgdir s) (p_killed s) (con s).
Definition set_sz (z : Z) (s : mach) : mach :=
  mkmach (mem s) (freelist s) z (p_pgdir s) (p_killed s) (con s).
Definition set_killed (s : mach) : mach :=
  mkmach (mem s) (freelist s) (p_sz s) (p_pgdir s) true (con s).
Definition kprintf (msg : string) : M mach unit := modify (fun s =>
  mkmach (mem s) (freelist s) (p_sz s) (p_pgdir s) (p_killed s) (con s ++ [msg])).

(** 32-bit words of memory *)
Definition rd32 (m : Z -> Z) (p : Z) : Z := m p + 256 * (m (p + 1) + 256 * (m (p + 2) + 256 * m (p + 3))).
Definition wr32 (p v : Z) (m : Z -> Z) : Z -> Z := fun a =>
  if (p <=? a) && (a <? p + 4) then (v / 256 ^ (a - p)) mod 256 else m a.
Definition load (p : Z) : M mach Z := gets (fun s => rd32 (mem s) p).
Definition store (p v : Z) : M mach unit := modify (set_mem (wr32 p v)).

(** [memset] and [memmove] on memory *)
Definition fill (p c n : Z) (m : Z -> Z) : Z -> Z := fun a =>
  if (p <=? a) && (a <? p + n) then u8 c else m a.
Definition copy_bytes (dst : Z) (src : Z -> Z) (n : Z) (m : Z -> Z) : Z -> Z := fun a =>
  if (dst <=? a) && (a <? dst + n) then src (a - dst) else m a.
Definition memset (p c n : Z) : M mach unit := modify (set_mem (fill p c n)).
Definition memmove (dst src n : Z) : M mach unit :=
  modify (set_mem (fun m => copy_bytes dst (fun i => m (src + i)) n m)).

(** the linker's symbols *)
Class Layout : Type := { end_ : Z; data_ : Z }.

Section Vm.
Context `{Layout}.

(** [kfree] *)
Definition kfree (v : Z) : M mach unit :=
  if negb (v mod PGSIZE =? 0) || (v <? end_) || (PHYSTOP <=? V2P v) then panic "kfree"
  else
    memset v 1 PGSIZE ;;
    s ← get;
    store v (freelist s) ;;
    modify (set_freelist v).

(** [kalloc] *)
Definition kalloc : M mach Z :=
  s ← get;
  let r := freelist s in
  if r =? 0 then mret 0
  else
    next ← load r;
    modify (set_freelist next) ;;
    mret r.

Fixpoint freerange_loop (fuel : nat) (p vend : Z) : M mach unit :=
  match fuel with
  | O => block
  | S fuel' => if p + PGSIZE <=? vend then kfree p ;; freerange_loop fuel' (p + PGSIZE) vend else mret tt
  end.

(** [freerange] *)
Definition freerange (vstart vend : Z) : M mach unit :=
  freerange_loop (Z.to_nat ((vend - vstart) / PGSIZE + 2)) (PGROUNDUP vstart) vend.

(** [walkpgdir]: the address of the page-table entry, or 0 *)
Definition walkpgdir (pgdir va : Z) (alloc : bool) : M mach Z :=
  let pde := pgdir + 4 * PDX va in
  e ← load pde;
  if has e PTE_P then mret (P2V (PTE_ADDR e) + 4 * PTX va)
  else if negb alloc then mret 0
  else
    pgtab ← kalloc;
    if pgtab =? 0 then mret 0
    else
      memset pgtab 0 PGSIZE ;;
      store pde (Z.lor (Z.lor (Z.lor (V2P pgtab) PTE_P) PTE_W) PTE_U) ;;
      mret (pgtab + 4 * PTX va).

Fixpoint mappages_loop (fuel : nat) (pgdir a last pa perm : Z) : M mach Z :=
  match fuel with
  | O => block
  | S fuel' =>
      pte ← walkpgdir pgdir a true;
      if pte =? 0 then mret (-1)
      else
        e ← load pte;
        if has e PTE_P then panic "remap"
        else
          store pte (Z.lor (Z.lor pa perm) PTE_P) ;;
          if a =? last then mret 0
          else mappages_loop fuel' pgdir (u32 (a + PGSIZE)) last (u32 (pa + PGSIZE)) perm
  end.

(** [mappages] *)
Definition mappages (pgdir va size pa perm : Z) : M mach Z :=
  let a := PGROUNDDOWN va in
  let last := PGROUNDDOWN (u32 (va + size - 1)) in
  mappages_loop (Z.to_nat (u32 size / PGSIZE + 2)) pgdir a last pa perm.

Fixpoint deallocuvm_loop (fuel : nat) (pgdir a oldsz : Z) : M mach unit :=
  match fuel with
  | O => block
  | S fuel' =>
      if a <? oldsz then
        pte ← walkpgdir pgdir a false;
        if pte =? 0 then
          let a := u32 (PGADDR (PDX a + 1) 0 0 - PGSIZE) in
          deallocuvm_loop fuel' pgdir (u32 (a + PGSIZE)) oldsz
        else
          e ← load pte;
          (if has e PTE_P then
             let pa := PTE_ADDR e in
             if pa =? 0 then panic "kfree" else kfree (P2V pa) ;; store pte 0
           else if has e PTE_SSU then store pte 0
           else mret tt) ;;
          deallocuvm_loop fuel' pgdir (u32 (a + PGSIZE)) oldsz
      else mret tt
  end.

(** [deallocuvm] *)
Definition deallocuvm (pgdir oldsz newsz : Z) : M mach Z :=
  if oldsz <=? newsz then mret oldsz
  else
    deallocuvm_loop (Z.to_nat ((oldsz - newsz) / PGSIZE + 2)) pgdir (PGROUNDUP newsz) oldsz ;;
    mret newsz.

Fixpoint freevm_loop (k : nat) (pgdir i : Z) : M mach unit :=
  match k with
  | O => mret tt
  | S k' =>
      e ← load (pgdir + 4 * i);
      (if has e PTE_P then kfree (P2V (PTE_ADDR e)) else mret tt) ;;
      freevm_loop k' pgdir (i + 1)
  end.

(** [freevm] *)
Definition freevm (pgdir : Z) : M mach unit :=
  if pgdir =? 0 then panic "freevm: no pgdir"
  else
    deallocuvm pgdir KERNBASE 0 ;;
    freevm_loop (Z.to_nat NPDENTRIES) pgdir 0 ;;
    kfree pgdir.

(** [kmap]: virtual start, physical start and end, permissions *)
Definition kmap : list (Z * Z * Z * Z) :=
  [ (KERNBASE, 0, EXTMEM, PTE_W);
    (KERNLINK, V2P KERNLINK, V2P data_, 0);
    (data_, V2P data_, PHYSTOP, PTE_W);
    (DEVSPACE, DEVSPACE, 0, PTE_W) ].

Fixpoint setupkvm_loop (ks : list (Z * Z * Z * Z)) (pgdir : Z) : M mach Z :=
  match ks with
  | [] => mret pgdir
  | (virt, pstart, pend, perm) :: ks' =>
      r ← mappages pgdir virt (u32 (pend - pstart)) pstart perm;
      if r <? 0 then freevm pgdir ;; mret 0
      else setupkvm_loop ks' pgdir
  end.

(** [setupkvm] *)
Definition setupkvm : M mach Z :=
  pgdir ← kalloc;
  if pgdir =? 0 then mret 0
  else
    memset pgdir 0 PGSIZE ;;
    if DEVSPACE <? P2V PHYSTOP then panic "PHYSTOP too high"
    else setupkvm_loop kmap pgdir.

(** [inituvm] *)
Definition inituvm (pgdir : Z) (init : Z -> Z) (sz : Z) : M mach unit :=
  if PGSIZE <=? sz then panic "inituvm: more than a page"
  else
    m ← kalloc;
    memset m 0 PGSIZE ;;
    _ ← mappages pgdir 0 PGSIZE (V2P m) (Z.lor PTE_W PTE_U);
    modify (set_mem (copy_bytes m init sz)).

Fixpoint allocuvm_loop (fuel : nat) (pgdir a oldsz newsz : Z) : M mach Z :=
  match fuel with
  | O => block
  | S fuel' =>
      if a <? newsz then
        m ← kalloc;
        if m =? 0 then
          kprintf "allocuvm out of memory" ;;
          deallocuvm pgdir newsz oldsz ;;
          mret 0
        else
          memset m 0 PGSIZE ;;
          r ← mappages pgdir a PGSIZE (V2P m) (Z.lor PTE_W PTE_U);
          if r <? 0 then
            kprintf "allocuvm out of memory (2)" ;;
            deallocuvm pgdir newsz oldsz ;;
            kfree m ;;
            mret 0
          else allocuvm_loop fuel' pgdir (u32 (a + PGSIZE)) oldsz newsz
      else mret newsz
  end.

(** [allocuvm] *)
Definition allocuvm (pgdir oldsz newsz : Z) : M mach Z :=
  if KERNBASE <=? newsz then mret 0
  else if newsz <? oldsz then mret oldsz
  else allocuvm_loop (Z.to_nat ((newsz - oldsz) / PGSIZE + 2)) pgdir (PGROUNDUP oldsz) oldsz newsz.

(** the [bad:] path of [reservessuvm] *)
Fixpoint reserve_undo (fuel : nat) (pgdir a start : Z) : M mach unit :=
  match fuel with
  | O => block
  | S fuel' =>
      if start <? a then
        let a := a - PGSIZE in
        pte ← walkpgdir pgdir a false;
        (if pte =? 0 then mret tt
         else
           e ← load pte;
           if has e PTE_SSU && negb (has e PTE_P) then store pte 0 else mret tt) ;;
        reserve_undo fuel' pgdir a start
      else mret tt
  end.

Fixpoint reserve_loop (fuel : nat) (pgdir a start newsz : Z) : M mach Z :=
  match fuel with
  | O => block
  | S fuel' =>
      let bad := reserve_undo (Z.to_nat ((a - start) / PGSIZE + 1)) pgdir a start ;; mret 0 in
      if a <? newsz then
        pte ← walkpgdir pgdir a true;
        if pte =? 0 then bad
        else
          e ← load pte;
          if has e (Z.lor PTE_P PTE_SSU) then bad
          else
            store pte (Z.lor (Z.lor PTE_W PTE_U) PTE_SSU) ;;
            reserve_loop fuel' pgdir (u32 (a + PGSIZE)) start newsz
      else mret newsz
  end.

(** [reservessuvm] *)
Definition reservessuvm (pgdir oldsz newsz : Z) : M mach Z :=
  if (KERNBASE <=? newsz) || (newsz <? oldsz) then mret 0
  else
    let start := PGROUNDUP oldsz in
    reserve_loop (Z.to_nat ((newsz - oldsz) / PGSIZE + 2)) pgdir start start newsz.

(** [allocssupage] *)
Definition allocssupage (pgdir va : Z) : M mach Z :=
  let a := PGROUNDDOWN va in
  if KERNBASE <=? a then mret (-1)
  else
    pte ← walkpgdir pgdir a false;
    if pte =? 0 then mret (-1)
    else
      e ← load pte;
      if has e PTE_P || negb (has e PTE_SSU) then mret (-1)
      else
        m ← kalloc;
        if m =? 0 then mret (-1)
        else
          memset m 0 PGSIZE ;;
          store pte (Z.lor (Z.lor (Z.lor (V2P m) PTE_P) PTE_W) PTE_U) ;;
          mret 0.

Fixpoint countphys_loop (fuel : nat) (pgdir a sz count : Z) : M mach Z :=
  match fuel with
  | O => block
  | S fuel' =>
      if a <? sz then
        pte ← walkpgdir pgdir a false;
        e ← (if pte =? 0 then mret 0 else load pte);
        countphys_loop fuel' pgdir (u32 (a + PGSIZE)) sz (if negb (pte =? 0) && has e PTE_P then count + 1 else count)
      else mret count
  end.

(** [countphyspages] *)
Definition countphyspages (pgdir sz : Z) : M mach Z := countphys_loop (Z.to_nat (sz / PGSIZE + 2)) pgdir 0 sz 0.

(** [clearpteu] *)
Definition clearpteu (pgdir uva : Z) : M mach unit :=
  pte ← walkpgdir pgdir uva false;
  if pte =? 0 then panic "clearpteu"
  else e ← load pte; store pte (Z.land e (Z.lnot PTE_U)).

Fixpoint copyuvm_loop (fuel : nat) (pgdir d i sz : Z) : M mach Z :=
  match fuel with
  | O => block
  | S fuel' =>
      let bad := freevm d ;; mret 0 in
      let continue_ := copyuvm_loop fuel' pgdir d (u32 (i + PGSIZE)) sz in
      if i <? sz then
        pte ← walkpgdir pgdir i false;
        if pte =? 0 then continue_
        else
          e ← load pte;
          if negb (has e PTE_P) then
            if negb (has e PTE_SSU) then continue_
            else
              dpte ← walkpgdir d i true;
              if dpte =? 0 then bad
              else store dpte (Z.lor (Z.lor PTE_W PTE_U) PTE_SSU) ;; continue_
          else
            m ← kalloc;
            if m =? 0 then bad
            else
              memmove m (P2V (PTE_ADDR e)) PGSIZE ;;
              r ← mappages d i PGSIZE (V2P m) (PTE_FLAGS e);
              if r <? 0 then kfree m ;; bad else continue_
      else mret d
  end.

(** [copyuvm] *)
Definition copyuvm (pgdir sz : Z) : M mach Z :=
  d ← setupkvm;
  if d =? 0 then mret 0 else copyuvm_loop (Z.to_nat (sz / PGSIZE + 2)) pgdir d 0 sz.

(** [uva2ka] *)
Definition uva2ka (pgdir uva : Z) : M mach Z :=
  pte ← walkpgdir pgdir uva false;
  if pte =? 0 then mret 0
  else
    e ← load pte;
    if negb (has e PTE_P) then mret 0
    else if negb (has e PTE_U) then mret 0
    else mret (P2V (PTE_ADDR e)).

Fixpoint copyout_loop (fuel : nat) (pgdir va : Z) (buf : Z -> Z) (len : Z) : M mach Z :=
  match fuel with
  | O => block
  | S fuel' =>
      if 0 <? len then
        let va0 := PGROUNDDOWN va in
        pa0 ← uva2ka pgdir va0;
        r ← (if pa0 =? 0 then allocssupage pgdir va0 else mret (-1));
        pa0 ← (if r =? 0 then uva2ka pgdir va0 else mret pa0);
        if pa0 =? 0 then mret (-1)
        else
          let n := Z.min (PGSIZE - (va - va0)) len in
          modify (set_mem (copy_bytes (pa0 + (va - va0)) buf n)) ;;
          copyout_loop fuel' pgdir (u32 (va0 + PGSIZE)) (fun i => buf (n + i)) (len - n)
      else mret 0
  end.

(** [copyout] *)
Definition copyout (pgdir va : Z) (p : Z -> Z) (len : Z) : M mach Z :=
  copyout_loop (Z.to_nat (len / PGSIZE + 3)) pgdir va p len.

(** [growproc]; reloading the page table ([switchuvm]) changes no modelled state *)
Definition growproc (n : Z) : M mach Z :=
  s ← get;
  let sz := p_sz s in
  if 0 <? n then
    sz ← allocuvm (p_pgdir s) sz (u32 (sz + n));
    if sz =? 0 then mret (-1) else modify (set_sz sz) ;; mret 0
  else if n <? 0 then
    sz ← deallocuvm (p_pgdir s) sz (u32 (sz + n));
    if sz =? 0 then mret (-1) else modify (set_sz sz) ;; mret 0
  else mret 0.

(** [sys_sbrk]; [arg] is what [argint] fetched *)
Definition sys_sbrk (arg : option Z) : M mach Z :=
  match arg with
  | None => mret (-1)
  | Some n =>
      s ← get;
      let addr := i32 (p_sz s) in
      r ← growproc n;
      if r <? 0 then mret (-1) else mret addr
  end.

(** [sys_ssualloc] *)
Definition sys_ssualloc (arg : option Z) : M mach Z :=
  match arg with
  | None => mret (-1)
  | Some n =>
      if (n <=? 0) || negb (n mod PGSIZE =? 0) then mret (-1)
      else
        s ← get;
        let oldsz := p_sz s in
        let base := PGROUNDUP oldsz in
        let newsz := u32 (base + u32 n) in
        if (base <? oldsz) || (newsz <? base) || (KERNBASE <=? newsz) then mret (-1)
        else
          r ← reservessuvm (p_pgdir s) base newsz;
          if r =? 0 then mret (-1)
          else modify (set_sz newsz) ;; mret (i32 base)
  end.

(** [sys_getvp], [sys_getpp] *)
Definition sys_getvp : M mach Z := s ← get; mret (PGROUNDUP (p_sz s) / PGSIZE).
Definition sys_getpp : M mach Z := s ← get; countphyspages (p_pgdir s) (p_sz s).

(** the [T_PGFLT] case of [trap], for a process in user mode: [err] is the
    error code and [cr2] the faulting address; true when the fault was served,
    and otherwise the process is marked killed *)
Definition trap_pgflt (err cr2 : Z) : M mach bool :=
  s ← get;
  r ← (if Z.land err 1 =? 0 then allocssupage (p_pgdir s) cr2 else mret (-1));
  if r =? 0 then mret true
  else kprintf "kill proc" ;; modify set_killed ;; mret false.
End Vm.

(** ** Words of memory *)

Definition agree (P : Z -> Prop) (m m' : Z -> Z) : Prop := forall a, P (a - a mod PGSIZE) -> m' a = m a.

Lemma rd32_wr32_same p v m : rd32 (wr32 p v m) p = u32 v.
Proof.
  unfold rd32, wr32, u32.
  repeat match goal with |- context [(p <=? ?a) && (?a <? p + 4)] =>
    replace ((p <=? a) && (a <? p + 4)) with true by (symmetry; rewrite andb_true_iff, Z.leb_le, Z.ltb_lt; lia) end.
  replace (p - p) with 0 by lia. replace (p + 1 - p) with 1 by lia. replace (p + 2 - p) with 2 by lia.
  replace (p + 3 - p) with 3 by lia. change (256 ^ 0) with 1. change (256 ^ 1) with 256.
  change (256 ^ 2) with (256 * 256). change (256 ^ 3) with (256 * 256 * 256). rewrite Z.div_1_r.
  rewrite <- !Z.div_div by lia. change (2 ^ 32) with (256 * (256 * (256 * 256))).
  rewrite (Z.rem_mul_r v 256 (256 * (256 * 256))) by lia.
  rewrite (Z.rem_mul_r (v / 256) 256 (256 * 256)) by lia.
  rewrite (Z.rem_mul_r (v / 256 / 256) 256 256) by lia. done.
Qed.

Lemma rd32_same m m' p : (forall i, 0 <= i < 4 -> m' (p + i) = m (p + i)) -> rd32 m' p = rd32 m p.
Proof.
  intros E. unfold rd32. pose proof (E 0 ltac:(lia)) as E0. rewrite Z.add_0_r in E0.
  by rewrite E0, !E by lia.
Qed.

Lemma page_of_word p i : p mod 4 = 0 -> 0 <= i < 4 -> (p + i) - (p + i) mod PGSIZE = p - p mod PGSIZE.
Proof.
  change PGSIZE with 4096. intros H4 Hi.
  assert (p mod 4096 mod 4 = 0) as E by (rewrite <- Znumtheory.Zmod_div_mod by (try lia; by exists 1024); done).
  pose proof (Z.mod_pos_bound p 4096 ltac:(lia)).
  assert (p mod 4096 + i < 4096) by (Z.div_mod_to_equations; lia).
  assert ((p + i) mod 4096 = p mod 4096 + i) as ->; [|lia].
  rewrite <- Z.add_mod_idemp_l by lia. apply Z.mod_small. lia.
Qed.

Lemma agree_rd32 P m m' p : agree P m m' -> p mod 4 = 0 -> P (p - p mod PGSIZE) -> rd32 m' p = rd32 m p.
Proof.
  intros Ha H4 HP. apply rd32_same. intros i Hi. apply Ha. by rewrite page_of_word.
Qed.

Lemma wr32_out p v m a : (a < p \/ p + 4 <= a) -> wr32 p v m a = m a.
Proof.
  intros H0. unfold wr32. replace ((p <=? a) && (a <? p + 4)) with false; [done|].
  symmetry. rewrite andb_false_iff, Z.leb_gt, Z.ltb_ge. lia.
Qed.

Lemma rd32_wr32_other p q v m : p mod 4 = 0 -> q mod 4 = 0 -> p <> q -> rd32 (wr32 p v m) q = rd32 m q.
Proof. intros Hp Hq Hne. apply rd32_same. intros i Hi. apply wr32_out. Z.div_mod_to_equations. lia. Qed.

Lemma agree_wr32 p v m : p mod 4 = 0 -> agree (fun x => x <> p - p mod PGSIZE) m (wr32 p v m).
Proof.
  intros H4 a Ha. apply wr32_out. destruct (decide (a < p \/ p + 4 <= a)) as [|Hn]; [done|].
  exfalso. apply Ha. replace a with (p + (a - p)) by lia. apply page_of_word; [done|lia].
Qed.

Lemma agree_fill p c m : p mod PGSIZE = 0 -> agree (fun x => x <> p) m (fill p c PGSIZE m).
Proof.
  change PGSIZE with 4096. intros Hp a Ha. unfold fill. change PGSIZE with 4096 in *.
  replace ((p <=? a) && (a <? p + 4096)) with false; [done|].
  symmetry. apply not_true_iff_false. rewrite andb_true_iff, Z.leb_le, Z.ltb_lt. intros [H1 H2]. apply Ha.
  Z.div_mod_to_equations. lia.
Qed.

Lemma fill_in p c n m a : p <= a < p + n -> fill p c n m a = u8 c.
Proof.
  intros Ha. unfold fill. replace ((p <=? a) && (a <? p + n)) with true; [done|].
  symmetry. rewrite andb_true_iff, Z.leb_le, Z.ltb_lt. lia.
Qed.

Lemma agree_mono (P Q : Z -> Prop) m m' : agree P m m' -> (forall x, Q x -> P x) -> agree Q m m'.
Proof. intros Ha HQ a Hq. apply Ha. auto. Qed.

Lemma agree_trans P m1 m2 m3 : agree P m1 m2 -> agree P m2 m3 -> agree P m1 m3.
Proof. intros H1 H2 a Ha. rewrite H2, H1; done. Qed.

(** ** Page-table entries *)

Section Layouts.
Context `{Layout}.

Definition page_ok (v : Z) : Prop := v mod PGSIZE = 0 /\ end_ <= v /\ KERNBASE <= v < KERNBASE + PHYSTOP.

Lemma V2P_page v : page_ok v -> V2P v = v - KERNBASE /\ 0 <= v - KERNBASE < PHYSTOP /\ (v - KERNBASE) mod 4096 = 0.
Proof.
  intros (H1 & _ & H3). unfold V2P. change KERNBASE with 2147483648 in *. change PHYSTOP with 234881024 in *.
  change PGSIZE with 4096 in *.
  rewrite u32_small by lia. split; [done|]. split; [lia|]. Z.div_mod_to_equations. lia.
Qed.

(** an entry for page [v] with flag bits [f] *)
Section Entry.
Context (v f : Z).
Hypothesis Hv : page_ok v.
Hypothesis Hf : 0 <= f < 4096.

Lemma lor_entry : Z.lor (V2P v) f = V2P v + f.
Proof using Hv Hf.
  destruct (V2P_page v Hv) as (-> & Hr & Hm). set (k := v - KERNBASE) in *.
  symmetry. rewrite Z.add_comm, Z.lor_comm. apply Z.bits_inj'. intros n Hn. rewrite Z.lor_spec.
  assert (k = (k / 4096) * 2 ^ 12) as Ek by (change (2 ^ 12) with 4096; Z.div_mod_to_equations; lia).
  destruct (Z.lt_ge_cases n 12).
  - rewrite <- (Z.mod_pow2_bits_low (f + k) 12), <- (Z.mod_pow2_bits_low k 12) by lia.
    change (2 ^ 12) with 4096. rewrite Hm, Z.bits_0, orb_false_r.
    rewrite <- Z.add_mod_idemp_r, Hm, Z.add_0_r, Z.mod_small by lia. done.
  - replace n with (n - 12 + 12) by lia. rewrite <- !Z.div_pow2_bits by lia. change (2 ^ 12) with 4096.
    rewrite (Z.div_small f), Z.bits_0 by lia. cbn [orb]. f_equal. Z.div_mod_to_equations. lia.
Qed.

Lemma entry_addr : PTE_ADDR (Z.lor (V2P v) f) = V2P v.
Proof using Hv Hf.
  unfold PTE_ADDR. rewrite lor_entry. destruct (V2P_page v Hv) as (-> & Hr & Hm).
  change 0xFFF with (Z.ones 12). rewrite <- Z.ldiff_land, Z.ldiff_ones_r by lia.
  rewrite Z.shiftr_div_pow2, Z.shiftl_mul_pow2 by lia. change (2 ^ 12) with 4096. Z.div_mod_to_equations. lia.
Qed.

Lemma entry_page : P2V (PTE_ADDR (Z.lor (V2P v) f)) = v.
Proof using Hv Hf.
  rewrite entry_addr. destruct (V2P_page v Hv) as (-> & Hr & Hm). unfold P2V.
  change KERNBASE with 2147483648 in *. change PHYSTOP with 234881024 in *. rewrite u32_small; lia.
Qed.

Lemma entry_flags g : 0 <= g < 4096 -> has (Z.lor (V2P v) f) g = has f g.
Proof using Hv Hf.
  intros Hg. unfold has. do 2 f_equal. destruct (V2P_page v Hv) as (-> & Hr & Hm).
  apply Z.bits_inj'. intros n Hn. rewrite !Z.land_spec, Z.lor_spec.
  destruct (Z.lt_ge_cases n 12).
  - rewrite <- (Z.mod_pow2_bits_low (v - KERNBASE) 12) by lia. change (2 ^ 12) with 4096.
    by rewrite Hm, Z.bits_0.
  - assert (Z.testbit g n = false) as ->; [|by rewrite !andb_false_r].
    rewrite <- (Z.mod_small g (2 ^ 12)) by lia. apply Z.mod_pow2_bits_high. lia.
Qed.

Lemma entry_range : 0 <= Z.lor (V2P v) f < 2 ^ 32.
Proof using Hv Hf.
  rewrite lor_entry. destruct (V2P_page v Hv) as (-> & Hr & Hm). change PHYSTOP with 234881024 in *. lia.
Qed.
End Entry.

Lemma PTX_range va : 0 <= PTX va < 1024.
Proof. unfold PTX. change 0x3FF with (Z.ones 10). rewrite Z.land_ones by lia. apply Z.mod_pos_bound. lia. Qed.
Lemma PDX_range va : 0 <= PDX va < 1024.
Proof. unfold PDX. change 0x3FF with (Z.ones 10). rewrite Z.land_ones by lia. apply Z.mod_pos_bound. lia. Qed.

Lemma PDX_eq va : 0 <= va < 2 ^ 32 -> PDX va = va / 4096 / 1024.
Proof.
  intros Hva. unfold PDX. change 0x3FF with (Z.ones 10). rewrite Z.land_ones, Z.shiftr_div_pow2 by lia.
  rewrite Z.div_div by lia. change (4096 * 1024) with (2 ^ 22).
  apply Z.mod_small. change (2 ^ 10) with 1024. change (2 ^ 22) with 4194304. Z.div_mod_to_equations. lia.
Qed.
Lemma PTX_eq va : 0 <= va < 2 ^ 32 -> PTX va = (va / 4096) mod 1024.
Proof.
  intros Hva. unfold PTX. change 0x3FF with (Z.ones 10). rewrite Z.land_ones, Z.shiftr_div_pow2 by lia. done.
Qed.

Lemma PG_same_page a b : 0 <= a < 2 ^ 32 -> 0 <= b < 2 ^ 32 -> PDX a = PDX b -> PTX a = PTX b -> a / 4096 = b / 4096.
Proof. intros Ha Hb. rewrite !PDX_eq, !PTX_eq by done. intros. Z.div_mod_to_equations. lia. Qed.

Lemma PG_of_page a b : 0 <= a < 2 ^ 32 -> 0 <= b < 2 ^ 32 -> a / 4096 = b / 4096 -> PDX a = PDX b /\ PTX a = PTX b.
Proof. intros Ha Hb E. rewrite !PDX_eq, !PTX_eq, E by done. done. Qed.

Lemma PGROUNDDOWN_eq a : PGROUNDDOWN a = a - a mod 4096.
Proof.
  unfold PGROUNDDOWN. change (PGSIZE - 1) with (Z.ones 12). rewrite <- Z.ldiff_land, Z.ldiff_ones_r by lia.
  rewrite Z.shiftr_div_pow2, Z.shiftl_mul_pow2 by lia. change (2 ^ 12) with 4096. Z.div_mod_to_equations. lia.
Qed.

(** word addresses inside a page *)
Lemma word_in_page v i : v mod PGSIZE = 0 -> 0 <= i < 1024 ->
  (v + 4 * i) mod 4 = 0 /\ (v + 4 * i) - (v + 4 * i) mod PGSIZE = v.
Proof. change PGSIZE with 4096. intros. split; Z.div_mod_to_equations; lia. Qed.
End Layouts.
