(* ===== verification/LazyAlloc.v ===== *)
(** * Demand allocation is invisible

    The ownership invariant of physical pages over the free list and a set of
    page tables, the user's view of an address space (a reserved page reads as
    zeros), and the theorems about [kalloc]/[kfree], [reservessuvm] /
    [sys_ssualloc], [allocssupage] and the page-fault handler of [Vm]. *)

From S2P Require Import Prelude Vm.

(** what a physical page is used for *)
Inductive kind : Type :=
| Free
| Dir (d : Z)              (** the page directory [d] *)
| Tab (d i : Z)            (** the page table of entry [i] of [d] *)
| Frame (d p : Z)          (** user page [p] of [d] *)
| Detached.                (** handed out by [kalloc], not yet mapped *)

Definition own_set (v : Z) (k : kind) (own : Z -> kind) : Z -> kind := fun x => if x =? v then k else own x.

Lemma own_set_same v k own : own_set v k own v = k.
Proof. unfold own_set. by rewrite Z.eqb_refl. Qed.
Lemma own_set_ne v k own x : x <> v -> own_set v k own x = own x.
Proof. intros. unfold own_set. by destruct (Z.eqb_spec x v). Qed.

Fixpoint chain (m : Z -> Z) (r : Z) (l : list Z) : Prop :=
  match l with
  | [] => r = 0
  | x :: l' => r = x /\ chain m (rd32 m x) l'
  end.

Definition npages : Z := KERNBASE / PGSIZE.

Section LazyAlloc.
Context `{Layout}.

Definition pde_addr (d va : Z) : Z := d + 4 * PDX va.
Definition pde_of (m : Z -> Z) (d i : Z) : Z := rd32 m (d + 4 * i).
Definition tab_of (m : Z -> Z) (d i : Z) : Z := P2V (PTE_ADDR (pde_of m d i)).

(** the entry for [va]; a missing page table reads as an empty one *)
Definition vpte (m : Z -> Z) (d va : Z) : Z :=
  if has (pde_of m d (PDX va)) PTE_P then rd32 m (tab_of m d (PDX va) + 4 * PTX va) else 0.

(** the address [walkpgdir] returns *)
Definition pte_addr (m : Z -> Z) (d va : Z) : Z :=
  if has (pde_of m d (PDX va)) PTE_P then tab_of m d (PDX va) + 4 * PTX va else 0.

Definition is_user (va : Z) : Prop := 0 <= va < KERNBASE.

Record vm_inv (own : Z -> kind) (fl : list Z) (ds : list Z) (s : mach) : Prop := {
  vi_chain : chain (mem s) (freelist s) fl;
  vi_nodup : NoDup fl;
  vi_free : forall x, x ∈ fl -> page_ok x /\ own x = Free;
  vi_dir : forall d, d ∈ ds -> page_ok d /\ own d = Dir d;
  vi_tab : forall d i, d ∈ ds -> 0 <= i < NPDENTRIES -> has (pde_of (mem s) d i) PTE_P = true ->
    page_ok (tab_of (mem s) d i) /\ own (tab_of (mem s) d i) = Tab d i;
  vi_frame : forall d va, d ∈ ds -> is_user va -> has (vpte (mem s) d va) PTE_P = true ->
    let v := P2V (PTE_ADDR (vpte (mem s) d va)) in page_ok v /\ own v = Frame d (va / PGSIZE)
}.

(** pages the free list and the page tables live in *)
Definition is_struct (k : kind) : Prop := match k with Frame _ _ | Detached => False | _ => True end.

Lemma page_word v i : page_ok v -> 0 <= i < 1024 -> (v + 4 * i) mod 4 = 0 /\ (v + 4 * i) - (v + 4 * i) mod PGSIZE = v.
Proof. intros (Hv & _). by apply word_in_page. Qed.

Lemma page_word0 v : page_ok v -> v mod 4 = 0 /\ v - v mod PGSIZE = v.
Proof. intros Hv. pose proof (page_word v 0 Hv ltac:(lia)) as Hw. by rewrite Z.mul_0_r, Z.add_0_r in Hw. Qed.

Lemma chain_agree P m m' r l :
  agree P m m' -> chain m r l -> (forall x, x ∈ l -> page_ok x /\ P x) -> chain m' r l.
Proof.
  intros Ha. revert r. induction l as [|x l IH]; intros r Hc Hl; cbn [chain] in *; [done|].
  destruct Hc as [-> Hc]. split; [done|]. destruct (Hl x ltac:(set_solver)) as [Hx HP].
  destruct (page_word0 x Hx) as [H4 Hp]. rewrite (agree_rd32 _ _ _ _ Ha) by (rewrite ?Hp; done).
  apply IH; [done|]. intros y Hy. apply Hl. set_solver.
Qed.

Lemma pde_agree P m m' d i : agree P m m' -> page_ok d -> P d -> 0 <= i < 1024 -> pde_of m' d i = pde_of m d i.
Proof.
  intros Ha Hd HP Hi. unfold pde_of. destruct (page_word d i Hd Hi) as [H4 Hp].
  apply (agree_rd32 _ _ _ _ Ha); [done | by rewrite Hp].
Qed.

Lemma vpte_agree P m m' d va :
  agree P m m' -> page_ok d -> P d ->
  (has (pde_of m d (PDX va)) PTE_P = true -> page_ok (tab_of m d (PDX va)) /\ P (tab_of m d (PDX va))) ->
  vpte m' d va = vpte m d va /\ pte_addr m' d va = pte_addr m d va.
Proof.
  intros Ha Hd HP Ht. pose proof (PDX_range va). pose proof (PTX_range va).
  unfold vpte, pte_addr, tab_of in *. rewrite (pde_agree _ _ _ _ _ Ha) by done.
  destruct (has (pde_of m d (PDX va)) PTE_P); [|done]. destruct (Ht eq_refl) as [Ht1 Ht2].
  split; [|done]. destruct (page_word _ (PTX va) Ht1) as [H4 Hp]; [lia|].
  apply (agree_rd32 _ _ _ _ Ha); [done | by rewrite Hp].
Qed.

(** a change that leaves every structural page alone keeps the invariant *)
Lemma vm_inv_agree own fl ds s s' P :
  vm_inv own fl ds s -> agree P (mem s) (mem s') -> freelist s' = freelist s ->
  (forall x, is_struct (own x) -> P x) ->
  vm_inv own fl ds s' /\ (forall d va, d ∈ ds -> vpte (mem s') d va = vpte (mem s) d va).
Proof.
  intros [C N F D T Fr] Ha Ef HP.
  assert (forall x k, own x = k -> is_struct k -> P x) as HP' by (intros x k <-; auto).
  assert (forall d i, d ∈ ds -> 0 <= i < 1024 -> pde_of (mem s') d i = pde_of (mem s) d i) as Hpde.
  { intros d i Hd Hi. destruct (D d Hd) as [D1 D2]. by eapply (pde_agree P); eauto; eapply HP'. }
  assert (forall d va, d ∈ ds -> vpte (mem s') d va = vpte (mem s) d va) as Hv.
  { intros d va Hd. destruct (D d Hd) as [D1 D2]. eapply (vpte_agree P); eauto; [by eapply HP'|].
    intros Hp. destruct (T d (PDX va) Hd (PDX_range va) Hp) as [T1 T2]. split; [done|]. by eapply HP'. }
  split; [|done]. split; try done.
  - rewrite Ef. eapply chain_agree; [exact Ha | done|]. intros x Hx. destruct (F x Hx). split; [done|]. by eapply HP'.
  - intros d i Hd Hi Hp. unfold tab_of. rewrite !Hpde in * by done. by apply T.
  - intros d va Hd Hu Hp. rewrite !Hv in * by done. by apply Fr.
Qed.

(** *** The page allocator *)

Lemma kalloc_ok own fl ds s (Q : Z -> mach -> Prop) :
  vm_inv own fl ds s ->
  match fl with
  | [] => Q 0 s
  | x :: fl' => vm_inv (own_set x Detached own) fl' ds (set_freelist (rd32 (mem s) x) s) ->
      Q x (set_freelist (rd32 (mem s) x) s)
  end ->
  returns kalloc s Q.
Proof.
  intros Hinv HQ. pose proof Hinv as [C N F D T Fr]. unfold kalloc. step.
  destruct fl as [|x fl]; cbn [chain] in C.
  { rewrite C. cbn [Z.eqb]. by step. }
  destruct C as [Ex C]. destruct (F x ltac:(set_solver)) as [Hx Hown]. rewrite Ex.
  assert (x <> 0) by (destruct Hx as (_ & _ & ?); unfold KERNBASE in *; lia).
  destruct (Z.eqb_spec x 0); [done|]. unfold load. do 2 step. apply HQ.
  apply NoDup_cons in N as [Nx N]. split; cbn [set_freelist mem freelist]; try done.
  - intros y Hy. destruct (F y ltac:(set_solver)). split; [done|]. rewrite own_set_ne; [done|]. by intros ->.
  - intros d Hd. destruct (D d Hd) as [D1 D2]. split; [done|]. rewrite own_set_ne; [done|]. intros ->. congruence.
  - intros d i Hd Hi Hp. destruct (T d i Hd Hi Hp) as [T1 T2]. split; [done|]. rewrite own_set_ne; [done|].
    intros E. rewrite E in T2. congruence.
  - intros d va Hd Hu Hp. destruct (Fr d va Hd Hu Hp) as [T1 T2]. split; [done|]. rewrite own_set_ne; [done|].
    intros E. rewrite E in T2. congruence.
Qed.

(** zeroing a detached page *)
Lemma memset_detached own fl ds s v c (Q : unit -> mach -> Prop) :
  vm_inv own fl ds s -> page_ok v -> own v = Detached ->
  (forall s', vm_inv own fl ds s' -> s' = set_mem (fill v c PGSIZE) s ->
     (forall d va, d ∈ ds -> vpte (mem s') d va = vpte (mem s) d va) -> Q tt s') ->
  returns (memset v c PGSIZE) s Q.
Proof.
  intros Hinv Hv Ho HQ. unfold memset. step.
  destruct (vm_inv_agree own fl ds s (set_mem (fill v c PGSIZE) s) (fun x => x <> v) Hinv) as [H1 H2].
  - apply agree_fill, Hv.
  - done.
  - intros x Hx ->. by rewrite Ho in Hx.
  - by apply HQ.
Qed.

(** *** Changing one word of a page table *)

Lemma pte_addr_word own fl ds s d va :
  vm_inv own fl ds s -> d ∈ ds -> has (pde_of (mem s) d (PDX va)) PTE_P = true ->
  let p := pte_addr (mem s) d va in
  p mod 4 = 0 /\ p - p mod PGSIZE = tab_of (mem s) d (PDX va) /\ p <> 0 /\
  rd32 (mem s) p = vpte (mem s) d va.
Proof.
  intros Hinv Hd Hp p. destruct (vi_tab _ _ _ _ Hinv d (PDX va) Hd (PDX_range va) Hp) as [T1 _].
  unfold p, pte_addr, vpte. rewrite Hp. destruct (page_word _ (PTX va) T1 (PTX_range va)) as [H1 H2].
  split_and!; try done. destruct T1 as (_ & _ & T1). pose proof (PTX_range va). unfold KERNBASE in *. lia.
Qed.

(** storing entry [v] for [va]: only that page's entry changes *)
Lemma store_pte_u32 own fl ds s d va v :
  vm_inv own fl ds s -> d ∈ ds -> has (pde_of (mem s) d (PDX va)) PTE_P = true -> 0 <= va < 2 ^ 32 ->
  let m' := wr32 (pte_addr (mem s) d va) v (mem s) in
  (forall d' va', d' ∈ ds -> 0 <= va' < 2 ^ 32 ->
     vpte m' d' va' = if (d' =? d) && (va' / PGSIZE =? va / PGSIZE) then u32 v else vpte (mem s) d' va') /\
  (forall d' i, d' ∈ ds -> 0 <= i < 1024 -> pde_of m' d' i = pde_of (mem s) d' i) /\
  agree (fun x => x <> tab_of (mem s) d (PDX va)) (mem s) m'.
Proof.
  intros Hinv Hd Hp Hva m'. destruct (pte_addr_word own fl ds s d va Hinv Hd Hp) as (P4 & PT & P0 & PV).
  set (p := pte_addr (mem s) d va) in *. set (t := tab_of (mem s) d (PDX va)) in *.
  destruct (vi_tab _ _ _ _ Hinv d (PDX va) Hd (PDX_range va) Hp) as [T1 T2]. fold t in T1, T2.
  assert (agree (fun x => x <> t) (mem s) m') as Ha by (rewrite <- PT; by apply agree_wr32).
  assert (forall d' i, d' ∈ ds -> 0 <= i < 1024 -> pde_of m' d' i = pde_of (mem s) d' i) as Hpde.
  { intros d' i Hd' Hi. destruct (vi_dir _ _ _ _ Hinv d' Hd') as [D1 D2]. eapply (pde_agree _ _ _ _ _ Ha); try done.
    intros ->. congruence. }
  split; [|done]. intros d' va' Hd' Hva'. unfold vpte, tab_of. rewrite Hpde by (done || apply PDX_range).
  destruct (has (pde_of (mem s) d' (PDX va')) PTE_P) eqn:Hp'.
  - destruct (vi_tab _ _ _ _ Hinv d' (PDX va') Hd' (PDX_range va') Hp') as [T1' T2'].
    unfold tab_of in T1', T2'. set (t' := P2V (PTE_ADDR (pde_of (mem s) d' (PDX va')))) in *.
    destruct (page_word _ (PTX va') T1' (PTX_range va')) as [W4 WP].
    destruct (decide (t' + 4 * PTX va' = p)) as [E|E].
    + rewrite E. unfold m'. rewrite rd32_wr32_same by done.
      rewrite E, PT in WP. rewrite <- WP in T2'. rewrite T2 in T2'. injection T2' as <- Ei.
      rewrite Z.eqb_refl. cbn [andb].
      assert (PTX va = PTX va') as Ej.
      { unfold p, pte_addr in E. rewrite Hp in E. fold t in E. rewrite <- WP in E. lia. }
      rewrite (proj2 (Z.eqb_eq _ _)); [done|]. symmetry. by apply PG_same_page.
    + unfold m'. rewrite rd32_wr32_other by done. destruct (_ && _) eqn:Eb; [|done].
      rewrite andb_true_iff, !Z.eqb_eq in Eb. destruct Eb as [-> Epg].
      destruct (PG_of_page va' va Hva' Hva Epg) as [E1 E2]. exfalso. apply E. unfold p, pte_addr. rewrite Hp.
      unfold t', tab_of. by rewrite E1, E2.
  - destruct (_ && _) eqn:Eb; [|done]. rewrite andb_true_iff, !Z.eqb_eq in Eb. destruct Eb as [-> Epg].
    destruct (PG_of_page va' va Hva' Hva Epg) as [E1 _]. rewrite E1 in Hp'. congruence.
Qed.

Lemma store_pte own fl ds s d va v :
  vm_inv own fl ds s -> d ∈ ds -> has (pde_of (mem s) d (PDX va)) PTE_P = true -> 0 <= v < 2 ^ 32 -> 0 <= va < 2 ^ 32 ->
  let m' := wr32 (pte_addr (mem s) d va) v (mem s) in
  (forall d' va', d' ∈ ds -> 0 <= va' < 2 ^ 32 ->
     vpte m' d' va' = if (d' =? d) && (va' / PGSIZE =? va / PGSIZE) then v else vpte (mem s) d' va') /\
  (forall d' i, d' ∈ ds -> 0 <= i < 1024 -> pde_of m' d' i = pde_of (mem s) d' i) /\
  agree (fun x => x <> tab_of (mem s) d (PDX va)) (mem s) m'.
Proof.
  intros Hinv Hd Hp Hv Hva. pose proof (store_pte_u32 own fl ds s d va v Hinv Hd Hp Hva) as Hs. by rewrite u32_small in Hs.
Qed.

(** the invariant after such a store: a non-present entry, or one for a
    detached page, which then belongs to that user page *)
Definition entry_ok (own : Z -> kind) (d va v : Z) (own' : Z -> kind) : Prop :=
  (has v PTE_P = false /\ own' = own) \/
  (has v PTE_P = true /\ let f := P2V (PTE_ADDR v) in
   page_ok f /\ own f = Detached /\ own' = own_set f (Frame d (va / PGSIZE)) own).

Lemma entry_ok_struct own d va v own' x : entry_ok own d va v own' -> own x <> Detached -> own' x = own x.
Proof.
  intros [[_ ->]|(_ & _ & Hd & ->)] Hx; [done|]. apply own_set_ne. intros ->. done.
Qed.

Lemma store_pte_inv own fl ds s d va v own' :
  vm_inv own fl ds s -> d ∈ ds -> has (pde_of (mem s) d (PDX va)) PTE_P = true -> 0 <= v < 2 ^ 32 -> is_user va ->
  entry_ok own d va v own' ->
  vm_inv own' fl ds (set_mem (wr32 (pte_addr (mem s) d va) v) s).
Proof.
  intros Hinv Hd Hp Hv Hva He. assert (0 <= va < 2 ^ 32) as Hva32 by (unfold is_user, KERNBASE in *; lia).
  destruct (store_pte own fl ds s d va v Hinv Hd Hp Hv Hva32) as (Hvp & Hpde & Ha).
  pose proof Hinv as [C N F D T Fr]. destruct (T d (PDX va) Hd (PDX_range va) Hp) as [T1 T2].
  set (m' := wr32 _ v (mem s)) in *. split; cbn [set_mem mem freelist]; fold m'; try done.
  - eapply chain_agree; [exact Ha | done|]. intros x Hx. destruct (F x Hx) as [? Hfx]. split; [done|].
    intros ->. congruence.
  - intros x Hx. destruct (F x Hx) as [? Hfx]. split; [done|]. by rewrite (entry_ok_struct _ _ _ _ _ x He) by congruence.
  - intros x Hx. destruct (D x Hx) as [? Hfx]. split; [done|]. by rewrite (entry_ok_struct _ _ _ _ _ x He) by congruence.
  - intros d' i Hd' Hi. unfold tab_of. rewrite Hpde by done. intros Hp'. destruct (T d' i Hd' Hi Hp') as [T1' T2'].
    split; [done|]. unfold tab_of in T2'. by rewrite (entry_ok_struct _ _ _ _ _ _ He) by congruence.
  - intros d' va' Hd' Hu'. rewrite Hvp by (done || (unfold is_user, KERNBASE in *; lia)). intros Hp'.
    destruct (_ && _) eqn:Eb.
    + rewrite andb_true_iff, !Z.eqb_eq in Eb. destruct Eb as [-> ->].
      destruct He as [[He _]|(_ & H1 & H2 & ->)]; [congruence|]. split; [done|]. by rewrite own_set_same.
    + destruct (Fr d' va' Hd' Hu' Hp') as [T1' T2']. split; [done|].
      by rewrite (entry_ok_struct _ _ _ _ _ _ He) by congruence.
Qed.

(** *** [walkpgdir] *)

Lemma load_ok p s (Q : Z -> mach -> Prop) : Q (rd32 (mem s) p) s -> returns (load p) s Q.
Proof. done. Qed.

Lemma walk_look_ok pgdir va s (Q : Z -> mach -> Prop) :
  Q (pte_addr (mem s) pgdir va) s -> returns (walkpgdir pgdir va false) s Q.
Proof.
  intros HQ. unfold walkpgdir. apply returns_bind, load_ok. unfold pte_addr, tab_of, pde_of in HQ.
  destruct (has _ _); by step.
Qed.

Definition same_proc (s s' : mach) : Prop :=
  p_sz s' = p_sz s /\ p_pgdir s' = p_pgdir s /\ p_killed s' = p_killed s /\ con s' = con s.

(** the entries of a directory that have no page table *)
Definition absent (m : Z -> Z) (d : Z) : Z := Z.of_nat (length (filter (fun i => has (pde_of m d i) PTE_P = false) (seqZ 0 1024))).
(** the free pages beyond those that page tables of [d] may need *)
Definition budget (fl : list Z) (m : Z -> Z) (d : Z) : Z := Z.of_nat (length fl) - absent m d.

Lemma absent_same m m' d : (forall i, 0 <= i < 1024 -> pde_of m' d i = pde_of m d i) -> absent m' d = absent m d.
Proof.
  intros E. unfold absent. do 2 f_equal. assert (forall l, Forall (fun i => 0 <= i < 1024) l ->
    filter (fun i => has (pde_of m' d i) PTE_P = false) l = filter (fun i => has (pde_of m d i) PTE_P = false) l) as Hl.
  { induction 1 as [|i l Hi _ IH]; [done|]. rewrite !filter_cons, E, IH by done. done. }
  apply Hl, Forall_forall. intros i Hi. by apply elem_of_seqZ in Hi.
Qed.

Lemma absent_bound m d : 0 <= absent m d <= 1024.
Proof.
  unfold absent. split; [lia|]. pose proof (length_filter (fun i => has (pde_of m d i) PTE_P = false) (seqZ 0 1024)) as Hl.
  rewrite length_seqZ in Hl. lia.
Qed.

Lemma absent_fill m m' d j : 0 <= j < 1024 -> has (pde_of m d j) PTE_P = false -> has (pde_of m' d j) PTE_P = true ->
  (forall i, 0 <= i < 1024 -> i <> j -> pde_of m' d i = pde_of m d i) -> absent m d = absent m' d + 1.
Proof.
  intros Hj H0 H1 E. unfold absent.
  assert (seqZ 0 1024 = seqZ 0 j ++ j :: seqZ (j + 1) (1023 - j)) as ->.
  { replace 1024 with (j + (1024 - j)) by lia. rewrite seqZ_app by lia. f_equal. rewrite Z.add_0_l, (seqZ_cons j) by lia.
    f_equal. f_equal; lia. }
  rewrite !filter_app, !filter_cons, H0, H1, !length_app. cbn [decide].
  destruct (decide (false = false)); [|done]. destruct (decide (true = false)); [done|].
  assert (forall l, Forall (fun i => 0 <= i < 1024 /\ i <> j) l ->
    filter (fun i => has (pde_of m' d i) PTE_P = false) l = filter (fun i => has (pde_of m d i) PTE_P = false) l) as Hl.
  { induction 1 as [|i l [Hi Hne] _ IH]; [done|]. rewrite !filter_cons, E, IH by done. done. }
  rewrite !Hl; [simpl; lia | |]; apply Forall_forall; intros i Hi; apply elem_of_seqZ in Hi; lia.
Qed.

Lemma absent_pos m d j : 0 <= j < 1024 -> has (pde_of m d j) PTE_P = false -> 1 <= absent m d.
Proof.
  intros Hj H0. unfold absent. assert (j ∈ filter (fun i => has (pde_of m d i) PTE_P = false) (seqZ 0 1024)) as Hin.
  { apply list_elem_of_filter. split; [done|]. by apply elem_of_seqZ. }
  destruct (filter _ _); [by apply elem_of_nil in Hin | simpl; lia].
Qed.

(** what a page-table allocation leaves alone *)
Record walked (own : Z -> kind) (ds : list Z) (d va : Z) (s : mach) (own' : Z -> kind) (s' : mach) : Prop := {
  wk_present : has (pde_of (mem s') d (PDX va)) PTE_P = true;
  wk_vpte : forall d' va', d' ∈ ds -> 0 <= va' < 2 ^ 32 -> vpte (mem s') d' va' = vpte (mem s) d' va';
  wk_own : forall x, own x <> Free -> own' x = own x;
  wk_mem : agree (fun x => own x <> Free /\ x <> d) (mem s) (mem s');
  wk_proc : same_proc s s'
}.

Lemma rd32_fill0 p n m q : p <= q -> q + 4 <= p + n -> rd32 (fill p 0 n m) q = 0.
Proof. intros. unfold rd32. rewrite !fill_in by lia. done. Qed.

Definition new_pde (t : Z) : Z := Z.lor (Z.lor (Z.lor (V2P t) PTE_P) PTE_W) PTE_U.

Lemma new_pde_eq t : new_pde t = Z.lor (V2P t) 7.
Proof. unfold new_pde. by rewrite <- !Z.lor_assoc. Qed.

(** installing the zeroed page [t] as a page table *)
Lemma install_table own fl ds s d va t :
  vm_inv own fl ds s -> d ∈ ds -> page_ok t -> own t = Detached -> 0 <= va < 2 ^ 32 ->
  has (pde_of (mem s) d (PDX va)) PTE_P = false ->
  (forall q, t <= q -> q + 4 <= t + PGSIZE -> rd32 (mem s) q = 0) ->
  let m' := wr32 (pde_addr d va) (new_pde t) (mem s) in
  vm_inv (own_set t (Tab d (PDX va)) own) fl ds (set_mem (wr32 (pde_addr d va) (new_pde t)) s) /\
  tab_of m' d (PDX va) = t /\ has (pde_of m' d (PDX va)) PTE_P = true /\
  (forall d' va', d' ∈ ds -> 0 <= va' < 2 ^ 32 -> vpte m' d' va' = vpte (mem s) d' va') /\
  agree (fun x => x <> d) (mem s) m' /\ (forall i, 0 <= i < 1024 -> i <> PDX va -> pde_of m' d i = pde_of (mem s) d i).
Proof.
  intros Hinv Hd Ht Hto Hva Hnp Hz m'. pose proof Hinv as [C N F D T Fr].
  destruct (D d Hd) as [Hdp Hdo]. pose proof (PDX_range va) as Hpx.
  destruct (page_word d (PDX va) Hdp Hpx) as [W4 WP]. fold (pde_addr d va) in W4, WP.
  assert (agree (fun x => x <> d) (mem s) m') as Ha by (rewrite <- WP; by apply agree_wr32).
  assert (pde_of m' d (PDX va) = new_pde t) as Enew.
  { unfold pde_of. fold (pde_addr d va). unfold m'. rewrite rd32_wr32_same, u32_small; [done|].
    rewrite new_pde_eq. by apply entry_range. }
  assert (tab_of m' d (PDX va) = t) as Etab.
  { unfold tab_of. rewrite Enew, new_pde_eq. by apply entry_page. }
  assert (has (pde_of m' d (PDX va)) PTE_P = true) as Ehas.
  { rewrite Enew, new_pde_eq. rewrite entry_flags by done. done. }
  assert (forall d' i, d' ∈ ds -> 0 <= i < 1024 -> (d' <> d \/ i <> PDX va) -> pde_of m' d' i = pde_of (mem s) d' i) as Hpde.
  { intros d' i Hd' Hi Hne. destruct (D d' Hd') as [D1 D2]. destruct (decide (d' = d)) as [->|Hdd].
    - unfold pde_of, m', pde_addr. destruct (page_word d i Hdp Hi). apply rd32_wr32_other; [done | done | lia].
    - by eapply (pde_agree _ _ _ _ _ Ha). }
  assert (forall x k, own x = k -> k <> Detached -> own_set t (Tab d (PDX va)) own x = k) as Hown.
  { intros x k Hk Hne. rewrite own_set_ne; [done|]. intros ->. congruence. }
  assert (forall d' va', d' ∈ ds -> 0 <= va' < 2 ^ 32 -> vpte m' d' va' = vpte (mem s) d' va') as Hvp.
  { intros d' va' Hd' Hva'. destruct (decide (d' = d /\ PDX va' = PDX va)) as [[-> Ei]|Hne].
    - unfold vpte. rewrite Ei, Ehas, Hnp, Etab. pose proof (PTX_range va').
      destruct (page_word t (PTX va') Ht ltac:(lia)) as [V4 VP].
      rewrite (agree_rd32 _ _ _ _ Ha); [| done | rewrite VP; congruence].
      apply Hz; [lia | change PGSIZE with 4096; lia].
    - unfold vpte, tab_of. rewrite Hpde by (done || apply PDX_range || (apply not_and_l; exact Hne)).
      destruct (has (pde_of (mem s) d' (PDX va')) PTE_P) eqn:Hp'; [|done]. destruct (T d' (PDX va') Hd' (PDX_range va') Hp') as [T1 T2].
      destruct (page_word _ (PTX va') T1 (PTX_range va')) as [V4 VP].
      apply (agree_rd32 _ _ _ _ Ha); [done|]. unfold tab_of in *. rewrite VP. congruence. }
  split_and!; try done; [|intros i Hi Hne; apply Hpde; (done || by right)]. split; cbn [set_mem mem freelist]; fold m'; try done.
  - eapply chain_agree; [exact Ha | done|]. intros x Hx. destruct (F x Hx). split; [done|]. intros ->. congruence.
  - intros x Hx. destruct (F x Hx). split; [done|]. by apply Hown.
  - intros x Hx. destruct (D x Hx). split; [done|]. by apply Hown.
  - intros d' i Hd' Hi Hp'. destruct (decide (d' = d /\ i = PDX va)) as [[-> ->]|Hne].
    + rewrite Etab. split; [done|]. by rewrite own_set_same.
    + unfold tab_of in *. rewrite Hpde in * by (done || (apply not_and_l; exact Hne)). destruct (T d' i Hd' Hi Hp') as [T1 T2].
      split; [done|]. by apply Hown.
  - intros d' va' Hd' Hu Hp'. rewrite Hvp in * by (done || (unfold is_user, KERNBASE in *; lia)).
    destruct (Fr d' va' Hd' Hu Hp') as [T1 T2]. split; [done|]. by apply Hown.
Qed.

Lemma walk_alloc_ok own fl ds s d va (Q : Z -> mach -> Prop) :
  vm_inv own fl ds s -> d ∈ ds -> 0 <= va < 2 ^ 32 ->
  (forall own' fl' s', vm_inv own' fl' ds s' -> walked own ds d va s own' s' -> (length fl <= S (length fl'))%nat ->
     budget fl (mem s) d <= budget fl' (mem s') d -> Q (pte_addr (mem s') d va) s') ->
  (fl = [] -> budget fl (mem s) d < 0 -> Q 0 s) ->
  returns (walkpgdir d va true) s Q.
Proof.
  intros Hinv Hd Hva HQ Hfail. unfold walkpgdir. apply returns_bind, load_ok.
  fold (pde_addr d va). change (rd32 (mem s) (pde_addr d va)) with (pde_of (mem s) d (PDX va)).
  destruct (has (pde_of (mem s) d (PDX va)) PTE_P) eqn:Hp.
  - step. pose proof (HQ own fl s Hinv) as H0. unfold pte_addr in H0. rewrite Hp in H0. apply H0; [by split | lia | lia].
  - cbn [negb]. apply returns_bind, (kalloc_ok own fl ds); [done|]. destruct fl as [|t fl].
    { cbn [Z.eqb]. step. apply Hfail; [done|]. pose proof (absent_pos (mem s) d (PDX va) (PDX_range va) Hp). unfold budget. simpl. lia. }
    intros Hinv1. destruct (vi_free _ _ _ _ Hinv t ltac:(set_solver)) as [Ht Hto].
    assert (t <> 0) by (destruct Ht as (_ & _ & ?); unfold KERNBASE in *; lia).
    destruct (Z.eqb_spec t 0); [done|]. set (s1 := set_freelist _ s) in *.
    apply returns_bind, (memset_detached (own_set t Detached own) fl ds); [done | done | by rewrite own_set_same |].
    intros s2 Hinv2 -> Hv2.
    assert (t <> d) as Htd by (intros ->; destruct (vi_dir _ _ _ _ Hinv d Hd); congruence).
    assert (agree (fun x => x <> t) (mem s) (fill t 0 PGSIZE (mem s))) as Hfill by (apply agree_fill, Ht).
    destruct (vi_dir _ _ _ _ Hinv d Hd) as [Hdp Hdo].
    destruct (install_table _ fl ds (set_mem (fill t 0 PGSIZE) s1) d va t Hinv2 Hd Ht (own_set_same _ _ _) Hva)
      as (Hinv3 & Et & Ep & Hv3 & Ha3 & Hpde3).
    { cbn [set_mem mem]. change (mem s1) with (mem s). rewrite (pde_agree _ _ _ _ _ Hfill); try done; try congruence; apply PDX_range. }
    { intros q Hq1 Hq2. cbn [set_mem mem]. by apply rd32_fill0. }
    unfold store. step. fold (new_pde t). set (s3 := set_mem (wr32 (pde_addr d va) (new_pde t)) _) in *.
    assert (pte_addr (mem s3) d va = t + 4 * PTX va) as <-.
    { unfold pte_addr. change (mem s3) with (wr32 (pde_addr d va) (new_pde t) (mem (set_mem (fill t 0 PGSIZE) s1))).
      by rewrite Ep, Et. }
    apply (HQ (own_set t (Tab d (PDX va)) (own_set t Detached own)) fl); [done | | simpl; lia | ].
    2:{ unfold budget. rewrite (absent_fill (mem s) (mem s3) d (PDX va) (PDX_range va) Hp Ep); [simpl; lia|].
        intros i Hi Hne. etrans; [by apply Hpde3|]. cbn [set_mem mem]. apply (pde_agree _ _ _ _ _ Hfill); [done | congruence | done]. }
    split; [exact Ep | | | |done].
    + intros d' va' Hd' Hva'. etrans; [by apply Hv3|]. by apply Hv2.
    + intros x Hx. rewrite !own_set_ne; [done | intros ->; congruence..].
    + eapply agree_trans.
      * eapply agree_mono; [exact Hfill|]. intros x [Hx _] ->. congruence.
      * eapply agree_mono; [exact Ha3|]. by intros x [_ Hx].
Qed.

(** *** The user's view of an address space *)

(** the byte the process sees at [a]: what is in the frame, zero on a page that
    is reserved, nothing elsewhere *)
Definition uview (m : Z -> Z) (d a : Z) : option Z :=
  let e := vpte m d a in
  if has e PTE_P then
    if has e PTE_U then Some (m (P2V (PTE_ADDR e) + a mod PGSIZE)) else None
  else if has e PTE_SSU then Some 0 else None.

Lemma frame_byte v a : page_ok v -> (v + a mod PGSIZE) - (v + a mod PGSIZE) mod PGSIZE = v.
Proof. intros (Hv & _). change PGSIZE with 4096 in *. Z.div_mod_to_equations. lia. Qed.

(** the flags of a page and a byte of its frame *)
Definition cell (m : Z -> Z) (d a : Z) : Z * Z :=
  let e := vpte m d a in (PTE_FLAGS e, if has e PTE_P then m (P2V (PTE_ADDR e) + a mod PGSIZE) else 0).

(** entries and frames kept, view kept *)
Lemma uview_keep own fl ds s d a m' P :
  vm_inv own fl ds s -> d ∈ ds -> is_user a -> vpte m' d a = vpte (mem s) d a ->
  agree P (mem s) m' -> (forall p, P (P2V (PTE_ADDR (vpte (mem s) d a))) \/ own (P2V (PTE_ADDR (vpte (mem s) d a))) <> Frame d p) ->
  uview m' d a = uview (mem s) d a.
Proof.
  intros Hinv Hd Hu Ev Ha HP. unfold uview. rewrite Ev.
  destruct (has (vpte (mem s) d a) PTE_P) eqn:Hp; [|done]. destruct (has _ PTE_U); [|done]. f_equal.
  destruct (vi_frame _ _ _ _ Hinv d a Hd Hu Hp) as [F1 F2]. apply Ha. rewrite frame_byte by done.
  destruct (HP (a / PGSIZE)); [done | congruence].
Qed.

Lemma cell_keep own fl ds s d a m' P :
  vm_inv own fl ds s -> d ∈ ds -> is_user a -> vpte m' d a = vpte (mem s) d a ->
  agree P (mem s) m' -> (forall p, P (P2V (PTE_ADDR (vpte (mem s) d a))) \/ own (P2V (PTE_ADDR (vpte (mem s) d a))) <> Frame d p) ->
  cell m' d a = cell (mem s) d a.
Proof.
  intros Hinv Hd Hu Ev Ha HP. unfold cell. rewrite Ev. f_equal.
  destruct (has (vpte (mem s) d a) PTE_P) eqn:Hp; [|done].
  destruct (vi_frame _ _ _ _ Hinv d a Hd Hu Hp) as [F1 F2]. apply Ha. rewrite frame_byte by done.
  destruct (HP (a / PGSIZE)); [done | congruence].
Qed.

Lemma walked_uview own fl ds d va s own' s' d' a :
  vm_inv own fl ds s -> d ∈ ds -> walked own ds d va s own' s' -> d' ∈ ds -> is_user a ->
  uview (mem s') d' a = uview (mem s) d' a.
Proof.
  intros Hinv Hd W Hd' Hu. eapply uview_keep; [done.. | | exact (wk_mem _ _ _ _ _ _ _ W) |].
  - apply (wk_vpte _ _ _ _ _ _ _ W); [done|]. unfold is_user, KERNBASE in *. lia.
  - intros p. destruct (own (P2V (PTE_ADDR (vpte (mem s) d' a)))) as [| | |d1 p1|] eqn:E; [by right..| |by right].
    left. split; [congruence|]. intros Ed. destruct (vi_dir _ _ _ _ Hinv d Hd). congruence.
Qed.

(** storing the entry of a page that has no frame *)
Lemma store_pte_uview own fl ds s d va v own' a :
  vm_inv own fl ds s -> d ∈ ds -> has (pde_of (mem s) d (PDX va)) PTE_P = true -> 0 <= v < 2 ^ 32 -> is_user va ->
  entry_ok own d va v own' -> is_user a ->
  let m' := wr32 (pte_addr (mem s) d va) v (mem s) in
  uview m' d a =
    if a / PGSIZE =? va / PGSIZE then
      if has v PTE_P then if has v PTE_U then Some (mem s (P2V (PTE_ADDR v) + a mod PGSIZE)) else None
      else if has v PTE_SSU then Some 0 else None
    else uview (mem s) d a.
Proof.
  intros Hinv Hd Hp Hv Hva He Hu m'.
  assert (0 <= va < 2 ^ 32 /\ 0 <= a < 2 ^ 32) as [Hva32 Ha32] by (unfold is_user, KERNBASE in *; lia).
  destruct (store_pte own fl ds s d va v Hinv Hd Hp Hv Hva32) as (Hvp & _ & Ha). fold m' in Hvp, Ha.
  destruct (vi_tab _ _ _ _ Hinv d (PDX va) Hd (PDX_range va) Hp) as [T1 T2].
  specialize (Hvp d a Hd Ha32). rewrite Z.eqb_refl in Hvp. cbn [andb] in Hvp.
  destruct (a / PGSIZE =? va / PGSIZE).
  - unfold uview. rewrite Hvp. destruct (has v PTE_P) eqn:Hpv; [|done]. destruct (has v PTE_U); [|done]. f_equal.
    destruct He as [[He _]|(_ & H1 & H2 & _)]; [congruence|]. apply Ha. rewrite frame_byte by done. congruence.
  - eapply uview_keep; try done. intros p. destruct (decide (P2V (PTE_ADDR (vpte (mem s) d a)) = tab_of (mem s) d (PDX va))) as [E|]; [|by left].
    right. rewrite E, T2. done.
Qed.

Lemma store_pte_uview_other own fl ds s d d' va v a :
  vm_inv own fl ds s -> d ∈ ds -> d' ∈ ds -> d' <> d -> has (pde_of (mem s) d (PDX va)) PTE_P = true ->
  0 <= v < 2 ^ 32 -> is_user va -> is_user a ->
  uview (wr32 (pte_addr (mem s) d va) v (mem s)) d' a = uview (mem s) d' a.
Proof.
  intros Hinv Hd Hd' Hne Hp Hv Hva Hu.
  assert (0 <= va < 2 ^ 32 /\ 0 <= a < 2 ^ 32) as [Hva32 Ha32] by (unfold is_user, KERNBASE in *; lia).
  destruct (store_pte own fl ds s d va v Hinv Hd Hp Hv Hva32) as (Hvp & _ & Ha).
  destruct (vi_tab _ _ _ _ Hinv d (PDX va) Hd (PDX_range va) Hp) as [T1 T2].
  specialize (Hvp d' a Hd' Ha32). destruct (Z.eqb_spec d' d); [done|]. cbn [andb] in Hvp.
  eapply uview_keep; try done. intros p.
  destruct (decide (P2V (PTE_ADDR (vpte (mem s) d' a)) = tab_of (mem s) d (PDX va))) as [E|]; [|by left].
  right. rewrite E, T2. done.
Qed.

Definition reserved (e : Z) : Prop := has e PTE_P = false /\ has e PTE_SSU = true.

Lemma same_page_user va : 0 <= va < 2 ^ 32 ->
  let a := PGROUNDDOWN va in 0 <= a < 2 ^ 32 /\ a / PGSIZE = va / PGSIZE /\ PDX a = PDX va /\ PTX a = PTX va /\
  (is_user a <-> is_user va).
Proof.
  intros Hva a. unfold a. rewrite PGROUNDDOWN_eq. change PGSIZE with 4096.
  assert (0 <= va - va mod 4096 < 2 ^ 32 /\ (va - va mod 4096) / 4096 = va / 4096) as [H1 H2].
  { Z.div_mod_to_equations. lia. }
  destruct (PG_of_page _ _ H1 Hva H2). split_and!; try done; [lia|lia|].
  unfold is_user. change KERNBASE with (524288 * 4096). Z.div_mod_to_equations. lia.
Qed.

Lemma vpte_page m d a b : PDX a = PDX b -> PTX a = PTX b -> vpte m d a = vpte m d b.
Proof. intros E1 E2. unfold vpte. by rewrite E1, E2. Qed.

Lemma pte_addr_zero own fl ds s d va :
  vm_inv own fl ds s -> d ∈ ds ->
  (pte_addr (mem s) d va = 0 <-> has (pde_of (mem s) d (PDX va)) PTE_P = false).
Proof.
  intros Hinv Hd. destruct (has (pde_of (mem s) d (PDX va)) PTE_P) eqn:Hp.
  - destruct (pte_addr_word own fl ds s d va Hinv Hd Hp) as (_ & _ & H0 & _). done.
  - unfold pte_addr. by rewrite Hp.
Qed.

(** Serving a demand-allocation fault.  [allocssupage] succeeds exactly on
    a reserved page of the user range when a physical page is free; it then
    maps a frame of its own at that page, and no process sees any byte change:
    the page read as zeros before and reads as zeros after, and every other
    page of every address space is as before.  Otherwise it returns -1 and
    changes nothing. *)
Lemma allocssupage_ok own fl ds s d va :
  vm_inv own fl ds s -> d ∈ ds -> 0 <= va < 2 ^ 32 ->
  returns (allocssupage d va) s (fun r s' =>
    (r = 0 /\ is_user va /\ reserved (vpte (mem s) d va) /\ same_proc s s' /\
     (exists own' f fl', fl = f :: fl' /\ vm_inv own' fl' ds s' /\ own' f = Frame d (va / PGSIZE)) /\
     has (vpte (mem s') d va) PTE_P = true /\
     (forall d' a, d' ∈ ds -> is_user a -> uview (mem s') d' a = uview (mem s) d' a) /\
     (forall d' a, d' ∈ ds -> KERNBASE <= a < 2 ^ 32 -> vpte (mem s') d' a = vpte (mem s) d' a) /\
     (forall d' a, d' ∈ ds -> is_user a -> has (vpte (mem s) d' a) PTE_P = true -> has (vpte (mem s') d' a) PTE_P = true) /\
     (forall d' a, d' ∈ ds -> d' <> d \/ a / PGSIZE <> va / PGSIZE -> is_user a -> cell (mem s') d' a = cell (mem s) d' a)) \/
    (r = -1 /\ s' = s /\ (~ is_user va \/ ~ reserved (vpte (mem s) d va) \/ fl = []))).
Proof.
  intros Hinv Hd Hva. unfold allocssupage.
  destruct (same_page_user va Hva) as (Ha32 & Epg & E1 & E2 & Hus). set (a := PGROUNDDOWN va) in *.
  rewrite <- (vpte_page (mem s) d a va) by done.
  destruct (Z.leb_spec KERNBASE a) as [Hk|Hk].
  { step. right. split_and!; try done. left. rewrite <- Hus. unfold is_user. lia. }
  assert (is_user a) as Hu by (unfold is_user; lia).
  apply returns_bind, walk_look_ok.
  destruct (Z.eqb_spec (pte_addr (mem s) d a) 0) as [E0|E0].
  { step. right. split_and!; try done. right; left.
    apply (pte_addr_zero own fl ds) in E0; [|done..]. unfold vpte. rewrite E0. intros [_ Hx]. done. }
  destruct (has (pde_of (mem s) d (PDX a)) PTE_P) eqn:Hp; [|by destruct E0; apply (pte_addr_zero own fl ds)].
  destruct (pte_addr_word own fl ds s d a Hinv Hd Hp) as (P4 & PT & _ & PV).
  apply returns_bind, load_ok. rewrite PV. unfold reserved.
  destruct (has (vpte (mem s) d a) PTE_P) eqn:HP; cbn [orb]; [step; right; split_and!; [done|done|right; left; by intros []]|].
  destruct (has (vpte (mem s) d a) PTE_SSU) eqn:HS; cbn [negb]; [|step; right; split_and!; [done|done|right; left; by intros []]].
  apply returns_bind, (kalloc_ok own fl ds); [done|]. destruct fl as [|f fl].
  { cbn [Z.eqb]. step. right. split_and!; try done. by right; right. }
  intros Hinv1. destruct (vi_free _ _ _ _ Hinv f ltac:(set_solver)) as [Hf Hfo].
  assert (f <> 0) by (destruct Hf as (_ & _ & ?); unfold KERNBASE in *; lia).
  destruct (Z.eqb_spec f 0); [done|].
  apply returns_bind, (memset_detached _ fl ds _ f 0 _ Hinv1 Hf (own_set_same _ _ _)).
  intros s2 Hinv2 Es2 Hv2. unfold store. step. step. left.
  change (Z.lor (Z.lor (Z.lor (V2P f) PTE_P) PTE_W) PTE_U) with (new_pde f). rewrite new_pde_eq.
  set (e := Z.lor (V2P f) 7).
  assert (agree (fun x => x <> f) (mem s) (mem s2)) as Hfill by (subst s2; cbn; apply agree_fill, Hf).
  destruct (vi_dir _ _ _ _ Hinv d Hd) as [Hdp Hdo].
  destruct (vi_tab _ _ _ _ Hinv d (PDX a) Hd (PDX_range a) Hp) as [T1 T2].
  assert (vpte (mem s2) d a = vpte (mem s) d a /\ pte_addr (mem s2) d a = pte_addr (mem s) d a) as [Ev Ea].
  { apply (vpte_agree _ _ _ _ _ Hfill); [done | congruence |]. intros _. split; [done | congruence]. }
  rewrite <- Ea.
  assert (has (pde_of (mem s2) d (PDX a)) PTE_P = true) as Hp2.
  { rewrite (pde_agree _ _ _ _ _ Hfill); [done | done | congruence | apply PDX_range]. }
  assert (0 <= e < 2 ^ 32) as Her by (apply entry_range; [done|lia]).
  assert (entry_ok (own_set f Detached own) d a e (own_set f (Frame d (a / PGSIZE)) (own_set f Detached own))) as He.
  { right. unfold e. rewrite entry_flags, entry_page by (done || lia). split; [done|]. split; [done|].
    by rewrite own_set_same. }
  pose proof (store_pte_inv _ _ _ _ _ _ _ _ Hinv2 Hd Hp2 Her Hu He) as Hinv3.
  assert (forall d' b, d' ∈ ds -> is_user b -> uview (mem s2) d' b = uview (mem s) d' b) as Hview2.
  { intros d' b Hd' Hb. eapply (uview_keep own (f :: fl) ds s); try done.
    - rewrite Hv2 by done. done.
    - intros p. destruct (decide (P2V (PTE_ADDR (vpte (mem s) d' b)) = f)) as [E|]; [|by left]. right. congruence. }
  assert (forall d' b, d' ∈ ds -> is_user b ->
    uview (wr32 (pte_addr (mem s2) d a) e (mem s2)) d' b = uview (mem s) d' b) as Hview.
  { intros d' b Hd' Hb. destruct (decide (d' = d)) as [->|Hne].
    2:{ rewrite (store_pte_uview_other _ _ _ _ d d' a e b Hinv2) by done. auto. }
    rewrite (store_pte_uview _ _ _ _ _ _ _ _ b Hinv2 Hd Hp2 Her Hu He Hb).
    destruct (Z.eqb_spec (b / PGSIZE) (a / PGSIZE)) as [Eb|]; [|by apply Hview2].
    unfold e. rewrite !entry_flags, entry_page by (done || lia). change (has 7 PTE_P) with true.
    change (has 7 PTE_U) with true. cbv iota.
    assert (vpte (mem s) d b = vpte (mem s) d a) as Evb.
    { assert (0 <= b < 2 ^ 32) by (unfold is_user, KERNBASE in *; lia).
      destruct (PG_of_page b a) as [? ?]; try done. by apply vpte_page. }
    unfold uview. rewrite Evb, HP, HS. subst s2. cbn. rewrite fill_in; [done|].
    pose proof (Z.mod_pos_bound b PGSIZE ltac:(done)). lia. }
  split_and!; try done.
  - by apply Hus.
  - subst s2. done.
  - eexists _, f, fl. split; [done|]. split; [exact Hinv3|]. rewrite own_set_same. by rewrite Epg.
  - destruct (store_pte _ _ _ _ _ _ _ Hinv2 Hd Hp2 Her Ha32) as (Hvp & _).
    cbn [set_mem mem]. rewrite (Hvp d va Hd Hva), Z.eqb_refl, Epg, Z.eqb_refl. cbn [andb].
    unfold e. by rewrite entry_flags by (done || lia).
  - intros d' b Hd' Hb. destruct (store_pte _ _ _ _ _ _ _ Hinv2 Hd Hp2 Her Ha32) as (Hvp & _).
    cbn [set_mem mem]. rewrite Hvp, Hv2 by (done || (unfold KERNBASE in *; lia)).
    destruct (Z.eqb_spec (b / PGSIZE) (a / PGSIZE)) as [Eb|]; [|by rewrite andb_false_r]. exfalso.
    unfold is_user in Hu. change PGSIZE with 4096 in Eb. change KERNBASE with (524288 * 4096) in *. Z.div_mod_to_equations. lia.
  - intros d' b Hd' Hb. destruct (store_pte _ _ _ _ _ _ _ Hinv2 Hd Hp2 Her Ha32) as (Hvp & _).
    cbn [set_mem mem]. rewrite Hvp, Hv2 by (done || unfold is_user, KERNBASE in *; lia). destruct (_ && _); [|done]. intros _.
    unfold e. by rewrite entry_flags by (done || lia).
  - intros d' b Hd' Hne Hb. destruct (store_pte _ _ _ _ _ _ _ Hinv2 Hd Hp2 Her Ha32) as (Hvp & _ & Hag).
    eapply (cell_keep own (f :: fl) ds s _ _ _ (fun x => x <> f /\ x <> tab_of (mem s2) d (PDX a))); [done..| | |].
    + cbn [set_mem mem]. rewrite Hvp, Hv2 by (done || (unfold is_user, KERNBASE in *; lia)). rewrite <- Epg in Hne.
      destruct Hne as [Hne|Hne]; apply Z.eqb_neq in Hne; rewrite Hne; [done | by rewrite andb_false_r].
    + intros x [X1 X2]. cbn [set_mem mem]. rewrite Hag by done. by apply Hfill.
    + intros p. destruct (vi_tab _ _ _ _ Hinv2 d (PDX a) Hd (PDX_range a) Hp2) as [_ T4].
      destruct (decide (P2V (PTE_ADDR (vpte (mem s) d' b)) = f)) as [->|N1]; [right; congruence|].
      destruct (decide (P2V (PTE_ADDR (vpte (mem s) d' b)) = tab_of (mem s2) d (PDX a))) as [E|N2]; [|by left].
      right. rewrite E in *. rewrite own_set_ne in T4 by done. congruence.
Qed.

(** *** Reserving pages *)

(** from [s] to [s'], the entries of the user pages [f] names were replaced by
    non-present ones, page tables may have been added, and nothing else *)
Record replaced (own : Z -> kind) (ds : list Z) (d : Z) (s : mach) (f : Z -> option Z)
    (own' : Z -> kind) (fl' : list Z) (s' : mach) : Prop := {
  rp_inv : vm_inv own' fl' ds s';
  rp_vpte : forall d' b, d' ∈ ds -> is_user b ->
    vpte (mem s') d' b = if d' =? d then default (vpte (mem s) d b) (f (b / PGSIZE)) else vpte (mem s) d' b;
  rp_own : forall x, own x <> Free -> own' x = own x;
  rp_mem : agree (fun x => exists d' p, own x = Frame d' p) (mem s) (mem s');
  rp_proc : same_proc s s'
}.

Lemma same_proc_trans s1 s2 s3 : same_proc s1 s2 -> same_proc s2 s3 -> same_proc s1 s3.
Proof. unfold same_proc. intros (?&?&?&?) (?&?&?&?). split_and!; congruence. Qed.

Lemma replaced_refl own fl ds d s : vm_inv own fl ds s -> replaced own ds d s (fun _ => None) own fl s.
Proof. intros. split; try done. intros d' b _ _. destruct (Z.eqb_spec d' d) as [->|]; done. Qed.

Lemma replaced_ext own ds d s f g own' fl' s' :
  replaced own ds d s f own' fl' s' -> (forall p, f p = g p) -> replaced own ds d s g own' fl' s'.
Proof. intros [? Hv ? ? ?] E. split; try done. intros d' b Hd' Hb. rewrite Hv by done. by rewrite E. Qed.

Lemma user_u32 b : is_user b -> 0 <= b < 2 ^ 32.
Proof. unfold is_user, KERNBASE. lia. Qed.

Lemma replaced_walk own ds d s f own1 fl1 s1 va own2 fl2 s2 :
  d ∈ ds -> replaced own ds d s f own1 fl1 s1 -> vm_inv own2 fl2 ds s2 -> walked own1 ds d va s1 own2 s2 ->
  replaced own ds d s f own2 fl2 s2.
Proof.
  intros Hd [I V O A P] I2 [_ V2 O2 A2 P2]. split; try done.
  - intros d' b Hd' Hb. rewrite V2 by (done || by apply user_u32). by apply V.
  - intros x Hx. rewrite O2; rewrite O by done; done.
  - eapply agree_trans; [exact A|]. eapply agree_mono; [exact A2|]. intros x (d' & p & E).
    assert (own1 x = Frame d' p) as E1 by (rewrite O; congruence). rewrite E1. split; [done|].
    intros ->. destruct (vi_dir _ _ _ _ I d Hd). congruence.
  - by eapply same_proc_trans.
Qed.

Lemma replaced_store own ds d s f own1 fl1 s1 a e :
  d ∈ ds -> replaced own ds d s f own1 fl1 s1 -> has (pde_of (mem s1) d (PDX a)) PTE_P = true ->
  is_user a -> 0 <= e < 2 ^ 32 -> has e PTE_P = false ->
  replaced own ds d s (fun p => if p =? a / PGSIZE then Some e else f p) own1 fl1
    (set_mem (wr32 (pte_addr (mem s1) d a) e) s1).
Proof.
  intros Hd [I V O A P] Hp Ha He Hnp. pose proof (user_u32 a Ha) as Ha32.
  destruct (store_pte _ _ _ _ _ _ _ I Hd Hp He Ha32) as (Hvp & _ & Hag). split.
  - eapply store_pte_inv; try done. by left.
  - intros d' b Hd' Hb. cbn [set_mem mem]. rewrite (Hvp d' b Hd' (user_u32 b Hb)).
    destruct (Z.eqb_spec d' d) as [->|Hne]; cbn [andb].
    + destruct (b / PGSIZE =? a / PGSIZE); [done|]. rewrite V by done. by rewrite Z.eqb_refl.
    + rewrite V by done. by destruct (Z.eqb_spec d' d).
  - done.
  - eapply agree_trans; [exact A|]. eapply agree_mono; [exact Hag|]. intros x (d' & p & E).
    destruct (vi_tab _ _ _ _ I d (PDX a) Hd (PDX_range a) Hp) as [_ T2]. intros ->.
    rewrite O in T2 by congruence. congruence.
  - done.
Qed.

(** what the user sees after a replacement *)
Lemma replaced_uview own fl ds d s f own' fl' s' d' b :
  vm_inv own fl ds s -> d ∈ ds -> replaced own ds d s f own' fl' s' -> d' ∈ ds -> is_user b ->
  (forall p e, f p = Some e -> has e PTE_P = false) ->
  uview (mem s') d' b =
    match (if d' =? d then f (b / PGSIZE) else None) with
    | Some e => if has e PTE_SSU then Some 0 else None
    | None => uview (mem s) d' b
    end.
Proof.
  intros I0 Hd [I V O A P] Hd' Hb Hf. pose proof (V d' b Hd' Hb) as Ev.
  destruct (Z.eqb_spec d' d) as [->|Hne].
  - destruct (f (b / PGSIZE)) as [e|] eqn:Ef; cbn [default] in Ev; unfold id in Ev.
    + unfold uview. rewrite Ev, (Hf _ _ Ef). done.
    + unfold uview. rewrite Ev. destruct (has (vpte (mem s) d b) PTE_P) eqn:HP; [|done].
      destruct (has _ PTE_U); [|done]. f_equal.
      destruct (vi_frame _ _ _ _ I0 d b Hd Hb HP) as [F1 F2]. apply A. rewrite frame_byte by done. eauto.
  - unfold uview. rewrite Ev. destruct (has (vpte (mem s) d' b) PTE_P) eqn:HP; [|done].
    destruct (has _ PTE_U); [|done]. f_equal.
    destruct (vi_frame _ _ _ _ I0 d' b Hd' Hb HP) as [F1 F2]. apply A. rewrite frame_byte by done. eauto.
Qed.

Definition RSV : Z := Z.lor (Z.lor PTE_W PTE_U) PTE_SSU.

(** pages [lo, hi) reserved, [hi, top) cleared again *)
Definition rsv_map (lo hi top : Z) (p : Z) : option Z :=
  if (lo <=? p) && (p <? hi) then Some RSV else if (hi <=? p) && (p <? top) then Some 0 else None.

Lemma page_number k : (4096 * k) / PGSIZE = k.
Proof. change PGSIZE with 4096. rewrite Z.mul_comm. by apply Z.div_mul. Qed.

Lemma reserve_undo_ok own ds d s lo top k fuel own1 fl1 s1 (Q : unit -> mach -> Prop) :
  d ∈ ds -> 0 <= lo <= k -> k <= top -> 4096 * k <= KERNBASE ->
  replaced own ds d s (rsv_map lo k top) own1 fl1 s1 -> k - lo < Z.of_nat fuel ->
  (forall s2, replaced own ds d s (rsv_map lo lo top) own1 fl1 s2 -> Q tt s2) ->
  returns (reserve_undo fuel d (4096 * k) (4096 * lo)) s1 Q.
Proof.
  intros Hd. revert k s1. induction fuel as [|fuel IH]; intros k s1 Hlo Htop Hk R Hfuel HQ; [lia|].
  cbn [reserve_undo]. destruct (Z.ltb_spec (4096 * lo) (4096 * k)) as [Hlt|Hge].
  2:{ step. replace k with lo in R by lia. by eapply HQ. }
  change PGSIZE with 4096. replace (4096 * k - 4096) with (4096 * (k - 1)) by lia.
  assert (is_user (4096 * (k - 1))) as Hu by (unfold is_user; lia).
  pose proof R as [I V O A P]. pose proof (V d _ Hd Hu) as Ev. rewrite Z.eqb_refl, page_number in Ev.
  unfold rsv_map in Ev. replace ((lo <=? k - 1) && (k - 1 <? k)) with true in Ev by (symmetry; rewrite andb_true_iff, Z.leb_le, Z.ltb_lt; lia).
  cbn [default] in Ev; unfold id in Ev.
  assert (has (pde_of (mem s1) d (PDX (4096 * (k - 1)))) PTE_P = true) as Hp.
  { destruct (has (pde_of (mem s1) d (PDX (4096 * (k - 1)))) PTE_P) eqn:E; [done|]. unfold vpte in Ev. rewrite E in Ev. done. }
  destruct (pte_addr_word _ _ _ _ _ _ I Hd Hp) as (_ & _ & P0 & PV).
  apply returns_bind, walk_look_ok. destruct (Z.eqb_spec (pte_addr (mem s1) d (4096 * (k - 1))) 0); [done|].
  apply returns_bind, returns_bind, load_ok. rewrite PV, Ev. change (has RSV PTE_SSU && negb (has RSV PTE_P)) with true. cbv iota.
  unfold store. step. eapply (IH (k - 1)); [lia | lia | lia | | lia | done].
  pose proof (replaced_store _ _ _ _ _ _ _ _ (4096 * (k - 1)) 0 Hd R Hp Hu ltac:(lia) eq_refl) as R2.
  rewrite page_number in R2. eapply replaced_ext; [exact R2|]. intros p. unfold rsv_map.
  destruct (Z.eqb_spec p (k - 1)) as [->|Hne].
  - replace ((lo <=? k - 1) && (k - 1 <? k - 1)) with false by (symmetry; rewrite andb_false_iff, Z.ltb_ge; lia).
    replace ((k - 1 <=? k - 1) && (k - 1 <? top)) with true by (symmetry; rewrite andb_true_iff, Z.leb_le, Z.ltb_lt; lia). done.
  - destruct (Z.leb_spec lo p), (Z.ltb_spec p k), (Z.ltb_spec p (k - 1)), (Z.leb_spec k p), (Z.leb_spec (k - 1) p), (Z.ltb_spec p top); cbn [andb]; try done; lia.
Qed.

Definition untouched (e : Z) : Prop := has e PTE_P = false /\ has e PTE_SSU = false.

Lemma has_lor e a b : has e (Z.lor a b) = has e a || has e b.
Proof.
  unfold has. rewrite Z.land_lor_distr_r, <- negb_andb. f_equal. apply eq_true_iff_eq.
  by rewrite andb_true_iff, !Z.eqb_eq, Z.lor_eq_0_iff.
Qed.

Lemma reserve_loop_ok own ds d s lo hi k fuel own1 fl1 s1 (Q : Z -> mach -> Prop) :
  d ∈ ds -> 0 <= lo <= k -> k <= hi -> 4096 * hi < KERNBASE ->
  replaced own ds d s (rsv_map lo k k) own1 fl1 s1 -> hi - k < Z.of_nat fuel ->
  (forall p, lo <= p < k -> untouched (vpte (mem s) d (4096 * p))) ->
  (forall own2 fl2 s2, replaced own ds d s (rsv_map lo hi hi) own2 fl2 s2 ->
     (forall p, lo <= p < hi -> untouched (vpte (mem s) d (4096 * p))) -> Q (4096 * hi) s2) ->
  (forall own2 fl2 s2 k', replaced own ds d s (rsv_map lo lo k') own2 fl2 s2 -> k <= k' < hi ->
     (forall p, lo <= p < k' -> untouched (vpte (mem s) d (4096 * p))) ->
     ~ untouched (vpte (mem s) d (4096 * k')) \/ fl2 = [] -> Q 0 s2) ->
  returns (reserve_loop fuel d (4096 * k) (4096 * lo) (4096 * hi)) s1 Q.
Proof.
  intros Hd. revert k own1 fl1 s1. induction fuel as [|fuel IH]; intros k own1 fl1 s1 Hlo Hhi Hmax R Hfuel Hun HQ Hbad; [lia|].
  cbn [reserve_loop]. destruct (Z.ltb_spec (4096 * k) (4096 * hi)) as [Hlt|Hge].
  2:{ step. replace k with hi in R by lia. eapply HQ; [exact R|]. intros p Hp. apply Hun. lia. }
  assert (is_user (4096 * k)) as Hu by (unfold is_user; lia). pose proof (user_u32 _ Hu) as Hu32.
  assert (forall own2 fl2 s2, replaced own ds d s (rsv_map lo k k) own2 fl2 s2 ->
    ~ untouched (vpte (mem s) d (4096 * k)) \/ fl2 = [] ->
    returns (reserve_undo (Z.to_nat ((4096 * k - 4096 * lo) / PGSIZE + 1)) d (4096 * k) (4096 * lo) ;; mret 0) s2 Q) as Hundo.
  { intros own2 fl2 s2 R2 Hwhy. apply returns_bind. eapply (reserve_undo_ok own ds d s lo k k); try done; try lia.
    - replace (4096 * k - 4096 * lo) with (4096 * (k - lo)) by lia. rewrite page_number. lia.
    - intros s3 R3. step. eapply (Hbad own2 fl2 s3 k); [done | lia | exact Hun | done]. }
  pose proof R as [I _ _ _ _].
  apply returns_bind, (walk_alloc_ok own1 fl1 ds s1 d (4096 * k)); [done | done | done | |].
  2:{ intros -> _. cbn [Z.eqb]. apply (Hundo own1 [] s1); [done | by right]. }
  intros own2 fl2 s2 I2 W _ _. pose proof (replaced_walk _ _ _ _ _ _ _ _ _ _ _ _ Hd R I2 W) as R2.
  pose proof (wk_present _ _ _ _ _ _ _ W) as Hp.
  destruct (pte_addr_word _ _ _ _ _ _ I2 Hd Hp) as (_ & _ & P0 & PV).
  destruct (Z.eqb_spec (pte_addr (mem s2) d (4096 * k)) 0); [done|].
  apply returns_bind, load_ok. rewrite PV.
  pose proof (rp_vpte _ _ _ _ _ _ _ _ R2 d _ Hd Hu) as Ev. rewrite Z.eqb_refl, page_number in Ev.
  unfold rsv_map in Ev. replace ((lo <=? k) && (k <? k)) with false in Ev by (symmetry; rewrite andb_false_iff, Z.ltb_ge; lia).
  replace ((k <=? k) && (k <? k)) with false in Ev by (symmetry; rewrite andb_false_iff, Z.ltb_ge; lia).
  cbn [default] in Ev. rewrite Ev, has_lor.
  destruct (has (vpte (mem s) d (4096 * k)) PTE_P) eqn:HP; cbn [orb].
  { apply (Hundo own2 fl2 s2 R2). left. intros [? _]. congruence. }
  destruct (has (vpte (mem s) d (4096 * k)) PTE_SSU) eqn:HS.
  { apply (Hundo own2 fl2 s2 R2). left. intros [_ ?]. congruence. }
  unfold store. step. fold RSV.
  pose proof (replaced_store _ _ _ _ _ _ _ _ (4096 * k) RSV Hd R2 Hp Hu ltac:(done) eq_refl) as R3.
  rewrite page_number in R3. replace (u32 (4096 * k + PGSIZE)) with (4096 * (k + 1)).
  2:{ change PGSIZE with 4096. rewrite u32_small; unfold is_user, KERNBASE in *; lia. }
  eapply (IH (k + 1)); [lia | lia | done | eapply replaced_ext; [exact R3|] | lia | | exact HQ |].
  - intros p. unfold rsv_map. destruct (Z.eqb_spec p k) as [->|Hne].
    + replace ((lo <=? k) && (k <? k + 1)) with true by (symmetry; rewrite andb_true_iff, Z.leb_le, Z.ltb_lt; lia). done.
    + destruct (Z.leb_spec lo p), (Z.ltb_spec p k), (Z.ltb_spec p (k + 1)), (Z.leb_spec k p), (Z.leb_spec (k + 1) p); cbn [andb]; try done; lia.
  - intros p Hpr. destruct (decide (p = k)) as [->|]; [done|]. apply Hun. lia.
  - intros own4 fl4 s4 k' R4 Hk' Hun4 Hwhy. eapply (Hbad own4 fl4 s4 k'); [done | lia | done | done].
Qed.

Lemma PGROUNDUP_eq z : 0 <= z < KERNBASE -> PGROUNDUP z = 4096 * ((z + 4095) / 4096).
Proof.
  intros Hz. unfold PGROUNDUP. change PGSIZE with 4096. unfold KERNBASE in *.
  rewrite u32_small by lia. change (Z.lnot (4096 - 1)) with (Z.lnot (Z.ones 12)).
  rewrite <- Z.ldiff_land, Z.ldiff_ones_r by lia. rewrite Z.shiftr_div_pow2, Z.shiftl_mul_pow2 by lia.
  change (2 ^ 12) with 4096. replace (z + 4096 - 1) with (z + 4095) by lia. lia.
Qed.

(** the reservation as the user sees it *)
Lemma rsv_uview own fl ds d s lo hi top own' fl' s' d' b :
  vm_inv own fl ds s -> d ∈ ds -> replaced own ds d s (rsv_map lo hi top) own' fl' s' -> d' ∈ ds -> is_user b ->
  (forall p, hi <= p < top -> untouched (vpte (mem s) d (4096 * p))) ->
  uview (mem s') d' b =
    if (d' =? d) && ((lo <=? b / PGSIZE) && (b / PGSIZE <? hi)) then Some 0 else uview (mem s) d' b.
Proof.
  intros I Hd R Hd' Hb Hun. rewrite (replaced_uview _ _ _ _ _ _ _ _ _ d' b I Hd R Hd' Hb).
  2:{ intros p e. unfold rsv_map. destruct (_ && _); [by intros [= <-]|]. destruct (_ && _); [by intros [= <-]|done]. }
  destruct (Z.eqb_spec d' d) as [->|]; cbn [andb]; [|done]. unfold rsv_map.
  destruct ((lo <=? b / PGSIZE) && (b / PGSIZE <? hi)); [done|].
  destruct ((hi <=? b / PGSIZE) && (b / PGSIZE <? top)) eqn:E; [|done].
  rewrite andb_true_iff, Z.leb_le, Z.ltb_lt in E. specialize (Hun _ E). destruct Hun as [U1 U2].
  change (has 0 PTE_SSU) with false. cbv iota. unfold uview.
  assert (vpte (mem s) d (4096 * (b / PGSIZE)) = vpte (mem s) d b) as Ev.
  { assert (is_user (4096 * (b / PGSIZE))) as Hu by (change PGSIZE with 4096; unfold is_user in *; Z.div_mod_to_equations; lia).
    destruct (PG_of_page (4096 * (b / PGSIZE)) b) as [? ?]; [by apply user_u32.. | |by apply vpte_page].
    change 4096 with PGSIZE at 2. by rewrite page_number. }
  rewrite <- Ev, U1, U2. done.
Qed.

(** C2: [ssualloc].  A request of [n] bytes, a positive multiple of the page
    size, starts at the first page boundary at or above the process size.  On
    success the process sees exactly [n] new zero bytes there and its size
    covers them; no address space changes anywhere else and no frame is
    allocated to a user page.  On failure (-1) no address space changes and the
    size stays: it fails only for an argument that is not such a multiple, a
    range that reaches [KERNBASE], a page of the range already in use, or a
    lack of pages for page tables. *)
Theorem sys_ssualloc_correct own fl ds s arg :
  vm_inv own fl ds s -> p_pgdir s ∈ ds -> 0 <= p_sz s < KERNBASE ->
  (forall n, arg = Some n -> - 2 ^ 31 <= n < 2 ^ 31) ->
  let base := PGROUNDUP (p_sz s) in
  returns (sys_ssualloc arg) s (fun r s' =>
    (exists n own' fl', arg = Some n /\ 0 < n /\ n mod PGSIZE = 0 /\ base + n < KERNBASE /\
       r = base /\ p_sz s' = base + n /\ vm_inv own' fl' ds s' /\
       (forall d a, d ∈ ds -> is_user a ->
          uview (mem s') d a =
            (if (d =? p_pgdir s) && ((base <=? a) && (a <? base + n)) then Some 0 else uview (mem s) d a) /\
          has (vpte (mem s') d a) PTE_P = has (vpte (mem s) d a) PTE_P)) \/
    (r = -1 /\ p_sz s' = p_sz s /\
     (forall d a, d ∈ ds -> is_user a -> uview (mem s') d a = uview (mem s) d a) /\
     (exists own' fl', vm_inv own' fl' ds s' /\
       forall n, arg = Some n -> 0 < n -> n mod PGSIZE = 0 -> base + n < KERNBASE ->
         fl' = [] \/ exists a, base <= a < base + n /\ ~ untouched (vpte (mem s) (p_pgdir s) a)))).
Proof.
  intros I Hd Hsz Harg base. unfold sys_ssualloc.
  assert (forall Q : Z -> mach -> Prop, Q (-1) s -> returns (mret (-1)) s Q) as Hret by done.
  destruct arg as [n|].
  2:{ apply Hret. right. split_and!; try done. exists own, fl. split; done. }
  specialize (Harg n eq_refl).
  destruct (Z.leb_spec n 0) as [Hn|Hn]; cbn [orb].
  { apply Hret. right. split_and!; try done. exists own, fl. split; [done|]. intros ? [= <-]. lia. }
  destruct (Z.eqb_spec (n mod PGSIZE) 0) as [Hm|Hm]; cbn [negb].
  2:{ apply Hret. right. split_and!; try done. exists own, fl. split; [done|]. intros ? [= <-]. done. }
  step. fold base. rewrite (u32_small n) by lia.
  assert (base = 4096 * ((p_sz s + 4095) / 4096)) as Eb by (by apply PGROUNDUP_eq).
  assert (n = 4096 * (n / 4096)) as En by (change PGSIZE with 4096 in Hm; Z.div_mod_to_equations; lia).
  set (lo := (p_sz s + 4095) / 4096) in *. set (hi := lo + n / 4096).
  assert (p_sz s <= base < 2 ^ 31 + 4096 /\ 0 <= lo) as [Hb Hlo].
  { rewrite Eb. unfold lo, KERNBASE in *. Z.div_mod_to_equations. lia. }
  rewrite u32_small by lia.
  destruct (Z.ltb_spec base (p_sz s)); [lia|]. destruct (Z.ltb_spec (base + n) base); [lia|]. cbn [orb].
  destruct (Z.leb_spec KERNBASE (base + n)) as [Hk|Hk].
  { step. right. split_and!; try done. exists own, fl. split; [done|]. intros ? [= <-]. lia. }
  assert (base + n = 4096 * hi) as Ehi by (unfold hi; lia).
  apply returns_bind. unfold reservessuvm. destruct (Z.leb_spec KERNBASE (base + n)); [lia|].
  destruct (Z.ltb_spec (base + n) base); [lia|]. cbn [orb].
  assert (PGROUNDUP base = 4096 * lo) as ->.
  { rewrite PGROUNDUP_eq by lia. rewrite Eb. f_equal. Z.div_mod_to_equations. lia. }
  rewrite Ehi. set (fuel := Z.to_nat _).
  assert (forall a, is_user a -> ((base <=? a) && (a <? 4096 * hi)) = ((lo <=? a / PGSIZE) && (a / PGSIZE <? hi))) as Erng.
  { intros a Ha. change PGSIZE with 4096. rewrite Eb. apply eq_true_iff_eq. rewrite !andb_true_iff, !Z.leb_le, !Z.ltb_lt.
    Z.div_mod_to_equations. lia. }
  eapply (reserve_loop_ok own ds (p_pgdir s) s lo hi lo fuel own fl s); try done; try lia.
  - eapply replaced_ext; [by apply replaced_refl|]. intros p. unfold rsv_map.
    destruct (Z.leb_spec lo p), (Z.ltb_spec p lo); cbn [andb]; try done; lia.
  - unfold fuel. replace (4096 * hi - base) with (4096 * (n / 4096)) by (unfold hi; lia). rewrite page_number. unfold hi. lia.
  - intros own2 fl2 s2 R2 Hun. destruct (Z.eqb_spec (4096 * hi) 0); [lia|]. step. step. left.
    exists n, own2, fl2. split_and!; try done.
    + rewrite i32_small; [done|]. unfold KERNBASE in *. lia.
    + destruct R2 as [I2 _ _ _ _]. destruct I2. by split.
    + intros d a Hd' Ha. cbn [set_sz mem]. rewrite Ehi, Erng by done. split.
      * apply (rsv_uview own fl ds (p_pgdir s) s lo hi hi own2 fl2 s2 d a I Hd R2 Hd' Ha). lia.
      * rewrite (rp_vpte _ _ _ _ _ _ _ _ R2 d a Hd' Ha). destruct (Z.eqb_spec d (p_pgdir s)) as [->|]; [|done].
        unfold rsv_map. destruct ((lo <=? a / PGSIZE) && (a / PGSIZE <? hi)) eqn:Ein.
        -- cbn [default]. unfold id. change (has RSV PTE_P) with false. rewrite andb_true_iff, Z.leb_le, Z.ltb_lt in Ein.
           destruct (Hun _ Ein) as [U1 _]. rewrite <- U1. f_equal.
           assert (is_user (4096 * (a / PGSIZE))) as Hu by (change PGSIZE with 4096; unfold is_user in *; Z.div_mod_to_equations; lia).
           destruct (PG_of_page (4096 * (a / PGSIZE)) a) as [? ?]; [by apply user_u32.. | |by apply vpte_page].
           change 4096 with PGSIZE at 2. by rewrite page_number.
        -- destruct ((hi <=? a / PGSIZE) && (a / PGSIZE <? hi)) eqn:Ef; [|done]. rewrite andb_true_iff, Z.leb_le, Z.ltb_lt in Ef. lia.
  - intros own2 fl2 s2 k' R2 Hk' Hun Hwhy. cbn [Z.eqb]. step. right. split_and!; [done | apply R2 | |].
    + intros d a Hd' Ha. rewrite (rsv_uview own fl ds (p_pgdir s) s lo lo k' own2 fl2 s2 d a I Hd R2 Hd' Ha) by done.
      replace ((lo <=? a / PGSIZE) && (a / PGSIZE <? lo)) with false; [by rewrite andb_false_r|].
      symmetry. rewrite andb_false_iff, Z.leb_gt, Z.ltb_ge. lia.
    + exists own2, fl2. split; [apply R2|]. intros ? [= <-] _ _ _. destruct Hwhy as [Hwhy|Hwhy]; [right|by left].
      exists (4096 * k'). split; [unfold hi in *; lia | done].
Qed.

(** *** Freeing *)

Lemma rd32_junk p q m c : p mod PGSIZE = 0 -> q <> p -> q mod 4 = 0 -> forall v, rd32 (wr32 p v (fill p c PGSIZE m)) q = rd32 (fill p c PGSIZE m) q.
Proof.
  intros Hp Hq H4 v. apply rd32_wr32_other; [|done|done].
  change PGSIZE with 4096 in Hp. Z.div_mod_to_equations. lia.
Qed.

(** the state after [kfree v] *)
Definition kfreed (v : Z) (s : mach) : mach := set_freelist v (set_mem (fun m => wr32 v (freelist s) (fill v 1 PGSIZE m)) s).

Lemma kfree_ok own fl ds s v (Q : unit -> mach -> Prop) :
  vm_inv own fl ds s -> page_ok v -> own v = Detached ->
  (forall s', s' = kfreed v s -> vm_inv (own_set v Free own) (v :: fl) ds s' -> same_proc s s' ->
     agree (fun x => x <> v) (mem s) (mem s') ->
     (forall d a, d ∈ ds -> vpte (mem s') d a = vpte (mem s) d a) ->
     (forall d a, d ∈ ds -> is_user a -> uview (mem s') d a = uview (mem s) d a) -> Q tt s') ->
  returns (kfree v) s Q.
Proof.
  intros I Hv Ho HQ. pose proof Hv as (Hv1 & Hv2 & Hv3). unfold kfree.
  assert (v mod PGSIZE =? 0 = true) as -> by (by apply Z.eqb_eq). cbn [negb orb].
  destruct (Z.ltb_spec v end_); [lia|]. cbn [orb]. destruct (V2P_page v Hv) as (EV & ? & _). rewrite EV.
  destruct (Z.leb_spec PHYSTOP (v - KERNBASE)); [lia|].
  apply returns_bind, (memset_detached own fl ds); [done..|]. intros s1 I1 E1 V1.
  step. unfold store. step. step.
  set (s2 := set_mem (wr32 v (freelist s1)) s1).
  destruct (page_word0 v Hv) as [W4 WP].
  assert (agree (fun x => x <> v) (mem s1) (mem s2)) as Ha.
  { pose proof (agree_wr32 v (freelist s1) (mem s1) W4) as Ha. by rewrite WP in Ha. }
  destruct (vm_inv_agree own fl ds s1 s2 _ I1 Ha eq_refl) as [I2 V2]; [by intros x Hx ->; rewrite Ho in Hx|].
  assert (0 <= freelist s1 < 2 ^ 32) as Hfr.
  { pose proof (vi_chain _ _ _ _ I1) as C. pose proof (vi_free _ _ _ _ I1) as Fl. destruct fl as [|y fl]; cbn [chain] in C; [lia|].
    destruct C as [-> _]. destruct (Fl y ltac:(set_solver)) as [(_ & _ & Hy) _]. change PHYSTOP with 234881024 in Hy. unfold KERNBASE in *. lia. }
  assert (v ∉ fl) as Hnin by (intros Hin; destruct (vi_free _ _ _ _ I v Hin); congruence).
  assert (agree (fun x => x <> v) (mem s) (mem s2)) as Ha2.
  { eapply agree_trans; [|exact Ha]. subst s1. cbn. apply agree_fill, Hv. }
  apply HQ.
  - subst s1 s2. done.
  - destruct I2 as [C N F D T Fr]. split; cbn [set_freelist mem freelist]; try done.
    + cbn [chain]. split; [done|]. unfold s2 at 2. cbn [set_mem mem]. rewrite rd32_wr32_same, u32_small by done. exact C.
    + by apply NoDup_cons.
    + intros x Hx. rewrite elem_of_cons in Hx. destruct Hx as [->|Hx]; [by rewrite own_set_same|].
      destruct (F x Hx). rewrite own_set_ne by congruence. done.
    + intros d Hd. destruct (D d Hd). rewrite own_set_ne by congruence. done.
    + intros d i Hd Hi Hp. destruct (T d i Hd Hi Hp). rewrite own_set_ne by congruence. done.
    + intros d a Hd Hu Hp. destruct (Fr d a Hd Hu Hp). split; [done|]. rewrite own_set_ne by congruence. done.
  - by subst s1.
  - exact Ha2.
  - intros d a Hd. cbn [set_freelist mem]. by rewrite V2, V1.
  - intros d a Hd Hu. cbn [set_freelist mem].
    eapply (uview_keep own fl ds s); try done; [by rewrite V2, V1|]. intros p.
    destruct (decide (P2V (PTE_ADDR (vpte (mem s) d a)) = v)) as [->|]; [right; congruence | by left].
Qed.

(** the page allocator is a stack of distinct pages that no page table and
    no user page uses.  [kalloc] returns 0 exactly when the stack is empty and
    otherwise its top; [kfree] pushes a page it is handed back, no address
    space changes, and the next [kalloc] returns that page; a pointer that is
    not a page of the allocator's range panics. *)
Theorem kalloc_kfree_stack own fl ds s v :
  vm_inv own fl ds s ->
  returns kalloc s (fun r s' =>
    match fl with
    | [] => r = 0 /\ s' = s
    | x :: fl' => r = x /\ own x = Free /\ vm_inv (own_set x Detached own) fl' ds s'
    end) /\
  (page_ok v -> own v = Detached ->
   returns (kfree v) s (fun _ s' =>
     vm_inv (own_set v Free own) (v :: fl) ds s' /\
     (forall d a, d ∈ ds -> is_user a -> uview (mem s') d a = uview (mem s) d a) /\
     returns kalloc s' (fun r _ => r = v))) /\
  (0 <= v < 2 ^ 32 -> ~ page_ok v -> v < KERNBASE \/ kfree v s = Panic "kfree").
Proof.
  intros I. split_and!.
  - apply (kalloc_ok own fl ds); [done|]. destruct fl as [|x fl]; [done|]. intros I'. split_and!; try done.
    apply (vi_free _ _ _ _ I). set_solver.
  - intros Hv Ho. apply (kfree_ok own fl ds); [done..|]. intros s' _ I' _ _ _ Hview. split_and!; [done | done |].
    by apply (kalloc_ok _ _ _ _ _ I').
  - intros Hv Hbad. destruct (Z.lt_ge_cases v KERNBASE) as [|Hk]; [by left | right].
    unfold kfree. destruct (negb (v mod PGSIZE =? 0) || (v <? end_) || (PHYSTOP <=? V2P v)) eqn:E; [done|].
    exfalso. apply Hbad. rewrite !orb_false_iff, negb_false_iff, Z.eqb_eq, Z.ltb_ge, Z.leb_gt in E.
    destruct E as [[E1 E2] E3]. unfold V2P in E3. unfold KERNBASE in *. rewrite u32_small in E3 by lia.
    unfold page_ok, KERNBASE. split_and!; [done | done | lia | lia].
Qed.

(** C1: the page-fault handler.  A fault of a user process on a page that is
    not present, inside its reserved pages, is served and no process sees any
    byte change.  The process is marked killed, and no memory is touched, only on
    a protection fault, on a fault anywhere else, or when no free page is left. *)
Theorem page_fault_correct own fl ds s err cr2 :
  vm_inv own fl ds s -> p_pgdir s ∈ ds -> 0 <= cr2 < 2 ^ 32 ->
  returns (trap_pgflt err cr2) s (fun served s' =>
    if served then
      Z.land err 1 = 0 /\ is_user cr2 /\ reserved (vpte (mem s) (p_pgdir s) cr2) /\ p_killed s' = p_killed s /\
      has (vpte (mem s') (p_pgdir s) cr2) PTE_P = true /\
      (exists own' fl', vm_inv own' fl' ds s') /\
      forall d a, d ∈ ds -> is_user a -> uview (mem s') d a = uview (mem s) d a
    else
      mem s' = mem s /\ freelist s' = freelist s /\ p_killed s' = true /\
      (Z.land err 1 <> 0 \/ ~ is_user cr2 \/ ~ reserved (vpte (mem s) (p_pgdir s) cr2) \/ fl = [])).
Proof.
  intros I Hd Hcr. unfold trap_pgflt. step.
  assert (forall why : Prop, why -> returns (kprintf "kill proc" ;; modify set_killed ;; mret false : M mach bool) s
    (fun served s' => served = false /\ mem s' = mem s /\ freelist s' = freelist s /\ p_killed s' = true)) as Hkill by done.
  destruct (Z.eqb_spec (Z.land err 1) 0) as [He|He].
  - apply returns_bind. eapply returns_mono; [by apply (allocssupage_ok own fl ds)|].
    intros r s' [(-> & Hu & Hr & (_ & _ & Hkl & _) & (own' & f & fl' & _ & I' & _) & Hp & Hv & _)|(-> & -> & Hwhy)].
    + cbn [Z.eqb]. step. split_and!; try done. by exists own', fl'.
    + cbn [Z.eqb]. eapply returns_mono; [by apply (Hkill True)|]. intros b s1 (-> & ? & ? & ?). split_and!; try done. by right.
  - step. cbn [Z.eqb]. eapply returns_mono; [by apply (Hkill True)|]. intros b s1 (-> & ? & ? & ?).
    split_and!; try done. by left.
Qed.
End LazyAlloc.

(** ** A small machine: three free pages, one page directory with one page
    table that maps page 0 to a frame and reserves page 1 *)

Definition demo_layout : Layout := {| end_ := 0x80110000; data_ := 0x80108000 |}.
Definition pg (k : Z) : Z := 0x80400000 + k * 4096.

Definition demo_mem : Z -> Z :=
  wr32 (pg 4) (Z.lor (V2P (pg 3)) 7)
  (wr32 (pg 3) (Z.lor (V2P (pg 5)) 7) (wr32 (pg 3 + 4) RSV
  (wr32 (pg 0) (pg 1) (wr32 (pg 1) (pg 2) (wr32 (pg 2) 0 (fun _ => 0)))))).
Definition demo_mach : mach := mkmach demo_mem (pg 0) 8192 (pg 4) false [].

Definition demo_own (x : Z) : kind :=
  if (x =? pg 0) || (x =? pg 1) || (x =? pg 2) then Free
  else if x =? pg 3 then Tab (pg 4) 0
  else if x =? pg 4 then Dir (pg 4)
  else if x =? pg 5 then Frame (pg 4) 0
  else Detached.

Lemma demo_rd32 q : q mod 4 = 0 ->
  rd32 demo_mem q =
    if q =? pg 4 then Z.lor (V2P (pg 3)) 7
    else if q =? pg 3 then Z.lor (V2P (pg 5)) 7
    else if q =? pg 3 + 4 then RSV
    else if q =? pg 0 then pg 1
    else if q =? pg 1 then pg 2
    else 0.
Proof.
  intros Hq. unfold demo_mem.
  assert (forall p v m w, p mod 4 = 0 -> 0 <= v < 2 ^ 32 -> rd32 m q = w ->
    rd32 (wr32 p v m) q = if q =? p then v else w) as Hstep.
  { intros p v m w Hp Hv <-. destruct (Z.eqb_spec q p) as [->|Hne].
    - by rewrite rd32_wr32_same, u32_small.
    - apply rd32_wr32_other; done. }
  do 5 (apply Hstep; [done | by vm_compute; split; congruence |]).
  rewrite (Hstep _ _ _ 0); [|done | by vm_compute |done]. by destruct (_ =? _).
Qed.

Lemma demo_pde d i : d = pg 4 -> 0 <= i < 1024 -> pde_of demo_mem d i = if i =? 0 then Z.lor (V2P (pg 3)) 7 else 0.
Proof.
  intros -> Hi. unfold pde_of. rewrite demo_rd32 by (unfold pg; Z.div_mod_to_equations; lia).
  destruct (Z.eqb_spec i 0) as [->|Hne]; [done|].
  repeat match goal with |- context [?a =? ?b] => destruct (Z.eqb_spec a b); [unfold pg in *; lia|] end. done.
Qed.

Lemma demo_vpte va : 0 <= va < 2 ^ 32 ->
  vpte demo_mem (pg 4) va = if va / 4096 =? 0 then Z.lor (V2P (pg 5)) 7 else if va / 4096 =? 1 then RSV else 0.
Proof.
  intros Hva. unfold vpte, tab_of. rewrite demo_pde by (done || apply PDX_range). rewrite PDX_eq by done.
  destruct (Z.eqb_spec (va / 4096 / 1024) 0) as [E|E].
  - change (has (Z.lor (V2P (pg 3)) 7) PTE_P) with true. cbv iota.
    change (P2V (PTE_ADDR (Z.lor (V2P (pg 3)) 7))) with (pg 3). rewrite PTX_eq by done.
    rewrite demo_rd32 by (unfold pg; Z.div_mod_to_equations; lia).
    assert ((va / 4096) mod 1024 = va / 4096) as -> by (Z.div_mod_to_equations; lia).
    assert (0 <= va / 4096 < 1024) by (Z.div_mod_to_equations; lia).
    repeat match goal with |- context [?a =? ?b] => destruct (Z.eqb_spec a b) end; unfold pg in *; try done; lia.
  - change (has 0 PTE_P) with false. cbv iota.
    destruct (Z.eqb_spec (va / 4096) 0) as [E0|]; [rewrite E0 in E; done|].
    destruct (Z.eqb_spec (va / 4096) 1) as [E1|]; [rewrite E1 in E; done|]. done.
Qed.

Lemma demo_page k : 0 <= k < 8 -> page_ok (H := demo_layout) (pg k).
Proof.
  intros Hk. unfold page_ok, pg. cbn [end_ demo_layout]. change PGSIZE with 4096. unfold KERNBASE, PHYSTOP.
  split; [Z.div_mod_to_equations; lia | lia].
Qed.

Lemma demo_vm_inv : vm_inv (H := demo_layout) demo_own [pg 0; pg 1; pg 2] [pg 4] demo_mach.
Proof.
  split.
  - cbn [chain freelist demo_mach mem]. rewrite !demo_rd32 by done. done.
  - repeat constructor; rewrite ?elem_of_cons, ?elem_of_nil; unfold pg; lia.
  - intros x Hx. rewrite !elem_of_cons, elem_of_nil in Hx.
    destruct Hx as [->|[->|[->|[]]]]; (split; [by apply demo_page | done]).
  - intros d Hd. rewrite elem_of_cons, elem_of_nil in Hd. destruct Hd as [->|[]]. split; [by apply demo_page | done].
  - intros d i Hd Hi. rewrite elem_of_cons, elem_of_nil in Hd. destruct Hd as [->|[]]. cbn [mem demo_mach].
    unfold tab_of. rewrite demo_pde by done. destruct (Z.eqb_spec i 0) as [->|]; [|done]. intros _.
    split; [by apply (demo_page 3) | done].
  - intros d va Hd Hu. rewrite elem_of_cons, elem_of_nil in Hd. destruct Hd as [->|[]]. cbn [mem demo_mach].
    rewrite demo_vpte by (by apply user_u32). change PGSIZE with 4096.
    destruct (Z.eqb_spec (va / 4096) 0) as [->|]; [intros _; split; [by apply (demo_page 5) | done]|].
    by destruct (_ =? 1).
Qed.

Lemma sys_ssualloc_correct_witness :
  returns (sys_ssualloc (Some 8192)) demo_mach (fun r s' =>
    (r = 8192 /\ forall a, 8192 <= a < 16384 -> uview (mem s') (pg 4) a = Some 0) \/ r = -1).
Proof.
  eapply returns_mono.
  - apply (sys_ssualloc_correct (H := demo_layout) demo_own [pg 0; pg 1; pg 2] [pg 4] demo_mach (Some 8192)).
    + exact demo_vm_inv.
    + by (apply elem_of_cons; left).
    + vm_compute. split; congruence.
    + intros n [= <-]. lia.
  - cbv beta zeta. intros r s' [(n & own' & fl' & [= <-] & _ & _ & _ & -> & _ & _ & Hv)|(-> & _)]; [left | by right].
    change (PGROUNDUP (p_sz demo_mach)) with 8192 in *. split; [done|]. intros a Ha.
    destruct (Hv (pg 4) a) as [-> _]; [by (apply elem_of_cons; left) | unfold is_user, KERNBASE; lia |].
    change (p_pgdir demo_mach) with (pg 4). rewrite Z.eqb_refl. cbn [andb].
    destruct (Z.leb_spec 8192 a), (Z.ltb_spec a (8192 + 8192)); [done | lia..].
Defined.

Lemma page_fault_correct_witness :
  returns (trap_pgflt 6 4097) demo_mach (fun served s' =>
    served = true -> uview (mem s') (pg 4) 4097 = Some 0).
Proof.
  eapply returns_mono.
  - apply (page_fault_correct (H := demo_layout) demo_own [pg 0; pg 1; pg 2] [pg 4] demo_mach 6 4097).
    + exact demo_vm_inv.
    + by (apply elem_of_cons; left).
    + lia.
  - cbv beta. intros [|] s' Hs; [|done]. intros _. destruct Hs as (_ & _ & _ & _ & _ & _ & Hv).
    rewrite Hv; [|by (apply elem_of_cons; left) | by vm_compute].
    unfold uview. cbn [mem demo_mach]. by rewrite demo_vpte.
Defined.

Lemma kalloc_kfree_stack_witness :
  returns kalloc demo_mach (fun r _ => r = pg 0) /\
  returns (kfree (H := demo_layout) (pg 6)) demo_mach (fun _ s' => returns kalloc s' (fun r _ => r = pg 6)).
Proof.
  pose proof (kalloc_kfree_stack (H := demo_layout) demo_own [pg 0; pg 1; pg 2] [pg 4] demo_mach (pg 6) demo_vm_inv) as (H1 & H2 & _).
  split.
  - eapply returns_mono; [exact H1|]. by intros r s' (-> & _).
  - eapply returns_mono; [apply H2; [by apply demo_page | done]|]. by intros r s' (_ & _ & H3).
Defined.
