(* ===== verification/Uvm.v ===== *)
(** * User memory: growing, shrinking, copying out

    What a process sees of its address space, page by page, and how [allocuvm],
    [deallocuvm], [growproc], [sys_sbrk] and [copyout] of [Vm] change it. *)

From S2P Require Import Prelude Vm LazyAlloc.

Section Uvm.
Context `{Layout}.
(** ** Cells: the flags of a page and a byte of its frame *)

Definition see (c : Z * Z) : option Z :=
  if has c.1 PTE_P then (if has c.1 PTE_U then Some c.2 else None) else if has c.1 PTE_SSU then Some 0 else None.

Lemma has_flags e g : 0 <= g < 4096 -> has (PTE_FLAGS e) g = has e g.
Proof.
  intros Hg. unfold has, PTE_FLAGS. do 2 f_equal. rewrite <- Z.land_assoc. f_equal.
  change 0xFFF with (Z.ones 12). rewrite Z.land_comm, Z.land_ones by lia. apply Z.mod_small. lia.
Qed.

Lemma uview_see m d a : uview m d a = see (cell m d a).
Proof. unfold uview, see, cell. cbn [fst snd]. rewrite !has_flags by done. by destruct (has _ PTE_P). Qed.

Lemma cell_see m m' d d' a : cell m' d' a = cell m d a -> uview m' d' a = uview m d a.
Proof. intros E. by rewrite !uview_see, E. Qed.

Lemma cell_flags m d a g : 0 <= g < 4096 -> has (vpte m d a) g = has (cell m d a).1 g.
Proof. intros. unfold cell. cbn [fst]. by rewrite has_flags. Qed.

Lemma vpte_same_page m d a b : 0 <= a < 2 ^ 32 -> 0 <= b < 2 ^ 32 -> a / PGSIZE = b / PGSIZE -> vpte m d a = vpte m d b.
Proof. intros Ha Hb E. destruct (PG_of_page a b Ha Hb E). by apply vpte_page. Qed.

(** ** How an operation changes the pages [lo, hi) of one address space *)

Definition same_user (s s' : mach) : Prop := p_sz s' = p_sz s /\ p_pgdir s' = p_pgdir s /\ p_killed s' = p_killed s.
Lemma same_user_proc s s' : same_proc s s' -> same_user s s'.
Proof. by intros (? & ? & ? & _). Qed.
Lemma same_user_trans s1 s2 s3 : same_user s1 s2 -> same_user s2 s3 -> same_user s1 s3.
Proof. intros (?&?&?) (?&?&?). split_and!; congruence. Qed.

Record evolves (ds : list Z) (d lo hi : Z) (C : Z -> Z * Z -> Prop) (s s' : mach) : Prop := {
  ev_user : same_user s s';
  ev_in : forall a, is_user a -> lo <= a / PGSIZE < hi -> C a (cell (mem s') d a);
  ev_out : forall d' a, d' ∈ ds -> is_user a -> ~ (d' = d /\ lo <= a / PGSIZE < hi) -> cell (mem s') d' a = cell (mem s) d' a;
  ev_kern : forall d' a, d' ∈ ds -> KERNBASE <= a < 2 ^ 32 -> vpte (mem s') d' a = vpte (mem s) d' a
}.

Lemma evolves_refl ds d lo hi C s : hi <= lo -> evolves ds d lo hi C s s.
Proof. intros. split; [done | intros; lia | done | done]. Qed.

(** what the second step does counts where both act *)
Lemma evolves_trans ds d lo1 hi1 C1 lo2 hi2 C2 lo hi (C : Z -> Z * Z -> Prop) s s1 s2 :
  evolves ds d lo1 hi1 C1 s s1 -> evolves ds d lo2 hi2 C2 s1 s2 -> d ∈ ds ->
  (forall p, lo1 <= p < hi1 \/ lo2 <= p < hi2 -> lo <= p < hi) ->
  (forall a, is_user a -> lo <= a / PGSIZE < hi ->
     (lo2 <= a / PGSIZE < hi2 /\ forall c, C2 a c -> C a c) \/
     (~ lo2 <= a / PGSIZE < hi2 /\ lo1 <= a / PGSIZE < hi1 /\ forall c, C1 a c -> C a c)) ->
  evolves ds d lo hi C s s2.
Proof.
  intros [U1 I1 O1 K1] [U2 I2 O2 K2] Hd Hr HC. split.
  - by eapply same_user_trans.
  - intros a Ha Hp. destruct (HC a Ha Hp) as [[H2 H3]|(H2 & H3 & H4)]; [by apply H3, I2|].
    apply H4. rewrite O2; [by apply I1 | done | done | tauto].
  - intros d' a Hd' Ha Hn. rewrite O2; [rewrite O1; [done..|]|done..|]; intros [-> Hp]; apply Hn; (split; [done|]); apply Hr; tauto.
  - intros d' a Hd' Ha. rewrite K2, K1 by done. done.
Qed.

(** a later step over all the pages *)
Lemma evolves_over ds d lo1 hi1 C1 lo hi C s s1 s2 :
  evolves ds d lo1 hi1 C1 s s1 -> evolves ds d lo hi C s1 s2 -> d ∈ ds -> lo <= lo1 -> hi1 <= hi -> evolves ds d lo hi C s s2.
Proof.
  intros E1 E2 Hd H1 H2. eapply (evolves_trans _ _ _ _ _ _ _ _ lo hi C _ _ _ E1 E2 Hd); [intros; lia|].
  intros a _ Ha. left. done.
Qed.
(** the next page *)
Lemma evolves_next ds d lo k C s s1 s2 :
  evolves ds d lo k C s s1 -> evolves ds d k (k + 1) C s1 s2 -> d ∈ ds -> lo <= k -> evolves ds d lo (k + 1) C s s2.
Proof.
  intros E1 E2 Hd Hk. eapply (evolves_trans _ _ _ _ _ _ _ _ lo (k + 1) C _ _ _ E1 E2 Hd); [intros; lia|].
  intros a _ Ha. destruct (decide (a / PGSIZE = k)); [left; split; [lia | done] | right; split; [lia|]; split; [lia | done]].
Qed.
Lemma evolves_mono ds d lo hi (C C' : Z -> Z * Z -> Prop) s s' :
  evolves ds d lo hi C s s' -> (forall a c, is_user a -> lo <= a / PGSIZE < hi -> C a c -> C' a c) -> evolves ds d lo hi C' s s'.
Proof. intros [U I O K] HC. split; auto. Qed.

(** console output *)
Lemma kprintf_ok own fl ds s msg (Q : unit -> mach -> Prop) :
  vm_inv own fl ds s ->
  (forall s', vm_inv own fl ds s' -> mem s' = mem s -> freelist s' = freelist s -> same_user s s' -> Q tt s') ->
  returns (kprintf msg) s Q.
Proof. intros I HQ. unfold kprintf. step. apply HQ; try done. destruct I. by split. Qed.
Lemma evolves_mem ds d lo hi C s s1 s' : evolves ds d lo hi C s s1 -> mem s' = mem s1 -> same_user s1 s' -> evolves ds d lo hi C s s'.
Proof.
  intros [U I O K] Em Es. split; [by eapply same_user_trans|..]; rewrite Em; done.
Qed.

(** a change of a page that no process sees *)
Lemma hidden_evolves own fl ds s s' x d lo :
  vm_inv own fl ds s -> (forall d' p, own x <> Frame d' p) -> same_user s s' -> agree (fun y => y <> x) (mem s) (mem s') ->
  (forall d' a, d' ∈ ds -> vpte (mem s') d' a = vpte (mem s) d' a) -> evolves ds d lo lo (fun _ _ => True) s s'.
Proof.
  intros I Hx Hu Ag V. split; [done | intros; lia | | intros; by apply V].
  intros d' a Hd' Ha _. eapply (cell_keep own fl ds s); [done..| by apply V | exact Ag |].
  intros p. destruct (decide (P2V (PTE_ADDR (vpte (mem s) d' a)) = x)) as [->|]; [right; apply Hx | by left].
Qed.

(** ** Walking and storing *)

Lemma walked_cell own fl ds d va s own' s' d' a :
  vm_inv own fl ds s -> d ∈ ds -> walked own ds d va s own' s' -> d' ∈ ds -> is_user a ->
  cell (mem s') d' a = cell (mem s) d' a.
Proof.
  intros Hinv Hd W Hd' Hu. eapply cell_keep; [done.. | | exact (wk_mem _ _ _ _ _ _ _ W) |].
  - apply (wk_vpte _ _ _ _ _ _ _ W); [done|]. by apply user_u32.
  - intros p. destruct (own (P2V (PTE_ADDR (vpte (mem s) d' a)))) as [| | |d1 p1|] eqn:E; [by right..| |by right].
    left. split; [congruence|]. intros Ed. destruct (vi_dir _ _ _ _ Hinv d Hd). congruence.
Qed.

Lemma page_of_user a b : is_user a -> KERNBASE <= b -> b / PGSIZE <> a / PGSIZE.
Proof. unfold is_user. change PGSIZE with 4096. change KERNBASE with (524288 * 4096). intros. Z.div_mod_to_equations. lia. Qed.

Lemma store_evolves own fl ds s d va v own' :
  vm_inv own fl ds s -> d ∈ ds -> has (pde_of (mem s) d (PDX va)) PTE_P = true -> 0 <= v < 2 ^ 32 -> is_user va ->
  entry_ok own d va v own' ->
  evolves ds d (va / PGSIZE) (va / PGSIZE + 1)
    (fun a c => c = (PTE_FLAGS v, if has v PTE_P then mem s (P2V (PTE_ADDR v) + a mod PGSIZE) else 0))
    s (set_mem (wr32 (pte_addr (mem s) d va) v) s).
Proof.
  intros Hinv Hd Hp Hv Hva He. pose proof (user_u32 _ Hva) as Hva32.
  destruct (store_pte own fl ds s d va v Hinv Hd Hp Hv Hva32) as (Hvp & _ & Ha).
  destruct (vi_tab _ _ _ _ Hinv d (PDX va) Hd (PDX_range va) Hp) as [T1 T2]. split; cbn [set_mem mem].
  - done.
  - intros a Hu Hpg. pose proof (Hvp d a Hd (user_u32 _ Hu)) as E. rewrite Z.eqb_refl in E.
    replace (a / PGSIZE =? va / PGSIZE) with true in E by (symmetry; apply Z.eqb_eq; lia). cbn [andb] in E.
    unfold cell. rewrite E. f_equal. destruct (has v PTE_P) eqn:Hpv; [|done].
    destruct He as [[He _]|(_ & H1 & H2 & _)]; [congruence|]. apply Ha. rewrite frame_byte by done. congruence.
  - intros d' a Hd' Hu Hn. pose proof (Hvp d' a Hd' (user_u32 _ Hu)) as E.
    assert ((d' =? d) && (a / PGSIZE =? va / PGSIZE) = false) as E0.
    { apply not_true_iff_false. rewrite andb_true_iff, !Z.eqb_eq. intros [-> Ep]. apply Hn. lia. }
    rewrite E0 in E. eapply cell_keep; try done. intros p.
    destruct (decide (P2V (PTE_ADDR (vpte (mem s) d' a)) = tab_of (mem s) d (PDX va))) as [E1|]; [|by left].
    right. rewrite E1, T2. done.
  - intros d' a Hd' Hk. rewrite Hvp by (done || (unfold KERNBASE in *; lia)).
    destruct (Z.eqb_spec (a / PGSIZE) (va / PGSIZE)) as [E|]; [|by rewrite andb_false_r].
    by destruct (page_of_user va a Hva ltac:(lia)).
Qed.

Lemma walked_evolves own fl ds d va s own' s' lo : vm_inv own fl ds s -> d ∈ ds -> walked own ds d va s own' s' ->
  evolves ds d lo lo (fun _ _ => True) s s'.
Proof.
  intros Hinv Hd W. split.
  - apply same_user_proc, (wk_proc _ _ _ _ _ _ _ W).
  - intros; lia.
  - intros d' a Hd' Hu _. apply (walked_cell own fl ds d va s own' s' d' a Hinv Hd W Hd' Hu).
  - intros d' a Hd' Ha. apply (wk_vpte _ _ _ _ _ _ _ W); [done|]. unfold KERNBASE in *. lia.
Qed.

Lemma entry_pte_flags v f : page_ok v -> 0 <= f < 4096 -> PTE_FLAGS (Z.lor (V2P v) f) = f.
Proof.
  intros Hv Hf. unfold PTE_FLAGS. change 0xFFF with (Z.ones 12). rewrite Z.land_ones, lor_entry by done || lia.
  destruct (V2P_page v Hv) as (-> & _ & Hm). change (2 ^ 12) with 4096.
  rewrite <- Z.add_mod_idemp_l, Hm by lia. by apply Z.mod_small.
Qed.

(** mapping a detached page at one user page *)
Lemma map_page_ok own fl ds s d a f perm (Q : Z -> mach -> Prop) :
  vm_inv own fl ds s -> d ∈ ds -> is_user a -> a mod PGSIZE = 0 -> has (vpte (mem s) d a) PTE_P = false ->
  page_ok f -> own f = Detached -> 0 <= perm < 4096 ->
  (forall own' fl' s', vm_inv own' fl' ds s' -> same_proc s s' -> (length fl <= S (length fl'))%nat ->
     (forall x, own x = Detached -> x <> f -> own' x = Detached) ->
     evolves ds d (a / PGSIZE) (a / PGSIZE + 1) (fun b c => c = (Z.lor perm PTE_P, mem s (f + b mod PGSIZE))) s s' ->
     budget fl (mem s) d <= budget fl' (mem s') d -> Q 0 s') ->
  (fl = [] -> budget fl (mem s) d < 0 -> Q (-1) s) ->
  returns (mappages d a PGSIZE (V2P f) perm) s Q.
Proof.
  intros I Hd Hu Ha Hnp Hf Hfo Hperm HQ Hbad. pose proof (user_u32 _ Hu) as Hu32. unfold mappages.
  assert (PGROUNDDOWN a = a) as -> by (rewrite PGROUNDDOWN_eq; change PGSIZE with 4096 in Ha; lia).
  assert (PGROUNDDOWN (u32 (a + PGSIZE - 1)) = a) as ->.
  { unfold is_user, KERNBASE in Hu. change PGSIZE with 4096 in *. rewrite u32_small by lia. rewrite PGROUNDDOWN_eq.
    Z.div_mod_to_equations. lia. }
  change (Z.to_nat (u32 PGSIZE / PGSIZE + 2)) with 3%nat. cbn [mappages_loop].
  apply returns_bind, (walk_alloc_ok own fl ds s d a); [done | done | done | |].
  2:{ intros -> ?. cbn [Z.eqb]. step. auto. }
  intros own2 fl2 s2 I2 W Hlen Hbud. pose proof (wk_present _ _ _ _ _ _ _ W) as Hp.
  destruct (pte_addr_word _ _ _ _ _ _ I2 Hd Hp) as (_ & _ & P0 & PV).
  destruct (Z.eqb_spec (pte_addr (mem s2) d a) 0); [done|]. apply returns_bind, load_ok. rewrite PV.
  rewrite (wk_vpte _ _ _ _ _ _ _ W d a Hd Hu32), Hnp. unfold store. step. rewrite Z.eqb_refl. step.
  rewrite <- Z.lor_assoc. set (g := Z.lor perm PTE_P).
  assert (0 <= g < 4096) as Hg.
  { unfold g. change PTE_P with 1. split; [apply Z.lor_nonneg; lia|].
    destruct (Z.eq_dec perm 0) as [->|]; [done|]. apply (Z.log2_lt_cancel _ 4096). change (Z.log2 4096) with 12.
    rewrite Z.log2_lor by lia. change (Z.log2 1) with 0. apply Z.max_lub_lt; [|lia]. apply Z.log2_lt_pow2; [lia|]. change (2 ^ 12) with 4096. lia. }
  assert (has g PTE_P = true) as HgP by (unfold g; unfold has; change PTE_P with 1; apply negb_true_iff, Z.eqb_neq; rewrite (Z.land_ones _ 1), <- Z.bit0_mod, Z.lor_spec, orb_true_r by lia; done).
  set (e := Z.lor (V2P f) g).
  assert (own f <> Free /\ f <> d) as [HfF Hfd].
  { split; [congruence|]. intros ->. destruct (vi_dir _ _ _ _ I d Hd). congruence. }
  assert (entry_ok own2 d a e (own_set f (Frame d (a / PGSIZE)) own2)) as He.
  { right. unfold e. rewrite entry_flags, entry_page by (done || lia). split; [done|]. split; [done|]. split; [|done].
    rewrite (wk_own _ _ _ _ _ _ _ W); done. }
  assert (0 <= e < 2 ^ 32) as Her by (by apply entry_range).
  pose proof (store_evolves _ _ _ _ _ _ _ _ I2 Hd Hp Her Hu He) as E2.
  pose proof (store_pte_inv _ _ _ _ _ _ _ _ I2 Hd Hp Her Hu He) as I3.
  eapply (HQ _ fl2); [exact I3 | by apply (wk_proc _ _ _ _ _ _ _ W) | done | | |].
  - intros x Hx Hxf. rewrite own_set_ne by done. rewrite (wk_own _ _ _ _ _ _ _ W); congruence.
  - eapply evolves_over; [by eapply (walked_evolves _ _ _ _ _ _ _ _ (a / PGSIZE)) | | done | lia | lia].
    eapply evolves_mono; [exact E2|]. intros b c Hb _ ->. unfold e. rewrite entry_flags, HgP, entry_page, entry_pte_flags by (done || lia).
    f_equal. apply (wk_mem _ _ _ _ _ _ _ W). by rewrite frame_byte.
  - etrans; [exact Hbud|]. unfold budget. cbn [set_mem mem]. rewrite (absent_same (mem s2) (wr32 (pte_addr (mem s2) d a) e (mem s2))); [reflexivity|]. intros i Hi.
    destruct (store_pte _ _ _ _ _ _ _ I2 Hd Hp Her Hu32) as (_ & Hpde & _). by apply Hpde.
Qed.

(** ** Shrinking *)

Lemma kfree_run v s : page_ok v -> kfree v s = Ok (tt, kfreed v s).
Proof.
  intros Hv. pose proof Hv as (H1 & H2 & H3). destruct (V2P_page v Hv) as (E & ? & _). unfold kfree.
  rewrite H1, E. change (0 =? 0) with true. destruct (Z.ltb_spec v end_); [lia|]. destruct (Z.leb_spec PHYSTOP (v - KERNBASE)); [lia|]. done.
Qed.

(** a page that no entry points to can be handed back *)
Lemma vm_inv_detach own fl ds s v d p :
  vm_inv own fl ds s -> own v = Frame d p ->
  (forall a, d ∈ ds -> is_user a -> a / PGSIZE = p -> has (vpte (mem s) d a) PTE_P = false) ->
  vm_inv (own_set v Detached own) fl ds s.
Proof.
  intros [C N F D T Fr] Hv Hno. split; try done.
  - intros x Hx. destruct (F x Hx). rewrite own_set_ne by congruence. done.
  - intros x Hx. destruct (D x Hx). rewrite own_set_ne by congruence. done.
  - intros d' i Hd Hi Hp. destruct (T d' i Hd Hi Hp). rewrite own_set_ne by congruence. done.
  - intros d' a Hd Hu Hp. destruct (Fr d' a Hd Hu Hp) as [F1 F2]. split; [done|]. rewrite own_set_ne; [done|].
    intros E. rewrite E, Hv in F2. injection F2 as <- ->. rewrite (Hno a) in Hp by done. done.
Qed.

Lemma wr_fill_swap p u v w c m x : ~ (p <= x < p + 4 /\ v <= x < v + PGSIZE) ->
  wr32 p u (wr32 v w (fill v c PGSIZE m)) x = wr32 v w (fill v c PGSIZE (wr32 p u m)) x.
Proof.
  change PGSIZE with 4096. intros Hx. unfold wr32, fill.
  destruct (Z.leb_spec p x), (Z.ltb_spec x (p + 4)), (Z.leb_spec v x), (Z.ltb_spec x (v + 4)), (Z.ltb_spec x (v + 4096)); cbn [andb]; try done; lia.
Qed.

Lemma unmap_ok own fl ds s d a (Q : unit -> mach -> Prop) :
  vm_inv own fl ds s -> d ∈ ds -> is_user a -> has (vpte (mem s) d a) PTE_P = true ->
  let v := P2V (PTE_ADDR (vpte (mem s) d a)) in
  (forall own' s', vm_inv own' (v :: fl) ds s' -> same_proc s s' -> (forall x, own x = Detached -> own' x = Detached) ->
     evolves ds d (a / PGSIZE) (a / PGSIZE + 1) (fun _ c => c = (0, 0)) s s' -> Q tt s') ->
  returns (kfree v ;; store (pte_addr (mem s) d a) 0) s Q.
Proof.
  intros I Hd Hu HP v HQ. destruct (vi_frame _ _ _ _ I d a Hd Hu HP) as [F1 F2]. fold v in F1, F2.
  assert (has (pde_of (mem s) d (PDX a)) PTE_P = true) as Hp.
  { destruct (has (pde_of (mem s) d (PDX a)) PTE_P) eqn:E; [done|]. unfold vpte in HP. by rewrite E in HP. }
  set (p := pte_addr (mem s) d a). destruct (pte_addr_word _ _ _ _ _ _ I Hd Hp) as (P4 & PT & _ & _). fold p in P4, PT.
  destruct (vi_tab _ _ _ _ I d (PDX a) Hd (PDX_range a) Hp) as [T1 T2].
  assert (entry_ok own d a 0 own) as He by (by left). assert (0 <= 0 < 2 ^ 32) as H0 by lia.
  pose proof (store_pte_inv _ _ _ _ _ _ _ _ I Hd Hp H0 Hu He) as I1.
  pose proof (store_evolves _ _ _ _ _ _ _ _ I Hd Hp H0 Hu He) as E1. fold p in I1, E1. set (s1 := set_mem (wr32 p 0) s) in *.
  assert (vm_inv (own_set v Detached own) fl ds s1) as I2.
  { eapply vm_inv_detach; [exact I1 | exact F2|]. intros b _ Hb Eb.
    rewrite (cell_flags _ _ _ PTE_P) by done. rewrite (ev_in _ _ _ _ _ _ _ E1 b) by (done || lia). done. }
  assert (returns (kfree v) s1 (fun _ s2 => vm_inv (own_set v Free (own_set v Detached own)) (v :: fl) ds s2 /\ s2 = kfreed v s1 /\
    agree (fun x => x <> v) (mem s1) (mem s2) /\ (forall d a, d ∈ ds -> vpte (mem s2) d a = vpte (mem s1) d a))) as Hk.
  { apply (kfree_ok (own_set v Detached own) fl ds); [done | done | by rewrite own_set_same|]. by intros s2 -> I3 _ A3 V3 _. }
  unfold returns in Hk. rewrite kfree_run in Hk by done. destruct Hk as (I3 & _ & A3 & V3).
  apply returns_bind. unfold returns at 1. rewrite kfree_run by done. unfold store. step. set (s3 := set_mem (wr32 p 0) (kfreed v s)).
  assert (forall x, mem s3 x = mem (kfreed v s1) x) as Em.
  { intros x. unfold s3, kfreed, s1. cbn [set_mem set_freelist mem freelist]. destruct (page_word0 v F1) as [V4 VP].
    assert (v <> tab_of (mem s) d (PDX a)) as Hne by congruence.
    apply wr_fill_swap. intros [Hx Hin]. apply Hne.
    assert (x - x mod PGSIZE = tab_of (mem s) d (PDX a)) as <-.
    { rewrite <- PT. replace x with (p + (x - p)) by lia. apply page_of_word; [done | lia]. }
    destruct F1 as (F1 & _). change PGSIZE with 4096 in *. Z.div_mod_to_equations. lia. }
  assert (agree (fun _ => True) (mem (kfreed v s1)) (mem s3)) as Ag by (intros x _; apply Em).
  destruct (vm_inv_agree _ _ _ _ s3 _ I3 Ag eq_refl ltac:(done)) as [I4 V4].
  eapply HQ; [exact I4 | done | |].
  { intros x Hx. rewrite !own_set_ne; [done | intros ->; congruence..]. }
  eapply evolves_mono; [|intros b c _ _ Hc; exact Hc].
  assert (evolves ds d (a / PGSIZE) (a / PGSIZE) (fun _ _ => True) s1 s3) as E2.
  { apply (hidden_evolves (own_set v Detached own) fl ds s1 s3 v); [done | by rewrite own_set_same | done | | intros; by rewrite V4, V3].
    eapply agree_trans; [exact A3|]. by eapply agree_mono. }
  eapply (evolves_trans _ _ _ _ _ _ _ _ _ _ _ _ _ _ E1 E2 Hd); [intros; lia|].
  intros b _ Hb. right. split; [lia|]. split; [lia|]. by intros c ->.
Qed.

Definition up (z : Z) : Z := (z + 4095) / 4096.
(** the page is not there any more *)
Definition gone (c : Z * Z) : Prop := has c.1 PTE_P = false /\ has c.1 PTE_SSU = false /\ c.2 = 0.
Lemma see_gone c : gone c -> see c = None.
Proof. intros (E1 & E2 & _). unfold see. by rewrite E1, E2. Qed.
Lemma gone_untouched m d a : gone (cell m d a) <-> untouched (vpte m d a).
Proof.
  unfold gone, untouched. rewrite <- !cell_flags by done. split; [tauto|]. intros [E1 E2]. split_and!; try done. unfold cell. by rewrite E1.
Qed.

Lemma evolves_already ds d lo hi (C : Z -> Z * Z -> Prop) s :
  (forall a, is_user a -> lo <= a / PGSIZE < hi -> C a (cell (mem s) d a)) -> evolves ds d lo hi C s s.
Proof. intros HC. by split. Qed.
Lemma evolves_cons ds d k j hi C s s1 s2 :
  evolves ds d k j C s s1 -> evolves ds d j hi C s1 s2 -> d ∈ ds -> k <= j <= hi -> evolves ds d k hi C s s2.
Proof.
  intros E1 E2 Hd Hk. eapply (evolves_trans _ _ _ _ _ _ _ _ k hi C _ _ _ E1 E2 Hd); [intros; lia|].
  intros a _ Ha. destruct (decide (j <= a / PGSIZE < hi)); [left; done | right; split; [done|]; split; [lia | done]].
Qed.

Lemma PGADDR_next a : is_user a -> PGADDR (PDX a + 1) 0 0 = 4096 * (1024 * (a / 4096 / 1024 + 1)).
Proof.
  intros Hu. pose proof (user_u32 _ Hu). unfold PGADDR. rewrite Z.shiftl_0_l, !Z.lor_0_r, PDX_eq, Z.shiftl_mul_pow2 by lia.
  unfold is_user, KERNBASE in Hu. rewrite u32_small; [lia|]. change (2 ^ 22) with 4194304. change (2 ^ 32) with 4294967296. Z.div_mod_to_equations. lia.
Qed.

Lemma page_addr k : 0 <= k -> 4096 * k < KERNBASE -> is_user (4096 * k) /\ (4096 * k) mod PGSIZE = 0 /\ (4096 * k) / PGSIZE = k.
Proof. intros. split; [unfold is_user; lia|]. split; [rewrite Z.mul_comm; by apply Z.mod_mul | apply page_number]. Qed.

(** the kernel's text comes before [end] *)
Hypothesis Hend : KERNBASE < end_.

Lemma page_pa v : page_ok v -> forall e, v = P2V (PTE_ADDR e) -> PTE_ADDR e <> 0.
Proof. intros (_ & H1 & _) e -> E. rewrite E in H1. change (P2V 0) with KERNBASE in H1. lia. Qed.

Lemma dealloc_loop_ok ds d oldsz (Q : unit -> mach -> Prop) : d ∈ ds -> oldsz <= KERNBASE -> forall fuel own fl s k,
  vm_inv own fl ds s -> 0 <= k -> up oldsz - k < Z.of_nat fuel -> 0 < Z.of_nat fuel ->
  (forall own' fl' s', vm_inv own' fl' ds s' -> same_proc s s' -> (length fl <= length fl')%nat ->
     (forall x, own x = Detached -> own' x = Detached) -> evolves ds d k (up oldsz) (fun _ => gone) s s' -> Q tt s') ->
  returns (deallocuvm_loop fuel d (4096 * k) oldsz) s Q.
Proof.
  intros Hd Hold. induction fuel as [|fuel IH]; intros own fl s k I Hk Hfuel Hpos HQ; [lia|].
  cbn [deallocuvm_loop]. destruct (Z.ltb_spec (4096 * k) oldsz) as [Hlt|Hge].
  2:{ step. apply (HQ own fl); [done..|]. apply evolves_refl. unfold up. Z.div_mod_to_equations. lia. }
  destruct (page_addr k Hk ltac:(lia)) as (Hu & _ & Epg). pose proof (user_u32 _ Hu) as Hu32.
  assert (k < up oldsz) as Hku by (unfold up; Z.div_mod_to_equations; lia).
  assert (u32 (4096 * k + PGSIZE) = 4096 * (k + 1)) as Enext.
  { change PGSIZE with 4096. unfold KERNBASE in *. rewrite u32_small; lia. }
  apply returns_bind, walk_look_ok. destruct (Z.eqb_spec (pte_addr (mem s) d (4096 * k)) 0) as [E0|E0].
  - apply (pte_addr_zero own fl ds) in E0; [|done..].
    rewrite PGADDR_next by done. change (4096 * k / 4096) with (4096 * k / PGSIZE). rewrite Epg. set (k' := 1024 * (k / 1024 + 1)).
    assert (k < k' /\ 4096 * k' <= KERNBASE) as [Hkk Hkb] by (unfold k', is_user in *; change KERNBASE with (4096 * (1024 * 512)) in *; Z.div_mod_to_equations; lia).
    change PGSIZE with 4096. unfold KERNBASE in Hkb. rewrite (u32_small (4096 * k' - 4096)) by lia. replace (4096 * k' - 4096 + 4096) with (4096 * k') by lia.
    rewrite u32_small by lia. eapply (IH own fl s k'); [done | lia | lia | lia |]. intros own' fl' s' I' Hpr Hl Hdet Ev.
    apply (HQ own' fl'); [done..|]. eapply (evolves_trans _ _ k (Z.min k' (up oldsz)) (fun _ => gone) _ _ _ k (up oldsz) (fun _ => gone) _ _ _ _ Ev Hd); [intros; lia|].
    intros a _ Ha. destruct (decide (k' <= a / PGSIZE < up oldsz)); [by left | right; split; [done|]; split; [lia | done]].
    Unshelve. apply evolves_already. intros a Ha Hap. apply gone_untouched.
    assert (PDX a = PDX (4096 * k)) as Epd.
    { rewrite !PDX_eq by (done || by apply user_u32). change (4096 * k / 4096) with (4096 * k / PGSIZE). rewrite Epg. change PGSIZE with 4096 in Hap.
      unfold k' in Hap. Z.div_mod_to_equations. lia. }
    unfold untouched, vpte. rewrite Epd, E0. done.
  - destruct (has (pde_of (mem s) d (PDX (4096 * k))) PTE_P) eqn:Hp; [|by destruct E0; apply (pte_addr_zero own fl ds)].
    destruct (pte_addr_word _ _ _ _ _ _ I Hd Hp) as (_ & _ & _ & PV). apply returns_bind, load_ok. rewrite PV, Enext.
    assert (forall own' fl' s', vm_inv own' fl' ds s' -> same_proc s s' -> (length fl <= length fl')%nat ->
      (forall x, own x = Detached -> own' x = Detached) -> evolves ds d k (k + 1) (fun _ => gone) s s' ->
      returns (deallocuvm_loop fuel d (4096 * (k + 1)) oldsz) s' Q) as Hnext.
    { intros own' fl' s' I' Hpr Hl Hdet Ev. eapply (IH own' fl' s' (k + 1)); [done | lia | lia | lia |]. intros own2 fl2 s2 I2 Hpr2 Hl2 Hdet2 Ev2.
      apply (HQ own2 fl2); [done | by eapply same_proc_trans | lia | auto |]. eapply evolves_cons; [exact Ev | exact Ev2 | done | lia]. }
    apply returns_bind. destruct (has (vpte (mem s) d (4096 * k)) PTE_P) eqn:HP.
    + destruct (vi_frame _ _ _ _ I d _ Hd Hu HP) as [F1 _]. pose proof (page_pa _ F1 _ eq_refl) as Hpa.
      destruct (Z.eqb_spec (PTE_ADDR (vpte (mem s) d (4096 * k))) 0); [done|].
      apply (unmap_ok own fl ds s d); [done..|]. intros own' s' I' Hpr Hdet Ev. rewrite Epg in Ev.
      eapply (Hnext own' (_ :: fl)); [done | done | simpl; lia | done |]. eapply evolves_mono; [exact Ev|]. by intros a c _ _ ->.
    + destruct (has (vpte (mem s) d (4096 * k)) PTE_SSU) eqn:HS.
      * unfold store. step. assert (entry_ok own d (4096 * k) 0 own) as He by (by left). assert (0 <= 0 < 2 ^ 32) as H0 by lia.
        pose proof (store_pte_inv _ _ _ _ _ _ _ _ I Hd Hp H0 Hu He) as I1. pose proof (store_evolves _ _ _ _ _ _ _ _ I Hd Hp H0 Hu He) as E1.
        rewrite Epg in E1. apply (Hnext own fl); [done..|]. eapply evolves_mono; [exact E1|]. by intros a c _ _ ->.
      * step. apply (Hnext own fl); [done..|]. apply evolves_already. intros a Ha Hap. apply gone_untouched.
        rewrite (vpte_same_page _ _ a (4096 * k)); [done | by apply user_u32 | done | lia].
Qed.

Lemma deallocuvm_ok own fl ds s d oldsz newsz (Q : Z -> mach -> Prop) :
  vm_inv own fl ds s -> d ∈ ds -> oldsz <= KERNBASE -> 0 <= newsz ->
  (forall own' fl' s', vm_inv own' fl' ds s' -> same_proc s s' -> (length fl <= length fl')%nat ->
     (forall x, own x = Detached -> own' x = Detached) -> evolves ds d (up newsz) (up oldsz) (fun _ => gone) s s' ->
     Q (if oldsz <=? newsz then oldsz else newsz) s') ->
  returns (deallocuvm d oldsz newsz) s Q.
Proof.
  intros I Hd Hold Hnew HQ. unfold deallocuvm. destruct (Z.leb_spec oldsz newsz) as [Hle|Hlt].
  - step. apply (HQ own fl); [done..|]. apply evolves_refl. unfold up. Z.div_mod_to_equations. lia.
  - rewrite PGROUNDUP_eq by lia. fold (up newsz). apply returns_bind. eapply (dealloc_loop_ok ds d oldsz); [done | done | exact I | | | |].
    + unfold up. Z.div_mod_to_equations. lia.
    + unfold up. change PGSIZE with 4096. Z.div_mod_to_equations. lia.
    + change PGSIZE with 4096. Z.div_mod_to_equations. lia.
    + intros own' fl' s' ? ? ? ? ?. step. by apply (HQ own' fl').
Qed.

(** ** Growing *)

(** a fresh page: present, writable, the user's, and zero *)
Definition fresh (c : Z * Z) : Prop := c = (7, 0).
Lemma see_fresh c : fresh c -> see c = Some 0.
Proof. by intros ->. Qed.

(** a page from the free list, zeroed *)
Lemma new_page_ok own fl ds s x (Q : unit -> mach -> Prop) d lo :
  vm_inv own (x :: fl) ds s -> d ∈ ds ->
  vm_inv (own_set x Detached own) fl ds (set_freelist (rd32 (mem s) x) s) ->
  (forall s', vm_inv (own_set x Detached own) fl ds s' -> same_proc s s' -> page_ok x -> x <> 0 ->
     evolves ds d lo lo (fun _ _ => True) s s' -> (forall a, x <= a < x + PGSIZE -> mem s' a = 0) ->
     absent (mem s') d = absent (mem s) d -> Q tt s') ->
  returns (memset x 0 PGSIZE) (set_freelist (rd32 (mem s) x) s) Q.
Proof.
  intros I Hd I1 HQ. destruct (vi_free _ _ _ _ I x ltac:(set_solver)) as [Hx Ho].
  eapply (memset_detached _ fl ds); [exact I1 | done | by rewrite own_set_same|]. intros s' I2 -> V.
  apply HQ; [done | done | done | | | |].
  - destruct Hx as (_ & _ & ?). unfold KERNBASE in *. lia.
  - eapply (hidden_evolves own (x :: fl) ds s _ x); [done | intros; by rewrite Ho | done | apply agree_fill, Hx | intros; by rewrite V].
  - intros a Ha. cbn. by rewrite fill_in.
  - destruct (vi_dir _ _ _ _ I d Hd). apply absent_same. intros i Hi. apply (pde_agree (fun y => y <> x)); [apply agree_fill, Hx | done | congruence | done].
Qed.

Section Alloc.
Context (ds : list Z) (d oldsz newsz : Z) (fl0 : list Z) (s0 : mach) (Q : Z -> mach -> Prop).
Hypothesis Hd : d ∈ ds.
Hypothesis Hold : 0 <= oldsz.
Hypothesis Hnew : oldsz <= newsz < KERNBASE.
Hypothesis Hnp : forall a, is_user a -> up oldsz <= a / PGSIZE < up newsz -> has (vpte (mem s0) d a) PTE_P = false.
Hypothesis Hok : forall own' fl' s', vm_inv own' fl' ds s' -> same_user s0 s' -> evolves ds d (up oldsz) (up newsz) (fun _ => fresh) s0 s' ->
  budget fl0 (mem s0) d - (up newsz - up oldsz) <= budget fl' (mem s') d -> Q newsz s'.
Hypothesis Hbad : forall own' fl' s', vm_inv own' fl' ds s' -> same_user s0 s' ->
  Z.of_nat (length fl0) < 2 * (up newsz - up oldsz) -> budget fl0 (mem s0) d < up newsz - up oldsz ->
  evolves ds d (up oldsz) (up newsz) (fun _ => gone) s0 s' -> Q 0 s'.

(** the [deallocuvm] of a failure *)
Lemma alloc_fail {A} k s s1 msg m fl (kont : M mach A) (G : A -> mach -> Prop) :
  evolves ds d (up oldsz) k (fun _ => fresh) s0 s -> k <= up newsz ->
  vm_inv m fl ds s1 -> evolves ds d k k (fun _ _ => True) s s1 ->
  (forall own' fl' s', vm_inv own' fl' ds s' -> (forall x, m x = Detached -> own' x = Detached) ->
     evolves ds d (up oldsz) (up newsz) (fun _ => gone) s0 s' -> returns kont s' G) ->
  returns (kprintf msg ;; deallocuvm d newsz oldsz ;; kont) s1 G.
Proof using Hd Hold Hnew Hend.
  intros Ev Hk I1 E1 HG. apply returns_bind, (kprintf_ok m fl ds); [done|]. intros s2 I2 Em Ef Es2.
  apply returns_bind. eapply deallocuvm_ok; [exact I2 | done | lia | done|]. intros own' fl' s' I' Hpr Hl Hdet Ev'.
  apply (HG own' fl'); [done | done |]. eapply evolves_over; [| exact Ev' | done | reflexivity | exact Hk].
  eapply evolves_mem; [| exact Em | exact Es2]. instantiate (1 := fun _ _ => True).
  eapply (evolves_trans _ _ _ _ _ _ _ _ _ _ _ _ _ _ Ev E1 Hd); [intros; lia|].
  intros a _ Ha. right. split; [lia|]. split; [lia|done].
Qed.

Lemma alloc_loop_ok : forall fuel own fl s k,
  vm_inv own fl ds s -> up oldsz <= k <= up newsz -> up newsz - k < Z.of_nat fuel ->
  Z.of_nat (length fl0) <= Z.of_nat (length fl) + 2 * (k - up oldsz) ->
  budget fl0 (mem s0) d <= budget fl (mem s) d + (k - up oldsz) ->
  evolves ds d (up oldsz) k (fun _ => fresh) s0 s ->
  returns (allocuvm_loop fuel d (4096 * k) oldsz newsz) s Q.
Proof using All.
  induction fuel as [|fuel IH]; intros own fl s k I Hk Hfuel Hlen Hbud Ev; [lia|]. cbn [allocuvm_loop].
  destruct (Z.ltb_spec (4096 * k) newsz) as [Hlt|Hge].
  2:{ step. assert (up newsz = k) as Ek; [|apply (Hok own fl); [done | apply Ev | by rewrite Ek | lia]]. unfold up in *. Z.div_mod_to_equations. lia. }
  assert (0 <= k) as Hk0 by (unfold up in Hk; Z.div_mod_to_equations; lia).
  destruct (page_addr k Hk0 ltac:(lia)) as (Hu & Ha & Epg).
  assert (k < up newsz) as Hku by (unfold up; Z.div_mod_to_equations; lia).
  apply returns_bind, (kalloc_ok own fl ds); [done|]. destruct fl as [|x fl].
  - cbn [Z.eqb]. eapply (alloc_fail k); [exact Ev | lia | exact I | apply evolves_refl; lia |].
    intros own' fl' s' I' _ Ev'. step. pose proof (absent_bound (mem s) d). apply (Hbad own' fl'); [done | apply Ev' | simpl in *; lia | unfold budget in *; simpl in *; lia | done].
  - intros I1. destruct (Z.eqb_spec x 0) as [->|_].
    { destruct (vi_free _ _ _ _ I 0 ltac:(set_solver)) as [(_ & _ & ?) _]. unfold KERNBASE in *. lia. }
    apply returns_bind, (new_page_ok own fl ds s x _ d k I Hd I1). intros s1 I2 Hpr1 Hx _ E1 Hz Hab.
    apply returns_bind. eapply (map_page_ok _ fl ds s1 d _ x); [done | done | done | done | | done | by rewrite own_set_same | by vm_compute; split | |].
    + rewrite (cell_flags _ _ _ PTE_P), (ev_out _ _ _ _ _ _ _ E1), (ev_out _ _ _ _ _ _ _ Ev), <- cell_flags by (done || lia).
      apply Hnp; [done|]. rewrite Epg. lia.
    + intros own' fl' s' I' Hpr Hl _ E2 Hb2. change (0 <? 0) with false. cbv iota. change PGSIZE with 4096 at 1. rewrite (u32_small (4096 * k + 4096)) by (unfold KERNBASE in *; lia).
      replace (4096 * k + 4096) with (4096 * (k + 1)) by lia. apply (IH own' fl'); [done | lia | lia | simpl in *; lia | unfold budget in *; simpl length in *; lia |].
      eapply evolves_next; [exact Ev | | done | lia]. rewrite Epg in E2. eapply evolves_over; [exact E1 | | done | lia | lia].
      eapply evolves_mono; [exact E2|]. intros a c _ _ ->. unfold fresh. f_equal. apply Hz.
      pose proof (Z.mod_pos_bound a PGSIZE ltac:(done)). lia.
    + intros -> Hb2. change (-1 <? 0) with true. cbv iota.
      eapply (alloc_fail k); [exact Ev | lia | exact I2 | exact E1 |]. intros own' fl' s' I' Hdet Ev'. apply returns_bind.
      assert (own' x = Detached) as Hxo by (apply Hdet, own_set_same).
      apply (kfree_ok own' fl' ds); [done..|]. intros s3 _ I3 Hpr3 A3 V3 _. step. apply (Hbad _ _ _ I3).
      * eapply same_user_trans; [apply Ev' | by apply same_user_proc].
      * simpl in *; lia.
      * unfold budget in *. simpl length in *. lia.
      * eapply (evolves_trans _ _ (up oldsz) (up newsz) _ k k (fun _ _ => True)); [exact Ev' | | done | intros; lia | intros a _ Hap; right; split; [lia|]; split; [lia | done]].
        eapply (hidden_evolves own' fl' ds s' s3 x); [done | intros; by rewrite Hxo | by apply same_user_proc | done | done].
Qed.
End Alloc.

Lemma allocuvm_ok own fl ds s d oldsz newsz (Q : Z -> mach -> Prop) :
  vm_inv own fl ds s -> d ∈ ds -> 0 <= oldsz -> 0 <= newsz ->
  (forall a, is_user a -> up oldsz <= a / PGSIZE < up newsz -> has (vpte (mem s) d a) PTE_P = false) ->
  (KERNBASE <= newsz -> Q 0 s) ->
  (newsz < KERNBASE -> newsz < oldsz -> Q oldsz s) ->
  (newsz < KERNBASE -> oldsz <= newsz -> forall own' fl' s', vm_inv own' fl' ds s' -> same_user s s' ->
     evolves ds d (up oldsz) (up newsz) (fun _ => fresh) s s' ->
     budget fl (mem s) d - (up newsz - up oldsz) <= budget fl' (mem s') d -> Q newsz s') ->
  (newsz < KERNBASE -> oldsz <= newsz -> forall own' fl' s', vm_inv own' fl' ds s' -> same_user s s' ->
     Z.of_nat (length fl) < 2 * (up newsz - up oldsz) -> budget fl (mem s) d < up newsz - up oldsz -> evolves ds d (up oldsz) (up newsz) (fun _ => gone) s s' -> Q 0 s') ->
  returns (allocuvm d oldsz newsz) s Q.
Proof.
  intros I Hd Hold Hnew Hnp H1 H2 H3 H4. unfold allocuvm. destruct (Z.leb_spec KERNBASE newsz); [step; auto|].
  destruct (Z.ltb_spec newsz oldsz); [step; auto|]. rewrite PGROUNDUP_eq by lia. fold (up oldsz).
  assert (up oldsz <= up newsz) by (unfold up; Z.div_mod_to_equations; lia).
  eapply (alloc_loop_ok ds d oldsz newsz fl s); try done; try lia; eauto.
  - unfold up. change PGSIZE with 4096. Z.div_mod_to_equations. lia.
  - apply evolves_refl. lia.
Qed.

(** ** The size of a process *)

(** nothing is mapped past the size *)
Definition sized (m : Z -> Z) (d sz : Z) : Prop :=
  0 <= sz < KERNBASE /\ forall a, is_user a -> up sz <= a / PGSIZE -> gone (cell m d a).

Lemma evolves_uview ds d lo hi C s s' v : evolves ds d lo hi C s s' -> d ∈ ds -> (forall a c, C a c -> see c = v) ->
  forall d' a, d' ∈ ds -> is_user a ->
  uview (mem s') d' a = if (d' =? d) && ((lo <=? a / PGSIZE) && (a / PGSIZE <? hi)) then v else uview (mem s) d' a.
Proof.
  intros [U I O K] Hd HC d' a Hd' Ha. rewrite !uview_see. destruct (_ && _) eqn:E.
  - rewrite !andb_true_iff, Z.eqb_eq, Z.leb_le, Z.ltb_lt in E. destruct E as [-> E]. by eapply HC, I.
  - rewrite O; [done | done | done|]. intros [-> [E1 E2]]. rewrite Z.eqb_refl in E. cbn [andb] in E.
    rewrite (proj2 (Z.leb_le _ _) E1), (proj2 (Z.ltb_lt _ _) E2) in E. done.
Qed.

Lemma sized_evolves ds d lo hi C s s' sz : evolves ds d lo hi C s s' -> d ∈ ds -> 0 <= sz < KERNBASE ->
  (forall a c, is_user a -> up sz <= a / PGSIZE -> lo <= a / PGSIZE < hi -> C a c -> gone c) ->
  (forall a, is_user a -> up sz <= a / PGSIZE -> ~ lo <= a / PGSIZE < hi -> gone (cell (mem s) d a)) ->
  sized (mem s') d sz.
Proof.
  intros [U I O K] Hd Hsz H1 H2. split; [done|]. intros a Ha Hp. destruct (decide (lo <= a / PGSIZE < hi)) as [Hin|Hout].
  - eapply H1; eauto.
  - rewrite O; [by apply H2 | done | done | by intros [_ ?]].
Qed.

(** C6: [sbrk].  Growing maps zeroed pages and changes nothing else; it fails
    only past the user range or without free pages, and then no address space
    changes.  Shrinking removes exactly the pages above the new size.  Shrinking
    to nothing removes all pages but reports failure and keeps the size;
    shrinking by more than the size does nothing.  The result is the old size. *)
Theorem sys_sbrk_correct own fl ds s n :
  vm_inv own fl ds s -> p_pgdir s ∈ ds -> sized (mem s) (p_pgdir s) (p_sz s) -> - 2 ^ 31 <= n < 2 ^ 31 ->
  let sz := p_sz s in
  let keeps (lo hi : Z) (v : option Z) (s' : mach) := forall d a, d ∈ ds -> is_user a ->
    uview (mem s') d a = if (d =? p_pgdir s) && ((up lo <=? a / PGSIZE) && (a / PGSIZE <? up hi)) then v else uview (mem s) d a in
  returns (sys_sbrk (Some n)) s (fun r s' =>
    (exists own' fl', vm_inv own' fl' ds s') /\ p_pgdir s' = p_pgdir s /\
    ((0 <= n /\ sz + n < KERNBASE /\ r = sz /\ p_sz s' = sz + n /\ keeps sz (sz + n) (Some 0) s' /\ sized (mem s') (p_pgdir s) (sz + n)) \/
     (0 < n /\ r = -1 /\ p_sz s' = sz /\ keeps 0 0 None s' /\ sized (mem s') (p_pgdir s) sz /\
        (KERNBASE <= sz + n \/ Z.of_nat (length fl) < 2 * (up (sz + n) - up sz))) \/
     (n < 0 /\ 0 < sz + n /\ r = sz /\ p_sz s' = sz + n /\ keeps (sz + n) sz None s' /\ sized (mem s') (p_pgdir s) (sz + n)) \/
     (n < 0 /\ sz + n = 0 /\ r = -1 /\ p_sz s' = sz /\ keeps 0 sz None s' /\ sized (mem s') (p_pgdir s) 0) \/
     (n < 0 /\ sz + n < 0 /\ r = (if sz =? 0 then -1 else sz) /\ s' = s))).
Proof.
  intros I Hd [Hsz Hsized] Hn sz keeps. unfold sys_sbrk, growproc. fold sz in Hsz, Hsized. step.
  rewrite i32_small by (unfold KERNBASE in *; lia). fold sz. apply returns_bind. step. fold sz.
  assert (forall d a, (d =? p_pgdir s) && ((up 0 <=? a / PGSIZE) && (a / PGSIZE <? up 0)) = false) as Enone.
  { intros d a. change (up 0) with 0. destruct (Z.leb_spec 0 (a / PGSIZE)), (Z.ltb_spec (a / PGSIZE) 0); try lia; by rewrite andb_false_r. }
  destruct (Z.ltb_spec 0 n) as [Hpos|Hneg].
  - rewrite u32_small by (unfold KERNBASE in *; lia).
    apply returns_bind, (allocuvm_ok own fl ds s); [done | done | lia | lia | | | | |].
    + intros a Ha Hp. by destruct (proj1 (gone_untouched _ _ _) (Hsized a Ha (proj1 Hp))) as [? _].
    + intros Hk. change (0 =? 0) with true. step. change (-1 <? 0) with true. step.
      split; [by exists own, fl|]. split; [done|]. right; left. split_and!; try done; [| by left].
      intros d a _ _. by rewrite Enone.
    + intros _ ?. lia.
    + intros Hk _ own' fl' s' I' (U1 & U2 & U3) Ev _. destruct (Z.eqb_spec (sz + n) 0); [lia|]. step. step. change (0 <? 0) with false. step.
      split; [exists own', fl'; by destruct I'|]. split; [done|]. left. split_and!; try done; try lia.
      * intros d a Hd' Ha. cbn [set_sz mem]. apply (evolves_uview _ _ _ _ _ _ _ (Some 0) Ev Hd); [|done..]. intros _ c. apply see_fresh.
      * cbn [set_sz mem]. eapply sized_evolves; [exact Ev | done | lia | intros; lia |]. intros a Ha Hp Hout.
        assert (up sz <= up (sz + n)) by (unfold up; Z.div_mod_to_equations; lia). apply Hsized; [done|lia].
    + intros Hk _ own' fl' s' I' (U1 & U2 & U3) Hlen _ Ev. change (0 =? 0) with true. step. change (-1 <? 0) with true. step.
      split; [by exists own', fl'|]. split; [done|]. right; left. split_and!; try done; [| |by right].
      * intros d a Hd' Ha. rewrite Enone. rewrite (evolves_uview _ _ _ _ _ _ _ None Ev Hd) by (done || intros _ c; apply see_gone).
        destruct (_ && _) eqn:E; [|done]. rewrite !andb_true_iff, Z.eqb_eq, Z.leb_le in E. destruct E as [-> [E _]].
        rewrite uview_see, see_gone; [done|]. by apply Hsized.
      * eapply sized_evolves; [exact Ev | done | done | done|]. intros a Ha Hp _. by apply Hsized.
  - destruct (Z.ltb_spec n 0) as [Hlt|Hge].
    2:{ step. change (0 <? 0) with false. step. assert (n = 0) as -> by lia. rewrite Z.add_0_r.
      split; [by exists own, fl|]. split; [done|]. left. split_and!; try done; try lia.
      intros d a _ _. destruct (Z.leb_spec (up sz) (a / PGSIZE)), (Z.ltb_spec (a / PGSIZE) (up sz)); try lia; by rewrite !andb_false_r. }
    destruct (Z.lt_ge_cases (sz + n) 0) as [Hund|Hsn].
    + assert (u32 (sz + n) = sz + n + 2 ^ 32) as ->.
      { unfold u32. symmetry. apply (Z.mod_unique_pos _ _ (-1)); unfold KERNBASE in *; lia. }
      apply returns_bind. unfold deallocuvm. destruct (Z.leb_spec sz (sz + n + 2 ^ 32)); [|unfold KERNBASE in *; lia]. step.
      assert (set_sz sz s = s) as Es by (unfold sz; by destruct s). assert (exists own' fl', vm_inv own' fl' ds s) as Hinv by (by exists own, fl).
      destruct (Z.eqb_spec sz 0).
      * step. change (-1 <? 0) with true. step. split; [done|]. split; [done|]. right; right; right; right. split_and!; done || lia.
      * step. step. change (0 <? 0) with false. step. rewrite Es. split; [done|]. split; [done|]. right; right; right; right. split_and!; done || lia.
    + rewrite u32_small by (unfold KERNBASE in *; lia).
      apply returns_bind. eapply deallocuvm_ok; [exact I | done | lia | lia |]. intros own' fl' s' I' Hpr _ _ Ev.
      destruct (Z.leb_spec sz (sz + n)); [lia|].
      assert (forall d a, d ∈ ds -> is_user a -> uview (mem s') d a =
        if (d =? p_pgdir s) && ((up (sz + n) <=? a / PGSIZE) && (a / PGSIZE <? up sz)) then None else uview (mem s) d a) as Hv.
      { intros d a Hd' Ha. apply (evolves_uview _ _ _ _ _ _ _ None Ev Hd); [|done..]. intros _ c. apply see_gone. }
      assert (sized (mem s') (p_pgdir s) (sz + n)) as Hs'.
      { eapply sized_evolves; [exact Ev | done | lia | done |]. intros a Ha Hp Hout. apply Hsized; [done|lia]. }
      destruct (Z.eqb_spec (sz + n) 0) as [E0|Hne].
      * step. change (-1 <? 0) with true. step. split; [by exists own', fl'|]. split; [apply Hpr|]. right; right; right; left.
        rewrite E0 in *. split_and!; try done. apply Hpr.
      * step. step. change (0 <? 0) with false. step. split; [exists own', fl'; by destruct I'|]. split; [apply Hpr|]. right; right; left.
        split_and!; try done; lia.
Qed.

(** ** Copying to user memory *)

(** bytes written into the frame of a page *)
Lemma write_cell own fl ds s d a off n buf :
  vm_inv own fl ds s -> d ∈ ds -> is_user a -> has (vpte (mem s) d a) PTE_P = true -> 0 <= off -> off + n <= PGSIZE ->
  let s' := set_mem (copy_bytes (P2V (PTE_ADDR (vpte (mem s) d a)) + off) buf n) s in
  vm_inv own fl ds s' /\ (forall d' b, d' ∈ ds -> vpte (mem s') d' b = vpte (mem s) d' b) /\
  (forall d' b, d' ∈ ds -> is_user b -> cell (mem s') d' b =
     if (d' =? d) && (b / PGSIZE =? a / PGSIZE) && ((off <=? b mod PGSIZE) && (b mod PGSIZE <? off + n))
     then ((cell (mem s) d' b).1, buf (b mod PGSIZE - off)) else cell (mem s) d' b) /\
  (forall d', d' ∈ ds -> absent (mem s') d' = absent (mem s) d').
Proof.
  intros I Hd Hu HP Hoff Hn s'. destruct (vi_frame _ _ _ _ I d a Hd Hu HP) as [F1 F2]. set (v := P2V _) in *.
  assert (agree (fun x => x <> v) (mem s) (mem s')) as Ag.
  { intros x Hx. unfold s'. cbn. unfold copy_bytes. destruct ((v + off <=? x) && (x <? v + off + n)) eqn:E; [|done].
    rewrite andb_true_iff, Z.leb_le, Z.ltb_lt in E. destruct Hx. destruct F1 as (F1 & _). change PGSIZE with 4096 in *. Z.div_mod_to_equations. lia. }
  destruct (vm_inv_agree own fl ds s s' _ I Ag eq_refl) as [I' V']; [by intros x Hx ->; rewrite F2 in Hx|].
  split; [done|]. split; [done|]. split.
  2:{ intros d' Hd'. destruct (vi_dir _ _ _ _ I d' Hd'). apply absent_same. intros i Hi. apply (pde_agree _ _ _ _ _ Ag); [done | congruence | done]. }
  intros d' b Hd' Hb. unfold cell. rewrite V' by done. cbn [fst].
  destruct ((d' =? d) && (b / PGSIZE =? a / PGSIZE)) eqn:E; cbn [andb].
  - rewrite andb_true_iff, !Z.eqb_eq in E. destruct E as [-> E].
    rewrite (vpte_same_page _ _ b a) by (done || by apply user_u32). rewrite HP. fold v. unfold s'. cbn. unfold copy_bytes.
    replace (v + b mod PGSIZE - (v + off)) with (b mod PGSIZE - off) by lia.
    replace ((v + off <=? v + b mod PGSIZE) && (v + b mod PGSIZE <? v + off + n)) with ((off <=? b mod PGSIZE) && (b mod PGSIZE <? off + n)); [by destruct (_ && _)|].
    apply eq_true_iff_eq. rewrite !andb_true_iff, !Z.leb_le, !Z.ltb_lt. lia.
  - f_equal. destruct (has (vpte (mem s) d' b) PTE_P) eqn:HP'; [|done].
    destruct (vi_frame _ _ _ _ I d' b Hd' Hb HP') as [G1 G2]. apply Ag. rewrite frame_byte by done. intros Ev. rewrite Ev, F2 in G2.
    injection G2 as -> Ep. by rewrite Z.eqb_refl, Ep, Z.eqb_refl in E.
Qed.

Lemma write_frame own fl ds s d a off n buf :
  vm_inv own fl ds s -> d ∈ ds -> is_user a -> has (vpte (mem s) d a) PTE_P = true -> has (vpte (mem s) d a) PTE_U = true ->
  0 <= off -> off + n <= PGSIZE ->
  let s' := set_mem (copy_bytes (P2V (PTE_ADDR (vpte (mem s) d a)) + off) buf n) s in
  vm_inv own fl ds s' /\ (forall d' b, d' ∈ ds -> vpte (mem s') d' b = vpte (mem s) d' b) /\
  (forall d' b, d' ∈ ds -> is_user b -> uview (mem s') d' b =
     if (d' =? d) && (b / PGSIZE =? a / PGSIZE) && ((off <=? b mod PGSIZE) && (b mod PGSIZE <? off + n))
     then Some (buf (b mod PGSIZE - off)) else uview (mem s) d' b).
Proof.
  intros I Hd Hu HP HU Hoff Hn s'. destruct (write_cell own fl ds s d a off n buf) as (I' & V' & C' & _); [done..|].
  split; [done|]. split; [done|]. intros d' b Hd' Hb. rewrite !uview_see, C' by done.
  destruct (_ && _) eqn:E; [|done]. rewrite !andb_true_iff, !Z.eqb_eq in E. destruct E as [[-> E] _]. unfold see. cbn [fst snd].
  rewrite <- !(cell_flags _ _ _) by done. by rewrite (vpte_same_page _ _ b a), HP, HU by (done || by apply user_u32).
Qed.

(** user pages below, kernel pages that users cannot access above *)
Definition kern_ok (m : Z -> Z) (d : Z) : Prop := forall a, KERNBASE <= a < 2 ^ 32 -> has (vpte m d a) PTE_U = false.

(** [uva2ka] finds the frame of a page exactly when the user can access it and it is there *)
Lemma uva2ka_ok own fl ds s d a (Q : Z -> mach -> Prop) :
  vm_inv own fl ds s -> d ∈ ds -> 0 <= a < 2 ^ 32 -> kern_ok (mem s) d ->
  (is_user a -> has (vpte (mem s) d a) PTE_P = true -> has (vpte (mem s) d a) PTE_U = true ->
     P2V (PTE_ADDR (vpte (mem s) d a)) <> 0 -> Q (P2V (PTE_ADDR (vpte (mem s) d a))) s) ->
  (~ is_user a \/ has (vpte (mem s) d a) PTE_P = false \/ has (vpte (mem s) d a) PTE_U = false -> Q 0 s) ->
  returns (uva2ka d a) s Q.
Proof.
  intros I Hd Ha Hk HQ H0. unfold uva2ka. apply returns_bind, walk_look_ok.
  destruct (has (pde_of (mem s) d (PDX a)) PTE_P) eqn:Hp.
  2:{ rewrite (proj2 (pte_addr_zero own fl ds s d a I Hd) Hp). cbn [Z.eqb]. step. apply H0. right; left. unfold vpte. by rewrite Hp. }
  destruct (pte_addr_word _ _ _ _ _ _ I Hd Hp) as (_ & _ & P0 & PV). destruct (Z.eqb_spec (pte_addr (mem s) d a) 0); [done|].
  apply returns_bind, load_ok. rewrite PV. destruct (has (vpte (mem s) d a) PTE_P) eqn:HP; cbn [negb]; [|step; auto].
  destruct (has (vpte (mem s) d a) PTE_U) eqn:HU; cbn [negb]; [|step; auto]. step.
  assert (is_user a) as Hu by (destruct (Z.lt_ge_cases a KERNBASE); [unfold is_user; lia | rewrite Hk in HU by lia; done]).
  apply HQ; try done. destruct (vi_frame _ _ _ _ I d a Hd Hu HP) as [(_ & _ & F) _]. unfold KERNBASE in *. lia.
Qed.

Lemma uview_page_none m d a b : 0 <= a < 2 ^ 32 -> 0 <= b < 2 ^ 32 -> a / PGSIZE = b / PGSIZE -> uview m d a = None <-> uview m d b = None.
Proof.
  intros Ha Hb E. unfold uview. rewrite (vpte_same_page m d a b) by done. destruct (has _ PTE_P); [|done]. by destruct (has _ PTE_U).
Qed.

(** the bytes [buf] at [va, va + k) *)
Definition written (ds : list Z) (d va : Z) (buf : Z -> Z) (k : Z) (s s' : mach) : Prop :=
  same_proc s s' /\
  (forall d' a, d' ∈ ds -> is_user a -> uview (mem s') d' a =
     if (d' =? d) && ((va <=? a) && (a <? va + k)) then Some (buf (a - va)) else uview (mem s) d' a) /\
  (forall d' a, d' ∈ ds -> KERNBASE <= a < 2 ^ 32 -> vpte (mem s') d' a = vpte (mem s) d' a) /\
  (forall d' a, d' ∈ ds -> is_user a -> has (vpte (mem s) d' a) PTE_P = true -> has (vpte (mem s') d' a) PTE_P = true) /\
  (forall d' a, d' ∈ ds -> d' <> d -> is_user a -> cell (mem s') d' a = cell (mem s) d' a).

Lemma written_view ds d va buf k n s s1 s2 q :
  written ds d va buf k s s1 -> same_proc s1 s2 -> 0 <= n -> 0 <= k ->
  (forall d' a, d' ∈ ds -> KERNBASE <= a < 2 ^ 32 -> vpte (mem s2) d' a = vpte (mem s1) d' a) ->
  (forall d' a, d' ∈ ds -> is_user a -> has (vpte (mem s1) d' a) PTE_P = true -> has (vpte (mem s2) d' a) PTE_P = true) ->
  (forall d' a, d' ∈ ds -> d' <> d -> is_user a -> cell (mem s2) d' a = cell (mem s1) d' a) ->
  (forall i, 0 <= i < n -> q i = buf (k + i)) ->
  (forall d' a, d' ∈ ds -> is_user a -> uview (mem s2) d' a =
     if (d' =? d) && ((va + k <=? a) && (a <? va + k + n)) then Some (q (a - (va + k))) else uview (mem s1) d' a) ->
  written ds d va buf (k + n) s s2.
Proof.
  intros (P1 & V1 & K1 & R1 & C1) P2 Hn Hk K2 R2 C2 Hq V2. split; [by eapply same_proc_trans|]. split; [|split; [|split]].
  - intros d' a Hd' Ha. rewrite V2, V1 by done. destruct (d' =? d); cbn [andb]; [|done].
    destruct (Z.leb_spec (va + k) a), (Z.ltb_spec a (va + k + n)), (Z.leb_spec va a), (Z.ltb_spec a (va + k)), (Z.ltb_spec a (va + (k + n))); cbn [andb]; try done; try lia.
    rewrite Hq by lia. f_equal. f_equal. lia.
  - intros d' a Hd' Ha. rewrite K2, K1 by done. done.
  - auto.
  - intros d' a Hd' Hne Ha. by rewrite C2, C1.
Qed.

Section Copyout.
Context (ds : list Z) (d va : Z) (buf : Z -> Z) (len : Z) (fl0 : list Z) (s0 : mach).
Hypothesis Hd : d ∈ ds.
Hypothesis Hva : 0 <= va < 2 ^ 32.
Hypothesis Hkern : kern_ok (mem s0) d.

(** what [copyout] did when it stopped after [k] bytes *)
Definition copied (r : Z) (s' : mach) : Prop := exists own' fl' k,
  vm_inv own' fl' ds s' /\ 0 <= k <= len /\ written ds d va buf k s0 s' /\
  (forall a, va <= a < va + k -> is_user a /\ uview (mem s0) d a <> None) /\
  ((r = 0 /\ k = len) \/
   (r = -1 /\ k < len /\ (~ is_user (va + k) \/ uview (mem s0) d (va + k) = None \/
      (has (vpte (mem s0) d (va + k)) PTE_P = false /\ fl' = [] /\ Z.of_nat (length fl0) <= up (va + k) - va / PGSIZE)))).

(** finding the frame of a page, which is made when it is only reserved *)
Lemma copyout_page own fl s a (K : Z -> M mach Z) (Q : Z -> mach -> Prop) :
  vm_inv own fl ds s -> 0 <= a < 2 ^ 32 -> kern_ok (mem s) d ->
  (forall own' fl' s', vm_inv own' fl' ds s' -> same_proc s s' -> is_user a ->
     (forall d' b, d' ∈ ds -> is_user b -> uview (mem s') d' b = uview (mem s) d' b) ->
     (forall d' b, d' ∈ ds -> KERNBASE <= b < 2 ^ 32 -> vpte (mem s') d' b = vpte (mem s) d' b) ->
     (forall d' b, d' ∈ ds -> is_user b -> has (vpte (mem s) d' b) PTE_P = true -> has (vpte (mem s') d' b) PTE_P = true) ->
     (forall d' b, d' ∈ ds -> d' <> d -> is_user b -> cell (mem s') d' b = cell (mem s) d' b) ->
     has (vpte (mem s') d a) PTE_P = true -> has (vpte (mem s') d a) PTE_U = true ->
     (length fl <= S (length fl'))%nat -> P2V (PTE_ADDR (vpte (mem s') d a)) <> 0 -> returns (K (P2V (PTE_ADDR (vpte (mem s') d a)))) s' Q) ->
  (~ is_user a \/ uview (mem s) d a = None \/ (has (vpte (mem s) d a) PTE_P = false /\ fl = []) -> returns (K 0) s Q) ->
  returns (pa0 ← uva2ka d a; r ← (if pa0 =? 0 then allocssupage d a else mret (-1)); pa0 ← (if r =? 0 then uva2ka d a else mret pa0); K pa0) s Q.
Proof using Hd Hend.
  intros I Ha Hk HQ H0. apply returns_bind, (uva2ka_ok own fl ds); [done..| |].
  - intros Hu HP HU Hne. destruct (Z.eqb_spec (P2V (PTE_ADDR (vpte (mem s) d a))) 0); [done|]. step. change (-1 =? 0) with false. step. apply (HQ own fl); (done || lia).
  - intros Hno. change (0 =? 0) with true. apply returns_bind. eapply returns_mono; [by apply (allocssupage_ok own fl ds)|].
    intros r s1 [(-> & Hu & [Hr1 Hr2] & Hpr & (own' & f & fl' & -> & I' & _) & HP & Hv & Hkv & Hmon & Hcell)|(-> & -> & Hwhy)].
    + change (0 =? 0) with true. cbv iota. pose proof (fun d' b H1 H2 => Hcell d' b H1 (or_introl H2)) as Hcell'.
      assert (uview (mem s) d a = Some 0) as Ev by (unfold uview; by rewrite Hr1, Hr2).
      assert (has (vpte (mem s1) d a) PTE_U = true) as HU.
      { rewrite <- (Hv d a Hd Hu) in Ev. unfold uview in Ev. rewrite HP in Ev. destruct (has (vpte (mem s1) d a) PTE_U); [done|]. discriminate Ev. }
      apply returns_bind, (uva2ka_ok own' fl' ds); [done | done | done | | intros; apply (HQ own' fl'); (done || (simpl; lia)) |].
      * intros b Hb. rewrite Hkv by done. by apply Hk.
      * intros [?|[?|?]]; [done | congruence | congruence].
    + change (-1 =? 0) with false. step. apply H0. destruct (Z.lt_ge_cases a KERNBASE); [|left; unfold is_user; lia].
      destruct (has (vpte (mem s) d a) PTE_P) eqn:HP.
      * right; left. unfold uview. rewrite HP. destruct (has (vpte (mem s) d a) PTE_U) eqn:HU; [|done]. destruct Hno as [Hno|[?|?]]; [|done|done]. unfold is_user in Hno. lia.
      * destruct Hwhy as [?|[Hwhy|?]]; [by left | | by right; right]. right; left. unfold uview, reserved in *. rewrite HP in *.
        destruct (has (vpte (mem s) d a) PTE_SSU) eqn:HS; [|done]. by destruct Hwhy.
Qed.

Lemma copyout_loop_ok : forall fuel own fl s k q,
  vm_inv own fl ds s -> 0 <= k <= len -> written ds d va buf k s0 s ->
  (forall a, va <= a < va + k -> is_user a /\ uview (mem s0) d a <> None) ->
  (forall i, 0 <= i -> q i = buf (k + i)) -> va + k <= KERNBASE \/ k = 0 -> (k = 0 \/ (va + k) mod PGSIZE = 0) ->
  len - k <= PGSIZE * (Z.of_nat fuel - (if k =? 0 then 2 else 1)) ->
  Z.of_nat (length fl0) <= Z.of_nat (length fl) + (if k =? 0 then 0 else up (va + k) - va / PGSIZE) ->
  returns (copyout_loop fuel d (va + k) q (len - k)) s copied.
Proof using Hd Hva Hkern Hend.
  induction fuel as [|fuel IH]; intros own fl s k q I Hk W Hacc Hq Hb Hal Hfuel Hlen.
  { change PGSIZE with 4096 in Hfuel. destruct (k =? 0); lia. }
  cbn [copyout_loop]. destruct (Z.ltb_spec 0 (len - k)) as [Hlt|Hge].
  2:{ step. exists own, fl, k. split_and!; try done; lia. }
  set (cur := va + k). assert (0 <= cur < 2 ^ 32) as Hcur by (unfold KERNBASE in *; lia).
  destruct (same_page_user cur Hcur) as (H1 & H2 & H3 & H4 & H5). set (va0 := PGROUNDDOWN cur) in *.
  assert (va0 <= cur < va0 + 4096 /\ va0 mod 4096 = 0) as [Hr Hm] by (unfold va0; rewrite PGROUNDDOWN_eq; Z.div_mod_to_equations; lia).
  assert (kern_ok (mem s) d) as Hks by (destruct W as (_ & _ & Kv & _ & _); intros a Ha; rewrite Kv by done; by apply Hkern).
  assert (~ is_user va0 \/ uview (mem s) d va0 = None \/ (has (vpte (mem s) d va0) PTE_P = false /\ fl = []) -> copied (-1) s) as Hstop.
  { intros Hwhy. exists own, fl, k. split_and!; try done; try lia. right. split; [done|]. split; [lia|]. fold cur. rewrite <- H5.
    destruct (Z.lt_ge_cases va0 KERNBASE) as [Hlt0|]; [|left; unfold is_user; lia]. assert (is_user cur) as Hu by (apply H5; unfold is_user; lia).
    destruct Hwhy as [?|[Hwhy|[HnP ->]]]; [by left | right; left |].
    2:{ right; right. split.
        { destruct W as (_ & _ & _ & R & _). destruct (has (vpte (mem s0) d cur) PTE_P) eqn:E; [|done].
          by rewrite (vpte_same_page _ _ va0 cur), R in HnP. }
        split; [done|]. cbn [length] in Hlen. fold cur in Hlen. change PGSIZE with 4096 in *. unfold up in *.
        destruct (k =? 0); [|lia]. simpl in Hlen. assert (va <= cur) by lia. Z.div_mod_to_equations. lia. }
    destruct W as (_ & V & _). rewrite (uview_page_none _ _ _ cur) in Hwhy by done. rewrite V in Hwhy by done.
    replace ((va <=? cur) && (cur <? va + k)) with false in Hwhy; [by rewrite andb_false_r in Hwhy|].
    symmetry. apply not_true_iff_false. rewrite andb_true_iff, Z.ltb_lt. lia. }
  apply (copyout_page own fl); [done | done | done | |].
  2:{ intros Hwhy. change (0 =? 0) with true. step. by apply Hstop. }
  intros own' fl' s' I' Hpr Hu Hview Hkv Hmon Hcell HP HU Hlen' Hne. destruct (Z.eqb_spec (P2V (PTE_ADDR (vpte (mem s') d va0))) 0) as [|_]; [done|]. step.
  pose proof (Z.le_min_l (PGSIZE - (cur - va0)) (len - k)) as Hn1. pose proof (Z.le_min_r (PGSIZE - (cur - va0)) (len - k)) as Hn2.
  assert (Z.min (PGSIZE - (cur - va0)) (len - k) = PGSIZE - (cur - va0) \/ Z.min (PGSIZE - (cur - va0)) (len - k) = len - k) as Hn3 by lia.
  assert (0 < Z.min (PGSIZE - (cur - va0)) (len - k)) as Hn0 by (change PGSIZE with 4096; lia).
  set (n := Z.min _ _) in *. clearbody n.
  destruct (write_frame own' fl' ds s' d va0 (cur - va0) n q I' Hd Hu HP HU) as (I2 & V2 & U2); [lia | lia |].
  destruct (write_cell own' fl' ds s' d va0 (cur - va0) n q I' Hd Hu HP) as (_ & _ & C2 & _); [lia | lia |].
  set (s2 := set_mem _ s') in *.
  assert (forall d' a, d' ∈ ds -> is_user a -> uview (mem s2) d' a =
    if (d' =? d) && ((cur <=? a) && (a <? cur + n)) then Some (q (a - cur)) else uview (mem s) d' a) as U3.
  { intros d' a Hd' Ha. rewrite U2, Hview by done.
    replace ((d' =? d) && (a / PGSIZE =? va0 / PGSIZE) && ((cur - va0 <=? a mod PGSIZE) && (a mod PGSIZE <? cur - va0 + n)))
      with ((d' =? d) && ((cur <=? a) && (a <? cur + n))).
    - destruct (_ && _) eqn:E; [|done]. rewrite !andb_true_iff, Z.leb_le, Z.ltb_lt in E. do 2 f_equal. change PGSIZE with 4096 in *. Z.div_mod_to_equations. lia.
    - rewrite <- andb_assoc. f_equal. apply eq_true_iff_eq. rewrite !andb_true_iff, Z.eqb_eq, !Z.leb_le, !Z.ltb_lt. change PGSIZE with 4096 in *. Z.div_mod_to_equations. lia. }
  assert (written ds d va buf (k + n) s0 s2) as W2.
  { eapply (written_view ds d va buf k n s0 s s2 q); [done | done | lia | lia | | | | intros i Hi; apply Hq; lia | exact U3].
    - intros d' a Hd' Ha. rewrite V2 by done. by apply Hkv.
    - intros d' a Hd' Ha HPa. rewrite V2 by done. by apply Hmon.
    - intros d' a Hd' Hnd Ha. rewrite C2 by done. rewrite (proj2 (Z.eqb_neq d' d)) by done. by apply Hcell. }
  assert (is_user cur) as Huc by (by apply H5).
  assert (forall a, va <= a < va + (k + n) -> is_user a /\ uview (mem s0) d a <> None) as Hacc2.
  { intros a Ha. destruct (decide (a < cur)) as [|Hge]; [apply Hacc; lia|].
    assert (is_user a) as Hua by (unfold is_user in *; change PGSIZE with 4096 in *; change KERNBASE with (524288 * 4096) in *; Z.div_mod_to_equations; lia).
    split; [done|]. destruct W as (_ & V & _). specialize (V d a Hd Hua). rewrite Z.eqb_refl in V. cbn [andb] in V.
    destruct (Z.ltb_spec a (va + k)); [lia|]. rewrite andb_false_r in V. rewrite <- V, <- Hview by done.
    unfold uview. rewrite (vpte_same_page _ _ a va0), HP, HU; [done | by apply user_u32 | done |].
    change PGSIZE with 4096 in *. Z.div_mod_to_equations. lia. }
  assert (k + n < len -> va + (k + n) = va0 + PGSIZE) as Hnext by lia.
  destruct (decide (k + n = len)) as [El|Hl].
  - assert (exists f, fuel = S f) as [f ->] by (destruct fuel; [exfalso; change PGSIZE with 4096 in *; destruct (Z.eqb_spec k 0); lia | by eexists]).
    cbn [copyout_loop]. destruct (Z.ltb_spec 0 (len - k - n)); [lia|]. step. exists own', fl', (k + n). split_and!; try done; lia.
  - specialize (Hnext ltac:(lia)). replace (u32 (va0 + PGSIZE)) with (va + (k + n)).
    2:{ rewrite u32_small; [done|]. unfold is_user, KERNBASE in Hu. change PGSIZE with 4096. lia. }
    replace (len - k - n) with (len - (k + n)) by lia. eapply (IH own' fl' s2 (k + n)); [done | lia | done | done | | | | | ].
    + intros i Hi. rewrite Hq by lia. f_equal. lia.
    + left. rewrite Hnext. unfold is_user in *. change PGSIZE with 4096 in *. change KERNBASE with (524288 * 4096) in *. Z.div_mod_to_equations. lia.
    + right. rewrite Hnext. change PGSIZE with 4096. clear - Hm. Z.div_mod_to_equations. lia.
    + destruct (Z.eqb_spec (k + n) 0); [lia|]. change PGSIZE with 4096 in *. destruct (Z.eqb_spec k 0) as [->|Hk0]; [lia|].
      destruct Hal as [|Hal]; [done|]. assert (va0 = cur) by (Z.div_mod_to_equations; lia). lia.
    + destruct (Z.eqb_spec (k + n) 0); [lia|]. rewrite Hnext. unfold up in *. change PGSIZE with 4096 in *. destruct (Z.eqb_spec k 0) as [->|Hk0].
      * assert (cur = va) as Ec by lia. rewrite Ec in Hr. clear - Hr Hm Hlen Hlen'. Z.div_mod_to_equations. lia.
      * destruct Hal as [|Hal]; [done|]. fold cur in Hal, Hlen. clear - Hal Hr Hm Hlen Hlen'. Z.div_mod_to_equations. lia.
Qed.
End Copyout.

Lemma copyout_ok own fl ds s d va buf len :
  vm_inv own fl ds s -> d ∈ ds -> 0 <= va < 2 ^ 32 -> kern_ok (mem s) d -> 0 <= len ->
  returns (copyout d va buf len) s (copied ds d va buf len fl s).
Proof.
  intros I Hd Hva Hk Hlen. unfold copyout.
  pose proof (copyout_loop_ok ds d va buf len fl s Hd Hva Hk (Z.to_nat (len / PGSIZE + 3)) own fl s 0 buf I) as Hl.
  rewrite Z.add_0_r, Z.sub_0_r in Hl. apply Hl; try done; try lia.
  - split; [done|]. split; [|done]. intros d' a _ _. destruct (Z.leb_spec va a), (Z.ltb_spec a (va + 0)); try lia; by rewrite andb_false_r.
  - change (0 =? 0) with true. cbv iota. change PGSIZE with 4096. Z.div_mod_to_equations. lia.
  - change (0 =? 0) with true. cbv iota. lia.
Qed.

(** C7: [copyout].  The bytes arrive in the address space, and nothing else
    changes; pages that were only reserved are made on the way.  It returns 0
    when all bytes were copied; it returns -1 at the first byte that the process
    cannot access, or when a reserved page cannot be made because no page is
    free, and then exactly the bytes before it were copied. *)
Theorem copyout_correct own fl ds s d va buf len :
  vm_inv own fl ds s -> d ∈ ds -> 0 <= va < 2 ^ 32 -> kern_ok (mem s) d -> 0 <= len ->
  returns (copyout d va buf len) s (copied ds d va buf len fl s).
Proof. apply copyout_ok. Qed.
End Uvm.

(** ** On the small machine *)

Lemma demo_kern : kern_ok demo_mem (pg 4).
Proof.
  intros a Ha. rewrite demo_vpte by (unfold KERNBASE in *; lia). change KERNBASE with (524288 * 4096) in Ha.
  destruct (Z.eqb_spec (a / 4096) 0); [Z.div_mod_to_equations; lia|]. destruct (Z.eqb_spec (a / 4096) 1); [Z.div_mod_to_equations; lia|]. done.
Qed.

Lemma demo_sized : sized demo_mem (pg 4) 8192.
Proof.
  split; [by vm_compute|]. intros a Ha Hp. change (up 8192) with 2 in Hp. change PGSIZE with 4096 in Hp. apply gone_untouched.
  rewrite demo_vpte by (by apply user_u32). destruct (Z.eqb_spec (a / 4096) 0); [lia|]. destruct (Z.eqb_spec (a / 4096) 1); [lia|]. done.
Qed.

Lemma demo_in : pg 4 ∈ [pg 4].
Proof. by apply elem_of_cons; left. Qed.

Lemma sys_sbrk_correct_witness :
  returns (sys_sbrk (H := demo_layout) (Some 4096)) demo_mach (fun r s' =>
    r = 8192 /\ p_sz s' = 12288 /\ forall a, 8192 <= a < 12288 -> uview (mem s') (pg 4) a = Some 0).
Proof.
  eapply returns_mono.
  - apply (sys_sbrk_correct (H := demo_layout)) with (own := demo_own) (fl := [pg 0; pg 1; pg 2]) (ds := [pg 4]).
    + by vm_compute.
    + exact demo_vm_inv.
    + exact demo_in.
    + exact demo_sized.
    + lia.
  - cbv beta zeta. change (p_sz demo_mach) with 8192. change (p_pgdir demo_mach) with (pg 4).
    intros r s' (_ & _ & [(_ & _ & -> & -> & Hv & _)|[(_ & _ & _ & _ & _ & [Hk|Hl])|[(? & _)|[(? & _)|(? & _)]]]]); try lia.
    + split; [done|]. split; [done|]. intros a Ha. rewrite Hv by (exact demo_in || (unfold is_user, KERNBASE; lia)).
      rewrite Z.eqb_refl. change (up 8192) with 2. change (up (8192 + 4096)) with 3. change PGSIZE with 4096.
      destruct (Z.leb_spec 2 (a / 4096)), (Z.ltb_spec (a / 4096) 3); [done | Z.div_mod_to_equations; lia..].
    + unfold KERNBASE in Hk. lia.
    + change (up (8192 + 4096) - up 8192) with 1 in Hl. simpl in Hl. lia.
Defined.

Lemma copyout_correct_witness :
  returns (copyout (pg 4) 4095 (fun i => 7 + i) 2) demo_mach (fun r s' =>
    r = 0 /\ uview (mem s') (pg 4) 4095 = Some 7 /\ uview (mem s') (pg 4) 4096 = Some 8 /\ uview (mem s') (pg 4) 4097 = Some 0).
Proof.
  assert (forall a, 0 <= a < 8192 -> is_user a /\ uview demo_mem (pg 4) a <> None) as Hacc.
  { intros a Ha. split; [unfold is_user, KERNBASE; lia|]. unfold uview. rewrite demo_vpte by lia.
    destruct (Z.eqb_spec (a / 4096) 0); [done|]. destruct (Z.eqb_spec (a / 4096) 1); [done|]. Z.div_mod_to_equations. lia. }
  eapply returns_mono.
  - apply (copyout_correct (H := demo_layout)) with (own := demo_own) (fl := [pg 0; pg 1; pg 2]) (ds := [pg 4]).
    + by vm_compute.
    + exact demo_vm_inv.
    + exact demo_in.
    + lia.
    + exact demo_kern.
    + lia.
  - cbv beta. intros r s' (own' & fl' & k & _ & Hk & (_ & Hv & _) & _ & [[-> ->]|(_ & Hk2 & [Hu|[Hn|(_ & _ & Hl)]])]).
    + split; [done|]. rewrite !Hv by (exact demo_in || by vm_compute). rewrite Z.eqb_refl. split_and!; [done..|].
      change (mem demo_mach) with demo_mem. unfold uview. by rewrite demo_vpte.
    + destruct Hu. apply Hacc. lia.
    + exfalso. revert Hn. change (mem demo_mach) with demo_mem. apply Hacc. lia.
    + change (up (4095 + k) - 4095 / PGSIZE) with (up (4095 + k) - 0) in Hl. unfold up in Hl. simpl in Hl. Z.div_mod_to_equations. lia.
Defined.
