(* ===== verification/Args.v ===== *)
(** * System call arguments ([syscall.c] of the lazy kernel)

    [fetchint], [fetchstr], [argint], [argptr] and [argstr]: the kernel reads the
    memory of the calling process through its page table.  A read of a page that
    [ssualloc] only reserved faults inside the kernel; the handler then gets a
    page for it, or the kernel panics. *)

From S2P Require Import Prelude Vm LazyAlloc Uvm.

Section Args.
Context `{Layout}.

(** a read by the kernel at an address of the process: what the page table says
    ([vpte]), with a fault served by [trap], which has no process to kill here *)
Definition kread (va : Z) : M mach Z :=
  s ← get;
  let d := p_pgdir s in
  (if has (vpte (mem s) d va) PTE_P then mret tt
   else
     r ← allocssupage d va;
     if r =? 0 then mret tt else kprintf "unexpected trap" ;; panic "trap") ;;
  gets (fun s => mem s (P2V (PTE_ADDR (vpte (mem s) d va)) + va mod PGSIZE)).

(** [fetchint]: the value, or [None] for -1 *)
Definition fetchint (addr : Z) : M mach (option Z) :=
  s ← get;
  if (p_sz s <=? addr) || (p_sz s <? u32 (addr + 4)) then mret None
  else
    b0 ← kread addr; b1 ← kread (addr + 1); b2 ← kread (addr + 2); b3 ← kread (addr + 3);
    mret (Some (i32 (b0 + 256 * (b1 + 256 * (b2 + 256 * b3))))).

Fixpoint fetchstr_loop (fuel : nat) (pp s ep : Z) : M mach (option Z) :=
  match fuel with
  | O => block
  | S fuel' =>
      if s <? ep then
        b ← kread s;
        if b =? 0 then mret (Some (s - pp)) else fetchstr_loop fuel' pp (s + 1) ep
      else mret None
  end.
(** [fetchstr]: the length, [None] for -1 *)
Definition fetchstr (addr : Z) : M mach (option Z) :=
  s ← get;
  if p_sz s <=? addr then mret None
  else fetchstr_loop (Z.to_nat (p_sz s - addr + 1)) addr addr (p_sz s).

(** [argint], for the stack pointer [esp] of the trap frame *)
Definition argint (esp n : Z) : M mach (option Z) := fetchint (u32 (esp + 4 + 4 * n)).
Definition argptr (esp n size : Z) : M mach (option Z) :=
  o ← argint esp n;
  match o with
  | None => mret None
  | Some i =>
      s ← get;
      if (size <? 0) || (p_sz s <=? u32 i) || (p_sz s <? u32 (u32 i + size)) then mret None
      else mret (Some (u32 i))
  end.
(** [argstr]: the pointer and the length *)
Definition argstr (esp n : Z) : M mach (option (Z * Z)) :=
  o ← argint esp n;
  match o with
  | None => mret None
  | Some addr => r ← fetchstr (u32 addr); mret ((fun len => (u32 addr, len)) <$> r)
  end.

(** ** What they read *)

(** what the kernel sees at an address: also pages without [PTE_U] *)
Definition kview (m : Z -> Z) (d a : Z) : option Z :=
  let c := cell m d a in if has c.1 PTE_P then Some c.2 else if has c.1 PTE_SSU then Some 0 else None.
Definition ubyte (s : mach) (a : Z) : Z := default 0 (kview (mem s) (p_pgdir s) a).
Definition int_at (s : mach) (a : Z) : Z := i32 (ubyte s a + 256 * (ubyte s (a + 1) + 256 * (ubyte s (a + 2) + 256 * ubyte s (a + 3)))).
(** every address below the size is mapped or reserved *)
Definition backed (s : mach) : Prop := 0 <= p_sz s < KERNBASE /\ forall a, 0 <= a < p_sz s -> kview (mem s) (p_pgdir s) a <> None.
(** the pages below the size that have no frame yet *)
Definition waiting (s : mach) : list Z := filter (fun p => has (vpte (mem s) (p_pgdir s) (4096 * p)) PTE_P = false) (seqZ 0 (up (p_sz s))).

(** [m] gives a result for which [Q] holds, or panics, and then [P] holds *)
Definition attempt {A} (m : M mach A) (s : mach) (P : Prop) (Q : A -> mach -> Prop) : Prop :=
  match m s with Ok (a, s') => Q a s' | Panic msg => msg = "trap"%string /\ P | Block => False end.

Lemma attempt_bind {A B} (m : M mach A) (f : A -> M mach B) s P Q :
  attempt m s P (fun a s' => attempt (f a) s' P Q) -> attempt (m ≫= f) s P Q.
Proof. unfold attempt, mbind, M_bind. by destruct (m s) as [[a s']| |]. Qed.
Lemma attempt_mono {A} (m : M mach A) s (P P' : Prop) (Q Q' : A -> mach -> Prop) :
  attempt m s P Q -> (P -> P') -> (forall a s', Q a s' -> Q' a s') -> attempt m s P' Q'.
Proof. unfold attempt. destruct (m s) as [[a s']| |]; [auto | tauto | done]. Qed.
Lemma attempt_returns {A} (m : M mach A) s P Q : returns m s Q -> attempt m s P Q.
Proof. unfold attempt, returns. by destruct (m s) as [[a s']| |]. Qed.

(** the same memory as the kernel and every process see it; no more pages wait
    for a frame than free pages were spent *)
Definition served (ds : list Z) (fl : list Z) (s : mach) (fl' : list Z) (s' : mach) : Prop :=
  (exists own', vm_inv own' fl' ds s') /\ same_proc s s' /\
  (forall d a, d ∈ ds -> is_user a -> kview (mem s') d a = kview (mem s) d a /\ uview (mem s') d a = uview (mem s) d a) /\
  Z.of_nat (length fl) - Z.of_nat (length (waiting s)) <= Z.of_nat (length fl') - Z.of_nat (length (waiting s')).

Lemma served_refl ds own fl s : vm_inv own fl ds s -> served ds fl s fl s.
Proof. intros I. split; [by exists own | by split]. Qed.
Lemma served_trans ds fl1 s1 fl2 s2 fl3 s3 : served ds fl1 s1 fl2 s2 -> served ds fl2 s2 fl3 s3 -> served ds fl1 s1 fl3 s3.
Proof.
  intros (_ & P1 & V1 & L1) (I2 & P2 & V2 & L2). split; [done|]. split; [by eapply same_proc_trans|]. split; [|lia].
  intros d a Hd Ha. destruct (V1 d a Hd Ha), (V2 d a Hd Ha). split; by etrans.
Qed.

(** one page fewer waits *)
Lemma length_filter_less (P Q : Z -> Prop) `{forall x, Decision (P x), forall x, Decision (Q x)} (l : list Z) j :
  (forall x, x ∈ l -> Q x -> P x) -> j ∈ l -> P j -> ~ Q j -> (length (filter Q l) < length (filter P l))%nat.
Proof using.
  intros Hle Hj HP HQ. induction l as [|x l IH]; [by apply elem_of_nil in Hj|].
  assert (forall y, y ∈ l -> Q y -> P y) as Hle' by (intros y Hy; apply Hle; by apply elem_of_cons; right).
  assert (length (filter Q l) <= length (filter P l))%nat as Hl.
  { clear IH Hj Hle. induction l as [|y l IH]; [done|]. rewrite !filter_cons. specialize (IH ltac:(intros; apply Hle'; [by apply elem_of_cons; right|done])).
    destruct (decide (Q y)) as [Hq|]; [rewrite decide_True by (apply Hle'; [by apply elem_of_cons; left | done]); cbn; lia | destruct (decide (P y)); cbn; lia]. }
  rewrite !filter_cons. apply elem_of_cons in Hj as [->|Hj].
  - destruct (decide (Q x)); [done|]. destruct (decide (P x)); [cbn; lia | done].
  - specialize (IH Hle' Hj). destruct (decide (Q x)) as [Hq|]; [rewrite decide_True by (apply Hle; [by apply elem_of_cons; left | done]); cbn; lia | destruct (decide (P x)); cbn; lia].
Qed.

Lemma kview_uview m d a : has (cell m d a).1 PTE_P = false -> kview m d a = uview m d a.
Proof using. intros E. rewrite uview_see. unfold kview, see. by rewrite E. Qed.

Lemma waiting_page s a : 0 <= a < p_sz s -> p_sz s < KERNBASE -> has (vpte (mem s) (p_pgdir s) a) PTE_P = false -> a / 4096 ∈ waiting s.
Proof using.
  intros Ha Hk HP. unfold waiting. apply list_elem_of_filter. split.
  - rewrite <- HP. f_equal. apply vpte_same_page; [unfold KERNBASE in *; Z.div_mod_to_equations; lia | unfold KERNBASE in *; lia |].
    change PGSIZE with 4096. by rewrite Z.mul_comm, Z.div_mul.
  - apply elem_of_seqZ. unfold up. Z.div_mod_to_equations. lia.
Qed.

Lemma kread_ok own fl ds s a : vm_inv own fl ds s -> p_pgdir s ∈ ds -> backed s -> 0 <= a < p_sz s ->
  attempt (kread a) s (length fl < length (waiting s))%nat (fun b s' => b = ubyte s a /\ exists fl', served ds fl s fl' s').
Proof using.
  intros I Hd [Hsz Hb] Ha. assert (is_user a) as Hu by (unfold is_user; lia). specialize (Hb a Ha). set (d := p_pgdir s) in *.
  unfold kread. apply attempt_bind, attempt_returns. step. fold d. apply attempt_bind.
  destruct (has (vpte (mem s) d a) PTE_P) eqn:HP.
  - unfold attempt, gets. cbn. split; [|exists fl; by eapply served_refl]. unfold ubyte, kview, cell. fold d. cbn. rewrite has_flags by done. by rewrite HP.
  - apply attempt_bind. eapply attempt_mono; [apply attempt_returns, (allocssupage_ok own fl ds s d a); [done..|by apply user_u32] | exact id |].
    cbv beta. intros r s1 [(-> & _ & [R1 R2] & Hpr & (own' & f & fl' & -> & I' & _) & HP1 & Hv & _ & Hmon & Hcell)|(-> & -> & Hwhy)].
    + change (0 =? 0) with true. cbv iota.
      assert (p_pgdir s1 = d) as Hd1 by (by destruct Hpr as (_ & -> & _)).
      assert (forall d' b, d' ∈ ds -> is_user b -> kview (mem s1) d' b = kview (mem s) d' b) as Hk.
      { intros d' b Hd' Hub. destruct (decide (d' = d /\ b / PGSIZE = a / PGSIZE)) as [[-> E]|Hne].
        - assert (vpte (mem s) d b = vpte (mem s) d a) as Ev by (apply vpte_same_page; done || by apply user_u32).
          assert (kview (mem s) d b = Some 0) as -> by (unfold kview; rewrite <- !cell_flags, Ev, R1, R2 by done; done).
          specialize (Hv d b Hd Hub). rewrite (uview_see (mem s)) in Hv. unfold see in Hv. rewrite <- !cell_flags, Ev, R1, R2 in Hv by done.
          rewrite uview_see in Hv. unfold see in Hv. unfold kview.
          destruct (has (cell (mem s1) d b).1 PTE_P); [|done]. destruct (has (cell (mem s1) d b).1 PTE_U); [|done]. done.
        - unfold kview. rewrite Hcell; [done | done | | done]. destruct (decide (d' = d)); [right; tauto | by left]. }
      unfold attempt, mret, M_ret, gets. split.
      * unfold ubyte. fold d. rewrite <- Hk by done. unfold kview. rewrite <- cell_flags, HP1 by done. unfold cell. cbn. by rewrite HP1.
      * exists fl'. split; [by exists own'|]. split; [done|]. split; [intros d' b H1 H2; split; [by apply Hk | by apply Hv]|].
        assert (length (waiting s1) < length (waiting s))%nat; [|cbn; lia].
        assert (p_sz s1 = p_sz s) as Hz1 by (by destruct Hpr as (-> & _)). unfold waiting. rewrite Hz1, Hd1. fold d.
        pose proof (waiting_page s a Ha ltac:(lia) HP) as Hw. unfold waiting in Hw. apply list_elem_of_filter in Hw as [Hw1 Hw2].
        assert (is_user (4096 * (a / 4096)) /\ vpte (mem s1) d (4096 * (a / 4096)) = vpte (mem s1) d a) as [Hup Ep].
        { assert (is_user (4096 * (a / 4096))) as Hup by (unfold is_user, KERNBASE in *; Z.div_mod_to_equations; lia).
          split; [done|]. apply vpte_same_page; [by apply user_u32.. |]. change PGSIZE with 4096. by rewrite Z.mul_comm, Z.div_mul. }
        apply (length_filter_less _ _ _ (a / 4096)); [|done | done | rewrite Ep, HP1; done].
        intros p Hp Hq. apply elem_of_seqZ in Hp. destruct (has (vpte (mem s) d (4096 * p)) PTE_P) eqn:E; [|done].
        rewrite Hmon in Hq; [done | done | | done]. unfold is_user, up, KERNBASE in *. Z.div_mod_to_equations. lia.
    + change (-1 =? 0) with false. cbv iota. unfold attempt, kprintf, modify, panic, mbind, M_bind. split; [done|].
      destruct Hwhy as [Hn|[Hn| ->]]; [done | | ].
      * destruct Hn. split; [done|]. unfold kview in Hb. rewrite <- !cell_flags, HP in Hb by done. destruct (has (vpte (mem s) d a) PTE_SSU); [done | by destruct Hb].
      * pose proof (waiting_page s a Ha ltac:(lia) HP) as Hw. destruct (waiting s); [by apply elem_of_nil in Hw | cbn; lia].
Qed.

(** reads in sequence, all from the state [s0] before the first *)
Section Reads.
Context (own0 : Z -> kind) (fl0 ds : list Z) (s0 : mach).
Hypothesis I0 : vm_inv own0 fl0 ds s0.
Hypothesis Hd : p_pgdir s0 ∈ ds.
Hypothesis Hb : backed s0.

Definition after (s : mach) : Prop := exists fl, served ds fl0 s0 fl s.
Definition short : Prop := (length fl0 < length (waiting s0))%nat.

Lemma after_start : after s0.
Proof using I0. exists fl0. by eapply served_refl. Qed.
Lemma after_proc s : after s -> p_sz s = p_sz s0 /\ p_pgdir s = p_pgdir s0.
Proof using. intros (fl & _ & (? & ? & _) & _). done. Qed.

Lemma reads_ok a s : after s -> 0 <= a < p_sz s0 -> attempt (kread a) s short (fun b s' => b = ubyte s0 a /\ after s').
Proof using Hb Hd.
  intros Hs Ha. destruct (after_proc s Hs) as [E1 E2]. destruct Hs as (fl & Hs). pose proof Hs as ((own & I) & _ & V & L). destruct Hb as [Hsz Hbk].
  assert (forall b, 0 <= b < p_sz s0 -> kview (mem s) (p_pgdir s) b = kview (mem s0) (p_pgdir s0) b) as Ek.
  { intros b Hbb. rewrite E2. apply V; [done | unfold is_user; lia]. }
  eapply attempt_mono; [apply (kread_ok own fl ds s a I) | |].
  - by rewrite E2.
  - split; rewrite E1; [done|]. intros b Hbb. rewrite Ek by done. by apply Hbk.
  - by rewrite E1.
  - unfold short. lia.
  - intros b s' [-> (fl' & Hs')]. split; [unfold ubyte; by rewrite Ek|]. exists fl'. by eapply served_trans.
Qed.

Definition in_range (a : Z) : bool := a + 4 <=? p_sz s0.
Lemma fetchint_ok a s : after s -> 0 <= a < 2 ^ 32 ->
  attempt (fetchint a) s short (fun o s' => o = (if in_range a then Some (int_at s0 a) else None) /\ after s').
Proof using Hb Hd.
  intros Hs Ha. destruct (after_proc s Hs) as [E1 E2]. pose proof Hb as [Hsz _]. unfold fetchint.
  apply attempt_bind, attempt_returns. step. rewrite E1. unfold in_range.
  destruct (Z.leb_spec (p_sz s0) a); cbn [orb].
  { apply attempt_returns. step. split; [|done]. destruct (Z.leb_spec (a + 4) (p_sz s0)); [lia | done]. }
  unfold KERNBASE in Hsz. rewrite u32_small by lia. destruct (Z.ltb_spec (p_sz s0) (a + 4)).
  { apply attempt_returns. step. split; [|done]. destruct (Z.leb_spec (a + 4) (p_sz s0)); [lia | done]. }
  destruct (Z.leb_spec (a + 4) (p_sz s0)); [|lia].
  do 4 (apply attempt_bind; eapply attempt_mono; [eapply reads_ok; [eassumption | lia] | exact id |]; intros ? ? [-> ?]).
  apply attempt_returns. step. done.
Qed.

(** the outcome of [fetchstr]: the first NUL below the size, if there is one *)
Definition nul_from (a : Z) (o : option Z) : Prop :=
  match o with
  | Some n => 0 <= n /\ a + n < p_sz s0 /\ ubyte s0 (a + n) = 0 /\ forall j, 0 <= j < n -> ubyte s0 (a + j) <> 0
  | None => forall b, a <= b < p_sz s0 -> ubyte s0 b <> 0
  end.

Lemma fetchstr_loop_ok a : 0 <= a -> forall fuel k s, after s -> 0 <= k -> a + k <= p_sz s0 -> p_sz s0 - (a + k) < Z.of_nat fuel ->
  (forall j, 0 <= j < k -> ubyte s0 (a + j) <> 0) ->
  attempt (fetchstr_loop fuel a (a + k) (p_sz s0)) s short (fun o s' => nul_from a o /\ after s').
Proof using Hb Hd.
  intros Ha. induction fuel as [|fuel IH]; intros k s Hs Hk Hle Hf Hz; cbn [fetchstr_loop].
  - exfalso. lia.
  - destruct (Z.ltb_spec (a + k) (p_sz s0)).
    + apply attempt_bind. eapply attempt_mono; [apply reads_ok; [done | lia] | exact id |]. intros b s' [-> Hs'].
      destruct (Z.eqb_spec (ubyte s0 (a + k)) 0) as [E|E].
      * apply attempt_returns. step. split; [|done]. replace (a + k - a) with k by lia. done.
      * rewrite <- Z.add_assoc. apply IH; [done | lia | lia | lia |]. intros j Hj. destruct (decide (j = k)) as [->|]; [done | apply Hz; lia].
    + apply attempt_returns. step. split; [|done]. intros b Hbb. replace b with (a + (b - a)) by lia. apply Hz. lia.
Qed.

Lemma fetchstr_ok a s : after s -> 0 <= a -> attempt (fetchstr a) s short (fun o s' => nul_from a o /\ (p_sz s0 <= a -> o = None) /\ after s').
Proof using Hb Hd.
  intros Hs Ha. destruct (after_proc s Hs) as [E1 _]. unfold fetchstr. apply attempt_bind, attempt_returns. step. rewrite E1.
  destruct (Z.leb_spec (p_sz s0) a).
  - apply attempt_returns. step. split; [intros b; lia | done].
  - eapply attempt_mono; [rewrite <- (Z.add_0_r a) at 3; apply (fetchstr_loop_ok a Ha _ 0); [done | lia | lia | lia | intros; lia] | exact id |].
    intros o s' [H1 H2]. split; [done|]. split; [lia | done].
Qed.
End Reads.

(** the [n]th argument, when it lies in the process *)
Definition arg (s : mach) (esp n : Z) : option Z := let a := u32 (esp + 4 + 4 * n) in if in_range s a then Some (int_at s a) else None.

Lemma argint_ok own fl ds s esp n : vm_inv own fl ds s -> p_pgdir s ∈ ds -> backed s ->
  attempt (argint esp n) s (short fl s) (fun o s' => o = arg s esp n /\ after fl ds s s').
Proof using. intros I Hd Hb. apply fetchint_ok; [done | done | by eapply after_start | apply u32_range]. Qed.

(** C8: system call arguments.  [argint] gives the word of the user stack,
    [argptr] a block that lies below the size of the process as a whole, [argstr]
    a string whose NUL lies below the size; in every other case the result is
    -1.  No memory of any process changes, and the kernel panics only when more
    reserved pages wait for a frame than there are free pages. *)
Theorem args_correct own fl ds s esp n size :
  vm_inv own fl ds s -> p_pgdir s ∈ ds -> backed s -> - 2 ^ 31 <= size < 2 ^ 31 ->
  let fits p := (0 <=? size) && (p <? p_sz s) && (p + size <=? p_sz s) in
  attempt (argint esp n) s (short fl s) (fun o s' => o = arg s esp n /\ after fl ds s s') /\
  attempt (argptr esp n size) s (short fl s) (fun o s' => after fl ds s s' /\
    o = match arg s esp n with Some i => if fits (u32 i) then Some (u32 i) else None | None => None end) /\
  attempt (argstr esp n) s (short fl s) (fun o s' => after fl ds s s' /\
    match arg s esp n with
    | None => o = None
    | Some i =>
        match o with
        | Some (p, len) => p = u32 i /\ nul_from s p (Some len)
        | None => nul_from s (u32 i) None
        end
    end).
Proof using.
  intros I Hd Hb Hsize fits. pose proof (argint_ok own fl ds s esp n I Hd Hb) as Hi. split; [exact Hi|]. split.
  - unfold argptr. apply attempt_bind. eapply attempt_mono; [exact Hi | exact id |]. intros o s' [-> Hs'].
    destruct (arg s esp n) as [i|]; [|by apply attempt_returns; step].
    destruct (after_proc _ _ _ _ Hs') as [E1 _]. pose proof Hb as [Hsz _]. unfold KERNBASE in Hsz. pose proof (u32_range i) as Hri.
    apply attempt_bind, attempt_returns. step. rewrite E1. unfold fits.
    destruct (Z.ltb_spec size 0), (Z.leb_spec 0 size); try lia; cbn [orb andb]; [by apply attempt_returns; step|].
    destruct (Z.leb_spec (p_sz s) (u32 i)), (Z.ltb_spec (u32 i) (p_sz s)); try lia; cbn [orb andb]; [by apply attempt_returns; step|].
    rewrite (u32_small (u32 i + size)) by lia.
    destruct (Z.ltb_spec (p_sz s) (u32 i + size)), (Z.leb_spec (u32 i + size) (p_sz s)); try lia; by apply attempt_returns; step.
  - unfold argstr. apply attempt_bind. eapply attempt_mono; [exact Hi | exact id |]. intros o s' [-> Hs'].
    destruct (arg s esp n) as [i|]; [|by apply attempt_returns; step]. pose proof (u32_range i) as Hri.
    apply attempt_bind. eapply attempt_mono; [apply (fetchstr_ok fl ds s Hd Hb); [done | lia] | exact id |]. intros r s2 (H1 & _ & H2).
    apply attempt_returns. step. split; [done|]. by destruct r.
Qed.
End Args.

(** a string argument on the reserved page of the demonstration: one of its
    three free pages is used *)
Lemma demo_backed : backed demo_mach.
Proof.
  split; [by vm_compute|]. change (p_sz demo_mach) with 8192. change (p_pgdir demo_mach) with (pg 4). change (mem demo_mach) with demo_mem.
  intros a Ha. unfold kview, cell. cbn [fst]. rewrite !has_flags by done. rewrite demo_vpte by lia.
  destruct (Z.eqb_spec (a / 4096) 0); [done|]. destruct (Z.eqb_spec (a / 4096) 1); [done|]. Z.div_mod_to_equations. lia.
Qed.

Lemma args_correct_witness :
  attempt (argptr 4096 0 8192) demo_mach False (fun o s' => o = Some 0 /\ uview (mem s') (pg 4) 4100 = Some 0) /\
  attempt (argptr 4096 0 8193) demo_mach False (fun o _ => o = None) /\
  attempt (argstr 4096 0) demo_mach False (fun o _ => o = Some (0, 0)).
Proof.
  assert (short [pg 0; pg 1; pg 2] demo_mach -> False) as Hno by (vm_compute; lia).
  assert (arg demo_mach 4096 0 = Some 0) as Ha by (by vm_compute).
  assert (ubyte demo_mach 0 = 0) as Hu by (by vm_compute).
  assert (forall size, - 2 ^ 31 <= size < 2 ^ 31 -> _) as H by
    (intros size Hsz; exact (args_correct (H := demo_layout) demo_own [pg 0; pg 1; pg 2] [pg 4] demo_mach 4096 0 size demo_vm_inv demo_in demo_backed Hsz)).
  rewrite Ha in H. change (p_sz demo_mach) with 8192 in H. change (u32 0) with 0 in H.
  destruct (H 8192 ltac:(lia)) as (_ & H1 & H3), (H 8193 ltac:(lia)) as (_ & H2 & _).
  split; [|split].
  - eapply attempt_mono; [exact H1 | exact Hno |]. intros o s' [(fl' & _ & _ & V & _) ->]. split; [done|].
    rewrite (proj2 (V (pg 4) 4100 demo_in ltac:(unfold is_user, KERNBASE; lia))). by vm_compute.
  - eapply attempt_mono; [exact H2 | exact Hno |]. by intros o s' [_ ->].
  - eapply attempt_mono; [exact H3 | exact Hno |]. intros [[p len]|] s' [_ Hs'].
    + destruct Hs' as (-> & Hl & _ & _ & Hz). destruct (decide (len = 0)) as [->|]; [done|]. destruct (Hz 0); [lia | exact Hu].
    + destruct (Hs' 0); [change (p_sz demo_mach) with 8192; lia | exact Hu].
Defined.

(** without a free page, an argument on a reserved page is a panic of the kernel *)
Example reserved_argument_panics : fetchint 4096 (set_freelist 0 demo_mach) = Panic "trap".
Proof. by vm_compute. Qed.
