(* ===== verification/Kvm.v ===== *)
(** * Address spaces as a whole: making, copying, freeing

    [setupkvm] maps the kernel's part of a new address space, [copyuvm] copies a
    process's memory for [fork], [freevm] gives every page of an address space
    back to the free list. *)

From S2P Require Import Prelude Vm LazyAlloc Uvm.

Section Kvm.
Context `{Layout}.

Record layout_ok : Prop := {
  lo_end : KERNBASE < end_;
  lo_data : data_ mod PGSIZE = 0;
  lo_order : KERNLINK < data_ < KERNBASE + PHYSTOP
}.
Hypothesis Hlay : layout_ok.

(** ** Fewer address spaces, pages without an owner *)

Lemma vm_inv_sub own fl ds ds' s : vm_inv own fl ds s -> (forall d, d ∈ ds' -> d ∈ ds) -> vm_inv own fl ds' s.
Proof. intros [C N F D T Fr] Hsub. split; [done..| | |]; [intros d Hd; apply D | intros d i Hd; apply T | intros d a Hd; apply Fr]; by apply Hsub. Qed.

(** the owner of the page is not one of these address spaces *)
Definition foreign (k : kind) (ds : list Z) : Prop :=
  match k with Free => False | Dir d => d ∉ ds | Tab d _ => d ∉ ds | Frame d _ => d ∉ ds | Detached => True end.

Lemma vm_inv_relabel own fl ds s v k : vm_inv own fl ds s -> foreign (own v) ds -> k <> Free -> vm_inv (own_set v k own) fl ds s.
Proof.
  intros [C N F D T Fr] Hv Hk.
  assert (forall x y, own x = y -> (match y with Free => True | Dir d | Tab d _ | Frame d _ => d ∈ ds | Detached => False end) -> own_set v k own x = y) as Ho.
  { intros x y E Hy. rewrite own_set_ne; [done|]. intros ->. rewrite E in Hv. by destruct y. }
  split; try done.
  - intros x Hx. destruct (F x Hx) as [? E]. split; [done|]. by apply Ho.
  - intros d Hd. destruct (D d Hd) as [? E]. split; [done|]. by apply Ho.
  - intros d i Hd Hi Hp. destruct (T d i Hd Hi Hp) as [? E]. split; [done|]. by apply Ho.
  - intros d a Hd Hu Hp. destruct (Fr d a Hd Hu Hp) as [? E]. split; [done|]. by apply Ho.
Qed.

Lemma evolves_none ds d lo s s' :
  same_user s s' -> (forall d' a, d' ∈ ds -> is_user a -> cell (mem s') d' a = cell (mem s) d' a) ->
  (forall d' a, d' ∈ ds -> KERNBASE <= a < 2 ^ 32 -> vpte (mem s') d' a = vpte (mem s) d' a) ->
  evolves ds d lo lo (fun _ _ => True) s s'.
Proof. intros. split; [done | intros; lia | auto | done]. Qed.

(** the address spaces [ds] are as they were *)
Definition kept (ds : list Z) (s s' : mach) : Prop :=
  same_user s s' /\ (forall d a, d ∈ ds -> is_user a -> cell (mem s') d a = cell (mem s) d a) /\
  (forall d a, d ∈ ds -> KERNBASE <= a < 2 ^ 32 -> vpte (mem s') d a = vpte (mem s) d a).
Lemma kept_refl ds s : kept ds s s.
Proof. by split. Qed.
Lemma kept_trans ds s1 s2 s3 : kept ds s1 s2 -> kept ds s2 s3 -> kept ds s1 s3.
Proof.
  intros (U1 & C1 & K1) (U2 & C2 & K2). split; [by eapply same_user_trans|]. split; intros d a Hd Ha.
  - by rewrite C2, C1. - by rewrite K2, K1.
Qed.
Lemma kept_uview ds s s' d a : kept ds s s' -> d ∈ ds -> is_user a -> uview (mem s') d a = uview (mem s) d a.
Proof. intros (_ & C & _) Hd Ha. by rewrite !uview_see, C. Qed.
Lemma evolves_kept ds ds' d lo hi C s s' : evolves ds d lo hi C s s' -> (forall x, x ∈ ds' -> x ∈ ds /\ x <> d) -> kept ds' s s'.
Proof.
  intros [U I O K] Hsub. split; [done|]. split; intros d' a Hd' Ha; destruct (Hsub d' Hd') as [H1 H2]; [apply O; try done; by intros [-> _] | by apply K].
Qed.
Lemma hidden_kept own fl ds s s' x :
  vm_inv own fl ds s -> (forall d p, d ∈ ds -> own x <> Frame d p) -> same_user s s' -> agree (fun y => y <> x) (mem s) (mem s') ->
  (forall d a, d ∈ ds -> vpte (mem s') d a = vpte (mem s) d a) -> kept ds s s'.
Proof.
  intros I Hx Hu Ag V. split; [done|]. split; [|intros; by apply V].
  intros d' a Hd' Ha. eapply (cell_keep own fl ds s); [done..| by apply V | exact Ag |].
  intros p. destruct (decide (P2V (PTE_ADDR (vpte (mem s) d' a)) = x)) as [->|]; [right; by apply Hx | by left].
Qed.

(** ** Freeing an address space *)

(** what is left of [d]: its directory and the page tables from entry [i] on *)
Definition remains (own : Z -> kind) (d i : Z) (s : mach) : Prop :=
  page_ok d /\ own d = Dir d /\
  forall j, i <= j < 1024 -> has (pde_of (mem s) d j) PTE_P = true -> page_ok (tab_of (mem s) d j) /\ own (tab_of (mem s) d j) = Tab d j.

Lemma freevm_loop_ok ds d (Q : unit -> mach -> Prop) : d ∉ ds -> forall k own fl s i,
  vm_inv own fl ds s -> remains own d i s -> 0 <= i -> i + Z.of_nat k = 1024 ->
  (forall own' fl' s', vm_inv own' fl' ds s' -> kept ds s s' -> page_ok d -> own' d = Dir d -> Q tt s') ->
  returns (freevm_loop k d i) s Q.
Proof.
  intros Hd. induction k as [|k IH]; intros own fl s i I R Hi Hk HQ; cbn [freevm_loop]; pose proof R as (Hdp & Hdo & Ht).
  { step. by apply (HQ own fl). }
  apply returns_bind, load_ok. change (rd32 (mem s) (d + 4 * i)) with (pde_of (mem s) d i). apply returns_bind.
  destruct (has (pde_of (mem s) d i) PTE_P) eqn:Hp.
  2:{ step. apply (IH own fl); [done | | lia | lia | done]. split; [done|]. split; [done|]. intros j Hj. apply Ht. lia. }
  destruct (Ht i ltac:(lia) Hp) as [T1 T2]. change (P2V (PTE_ADDR (pde_of (mem s) d i))) with (tab_of (mem s) d i). set (v := tab_of (mem s) d i) in *.
  assert (v <> d) as Hvd by congruence.
  apply (kfree_ok (own_set v Detached own) fl ds); [by apply vm_inv_relabel; [|rewrite T2|] | done | by rewrite own_set_same|].
  intros s' _ I' Hpr Ag V _.
  assert (forall j, 0 <= j < 1024 -> pde_of (mem s') d j = pde_of (mem s) d j) as Hpde.
  { intros j Hj. apply (pde_agree _ _ _ _ _ Ag); [done | congruence | done]. }
  eapply IH; [exact I' | | lia | lia |].
  - split; [done|]. split; [by rewrite !own_set_ne|]. intros j Hj. unfold tab_of. rewrite Hpde by lia. intros Hpj.
    destruct (Ht j ltac:(lia) Hpj) as [U1 U2]. split; [done|]. unfold tab_of in U2. rewrite !own_set_ne; [done|..]; intros E; rewrite E, T2 in U2; injection U2; lia.
  - intros own' fl' s2 I2 K2 ? ?. apply (HQ own' fl'); [done | | done | done]. eapply kept_trans; [|exact K2].
    eapply (hidden_kept own fl ds s s' v); [done | intros; by rewrite T2 | by apply same_user_proc | done | done].
Qed.

Lemma freevm_ok own fl ds s d (Q : unit -> mach -> Prop) :
  vm_inv own fl (d :: ds) s -> d ∉ ds ->
  (forall own' fl' s', vm_inv own' fl' ds s' -> kept ds s s' -> Q tt s') ->
  returns (freevm d) s Q.
Proof.
  intros I Hd HQ. assert (d ∈ d :: ds) as Hin by (by apply elem_of_cons; left). unfold freevm.
  destruct (vi_dir _ _ _ _ I d Hin) as [(_ & _ & Hdp) _]. destruct (Z.eqb_spec d 0); [unfold KERNBASE in *; lia|].
  apply returns_bind. eapply deallocuvm_ok; [apply Hlay | exact I | done | done | done |]. intros own1 fl1 s1 I1 Hpr1 _ _ E1.
  apply returns_bind. eapply (freevm_loop_ok ds d); [done | eapply vm_inv_sub; [exact I1|]; intros x Hx; apply elem_of_cons; by right | | lia | done |].
  { destruct (vi_dir _ _ _ _ I1 d Hin). split; [done|]. split; [done|]. intros j Hj. by apply (vi_tab _ _ _ _ I1). }
  intros own2 fl2 s2 I2 K2 Hdp2 Hdo2.
  apply (kfree_ok (own_set d Detached own2) fl2 ds); [by apply vm_inv_relabel; [|rewrite Hdo2|] | done | by rewrite own_set_same|].
  intros s3 _ I3 Hpr3 Ag V _. apply (HQ _ _ s3 I3). eapply kept_trans; [|eapply kept_trans; [exact K2|]].
  - eapply evolves_kept; [exact E1|]. intros x Hx. split; [apply elem_of_cons; by right|]. intros ->. done.
  - eapply (hidden_kept own2 fl2 ds s2 s3 d); [done | intros; by rewrite Hdo2 | by apply same_user_proc | done | done].
Qed.

(** ** The kernel's part *)

Lemma store_kern_ok own fl ds s d va v :
  vm_inv own fl ds s -> d ∈ ds -> has (pde_of (mem s) d (PDX va)) PTE_P = true -> 0 <= v < 2 ^ 32 -> KERNBASE <= va < 2 ^ 32 ->
  let s' := set_mem (wr32 (pte_addr (mem s) d va) v) s in
  vm_inv own fl ds s' /\ (forall d' a, d' ∈ ds -> is_user a -> cell (mem s') d' a = cell (mem s) d' a) /\
  (forall d' a, d' ∈ ds -> KERNBASE <= a < 2 ^ 32 ->
     vpte (mem s') d' a = if (d' =? d) && (a / PGSIZE =? va / PGSIZE) then v else vpte (mem s) d' a).
Proof.
  intros I Hd Hp Hv Hva s'. assert (0 <= va < 2 ^ 32) as Hva32 by (unfold KERNBASE in *; lia).
  destruct (store_pte own fl ds s d va v I Hd Hp Hv Hva32) as (Hvp & Hpde & Ha).
  pose proof I as [C N F D T Fr]. destruct (T d (PDX va) Hd (PDX_range va) Hp) as [T1 T2].
  change (wr32 _ v (mem s)) with (mem s') in *.
  assert (forall d' a, d' ∈ ds -> is_user a -> vpte (mem s') d' a = vpte (mem s) d' a) as Hu.
  { intros d' a Hd' Hu. rewrite Hvp by (done || by apply user_u32). destruct (Z.eqb_spec (a / PGSIZE) (va / PGSIZE)) as [E|]; [|by rewrite andb_false_r].
    by destruct (page_of_user a va Hu ltac:(lia)). }
  split_and!.
  - split; try done.
    + eapply chain_agree; [exact Ha | done|]. intros x Hx. destruct (F x Hx). split; [done|]. congruence.
    + intros d' i Hd' Hi. unfold tab_of. rewrite Hpde by done. by apply T.
    + intros d' a Hd' Hua. rewrite Hu by done. by apply Fr.
  - intros d' a Hd' Hua. eapply (cell_keep own fl ds s); [done..| by apply Hu | exact Ha |].
    intros p. destruct (decide (P2V (PTE_ADDR (vpte (mem s) d' a)) = tab_of (mem s) d (PDX va))) as [->|]; [right; congruence | by left].
  - intros d' a Hd' Hk. apply Hvp; [done|]. unfold KERNBASE in *. lia.
Qed.

Lemma lor_page pa f : pa mod 4096 = 0 -> 0 <= f < 4096 -> Z.lor pa f = pa + f.
Proof.
  intros Hpa Hf. assert (Z.land pa f = 0) as E.
  { rewrite <- (Z.mod_small f (2 ^ 12)), <- Z.land_ones by lia. rewrite (Z.land_comm f), Z.land_assoc, Z.land_ones by lia.
    change (2 ^ 12) with 4096. by rewrite Hpa. }
  by rewrite <- Z.lxor_lor, <- Z.add_nocarry_lxor.
Qed.

(** an entry of the kernel's part, for the physical page [pa] *)
Definition kpte (pa perm : Z) : Z := Z.lor (Z.lor pa perm) PTE_P.
Lemma kpte_ok pa perm : 0 <= pa < 2 ^ 32 -> pa mod 4096 = 0 -> perm = 0 \/ perm = PTE_W ->
  0 <= kpte pa perm < 2 ^ 32 /\ has (kpte pa perm) PTE_P = true /\ has (kpte pa perm) PTE_U = false.
Proof.
  intros Hpa Hm Hp. unfold kpte. rewrite <- Z.lor_assoc. set (g := Z.lor perm PTE_P).
  assert (g = 1 \/ g = 3) as Hg by (destruct Hp as [-> | ->]; [by left | by right]).
  rewrite lor_page by (done || lia). split; [Z.div_mod_to_equations; lia|].
  assert (forall k, 0 <= k -> Z.land (pa + g) (2 ^ k - 1) = (pa + g) mod 2 ^ k) as Hl.
  { intros k Hk. rewrite <- Z.land_ones by done. by rewrite Z.ones_equiv, Z.sub_1_r. }
  unfold has. split.
  - change PTE_P with (2 ^ 1 - 1). rewrite Hl by lia. apply negb_true_iff, Z.eqb_neq. change (2 ^ 1) with 2. Z.div_mod_to_equations. lia.
  - apply negb_false_iff, Z.eqb_eq. change PTE_U with (Z.land 4 (2 ^ 3 - 1)). rewrite (Z.land_comm 4), Z.land_assoc, Hl by lia.
    assert ((pa + g) mod 2 ^ 3 = g) as -> by (change (2 ^ 3) with 8; Z.div_mod_to_equations; lia). by destruct Hg as [-> | ->].
Qed.

(** what one line of [kmap] says about a page *)
Definition kentry (r : Z * Z * Z * Z) (p : Z) : option Z :=
  let '(virt, pstart, pend, perm) := r in
  if (virt / PGSIZE <=? p) && (p <? virt / PGSIZE + u32 (pend - pstart) / PGSIZE) then Some (kpte (pstart + PGSIZE * (p - virt / PGSIZE)) perm) else None.
Fixpoint klook (ks : list (Z * Z * Z * Z)) (p : Z) : option Z :=
  match ks with
  | [] => None
  | r :: ks' => match kentry r p with Some e => Some e | None => klook ks' p end
  end.
Lemma klook_snoc ks r p : klook (ks ++ [r]) p = match klook ks p with Some e => Some e | None => kentry r p end.
Proof. induction ks as [|r' ks IH]; simpl; [by destruct (kentry r p)|]. by destruct (kentry r' p). Qed.

Definition good_range (r : Z * Z * Z * Z) : Prop :=
  let '(virt, pstart, pend, perm) := r in
  let n := u32 (pend - pstart) in
  virt mod 4096 = 0 /\ pstart mod 4096 = 0 /\ n mod 4096 = 0 /\ 0 < n /\ KERNBASE <= virt /\ virt + n <= 2 ^ 32 /\
  0 <= pstart /\ pstart + n <= 2 ^ 32 /\ (perm = 0 \/ perm = PTE_W).

Section Range.
Context (ds : list Z) (d : Z) (s0 : mach) (Q : Z -> mach -> Prop) (lo hi pstart perm : Z).
Hypothesis Hd : d ∈ ds.
Hypothesis Hlo : KERNBASE <= 4096 * lo.
Hypothesis Hhi : lo < hi /\ 4096 * hi <= 2 ^ 32.
Hypothesis Hp0 : 0 <= pstart /\ pstart mod 4096 = 0 /\ pstart + 4096 * (hi - lo) <= 2 ^ 32.
Hypothesis Hperm : perm = 0 \/ perm = PTE_W.
Hypothesis Hfree : forall p, lo <= p < hi -> vpte (mem s0) d (4096 * p) = 0.

(** the pages from [lo] to [k] are mapped *)
Definition kmade (k : Z) (s : mach) : Prop :=
  same_user s0 s /\ (forall d' a, d' ∈ ds -> is_user a -> cell (mem s) d' a = cell (mem s0) d' a) /\
  (forall d' a, d' ∈ ds -> KERNBASE <= a < 2 ^ 32 -> vpte (mem s) d' a =
     if (d' =? d) && ((lo <=? a / PGSIZE) && (a / PGSIZE <? k)) then kpte (pstart + 4096 * (a / PGSIZE - lo)) perm else vpte (mem s0) d' a).
Context (fl0 : list Z).
Hypothesis Hok : forall own' fl' s', vm_inv own' fl' ds s' -> kmade hi s' -> budget fl0 (mem s0) d <= budget fl' (mem s') d -> Q 0 s'.
Hypothesis Hbad : forall own' fl' s' k, vm_inv own' fl' ds s' -> kmade k s' -> budget fl0 (mem s0) d < 0 -> Q (-1) s'.

Lemma mappages_loop_kern : forall fuel own fl s k,
  vm_inv own fl ds s -> lo <= k < hi -> hi - k <= Z.of_nat fuel -> kmade k s -> budget fl0 (mem s0) d <= budget fl (mem s) d ->
  returns (mappages_loop fuel d (4096 * k) (4096 * (hi - 1)) (pstart + 4096 * (k - lo)) perm) s Q.
Proof using All.
  induction fuel as [|fuel IH]; intros own fl s k I Hk Hfuel Hm Hb; [lia|]. cbn [mappages_loop].
  assert (KERNBASE <= 4096 * k < 2 ^ 32) as Hkk by lia. assert (0 <= 4096 * k < 2 ^ 32) as Hk32 by (unfold KERNBASE in *; lia).
  apply returns_bind, (walk_alloc_ok own fl ds s d); [done | done | done | |].
  2:{ intros -> ?. change (0 =? 0) with true. step. eapply Hbad; [done | done | lia]. }
  intros own1 fl1 s1 I1 W _ Hb1. pose proof (wk_present _ _ _ _ _ _ _ W) as Hp.
  assert (kmade k s1) as (U1 & C1 & K1).
  { destruct Hm as (U & C & K). split; [eapply same_user_trans; [exact U | apply same_user_proc, (wk_proc _ _ _ _ _ _ _ W)]|]. split.
    - intros d' a Hd' Ha. rewrite (walked_cell own fl ds d (4096 * k) s own1 s1 d' a I Hd W Hd' Ha). by apply C.
    - intros d' a Hd' Ha. rewrite (wk_vpte _ _ _ _ _ _ _ W) by (done || (unfold KERNBASE in *; lia)). by apply K. }
  destruct (pte_addr_word _ _ _ _ _ _ I1 Hd Hp) as (_ & _ & P0 & PV). destruct (Z.eqb_spec (pte_addr (mem s1) d (4096 * k)) 0); [done|].
  apply returns_bind, load_ok. rewrite PV, K1 by done. rewrite page_number, Z.eqb_refl. destruct (Z.ltb_spec k k); [lia|]. rewrite andb_false_r. cbn [andb].
  rewrite Hfree by lia. change (has 0 PTE_P) with false. cbv iota. unfold store. step. fold (kpte (pstart + 4096 * (k - lo)) perm).
  destruct (kpte_ok (pstart + 4096 * (k - lo)) perm) as (E1 & _); [lia | Z.div_mod_to_equations; lia | done |].
  destruct (store_kern_ok _ _ _ _ _ _ _ I1 Hd Hp E1 Hkk) as (I2 & C2 & K2). set (s2 := set_mem _ s1) in *.
  assert (budget fl0 (mem s0) d <= budget fl1 (mem s2) d) as Hb2.
  { unfold budget at 2. unfold s2. cbn [set_mem mem]. rewrite (absent_same (mem s1) (wr32 (pte_addr (mem s1) d (4096 * k)) (kpte (pstart + 4096 * (k - lo)) perm) (mem s1))); [unfold budget in *; lia|]. intros i Hi.
    destruct (store_pte _ _ _ _ _ _ _ I1 Hd Hp E1 Hk32) as (_ & Hpde & _). by apply Hpde. }
  assert (kmade (k + 1) s2) as M2.
  { split; [done|]. split.
    - intros d' a Hd' Ha. rewrite C2 by done. by apply C1.
    - intros d' a Hd' Ha. rewrite K2, K1, page_number by done. destruct (Z.eqb_spec d' d) as [->|]; cbn [andb]; [|done].
      destruct (Z.eqb_spec (a / PGSIZE) k) as [->|Hne].
      + destruct (Z.leb_spec lo k), (Z.ltb_spec k (k + 1)); try lia. done.
      + destruct (Z.leb_spec lo (a / PGSIZE)), (Z.ltb_spec (a / PGSIZE) k), (Z.ltb_spec (a / PGSIZE) (k + 1)); try lia; done. }
  destruct (Z.eqb_spec (4096 * k) (4096 * (hi - 1))) as [E|E].
  - step. replace (k + 1) with hi in M2 by lia. by eapply Hok.
  - change PGSIZE with 4096. rewrite !u32_small by lia. replace (4096 * k + 4096) with (4096 * (k + 1)) by lia.
    replace (pstart + 4096 * (k - lo) + 4096) with (pstart + 4096 * (k + 1 - lo)) by lia. by apply (IH own1 fl1 s2 (k + 1)); [|lia|lia| |].
Qed.
End Range.

(** the directory has the lines [ks] of [kmap] and no user page *)
Definition kernel_map (ks : list (Z * Z * Z * Z)) (m : Z -> Z) (d : Z) : Prop :=
  forall a, KERNBASE <= a < 2 ^ 32 -> vpte m d a = default 0 (klook ks (a / PGSIZE)).
Definition empty_user (m : Z -> Z) (d : Z) : Prop := forall a, is_user a -> cell m d a = (0, 0).

Fixpoint ranges_ok (past ks : list (Z * Z * Z * Z)) : Prop :=
  match ks with
  | [] => True
  | r :: ks' => good_range r /\ (forall p, kentry r p <> None -> klook past p = None) /\ ranges_ok (past ++ [r]) ks'
  end.

Lemma kmap_ranges : ranges_ok [] kmap.
Proof.
  destruct Hlay as [_ Hd1 Hd2]. change PGSIZE with 4096 in Hd1. change KERNLINK with 2148532224 in Hd2. change (KERNBASE + PHYSTOP) with 2382364672 in Hd2.
  assert (V2P data_ = data_ - 2147483648) as Edata by (unfold V2P; change KERNBASE with 2147483648; rewrite u32_small; lia).
  assert (u32 (V2P data_ - V2P KERNLINK) = data_ - 2148532224 /\ u32 (PHYSTOP - V2P data_) = 2382364672 - data_) as [E1 E2].
  { rewrite Edata. change (V2P KERNLINK) with 1048576. change PHYSTOP with 234881024. split; apply u32_small || (rewrite u32_small; lia); lia. }
  unfold kmap. cbn [ranges_ok app klook kentry]. unfold good_range. rewrite !E1, !E2, !Edata.
  change (u32 (EXTMEM - 0)) with 1048576. change (u32 (0 - DEVSPACE)) with 33554432. change (V2P KERNLINK) with 1048576.
  change KERNBASE with 2147483648. change KERNLINK with 2148532224. change DEVSPACE with 4261412864. change PGSIZE with 4096.
  split_and!; try done; try lia; try (Z.div_mod_to_equations; lia); try (by left); try (by right);
    intros p Hp; repeat match goal with |- context [if ?b then _ else _] => destruct b eqn:? end; try done;
    destruct (_ && _) eqn:Eb in Hp; try done; rewrite ?andb_true_iff, ?Z.leb_le, ?Z.ltb_lt in *; exfalso; Z.div_mod_to_equations; lia.
Qed.

Lemma mappages_kern own fl ds d s virt pstart pend perm past (Q : Z -> mach -> Prop) :
  vm_inv own fl (d :: ds) s -> d ∉ ds -> good_range (virt, pstart, pend, perm) ->
  (forall p, kentry (virt, pstart, pend, perm) p <> None -> klook past p = None) ->
  kernel_map past (mem s) d -> empty_user (mem s) d ->
  (forall own' fl' s', vm_inv own' fl' (d :: ds) s' -> kept ds s s' -> empty_user (mem s') d ->
     kernel_map (past ++ [(virt, pstart, pend, perm)]) (mem s') d -> budget fl (mem s) d <= budget fl' (mem s') d -> Q 0 s') ->
  (forall own' fl' s', vm_inv own' fl' (d :: ds) s' -> kept ds s s' -> budget fl (mem s) d < 0 -> Q (-1) s') ->
  returns (mappages d virt (u32 (pend - pstart)) pstart perm) s Q.
Proof.
  intros I Hd (G1 & G2 & G3 & G4 & G5 & G6 & G7 & G8 & G9) Hdis Hk Hu HQ Hbad. set (n := u32 (pend - pstart)) in *.
  set (lo := virt / 4096). set (hi := lo + n / 4096).
  assert (virt = 4096 * lo /\ n = 4096 * (hi - lo) /\ lo < hi) as (Ev & En & Hlt) by (unfold hi, lo; Z.div_mod_to_equations; lia).
  assert (d ∈ d :: ds) as Hin by (by apply elem_of_cons; left).
  unfold mappages. rewrite PGROUNDDOWN_eq, G1, Z.sub_0_r.
  assert (PGROUNDDOWN (u32 (virt + n - 1)) = 4096 * (hi - 1)) as ->.
  { rewrite u32_small by (unfold KERNBASE in *; lia). rewrite PGROUNDDOWN_eq. Z.div_mod_to_equations. lia. }
  assert (forall k s', kmade (d :: ds) d s lo pstart perm k s' -> kept ds s s') as Hkept.
  { intros k s' (U & C & K). split; [done|]. split; [intros; apply C; [by apply elem_of_cons; right | done]|].
    intros d' a Hd' Ha. rewrite K; [|by apply elem_of_cons; right|done]. destruct (Z.eqb_spec d' d) as [->|]; done. }
  rewrite Ev. replace pstart with (pstart + 4096 * (lo - lo)) at 1 by lia.
  eapply (mappages_loop_kern (d :: ds) d s Q lo hi pstart perm) with (fl0 := fl); try done; try lia.
  - intros p Hp. rewrite Hk by lia. rewrite page_number, Hdis; [done|]. cbn [kentry]. fold n. change PGSIZE with 4096. fold lo. fold hi.
    by rewrite (proj2 (Z.leb_le _ _) (proj1 Hp)), (proj2 (Z.ltb_lt _ _) (proj2 Hp)).
  - intros own' fl' s' I' M Hbud. apply (HQ own' fl'); [done | by eapply Hkept | | |done]; destruct M as (U & C & K).
    + intros a Ha. rewrite C by done. by apply Hu.
    + intros a Ha. rewrite K, Z.eqb_refl, klook_snoc by done. cbn [andb kentry]. fold n. change PGSIZE with 4096 in *. fold lo. fold hi.
      destruct ((lo <=? a / 4096) && (a / 4096 <? hi)) eqn:E.
      * rewrite Hdis; [done|]. cbn [kentry]. fold n. change PGSIZE with 4096. fold lo. fold hi. by rewrite E.
      * rewrite (Hk a Ha). change PGSIZE with 4096. by destruct (klook past (a / 4096)).
  - intros own' fl' s' k I' M Hbud. apply (Hbad own' fl'); [done | by eapply Hkept | done].
  - rewrite u32_small by (unfold KERNBASE in *; lia). change PGSIZE with 4096. unfold hi. lia.
  - split; [done|]. split; [done|]. intros d' a Hd' Ha. destruct (Z.leb_spec lo (a / PGSIZE)), (Z.ltb_spec (a / PGSIZE) lo); try lia; by rewrite andb_false_r.
Qed.

Lemma setupkvm_loop_ok ds d s0 n (Q : Z -> mach -> Prop) : d ∉ ds -> 0 < d -> forall ks past own fl s,
  vm_inv own fl (d :: ds) s -> kept ds s0 s -> ranges_ok past ks -> kernel_map past (mem s) d -> empty_user (mem s) d ->
  n <= budget fl (mem s) d ->
  (forall own' fl' s', vm_inv own' fl' (d :: ds) s' -> kept ds s0 s' -> kernel_map (past ++ ks) (mem s') d -> empty_user (mem s') d ->
     n <= budget fl' (mem s') d -> Q d s') ->
  (forall own' fl' s', vm_inv own' fl' ds s' -> kept ds s0 s' -> n < 0 -> Q 0 s') ->
  returns (setupkvm_loop ks d) s Q.
Proof.
  intros Hd Hpos. induction ks as [|[[[virt pstart] pend] perm] ks IH]; intros past own fl s I Hkp HR Hk Hu Hn HQ Hbad; cbn [setupkvm_loop].
  { step. apply (HQ own fl); [done | done | by rewrite app_nil_r | done | done]. }
  destruct HR as (G & Hdis & HR). apply returns_bind. eapply (mappages_kern own fl ds d s virt pstart pend perm past); [done..| |].
  - intros own1 fl1 s1 I1 K1 U1 M1 B1. change (0 <? 0) with false. cbv iota. eapply IH; [exact I1 | by eapply kept_trans | exact HR | done | done | lia | | done].
    intros own2 fl2 s2 I2 K2 M2 U2 B2. rewrite <- app_assoc in M2. by apply (HQ own2 fl2).
  - intros own1 fl1 s1 I1 K1 B1. change (-1 <? 0) with true. cbv iota. apply returns_bind, (freevm_ok own1 fl1 ds); [done | done|].
    intros own2 fl2 s2 I2 K2. step. apply (Hbad own2 fl2); [done| |lia]. eapply kept_trans; [exact Hkp|]. by eapply kept_trans.
Qed.

(** a zeroed page becomes a directory *)
Lemma new_dir own fl ds s x :
  vm_inv own fl ds s -> page_ok x -> own x = Detached -> (forall a, x <= a < x + PGSIZE -> mem s a = 0) ->
  vm_inv (own_set x (Dir x) own) fl (x :: ds) s /\ x ∉ ds /\ (forall a, vpte (mem s) x a = 0).
Proof.
  intros I Hx Ho Hz. assert (x ∉ ds) as Hn by (intros Hin; destruct (vi_dir _ _ _ _ I x Hin); congruence).
  assert (forall i, 0 <= i < 1024 -> pde_of (mem s) x i = 0) as Hp.
  { intros i Hi. unfold pde_of, rd32. rewrite !Hz by (change PGSIZE with 4096; lia). done. }
  assert (forall a, vpte (mem s) x a = 0) as Hv by (intros a; unfold vpte; rewrite Hp by apply PDX_range; done).
  split; [|done]. pose proof (vm_inv_relabel own fl ds s x (Dir x) I) as I'. rewrite Ho in I'. specialize (I' ltac:(done) ltac:(done)).
  destruct I' as [C N F D T Fr]. split; try done.
  - intros d Hd. apply elem_of_cons in Hd as [->|Hd]; [|by apply D]. by rewrite own_set_same.
  - intros d i Hd Hi. apply elem_of_cons in Hd as [->|Hd]; [by rewrite Hp | by apply T].
  - intros d a Hd Hu. apply elem_of_cons in Hd as [->|Hd]; [by rewrite Hv | by apply Fr].
Qed.

Lemma setupkvm_ok own fl ds s (Q : Z -> mach -> Prop) :
  vm_inv own fl ds s ->
  (forall own' fl' s' d, vm_inv own' fl' (d :: ds) s' -> d ∉ ds -> d <> 0 -> kept ds s s' -> kernel_map kmap (mem s') d -> empty_user (mem s') d ->
     Z.of_nat (length fl) - 1025 <= budget fl' (mem s') d -> Q d s') ->
  (forall own' fl' s', vm_inv own' fl' ds s' -> kept ds s s' -> Z.of_nat (length fl) < 1025 -> Q 0 s') ->
  returns setupkvm s Q.
Proof.
  intros I HQ Hbad. unfold setupkvm. apply returns_bind, (kalloc_ok own fl ds); [done|]. destruct fl as [|x fl].
  { change (0 =? 0) with true. step. by apply (Hbad own []). }
  intros I1. destruct (vi_free _ _ _ _ I x ltac:(set_solver)) as [Hx Hxo]. assert (0 < x) by (destruct Hx as (_ & _ & ?); unfold KERNBASE in *; lia).
  destruct (Z.eqb_spec x 0); [lia|]. apply returns_bind, (memset_detached (own_set x Detached own) fl ds); [done | done | by rewrite own_set_same|].
  intros s2 I2 E2 V2. change (DEVSPACE <? P2V PHYSTOP) with false. cbv iota.
  destruct (new_dir _ _ _ _ x I2 Hx (own_set_same _ _ _)) as (I3 & Hn & Hv).
  { intros a Ha. subst s2. cbn. by rewrite fill_in. }
  assert (kept ds s s2) as K2.
  { subst s2. eapply (hidden_kept own (x :: fl) ds s _ x); [done | intros; by rewrite Hxo | done | apply agree_fill, Hx | exact V2]. }
  eapply (setupkvm_loop_ok ds x s (Z.of_nat (length (x :: fl)) - 1025)); [done | done | exact I3 | exact K2 | apply kmap_ranges | | | | |].
  - intros a _. by rewrite Hv.
  - intros a _. unfold cell. by rewrite Hv.
  - unfold budget. pose proof (absent_bound (mem s2) x). simpl length. lia.
  - intros own' fl' s' ? ? ? ? ?. apply (HQ own' fl'); [done | done | lia | done..].
  - intros own' fl' s' ? ? ?. apply (Hbad own' fl'); [done | done | lia].
Qed.

Lemma ranges_good past ks r : ranges_ok past ks -> r ∈ ks -> good_range r.
Proof.
  revert past. induction ks as [|r' ks IH]; intros past HR Hr; [by apply elem_of_nil in Hr|]. destruct HR as (G & _ & HR).
  apply elem_of_cons in Hr as [->|Hr]; [done | by eapply IH].
Qed.
Lemma klook_in ks p e : klook ks p = Some e -> exists r, r ∈ ks /\ kentry r p = Some e.
Proof.
  induction ks as [|r ks IH]; simpl; [done|]. destruct (kentry r p) as [e'|] eqn:E.
  - intros [= ->]. exists r. split; [by apply elem_of_cons; left | done].
  - intros Hk. destruct (IH Hk) as (r' & H1 & H2). exists r'. split; [by apply elem_of_cons; right | done].
Qed.

(** users cannot access what [kmap] maps *)
Lemma kernel_map_kern m d : kernel_map kmap m d -> kern_ok m d.
Proof.
  intros Hk a Ha. rewrite Hk by done. destruct (klook kmap (a / PGSIZE)) as [e|] eqn:E; [|done]. cbn.
  destruct (klook_in _ _ _ E) as ([[[virt pstart] pend] perm] & Hin & He). pose proof (ranges_good _ _ _ kmap_ranges Hin) as G.
  cbn [kentry] in He. destruct (_ && _) eqn:Eb; [|done]. injection He as <-. rewrite andb_true_iff, Z.leb_le, Z.ltb_lt in Eb.
  destruct G as (G1 & G2 & G3 & G4 & G5 & G6 & G7 & G8 & G9). change PGSIZE with 4096 in *.
  apply kpte_ok; [Z.div_mod_to_equations; lia | Z.div_mod_to_equations; lia | done].
Qed.

(** ** Taking a page from the user *)

Lemma PTE_ADDR_eq e : PTE_ADDR e = e - e mod 4096.
Proof. apply PGROUNDDOWN_eq. Qed.
Lemma PTE_FLAGS_eq e : PTE_FLAGS e = e mod 4096.
Proof. unfold PTE_FLAGS. change 0xFFF with (Z.ones 12). by rewrite Z.land_ones by lia. Qed.
Lemma u32_flags e : PTE_FLAGS (u32 e) = PTE_FLAGS e.
Proof. rewrite !PTE_FLAGS_eq. unfold u32. symmetry. apply Znumtheory.Zmod_div_mod; [lia | lia|]. by exists 1048576. Qed.
Lemma u32_addr e : P2V (PTE_ADDR (u32 e)) = P2V (PTE_ADDR e).
Proof.
  rewrite !PTE_ADDR_eq, <- !PTE_FLAGS_eq, u32_flags. unfold P2V, u32. replace (e mod 2 ^ 32 - PTE_FLAGS e + KERNBASE) with (e mod 2 ^ 32 + (KERNBASE - PTE_FLAGS e)) by lia.
  rewrite Z.add_mod_idemp_l by lia. f_equal. lia.
Qed.

Lemma clear_flags e : let e' := Z.land e (Z.lnot PTE_U) in
  PTE_FLAGS (u32 e') = Z.land (PTE_FLAGS e) (Z.lnot PTE_U) /\ has (u32 e') PTE_P = has e PTE_P /\ P2V (PTE_ADDR (u32 e')) = P2V (PTE_ADDR e).
Proof.
  intros e'. assert (PTE_FLAGS (u32 e') = Z.land (PTE_FLAGS e) (Z.lnot PTE_U)) as E.
  { rewrite u32_flags. unfold PTE_FLAGS, e'. by rewrite <- !Z.land_assoc, (Z.land_comm (Z.lnot PTE_U)). }
  split; [done|]. split.
  - rewrite <- (has_flags (u32 e') PTE_P), <- (has_flags e PTE_P), E by done. unfold has. by rewrite <- Z.land_assoc.
  - rewrite u32_addr. unfold PTE_ADDR, e'. by rewrite <- Z.land_assoc.
Qed.

Lemma clearpteu_ok own fl ds s d va (Q : unit -> mach -> Prop) :
  vm_inv own fl ds s -> d ∈ ds -> is_user va -> has (vpte (mem s) d va) PTE_P = true ->
  (forall s', vm_inv own fl ds s' -> same_proc s s' ->
     (forall d' a, d' ∈ ds -> is_user a -> cell (mem s') d' a =
        if (d' =? d) && (a / PGSIZE =? va / PGSIZE) then (Z.land (cell (mem s) d' a).1 (Z.lnot PTE_U), (cell (mem s) d' a).2) else cell (mem s) d' a) ->
     (forall d' a, d' ∈ ds -> KERNBASE <= a < 2 ^ 32 -> vpte (mem s') d' a = vpte (mem s) d' a) -> Q tt s') ->
  returns (clearpteu d va) s Q.
Proof.
  intros I Hd Hu HP HQ. pose proof (user_u32 _ Hu) as Hva32.
  assert (has (pde_of (mem s) d (PDX va)) PTE_P = true) as Hp.
  { destruct (has (pde_of (mem s) d (PDX va)) PTE_P) eqn:E; [done|]. unfold vpte in HP. by rewrite E in HP. }
  destruct (pte_addr_word _ _ _ _ _ _ I Hd Hp) as (_ & _ & P0 & PV). unfold clearpteu. apply returns_bind, walk_look_ok.
  destruct (Z.eqb_spec (pte_addr (mem s) d va) 0) as [|_]; [done|]. apply returns_bind, load_ok. rewrite PV. unfold store. step.
  set (e := vpte (mem s) d va) in *. destruct (clear_flags e) as (E1 & E2 & E3). set (v := Z.land e (Z.lnot PTE_U)) in *.
  destruct (store_pte_u32 own fl ds s d va v I Hd Hp Hva32) as (Hvp & Hpde & Ha). set (s' := set_mem _ s). change (wr32 _ v (mem s)) with (mem s') in *.
  pose proof I as [C N F D T Fr]. destruct (T d (PDX va) Hd (PDX_range va) Hp) as [T1 T2].
  assert (forall d' a, d' ∈ ds -> is_user a -> P2V (PTE_ADDR (vpte (mem s') d' a)) = P2V (PTE_ADDR (vpte (mem s) d' a)) /\
    has (vpte (mem s') d' a) PTE_P = has (vpte (mem s) d' a) PTE_P) as Hsame.
  { intros d' a Hd' Hua. rewrite Hvp by (done || by apply user_u32). destruct (_ && _) eqn:E; [|done].
    rewrite andb_true_iff, !Z.eqb_eq in E. destruct E as [-> E]. by rewrite (vpte_same_page _ d a va), E3, E2 by (done || by apply user_u32). }
  apply HQ; [| done | |].
  - split; try done.
    + eapply chain_agree; [exact Ha | done|]. intros x Hx. destruct (F x Hx). split; [done|]. congruence.
    + intros d' i Hd' Hi. unfold tab_of. rewrite Hpde by done. by apply T.
    + intros d' a Hd' Hua. destruct (Hsame d' a Hd' Hua) as [-> ->]. by apply Fr.
  - intros d' a Hd' Hua. destruct (Hsame d' a Hd' Hua) as [S1 S2]. unfold cell. rewrite S1, S2.
    assert ((if has (vpte (mem s) d' a) PTE_P then mem s' (P2V (PTE_ADDR (vpte (mem s) d' a)) + a mod PGSIZE) else 0) =
            (if has (vpte (mem s) d' a) PTE_P then mem s (P2V (PTE_ADDR (vpte (mem s) d' a)) + a mod PGSIZE) else 0)) as ->.
    { destruct (has (vpte (mem s) d' a) PTE_P) eqn:HPa; [|done]. destruct (Fr d' a Hd' Hua HPa) as [F1 F2]. apply Ha. rewrite frame_byte by done. congruence. }
    rewrite Hvp by (done || by apply user_u32). destruct (_ && _) eqn:E; [|done]. cbn [fst snd]. f_equal.
    rewrite andb_true_iff, !Z.eqb_eq in E. destruct E as [-> E]. by rewrite (vpte_same_page _ d a va) by (done || by apply user_u32).
  - intros d' a Hd' Hk. rewrite Hvp by (done || (unfold KERNBASE in *; lia)).
    destruct (Z.eqb_spec (a / PGSIZE) (va / PGSIZE)) as [E|]; [|by rewrite andb_false_r]. by destruct (page_of_user va a Hu ltac:(lia)).
Qed.

(** ** Copying an address space *)

(** the page [c'] of the child for the page [c] of the parent *)
Definition copy_of (c' c : Z * Z) : Prop :=
  if has c.1 PTE_P then c' = c else has c'.1 PTE_P = false /\ see c' = see c.
Lemma copy_of_see c' c : copy_of c' c -> see c' = see c.
Proof. unfold copy_of. destruct (has c.1 PTE_P); [by intros -> | by intros [_ ?]]. Qed.

(** the entry of the child: present with the parent's permissions, or reserved, or neither, as the parent's *)
Lemma copy_of_entry m m' d p a : copy_of (cell m' d a) (cell m p a) ->
  (has (vpte m p a) PTE_P = true -> PTE_FLAGS (vpte m' d a) = PTE_FLAGS (vpte m p a)) /\
  (reserved (vpte m' d a) <-> reserved (vpte m p a)).
Proof.
  unfold copy_of, reserved.
  rewrite (cell_flags m' d a PTE_P), (cell_flags m p a PTE_P), (cell_flags m' d a PTE_SSU), (cell_flags m p a PTE_SSU) by done.
  destruct (has (cell m p a).1 PTE_P) eqn:HP.
  - intros E. split; [|rewrite E, HP; by split; intros [? ?]]. intros _. change ((cell m' d a).1 = (cell m p a).1). by rewrite E.
  - intros [HP' Hsee]. split; [done|]. unfold see in Hsee. rewrite HP, HP' in *.
    destruct (has (cell m' d a).1 PTE_SSU), (has (cell m p a).1 PTE_SSU); by split; intros [? ?].
Qed.

Lemma flags_range e : 0 <= PTE_FLAGS e < 4096.
Proof. unfold PTE_FLAGS. change 0xFFF with (Z.ones 12). rewrite Z.land_ones by lia. apply Z.mod_pos_bound. lia. Qed.
Lemma flags_lor_P e : has e PTE_P = true -> Z.lor (PTE_FLAGS e) PTE_P = PTE_FLAGS e.
Proof.
  intros HP. apply Z.bits_inj'. intros n Hn. rewrite Z.lor_spec. change PTE_P with 1. change 1 with (2 ^ 0). rewrite Z.pow2_bits_eqb by lia.
  destruct (Z.eqb_spec 0 n) as [<-|]; [|by rewrite orb_false_r]. rewrite orb_true_r. symmetry. unfold PTE_FLAGS. rewrite Z.land_spec.
  unfold has in HP. apply negb_true_iff, Z.eqb_neq in HP. change PTE_P with (Z.ones 1) in HP. rewrite Z.land_ones, <- Z.bit0_mod in HP by lia.
  by destruct (Z.testbit e 0).
Qed.

Section Copy.
Context (ds : list Z) (d p sz : Z) (s0 : mach) (Q : Z -> mach -> Prop).
Hypothesis Hd : d ∉ ds.
Hypothesis Hp : p ∈ ds.
Hypothesis Hsz : 0 <= sz < KERNBASE.
Context (fl0 : list Z).

(** the child [d] has the pages of the parent [p] below [k] *)
Definition copying (k : Z) (s : mach) : Prop :=
  kept ds s0 s /\ kernel_map kmap (mem s) d /\
  forall a, is_user a -> if a / PGSIZE <? k then copy_of (cell (mem s) d a) (cell (mem s0) p a) else gone (cell (mem s) d a).
Hypothesis Hok : forall own' fl' s', vm_inv own' fl' (d :: ds) s' -> copying (up sz) s' -> Q d s'.
Hypothesis Hbad : forall own' fl' s', vm_inv own' fl' ds s' -> kept ds s0 s' -> Z.of_nat (length fl0) < 1025 + up sz -> Q 0 s'.
(** the free pages that are left for the pages from [k] on *)
Definition room (k : Z) (fl : list Z) (s : mach) : Prop := Z.of_nat (length fl0) - 1025 - k <= budget fl (mem s) d.

Lemma d_in : d ∈ d :: ds. Proof using. by apply elem_of_cons; left. Qed.
Lemma p_in : p ∈ d :: ds. Proof using Hp. by apply elem_of_cons; right. Qed.
Lemma sub_in x : x ∈ ds -> x ∈ d :: ds /\ x <> d.
Proof using Hd. intros Hx. split; [by apply elem_of_cons; right|]. by intros ->. Qed.

Lemma copying_evolves k s s' C :
  copying k s -> 0 <= k -> evolves (d :: ds) d k (k + 1) C s s' ->
  (forall a c, is_user a -> a / PGSIZE = k -> C a c -> copy_of c (cell (mem s0) p a)) -> copying (k + 1) s'.
Proof using Hd.
  intros (K & M & U) Hk E HC. split; [|split].
  - eapply kept_trans; [exact K|]. eapply evolves_kept; [exact E | apply sub_in].
  - intros a Ha. rewrite (ev_kern _ _ _ _ _ _ _ E) by (done || apply d_in). by apply M.
  - intros a Ha. destruct (decide (a / PGSIZE = k)) as [Ek|Hne].
    + destruct (Z.ltb_spec (a / PGSIZE) (k + 1)); [|lia]. apply HC; [done | done|]. apply (ev_in _ _ _ _ _ _ _ E); [done | lia].
    + rewrite (ev_out _ _ _ _ _ _ _ E) by (done || apply d_in || lia). specialize (U a Ha).
      destruct (Z.ltb_spec (a / PGSIZE) k), (Z.ltb_spec (a / PGSIZE) (k + 1)); try lia; done.
Qed.

Lemma copy_fail own fl s k : vm_inv own fl (d :: ds) s -> kept ds s0 s -> Z.of_nat (length fl0) < 1025 + up sz -> k = (freevm d ;; mret 0) -> returns k s Q.
Proof using All.
  intros I K Hl ->. apply returns_bind, (freevm_ok own fl ds); [done | done|]. intros own' fl' s' I' K'. step. apply (Hbad own' fl'); [done| |done]. by eapply kept_trans.
Qed.

(** one page of the parent that is there *)
Lemma copy_page own fl s k (kont : M mach Z) :
  vm_inv own fl (d :: ds) s -> copying k s -> room k fl s -> 0 <= k < up sz -> 4096 * k < KERNBASE ->
  let e := vpte (mem s) p (4096 * k) in has e PTE_P = true ->
  (forall own' fl' s', vm_inv own' fl' (d :: ds) s' -> copying (k + 1) s' -> room (k + 1) fl' s' -> returns kont s' Q) ->
  returns (m ← kalloc; if m =? 0 then (freevm d ;; mret 0) else
    memmove m (P2V (PTE_ADDR e)) PGSIZE ;;
    r ← mappages d (4096 * k) PGSIZE (V2P m) (PTE_FLAGS e);
    if r <? 0 then kfree m ;; freevm d ;; mret 0 else kont) s Q.
Proof using All.
  intros I Hc Hr [Hk Hku] Hkb e HP Hnext. pose proof Hc as (K & M & U). unfold room, budget in Hr. destruct (page_addr k Hk Hkb) as (Hu & Ha & Epg).
  apply returns_bind, (kalloc_ok own fl (d :: ds)); [done|]. destruct fl as [|x fl].
  { change (0 =? 0) with true. eapply copy_fail; [done | done | | done]. pose proof (absent_bound (mem s) d). simpl in Hr. lia. }
  intros I1. destruct (vi_free _ _ _ _ I x ltac:(set_solver)) as [Hx Hxo].
  destruct (Z.eqb_spec x 0) as [->|_]; [destruct Hx as (_ & _ & ?); unfold KERNBASE in *; lia|].
  unfold memmove. step. set (src := P2V (PTE_ADDR e)). set (s2 := set_mem _ _).
  assert (agree (fun y => y <> x) (mem s) (mem s2)) as Ag.
  { intros y Hy. unfold s2. cbn. unfold copy_bytes. destruct ((x <=? y) && (y <? x + PGSIZE)) eqn:E; [|done].
    rewrite andb_true_iff, Z.leb_le, Z.ltb_lt in E. destruct Hy. destruct Hx as (Hx & _). change PGSIZE with 4096 in *. Z.div_mod_to_equations. lia. }
  destruct (vm_inv_agree _ _ _ _ s2 _ I1 Ag eq_refl) as [I2 V2].
  { intros y Hy ->. by rewrite own_set_same in Hy. }
  assert (kept ds s s2) as K2.
  { eapply (hidden_kept own (x :: fl) ds s s2 x); [eapply vm_inv_sub; [exact I | intros; by apply sub_in] | intros; by rewrite Hxo | done | exact Ag | intros; apply V2; by apply sub_in]. }
  assert (absent (mem s2) d = absent (mem s) d) as Eab.
  { apply absent_same. intros i Hi. destruct (vi_dir _ _ _ _ I d (d_in)). apply (pde_agree _ _ _ _ _ Ag); [done | congruence | done]. }
  assert (evolves (d :: ds) d k k (fun _ _ => True) s s2) as E2.
  { eapply (hidden_evolves own (x :: fl) (d :: ds) s s2 x); [done | intros; by rewrite Hxo | done | exact Ag | exact V2]. }
  apply returns_bind. eapply (map_page_ok _ fl (d :: ds) s2 d _ x); [done | apply d_in | done | done | | done | by rewrite own_set_same | apply flags_range | |].
  - rewrite V2 by apply d_in. rewrite (cell_flags _ _ _ PTE_P) by done. cbn [set_freelist mem]. specialize (U _ Hu). rewrite Epg in U.
    destruct (Z.ltb_spec k k); [lia|]. apply U.
  - intros own' fl' s3 I3 Hpr _ _ E3 Hb3. change (0 <? 0) with false. cbv iota. apply (Hnext own' fl'); [done | | unfold room, budget in *; simpl in Hr; lia]. rewrite Epg in E3.
    eapply copying_evolves; [exact Hc | done | eapply evolves_over; [exact E2 | exact E3 | apply d_in | lia | lia] |].
    intros a c Hua Eak ->. destruct K as (_ & Kc & _). rewrite <- (Kc p a Hp Hua).
    assert (vpte (mem s) p a = e) as Ee by (apply vpte_same_page; [by apply user_u32 | by apply user_u32 | by rewrite Epg]).
    unfold copy_of. rewrite <- (cell_flags _ _ _ PTE_P), Ee, HP by done. unfold cell. rewrite Ee, HP, flags_lor_P by done. f_equal.
    unfold s2. cbn. unfold copy_bytes. fold src. pose proof (Z.mod_pos_bound a PGSIZE ltac:(done)).
    destruct (Z.leb_spec x (x + a mod PGSIZE)), (Z.ltb_spec (x + a mod PGSIZE) (x + PGSIZE)); try lia. cbn [andb]. f_equal. lia.
  - intros -> Hb3. change (-1 <? 0) with true. cbv iota. apply returns_bind, (kfree_ok (own_set x Detached own) [] (d :: ds)); [done | done | by rewrite own_set_same|].
    intros s3 _ I3 Hpr3 Ag3 V3 _. eapply copy_fail; [exact I3 | | unfold budget in Hb3; simpl in Hr; lia | done]. eapply kept_trans; [exact K|]. eapply kept_trans; [exact K2|].
    eapply (hidden_kept (own_set x Detached own) [] ds s2 s3 x); [eapply vm_inv_sub; [exact I2 | intros; by apply sub_in] | intros; by rewrite own_set_same | by apply same_user_proc | done | intros; apply V3; by apply sub_in].
Qed.

(** a page of the parent that is only reserved *)
Lemma copy_reserved own fl s k (kont : M mach Z) :
  vm_inv own fl (d :: ds) s -> copying k s -> room k fl s -> 0 <= k < up sz -> 4096 * k < KERNBASE ->
  reserved (vpte (mem s) p (4096 * k)) ->
  (forall own' fl' s', vm_inv own' fl' (d :: ds) s' -> copying (k + 1) s' -> room (k + 1) fl' s' -> returns kont s' Q) ->
  returns (dpte ← walkpgdir d (4096 * k) true; if dpte =? 0 then (freevm d ;; mret 0) else store dpte RSV ;; kont) s Q.
Proof using All.
  intros I Hc Hr [Hk Hku] Hkb [R1 R2] Hnext. pose proof Hc as (K & M & U). unfold room, budget in Hr. destruct (page_addr k Hk Hkb) as (Hu & Ha & Epg).
  apply returns_bind, (walk_alloc_ok own fl (d :: ds) s d); [done | apply d_in | by apply user_u32 | |].
  2:{ intros -> Hb. change (0 =? 0) with true. eapply copy_fail; [done | done | | done]. unfold budget in Hb. simpl in *. lia. }
  intros own1 fl1 s1 I1 W _ Hb1. pose proof (wk_present _ _ _ _ _ _ _ W) as Hpp.
  destruct (pte_addr_word _ _ _ _ _ _ I1 d_in Hpp) as (_ & _ & P0 & _). destruct (Z.eqb_spec (pte_addr (mem s1) d (4096 * k)) 0) as [|_]; [done|].
  unfold store. step. assert (entry_ok own1 d (4096 * k) RSV own1) as He by (by left). assert (0 <= RSV < 2 ^ 32) as Hrsv by done.
  pose proof (store_pte_inv _ _ _ _ _ _ _ _ I1 d_in Hpp Hrsv Hu He) as I2. pose proof (store_evolves _ _ _ _ _ _ _ _ I1 d_in Hpp Hrsv Hu He) as E2.
  rewrite Epg in E2. apply (Hnext own1 fl1 _ I2).
  - eapply copying_evolves; [exact Hc | done | |].
    + eapply evolves_over; [eapply (walked_evolves _ _ _ _ _ _ _ _ k I d_in W) | exact E2 | apply d_in | lia | lia].
    + intros a c Hua Eak ->. change (has RSV PTE_P) with false. cbv iota. destruct K as (_ & Kc & _). rewrite <- (Kc p a Hp Hua). unfold copy_of.
      rewrite <- (cell_flags _ _ _ PTE_P) by done. rewrite (vpte_same_page _ p a (4096 * k)), R1; [|by apply user_u32 | by apply user_u32 | by rewrite Epg].
      split; [done|]. rewrite <- uview_see. unfold uview.
      rewrite (vpte_same_page _ p a (4096 * k)), R1, R2; [done | by apply user_u32 | by apply user_u32 | by rewrite Epg].
  - unfold room. unfold budget in *. cbn [set_mem mem]. rewrite (absent_same (mem s1) (wr32 (pte_addr (mem s1) d (4096 * k)) RSV (mem s1))); [lia|].
    intros i Hi. destruct (store_pte _ _ _ _ _ _ _ I1 d_in Hpp Hrsv (user_u32 _ Hu)) as (_ & Hpde & _). apply Hpde; [apply d_in | done].
Qed.

Lemma copy_loop_ok : forall fuel own fl s k,
  vm_inv own fl (d :: ds) s -> copying k s -> room k fl s -> 0 <= k <= up sz -> up sz - k < Z.of_nat fuel ->
  returns (copyuvm_loop fuel p d (4096 * k) sz) s Q.
Proof using All.
  induction fuel as [|fuel IH]; intros own fl s k I Hc Hr Hk Hfuel; [lia|]. cbn [copyuvm_loop].
  destruct (Z.ltb_spec (4096 * k) sz) as [Hlt|Hge].
  2:{ step. apply (Hok own fl); [done|]. replace (up sz) with k; [done|]. unfold up in *. Z.div_mod_to_equations. lia. }
  assert (k < up sz) as Hku by (unfold up; Z.div_mod_to_equations; lia).
  destruct (page_addr k ltac:(lia) ltac:(lia)) as (Hu & Ha & Epg). pose proof (user_u32 _ Hu) as Hu32.
  assert (u32 (4096 * k + PGSIZE) = 4096 * (k + 1)) as -> by (change PGSIZE with 4096; unfold KERNBASE in *; rewrite u32_small; lia).
  assert (forall own' fl' s', vm_inv own' fl' (d :: ds) s' -> copying (k + 1) s' -> room (k + 1) fl' s' -> returns (copyuvm_loop fuel p d (4096 * (k + 1)) sz) s' Q) as Hnext.
  { intros own' fl' s' ? ? ?. apply (IH own' fl'); [done | done | done | lia | lia]. }
  assert (untouched (vpte (mem s) p (4096 * k)) -> returns (copyuvm_loop fuel p d (4096 * (k + 1)) sz) s Q) as Hskip.
  { intros [U1 U2]. apply (Hnext own fl); [done | | unfold room in *; lia]. pose proof Hc as (K & M & U). eapply (copying_evolves k s s (fun _ => gone)); [done | lia | apply evolves_already |].
    - intros a Hua Hap. specialize (U a Hua). destruct (Z.ltb_spec (a / PGSIZE) k); [lia|done].
    - intros a c Hua Eak Hg. destruct K as (_ & Kc & _). rewrite <- (Kc p a Hp Hua). unfold copy_of.
      assert (vpte (mem s) p a = vpte (mem s) p (4096 * k)) as Ev by (apply vpte_same_page; [by apply user_u32 | done | by rewrite Epg]).
      rewrite <- (cell_flags _ _ _ PTE_P), Ev, U1 by done. split; [apply Hg|]. rewrite (see_gone c Hg), <- uview_see. unfold uview. by rewrite Ev, U1, U2. }
  apply returns_bind, walk_look_ok. destruct (has (pde_of (mem s) p (PDX (4096 * k))) PTE_P) eqn:Hpp.
  2:{ rewrite (proj2 (pte_addr_zero _ _ _ _ _ _ I p_in) Hpp). change (0 =? 0) with true. apply Hskip. unfold untouched, vpte. by rewrite Hpp. }
  destruct (pte_addr_word _ _ _ _ _ _ I p_in Hpp) as (_ & _ & P0 & PV). destruct (Z.eqb_spec (pte_addr (mem s) p (4096 * k)) 0); [done|].
  apply returns_bind, load_ok. rewrite PV. destruct (has (vpte (mem s) p (4096 * k)) PTE_P) eqn:HP; cbn [negb].
  - eapply (copy_page own fl); [done | done | done | lia | lia | done | done].
  - destruct (has (vpte (mem s) p (4096 * k)) PTE_SSU) eqn:HS; cbn [negb]; [|by apply Hskip].
    eapply (copy_reserved own fl); [done | done | done | lia | lia | done | done].
Qed.
End Copy.

(** C5: [copyuvm], the memory of a forked child.  The child gets an address space
    of its own with the kernel's part, and sees byte for byte what the parent
    sees below the size.  A page that the parent has in memory the child has with
    the same permissions; a page is only reserved in the child, with no frame,
    exactly when it is only reserved in the parent.  No other address space
    changes.  It fails only when there are not enough free pages, and then the
    view of every address space is as before. *)
Theorem copyuvm_correct own fl ds s p sz :
  vm_inv own fl ds s -> p ∈ ds -> 0 <= sz < KERNBASE ->
  returns (copyuvm p sz) s (fun d s' =>
    kept ds s s' /\
    ((d = 0 /\ Z.of_nat (length fl) < 1025 + up sz /\ exists own' fl', vm_inv own' fl' ds s') \/
     (d <> 0 /\ d ∉ ds /\ kernel_map kmap (mem s') d /\ (exists own' fl', vm_inv own' fl' (d :: ds) s') /\
      (forall a, is_user a -> uview (mem s') d a = if a / PGSIZE <? up sz then uview (mem s) p a else None) /\
      (forall a, is_user a -> a / PGSIZE < up sz ->
         (has (vpte (mem s) p a) PTE_P = true -> PTE_FLAGS (vpte (mem s') d a) = PTE_FLAGS (vpte (mem s) p a)) /\
         (reserved (vpte (mem s') d a) <-> reserved (vpte (mem s) p a)))))).
Proof.
  intros I Hp Hsz. assert (0 <= up sz) by (unfold up; Z.div_mod_to_equations; lia).
  unfold copyuvm. apply returns_bind, (setupkvm_ok own fl ds); [done | |].
  - intros own1 fl1 s1 d I1 Hd Hd0 K1 M1 U1 B1. destruct (Z.eqb_spec d 0); [done|].
    eapply (copy_loop_ok ds d p sz s) with (k := 0) (fl0 := fl); [done | done | done | | | exact I1 | | | lia |].
    + intros own' fl' s' I' (K & M & U). split; [done|]. right. split_and!; try done; [by exists own', fl'| |].
      * intros a Ha. specialize (U a Ha). rewrite !uview_see. destruct (a / PGSIZE <? up sz); [by apply copy_of_see | by apply see_gone].
      * intros a Ha Hlt. specialize (U a Ha). rewrite (proj2 (Z.ltb_lt _ _) Hlt) in U. by apply copy_of_entry.
    + intros own' fl' s' I' K Hl. split; [done|]. left. split_and!; [done | done | by exists own', fl'].
    + split; [done|]. split; [done|]. intros a Ha. assert (0 <= a / PGSIZE) by (apply Z.div_pos; [apply Ha | done]).
      destruct (Z.ltb_spec (a / PGSIZE) 0); [lia|]. rewrite U1 by done. done.
    + unfold room. lia.
    + unfold up. change PGSIZE with 4096. Z.div_mod_to_equations. lia.
  - intros own1 fl1 s1 I1 K1 Hl. change (0 =? 0) with true. step. split; [done|]. left. split_and!; [done | lia | by exists own1, fl1].
Qed.
End Kvm.
