(* ===== verification/Exec.v ===== *)
(** * Loading a program ([exec.c], [loaduvm] and [clearpteu] of [vm.c])

    [exec] over the memory of [Vm] and the file that the path leads to.  A file
    is the list of its bytes, and a read of it is what [readi] gives
    ([ExecFs.exec_readi]); the other calls on the file system are recorded in
    the order they are made. *)

From S2P Require Import Prelude Vm.

Definition MAXARG : nat := 32.
Definition ELF_MAGIC : Z := 0x464C457F.
Definition ELF_PROG_LOAD : Z := 1.
Definition ELFHDR_SIZE : Z := 52.
Definition PROGHDR_SIZE : Z := 32.

Definition byte_at (f : list Z) (i : Z) : Z := f !!! Z.to_nat i.
Definition get16 (f : list Z) (i : Z) : Z := byte_at f i + 256 * byte_at f (i + 1).
Definition get32 (f : list Z) (i : Z) : Z := get16 f i + 65536 * get16 f (i + 2).

Record elfhdr : Type := mkelf { e_magic : Z; e_entry : Z; e_phoff : Z; e_phnum : Z }.
Definition parse_elfhdr (b : list Z) : elfhdr := mkelf (get32 b 0) (get32 b 24) (get32 b 28) (get16 b 44).
Record proghdr : Type := mkph { ph_type : Z; ph_off : Z; ph_vaddr : Z; ph_filesz : Z; ph_memsz : Z }.
Definition parse_proghdr (b : list Z) : proghdr := mkph (get32 b 0) (get32 b 4) (get32 b 8) (get32 b 16) (get32 b 20).

(** [readi] on a file with these bytes *)
Definition file_bytes (f : list Z) (off n : Z) : list Z := take (Z.to_nat n) (drop (Z.to_nat off) f).
Definition readi (f : list Z) (off n : Z) : Z * list Z :=
  let size := Z.of_nat (length f) in
  if (size <? off) || (2 ^ 32 <=? off + n) then (-1, [])
  else let n' := Z.min n (size - off) in (n', file_bytes f off n').

Inductive fscall : Type := FBegin | FIlock | FUnlockPut | FEnd.

(** the running process and what [exec] changes of it, and the calls made *)
Record task : Type := mktask { vm : mach; name : list Z; eip : Z; esp : Z; calls : list fscall }.
Definition call (c : fscall) : M task unit := modify (fun t => mktask (vm t) (name t) (eip t) (esp t) (calls t ++ [c])).
Definition lift {A} (m : M mach A) : M task A := fun t =>
  match m (vm t) with
  | Ok (a, s) => Ok (a, mktask s (name t) (eip t) (esp t) (calls t))
  | Panic msg => Panic msg
  | Block => Block
  end.
Definition set_pgdir (d : Z) (s : mach) : mach := mkmach (mem s) (freelist s) (p_sz s) d (p_killed s) (con s).

Section Exec.
Context `{Layout}.

Fixpoint loaduvm_loop (fuel : nat) (pgdir addr : Z) (f : list Z) (offset sz i : Z) : M mach Z :=
  match fuel with
  | O => block
  | S fuel' =>
      if i <? sz then
        pte ← walkpgdir pgdir (u32 (addr + i)) false;
        if pte =? 0 then panic "loaduvm: address should exist"
        else
          e ← load pte;
          let pa := PTE_ADDR e in
          let n := if sz - i <? PGSIZE then sz - i else PGSIZE in
          let '(r, data) := readi f (u32 (offset + i)) n in
          modify (set_mem (copy_bytes (P2V pa) (byte_at data) r)) ;;
          if negb (r =? n) then mret (-1)
          else loaduvm_loop fuel' pgdir addr f offset sz (u32 (i + PGSIZE))
      else mret 0
  end.

(** [loaduvm] *)
Definition loaduvm (pgdir addr : Z) (f : list Z) (offset sz : Z) : M mach Z :=
  if negb (addr mod PGSIZE =? 0) then panic "loaduvm: addr must be page aligned"
  else loaduvm_loop (Z.to_nat (sz / PGSIZE + 2)) pgdir addr f offset sz 0.

(** the loop over the program headers: the size of the image, or [None] for [goto bad] *)
Fixpoint load_loop (k : nat) (f : list Z) (pgdir off sz : Z) : M mach (option Z) :=
  match k with
  | O => mret (Some sz)
  | S k' =>
      let next := load_loop k' f pgdir (u32 (off + PROGHDR_SIZE)) in
      let '(r, b) := readi f off PROGHDR_SIZE in
      let ph := parse_proghdr b in
      if negb (r =? PROGHDR_SIZE) then mret None
      else if negb (ph_type ph =? ELF_PROG_LOAD) then next sz
      else if ph_memsz ph <? ph_filesz ph then mret None
      else if u32 (ph_vaddr ph + ph_memsz ph) <? ph_vaddr ph then mret None
      else
        sz ← allocuvm pgdir sz (u32 (ph_vaddr ph + ph_memsz ph));
        if sz =? 0 then mret None
        else if negb (ph_vaddr ph mod PGSIZE =? 0) then mret None
        else
          r ← loaduvm pgdir (ph_vaddr ph) f (ph_off ph) (ph_filesz ph);
          if r <? 0 then mret None else next sz
  end.

(** the bytes of words, lowest first *)
Definition le32 (w : Z) : list Z := [w mod 256; w / 256 mod 256; w / 65536 mod 256; w / 16777216 mod 256].
Definition words (l : list Z) : list Z := concat (map le32 l).

(** the loop that pushes the argument strings: the stack pointer and the pointers *)
Fixpoint push_args (argv : list (list Z)) (argc : nat) (pgdir sp : Z) (ptrs : list Z) : M mach (option (Z * list Z)) :=
  match argv with
  | [] => mret (Some (sp, ptrs))
  | a :: argv' =>
      if (MAXARG <=? argc)%nat then mret None
      else
        let n := Z.of_nat (length a) + 1 in
        let sp := Z.land (u32 (sp - n)) (Z.lnot 3) in
        r ← copyout pgdir sp (byte_at (a ++ [0])) n;
        if r <? 0 then mret None
        else push_args argv' (S argc) pgdir sp (ptrs ++ [sp])
  end.

(** the program's name: what follows the last slash, cut by [safestrcpy] *)
Fixpoint basename (last s : list Z) : list Z :=
  match s with
  | [] => last
  | c :: s' => basename (if c =? 47 then s' else last) s'
  end.
Definition prog_name (path : list Z) : list Z := take 15 (basename path path).

(** the code after [bad:] *)
Definition bad (pgdir : Z) (ip : bool) : M task Z :=
  (if pgdir =? 0 then mret tt else lift (freevm pgdir)) ;;
  (if ip then call FUnlockPut ;; call FEnd else mret tt) ;;
  mret (-1).

(** from the stack on *)
Definition exec_stack (path : list Z) (argv : list (list Z)) (entry pgdir sz : Z) : M task Z :=
  let sz := PGROUNDUP sz in
  sz ← lift (allocuvm pgdir sz (u32 (sz + 2 * PGSIZE)));
  if sz =? 0 then bad pgdir false
  else
    lift (clearpteu pgdir (u32 (sz - 2 * PGSIZE))) ;;
    a ← lift (push_args argv 0 pgdir sz []);
    match a with
    | None => bad pgdir false
    | Some (sp, ptrs) =>
        let argc := Z.of_nat (length argv) in
        let ustack := [0xffffffff; argc; u32 (sp - (argc + 1) * 4)] ++ ptrs ++ [0] in
        let sp := u32 (sp - (3 + argc + 1) * 4) in
        r ← lift (copyout pgdir sp (byte_at (words ustack)) ((3 + argc + 1) * 4));
        if r <? 0 then bad pgdir false
        else
          t ← get;
          let oldpgdir := p_pgdir (vm t) in
          modify (fun t => mktask (set_sz sz (set_pgdir pgdir (vm t))) (prog_name path) entry sp (calls t)) ;;
          lift (freevm oldpgdir) ;;
          mret 0
    end.

(** [exec]; [file] is what [namei] finds at the path *)
Definition exec (file : option (list Z)) (path : list Z) (argv : list (list Z)) : M task Z :=
  call FBegin ;;
  match file with
  | None => call FEnd ;; lift (kprintf "exec: fail") ;; mret (-1)
  | Some f =>
      call FIlock ;;
      let '(r, b) := readi f 0 ELFHDR_SIZE in
      let elf := parse_elfhdr b in
      if negb (r =? ELFHDR_SIZE) then bad 0 true
      else if negb (e_magic elf =? ELF_MAGIC) then bad 0 true
      else
        pgdir ← lift setupkvm;
        if pgdir =? 0 then bad 0 true
        else
          o ← lift (load_loop (Z.to_nat (e_phnum elf)) f pgdir (e_phoff elf) 0);
          match o with
          | None => bad pgdir true
          | Some sz => call FUnlockPut ;; call FEnd ;; exec_stack path argv (e_entry elf) pgdir sz
          end
  end.
End Exec.
