(* ===== verification/ExecSpec.v ===== *)
(** * What [exec] does

    A well-formed program file denotes an image; [exec] gives the process
    exactly this image, a stack with the arguments below an inaccessible page,
    and nothing of its old memory, or leaves everything as it was. *)

From S2P Require Import Prelude Vm LazyAlloc Uvm Kvm Exec.

(** ** The program that a file denotes *)

Record segment : Type := mkseg { s_va : Z; s_off : Z; s_len : Z }.

(** the segments to load and the size of the image, [None] for a file that is refused *)
Fixpoint segments (k : nat) (f : list Z) (off sz : Z) : option (list segment * Z) :=
  match k with
  | O => Some ([], sz)
  | S k' =>
      let '(r, b) := readi f off PROGHDR_SIZE in
      let ph := parse_proghdr b in
      let top := ph_vaddr ph + ph_memsz ph in
      if negb (r =? PROGHDR_SIZE) then None
      else if negb (ph_type ph =? ELF_PROG_LOAD) then segments k' f (u32 (off + PROGHDR_SIZE)) sz
      else if (ph_memsz ph <? ph_filesz ph) || (KERNBASE <=? top) || (Z.max sz top =? 0) || negb (ph_vaddr ph mod PGSIZE =? 0) ||
        ((0 <? ph_filesz ph) && (Z.of_nat (length f) <? ph_off ph + ph_filesz ph)) then None
      else
        match segments k' f (u32 (off + PROGHDR_SIZE)) (Z.max sz top) with
        | None => None
        | Some (l, sz') => Some (mkseg (ph_vaddr ph) (ph_off ph) (ph_filesz ph) :: l, sz')
        end
  end.

Definition covers (s : segment) (a : Z) : bool := (s_va s <=? a) && (a <? s_va s + s_len s).
(** the image: a later segment overwrites an earlier one *)
Fixpoint image (f : list Z) (l : list segment) (g : Z -> Z) : Z -> Z :=
  match l with
  | [] => g
  | s :: l' => image f l' (fun a => if covers s a then byte_at f (s_off s + (a - s_va s)) else g a)
  end.

Section Load.
Context `{Layout}.
Hypothesis Hlay : layout_ok.
Context (ds : list Z) (s0 : mach) (d : Z).
Hypothesis Hd : d ∉ ds.

(** a new address space [d] that has [g] below [sz] *)
Record building (own : Z -> kind) (fl : list Z) (n : Z) (s : mach) : Prop := {
  b_inv : vm_inv own fl (d :: ds) s;
  b_kept : kept ds s0 s;
  b_kern : kernel_map kmap (mem s) d;
  b_room : n <= budget fl (mem s) d
}.
Definition holds_image (sz : Z) (g : Z -> Z) (m : Z -> Z) : Prop :=
  forall a, is_user a -> if a / PGSIZE <? up sz then cell m d a = (7, g a) else gone (cell m d a).

Lemma d_head : d ∈ d :: ds. Proof using. by apply elem_of_cons; left. Qed.
Lemma ds_sub x : x ∈ ds -> x ∈ d :: ds /\ x <> d.
Proof using Hd. intros Hx. split; [by apply elem_of_cons; right|]. by intros ->. Qed.

Lemma read_full f off n : 0 <= off -> 0 < n -> Z.of_nat (length f) < KERNBASE ->
  readi f off n = (n, file_bytes f off n) /\ off + n <= Z.of_nat (length f) \/
  (exists r b, readi f off n = (r, b) /\ r <> n /\ r <= n) /\ Z.of_nat (length f) < off + n.
Proof.
  intros Ho Hp Hf. unfold readi. destruct (Z.ltb_spec (Z.of_nat (length f)) off); cbn [orb].
  - right. split; [|lia]. eexists _, _. split; [done|]. lia.
  - unfold KERNBASE in Hf. destruct (Z.leb_spec (2 ^ 32) (off + n)).
    + right. split; [|lia]. eexists _, _. split; [done|]. lia.
    + destruct (Z.le_gt_cases (off + n) (Z.of_nat (length f))).
      * left. rewrite Z.min_l by lia. done.
      * right. split; [|lia]. eexists _, _. split; [done|]. lia.
Qed.

Lemma file_byte f off n i : 0 <= off -> 0 <= i < n -> byte_at (file_bytes f off n) i = byte_at f (off + i).
Proof.
  intros Ho Hi. unfold byte_at, file_bytes. rewrite list_lookup_total_alt, list_lookup_total_alt. f_equal.
  rewrite lookup_take_lt by lia. rewrite lookup_drop. f_equal. lia.
Qed.

(** *** [loaduvm] *)
Lemma loaduvm_loop_ok own fl n f off len va sz g : Z.of_nat (length f) < KERNBASE -> 0 <= off < 2 ^ 32 -> 0 <= va -> va mod 4096 = 0 ->
  0 <= len -> va + len <= sz -> sz < KERNBASE ->
  forall fuel s j, 0 <= j -> (j = 0 \/ off + Z.min (4096 * j) len <= Z.of_nat (length f)) -> (len + 4095) / 4096 - j < Z.of_nat fuel -> 4096 * j <= len + 4095 ->
  building own fl n s ->
  holds_image sz (fun a => if (va <=? a) && (a <? va + Z.min (4096 * j) len) then byte_at f (off + (a - va)) else g a) (mem s) ->
  returns (loaduvm_loop fuel d va f off len (4096 * j)) s (fun r s' =>
    building own fl n s' /\
    if (0 <? len) && (Z.of_nat (length f) <? off + len) then r = -1
    else r = 0 /\ holds_image sz (fun a => if (va <=? a) && (a <? va + len) then byte_at f (off + (a - va)) else g a) (mem s')).
Proof using Hd.
  intros Hf Hoff Hva Hal Hlen Hsz Hk. induction fuel as [|fuel IH]; intros s j Hj Hread Hfuel Hjl B Hi.
  { exfalso. Z.div_mod_to_equations. lia. }
  cbn [loaduvm_loop]. destruct (Z.ltb_spec (4096 * j) len) as [Hlt|Hge].
  2:{ step. split; [done|]. rewrite Z.min_r in Hi by lia. destruct (Z.ltb_spec 0 len); cbn [andb]; [|done].
      destruct (Z.ltb_spec (Z.of_nat (length f)) (off + len)); [|done]. exfalso.
      destruct Hread as [->|Hread]; lia. }
  set (a0 := va + 4096 * j). assert (is_user a0) as Hu by (unfold is_user, a0; lia).
  assert (a0 mod 4096 = 0) as Ha0 by (unfold a0; Z.div_mod_to_equations; lia).
  destruct B as [I K M R]. pose proof (Hi a0 Hu) as Hc.
  destruct (Z.ltb_spec (a0 / PGSIZE) (up sz)) as [_|Hbad].
  2:{ exfalso. unfold a0, up in *. change PGSIZE with 4096 in *. Z.div_mod_to_equations. lia. }
  assert (has (vpte (mem s) d a0) PTE_P = true) as HP by (rewrite (cell_flags _ _ _ PTE_P), Hc by done; done).
  assert (has (pde_of (mem s) d (PDX a0)) PTE_P = true) as Hp.
  { destruct (has (pde_of (mem s) d (PDX a0)) PTE_P) eqn:E; [done|]. unfold vpte in HP. by rewrite E in HP. }
  destruct (pte_addr_word _ _ _ _ _ _ I d_head Hp) as (_ & _ & P0 & PV).
  fold a0. rewrite (u32_small a0) by (by apply user_u32). apply returns_bind, walk_look_ok.
  destruct (Z.eqb_spec (pte_addr (mem s) d a0) 0) as [|_]; [done|]. apply returns_bind, load_ok. rewrite PV.
  assert (u32 (off + 4096 * j) = off + 4096 * j) as -> by (apply u32_small; unfold KERNBASE in Hf; destruct Hread as [->|]; lia).
  set (n' := if len - 4096 * j <? PGSIZE then len - 4096 * j else PGSIZE).
  assert (n' = Z.min 4096 (len - 4096 * j)) as En by (unfold n'; change PGSIZE with 4096; destruct (Z.ltb_spec (len - 4096 * j) 4096); lia).
  assert (forall data r, r <= n' -> let s1 := set_mem (copy_bytes (P2V (PTE_ADDR (vpte (mem s) d a0))) (byte_at data) r) s in
    building own fl n s1 /\ forall b, is_user b -> cell (mem s1) d b =
      if (b / PGSIZE =? a0 / PGSIZE) && (b mod PGSIZE <? r) then ((cell (mem s) d b).1, byte_at data (b mod PGSIZE)) else cell (mem s) d b) as Hw.
  { intros data r Hr s1. destruct (write_cell own fl (d :: ds) s d a0 0 r (byte_at data) I d_head Hu HP) as (I1 & V1 & C1 & A1); [lia | change PGSIZE with 4096; lia |].
    rewrite Z.add_0_r in *. fold s1 in I1, V1, C1, A1. split.
    - split; [done | | |].
      + eapply kept_trans; [exact K|]. split; [done|]. split; intros x b Hx Hb; destruct (ds_sub x Hx) as [Hx1 Hx2].
        * rewrite C1 by done. by rewrite (proj2 (Z.eqb_neq x d)).
        * by rewrite V1.
      + intros b Hb. rewrite V1 by apply d_head. by apply M.
      + unfold budget in *. rewrite A1 by apply d_head. done.
    - intros b Hb. rewrite C1, Z.eqb_refl, Z.sub_0_r, Z.add_0_l by (done || apply d_head). cbn [andb].
      pose proof (Z.mod_pos_bound b PGSIZE ltac:(done)). by rewrite (proj2 (Z.leb_le 0 (b mod PGSIZE))) by lia. }
  destruct (read_full f (off + 4096 * j) n' ltac:(lia) ltac:(lia) Hf) as [[-> Hfit]|[(r & b & -> & Hr1 & Hr2) Hfit]]; cbv beta iota zeta; step.
  - rewrite Z.eqb_refl. cbn [negb]. destruct (Hw (file_bytes f (off + 4096 * j) n') n' ltac:(lia)) as [B1 C1]. set (s1 := set_mem _ s) in *.
    assert (u32 (4096 * j + PGSIZE) = 4096 * (j + 1)) as -> by (change PGSIZE with 4096; unfold KERNBASE in *; rewrite u32_small; lia).
    apply (IH s1 (j + 1)); [lia | right; lia | lia | lia | done |]. intros a Ha. specialize (Hi a Ha). rewrite C1 by done.
    destruct (a / PGSIZE <? up sz) eqn:Eup.
    + rewrite Hi. cbn [fst]. change PGSIZE with 4096. destruct ((a / 4096 =? a0 / 4096) && (a mod 4096 <? n')) eqn:E.
      * rewrite andb_true_iff, Z.eqb_eq, Z.ltb_lt in E. pose proof (Z.mod_pos_bound a 4096 ltac:(lia)). rewrite file_byte by lia.
        assert (a = va + 4096 * j + a mod 4096) as Ea by (unfold a0 in *; Z.div_mod_to_equations; lia).
        destruct (Z.leb_spec va a), (Z.ltb_spec a (va + Z.min (4096 * (j + 1)) len)); try (exfalso; lia). cbn [andb]. do 2 f_equal. lia.
      * rewrite andb_false_iff, Z.eqb_neq, Z.ltb_ge in E.
        assert ((va <=? a) && (a <? va + Z.min (4096 * (j + 1)) len) = (va <=? a) && (a <? va + Z.min (4096 * j) len)) as ->; [|done].
        apply eq_true_iff_eq. rewrite !andb_true_iff, !Z.leb_le, !Z.ltb_lt. unfold a0 in *. Z.div_mod_to_equations. lia.
    + destruct ((a / PGSIZE =? a0 / PGSIZE) && (a mod PGSIZE <? n')) eqn:E; [|done]. exfalso.
      rewrite andb_true_iff, Z.eqb_eq in E. rewrite Z.ltb_ge in Eup. unfold a0, up in *. change PGSIZE with 4096 in *. Z.div_mod_to_equations. lia.
  - rewrite (proj2 (Z.eqb_neq r n')) by done. cbn [negb]. step. split; [by apply Hw|].
    destruct (Z.ltb_spec 0 len); [|lia]. destruct (Z.ltb_spec (Z.of_nat (length f)) (off + len)); [done|lia].
Qed.

(** *** The loop over the program headers *)
Lemma up_mono a b : a <= b -> up a <= up b.
Proof using. unfold up. intros. Z.div_mod_to_equations. lia. Qed.
Lemma get16_range f i : Forall byte_ok f -> 0 <= get16 f i < 65536.
Proof using.
  intros Hf. assert (forall j, 0 <= byte_at f j < 256) as Hb.
  { intros j. unfold byte_at. rewrite list_lookup_total_alt. destruct (f !! Z.to_nat j) as [b|] eqn:E; [|simpl; lia].
    rewrite Forall_lookup in Hf. by apply Hf in E. }
  unfold get16. pose proof (Hb i). pose proof (Hb (i + 1)). lia.
Qed.
Lemma get32_range f i : Forall byte_ok f -> 0 <= get32 f i < 2 ^ 32.
Proof using. intros Hf. unfold get32. pose proof (get16_range f i Hf). pose proof (get16_range f (i + 2) Hf). lia. Qed.
Lemma readi_bytes f off n : Forall byte_ok f -> Forall byte_ok (readi f off n).2.
Proof using. intros Hf. unfold readi. destruct (_ || _); [constructor|]. cbn [snd]. by apply Forall_take, Forall_drop. Qed.

Lemma building_evolves own fl n s own' fl' n' s' lo hi C :
  building own fl n s -> vm_inv own' fl' (d :: ds) s' -> evolves (d :: ds) d lo hi C s s' -> n' <= budget fl' (mem s') d -> building own' fl' n' s'.
Proof using Hd.
  intros [I K M R] I' E R'. split; [done | | | done].
  - eapply kept_trans; [exact K|]. eapply evolves_kept; [exact E | apply ds_sub].
  - intros a Ha. rewrite (ev_kern _ _ _ _ _ _ _ E) by (done || apply d_head). by apply M.
Qed.

Lemma holds_fresh sz top g s s' : holds_image sz g (mem s) -> sz <= top -> (forall a, up sz <= a / PGSIZE -> g a = 0) ->
  evolves (d :: ds) d (up sz) (up top) (fun _ => fresh) s s' -> holds_image top g (mem s').
Proof using.
  intros Hi Hle Hz E a Ha. specialize (Hi a Ha). pose proof (up_mono sz top Hle). destruct (decide (up sz <= a / PGSIZE < up top)) as [Hin|Hout].
  - rewrite (proj2 (Z.ltb_lt _ _) (proj2 Hin)), Hz by lia. by apply (ev_in _ _ _ _ _ _ _ E).
  - rewrite (ev_out _ _ _ _ _ _ _ E) by (done || apply d_head || tauto).
    destruct (Z.ltb_spec (a / PGSIZE) (up sz)), (Z.ltb_spec (a / PGSIZE) (up top)); try done; lia.
Qed.

(** growing the image to [top] *)
Lemma alloc_image own fl n s sz top g (Q : Z -> mach -> Prop) :
  building own fl n s -> holds_image sz g (mem s) -> 0 <= sz < KERNBASE -> 0 <= top -> (forall a, up sz <= a / PGSIZE -> g a = 0) ->
  (KERNBASE <= top -> Q 0 s) ->
  (top < KERNBASE -> forall own' fl' s', building own' fl' (n - (up (Z.max sz top) - up sz)) s' -> holds_image (Z.max sz top) g (mem s') -> Q (Z.max sz top) s') ->
  (top < KERNBASE -> forall own' fl' s', vm_inv own' fl' (d :: ds) s' -> kept ds s0 s' -> n < up (Z.max sz top) - up sz -> Q 0 s') ->
  returns (allocuvm d sz top) s Q.
Proof using Hd Hlay.
  intros B Hi Hsz Htop Hz Hover Hok Hbad. pose proof B as [I K M R].
  apply (allocuvm_ok (lo_end Hlay) own fl (d :: ds) s d); [done | apply d_head | lia | lia | | done | | |].
  - intros a Ha Hp. specialize (Hi a Ha). destruct (Z.ltb_spec (a / PGSIZE) (up sz)); [lia|].
    rewrite (cell_flags _ _ _ PTE_P) by done. apply Hi.
  - intros Hk Hlt. rewrite <- (Z.max_l sz top) at 1 by lia. apply (Hok Hk own fl); rewrite Z.max_l by lia; [|done]. by rewrite Z.sub_diag, Z.sub_0_r.
  - intros Hk Hle own' fl' s' I' U E Hb. rewrite <- (Z.max_r sz top) at 1 by lia. apply (Hok Hk own' fl'); rewrite Z.max_r by lia.
    + eapply building_evolves; [exact B | exact I' | exact E | lia].
    + by eapply holds_fresh.
  - intros Hk Hle own' fl' s' I' U _ Hb E. apply (Hbad Hk own' fl'); [done | | rewrite Z.max_r by lia; lia].
    eapply kept_trans; [exact K|]. eapply evolves_kept; [exact E | apply ds_sub].
Qed.

Definition loaded (k : nat) (f : list Z) (off sz n : Z) (g : Z -> Z) (o : option Z) (s' : mach) : Prop :=
  (exists own' fl', vm_inv own' fl' (d :: ds) s') /\ kept ds s0 s' /\
  match segments k f off sz with
  | None => o = None
  | Some (l, sz') =>
      (o = Some sz' /\ exists own' fl', building own' fl' (n - (up sz' - up sz)) s' /\ holds_image sz' (image f l g) (mem s')) \/
      (o = None /\ n < up sz' - up sz)
  end.

Lemma segments_some f k : forall off sz l sz', segments k f off sz = Some (l, sz') -> sz < KERNBASE -> Forall byte_ok f ->
  sz <= sz' < KERNBASE /\ forall g, (forall a, up sz <= a / PGSIZE -> g a = 0) -> forall a, up sz' <= a / PGSIZE -> image f l g a = 0.
Proof using.
  induction k as [|k IH]; intros off sz l sz' E Hsz Hf; cbn [segments] in E.
  { injection E as <- <-. split; [lia|]. auto. }
  destruct (readi f off PROGHDR_SIZE) as [r b] eqn:Er.
  assert (Forall byte_ok b) as Hb by (pose proof (readi_bytes f off PROGHDR_SIZE Hf) as Hx; by rewrite Er in Hx).
  destruct (negb (r =? PROGHDR_SIZE)); [done|]. destruct (negb (ph_type (parse_proghdr b) =? ELF_PROG_LOAD)); [by eapply IH|].
  destruct (_ || _ || _ || _ || _) eqn:E0; [done|]. rewrite !orb_false_iff, Z.ltb_ge, Z.leb_gt in E0. destruct E0 as [[[[E1 E2] _] _] _].
  destruct (segments k f (u32 (off + PROGHDR_SIZE)) (Z.max sz (ph_vaddr (parse_proghdr b) + ph_memsz (parse_proghdr b)))) as [[l1 sz1]|] eqn:Es; [|done].
  injection E as <- <-. destruct (IH _ _ _ _ Es ltac:(lia) Hf) as [H1 H2]. split; [lia|]. intros g Hg a Ha. cbn [image]. apply H2; [|done].
  intros x Hx. pose proof (up_mono sz (Z.max sz (ph_vaddr (parse_proghdr b) + ph_memsz (parse_proghdr b))) ltac:(lia)) as Hup.
  unfold covers. cbn [s_va s_len s_off]. destruct (_ && _) eqn:Ec; [|apply Hg; lia]. exfalso. rewrite andb_true_iff, Z.leb_le, Z.ltb_lt in Ec.
  change (get32 b 8) with (ph_vaddr (parse_proghdr b)) in Ec. change (get32 b 16) with (ph_filesz (parse_proghdr b)) in Ec.
  assert (x < Z.max sz (ph_vaddr (parse_proghdr b) + ph_memsz (parse_proghdr b))) as Hlt by lia.
  clear - Hx Hlt. set (m := Z.max _ _) in *. unfold up in Hx. change PGSIZE with 4096 in Hx. Z.div_mod_to_equations. lia.
Qed.

Lemma load_loop_ok f : Z.of_nat (length f) < KERNBASE -> Forall byte_ok f -> forall k own fl s n off sz g,
  building own fl n s -> holds_image sz g (mem s) -> 0 <= sz < KERNBASE -> (forall a, up sz <= a / PGSIZE -> g a = 0) -> 0 <= off < 2 ^ 32 ->
  returns (load_loop k f d off sz) s (loaded k f off sz n g).
Proof using Hd Hlay.
  intros Hlen Hf. induction k as [|k IH]; intros own fl s n off sz g B Hi Hsz Hz Hoff.
  { cbn [load_loop]. step. pose proof B as [I K M R]. split; [by exists own, fl|]. split; [done|]. cbn [segments image].
    left. split; [done|]. exists own, fl. by rewrite Z.sub_diag, Z.sub_0_r. }
  pose proof B as [I K M R].
  assert (segments (S k) f off sz = None -> returns (mret None) s (loaded (S k) f off sz n g)) as Hnone.
  { intros E. step. split; [by exists own, fl|]. split; [done|]. by rewrite E. }
  unfold loaded in *. cbn [load_loop segments] in *. destruct (readi f off PROGHDR_SIZE) as [r b] eqn:Er.
  assert (Forall byte_ok b) as Hb by (pose proof (readi_bytes f off PROGHDR_SIZE Hf) as Hx; by rewrite Er in Hx).
  destruct (r =? PROGHDR_SIZE); cbn [negb] in *; [|by apply Hnone].
  destruct (ph_type (parse_proghdr b) =? ELF_PROG_LOAD); cbn [negb] in *.
  2:{ eapply IH; [done..|]. apply u32_range. }
  pose proof (get32_range b 8 Hb) as Rva. pose proof (get32_range b 4 Hb) as Roff. pose proof (get32_range b 16 Hb) as Rfs. pose proof (get32_range b 20 Hb) as Rms.
  change (get32 b 8) with (ph_vaddr (parse_proghdr b)) in Rva. change (get32 b 4) with (ph_off (parse_proghdr b)) in Roff.
  change (get32 b 16) with (ph_filesz (parse_proghdr b)) in Rfs. change (get32 b 20) with (ph_memsz (parse_proghdr b)) in Rms.
  set (va := ph_vaddr (parse_proghdr b)) in *. set (po := ph_off (parse_proghdr b)) in *. set (fs := ph_filesz (parse_proghdr b)) in *. set (ms := ph_memsz (parse_proghdr b)) in *.
  destruct (ms <? fs) eqn:Ems; cbn [orb] in *; [by apply Hnone|]. rewrite Z.ltb_ge in Ems.
  destruct (Z.ltb_spec (u32 (va + ms)) va) as [Hov|Hov].
  { apply Hnone. destruct (Z.leb_spec KERNBASE (va + ms)); [done|]. rewrite u32_small in Hov by (unfold KERNBASE in *; lia). lia. }
  assert (u32 (va + ms) = va + ms) as ->.
  { destruct (Z.lt_ge_cases (va + ms) (2 ^ 32)); [apply u32_small; lia|]. rewrite u32_wrap in Hov by lia. lia. }
  set (top := va + ms) in *.
  apply returns_bind, (alloc_image own fl n s sz top g); [done | done | done | lia | done | | |].
  { intros Hk. change (0 =? 0) with true. apply Hnone. by rewrite (proj2 (Z.leb_le _ _) Hk). }
  - intros Hk own1 fl1 s1 B1 Hi1. rewrite (proj2 (Z.leb_gt _ _) Hk) in *. cbn [orb] in *. pose proof B1 as [I1 K1 M1 R1].
    assert (forall (c : bool), c = true -> (if c then @None (list segment * Z) else match segments k f (u32 (off + PROGHDR_SIZE)) (Z.max sz top) with
        | Some (l, sz') => Some (mkseg va po fs :: l, sz') | None => None end) = None) as Hc by by intros c ->.
    assert (forall o s2, vm_inv own1 fl1 (d :: ds) s2 -> kept ds s0 s2 -> (exists own' fl', vm_inv own' fl' (d :: ds) s2) /\ kept ds s0 s2 /\ (o = @None Z -> o = None)) as Hst by (intros o s2 ? ?; split; [by exists own1, fl1 | done]).
    destruct (Z.max sz top =? 0); cbn [orb] in *; [step; split; [by exists own1, fl1 | done]|].
    destruct (va mod PGSIZE =? 0) eqn:Eal; cbn [negb orb] in *; [|step; split; [by exists own1, fl1 | done]]. clear Hc Hst.
    apply returns_bind. unfold loaduvm. rewrite Eal. cbn [negb]. apply Z.eqb_eq in Eal.
    eapply returns_mono.
    { apply (loaduvm_loop_ok own1 fl1 (n - (up (Z.max sz top) - up sz)) f po fs va (Z.max sz top) g) with (j := 0); try done; try lia.
      - change PGSIZE with 4096. Z.div_mod_to_equations. lia.
      - intros a Ha. specialize (Hi1 a Ha). rewrite Z.min_l, Z.add_0_r by lia.
        destruct (Z.leb_spec va a), (Z.ltb_spec a va); try lia; done. }
    intros r2 s2 [B2 H2]. pose proof B2 as [I2 K2 M2 R2]. destruct ((0 <? fs) && (Z.of_nat (length f) <? po + fs)).
    { rewrite H2. change (-1 <? 0) with true. step. split; [by exists own1, fl1 | done]. }
    destruct H2 as [-> H2]. change (0 <? 0) with false. cbv iota. clear Hnone.
    eapply returns_mono; [eapply IH; [exact B2 | exact H2 | lia | | apply u32_range]|].
    + intros a Ha. cbv beta. pose proof (up_mono sz (Z.max sz top) ltac:(lia)). destruct (_ && _) eqn:Ec; [|apply Hz; lia]. exfalso.
      rewrite andb_true_iff, Z.leb_le, Z.ltb_lt in Ec. assert (a < Z.max sz top) as Hlt by lia. clear - Ha Hlt.
      set (m := Z.max _ _) in *. unfold up in Ha. change PGSIZE with 4096 in Ha. Z.div_mod_to_equations. lia.
    + intros o s3 (X1 & X2 & X3). split; [done|]. split; [done|]. destruct (segments k f (u32 (off + PROGHDR_SIZE)) (Z.max sz top)) as [[l sz']|]; [|done].
      destruct X3 as [(-> & own' & fl' & X3 & X4)|[-> X3]]; [left | right; split; [done|lia]]. split; [done|]. exists own', fl'.
      split; [|exact X4]. by replace (n - (up sz' - up sz)) with (n - (up (Z.max sz top) - up sz) - (up sz' - up (Z.max sz top))) by lia.
  - intros Hk own1 fl1 s1 I1 K1 Hn. change (0 =? 0) with true. step. split; [by exists own1, fl1|]. split; [done|].
    rewrite (proj2 (Z.leb_gt _ _) Hk) in *. cbn [orb] in *. destruct (_ || _); [done|].
    destruct (segments k f (u32 (off + PROGHDR_SIZE)) (Z.max sz top)) as [[l sz']|] eqn:Es; [|done]. right. split; [done|].
    destruct (segments_some f k _ _ _ _ Es ltac:(lia) Hf) as [Hm _]. pose proof (up_mono (Z.max sz top) sz' ltac:(lia)). lia.
Qed.

(** *** The stack *)
Definition over (p n : Z) (buf w : Z -> Z) : Z -> Z := fun a => if (p <=? a) && (a <? p + n) then buf (a - p) else w a.

Context (b : Z) (g : Z -> Z).
Hypothesis Hb : 0 <= b /\ b mod 4096 = 0 /\ b + 8192 < KERNBASE.

(** the image, an inaccessible page, a page with the stack *)
Definition stack_view (w : Z -> Z) (m : Z -> Z) : Prop := forall a, is_user a ->
  uview m d a = if a <? b then Some (g a) else if a <? b + 4096 then None else if a <? b + 8192 then Some (w a) else None.
Record stacked (own : Z -> kind) (fl : list Z) (w : Z -> Z) (s : mach) : Prop := {
  k_inv : vm_inv own fl (d :: ds) s;
  k_kept : kept ds s0 s;
  k_kern : kernel_map kmap (mem s) d;
  k_view : stack_view w (mem s);
  k_there : forall a, b + 4096 <= a < b + 8192 -> has (vpte (mem s) d a) PTE_P = true
}.

Lemma clear_guard own fl n s (Q : unit -> mach -> Prop) :
  building own fl n s -> holds_image (b + 8192) g (mem s) -> (forall a, b <= a -> g a = 0) ->
  (forall s', stacked own fl (fun _ => 0) s' -> Q tt s') -> returns (clearpteu d b) s Q.
Proof using Hd Hb.
  intros [I K M R] Hi Hz HQ. destruct Hb as (Hb0 & Hb1 & Hb2).
  assert (up (b + 8192) = b / 4096 + 2 /\ b = 4096 * (b / 4096)) as [Eup Ebb] by (unfold up; Z.div_mod_to_equations; lia).
  assert (forall a, is_user a -> a < b + 8192 -> cell (mem s) d a = (7, g a)) as Hin.
  { intros a Ha Hlt. specialize (Hi a Ha). rewrite Eup in Hi. change PGSIZE with 4096 in Hi. destruct (Z.ltb_spec (a / 4096) (b / 4096 + 2)); [done|]. Z.div_mod_to_equations. lia. }
  assert (is_user b) as Hub by (unfold is_user; lia).
  apply (clearpteu_ok own fl (d :: ds) s d b); [done | apply d_head | done | |].
  { by rewrite (cell_flags _ _ _ PTE_P), Hin by (done || lia). }
  intros s' I' Hpr C' V'. apply HQ. split; [done | | | |].
  - eapply kept_trans; [exact K|]. split; [by apply same_user_proc|]. split; intros x a Hx Ha; destruct (ds_sub x Hx) as [X1 X2]; [|by apply V'].
    rewrite C' by done. by rewrite (proj2 (Z.eqb_neq x d)).
  - intros a Ha. rewrite V' by (done || apply d_head). by apply M.
  - intros a Ha. rewrite uview_see, C', Z.eqb_refl by (done || apply d_head). cbn [andb]. change PGSIZE with 4096.
    destruct (Z.ltb_spec a b); [|destruct (Z.ltb_spec a (b + 4096)); [|destruct (Z.ltb_spec a (b + 8192))]].
    + destruct (Z.eqb_spec (a / 4096) (b / 4096)); [Z.div_mod_to_equations; lia|]. by rewrite Hin by (done || lia).
    + destruct (Z.eqb_spec (a / 4096) (b / 4096)); [|Z.div_mod_to_equations; lia]. by rewrite Hin by (done || lia).
    + destruct (Z.eqb_spec (a / 4096) (b / 4096)); [Z.div_mod_to_equations; lia|]. rewrite Hin by (done || lia). by rewrite Hz by lia.
    + destruct (Z.eqb_spec (a / 4096) (b / 4096)); [Z.div_mod_to_equations; lia|]. specialize (Hi a Ha). rewrite Eup in Hi. change PGSIZE with 4096 in Hi.
      destruct (Z.ltb_spec (a / 4096) (b / 4096 + 2)); [Z.div_mod_to_equations; lia|]. by apply see_gone.
  - intros a Ha. assert (is_user a) as Hua by (unfold is_user; lia). rewrite (cell_flags _ _ _ PTE_P), C', Z.eqb_refl by (done || apply d_head). cbn [andb].
    change PGSIZE with 4096. destruct (Z.eqb_spec (a / 4096) (b / 4096)); [Z.div_mod_to_equations; lia|]. by rewrite Hin by (done || lia).
Qed.

(** copying to the new stack, or past its end *)
Lemma stack_copyout own fl w s p buf n :
  stacked own fl w s -> 0 <= p < 2 ^ 32 -> 0 < n ->
  returns (copyout d p buf n) s (fun r s' => exists own' fl',
    vm_inv own' fl' (d :: ds) s' /\ kept ds s0 s' /\
    (b + 4096 <= p -> p + n <= b + 8192 -> r = 0 /\ stacked own' fl' (over p n buf w) s') /\
    ((exists a, p <= a < p + n /\ b <= a /\ ~ b + 4096 <= a < b + 8192) -> r = -1)).
Proof using Hd Hb Hlay.
  intros [I K M V T] Hp Hn. destruct Hb as (Hb0 & Hb1 & Hb2).
  eapply returns_mono; [apply (copyout_ok (lo_end Hlay) own fl (d :: ds) s d p buf n I d_head Hp (kernel_map_kern Hlay _ _ M)); lia|].
  intros r s' (own' & fl' & k & I' & Hk & W & Hacc & Hr). destruct W as (Wp & Wv & Wk & Wt & Wc). exists own', fl'.
  assert (kept ds s0 s') as K'.
  { eapply kept_trans; [exact K|]. split; [by apply same_user_proc|]. split; intros x a Hx Ha; destruct (ds_sub x Hx); [by apply Wc | by apply Wk]. }
  split; [done|]. split; [done|]. split.
  - intros H1 H2. destruct Hr as [[-> ->]|(-> & Hkn & Hwhy)].
    + split; [done|]. split; [done | done | | |].
      * intros a Ha. rewrite Wk by (done || apply d_head). by apply M.
      * intros a Ha. rewrite Wv, Z.eqb_refl, V by (done || apply d_head). cbn [andb]. unfold over.
        destruct (Z.leb_spec p a), (Z.ltb_spec a (p + n)); cbn [andb]; try done.
        destruct (Z.ltb_spec a b), (Z.ltb_spec a (b + 4096)), (Z.ltb_spec a (b + 8192)); try done; lia.
      * intros a Ha. apply Wt; [apply d_head | unfold is_user; lia | by apply T].
    + exfalso. assert (is_user (p + k)) as Hu by (unfold is_user; lia). destruct Hwhy as [?|[Hnone|(Hnp & _)]]; [done | | by rewrite T in Hnp by lia].
      rewrite V in Hnone by done. destruct (Z.ltb_spec (p + k) b), (Z.ltb_spec (p + k) (b + 4096)), (Z.ltb_spec (p + k) (b + 8192)); try done; lia.
  - intros (a & Ha & Hab & Hout). destruct Hr as [[-> ->]|(-> & _)]; [|done]. exfalso. destruct (Hacc a Ha) as [Hu Hv]. apply Hv. rewrite V by done.
    destruct (Z.ltb_spec a b), (Z.ltb_spec a (b + 4096)), (Z.ltb_spec a (b + 8192)); try done; lia.
Qed.

(** *** The arguments *)

(** pushing strings on a stack that must not go below [base]: the stack pointer, the pointers and the contents *)
Fixpoint arg_layout (argv : list (list Z)) (argc : nat) (base sp : Z) (ptrs : list Z) (w : Z -> Z) : option (Z * list Z * (Z -> Z)) :=
  match argv with
  | [] => Some (sp, ptrs, w)
  | a :: argv' =>
      let n := Z.of_nat (length a) + 1 in
      let sp := 4 * ((sp - n) / 4) in
      if (MAXARG <=? argc)%nat || (sp <? base) then None
      else arg_layout argv' (S argc) base sp (ptrs ++ [sp]) (over sp n (byte_at (a ++ [0])) w)
  end.

Lemma align_down x : 0 <= x < 2 ^ 32 -> Z.land x (Z.lnot 3) = 4 * (x / 4).
Proof using.
  intros Hx. change 3 with (Z.ones 2). rewrite <- Z.ldiff_land, Z.ldiff_ones_r by lia. rewrite Z.shiftr_div_pow2, Z.shiftl_mul_pow2 by lia.
  change (2 ^ 2) with 4. lia.
Qed.

Lemma push_args_ok : forall argv argc own fl w s sp ptrs,
  stacked own fl w s -> b + 4096 <= sp <= b + 8192 -> sp mod 4 = 0 -> Forall (fun a : list Z => Z.of_nat (length a) < KERNBASE) argv ->
  returns (push_args argv argc d sp ptrs) s (fun o s' => exists own' fl',
    vm_inv own' fl' (d :: ds) s' /\ kept ds s0 s' /\
    match arg_layout argv argc (b + 4096) sp ptrs w with
    | None => o = None
    | Some (sp', ptrs', w') => o = Some (sp', ptrs') /\ stacked own' fl' w' s' /\ b + 4096 <= sp' <= b + 8192 /\ sp' mod 4 = 0
    end).
Proof using Hd Hb Hlay.
  induction argv as [|a argv IH]; intros argc own fl w s sp ptrs S Hsp H4 Hargs; cbn [push_args arg_layout]; pose proof S as [I K M V T].
  { step. exists own, fl. done. }
  destruct (MAXARG <=? argc)%nat; cbn [orb]; [step; exists own, fl; done|]. apply Forall_cons in Hargs as [Ha Hargs].
  set (n := Z.of_nat (length a) + 1). assert (0 < n <= KERNBASE) as Hn by (unfold n; lia). destruct Hb as (Hb0 & Hb1 & Hb2).
  rewrite align_down by apply u32_range. set (p := 4 * (u32 (sp - n) / 4)).
  assert (0 <= p < 2 ^ 32) as Hp by (unfold p; pose proof (u32_range (sp - n)); Z.div_mod_to_equations; lia).
  apply returns_bind. eapply returns_mono; [eapply (stack_copyout own fl w s p); [done | done | lia]|].
  intros r s1 (own1 & fl1 & I1 & K1 & Hin & Hout). destruct (Z.ltb_spec (4 * ((sp - n) / 4)) (b + 4096)) as [Hlow|Hok].
  - assert (r = -1) as ->.
    { apply Hout. destruct (Z.lt_ge_cases (sp - n) 0) as [Hneg|Hpos].
      - exists p. split; [lia|]. assert (KERNBASE <= p); [|lia]. unfold p.
        assert (u32 (sp - n) = sp - n + 2 ^ 32) as -> by (unfold u32; symmetry; apply (Z.mod_unique_pos _ _ (-1)); unfold KERNBASE in *; lia).
        unfold KERNBASE in *. Z.div_mod_to_equations. lia.
      - unfold p in *. rewrite u32_small in * by (unfold KERNBASE in *; lia). exists (Z.min (b + 4095) (4 * ((sp - n) / 4) + n - 1)). Z.div_mod_to_equations. lia. }
    change (-1 <? 0) with true. step. by exists own1, fl1.
  - assert (p = 4 * ((sp - n) / 4)) as Ep by (unfold p; rewrite u32_small; [done | unfold KERNBASE in *; Z.div_mod_to_equations; lia]).
    rewrite <- Ep in *. destruct Hin as [-> S1]; [lia | rewrite Ep; Z.div_mod_to_equations; lia |].
    change (0 <? 0) with false. cbv iota. apply (IH (Datatypes.S argc) own1 fl1); [done | | | done].
    + rewrite Ep in *. Z.div_mod_to_equations. lia.
    + rewrite Ep. rewrite Z.mul_comm. by apply Z.mod_mul.
Qed.
End Load.

(** ** [exec] *)

Record run : Type := mkrun { r_entry : Z; r_top : Z; r_image : Z -> Z; r_esp : Z; r_stack : Z -> Z }.

Definition ustack_of (argc sp : Z) (ptrs : list Z) : list Z := [0xffffffff; argc; sp - (argc + 1) * 4] ++ ptrs ++ [0].

(** the stack page at [base] for the arguments: the stack pointer and the contents *)
Definition stack_of (argv : list (list Z)) (base : Z) : option (Z * (Z -> Z)) :=
  match arg_layout argv 0 base (base + 4096) [] (fun _ => 0) with
  | None => None
  | Some (sp, ptrs, w) =>
      let argc := Z.of_nat (length argv) in
      let n := (3 + argc + 1) * 4 in
      if sp - n <? base then None else Some (sp - n, over (sp - n) n (byte_at (words (ustack_of argc sp ptrs))) w)
  end.

(** what the process runs as, [None] when [exec] refuses *)
Definition runs (f : list Z) (argv : list (list Z)) : option run :=
  let '(r, b) := readi f 0 ELFHDR_SIZE in
  let elf := parse_elfhdr b in
  if negb (r =? ELFHDR_SIZE) || negb (e_magic elf =? ELF_MAGIC) then None
  else
    match segments (Z.to_nat (e_phnum elf)) f (e_phoff elf) 0 with
    | None => None
    | Some (l, sz) =>
        let top := 4096 * up sz in
        if KERNBASE <=? top + 8192 then None
        else
          match stack_of argv (top + 4096) with
          | None => None
          | Some (esp, w) => Some (mkrun (e_entry elf) top (image f l (fun _ => 0)) esp w)
          end
    end.

Definition with_vm (s : mach) (t : task) : task := mktask s (name t) (eip t) (esp t) (calls t).

Section ExecTask.
Context `{Layout}.

Lemma lift_ok {A} (m : M mach A) t (Q : A -> task -> Prop) : returns m (vm t) (fun a s => Q a (with_vm s t)) -> returns (lift m) t Q.
Proof. unfold returns, lift. by destruct (m (vm t)) as [[a s]| |]. Qed.

Lemma vm_inv_mem own fl ds s s' : vm_inv own fl ds s -> mem s' = mem s -> freelist s' = freelist s -> vm_inv own fl ds s'.
Proof. intros I Em Ef. destruct (vm_inv_agree own fl ds s s' (fun _ => True) I) as [I' _]; [intros a _; by rewrite Em | done | done | done]. Qed.

Lemma arg_layout_count argv : forall argc base sp ptrs w r, arg_layout argv argc base sp ptrs w = Some r -> argv = [] \/ (argc + length argv <= MAXARG)%nat.
Proof.
  induction argv as [|a argv IH]; intros argc base sp ptrs w r E; [by left|]. right. cbn [arg_layout] in E.
  destruct (Nat.leb_spec MAXARG argc); cbn [orb] in E; [done|]. destruct (_ <? base); [done|]. apply IH in E as [->|E]; simpl in *; lia.
Qed.

Hypothesis Hlay : layout_ok.
Context (ds : list Z) (t0 : task) (d : Z).
Hypothesis Hd : d ∉ ds.
Notation building := (building ds (vm t0) d).
Notation stacked := (stacked ds (vm t0) d).

(** the process as it was *)
Definition unchanged (t : task) : Prop :=
  kept ds (vm t0) (vm t) /\ name t = name t0 /\ eip t = eip t0 /\ esp t = esp t0 /\ exists own' fl', vm_inv own' fl' ds (vm t).

Lemma bad_ok own fl t (ip : bool) (Q : Z -> task -> Prop) :
  vm_inv own fl (d :: ds) (vm t) -> kept ds (vm t0) (vm t) -> name t = name t0 -> eip t = eip t0 -> esp t = esp t0 ->
  (forall t', unchanged t' -> calls t' = calls t ++ (if ip then [FUnlockPut; FEnd] else []) -> Q (-1) t') ->
  returns (bad d ip) t Q.
Proof using Hlay Hd.
  intros I K E1 E2 E3 HQ. unfold bad. apply returns_bind. destruct (vi_dir _ _ _ _ I d (d_head ds d)) as [(_ & _ & Hr) _].
  destruct (Z.eqb_spec d 0); [unfold KERNBASE in *; lia|]. apply lift_ok, (freevm_ok Hlay own fl ds); [done | done|].
  intros own' fl' s' I' K'. assert (unchanged (with_vm s' t)) as U by (split; [by eapply kept_trans|]; split_and!; [done..|]; by exists own', fl').
  destruct ip.
  - unfold call. do 4 step. apply HQ; [done|]. cbn. by rewrite <- app_assoc.
  - do 2 step. apply HQ; [done|]. cbn. by rewrite app_nil_r.
Qed.

(** what [exec] leaves on success, [rest] being the other address spaces *)
Definition replaced_by (rest : list Z) (path : list Z) (R : run) (t : task) : Prop := exists own' fl',
  vm_inv own' fl' (p_pgdir (vm t) :: rest) (vm t) /\ p_pgdir (vm t) ∉ rest /\
  (forall x a, x ∈ rest -> is_user a -> cell (mem (vm t)) x a = cell (mem (vm t0)) x a) /\
  kernel_map kmap (mem (vm t)) (p_pgdir (vm t)) /\ p_sz (vm t) = r_top R + 8192 /\
  stack_view (p_pgdir (vm t)) (r_top R) (r_image R) (r_stack R) (mem (vm t)) /\
  eip t = r_entry R /\ esp t = r_esp R /\ name t = prog_name path.

(** the new image takes the place of the old one *)
Lemma commit_ok own fl w t rest path entry top g sp (Q : Z -> task -> Prop) :
  ds = p_pgdir (vm t0) :: rest -> p_pgdir (vm t0) ∉ rest -> stacked top g own fl w (vm t) ->
  (forall t', calls t' = calls t -> replaced_by rest path (mkrun entry top g sp w) t' -> Q 0 t') ->
  returns (t ← get; let oldpgdir := p_pgdir (vm t) in
    modify (fun t => mktask (set_sz (top + 8192) (set_pgdir d (vm t))) (prog_name path) entry sp (calls t)) ;;
    lift (freevm oldpgdir) ;; mret 0) t Q.
Proof using Hlay Hd.
  intros Eds Hold [I K M V T] HQ. step. step. assert (p_pgdir (vm t) = p_pgdir (vm t0)) as -> by (destruct K as ((_ & E & _) & _); done).
  apply returns_bind, lift_ok. cbn [vm]. rewrite Eds in *. set (old := p_pgdir (vm t0)) in *. set (s1 := set_sz _ _).
  assert (vm_inv own fl (old :: d :: rest) s1) as I1.
  { eapply (vm_inv_mem own fl _ (vm t)); [|done|done]. eapply vm_inv_sub; [exact I|]. intros x. rewrite !elem_of_cons. tauto. }
  apply not_elem_of_cons in Hd as [Hdo Hdr].
  apply (freevm_ok Hlay own fl (d :: rest)); [done | |].
  { rewrite elem_of_cons. intros [E|E]; [by apply Hdo | done]. }
  intros own' fl' s2 I2 (U2 & C2 & V2). step. apply HQ; [done|]. destruct U2 as (U21 & U22 & U23).
  exists own', fl'. cbn [with_vm vm eip esp name]. rewrite U22. cbn [set_sz set_pgdir p_pgdir s1]. rewrite U21.
  assert (d ∈ d :: rest) as Hin by (by apply elem_of_cons; left).
  split_and!; try done.
  - intros x a Hx Ha. rewrite C2 by (done || by apply elem_of_cons; right). destruct K as (_ & C & _). apply C; [by apply elem_of_cons; right | done].
  - intros a Ha. rewrite V2 by done. by apply M.
  - intros a Ha. rewrite uview_see, C2, <- uview_see by done. by apply V.
Qed.

Lemma exec_stack_ok own fl n t rest path argv entry sz g :
  ds = p_pgdir (vm t0) :: rest -> p_pgdir (vm t0) ∉ rest ->
  building own fl n (vm t) -> holds_image d sz g (mem (vm t)) -> 0 <= sz < KERNBASE -> (forall a, up sz <= a / PGSIZE -> g a = 0) ->
  name t = name t0 -> eip t = eip t0 -> esp t = esp t0 -> Forall (fun a : list Z => Z.of_nat (length a) < KERNBASE) argv ->
  returns (exec_stack path argv entry d sz) t (fun r t' => calls t' = calls t /\
    match (if KERNBASE <=? 4096 * up sz + 8192 then None else stack_of argv (4096 * up sz + 4096)) with
    | None => r = -1 /\ unchanged t'
    | Some (sp, w) => (r = 0 /\ replaced_by rest path (mkrun entry (4096 * up sz) g sp w) t') \/ (r = -1 /\ unchanged t' /\ n < 2)
    end).
Proof using Hlay Hd.
  intros Eds Hold B Hi Hsz Hz E1 E2 E3 Hargs. unfold exec_stack. rewrite PGROUNDUP_eq by done. fold (up sz). set (top := 4096 * up sz).
  assert (up top = up sz /\ 0 <= top <= KERNBASE) as [Eup Htop] by (unfold top, up, KERNBASE in *; Z.div_mod_to_equations; lia).
  change (2 * PGSIZE) with 8192. rewrite (u32_small (top + 8192)) by (unfold KERNBASE in *; lia).
  assert (forall own' fl' s', vm_inv own' fl' (d :: ds) s' -> kept ds (vm t0) s' -> forall Q : Z -> task -> Prop,
    (forall t', unchanged t' -> calls t' = calls t -> Q (-1) t') -> returns (bad d false) (with_vm s' t) Q) as Hbad.
  { intros own' fl' s' I' K' Q HQ. apply (bad_ok own' fl'); [done..|]. intros t' Hu Hc. apply HQ; [done|]. by rewrite app_nil_r in Hc. }
  pose proof B as [I K M R]. apply returns_bind, lift_ok. destruct (Z.leb_spec KERNBASE (top + 8192)) as [Hk|Hk].
  { unfold allocuvm. rewrite (proj2 (Z.leb_le _ _) Hk). apply returns_ret. change (0 =? 0) with true. cbv beta iota. apply (Hbad own fl); [done | done|]. intros t' Hu Hc. done. }
  apply (alloc_image Hlay ds (vm t0) d Hd own fl n (vm t) top (top + 8192) g).
  - done.
  - intros a Ha. rewrite Eup. by apply Hi.
  - lia.
  - lia.
  - by rewrite Eup.
  - lia.
  - rewrite Z.max_r by lia. intros _ own1 fl1 s1 B1 Hi1. destruct (Z.eqb_spec (top + 8192) 0); [lia|].
    change (2 * PGSIZE) with 8192. rewrite (u32_small (top + 8192 - 8192)) by (unfold KERNBASE in *; lia). replace (top + 8192 - 8192) with top by lia.
    assert (0 <= top /\ top mod 4096 = 0 /\ top + 8192 < KERNBASE) as Hb by (split; [lia|]; split; [unfold top; rewrite Z.mul_comm; by apply Z.mod_mul | lia]).
    apply returns_bind, lift_ok. eapply (clear_guard ds (vm t0) d Hd top g Hb); [exact B1 | exact Hi1 | |].
    { intros a Ha. apply Hz. unfold top, up in *. change PGSIZE with 4096. clear - Ha. Z.div_mod_to_equations. lia. }
    intros s2 S2. apply returns_bind, lift_ok. eapply returns_mono.
    { apply (push_args_ok Hlay ds (vm t0) d Hd top g Hb argv 0 own1 fl1 (fun _ => 0) _ (top + 8192) []); [done | lia | | done]. unfold top. clear. Z.div_mod_to_equations. lia. }
    cbv beta. intros o s3 (own3 & fl3 & I3 & K3 & Ho). unfold stack_of. replace (top + 4096 + 4096) with (top + 8192) by lia.
    destruct (arg_layout argv 0 (top + 4096) (top + 8192) [] (fun _ => 0)) as [[[sp ptrs] w]|] eqn:El.
    2:{ rewrite Ho. apply (Hbad own3 fl3); [done | done|]. intros t' Hu Hc. done. }
    destruct Ho as (-> & S3 & Hsp & H4). set (argc := Z.of_nat (length argv)).
    assert (0 <= argc <= 32) as Hargc.
    { destruct (arg_layout_count _ _ _ _ _ _ _ El) as [->|Hc]; [unfold argc; simpl; lia | unfold MAXARG in Hc; lia]. }
    set (p := sp - (3 + argc + 1) * 4).
    assert (forall k, 0 <= k <= sp -> u32 (sp - k) = sp - k) as Hu32 by (intros k Hkk; apply u32_small; unfold KERNBASE in *; lia).
    destruct (Z.lt_ge_cases (sp - (argc + 1) * 4) 0) as [|Hsmall]; [lia|].
    rewrite (Hu32 ((argc + 1) * 4)) by lia. assert (u32 p = p) as -> by (apply Hu32; lia). change ([0xffffffff; argc; sp - (argc + 1) * 4] ++ ptrs ++ [0]) with (ustack_of argc sp ptrs).
    apply returns_bind, lift_ok. eapply returns_mono.
    { apply (stack_copyout Hlay ds (vm t0) d Hd top g Hb own3 fl3 w s3 p (byte_at (words (ustack_of argc sp ptrs))) ((3 + argc + 1) * 4)); [done | unfold p, KERNBASE in *; lia | lia]. }
    cbv beta. intros r s4 (own4 & fl4 & I4 & K4 & Hin & Hout). destruct (Z.ltb_spec p (top + 4096)) as [Hlow|Hfit].
    + assert (r = -1) as ->. { apply Hout. exists (top + 4095). unfold p in *. lia. }
      change (-1 <? 0) with true. cbv iota. apply (Hbad own4 fl4); [done | done|]. intros t' Hu Hc. done.
    + destruct Hin as [-> S4]; [done | unfold p; lia |]. change (0 <? 0) with false. cbv iota.
      eapply (commit_ok own4 fl4 _ _ rest path entry top g p); [done | done | exact S4|]. intros t' Hc HR. split; [done|]. by left.
  - rewrite Z.max_r by lia. intros _ own1 fl1 s1 I1 K1 Hn. change (0 =? 0) with true. cbv iota. apply (Hbad own1 fl1); [done | done|].
    intros t' Hu Hc. split; [done|]. assert (n < 2) by (unfold up in *; Z.div_mod_to_equations; lia).
    destruct (stack_of argv (top + 4096)) as [[sp w]|]; [by right | done].
Qed.
End ExecTask.

Section ExecMain.
Context `{Layout}.
Hypothesis Hlay : layout_ok.

Lemma up_0 : up 0 = 0. Proof. done. Qed.

Lemma exec_file own fl t rest f path argv :
  let ds := p_pgdir (vm t) :: rest in
  vm_inv own fl ds (vm t) -> p_pgdir (vm t) ∉ rest -> Z.of_nat (length f) < KERNBASE -> Forall byte_ok f ->
  Forall (fun a : list Z => Z.of_nat (length a) < KERNBASE) argv ->
  returns (exec (Some f) path argv) t (fun r t' =>
    calls t' = calls t ++ [FBegin; FIlock; FUnlockPut; FEnd] /\
    ((r = 0 /\ exists R, runs f argv = Some R /\ replaced_by t rest path R t') \/
     (r = -1 /\ unchanged ds t t' /\ forall R, runs f argv = Some R -> Z.of_nat (length fl) < 1025 + (r_top R / 4096 + 2)))).
Proof using Hlay.
  intros ds I Hold Hlen Hf Hargs. unfold exec. unfold call at 1. step. unfold call at 1. step. set (t1 := mktask _ _ _ _ _).
  assert (forall t2 Q, kept ds (vm t) (vm t2) -> vm t2 = vm t -> name t2 = name t -> eip t2 = eip t -> esp t2 = esp t ->
    (forall t', unchanged ds t t' -> calls t' = calls t2 ++ [FUnlockPut; FEnd] -> Q (-1) t') -> returns (bad 0 true) t2 Q) as Hbad0.
  { intros t2 Q K0 V0 N1 N2 N3 HQ. unfold bad. change (0 =? 0) with true. cbv iota. step. unfold call. do 4 step. apply HQ.
    - split; [done|]. split_and!; try done. exists own, fl. by rewrite V0.
    - cbn. by rewrite <- app_assoc. }
  unfold runs. destruct (readi f 0 ELFHDR_SIZE) as [r b] eqn:Er.
  assert (Forall byte_ok b) as Hb by (pose proof (readi_bytes f 0 ELFHDR_SIZE Hf) as Hx; by rewrite Er in Hx).
  assert (forall t', calls t' = calls t1 ++ [FUnlockPut; FEnd] -> calls t' = calls t ++ [FBegin; FIlock; FUnlockPut; FEnd]) as Hc1.
  { intros t' ->. cbn. by rewrite <- !app_assoc. }
  destruct (r =? ELFHDR_SIZE); cbn [negb orb].
  2:{ apply Hbad0; [apply kept_refl | done..|]. intros t' Hu Hc. split; [by apply Hc1|]. by right. }
  destruct (e_magic (parse_elfhdr b) =? ELF_MAGIC); cbn [negb].
  2:{ apply Hbad0; [apply kept_refl | done..|]. intros t' Hu Hc. split; [by apply Hc1|]. by right. }
  assert (0 <= e_phoff (parse_elfhdr b) < 2 ^ 32) as Hoff by apply (get32_range b 28 Hb).
  set (k := Z.to_nat (e_phnum (parse_elfhdr b))). set (off := e_phoff (parse_elfhdr b)) in *. set (entry := e_entry (parse_elfhdr b)).
  apply returns_bind, lift_ok. apply (setupkvm_ok Hlay own fl ds); [done | |].
  2:{ intros own1 fl1 s1 I1 K1 Hn. change (0 =? 0) with true. cbv iota. unfold bad. change (0 =? 0) with true. cbv iota. step. unfold call. do 4 step.
      split; [cbn; by rewrite <- !app_assoc|]. right. split; [done|]. split; [split; [exact K1|]; split_and!; [done..|]; by exists own1, fl1|].
      intros R HR. assert (0 <= r_top R); [|Z.div_mod_to_equations; lia].
      destruct (segments k f off 0) as [[l sz]|] eqn:Es; [|done]. destruct (KERNBASE <=? _); [done|]. destruct (stack_of _ _) as [[]|]; [|done]. injection HR as <-. cbn.
      destruct (segments_some f k _ _ _ _ Es ltac:(done) Hf) as [? _]. unfold up. Z.div_mod_to_equations. lia. }
  intros own1 fl1 s1 d I1 Hd Hd0 K1 M1 U1 B1. destruct (Z.eqb_spec d 0) as [|_]; [done|]. set (n := Z.of_nat (length fl) - 1025) in *.
  apply returns_bind, lift_ok. eapply returns_mono.
  { apply (load_loop_ok Hlay ds (vm t) d Hd f Hlen Hf k own1 fl1 s1 n off 0 (fun _ => 0)); [by split | | done | done | done].
    intros a Ha. rewrite up_0. destruct (Z.ltb_spec (a / PGSIZE) 0) as [Hneg|]; [|by rewrite U1].
    assert (0 <= a / PGSIZE) by (apply Z.div_pos; [apply Ha | done]). lia. }
  cbv beta. intros o s2 ((own2 & fl2 & I2) & K2 & Ho). cbn [with_vm vm] in *.
  assert (forall Q, (forall t', unchanged ds t t' -> calls t' = calls t1 ++ [FUnlockPut; FEnd] -> Q (-1) t') -> returns (bad d true) (with_vm s2 (with_vm s1 t1)) Q) as Hbad.
  { intros Q HQ. by apply (bad_ok Hlay ds t d Hd own2 fl2). }
  destruct (segments k f off 0) as [[l sz]|] eqn:Es.
  2:{ rewrite Ho. apply Hbad. intros t' Hu Hc. split; [by apply Hc1|]. by right. }
  destruct (segments_some f k _ _ _ _ Es ltac:(done) Hf) as [Hsz Himg].
  assert (up sz = 4096 * up sz / 4096) as Etop by (rewrite Z.mul_comm, Z.div_mul; done).
  destruct Ho as [(-> & own3 & fl3 & B3 & Hi3)|[-> Hn]].
  2:{ apply Hbad. intros t' Hu Hc. split; [by apply Hc1|]. right. split; [done|]. split; [done|]. intros R HR.
      destruct (KERNBASE <=? _); [done|]. destruct (stack_of _ _) as [[]|]; [|done]. injection HR as <-. cbn [r_top]. rewrite <- Etop, up_0 in *. lia. }
  unfold call. step. step. set (t2 := mktask _ _ _ _ _).
  eapply returns_mono.
  { apply (exec_stack_ok Hlay ds t d Hd own3 fl3 (n - (up sz - up 0)) t2 rest path argv entry sz (image f l (fun _ => 0))); try done.
    by apply Himg. }
  cbv beta. intros q t' [Hc Hq].
  assert (calls t' = calls t ++ [FBegin; FIlock; FUnlockPut; FEnd]) as Hc2 by (rewrite Hc; cbn; by rewrite <- !app_assoc). split; [done|].
  destruct (KERNBASE <=? 4096 * up sz + 8192); [destruct Hq as [-> Hq]; by right|].
  destruct (stack_of argv (4096 * up sz + 4096)) as [[sp w]|]; [|destruct Hq as [-> Hq]; by right].
  destruct Hq as [[-> Hq]|(-> & Hq & Hn)]; [left; split; [done|]; by eexists | right].
  split; [done|]. split; [done|]. intros R [= <-]. cbn [r_top]. rewrite <- Etop, up_0 in *. lia.
Qed.

(** C4: [exec].  For a file that denotes a program, and arguments that fit its
    stack, the process gets exactly the program's image, an inaccessible page
    and the stack with the arguments, the entry point and the stack pointer; its
    old address space is freed and no other one changes.  Otherwise, or when
    there are too few free pages, it returns -1 and leaves everything as it was.
    On every path the transaction is ended and the inode given back once. *)
Theorem exec_correct own fl t rest file path argv :
  let ds := p_pgdir (vm t) :: rest in
  vm_inv own fl ds (vm t) -> p_pgdir (vm t) ∉ rest ->
  (forall f, file = Some f -> Z.of_nat (length f) < KERNBASE /\ Forall byte_ok f) ->
  Forall (fun a : list Z => Z.of_nat (length a) < KERNBASE) argv ->
  returns (exec file path argv) t (fun r t' =>
    calls t' = calls t ++ match file with Some _ => [FBegin; FIlock; FUnlockPut; FEnd] | None => [FBegin; FEnd] end /\
    ((r = 0 /\ exists f R, file = Some f /\ runs f argv = Some R /\ replaced_by t rest path R t') \/
     (r = -1 /\ unchanged ds t t' /\
      forall f R, file = Some f -> runs f argv = Some R -> Z.of_nat (length fl) < 1025 + (r_top R / 4096 + 2)))).
Proof using Hlay.
  intros ds I Hold Hfile Hargs. destruct file as [f|].
  - destruct (Hfile f eq_refl) as [Hlen Hf]. eapply returns_mono; [by apply (exec_file own fl t rest f path argv)|].
    cbv beta. intros r t' [Hc Hr]. split; [done|]. destruct Hr as [(-> & R & H1 & H2)|(-> & H1 & H2)]; [left | right].
    + split; [done|]. by exists f, R.
    + split; [done|]. split; [done|]. intros f' R [= <-]. apply H2.
  - unfold exec, call. step. step. apply returns_bind, lift_ok. unfold kprintf. step. step.
    split; [cbn; by rewrite <- app_assoc|]. right. split; [done|]. split; [|done].
    split; [by split|]. split_and!; try done. exists own, fl. by eapply vm_inv_mem.
Qed.
End ExecMain.
