(* ===== verification/MlFs.v ===== *)
(** * Multilevel indexed files: [fs.c] of the xv6-lazy-allocation-multilevel-fs kernel

    An inode holds 6 direct, 4 single-indirect, 2 double-indirect and 1
    triple-indirect addresses.  The block map [bmap], [bfreeindirect] and
    [itrunc] of that kernel, the tree of blocks an inode owns, and the
    refinement of the block map to a map from block numbers to blocks. *)

From S2P Require Import Prelude Blocks Inode Index.

Definition NDIRECT : Z := 6.
Definition NINDIRECT : Z := BSIZE / 4.
Definition NSINDIRECT : Z := 4.
Definition NDINDIRECT : Z := 2.
Definition NTINDIRECT : Z := 1.
Definition NDOUBLE : Z := NINDIRECT * NINDIRECT.
Definition NTRIPLE : Z := NDOUBLE * NINDIRECT.
Definition MAXFILE : Z :=
  NDIRECT + NSINDIRECT * NINDIRECT + NDINDIRECT * NDOUBLE + NTINDIRECT * NTRIPLE.

(** [bmap] *)
Definition bmap (ip : nat) (bn : Z) : M fsys Z :=
  if bn <? NDIRECT then addr_or_balloc ip bn
  else
    let bn := bn - NDIRECT in
    if bn <? NSINDIRECT * NINDIRECT then
      let index := bn / NINDIRECT in
      let offset := bn mod NINDIRECT in
      addr ← addr_or_balloc ip (NDIRECT + index);
      entry_or_balloc addr offset
    else
      let bn := bn - NSINDIRECT * NINDIRECT in
      if bn <? NDINDIRECT * NDOUBLE then
        let index := bn / NDOUBLE in
        let offset := bn mod NDOUBLE in
        let first := offset / NINDIRECT in
        let second := offset mod NINDIRECT in
        addr ← addr_or_balloc ip (NDIRECT + NSINDIRECT + index);
        addr ← entry_or_balloc addr first;
        entry_or_balloc addr second
      else
        let bn := bn - NDINDIRECT * NDOUBLE in
        if bn <? NTINDIRECT * NTRIPLE then
          let first := bn / NDOUBLE in
          let offset := bn mod NDOUBLE in
          let second := offset / NINDIRECT in
          let third := offset mod NINDIRECT in
          addr ← addr_or_balloc ip (NDIRECT + NSINDIRECT + NDINDIRECT);
          addr ← entry_or_balloc addr first;
          addr ← entry_or_balloc addr second;
          entry_or_balloc addr third
        else panic "bmap: out of range".

(** the loop of [bfreeindirect] over the copied entries; [free] is [bfree] or
    the recursive call *)
Fixpoint bfreeindirect_loop (free : Z -> M fsys unit) (entries : list Z) (k : nat) (i : Z) : M fsys unit :=
  match k with
  | O => mret tt
  | S k' =>
      (if word entries i =? 0 then mret tt else free (word entries i)) ;;
      bfreeindirect_loop free entries k' (i + 1)
  end.

(** [bfreeindirect(dev, addr, level)] with [level = S below] *)
Fixpoint bfreeindirect (below : nat) (addr : Z) : M fsys unit :=
  entries ← bread addr;
  brelse addr ;;
  bfreeindirect_loop (match below with O => bfree | S below' => bfreeindirect below' end)
    entries (Z.to_nat NINDIRECT) 0 ;;
  bfree addr.

(** the loops of [itrunc] over [k] addresses from [i] *)
Fixpoint itrunc_loop (free : Z -> M fsys unit) (k : nat) (ip : nat) (i : Z) : M fsys unit :=
  match k with
  | O => mret tt
  | S k' =>
      ino ← inode_at ip;
      let addr := i_addrs ino !!! Z.to_nat i in
      (if addr =? 0 then mret tt else free addr ;; set_addr ip i 0) ;;
      itrunc_loop free k' ip (i + 1)
  end.

(** [itrunc] *)
Definition itrunc_ml (ip : nat) : M fsys unit :=
  itrunc_loop bfree (Z.to_nat NDIRECT) ip 0 ;;
  itrunc_loop (bfreeindirect 0) (Z.to_nat NSINDIRECT) ip NDIRECT ;;
  itrunc_loop (bfreeindirect 1) (Z.to_nat NDINDIRECT) ip (NDIRECT + NSINDIRECT) ;;
  i ← inode_at ip;
  let addr := i_addrs i !!! Z.to_nat (NDIRECT + NSINDIRECT + NDINDIRECT) in
  (if addr =? 0 then mret tt
   else bfreeindirect 2 addr ;; set_addr ip (NDIRECT + NSINDIRECT + NDINDIRECT) 0) ;;
  upd_inode ip (with_size 0) ;;
  iupdate ip.

#[export] Instance ml_truncate : Truncate := {| itrunc := itrunc_ml |}.

(** ** The tree of blocks below an address *)

(** the concatenation of [f] over the 128 entries of an index block *)
Definition kids {A} (f : Z -> list A) : list A := seqZ 0 NINDIRECT ≫= f.

(** all blocks below [a], an address of an index tree of [n] levels *)
Fixpoint tree (s : fsys) (n : nat) (a : Z) : list Z :=
  if a =? 0 then []
  else match n with
       | O => [a]
       | S n' => kids (fun j => tree s n' (word (block_of s a) j)) ++ [a]
       end.

(** the index blocks among them *)
Fixpoint idx (s : fsys) (n : nat) (a : Z) : list Z :=
  if a =? 0 then []
  else match n with
       | O => []
       | S n' => kids (fun j => idx s n' (word (block_of s a) j)) ++ [a]
       end.

(** the level of each of the 13 addresses, and the blocks of a file *)
Definition slot_level (k : Z) : nat :=
  if k <? NDIRECT then 0 else if k <? NDIRECT + NSINDIRECT then 1
  else if k <? NDIRECT + NSINDIRECT + NDINDIRECT then 2 else 3.
Definition slot_blocks (s : fsys) (i : inode) (k : Z) : list Z := tree s (slot_level k) (i_addrs i !!! Z.to_nat k).
Definition ml_blocks (s : fsys) (i : inode) : list Z := seqZ 0 NADDRS ≫= slot_blocks s i.

(** the block an entry path leads to, 0 when there is none *)
Fixpoint lookup_path (s : fsys) (a : Z) (p : list Z) : Z :=
  if a =? 0 then 0
  else match p with
       | [] => a
       | k :: p' => lookup_path s (word (block_of s a) k) p'
       end.

(** the address and the entries through which block [bn] of a file is found *)
Definition slot_path (bn : Z) : Z * list Z :=
  if bn <? NDIRECT then (bn, [])
  else
    let bn := bn - NDIRECT in
    if bn <? NSINDIRECT * NINDIRECT then (NDIRECT + bn / NINDIRECT, [bn mod NINDIRECT])
    else
      let bn := bn - NSINDIRECT * NINDIRECT in
      if bn <? NDINDIRECT * NDOUBLE then
        (NDIRECT + NSINDIRECT + bn / NDOUBLE, [bn mod NDOUBLE / NINDIRECT; bn mod NDOUBLE mod NINDIRECT])
      else
        let bn := bn - NDINDIRECT * NDOUBLE in
        (NDIRECT + NSINDIRECT + NDINDIRECT,
         [bn / NDOUBLE; bn mod NDOUBLE / NINDIRECT; bn mod NDOUBLE mod NINDIRECT]).

Definition ml_lookup (s : fsys) (i : inode) (bn : Z) : Z :=
  let '(k, p) := slot_path bn in lookup_path s (i_addrs i !!! Z.to_nat k) p.

Lemma kids_ext {A} (f g : Z -> list A) : (forall j, 0 <= j < NINDIRECT -> f j = g j) -> kids f = kids g.
Proof.
  intros H. unfold kids. apply Forall_bind_ext, Forall_forall. intros j Hj.
  apply elem_of_seqZ in Hj. apply H. lia.
Qed.

Lemma elem_of_kids {A} (f : Z -> list A) x : x ∈ kids f <-> exists j, 0 <= j < NINDIRECT /\ x ∈ f j.
Proof.
  unfold kids. rewrite list_elem_of_bind. split.
  - intros (j & Hx & Hj). apply elem_of_seqZ in Hj. exists j. split; [lia | done].
  - intros (j & Hj & Hx). exists j. split; [done|]. apply elem_of_seqZ. lia.
Qed.

Lemma kids_split {A} (f : Z -> list A) k : 0 <= k < NINDIRECT ->
  kids f = (seqZ 0 k ≫= f) ++ f k ++ (seqZ (k + 1) (NINDIRECT - k - 1) ≫= f).
Proof.
  intros Hk. unfold kids. replace NINDIRECT with (k + (1 + (NINDIRECT - k - 1))) at 1 by lia.
  rewrite !seqZ_app by lia. rewrite !bind_app, !Z.add_0_l. f_equal. f_equal.
  rewrite seqZ_cons by lia. rewrite bind_cons, app_nil_r. done.
Qed.

Lemma idx_in_tree s n a b : b ∈ idx s n a -> b ∈ tree s n a.
Proof.
  revert a. induction n as [|n IH]; intros a; simpl; destruct (a =? 0); try done; [set_solver|].
  rewrite !elem_of_app, !elem_of_kids. intros [(j & Hj & Hb)|Hb]; [left | by right].
  exists j. split; [done | by apply IH].
Qed.

(** the tree depends on the contents of its index blocks only *)
Lemma idx_ext s s' n a :
  (forall b, b ∈ idx s n a -> block_of s' b = block_of s b) ->
  idx s' n a = idx s n a /\ tree s' n a = tree s n a /\
  (forall p, length p = n -> Forall (fun j => 0 <= j < NINDIRECT) p -> lookup_path s' a p = lookup_path s a p).
Proof.
  revert a. induction n as [|n IH]; intros a Hb.
  { split_and!; try done. intros [|]; done. }
  simpl in Hb. cbn [idx tree]. destruct (Z.eqb_spec a 0) as [E|Ha].
  { split_and!; try done. subst a. by intros [|]. }
  assert (block_of s' a = block_of s a) as Ea by (apply Hb; set_solver).
  rewrite Ea.
  assert (forall j, 0 <= j < NINDIRECT ->
    forall b, b ∈ idx s n (word (block_of s a) j) -> block_of s' b = block_of s b) as Hj.
  { intros j Hj b Hin. apply Hb. rewrite elem_of_app, elem_of_kids. left. by exists j. }
  split_and!.
  - f_equal. apply kids_ext. intros j Hk. by apply IH, Hj.
  - f_equal. apply kids_ext. intros j Hk. by apply IH, Hj.
  - intros [|k p] Hl Hp; [done|]. injection Hl as Hl. apply Forall_cons in Hp as [Hk Hp]. simpl.
    destruct (Z.eqb_spec a 0); [done|]. rewrite Ea. by apply IH; [apply Hj | |].
Qed.

(** ** Truncation *)

Lemma freed_tree L l s s' n a :
  freed L l s s' -> owned s l -> owned s (tree s n a) -> tree s' n a = tree s n a.
Proof.
  intros F Ho [_ Hd]. apply idx_ext. intros b Hb. eapply freed_keeps; [done | done |].
  rewrite Forall_forall in Hd. by apply Hd, idx_in_tree.
Qed.

Section FreeLoop.
Context (free : Z -> M fsys unit) (m : nat) (L : gset Z).
Hypothesis free_ok : forall a s (Q : unit -> fsys -> Prop),
  a <> 0 -> freeable L (tree s m a) s -> (forall s', freed L (tree s m a) s s' -> Q tt s') -> returns (free a) s Q.

Lemma bfreeindirect_loop_ok d k i s (Q : unit -> fsys -> Prop) :
  freeable L (seqZ i (Z.of_nat k) ≫= fun j => tree s m (word d j)) s ->
  (forall s', freed L (seqZ i (Z.of_nat k) ≫= fun j => tree s m (word d j)) s s' -> Q tt s') ->
  returns (bfreeindirect_loop free d k i) s Q.
Proof using Type*.
  revert i s Q. induction k as [|k IH]; intros i s Q [G R O I] HQ; cbn [bfreeindirect_loop].
  { step. apply HQ. by apply freed_nil. }
  rewrite seqZ_cons in O, I, HQ by lia. rewrite bind_cons in O, I, HQ.
  replace (Z.succ i) with (i + 1) in * by lia. replace (Z.pred (Z.of_nat (S k))) with (Z.of_nat k) in * by lia.
  apply owned_app in O as (O1 & O2 & Hd). apply returns_bind.
  assert (forall s1, freed L (tree s m (word d i)) s s1 -> returns (bfreeindirect_loop free d k (i + 1)) s1 Q) as Hnext.
  { intros s1 F1.
    assert ((seqZ (i + 1) (Z.of_nat k) ≫= (fun j => tree s1 m (word d j)))
            = (seqZ (i + 1) (Z.of_nat k) ≫= fun j => tree s m (word d j))) as E.
    { apply Forall_bind_ext, Forall_forall. intros j Hj. apply (freed_tree L _ _ _ _ _ F1 O1).
      destruct O2 as [N2 D2]. split.
      - apply list_elem_of_split in Hj as (l1 & l2 & E). rewrite E, bind_app, bind_cons in N2.
        apply NoDup_app in N2 as (_ & _ & N2). by apply NoDup_app in N2 as (N2 & _ & _).
      - rewrite Forall_forall in *. intros b Hb. apply D2, list_elem_of_bind. by exists j. }
    apply IH; rewrite E.
    - split; [apply F1 | apply F1 | by eapply freed_owned |].
      intros b Hb. rewrite (fr_sb _ _ _ _ F1). apply I. set_solver.
    - intros s2 F2. apply HQ. by eapply freed_app. }
  destruct (Z.eqb_spec (word d i) 0) as [E0|E0].
  - step. apply Hnext. rewrite E0. destruct m; by apply freed_nil.
  - apply free_ok; [done | | done]. split; try done. set_solver.
Qed.
End FreeLoop.

Lemma tree_nonzero s n a : a <> 0 ->
  tree s n a = match n with O => [a] | S n' => kids (fun j => tree s n' (word (block_of s a) j)) ++ [a] end.
Proof. intros. destruct n; cbn [tree]; by destruct (Z.eqb_spec a 0). Qed.

Lemma bfree_tree_ok L a s (Q : unit -> fsys -> Prop) :
  a <> 0 -> freeable L (tree s 0 a) s -> (forall s', freed L (tree s 0 a) s s' -> Q tt s') -> returns (bfree a) s Q.
Proof.
  intros Ha [G R [_ O] I] HQ. rewrite tree_nonzero in * by done. rewrite Forall_singleton in O.
  apply (bfree_freed L); try done. apply I. set_solver.
Qed.

(** one level of [bfreeindirect] over [free] *)
Lemma bfree_level_ok L free m k a s (Q : unit -> fsys -> Prop) :
  (forall a s (Q : unit -> fsys -> Prop), a <> 0 -> freeable L (tree s m a) s ->
     (forall s', freed L (tree s m a) s s' -> Q tt s') -> returns (free a) s Q) ->
  Z.of_nat k = NINDIRECT -> a <> 0 -> freeable L (tree s (S m) a) s ->
  (forall s', freed L (tree s (S m) a) s s' -> Q tt s') ->
  returns (entries ← bread a; brelse a ;; bfreeindirect_loop free entries k 0 ;; bfree a) s Q.
Proof.
  intros Hfree Hk Ha Hf HQ. rewrite tree_nonzero in Hf, HQ by done. unfold kids in Hf, HQ. rewrite <- Hk in Hf, HQ.
  unfold bread, brelse. step. step. apply returns_bind.
  eapply (bfreeindirect_loop_ok free m L Hfree); [by eapply freeable_app_l|].
  intros s1 F1. destruct Hf as [G R O I]. apply owned_app in O as (O1 & O2 & Hd).
  pose proof (freed_owned _ _ _ _ _ F1 O2 Hd) as [_ O2']. rewrite Forall_singleton in O2'.
  apply (bfree_freed L); [apply F1 | apply F1 | exact O2' | rewrite (fr_sb _ _ _ _ F1); apply I; set_solver |].
  intros s2 F2. apply HQ. by eapply freed_app.
Qed.

Lemma bfreeindirect_ok L n a s (Q : unit -> fsys -> Prop) :
  a <> 0 -> freeable L (tree s (S n) a) s -> (forall s', freed L (tree s (S n) a) s s' -> Q tt s') ->
  returns (bfreeindirect n a) s Q.
Proof.
  revert a s Q. induction n as [|n IH]; intros a s Q Ha Hf HQ; cbn [bfreeindirect];
    (eapply bfree_level_ok; [| reflexivity | exact Ha | exact Hf | exact HQ]); [apply bfree_tree_ok | exact IH].
Qed.

(** what giving blocks back never changes: the blocks outside the bitmap *)
Definition same_data (s0 s : fsys) : Prop :=
  sb s = sb s0 /\
  forall b, (forall c, 0 <= c < sb_size (sb s0) -> b <> BBLOCK c (sb s0)) -> block_of s b = block_of s0 b.

Lemma same_data_refl s : same_data s s.
Proof. by split. Qed.

Lemma same_data_step L s0 s s' l f ip :
  owned s l -> same_data s0 s -> freed_upd L l f ip s s' -> same_data s0 s'.
Proof.
  intros [_ Ho] [E H] [F _]. split.
  - rewrite <- E. apply (fr_sb _ _ _ _ F).
  - intros b Hb. rewrite <- H by done. apply (fr_blk _ _ _ _ F). intros c Hc.
    rewrite Forall_forall in Ho. destruct (Ho c Hc) as (Hr & _). rewrite E in *. apply Hb. lia.
Qed.

Lemma same_data_tree s0 s n a : same_data s0 s -> owned s (tree s0 n a) -> tree s n a = tree s0 n a.
Proof.
  intros [E H] [_ Ho]. apply idx_ext. intros b Hb. apply H.
  apply idx_in_tree in Hb. rewrite Forall_forall in Ho. destruct (Ho b Hb) as (_ & _ & Hc). by rewrite E in Hc.
Qed.

(** giving back what is behind [xs], consecutive addresses of level [n] *)
Lemma itrunc_loop_ok L s0 n free ip xs rest z s (Q : unit -> fsys -> Prop) :
  (forall a s (Q : unit -> fsys -> Prop), a <> 0 -> freeable L (tree s n a) s ->
     (forall s', freed L (tree s n a) s s' -> Q tt s') -> returns (free a) s Q) ->
  same_data s0 s ->
  (ip < length (icache s))%nat -> i_addrs (icache s !!! ip) = replicate z 0 ++ xs ++ rest ->
  freeable L (xs ≫= tree s0 n) s ->
  (forall s', freed_upd L (xs ≫= tree s0 n) (replicate (z + length xs) 0 ++ rest) ip s s' -> Q tt s') ->
  returns (itrunc_loop free (length xs) ip (Z.of_nat z)) s Q.
Proof.
  intros Hfree HP Hip Ha. apply (clear_loop_ok free (tree s0 n) (itrunc_loop free) L (same_data s0)); try done.
  - intros s1 s2 l f j. apply same_data_step.
  - by destruct n.
  - intros a s1 Q1 Ha1 HP1 Hf1 HQ1.
    pose proof (same_data_tree s0 s1 n a HP1 (fa_owned _ _ _ Hf1)) as E. apply Hfree; by rewrite ?E.
Qed.

Definition ml_owns (i : inode) (s : fsys) (l : list Z) : Prop := l = ml_blocks s i.

Lemma addrs_13 (l : list Z) : length l = Z.to_nat NADDRS ->
  exists a b c d, l = a ++ b ++ c ++ [d] /\ length a = 6%nat /\ length b = 4%nat /\ length c = 2%nat.
Proof.
  intros H. change (Z.to_nat NADDRS) with 13%nat in H. do 13 (destruct l as [|? l]; [done|]). destruct l; [|done].
  eexists [_;_;_;_;_;_], [_;_;_;_], [_;_], _. done.
Qed.

Lemma ml_blocks_split s i a b c d :
  i_addrs i = a ++ b ++ c ++ [d] -> length a = 6%nat -> length b = 4%nat -> length c = 2%nat ->
  ml_blocks s i = (a ≫= tree s 0) ++ (b ≫= tree s 1) ++ (c ≫= tree s 2) ++ tree s 3 d.
Proof.
  intros E Ha Hb Hc. do 6 (destruct a as [|? a]; [done|]). destruct a; [|done].
  do 4 (destruct b as [|? b]; [done|]). destruct b; [|done].
  do 2 (destruct c as [|? c]; [done|]). destruct c; [|done].
  unfold ml_blocks, slot_blocks. rewrite E.
  change (seqZ 0 NADDRS) with [0; 1; 2; 3; 4; 5; 6; 7; 8; 9; 10; 11; 12].
  rewrite !bind_cons. cbn -[tree]. by rewrite !app_nil_r, <- !(assoc_L (++)).
Qed.

Section Itrunc.
Context (L : gset Z) (ip : nat) (s : fsys).
Hypothesis Hg : geom s.
Hypothesis Hr : room_for L s.
Hypothesis Hf : fields_ok (icache s !!! ip).
Hypothesis Hip : (ip < length (icache s))%nat.
Hypothesis Hown : owned s (ml_blocks s (icache s !!! ip)).
Hypothesis HinL : forall b, b ∈ ml_blocks s (icache s !!! ip) -> BBLOCK b (sb s) ∈ L.

Lemma itrunc_ml_frees (k : M fsys unit) (Q : unit -> fsys -> Prop) :
  (forall s', freed_upd L (ml_blocks s (icache s !!! ip)) (replicate (Z.to_nat NADDRS) 0) ip s s' -> returns k s' Q) ->
  returns (
    itrunc_loop bfree (Z.to_nat NDIRECT) ip 0 ;;
    itrunc_loop (bfreeindirect 0) (Z.to_nat NSINDIRECT) ip NDIRECT ;;
    itrunc_loop (bfreeindirect 1) (Z.to_nat NDINDIRECT) ip (NDIRECT + NSINDIRECT) ;;
    itrunc_loop (bfreeindirect 2) 1 ip (NDIRECT + NSINDIRECT + NDINDIRECT) ;; k) s Q.
Proof using All.
  intros HQ. destruct (addrs_13 _ (fo_naddrs _ Hf)) as (a & b & c & d & Ea & La & Lb & Lc).
  pose proof (ml_blocks_split s _ a b c d Ea La Lb Lc) as Es. rewrite Es in HQ.
  assert (freeable L ((a ≫= tree s 0) ++ (b ≫= tree s 1) ++ (c ≫= tree s 2) ++ tree s 3 d) s) as F0.
  { split; try done; by rewrite <- Es. }
  assert (same_data s s) as D0 by apply same_data_refl.
  apply returns_bind. replace (Z.to_nat NDIRECT) with (length a) by done.
  apply (itrunc_loop_ok L s 0 bfree ip a (b ++ c ++ [d]) 0); try done.
  { intros. by apply (bfree_tree_ok L). }
  { by eapply freeable_app_l. }
  intros s1 F1. pose proof (freeable_app_l _ _ _ _ F0) as [_ _ O1 _].
  pose proof (same_data_step _ _ _ _ _ _ _ O1 D0 F1) as D1.
  destruct (freed_upd_at _ _ _ _ _ _ F1 Hip) as [E1 H1]. pose proof (freeable_rest _ _ _ _ _ _ _ F0 F1) as G1.
  apply returns_bind. replace (Z.to_nat NSINDIRECT) with (length b) by done.
  apply (itrunc_loop_ok L s 1 (bfreeindirect 0) ip b (c ++ [d]) 6); try done.
  { intros. by apply (bfreeindirect_ok L 0). }
  { rewrite E1. simpl. by rewrite La. }
  { by eapply freeable_app_l. }
  intros s2 F2. pose proof (freeable_app_l _ _ _ _ G1) as [_ _ O2 _].
  pose proof (same_data_step _ _ _ _ _ _ _ O2 D1 F2) as D2.
  destruct (freed_upd_at _ _ _ _ _ _ F2 H1) as [E2 H2]. pose proof (freeable_rest _ _ _ _ _ _ _ G1 F2) as G2.
  apply returns_bind. replace (Z.to_nat NDINDIRECT) with (length c) by done.
  apply (itrunc_loop_ok L s 2 (bfreeindirect 1) ip c [d] 10); try done.
  { intros. by apply (bfreeindirect_ok L 1). }
  { rewrite E2. simpl. by rewrite Lb. }
  { by eapply freeable_app_l. }
  intros s3 F3. pose proof (freeable_app_l _ _ _ _ G2) as [_ _ O3 _].
  pose proof (same_data_step _ _ _ _ _ _ _ O3 D2 F3) as D3.
  destruct (freed_upd_at _ _ _ _ _ _ F3 H2) as [E3 H3]. pose proof (freeable_rest _ _ _ _ _ _ _ G2 F3) as G3.
  apply returns_bind.
  assert ([d] ≫= tree s 3 = tree s 3 d) as Ed by (rewrite bind_singleton; done).
  apply (itrunc_loop_ok L s 3 (bfreeindirect 2) ip [d] [] 12); rewrite ?Ed; try done.
  { intros. by apply (bfreeindirect_ok L 2). }
  { rewrite E3. simpl. by rewrite Lc. }
  intros s4 F4. apply HQ. eapply freed_upd_seq; [exact F1|]. eapply freed_upd_seq; [exact F2|].
  eapply freed_upd_seq; [exact F3|]. exact F4.
Qed.
End Itrunc.

Lemma itrunc_ml_loops ip s :
  itrunc_ml ip s = (
    itrunc_loop bfree (Z.to_nat NDIRECT) ip 0 ;;
    itrunc_loop (bfreeindirect 0) (Z.to_nat NSINDIRECT) ip NDIRECT ;;
    itrunc_loop (bfreeindirect 1) (Z.to_nat NDINDIRECT) ip (NDIRECT + NSINDIRECT) ;;
    itrunc_loop (bfreeindirect 2) 1 ip (NDIRECT + NSINDIRECT + NDINDIRECT) ;;
    upd_inode ip (with_size 0) ;; iupdate ip) s.
Proof.
  unfold itrunc_ml. do 3 (apply bind_ext_r; intros _ ?). cbn [itrunc_loop]. rewrite bind_assoc.
  apply bind_ext_r. intros i s3. cbv zeta. rewrite bind_assoc. by apply bind_ext_r.
Qed.

(** this kernel's [itrunc] meets the contract of [iput] too *)
#[export] Instance ml_truncate_spec : TruncateSpec ml_owns.
Proof.
  split. intros L l ip s Hg Hr Hf Hip Hl Ho HI HL Hib H0. unfold ml_owns in Hl. subst l. eapply returns_ext; [apply itrunc_ml_loops|].
  apply (itrunc_ml_frees L ip s); try done. intros s' F. by eapply trunc_finish.
Qed.

(** ** The block map *)

(** follow a path of entries, allocating what is missing *)
Fixpoint descend (a : Z) (p : list Z) : M fsys Z :=
  match p with
  | [] => mret a
  | k :: p' => b ← entry_or_balloc a k; descend b p'
  end.

Lemma ret_bind_r {A} (m : M fsys A) s : (x ← m; mret x) s = m s.
Proof. unfold mbind, M_bind. by destruct (m s) as [[x s']| |]. Qed.

(** [bmap] below the limit is one address of the inode and a path of entries *)
Lemma bmap_descend ip bn s : 0 <= bn < MAXFILE ->
  bmap ip bn s = (a ← addr_or_balloc ip (slot_path bn).1; descend a (slot_path bn).2) s.
Proof.
  intros Hbn. unfold bmap, slot_path. cbv zeta.
  destruct (Z.ltb_spec bn NDIRECT); cbn [fst snd descend]; [by rewrite ret_bind_r|].
  destruct (Z.ltb_spec (bn - NDIRECT) (NSINDIRECT * NINDIRECT)); cbn [fst snd descend].
  { apply bind_ext_r. intros. by rewrite ret_bind_r. }
  destruct (Z.ltb_spec (bn - NDIRECT - NSINDIRECT * NINDIRECT) (NDINDIRECT * NDOUBLE)); cbn [fst snd descend].
  { apply bind_ext_r. intros. apply bind_ext_r. intros. by rewrite ret_bind_r. }
  destruct (Z.ltb_spec (bn - NDIRECT - NSINDIRECT * NINDIRECT - NDINDIRECT * NDOUBLE) (NTINDIRECT * NTRIPLE)).
  - do 3 (apply bind_ext_r; intros). by rewrite ret_bind_r.
  - unfold MAXFILE in Hbn. lia.
Qed.

Lemma slot_path_ok bn : 0 <= bn < MAXFILE ->
  0 <= (slot_path bn).1 < NADDRS /\ length (slot_path bn).2 = slot_level (slot_path bn).1 /\
  Forall (fun j => 0 <= j < NINDIRECT) (slot_path bn).2.
Proof.
  intros Hbn. unfold slot_path, slot_level. cbv zeta. unfold MAXFILE, NADDRS in *.
  change NDIRECT with 6 in *. change NSINDIRECT with 4 in *. change NDINDIRECT with 2 in *.
  change NTINDIRECT with 1 in *. change NDOUBLE with 16384 in *. change NTRIPLE with 2097152 in *.
  change NINDIRECT with 128 in *.
  repeat (match goal with |- context [?a <? ?b] => destruct (Z.ltb_spec a b) end; cbn [fst snd length] in *);
    split_and!; rewrite ?Forall_cons, ?Forall_nil; split_and?; try done; try (Z.div_mod_to_equations; lia).
Qed.

Lemma slot_path_inj a b : 0 <= a < MAXFILE -> 0 <= b < MAXFILE -> slot_path a = slot_path b -> a = b.
Proof.
  intros Ha Hb. unfold slot_path. cbv zeta. unfold MAXFILE in *.
  change NDIRECT with 6 in *. change NSINDIRECT with 4 in *. change NDINDIRECT with 2 in *.
  change NTINDIRECT with 1 in *. change NDOUBLE with 16384 in *. change NTRIPLE with 2097152 in *.
  change NINDIRECT with 128 in *.
  repeat match goal with |- context [?a <? ?b] => destruct (Z.ltb_spec a b) end; intros E; injection E;
    intros; try lia; Z.div_mod_to_equations; lia.
Qed.

(** block numbers fit the 32-bit entries *)
Definition small_disk (s : fsys) : Prop := sb_size (sb s) <= 2 ^ 32.

(** entry [k] of the index block [a] was empty and now holds the new block [c] *)
Record entry_added (a k c : Z) (n : nat) (s s' : fsys) : Prop := {
  ea_free : 0 < c < sb_size (sb s) /\ used s c = false;
  ea_data : data_block s' c;
  ea_zero : block_of s' c = zero_block;
  ea_map : mapped (eq a) (2 + slot_cost s a) s s';
  ea_icache : icache s' = icache s;
  ea_word : forall j, 0 <= j < NINDIRECT -> word (block_of s' a) j = if k =? j then c else word (block_of s a) j;
  ea_lh : c ∈ lh s' /\ a ∈ lh s';
  ea_avail : avail s' n
}.

Lemma entry_or_balloc_new a k n s (Q : Z -> fsys -> Prop) :
  geom s -> small_disk s -> log_room s 3 -> data_block s a -> 0 <= k < NINDIRECT ->
  word (block_of s a) k = 0 -> avail s (S n) ->
  (forall c s', entry_added a k c n s s' -> Q c s') ->
  returns (entry_or_balloc a k) s Q.
Proof.
  intros Hg Hsm Hr Ha Hk Hw Hav HQ. unfold entry_or_balloc, bread. step. rewrite Hw. cbn [Z.eqb].
  apply returns_bind, (balloc_ok _ n); [done | by eapply log_room_weaken | done |].
  intros c s1 Hal Hav1. pose proof (alloc_mapped _ _ _ Hal) as M1. pose proof (alloc_data_block _ _ _ Hg Hal) as Dc.
  pose proof (alloc_data_kept _ _ _ Hal a Ha) as Ka.
  destruct Hal as (Hc & Hu & _ & F1 & L1 & Z1 & U1 & _ & G1).
  assert (c <> a) as Hca. { intros ->. destruct Ha as (_ & Hua & _). congruence. }
  assert (data_block s1 a) as Ha1 by (by eapply mapped_data_block).
  assert (length (block_of s1 a) = Z.to_nat BSIZE) as Hlen by (apply (g_len s1 G1)).
  set (d := set_word (block_of s1 a) k c).
  assert (returns (set_data a d ;; log_write a ;; brelse a ;; mret c) s1 Q) as HR; [|exact HR].
  apply set_data_log_ok; [by eapply (mapped_room _ 2 1); [exact M1 |] |].
  intros s2 Hlog. step. apply HQ. pose proof Hlog as [F2 C2 B2 L2].
  assert (length d = Z.to_nat BSIZE) as Hd by (by apply length_set_word).
  destruct (logged_data_geom a d s1 s2) as [G2 U2]; try done; [by apply Ha1|].
  pose proof (f_sb _ _ _ F1) as S1. pose proof (f_sb _ _ _ F2) as S2.
  assert (mapped (eq a) (slot_cost s1 a) s1 s2) as M2.
  { split; try done; [apply F2 | by rewrite L2, length_absorb_cost | | |].
    - intros b Hb. rewrite L2, elem_of_absorb. by right.
    - intros x Hx. by rewrite U2.
    - intros b _ Hb. by rewrite (block_of_insert _ _ _ _ _ B2), decide_False. }
  assert (slot_cost s1 a <= slot_cost s a) as Hsc.
  { unfold slot_cost. repeat case_bool_decide; try lia. apply (m_in _ _ _ _ M1) in H0. done. }
  split; try done.
  - by eapply mapped_data_block.
  - by rewrite (block_of_insert _ _ _ _ _ B2), decide_False.
  - pose proof (mapped_trans _ _ _ _ _ _ _ (eq a) M1 M2 ltac:(intros b _ [[]|Hb]; exact Hb)) as [].
    split; try done. lia.
  - by rewrite (f_icache _ _ _ F2), (f_icache _ _ _ F1).
  - intros j Hj. rewrite (block_of_insert _ _ _ _ _ B2), decide_True by done. unfold d.
    rewrite word_set_word by (done || (unfold small_disk in Hsm; lia)). by rewrite Ka.
  - rewrite L2, !elem_of_absorb, L1, !elem_of_absorb. tauto.
  - eapply avail_keep; [exact S2 | | exact Hav1]. intros x Hx. by apply U2.
Qed.

Lemma entry_or_balloc_hit a k s : word (block_of s a) k <> 0 ->
  entry_or_balloc a k s = Ok (word (block_of s a) k, s).
Proof.
  intros Hw. unfold entry_or_balloc, bread, brelse, gets, mbind, M_bind, mret, M_ret. cbv beta iota zeta.
  by destruct (Z.eqb_spec (word (block_of s a) k) 0).
Qed.

(** ** Trees under change *)

(** what the tree of [a] holds besides the part below entry [k], with [R] *)
Definition around (s : fsys) (n : nat) (a k : Z) (R : list Z) : list Z :=
  (seqZ 0 k ≫= fun j => tree s n (word (block_of s a) j)) ++
  (seqZ (k + 1) (NINDIRECT - k - 1) ≫= fun j => tree s n (word (block_of s a) j)) ++ a :: R.

Lemma tree_around s n a k R : a <> 0 -> 0 <= k < NINDIRECT ->
  tree s (S n) a ++ R ≡ₚ tree s n (word (block_of s a) k) ++ around s n a k R.
Proof.
  intros Ha Hk. rewrite tree_nonzero by done. unfold around. rewrite (kids_split _ k) by done. solve_Permutation.
Qed.

Lemma elem_of_around s n a k R j b : 0 <= k < NINDIRECT -> 0 <= j < NINDIRECT -> j <> k ->
  b ∈ tree s n (word (block_of s a) j) -> b ∈ around s n a k R.
Proof.
  intros Hk Hj Hne Hb. unfold around. rewrite !elem_of_app, !list_elem_of_bind.
  destruct (Z_lt_le_dec j k).
  - left. exists j. split; [done|]. apply elem_of_seqZ. lia.
  - right. left. exists j. split; [done|]. apply elem_of_seqZ. lia.
Qed.

Lemma owned_perm s l l' : l ≡ₚ l' -> owned s l -> owned s l'.
Proof. intros E [Hn Hf]. split; by rewrite <- E. Qed.

Lemma owned_in s l b : owned s l -> b ∈ l -> data_block s b.
Proof. intros [_ Hf] Hb. rewrite Forall_forall in Hf. by apply Hf. Qed.

Lemma word_zero j : 0 <= j < NINDIRECT -> word zero_block j = 0.
Proof.
  intros Hj. unfold word, slice, zero_block. rewrite drop_replicate, take_replicate.
  generalize (Z.to_nat 4 `min` (Z.to_nat BSIZE - Z.to_nat (4 * j)))%nat as m.
  induction m as [|m IH]; [done|]. simpl. by rewrite IH.
Qed.

Lemma kids_nil {A} (f : Z -> list A) : (forall j, 0 <= j < NINDIRECT -> f j = []) -> kids f = [].
Proof.
  intros H. rewrite (kids_ext f (fun _ => [])) by done. unfold kids.
  by induction (seqZ 0 NINDIRECT) as [|x l IH].
Qed.

Lemma tree_zero s n : tree s n 0 = [].
Proof. by destruct n. Qed.

(** a fresh zeroed block is a tree with no entries *)
Lemma tree_fresh s n c : c <> 0 -> block_of s c = zero_block -> tree s n c = [c].
Proof.
  intros Hc Hz. rewrite tree_nonzero by done. destruct n; [done|]. rewrite kids_nil; [done|].
  intros j Hj. by rewrite Hz, word_zero, tree_zero.
Qed.

Lemma lookup_path_zero s p : lookup_path s 0 p = 0.
Proof. by destruct p. Qed.

Lemma lookup_fresh s c p : c <> 0 -> block_of s c = zero_block -> Forall (fun j => 0 <= j < NINDIRECT) p ->
  lookup_path s c p = match p with [] => c | _ => 0 end.
Proof.
  intros Hc Hz Hp. destruct p as [|k p]; simpl; destruct (Z.eqb_spec c 0); try done.
  apply Forall_cons in Hp as [Hk _]. by rewrite Hz, word_zero, lookup_path_zero.
Qed.

Definition entries_ok (p : list Z) : Prop := Forall (fun j => 0 <= j < NINDIRECT) p.

Lemma nodup_around s n a k R b :
  NoDup (around s n a k R) -> b ∈ around s n a k [] -> b ∉ R /\
  (forall j, 0 <= k < NINDIRECT -> 0 <= j < NINDIRECT -> j <> k -> b ∈ tree s n (word (block_of s a) j) -> b <> a).
Proof.
  unfold around. rewrite !NoDup_app, NoDup_cons. intros (_ & D1 & _ & D2 & Ha & _) Hb. split.
  - intros HR. rewrite !elem_of_app, elem_of_cons, elem_of_nil in Hb.
    destruct Hb as [Hb|[Hb|[->|[]]]]; [apply (D1 b Hb); set_solver | apply (D2 b Hb); set_solver | done].
  - intros j Hk Hj Hne Hbj ->. destruct (Z_lt_le_dec j k).
    + apply (D1 a); [|set_solver]. rewrite list_elem_of_bind. exists j. split; [done|]. apply elem_of_seqZ. lia.
    + apply (D2 a); [|set_solver]. rewrite list_elem_of_bind. exists j. split; [done|]. apply elem_of_seqZ. lia.
Qed.

(** a change below entry [k] of [a] leaves the rest of the tree alone *)
Lemma around_ext s s' n a k R :
  0 <= k < NINDIRECT -> NoDup (around s n a k R) ->
  (forall j, 0 <= j < NINDIRECT -> j <> k -> word (block_of s' a) j = word (block_of s a) j) ->
  (forall b, b ∈ around s n a k R -> b <> a -> block_of s' b = block_of s b) ->
  around s' n a k R = around s n a k R /\
  (forall j q, 0 <= j < NINDIRECT -> j <> k -> length q = n -> entries_ok q ->
     lookup_path s' (word (block_of s' a) j) q = lookup_path s (word (block_of s a) j) q).
Proof.
  intros Hk Hn Hw Hb.
  assert (forall j, 0 <= j < NINDIRECT -> j <> k ->
    forall b, b ∈ idx s n (word (block_of s a) j) -> block_of s' b = block_of s b) as Hidx.
  { intros j Hj Hne b Hin. apply idx_in_tree in Hin. apply Hb; [by eapply elem_of_around|].
    eapply (nodup_around s n a k R b); try done. by eapply elem_of_around. }
  assert (forall j, 0 <= j < NINDIRECT -> j <> k ->
    tree s' n (word (block_of s' a) j) = tree s n (word (block_of s a) j)) as Ht.
  { intros j Hj Hne. rewrite (Hw j) by done. by apply idx_ext, Hidx. }
  split.
  - unfold around. f_equal; [|f_equal]; apply Forall_bind_ext, Forall_forall; intros j Hj;
      apply elem_of_seqZ in Hj; apply Ht; lia.
  - intros j q Hj Hne Hl Hq. rewrite (Hw j) by done. by apply (idx_ext s s' n _ (Hidx j Hj Hne)).
Qed.

(** what following [p] from [a] does; [R] are other blocks in use *)
Record descended (a : Z) (p : list Z) (R : list Z) (s : fsys) (r : Z) (s' : fsys) : Prop := {
  d_map : mapped (fun b => b ∈ idx s (length p) a) (2 * Z.of_nat (length p) + slot_cost s a) s s';
  d_icache : icache s' = icache s;
  d_owned : owned s' (tree s' (length p) a ++ R);
  d_look : lookup_path s' a p = r /\ r <> 0;
  d_other : forall q, length q = length p -> entries_ok q -> q <> p -> lookup_path s' a q = lookup_path s a q;
  d_hit : lookup_path s a p <> 0 -> s' = s;
  d_new : lookup_path s a p = 0 ->
    0 < r < sb_size (sb s) /\ used s r = false /\ block_of s' r = zero_block /\ r ∈ lh s'
}.

(** from the subtree below entry [k], in [s1], to the whole tree *)
Lemma child_glue a k p R c s1 r s2 :
  a <> 0 -> 0 <= k < NINDIRECT -> word (block_of s1 a) k = c ->
  owned s1 (tree s1 (S (length p)) a ++ R) ->
  descended c p (around s1 (length p) a k R) s1 r s2 ->
  owned s2 (tree s2 (S (length p)) a ++ R) /\ lookup_path s2 a (k :: p) = r /\
  (forall q, length q = S (length p) -> entries_ok q -> q <> k :: p -> lookup_path s2 a q = lookup_path s1 a q).
Proof.
  intros Ha Hk Hc Ho D.
  apply (owned_perm _ _ _ (tree_around s1 _ a k R Ha Hk)) in Ho. rewrite Hc in Ho.
  pose proof Ho as [Hn _]. apply NoDup_app in Hn as (_ & Hd & Hn).
  assert (forall b, b ∈ around s1 (length p) a k R -> block_of s2 b = block_of s1 b) as Hkeep.
  { intros b Hb. apply (m_blk _ _ _ _ (d_map _ _ _ _ _ _ D)).
    - eapply owned_in; [exact Ho|]. apply elem_of_app. by right.
    - intros Hi. apply idx_in_tree in Hi. by eapply Hd. }
  assert (block_of s2 a = block_of s1 a) as Ea by (apply Hkeep; unfold around; set_solver).
  destruct (around_ext s1 s2 (length p) a k R Hk Hn) as [EA EL]; [by rewrite Ea | auto |].
  split_and!.
  - apply (owned_perm _ _ _ (Permutation_sym (tree_around s2 _ a k R Ha Hk))). rewrite Ea, Hc, EA. apply D.
  - cbn [lookup_path]. destruct (Z.eqb_spec a 0); [done|]. rewrite Ea, Hc. apply D.
  - intros [|j q] Hl Hq Hne; [done|]. injection Hl as Hl. apply Forall_cons in Hq as [Hj Hq].
    cbn [lookup_path]. destruct (Z.eqb_spec a 0); [done|].
    destruct (decide (j = k)) as [->|Hjk]; [|by apply EL].
    rewrite Ea, Hc. apply D; [done | done | congruence].
Qed.

Lemma mapped_weaken (c c' : Z -> Prop) g g' s s' :
  mapped c g s s' -> (forall b, data_block s b -> c b -> c' b) -> g <= g' -> mapped c' g' s s'.
Proof. intros [] Hc Hg. split; try done; [lia|]. intros b Hb Hn. auto. Qed.

(** the state right after a new block [c] was hung into entry [k] of [a] *)
Lemma entry_added_tree a k c n m s s1 R :
  a <> 0 -> 0 <= k < NINDIRECT -> word (block_of s a) k = 0 ->
  owned s (tree s (S n) a ++ R) -> entry_added a k c m s s1 ->
  owned s1 (tree s1 (S n) a ++ R) /\ tree s1 n c = [c] /\
  (forall q, length q = S n -> entries_ok q -> lookup_path s1 a q = (if decide (q = k :: replicate n 0 /\ n = O) then c else lookup_path s a q)).
Proof.
  intros Ha Hk Hw Ho EA.
  destruct EA as [[Hc Huc] Dc Zc Mp Ic Wd [Lc La] Av].
  apply (owned_perm _ _ _ (tree_around s n a k R Ha Hk)) in Ho. rewrite Hw, tree_zero in Ho. cbn [app] in Ho.
  assert (tree s1 n c = [c]) as Et by (apply tree_fresh; [lia | done]).
  assert (word (block_of s1 a) k = c) as Ek by (rewrite Wd, Z.eqb_refl by done; done).
  destruct (around_ext s s1 n a k R Hk) as [EA EL]; [apply Ho | | |].
  { intros j Hj Hne. rewrite Wd by done. destruct (Z.eqb_spec k j); [by subst | done]. }
  { intros b Hb Hba. apply (m_blk _ _ _ _ Mp); [by eapply owned_in | congruence]. }
  split_and!; [|done|].
  - apply (owned_perm _ _ _ (Permutation_sym (tree_around s1 n a k R Ha Hk))). rewrite Ek, Et, EA.
    split.
    + cbn [app]. apply NoDup_cons. split; [|apply Ho]. intros Hin.
      destruct (owned_in _ _ _ Ho Hin) as (_ & Hu & _). congruence.
    + cbn [app]. apply Forall_cons. split; [done|]. destruct Ho as [_ Ho]. eapply Forall_impl; [exact Ho|].
      intros b Hb. by eapply mapped_data_block.
  - intros [|j q] Hl Hq; [done|]. injection Hl as Hl. apply Forall_cons in Hq as [Hj Hq].
    cbn [lookup_path]. destruct (Z.eqb_spec a 0); [done|].
    destruct (decide (j = k)) as [->|Hjk].
    + rewrite Ek, Hw, lookup_path_zero, lookup_fresh by (done || lia).
      destruct q as [|x q]; simpl in Hl; subst n; case_decide as E; try done; [by destruct E | by destruct E].
    + rewrite EL by done. case_decide as E; [destruct E; congruence | done].
Qed.

Lemma descend_ok m p : forall a s R (Q : Z -> fsys -> Prop),
  geom s -> small_disk s -> a <> 0 -> entries_ok p -> owned s (tree s (length p) a ++ R) ->
  log_room s (2 * Z.of_nat (length p) + 1 + slot_cost s a) -> avail s (length p + m) ->
  (forall r s', descended a p R s r s' -> avail s' m -> Q r s') ->
  returns (descend a p) s Q.
Proof.
  induction p as [|k p IH]; intros a s R Q Hg Hsm Ha Hp Ho Hr Hav HQ; cbn [descend].
  { step. apply HQ; [|done]. pose proof (slot_cost_range s a).
    assert (lookup_path s a [] = a) as Ea by (simpl; by destruct (Z.eqb_spec a 0)).
    split; rewrite ?Ea; try done. apply mapped_refl; [done | simpl; lia]. }
  apply Forall_cons in Hp as [Hk Hp]. cbn [length] in Ho, Hr, Hav.
  pose proof (slot_cost_range s a) as Hsc.
  assert (a ∈ idx s (S (length p)) a) as Hai.
  { cbn [idx]. destruct (Z.eqb_spec a 0); [done | set_solver]. }
  assert (data_block s a) as Hda.
  { eapply owned_in; [exact Ho|]. apply elem_of_app. left. by apply idx_in_tree. }
  assert (forall s', lookup_path s' a (k :: p) = lookup_path s' (word (block_of s' a) k) p) as Hcons.
  { intros s'. cbn [lookup_path]. by destruct (Z.eqb_spec a 0). }
  destruct (decide (word (block_of s a) k = 0)) as [Hw|Hw].
  - apply returns_bind, (entry_or_balloc_new a k (length p + m)); try done.
    { eapply log_room_weaken; [exact Hr | lia]. }
    intros c s1 EA. destruct (entry_added_tree a k c _ _ s s1 R Ha Hk Hw Ho EA) as (Ho1 & Et & EL).
    destruct EA as [[Hc Huc] Dc Zc Mp Ic Wd [Lc La] Av].
    assert (word (block_of s1 a) k = c) as Ek by (rewrite Wd, Z.eqb_refl by done; done).
    pose proof (owned_perm _ _ _ (tree_around s1 _ a k R Ha Hk) Ho1) as Ho1'. rewrite Ek in Ho1'.
    apply (IH c s1 (around s1 (length p) a k R)); try done.
    + apply Mp.
    + unfold small_disk. by rewrite (m_sb _ _ _ _ Mp).
    + lia.
    + rewrite (slot_cost_in s1 c Lc). eapply (mapped_room _ _ _ _ _ Mp). eapply log_room_weaken; [exact Hr | lia].
    + intros r s2 D Hav2. apply HQ; [|done].
      destruct (child_glue a k p R c s1 r s2 Ha Hk Ek Ho1 D) as (Ho2 & E2 & EO).
      pose proof (lookup_fresh s1 c p ltac:(lia) Zc Hp) as Elc.
      split; cbn [length].
      * eapply mapped_weaken; [eapply (mapped_trans _ _ _ _ _ _ _ (fun b => b ∈ idx s (S (length p)) a) Mp (d_map _ _ _ _ _ _ D)) | done |].
        -- intros b Hb [<-|Hb1]; [done|]. exfalso. apply idx_in_tree in Hb1. rewrite Et in Hb1.
           apply list_elem_of_singleton in Hb1. subst b. destruct Hb as (_ & Hb & _). congruence.
        -- rewrite (slot_cost_in s1 c Lc). lia.
      * by rewrite (d_icache _ _ _ _ _ _ D).
      * done.
      * split; [exact E2 | apply D].
      * intros q Hl Hq Hne. rewrite (EO q Hl Hq Hne), (EL q Hl Hq).
        destruct (decide _) as [[E1 E0]|]; [|reflexivity]. apply length_zero_iff_nil in E0. subst p.
        by destruct Hne.
      * rewrite Hcons, Hw, lookup_path_zero. done.
      * intros _. destruct p as [|x p].
        -- destruct D as [_ _ _ [D1 D2] _ D3 _]. assert (s2 = s1) as -> by (apply D3; rewrite Elc; lia).
           rewrite Elc in D1. subst r. done.
        -- destruct (d_new _ _ _ _ _ _ D Elc) as (R1 & R2 & R3 & R4). rewrite (m_sb _ _ _ _ Mp) in R1.
           split_and!; try done; try lia. destruct (used s r) eqn:Eu; [|done].
           rewrite (m_used _ _ _ _ Mp) in R2 by (done || lia). done.
  - apply returns_bind. unfold returns at 1. rewrite entry_or_balloc_hit by done.
    pose proof (owned_perm _ _ _ (tree_around s _ a k R Ha Hk) Ho) as Ho'.
    pose proof (slot_cost_range s (word (block_of s a) k)).
    apply (IH _ s (around s (length p) a k R)); try done.
    + eapply log_room_weaken; [exact Hr | lia].
    + eapply avail_le; [exact Hav | simpl; lia].
    + intros r s2 D Hav2. apply HQ; [|done].
      destruct (child_glue a k p R _ s r s2 Ha Hk eq_refl Ho D) as (Ho2 & E2 & EO).
      split; cbn [length]; try done.
      * eapply mapped_weaken; [apply D | | lia]. intros b _ Hb. cbn [idx].
        destruct (Z.eqb_spec a 0); [done|]. apply elem_of_app. left. apply elem_of_kids. by exists k.
      * apply D.
      * split; [exact E2 | apply D].
      * rewrite Hcons. apply D.
      * rewrite Hcons. apply D.
Qed.

(** ** The whole file *)

Definition slot_idx (s : fsys) (i : inode) (k : Z) : list Z := idx s (slot_level k) (i_addrs i !!! Z.to_nat k).
Definition ml_idx (s : fsys) (i : inode) : list Z := seqZ 0 NADDRS ≫= slot_idx s i.

(** the blocks of a file outside address [k], with [R] *)
Definition others (s : fsys) (i : inode) (k : Z) (R : list Z) : list Z :=
  (seqZ 0 k ≫= slot_blocks s i) ++ (seqZ (k + 1) (NADDRS - k - 1) ≫= slot_blocks s i) ++ R.

Lemma ml_blocks_others s i k R : 0 <= k < NADDRS ->
  ml_blocks s i ++ R ≡ₚ slot_blocks s i k ++ others s i k R.
Proof.
  intros Hk. unfold ml_blocks, others. replace NADDRS with (k + (1 + (NADDRS - k - 1))) at 1 by lia.
  rewrite !seqZ_app by lia. rewrite !bind_app, !Z.add_0_l.
  assert (seqZ k 1 ≫= slot_blocks s i = slot_blocks s i k) as ->.
  { rewrite seqZ_cons by lia. rewrite bind_cons, app_nil_r. done. }
  solve_Permutation.
Qed.

Lemma elem_of_others s i k R j b : 0 <= j < NADDRS -> j <> k -> b ∈ slot_blocks s i j -> b ∈ others s i k R.
Proof.
  intros Hj Hne Hb. unfold others. rewrite !elem_of_app, !list_elem_of_bind. destruct (Z_lt_le_dec j k).
  - left. exists j. split; [done|]. apply elem_of_seqZ. lia.
  - right. left. exists j. split; [done|]. apply elem_of_seqZ. lia.
Qed.

(** a change confined to address [k] of the inode and the blocks below it *)
Lemma others_ext s s' i i' k R :
  0 <= k < NADDRS ->
  (forall j, 0 <= j < NADDRS -> j <> k -> i_addrs i' !!! Z.to_nat j = i_addrs i !!! Z.to_nat j) ->
  (forall b, b ∈ others s i k R -> block_of s' b = block_of s b) ->
  others s' i' k R = others s i k R /\
  (forall j q, 0 <= j < NADDRS -> j <> k -> length q = slot_level j -> entries_ok q ->
     lookup_path s' (i_addrs i' !!! Z.to_nat j) q = lookup_path s (i_addrs i !!! Z.to_nat j) q).
Proof.
  intros Hk Ha Hb.
  assert (forall j, 0 <= j < NADDRS -> j <> k -> forall b, b ∈ slot_idx s i j -> block_of s' b = block_of s b) as Hi.
  { intros j Hj Hne b Hin. apply Hb. apply (elem_of_others _ _ _ _ j); try done. by apply idx_in_tree. }
  assert (forall j, 0 <= j < NADDRS -> j <> k -> slot_blocks s' i' j = slot_blocks s i j) as Hs.
  { intros j Hj Hne. unfold slot_blocks. rewrite (Ha j) by done. by apply idx_ext, (Hi j). }
  split.
  - unfold others. f_equal; [|f_equal]; apply Forall_bind_ext, Forall_forall; intros j Hj;
      apply elem_of_seqZ in Hj; apply Hs; lia.
  - intros j q Hj Hne Hl Hq. rewrite (Ha j) by done. by apply (idx_ext s s' _ _ (Hi j Hj Hne)).
Qed.

(** [R] are blocks of other files *)
Record bmapped (ip : nat) (bn : Z) (R : list Z) (s : fsys) (r : Z) (s' : fsys) : Prop := {
  b_map : mapped (fun b => b ∈ ml_idx s (icache s !!! ip)) 8 s s';
  b_icache : exists a, icache s' = alter (with_addrs a) ip (icache s);
  b_fields : fields_ok (icache s' !!! ip);
  b_owned : owned s' (ml_blocks s' (icache s' !!! ip) ++ R);
  b_look : ml_lookup s' (icache s' !!! ip) bn = r /\ r <> 0;
  b_other : forall bn', 0 <= bn' < MAXFILE -> bn' <> bn ->
    ml_lookup s' (icache s' !!! ip) bn' = ml_lookup s (icache s !!! ip) bn';
  b_hit : ml_lookup s (icache s !!! ip) bn <> 0 -> s' = s;
  b_new : ml_lookup s (icache s !!! ip) bn = 0 ->
    0 < r < sb_size (sb s) /\ used s r = false /\ block_of s' r = zero_block /\ r ∈ lh s'
}.

(** from below one address to the whole file *)
Lemma slot_glue bn i a p R s1 r s2 :
  0 <= bn < MAXFILE -> p = (slot_path bn).2 -> i_addrs i !!! Z.to_nat (slot_path bn).1 = a ->
  owned s1 (ml_blocks s1 i ++ R) ->
  descended a p (others s1 i (slot_path bn).1 R) s1 r s2 ->
  owned s2 (ml_blocks s2 i ++ R) /\ ml_lookup s2 i bn = r /\
  (forall bn', 0 <= bn' < MAXFILE -> bn' <> bn -> ml_lookup s2 i bn' = ml_lookup s1 i bn').
Proof.
  intros Hbn -> Ha Ho D. destruct (slot_path_ok bn Hbn) as (Hk & Hlen & Hp).
  set (k := (slot_path bn).1) in *.
  apply (owned_perm _ _ _ (ml_blocks_others s1 i k R Hk)) in Ho.
  assert (forall b, b ∈ others s1 i k R -> block_of s2 b = block_of s1 b) as Hkeep.
  { intros b Hb. apply (m_blk _ _ _ _ (d_map _ _ _ _ _ _ D)).
    - eapply owned_in; [exact Ho|]. apply elem_of_app. by right.
    - intros Hi. apply idx_in_tree in Hi. destruct Ho as [Hn _]. apply NoDup_app in Hn as (_ & Hn & _).
      apply (Hn b); [|done]. unfold slot_blocks. by rewrite Ha, <- Hlen. }
  destruct (others_ext s1 s2 i i k R Hk ltac:(done) Hkeep) as [EO EL].
  split_and!.
  - apply (owned_perm _ _ _ (Permutation_sym (ml_blocks_others s2 i k R Hk))).
    rewrite EO. unfold slot_blocks. rewrite Ha, <- Hlen. apply D.
  - unfold ml_lookup. rewrite (surjective_pairing (slot_path bn)). fold k. rewrite Ha. apply D.
  - intros bn' Hbn' Hne. destruct (slot_path_ok bn' Hbn') as (Hk' & Hlen' & Hp').
    pose proof (slot_path_inj bn' bn Hbn' Hbn) as Hinj. unfold ml_lookup.
    rewrite (surjective_pairing (slot_path bn')). destruct (decide ((slot_path bn').1 = k)) as [E|E].
    + rewrite E, Ha. apply D; [by rewrite Hlen', Hlen, E | done|]. intros E2. apply Hne, Hinj.
      rewrite (surjective_pairing (slot_path bn')), (surjective_pairing (slot_path bn)). by f_equal.
    + by apply EL.
Qed.

Lemma slot_idx_in s i k b : 0 <= k < NADDRS -> b ∈ slot_idx s i k -> b ∈ ml_idx s i.
Proof.
  intros Hk Hb. unfold ml_idx. rewrite list_elem_of_bind. exists k. split; [done|]. apply elem_of_seqZ. lia.
Qed.

Lemma slot_level_range k : (slot_level k <= 3)%nat.
Proof. unfold slot_level. repeat case_match; lia. Qed.

(** an empty address [k] now holds the new block [c] *)
Lemma slot_added ip k c s s1 R :
  geom s -> small_disk s -> (ip < length (icache s))%nat -> 0 <= k < NADDRS ->
  let i := icache s !!! ip in
  fields_ok i -> i_addrs i !!! Z.to_nat k = 0 -> owned s (ml_blocks s i ++ R) -> alloc_post s c s1 ->
  let s2 := set_icache (alter (fun i => with_addrs (<[Z.to_nat k := c]> (i_addrs i)) i) ip) s1 in
  let i2 := icache s2 !!! ip in
  mapped (fun _ => False) 2 s s2 /\ fields_ok i2 /\ i_addrs i2 !!! Z.to_nat k = c /\
  icache s2 = alter (with_addrs (<[Z.to_nat k := c]> (i_addrs i))) ip (icache s) /\
  owned s2 (ml_blocks s2 i2 ++ R) /\ block_of s2 c = zero_block /\ c ∈ lh s2 /\
  (forall j q, 0 <= j < NADDRS -> length q = slot_level j -> entries_ok q ->
     lookup_path s2 (i_addrs i2 !!! Z.to_nat j) q =
       if decide (j = k) then lookup_path s2 c q else lookup_path s (i_addrs i !!! Z.to_nat j) q).
Proof.
  intros Hg Hsm Hip Hk i Hf Ha Ho Hal s2 i2.
  pose proof (alloc_mapped _ _ _ Hal) as M1. pose proof (alloc_data_block _ _ _ Hg Hal) as Dc.
  destruct Hal as (Hc & Huc & _ & F & L & Z & U & K & G). pose proof (f_icache _ _ _ F) as EI.
  assert (M2 : mapped (fun _ => False) 2 s s2).
  { destruct M1 as [A B C D E1 E2 E3]. split; try done. by apply geom_set_icache. }
  assert (i2 = with_addrs (<[Z.to_nat k := c]> (i_addrs i)) i) as E2.
  { unfold i2, s2. cbn [set_icache icache]. rewrite EI.
    by rewrite (upd_inode_at (fun j => with_addrs (<[Z.to_nat k:=c]> (i_addrs j)) j)). }
  assert (length (i_addrs i) = Z.to_nat NADDRS) as Hn by apply Hf.
  assert (i_addrs i2 !!! Z.to_nat k = c) as Ek.
  { rewrite E2. cbn [with_addrs i_addrs]. apply list_lookup_total_insert_eq. lia. }
  apply (owned_perm _ _ _ (ml_blocks_others s i k R Hk)) in Ho. unfold slot_blocks in Ho.
  rewrite Ha, tree_zero in Ho. cbn [app] in Ho.
  destruct (others_ext s s2 i i2 k R Hk) as [EO EL].
  { intros j Hj Hne. rewrite E2. cbn [with_addrs i_addrs]. rewrite list_lookup_total_insert_ne by lia. done. }
  { intros b Hb. apply (m_blk _ _ _ _ M2); [by eapply owned_in | by intros []]. }
  split_and!; try done.
  - rewrite E2. destruct Hf as [F1 F2 F3 F4 F5 F6 F7]. split; try done; cbn [with_addrs i_addrs].
    + by rewrite length_insert.
    + apply Forall_insert; [done|]. unfold uint_ok, small_disk in *. lia.
  - unfold s2. cbn [set_icache icache]. rewrite EI. apply list_lookup_lookup_total_lt in Hip.
    by rewrite !(list_alter_insert _ _ _ _ Hip).
  - apply (owned_perm _ _ _ (Permutation_sym (ml_blocks_others s2 i2 k R Hk))).
    rewrite EO. unfold slot_blocks. rewrite Ek, (tree_fresh s2) by (done || lia). split.
    + cbn [app]. apply NoDup_cons. split; [|apply Ho]. intros Hin.
      destruct (owned_in _ _ _ Ho Hin) as (_ & Hu & _). congruence.
    + cbn [app]. apply Forall_cons. split; [done|]. destruct Ho as [_ Ho]. eapply Forall_impl; [exact Ho|].
      intros b Hb. by eapply mapped_data_block.
  - change (c ∈ lh s1). rewrite L, !elem_of_absorb. by left.
  - intros j q Hj Hl Hq. case_decide as E; [by subst j; rewrite Ek | by apply EL].
Qed.

Lemma bmap_ok m ip bn R s (Q : Z -> fsys -> Prop) :
  geom s -> small_disk s -> (ip < length (icache s))%nat -> fields_ok (icache s !!! ip) ->
  owned s (ml_blocks s (icache s !!! ip) ++ R) -> 0 <= bn < MAXFILE -> log_room s 9 -> avail s (4 + m) ->
  (forall r s', bmapped ip bn R s r s' -> avail s' m -> Q r s') -> returns (bmap ip bn) s Q.
Proof.
  intros Hg Hsm Hip Hf Ho Hbn Hr Hav HQ. eapply returns_ext; [by apply bmap_descend|].
  destruct (slot_path_ok bn Hbn) as (Hk & Hlen & Hp). pose proof (slot_level_range (slot_path bn).1) as Hlv.
  set (k := (slot_path bn).1) in *. set (p := (slot_path bn).2) in *. set (i := icache s !!! ip) in *.
  assert (forall s' i', ml_lookup s' i' bn = lookup_path s' (i_addrs i' !!! Z.to_nat k) p) as El.
  { intros. unfold ml_lookup. by rewrite (surjective_pairing (slot_path bn)). }
  pose proof (owned_perm _ _ _ (ml_blocks_others s i k R Hk) Ho) as Ho'. unfold slot_blocks in Ho'. rewrite <- Hlen in Ho'.
  apply returns_bind. unfold addr_or_balloc, inode_at. step. fold i.
  destruct (Z.eqb_spec (i_addrs i !!! Z.to_nat k) 0) as [Ha|Ha].
  - apply returns_bind, (balloc_ok _ (3 + m)); [done | by eapply log_room_weaken | done |].
    intros c s1 Hal Hav1. unfold set_addr, upd_inode. step. step.
    destruct (slot_added ip k c s s1 R Hg Hsm Hip Hk Hf Ha Ho Hal) as (M2 & Hf2 & Ek & EI & Ho2 & Zc & Lc & EL).
    pose proof Hal as (Hc & Huc & _).
    set (s2 := set_icache _ s1) in *. set (i2 := icache s2 !!! ip) in *.
    pose proof (owned_perm _ _ _ (ml_blocks_others s2 i2 k R Hk) Ho2) as Ho2'. unfold slot_blocks in Ho2'.
    rewrite Ek, <- Hlen in Ho2'. pose proof (lookup_fresh s2 c p ltac:(lia) Zc Hp) as Elc.
    apply (descend_ok m p c s2 (others s2 i2 k R)); try done; try lia.
    { apply M2. } { unfold small_disk. by rewrite (m_sb _ _ _ _ M2). }
    { rewrite (slot_cost_in s2 c Lc). eapply (mapped_room _ _ _ _ _ M2). eapply log_room_weaken; [exact Hr | lia]. }
    { eapply avail_le; [|shelve]. eapply avail_keep; [| |exact Hav1]; done. Unshelve. lia. }
    intros r s3 D Hav3. apply HQ; [|done].
    destruct (slot_glue bn i2 c p R s2 r s3 Hbn eq_refl Ek Ho2 D) as (Ho3 & E3 & EO).
    pose proof (d_icache _ _ _ _ _ _ D) as E3i. fold i2 in E3i.
    split; rewrite ?E3i; fold i2; try done.
    + eapply mapped_weaken; [eapply (mapped_trans _ _ _ _ _ _ _ (fun _ => False) M2 (d_map _ _ _ _ _ _ D)) | done |].
      * intros b Hb [[]|Hb1]. apply idx_in_tree in Hb1. rewrite (tree_fresh s2) in Hb1 by (done || lia).
        apply list_elem_of_singleton in Hb1. subst b. destruct Hb as (_ & Hb & _). congruence.
      * rewrite (slot_cost_in s2 c Lc). lia.
    + by eexists.
    + split; [exact E3 | apply D].
    + intros bn' Hbn' Hne. rewrite EO by done. destruct (slot_path_ok bn' Hbn') as (Hk' & Hlen' & Hp').
      pose proof (slot_path_inj bn' bn Hbn' Hbn) as Hinj. unfold ml_lookup.
      rewrite (surjective_pairing (slot_path bn')), EL by done. case_decide as E; [|done].
      rewrite E. fold i. rewrite Ha, lookup_path_zero, lookup_fresh by (done || lia).
      destruct ((slot_path bn').2) as [|x q] eqn:Eq; [|done]. exfalso. apply Hne, Hinj.
      rewrite (surjective_pairing (slot_path bn')), (surjective_pairing (slot_path bn)), Eq, E. fold k p. f_equal.
      symmetry. apply length_zero_iff_nil. by rewrite Hlen, <- E, <- Hlen'.
    + fold i. rewrite El, Ha, lookup_path_zero. done.
    + intros _. destruct p as [|x p'] eqn:Ep.
      * destruct D as [_ _ _ [D1 D2] _ D3 _]. assert (s3 = s2) as -> by (apply D3; rewrite Elc; lia).
        rewrite Elc in D1. subst r. done.
      * destruct (d_new _ _ _ _ _ _ D Elc) as (R1 & R2 & R3 & R4). rewrite (m_sb _ _ _ _ M2) in R1.
        split_and!; try done; try lia. destruct (used s r) eqn:Eu; [|done].
        rewrite (m_used _ _ _ _ M2) in R2 by (done || lia). done.
  - step. pose proof (slot_cost_range s (i_addrs i !!! Z.to_nat k)).
    apply (descend_ok m p _ s (others s i k R)); try done; try lia.
    { eapply log_room_weaken; [exact Hr | lia]. } { eapply avail_le; [exact Hav | lia]. }
    intros r s3 D Hav3. apply HQ; [|done].
    destruct (slot_glue bn i _ p R s r s3 Hbn eq_refl eq_refl Ho D) as (Ho3 & E3 & EO).
    pose proof (d_icache _ _ _ _ _ _ D) as E3i.
    split; rewrite ?E3i; fold i; try done.
    + eapply mapped_weaken; [apply D | | lia]. intros b _ Hb. apply (slot_idx_in s i k); [done|].
      unfold slot_idx. by rewrite <- Hlen.
    + exists (i_addrs i). by rewrite alter_addrs_same.
    + split; [exact E3 | apply D].
    + rewrite El. apply D.
    + rewrite El. apply D.
Qed.

Lemma lookup_in_tree s n a p :
  length p = n -> entries_ok p -> lookup_path s a p <> 0 -> lookup_path s a p ∈ tree s n a.
Proof.
  revert a p. induction n as [|n IH]; intros a [|k p] Hl Hp Hne; try done; cbn [lookup_path tree] in *;
    destruct (Z.eqb_spec a 0); try done; [set_solver|]. injection Hl as Hl. apply Forall_cons in Hp as [Hk Hp].
  apply elem_of_app. left. apply elem_of_kids. exists k. split; [done|]. by apply IH.
Qed.

Lemma ml_lookup_in s i bn : 0 <= bn < MAXFILE -> ml_lookup s i bn <> 0 -> ml_lookup s i bn ∈ ml_blocks s i.
Proof.
  intros Hbn Hne. destruct (slot_path_ok bn Hbn) as (Hk & Hl & Hp). unfold ml_lookup, ml_blocks in *.
  destruct (slot_path bn) as [k p]. cbn [fst snd] in *. rewrite list_elem_of_bind. exists k.
  split; [by apply lookup_in_tree | apply elem_of_seqZ; lia].
Qed.

(** ** Properties *)

(** C18: the multilevel block map refines a map from block numbers to blocks.
    Below the largest file [bmap] returns the block of [bn]: a block that is
    mapped is returned without any change; otherwise one block that was free is
    mapped, zeroed, for [bn] only.  The map of every other block number, the
    distinctness of all blocks of the file (index blocks included) and of the
    blocks [R] of other files, and the contents of [R] are kept.  Past the
    largest file it panics. *)
Theorem bmap_ml_correct ip bn R s :
  geom s -> small_disk s -> (ip < length (icache s))%nat -> fields_ok (icache s !!! ip) ->
  owned s (ml_blocks s (icache s !!! ip) ++ R) -> 0 <= bn -> log_room s 9 -> avail s 4 ->
  if MAXFILE <=? bn then bmap ip bn s = Panic "bmap: out of range"
  else
    let i := icache s !!! ip in
    returns (bmap ip bn) s (fun r s' =>
      let i' := icache s' !!! ip in
      r <> 0 /\ ml_lookup s' i' bn = r /\
      (forall bn', 0 <= bn' < MAXFILE -> bn' <> bn -> ml_lookup s' i' bn' = ml_lookup s i bn') /\
      (ml_lookup s i bn <> 0 -> s' = s) /\
      (ml_lookup s i bn = 0 -> used s r = false /\ used s' r = true /\ block_of s' r = zero_block) /\
      owned s' (ml_blocks s' i' ++ R) /\ (forall b, b ∈ R -> block_of s' b = block_of s b)).
Proof.
  intros Hg Hs Hi Hf Ho Hbn Hr Hav. destruct (Z.leb_spec MAXFILE bn) as [Hlim|Hlim].
  - unfold MAXFILE in Hlim. unfold bmap. cbv zeta. change NDIRECT with 6 in *. change NSINDIRECT with 4 in *.
    change NDINDIRECT with 2 in *. change NTINDIRECT with 1 in *. change NDOUBLE with 16384 in *.
    change NTRIPLE with 2097152 in *. change NINDIRECT with 128 in *.
    repeat match goal with |- context [?a <? ?b] => destruct (Z.ltb_spec a b); [lia|] end. done.
  - intros i. apply (bmap_ok 0 ip bn R); try done. intros r s' B _. destruct (b_look _ _ _ _ _ _ B) as [El Hr0].
    split_and!; try done; try apply B.
    + intros E. destruct (b_new _ _ _ _ _ _ B E) as (Hrg & Hu & Hz & _). split_and!; try done.
      assert (r ∈ ml_blocks s' (icache s' !!! ip)) as Hin.
      { rewrite <- El. apply ml_lookup_in; [lia | by rewrite El]. }
      assert (data_block s' r) as (_ & Hu' & _); [|done].
      eapply owned_in; [apply (b_owned _ _ _ _ _ _ B) | apply elem_of_app; by left].
    + intros b Hb. apply (m_blk _ _ _ _ (b_map _ _ _ _ _ _ B)).
      * eapply owned_in; [exact Ho | apply elem_of_app; by right].
      * unfold ml_idx. rewrite list_elem_of_bind. intros (j & Hj & Hjs). apply elem_of_seqZ in Hjs.
        destruct Ho as [Hn _]. apply NoDup_app in Hn as (_ & Hn & _). apply (Hn b); [|done].
        unfold ml_blocks. rewrite list_elem_of_bind. exists j. split; [by apply idx_in_tree|]. apply elem_of_seqZ. lia.
Qed.

(** C19: [itrunc] of the multilevel kernel frees exactly the blocks of the
    file's tree, index blocks included, and leaves an inode of size 0 without
    addresses, in memory and on disk; the bitmap blocks of the freed blocks and
    the inode's block must fit the transaction. *)
Theorem itrunc_ml_correct L ip s :
  let i := icache s !!! ip in
  geom s -> room_for L s -> fields_ok i -> (ip < length (icache s))%nat ->
  owned s (ml_blocks s i) -> (forall b, b ∈ ml_blocks s i -> BBLOCK b (sb s) ∈ L) ->
  IBLOCK (i_inum i) (sb s) ∈ L -> iblock_ok s (i_inum i) -> 0 <= i_inum i ->
  returns (itrunc_ml ip) s (fun _ s' =>
    (forall c, 0 <= c < sb_size (sb s) -> used s' c = negb (bool_decide (c ∈ ml_blocks s i)) && used s c) /\
    i_size (icache s' !!! ip) = 0 /\ i_addrs (icache s' !!! ip) = replicate (Z.to_nat NADDRS) 0 /\
    (forall j, disk_inode s' (i_inum i) j = reloaded (icache s' !!! ip) j) /\ geom s').
Proof.
  intros i Hg Hr Hf Hip Ho HL HIL Hib H0.
  eapply returns_mono; [apply (@itrunc_spec ml_truncate ml_owns ml_truncate_spec L (ml_blocks s i) ip s); done|].
  intros [] s' [T1 T2 T3 T4 T5 T6]. rewrite T5, (upd_inode_at (fun j => with_size 0 (with_addrs (replicate (Z.to_nat NADDRS) 0) j))) by done.
  split_and!; try done. intros j. rewrite T6, T5, (upd_inode_at (fun j => with_size 0 (with_addrs (replicate (Z.to_nat NADDRS) 0) j))) by done. done.
Qed.

(** a file with one direct block and a single-indirect tree of one block: the
    index block 5 points to block 6 *)
Definition demo_ml : inode := mkinode 1 1 1 true true T_FILE 0 0 0 3584 (4 :: replicate 5 0 ++ 5 :: replicate 6 0).
Definition demo_tree : fsys := set_blk (fun m => <[5 := set_word zero_block 0 6]> m) (demo_fs [demo_ml]).

Lemma demo_tree_block b :
  block_of demo_tree b = if decide (5 = b) then set_word zero_block 0 6 else block_of (demo_fs []) b.
Proof. by apply (block_of_insert (demo_fs []) demo_tree). Qed.

Lemma demo_tree_used c : 0 <= c < 40 -> used demo_tree c = used (demo_fs []) c.
Proof.
  intros Hc. unfold used. rewrite demo_tree_block. change (sb demo_tree) with demo_sb.
  change (sb (demo_fs [])) with demo_sb. by rewrite demo_bblock.
Qed.

Lemma demo_tree_geom : geom demo_tree.
Proof.
  pose proof (demo_geom []) as [G1 G2 G3 G4 G5]. split; try done.
  - intros b. rewrite demo_tree_block. case_decide; [reflexivity | apply G2].
  - intros b Hb. rewrite demo_tree_used by (by apply G4). by apply G5.
Qed.

Lemma demo_tree_blocks : ml_blocks demo_tree (icache demo_tree !!! 0%nat) = [4; 6; 5].
Proof. vm_compute. reflexivity. Qed.

Lemma demo_tree_owned R : NoDup (4 :: 6 :: 5 :: R) -> Forall (fun b => 0 < b < 8 /\ b <> 3) R -> owned demo_tree ([4; 6; 5] ++ R).
Proof.
  intros Hn Hf. split; [done|]. assert (forall b, 0 < b < 8 -> b <> 3 -> data_block demo_tree b) as Hd.
  { intros b Hb H3. unfold data_block. change (sb demo_tree) with demo_sb. split; [simpl; lia|]. split.
    - rewrite demo_tree_used by lia. assert (b = 1 \/ b = 2 \/ b = 4 \/ b = 5 \/ b = 6 \/ b = 7) as Hc by lia.
      by repeat destruct Hc as [->|Hc]; [..|subst b].
    - intros c Hc. by rewrite demo_bblock. }
  cbn [app]. repeat (apply Forall_cons; split; [apply Hd; lia|]).
  eapply Forall_impl; [exact Hf|]. intros b [? ?]. by apply Hd.
Qed.

Lemma demo_ml_fields : bool_decide (fields_ok demo_ml).
Proof. vm_compute. exact I. Qed.

Lemma bmap_ml_correct_witness :
  returns (bmap 0 7) demo_tree (fun r s' => r <> 0 /\ ml_lookup s' (icache s' !!! 0%nat) 6 = 6).
Proof.
  eapply returns_mono.
  - pose proof (bmap_ml_correct 0 7 [] demo_tree) as H. change (MAXFILE <=? 7) with false in H. apply H.
    + exact demo_tree_geom.
    + vm_compute. congruence.
    + vm_compute. lia.
    + apply (bool_decide_unpack _ demo_ml_fields).
    + rewrite demo_tree_blocks. apply demo_tree_owned; [|done].
      apply (bool_decide_unpack _). vm_compute. exact I.
    + lia.
    + split; [|done]. vm_compute. congruence.
    + exists [8; 9; 10; 11]. split_and!; [done | apply (bool_decide_unpack _); vm_compute; exact I |].
      repeat constructor; try (simpl; lia); by rewrite demo_tree_used by lia.
  - cbv beta zeta. intros r s' (Hr & _ & Hk & _). split; [done|]. rewrite Hk; [vm_compute; done | vm_compute; split; congruence | lia].
Defined.

Lemma itrunc_ml_correct_witness :
  returns (itrunc_ml 0) demo_tree (fun _ s' => used s' 4 = false /\ used s' 5 = false /\ used s' 6 = false /\ used s' 7 = true).
Proof.
  eapply returns_mono.
  - apply (itrunc_ml_correct {[3; 2]} 0 demo_tree).
    + exact demo_tree_geom.
    + split; [|done]. cbn [lh demo_tree demo_fs set_blk]. rewrite list_to_set_nil, difference_empty_L. by vm_compute.
    + apply (bool_decide_unpack _ demo_ml_fields).
    + vm_compute. lia.
    + rewrite demo_tree_blocks. rewrite <- (app_nil_r [4; 6; 5]). apply demo_tree_owned; [|done].
      apply (bool_decide_unpack _). vm_compute. exact I.
    + rewrite demo_tree_blocks. intros b Hb. change (sb demo_tree) with demo_sb.
      rewrite demo_bblock; [set_solver|]. rewrite !elem_of_cons, elem_of_nil in Hb. lia.
    + vm_compute (IBLOCK _ _). set_solver.
    + intros c Hc. change (2 <> BBLOCK c demo_sb). rewrite demo_bblock; done.
    + vm_compute. congruence.
  - cbv beta zeta. intros _ s' (Hu & _). rewrite demo_tree_blocks in Hu.
    change (sb_size (sb demo_tree)) with 40 in Hu.
    split_and!; rewrite Hu by lia; [done | done | done |]. by rewrite demo_tree_used by lia.
Defined.
