(* ===== verification/MlIo.v ===== *)
(** * Reading and writing multilevel files

    [readi] and [writei] of [fs.c] of the xv6-lazy-allocation-multilevel-fs
    kernel over the block map of [MlFs].  A file is seen as a function from
    offsets to bytes, a block that is not mapped reading as zeros; the block
    map does not change that view, and a write changes it in its range only. *)

From S2P Require Import Prelude Blocks Inode Index FileIo MlFs.

Section Io.
Context `{DevSw}.

Fixpoint readi_loop (fuel : nat) (ip : nat) (off n tot : Z) (dst : list Z) : M fsys (Z * list Z) :=
  match fuel with
  | O => block
  | S fuel' =>
      if tot <? n then
        addr ← bmap ip (off / BSIZE);
        d ← bread addr;
        let m := Z.min (n - tot) (BSIZE - off mod BSIZE) in
        brelse addr ;;
        readi_loop fuel' ip (off + m) n (tot + m) (dst ++ slice d (off mod BSIZE) m)
      else mret (i32 n, dst)
  end.

(** [readi]: the result and the bytes copied to [dst] *)
Definition readi (ip : nat) (off n : Z) : M fsys (Z * list Z) :=
  i ← inode_at ip;
  if i_type i =? T_DEV then
    match dev_guard (i_major i) (dev_read (i_major i)) with
    | None => mret (-1, [])
    | Some f => f ip n
    end
  else if (i_size i <? off) || (u32 (off + n) <? off) then mret (-1, [])
  else
    let n := if i_size i <? u32 (off + n) then i_size i - off else n in
    readi_loop (Z.to_nat (n / BSIZE + 3)) ip off n 0 [].

(** the copy loop of [writei]: the final offset *)
Fixpoint writei_loop (fuel : nat) (ip : nat) (src : list Z) (off n tot : Z) : M fsys Z :=
  match fuel with
  | O => block
  | S fuel' =>
      if tot <? n then
        addr ← bmap ip (off / BSIZE);
        d ← bread addr;
        let m := Z.min (n - tot) (BSIZE - off mod BSIZE) in
        set_data addr (splice d (off mod BSIZE) (slice src 0 m)) ;;
        log_write addr ;;
        brelse addr ;;
        writei_loop fuel' ip (drop (Z.to_nat m) src) (off + m) n (tot + m)
      else mret off
  end.

(** [writei] *)
Definition writei (ip : nat) (src : list Z) (off n : Z) : M fsys Z :=
  i ← inode_at ip;
  if i_type i =? T_DEV then
    match dev_guard (i_major i) (dev_write (i_major i)) with
    | None => mret (-1)
    | Some f => f ip src n
    end
  else if (i_size i <? off) || (u32 (off + n) <? off) then mret (-1)
  else if u32 (MAXFILE * BSIZE) <? u32 (off + n) then mret (-1)
  else
    off ← writei_loop (Z.to_nat (n / BSIZE + 3)) ip src off n 0;
    i ← inode_at ip;
    (if (0 <? n) && (i_size i <? off) then upd_inode ip (with_size off) ;; iupdate ip else mret tt) ;;
    mret (i32 n).
End Io.

(** ** A file as a function from offsets to bytes *)

Definition ml_byte (s : fsys) (i : inode) (o : Z) : Z :=
  let b := ml_lookup s i (o / BSIZE) in
  if b =? 0 then 0 else block_of s b !!! Z.to_nat (o mod BSIZE).

Definition FILE_LIMIT : Z := MAXFILE * BSIZE.

(** entry [ip] is a file of this kernel; [R] are the other blocks in use *)
Record ml_file (s : fsys) (ip : nat) (R : list Z) : Prop := {
  mf_geom : geom s;
  mf_small : small_disk s;
  mf_ip : (ip < length (icache s))%nat;
  mf_fields : fields_ok (icache s !!! ip);
  mf_owned : owned s (ml_blocks s (icache s !!! ip) ++ R)
}.

(** what a path leads to is a block of the tree and not an index block *)
Lemma lookup_leaf s n a p :
  NoDup (tree s n a) -> length p = n -> entries_ok p -> lookup_path s a p <> 0 ->
  lookup_path s a p ∈ tree s n a /\ lookup_path s a p ∉ idx s n a.
Proof.
  revert a p. induction n as [|n IH]; intros a [|k p] Hn Hl Hp Hne; try done; cbn [lookup_path tree idx] in *;
    destruct (Z.eqb_spec a 0) as [E|Ha]; try done.
  { split; [set_solver | apply not_elem_of_nil]. }
  injection Hl as Hl. apply Forall_cons in Hp as [Hk Hp].
  rewrite (kids_split _ k) in Hn by done. rewrite (kids_split _ k), (kids_split (fun j => idx _ _ _) k) by done.
  rewrite <- !(assoc_L (++)) in *.
  apply NoDup_app in Hn as (_ & D1 & Hn). apply NoDup_app in Hn as (N2 & D2 & _).
  destruct (IH _ p N2 Hl Hp Hne) as [Hin Hni]. split; [set_solver|].
  rewrite !elem_of_app. intros [H1|[H1|[H1|H1]]]; [|done| |].
  - rewrite list_elem_of_bind in H1. destruct H1 as (j & H1 & Hj). apply (D1 (lookup_path s (word (block_of s a) k) p)).
    + rewrite list_elem_of_bind. exists j. split; [by apply idx_in_tree | done].
    + set_solver.
  - apply (D2 _ Hin). rewrite elem_of_app. left. rewrite list_elem_of_bind in *. destruct H1 as (j & H1 & Hj).
    exists j. split; [by apply idx_in_tree | done].
  - apply (D2 _ Hin). set_solver.
Qed.

Lemma tree_child_disjoint s n a k j b :
  a <> 0 -> NoDup (tree s (S n) a) -> 0 <= k < NINDIRECT -> 0 <= j < NINDIRECT -> j <> k ->
  b ∈ tree s n (word (block_of s a) k) -> b ∉ tree s n (word (block_of s a) j).
Proof.
  intros Ha Hn Hk Hj Hne Hb Hb'. pose proof (tree_around s n a k [] Ha Hk) as P. rewrite app_nil_r in P.
  rewrite P in Hn. apply NoDup_app in Hn as (_ & D & _). apply (D b Hb). by eapply (elem_of_around _ _ _ _ _ j).
Qed.

(** different paths lead to different blocks *)
Lemma lookup_path_inj s n a p q :
  NoDup (tree s n a) -> length p = n -> length q = n -> entries_ok p -> entries_ok q ->
  lookup_path s a p <> 0 -> lookup_path s a p = lookup_path s a q -> p = q.
Proof.
  revert a p q. induction n as [|n IH]; intros a [|k p] [|j q] Hn Hl1 Hl2 Hp Hq Hne E; try done.
  cbn [lookup_path] in *. destruct (Z.eqb_spec a 0) as [E0|Ha]; [done|].
  injection Hl1 as Hl1. injection Hl2 as Hl2. apply Forall_cons in Hp as [Hk Hp]. apply Forall_cons in Hq as [Hj Hq].
  pose proof (tree_around s n a k [] Ha Hk) as P. rewrite app_nil_r in P.
  pose proof Hn as Hn'. rewrite P in Hn'. apply NoDup_app in Hn' as (Nk & _ & _).
  destruct (decide (j = k)) as [->|Hjk].
  - f_equal. by eapply IH.
  - exfalso. pose proof (tree_around s n a j [] Ha Hj) as Pj. rewrite app_nil_r in Pj.
    pose proof Hn as Hn'. rewrite Pj in Hn'. apply NoDup_app in Hn' as (Nj & _ & _).
    destruct (lookup_leaf s n _ p Nk Hl1 Hp Hne) as [H1 _].
    destruct (lookup_leaf s n _ q Nj Hl2 Hq ltac:(by rewrite <- E)) as [H2 _].
    apply (tree_child_disjoint s n a k j _ Ha Hn Hk Hj Hjk H1). by rewrite E.
Qed.

Section FileFacts.
Context (s : fsys) (i : inode) (R : list Z).
Hypothesis Hown : owned s (ml_blocks s i ++ R).

Lemma slot_nodup k : 0 <= k < NADDRS -> NoDup (slot_blocks s i k).
Proof using Hown.
  intros Hk. destruct Hown as [Hn _]. rewrite (ml_blocks_others s i k R Hk) in Hn.
  by apply NoDup_app in Hn as (? & _ & _).
Qed.

Lemma slot_disjoint k j b : 0 <= k < NADDRS -> 0 <= j < NADDRS -> j <> k ->
  b ∈ slot_blocks s i k -> b ∉ slot_blocks s i j.
Proof using Hown.
  intros Hk Hj Hne Hb Hb'. destruct Hown as [Hn _]. rewrite (ml_blocks_others s i k R Hk) in Hn.
  apply NoDup_app in Hn as (_ & D & _). apply (D b Hb). by eapply (elem_of_others _ _ _ _ j).
Qed.

Lemma ml_lookup_slot bn : 0 <= bn < MAXFILE -> ml_lookup s i bn <> 0 ->
  ml_lookup s i bn ∈ slot_blocks s i (slot_path bn).1 /\ ml_lookup s i bn ∉ slot_idx s i (slot_path bn).1.
Proof using Hown.
  intros Hbn Hne. destruct (slot_path_ok bn Hbn) as (Hk & Hl & Hp). unfold ml_lookup in *.
  rewrite (surjective_pairing (slot_path bn)) in *. by apply lookup_leaf; [apply slot_nodup | | |].
Qed.

(** a mapped block is a data block of the file and not one of its index blocks *)
Lemma ml_lookup_leaf bn : 0 <= bn < MAXFILE -> ml_lookup s i bn <> 0 ->
  data_block s (ml_lookup s i bn) /\ ml_lookup s i bn ∉ R /\ ml_lookup s i bn ∉ ml_idx s i.
Proof using Hown.
  intros Hbn Hne. destruct (slot_path_ok bn Hbn) as (Hk & Hl & Hp).
  destruct (ml_lookup_slot bn Hbn Hne) as [Hin Hni].
  pose proof (ml_blocks_others s i _ R Hk) as P. split_and!.
  - eapply owned_in; [exact Hown|]. rewrite P. apply elem_of_app. by left.
  - intros HR. destruct Hown as [Hn _]. rewrite P in Hn. apply NoDup_app in Hn as (_ & D & _).
    apply (D _ Hin). unfold others. set_solver.
  - unfold ml_idx. rewrite list_elem_of_bind. intros (j & Hj & Hs). apply elem_of_seqZ in Hs.
    destruct (decide (j = (slot_path bn).1)) as [->|Hjk]; [done|].
    apply (slot_disjoint _ j _ Hk ltac:(lia) Hjk Hin). by apply idx_in_tree.
Qed.

Lemma ml_lookup_inj a b : 0 <= a < MAXFILE -> 0 <= b < MAXFILE ->
  ml_lookup s i a <> 0 -> ml_lookup s i a = ml_lookup s i b -> a = b.
Proof using Hown.
  intros Ha Hb Hne E. destruct (slot_path_ok a Ha) as (Hka & Hla & Hpa). destruct (slot_path_ok b Hb) as (Hkb & Hlb & Hpb).
  destruct (ml_lookup_slot a Ha Hne) as [Ia _]. destruct (ml_lookup_slot b Hb ltac:(by rewrite <- E)) as [Ib _].
  apply slot_path_inj; try done. rewrite (surjective_pairing (slot_path a)), (surjective_pairing (slot_path b)).
  destruct (decide ((slot_path b).1 = (slot_path a).1)) as [Ek|Ek].
  - rewrite Ek. f_equal. unfold ml_lookup in E, Hne. rewrite (surjective_pairing (slot_path a)) in E, Hne.
    rewrite (surjective_pairing (slot_path b)), Ek in E. rewrite Ek in Hlb.
    eapply lookup_path_inj; try done. by apply slot_nodup.
  - exfalso. apply (slot_disjoint _ _ _ Hka Hkb Ek Ia). by rewrite E.
Qed.
End FileFacts.

Lemma off_block_range o : 0 <= o < FILE_LIMIT -> 0 <= o / BSIZE < MAXFILE.
Proof. unfold FILE_LIMIT. change BSIZE with 512. intros. Z.div_mod_to_equations. lia. Qed.

Lemma bmapped_file ip bn R s r s' : ml_file s ip R -> bmapped ip bn R s r s' -> ml_file s' ip R.
Proof.
  intros [Hg Hs Hi Hf Ho] [M [a I] F O _ _ _ _]. split; try done.
  - apply M.
  - unfold small_disk. by rewrite (m_sb _ _ _ _ M).
  - by rewrite I, length_alter.
Qed.

(** the block map does not change the contents *)
Lemma bmapped_bytes ip bn R s r s' o :
  ml_file s ip R -> 0 <= bn < MAXFILE -> bmapped ip bn R s r s' -> 0 <= o < FILE_LIMIT ->
  ml_byte s' (icache s' !!! ip) o = ml_byte s (icache s !!! ip) o.
Proof.
  intros [Hg Hs Hi Hf Ho] Hbn B Hoff. pose proof (off_block_range o Hoff) as Hr. unfold ml_byte.
  destruct (decide (o / BSIZE = bn)) as [E|E].
  - rewrite E, (proj1 (b_look _ _ _ _ _ _ B)). destruct (Z.eqb_spec r 0); [by destruct B as [_ _ _ _ [_ ?] _ _ _]|].
    destruct (Z.eqb_spec (ml_lookup s (icache s !!! ip) bn) 0) as [E0|E0].
    + destruct (b_new _ _ _ _ _ _ B E0) as (_ & _ & -> & _). unfold zero_block.
      apply list_lookup_total_correct, lookup_replicate_2. pose proof (off_mod o). change BSIZE with 512 in *. lia.
    + pose proof (b_hit _ _ _ _ _ _ B E0) as Es. pose proof (proj1 (b_look _ _ _ _ _ _ B)) as El. rewrite Es in El |- *. by rewrite El.
  - rewrite (b_other _ _ _ _ _ _ B) by done.
    destruct (Z.eqb_spec (ml_lookup s (icache s !!! ip) (o / BSIZE)) 0) as [E0|E0]; [done|].
    destruct (ml_lookup_leaf s _ R Ho _ Hr E0) as (Hd & _ & Hn). f_equal.
    by apply (m_blk _ _ _ _ (b_map _ _ _ _ _ _ B)).
Qed.

(** storing new contents in one mapped block *)
Section Store.
Context (ip : nat) (R : list Z) (s s' : fsys) (bn : Z) (d : list Z).
Hypothesis Hfile : ml_file s ip R.
Hypothesis Hbn : 0 <= bn < MAXFILE.
Hypothesis Hne : ml_lookup s (icache s !!! ip) bn <> 0.
Hypothesis Hd : length d = Z.to_nat BSIZE.
Hypothesis Hlog : logged (ml_lookup s (icache s !!! ip) bn) d s s'.

Lemma store_icache : icache s' = icache s.
Proof using Hlog. apply (l_frame _ _ _ _ Hlog). Qed.

Lemma store_idx k : 0 <= k < NADDRS ->
  (forall b, b ∈ slot_idx s (icache s !!! ip) k -> block_of s' b = block_of s b).
Proof using All.
  intros Hk b Hb. rewrite (block_of_insert _ _ _ _ _ (l_blk _ _ _ _ Hlog)), decide_False; [done|].
  intros <-. destruct (ml_lookup_leaf s _ R (mf_owned _ _ _ Hfile) bn Hbn Hne) as (_ & _ & Hn).
  apply Hn. by eapply slot_idx_in.
Qed.

Lemma store_lookup b : 0 <= b < MAXFILE -> ml_lookup s' (icache s' !!! ip) b = ml_lookup s (icache s !!! ip) b.
Proof using All.
  intros Hb. rewrite (store_icache). destruct (slot_path_ok b Hb) as (Hk & Hl & Hp). unfold ml_lookup.
  rewrite (surjective_pairing (slot_path b)). by apply (idx_ext s s' _ _ (store_idx _ Hk)).
Qed.

Lemma store_blocks : ml_blocks s' (icache s' !!! ip) = ml_blocks s (icache s !!! ip).
Proof using All.
  rewrite store_icache. unfold ml_blocks. apply Forall_bind_ext, Forall_forall. intros k Hk.
  apply elem_of_seqZ in Hk. by apply (idx_ext s s' _ _ (store_idx k ltac:(lia))).
Qed.

Lemma store_used : geom s' /\ (forall c, 0 <= c < sb_size (sb s) -> used s' c = used s c).
Proof using All.
  destruct (ml_lookup_leaf s _ R (mf_owned _ _ _ Hfile) bn Hbn Hne) as ((_ & _ & Hb) & _ & _).
  by apply (logged_data_geom _ d s s' (mf_geom _ _ _ Hfile) Hb Hd Hlog).
Qed.

Lemma store_file : ml_file s' ip R.
Proof using All.
  destruct store_used as [Hg Hu]. pose proof (f_sb _ _ _ (l_frame _ _ _ _ Hlog)) as E.
  destruct Hfile as [_ Hs Hi Hf Ho]. split; rewrite ?store_icache; try done.
  - unfold small_disk. by rewrite E.
  - pose proof store_blocks as Eb. rewrite store_icache in Eb. rewrite Eb. eapply owned_mono; [done | | done].
    intros c Hc. by rewrite Hu.
Qed.

Lemma store_bytes o : 0 <= o < FILE_LIMIT ->
  ml_byte s' (icache s' !!! ip) o =
    if decide (o / BSIZE = bn) then d !!! Z.to_nat (o mod BSIZE) else ml_byte s (icache s !!! ip) o.
Proof using All.
  intros Ho. pose proof (off_block_range o Ho) as Hr. unfold ml_byte. rewrite store_lookup by done.
  destruct (decide (o / BSIZE = bn)) as [->|E].
  - destruct (Z.eqb_spec (ml_lookup s (icache s !!! ip) bn) 0); [done|].
    by rewrite (block_of_insert _ _ _ _ _ (l_blk _ _ _ _ Hlog)), decide_True.
  - destruct (Z.eqb_spec (ml_lookup s (icache s !!! ip) (o / BSIZE)) 0); [done|].
    rewrite (block_of_insert _ _ _ _ _ (l_blk _ _ _ _ Hlog)), decide_False; [done|].
    intros El. apply E. symmetry. by eapply ml_lookup_inj; [apply Hfile|..].
Qed.
End Store.

(** from [s] to [s'], the bytes [x] were written at [off] *)
Record wrote (ip : nat) (R : list Z) (off : Z) (x : list Z) (s s' : fsys) : Prop := {
  w_file : ml_file s' ip R;
  w_sb : sb s' = sb s;
  w_out : outstanding s' = outstanding s;
  w_bytes : forall o, 0 <= o < FILE_LIMIT ->
    ml_byte s' (icache s' !!! ip) o =
      if decide (off <= o < off + Z.of_nat (length x)) then x !!! Z.to_nat (o - off)
      else ml_byte s (icache s !!! ip) o;
  w_inode : exists a, icache s' = alter (with_addrs a) ip (icache s);
  w_R : forall b, b ∈ R -> block_of s' b = block_of s b;
  w_keep : forall bn, 0 <= bn < MAXFILE -> ml_lookup s (icache s !!! ip) bn <> 0 -> ml_lookup s' (icache s' !!! ip) bn <> 0;
  w_map : forall o, off <= o < off + Z.of_nat (length x) -> ml_lookup s' (icache s' !!! ip) (o / BSIZE) <> 0;
  w_hit : (forall o, off <= o < off + Z.of_nat (length x) -> ml_lookup s (icache s !!! ip) (o / BSIZE) <> 0) ->
    icache s' = icache s
}.

Lemma wrote_nil ip R off s : ml_file s ip R -> wrote ip R off [] s s.
Proof.
  intros Hf. split; try done.
  - intros o Ho. rewrite decide_False; [done | simpl; lia].
  - exists (i_addrs (icache s !!! ip)). by rewrite alter_addrs_same.
  - simpl. intros o Ho. lia.
Qed.

Lemma wrote_app ip R off x y s s1 s2 :
  0 <= off -> off + Z.of_nat (length (x ++ y)) <= FILE_LIMIT ->
  wrote ip R off x s s1 -> wrote ip R (off + Z.of_nat (length x)) y s1 s2 -> wrote ip R off (x ++ y) s s2.
Proof.
  intros Hoff Hlim [F1 S1 O1 B1 [a1 I1] R1 K1 M1 H1] [F2 S2 O2 B2 [a2 I2] R2 K2 M2 H2].
  pose proof (length_app x y) as HL. split; try done; try congruence.
  - intros o Ho. rewrite B2, B1 by done. repeat case_decide; try lia; try done;
      first [rewrite lookup_total_app_r by lia; f_equal; lia | rewrite lookup_total_app_l by lia; done].
  - exists a2. by rewrite I2, I1, alter_addrs_twice.
  - intros b Hb. rewrite R2, R1 by done. done.
  - intros bn Hbn Hne. apply K2; [done|]. by apply K1.
  - intros o Ho. destruct (Z_lt_le_dec o (off + Z.of_nat (length x))).
    + apply K2; [apply off_block_range; lia | apply M1; lia].
    + apply M2. lia.
  - intros Hh. rewrite H2, H1; [done | intros o Ho; apply Hh; lia|].
    intros o Ho. apply K1; [apply off_block_range; lia | apply Hh; lia].
Qed.

Lemma wrote_block ip R off x s r s1 s2 :
  ml_file s ip R -> 0 <= off -> 0 < Z.of_nat (length x) -> off mod BSIZE + Z.of_nat (length x) <= BSIZE ->
  off + Z.of_nat (length x) <= FILE_LIMIT ->
  bmapped ip (off / BSIZE) R s r s1 -> logged r (splice (block_of s1 r) (off mod BSIZE) x) s1 s2 ->
  wrote ip R off x s s2.
Proof.
  intros Hf Hoff Hx Hm Hlim B Hlog. pose proof (off_mod off) as Hom.
  assert (0 <= off / BSIZE < MAXFILE) as Hbn by (apply off_block_range; lia).
  destruct (b_look _ _ _ _ _ _ B) as [El Hr0]. pose proof (bmapped_file _ _ _ _ _ _ Hf B) as Hf1.
  pose proof (g_len _ (mf_geom _ _ _ Hf1) r) as Hlen.
  assert (length (splice (block_of s1 r) (off mod BSIZE) x) = Z.to_nat BSIZE) as Hd.
  { rewrite length_splice; [done | lia | rewrite Hlen; change BSIZE with 512 in *; lia]. }
  set (d := splice (block_of s1 r) (off mod BSIZE) x) in *.
  rewrite <- El in Hlog. assert (ml_lookup s1 (icache s1 !!! ip) (off / BSIZE) <> 0) as Hne by (by rewrite El).
  pose proof (store_icache _ _ _ _ _ Hlog) as Ei. pose proof (l_frame _ _ _ _ Hlog) as F.
  assert (forall o, off <= o < off + Z.of_nat (length x) -> o / BSIZE = off / BSIZE) as Hsame.
  { intros o Ho. change BSIZE with 512 in *. Z.div_mod_to_equations. lia. }
  split.
  - exact (store_file ip R s1 s2 (off / BSIZE) _ Hf1 Hbn Hne Hd Hlog).
  - rewrite (f_sb _ _ _ F). apply B.
  - rewrite (f_out _ _ _ F). apply (m_out _ _ _ _ (b_map _ _ _ _ _ _ B)).
  - intros o Ho. rewrite (store_bytes ip R s1 s2 (off / BSIZE) _ Hf1 Hbn Hne Hd Hlog) by done.
    rewrite <- (bmapped_bytes ip _ R s r s1 o Hf Hbn B Ho).
    destruct (decide (o / BSIZE = off / BSIZE)) as [E|E].
    2:{ rewrite decide_False; [done|]. intros Hin. by apply E, Hsame. }
    pose proof (off_mod o) as Hoo.
    assert (o = off - off mod BSIZE + o mod BSIZE) as Eo.
    { change BSIZE with 512 in *. Z.div_mod_to_equations. lia. }
    assert (ml_byte s1 (icache s1 !!! ip) o = block_of s1 r !!! Z.to_nat (o mod BSIZE)) as Eb.
    { unfold ml_byte. rewrite E, El. by destruct (Z.eqb_spec r 0). }
    rewrite Eb. unfold d. rewrite !list_lookup_total_alt, splice_lookup by (rewrite Hlen; change BSIZE with 512 in *; lia).
    repeat case_decide; try lia; try done. do 2 f_equal. lia.
  - rewrite Ei. apply B.
  - intros b Hb. pose proof (mf_owned _ _ _ Hf) as Ho. pose proof (mf_owned _ _ _ Hf1) as Ho1.
    destruct (ml_lookup_leaf s1 _ R Ho1 _ Hbn Hne) as (_ & HnR & _).
    rewrite (block_of_insert _ _ _ _ _ (l_blk _ _ _ _ Hlog)), decide_False by (by intros <-).
    apply (m_blk _ _ _ _ (b_map _ _ _ _ _ _ B)).
    + eapply owned_in; [exact Ho|]. apply elem_of_app. by right.
    + unfold ml_idx. rewrite list_elem_of_bind. intros (j & Hj & Hjs). apply elem_of_seqZ in Hjs.
      destruct Ho as [Hn _]. apply NoDup_app in Hn as (_ & Hn & _). apply (Hn b); [|done].
      unfold ml_blocks. rewrite list_elem_of_bind. exists j. split; [by apply idx_in_tree|]. apply elem_of_seqZ. lia.
  - intros bn Hb Hbne. rewrite (store_lookup ip R s1 s2 (off / BSIZE) _ Hf1 Hbn Hne Hd Hlog) by done.
    destruct (decide (bn = off / BSIZE)) as [->|E]; [done|]. by rewrite (b_other _ _ _ _ _ _ B).
  - intros o Ho. rewrite (store_lookup ip R s1 s2 (off / BSIZE) _ Hf1 Hbn Hne Hd Hlog) by (apply off_block_range; lia).
    by rewrite Hsame.
  - intros Hh. rewrite Ei. rewrite (b_hit _ _ _ _ _ _ B); [done|]. apply Hh. lia.
Qed.

(** mapping and writing one block takes at most 8 slots of the transaction *)
Lemma block_growth ip bn R s r d s1 s2 n :
  geom s -> bmapped ip bn R s r s1 -> logged r d s1 s2 -> log_room s (8 + n) -> log_room s2 n.
Proof.
  intros Hg B Hlog. pose proof (b_map _ _ _ _ _ _ B) as M. destruct Hlog as [[S2 _ O2 _] _ _ L2].
  destruct (decide (ml_lookup s (icache s !!! ip) bn = 0)) as [E|E].
  - intros Hr. destruct (b_new _ _ _ _ _ _ B E) as (_ & _ & _ & Hin). rewrite (absorb_in _ _ Hin) in L2.
    apply (mapped_room _ _ _ _ _ M) in Hr as [H1 H2]. split; [by rewrite S2, L2 | by rewrite O2].
  - rewrite (b_hit _ _ _ _ _ _ B E) in *. intros [H1 H2]. split; [|by rewrite O2].
    rewrite S2, L2. pose proof (length_absorb r (lh s)). lia.
Qed.

Section ReadWrite.
Context `{DevSw}.

Lemma writei_loop_ok m fuel ip R off n tot src s (Q : Z -> fsys -> Prop) :
  ml_file s ip R -> 0 <= off -> 0 <= tot <= n -> off + (n - tot) <= FILE_LIMIT ->
  n - tot = Z.of_nat (length src) -> enough fuel off (n - tot) ->
  log_room s (8 * nblocks off (n - tot) + 1) -> avail s (4 * Z.to_nat (nblocks off (n - tot)) + m) ->
  (forall s', wrote ip R off src s s' -> log_room s' 1 -> avail s' m -> Q (off + (n - tot)) s') ->
  returns (writei_loop fuel ip src off n tot) s Q.
Proof.
  revert off tot src s Q. induction fuel as [|fuel IH]; intros off tot src s Q Hf Hoff Htot Hlim Hsrc Hfuel Hroom Hav HQ.
  { destruct Hfuel. lia. }
  cbn [writei_loop]. destruct (Z.ltb_spec tot n) as [Hlt|Hge].
  2:{ step. replace off with (off + (n - tot)) by lia. destruct src; [|simpl in Hsrc; lia].
      assert (0 <= nblocks off (n - tot)) by (unfold nblocks; destruct (Z.leb_spec (n - tot) 0); lia).
      apply HQ; [by apply wrote_nil | |].
      - eapply log_room_weaken; [exact Hroom | lia].
      - eapply avail_le; [exact Hav | lia]. }
  pose proof (chunk_step off (n - tot) fuel ltac:(lia) ltac:(lia) Hfuel) as (Hm & Hmb & Hf').
  pose proof (nblocks_step off (n - tot) ltac:(lia) ltac:(lia)) as [Hnb Hnb1]. cbv zeta in Hnb.
  set (k := Z.min (n - tot) (BSIZE - off mod BSIZE)) in *.
  assert (Z.of_nat (length (slice src 0 k)) = k) as Hlx by (rewrite length_slice; lia).
  apply returns_bind, (bmap_ok (4 * Z.to_nat (nblocks off (n - tot) - 1) + m) ip (off / BSIZE) R); try apply Hf.
  { apply off_block_range. lia. }
  { eapply log_room_weaken; [exact Hroom | lia]. }
  { eapply avail_le; [exact Hav | lia]. }
  intros r s1 B Hav1. pose proof (b_map _ _ _ _ _ _ B) as M. unfold bread. step.
  assert (log_room s1 1) as Hr1 by (eapply (mapped_room _ 8 1); [exact M|]; eapply log_room_weaken; [exact Hroom | lia]).
  apply set_data_log_ok; [done|]. intros s2 Hlog.
  pose proof (wrote_block ip R off (slice src 0 k) s r s1 s2 Hf Hoff ltac:(lia) ltac:(lia) ltac:(lia) B Hlog) as W.
  rewrite <- Hlx in Hnb. replace (n - tot - Z.of_nat (length (slice src 0 k))) with (n - (tot + k)) in Hnb by lia.
  rewrite Hlx in Hnb.
  apply IH; try lia.
  - apply W.
  - rewrite length_drop. lia.
  - by replace (n - (tot + k)) with (n - tot - k) by lia.
  - rewrite Hnb. eapply block_growth; [apply Hf | exact B | exact Hlog |]. eapply log_room_weaken; [exact Hroom | lia].
  - rewrite Hnb. eapply avail_keep; [apply Hlog | | exact Hav1].
    intros c Hc. eapply (store_used ip R s1 s2 (off / BSIZE)); [by eapply bmapped_file | apply off_block_range; lia | | | | done].
    + rewrite (proj1 (b_look _ _ _ _ _ _ B)). apply B.
    + shelve.
    + rewrite (proj1 (b_look _ _ _ _ _ _ B)). exact Hlog.
  - intros s' W2 Hr2 Hav2. replace (off + k + (n - (tot + k))) with (off + (n - tot)) by lia. apply HQ; try done.
    assert (src = slice src 0 k ++ drop (Z.to_nat k) src) as Es.
    { unfold slice. by rewrite drop_0, take_drop. }
    rewrite Es. eapply wrote_app; [done | rewrite <- Es; lia | exact W|]. by rewrite Hlx.
Unshelve.
  rewrite length_splice; [apply (g_len _ (m_geom _ _ _ _ M)) | pose proof (off_mod off); lia |].
  rewrite (g_len _ (m_geom _ _ _ _ M)), Hlx. change BSIZE with 512 in *. lia.
Qed.
End ReadWrite.

(** storing in one of the other blocks *)
Section Home.
Context (ip : nat) (R : list Z) (s s' : fsys) (b : Z) (d : list Z).
Hypothesis Hfile : ml_file s ip R.
Hypothesis Hb : b ∈ R.
Hypothesis Hd : length d = Z.to_nat BSIZE.
Hypothesis Hlog : logged b d s s'.

Lemma home_other c : c <> b -> block_of s' c = block_of s c.
Proof using Hlog. intros Hc. by rewrite (block_of_insert _ _ _ _ _ (l_blk _ _ _ _ Hlog)), decide_False. Qed.

Lemma home_tree c : c ∈ ml_blocks s (icache s !!! ip) -> block_of s' c = block_of s c.
Proof using All.
  intros Hc. apply home_other. intros ->. pose proof (mf_owned _ _ _ Hfile) as [Hn _].
  apply NoDup_app in Hn as (_ & Hn & _). by apply (Hn b).
Qed.

Lemma home_idx k : 0 <= k < NADDRS -> forall c, c ∈ slot_idx s (icache s !!! ip) k -> block_of s' c = block_of s c.
Proof using All.
  intros Hk c Hc. apply home_tree. unfold ml_blocks. rewrite list_elem_of_bind. exists k.
  split; [by apply idx_in_tree|]. apply elem_of_seqZ. lia.
Qed.

Lemma home_lookup bn : 0 <= bn < MAXFILE -> ml_lookup s' (icache s !!! ip) bn = ml_lookup s (icache s !!! ip) bn.
Proof using All.
  intros Hbn. destruct (slot_path_ok bn Hbn) as (Hk & Hl & Hp). unfold ml_lookup.
  rewrite (surjective_pairing (slot_path bn)). by apply (idx_ext s s' _ _ (home_idx _ Hk)).
Qed.

Lemma home_bytes o : 0 <= o < FILE_LIMIT -> ml_byte s' (icache s !!! ip) o = ml_byte s (icache s !!! ip) o.
Proof using All.
  intros Ho. pose proof (off_block_range o Ho) as Hr. unfold ml_byte. rewrite home_lookup by done.
  destruct (Z.eqb_spec (ml_lookup s (icache s !!! ip) (o / BSIZE)) 0) as [E|E]; [done|]. f_equal. apply home_other.
  destruct (ml_lookup_leaf s _ R (mf_owned _ _ _ Hfile) _ Hr E) as (_ & Hn & _). by intros <-.
Qed.

Lemma home_file : ml_file s' ip R.
Proof using All.
  pose proof Hfile as [Hg Hs Hi Hf Ho]. pose proof (l_frame _ _ _ _ Hlog) as F.
  assert (data_block s b) as (_ & _ & Hnb) by (eapply owned_in; [exact Ho | apply elem_of_app; by right]).
  destruct (logged_data_geom b d s s' Hg Hnb Hd Hlog) as [Hg' Hu].
  assert (ml_blocks s' (icache s !!! ip) = ml_blocks s (icache s !!! ip)) as Eb.
  { unfold ml_blocks. apply Forall_bind_ext, Forall_forall. intros k Hk. apply elem_of_seqZ in Hk.
    by apply (idx_ext s s' _ _ (home_idx k ltac:(lia))). }
  split; rewrite ?(f_icache _ _ _ F); try done.
  - unfold small_disk. by rewrite (f_sb _ _ _ F).
  - rewrite Eb. eapply owned_mono; [apply F | | done]. intros c Hc. by rewrite Hu.
Qed.
End Home.

(** every byte below the size is in a mapped block *)
Definition dense (s : fsys) (ip : nat) : Prop :=
  i_size (icache s !!! ip) <= FILE_LIMIT /\
  forall o, 0 <= o < i_size (icache s !!! ip) -> ml_lookup s (icache s !!! ip) (o / BSIZE) <> 0.

(** the contents depend on the blocks and the addresses only *)
Lemma lookup_path_ext s s' a p : (forall b, block_of s' b = block_of s b) -> lookup_path s' a p = lookup_path s a p.
Proof. intros H. revert a. induction p as [|k p IH]; intros a; simpl; [done|]. by rewrite H, IH. Qed.

Lemma ml_view_ext s s' i i' : (forall b, block_of s' b = block_of s b) -> i_addrs i' = i_addrs i ->
  (forall bn, ml_lookup s' i' bn = ml_lookup s i bn) /\ (forall o, ml_byte s' i' o = ml_byte s i o).
Proof.
  intros Hb Ha.
  assert (forall bn, ml_lookup s' i' bn = ml_lookup s i bn) as El.
  { intros bn. unfold ml_lookup. rewrite Ha. destruct (slot_path bn). by apply lookup_path_ext. }
  split; [done|]. intros o. unfold ml_byte. by rewrite El, Hb.
Qed.

(** [ip->size = z; iupdate(ip)] *)
Lemma ml_size_update_ok ip R z s (Q : unit -> fsys -> Prop) :
  ml_file s ip R -> uint_ok z -> 0 <= i_inum (icache s !!! ip) ->
  IBLOCK (i_inum (icache s !!! ip)) (sb s) ∈ R -> log_room s 1 ->
  (forall s', ml_file s' ip R -> icache s' !!! ip = with_size z (icache s !!! ip) ->
     icache s' = alter (with_size z) ip (icache s) -> sb s' = sb s ->
     (forall o, 0 <= o < FILE_LIMIT -> ml_byte s' (icache s' !!! ip) o = ml_byte s (icache s !!! ip) o) ->
     (forall bn, 0 <= bn < MAXFILE -> ml_lookup s' (icache s' !!! ip) bn = ml_lookup s (icache s !!! ip) bn) ->
     synced s' ip -> (forall b, b <> IBLOCK (i_inum (icache s !!! ip)) (sb s) -> block_of s' b = block_of s b) -> Q tt s') ->
  returns (upd_inode ip (with_size z) ;; iupdate ip) s Q.
Proof.
  intros Hfile Hz H0 HR Hr HQ. unfold upd_inode. step.
  set (s2 := set_icache (alter (with_size z) ip) s).
  assert (icache s2 !!! ip = with_size z (icache s !!! ip)) as E2 by (apply upd_inode_at, Hfile).
  assert (ml_file s2 ip R) as Hfile2.
  { destruct Hfile as [A B C D E]. split; rewrite ?E2; try done.
    - by apply geom_set_icache.
    - simpl. by rewrite length_alter.
    - destruct D. by split. }
  apply iupdate_synced; rewrite ?E2; try done; [apply (g_len _ (mf_geom _ _ _ Hfile2)) | by rewrite <- E2; apply Hfile2 |].
  cbn [with_size i_inum]. intros s3 d Hlog Hd Hsync _.
  pose proof (f_icache _ _ _ (l_frame _ _ _ _ Hlog)) as I3.
  apply HQ; rewrite ?I3, ?E2; try done.
  - by eapply (home_file ip R s2 s3).
  - apply (f_sb _ _ _ (l_frame _ _ _ _ Hlog)).
  - intros o Ho. rewrite <- E2, (home_bytes ip R s2 s3 _ d Hfile2 HR Hd Hlog o Ho), E2. by apply ml_view_ext.
  - intros bn Hbn. rewrite <- E2, (home_lookup ip R s2 s3 _ d Hfile2 HR Hd Hlog bn Hbn), E2. by apply ml_view_ext.
  - unfold synced. rewrite I3, E2. exact Hsync.
  - intros b Hb. by rewrite (home_other s2 s3 _ d Hlog).
Qed.

(** ** Reading *)

(** the [m] bytes from [off] *)
Definition bytes_from (f : Z -> Z) (off m : Z) : list Z := (fun k => f (off + k)) <$> seqZ 0 m.

Lemma bytes_from_app f off a b : 0 <= a -> 0 <= b ->
  bytes_from f off (a + b) = bytes_from f off a ++ bytes_from f (off + a) b.
Proof.
  intros Ha Hb. unfold bytes_from. rewrite seqZ_app, fmap_app, Z.add_0_l by lia. f_equal.
  apply list_eq. intros k. rewrite !list_lookup_fmap. destruct (decide (k < Z.to_nat b)%nat).
  - rewrite !lookup_seqZ_lt by lia. simpl. do 2 f_equal. lia.
  - by rewrite !lookup_seqZ_ge by lia.
Qed.

Lemma descend_hit a p s : lookup_path s a p <> 0 -> descend a p s = Ok (lookup_path s a p, s).
Proof.
  revert a. induction p as [|k p IH]; intros a Hne; cbn [lookup_path descend] in *;
    destruct (Z.eqb_spec a 0) as [E|Ha]; try done.
  assert (word (block_of s a) k <> 0) as Hw by (intros E; by rewrite E, lookup_path_zero in Hne).
  unfold mbind, M_bind. rewrite entry_or_balloc_hit by done. by apply IH.
Qed.

(** a mapped block is found without any change *)
Lemma bmap_hit ip bn s : 0 <= bn < MAXFILE -> ml_lookup s (icache s !!! ip) bn <> 0 ->
  bmap ip bn s = Ok (ml_lookup s (icache s !!! ip) bn, s).
Proof.
  intros Hbn Hne. rewrite bmap_descend by done. unfold ml_lookup in *. destruct (slot_path bn) as [k p]. cbn [fst snd].
  unfold addr_or_balloc, inode_at, gets, mbind at 1 2, M_bind, mret, M_ret. cbv zeta.
  destruct (Z.eqb_spec (i_addrs (icache s !!! ip) !!! Z.to_nat k) 0) as [E|E].
  - by rewrite E, lookup_path_zero in Hne.
  - by apply descend_hit.
Qed.

Lemma block_bytes s i off m :
  0 <= off -> 0 <= m -> off mod BSIZE + m <= BSIZE -> ml_lookup s i (off / BSIZE) <> 0 ->
  length (block_of s (ml_lookup s i (off / BSIZE))) = Z.to_nat BSIZE ->
  slice (block_of s (ml_lookup s i (off / BSIZE))) (off mod BSIZE) m = bytes_from (ml_byte s i) off m.
Proof.
  intros H0 Hm Hle Hne Hlen. pose proof (off_mod off). apply list_eq. intros k. unfold slice, bytes_from.
  rewrite list_lookup_fmap. destruct (decide (k < Z.to_nat m)%nat) as [Hk|Hk].
  - rewrite lookup_take_lt, lookup_drop, lookup_seqZ_lt by lia. simpl. unfold ml_byte.
    assert ((off + (0 + Z.of_nat k)) / BSIZE = off / BSIZE) as ->.
    { change BSIZE with 512 in *. Z.div_mod_to_equations. lia. }
    assert ((off + (0 + Z.of_nat k)) mod BSIZE = off mod BSIZE + Z.of_nat k) as ->.
    { change BSIZE with 512 in *. Z.div_mod_to_equations. lia. }
    destruct (Z.eqb_spec (ml_lookup s i (off / BSIZE)) 0); [done|].
    rewrite Z2Nat.inj_add, Nat2Z.id by lia. apply list_lookup_lookup_total_lt.
    rewrite Hlen. change BSIZE with 512 in *. lia.
  - rewrite lookup_take_ge by lia. by rewrite lookup_seqZ_ge by lia.
Qed.

Section Reading.
Context `{DevSw}.

Lemma readi_loop_ok fuel ip R off n tot dst s :
  ml_file s ip R -> dense s ip -> 0 <= off -> 0 <= tot <= n -> n < 2 ^ 31 ->
  off + (n - tot) <= i_size (icache s !!! ip) -> enough fuel off (n - tot) ->
  readi_loop fuel ip off n tot dst s =
    Ok ((n, dst ++ bytes_from (ml_byte s (icache s !!! ip)) off (n - tot)), s).
Proof.
  intros Hf [HL Hd]. revert off tot dst. induction fuel as [|fuel IH]; intros off tot dst Hoff Htot Hn Hend Hfuel.
  { destruct Hfuel. lia. }
  cbn [readi_loop]. destruct (Z.ltb_spec tot n) as [Hlt|Hge].
  - pose proof (chunk_step off (n - tot) fuel Hoff ltac:(lia) Hfuel) as (Hm & Hmb & Hf').
    set (m := Z.min (n - tot) (BSIZE - off mod BSIZE)) in *.
    assert (0 <= off / BSIZE < MAXFILE) as Hbn by (apply off_block_range; lia).
    pose proof (Hd off ltac:(lia)) as Hne.
    unfold mbind at 1, M_bind. rewrite bmap_hit by done.
    unfold bread, brelse, gets, mbind, M_bind, mret, M_ret. cbv zeta.
    rewrite IH; try lia; [|by replace (n - (tot + m)) with (n - tot - m) by lia].
    rewrite block_bytes by (done || lia || apply (g_len _ (mf_geom _ _ _ Hf))).
    rewrite <- (assoc_L (++)), <- bytes_from_app by lia. do 5 f_equal. lia.
  - assert (n - tot = 0) as -> by lia. unfold mret, M_ret, bytes_from. simpl. rewrite app_nil_r.
    by rewrite i32_small by lia.
Qed.

Lemma ml_readi_ok ip R off n s :
  let i := icache s !!! ip in
  ml_file s ip R -> dense s ip -> i_type i <> T_DEV -> 0 <= off < 2 ^ 32 -> 0 <= n < 2 ^ 32 ->
  readi ip off n s =
    Ok (if (i_size i <? off) || (2 ^ 32 <=? off + n) then (-1, [])
        else let n' := Z.min n (i_size i - off) in (n', bytes_from (ml_byte s i) off n'), s).
Proof.
  intros i Hf Hd Hty Hoff Hn. pose proof Hd as [HL _]. fold i in HL.
  assert (FILE_LIMIT = 1090784256) as HFL by reflexivity.
  unfold readi, inode_at, gets. unfold mbind at 1, M_bind. fold i.
  destruct (Z.eqb_spec (i_type i) T_DEV); [done|].
  destruct (Z.ltb_spec (i_size i) off) as [Hso|Hso]; cbn [orb]; [done|].
  destruct (Z.leb_spec (2 ^ 32) (off + n)) as [Hov|Hov].
  { rewrite u32_wrap by lia. by destruct (Z.ltb_spec (off + n - 2 ^ 32) off); [|lia]. }
  rewrite u32_small by lia. destruct (Z.ltb_spec (off + n) off); [lia|].
  assert ((if i_size i <? off + n then i_size i - off else n) = Z.min n (i_size i - off)) as E.
  { destruct (Z.ltb_spec (i_size i) (off + n)); lia. }
  cbv zeta. rewrite E. rewrite (readi_loop_ok _ ip R) by (done || fold i; lia || rewrite Z.sub_0_r; apply fuel_enough; lia).
  by rewrite Z.sub_0_r.
Qed.

(** [readi] on a multilevel file returns exactly the bytes of the file in
    the requested range, cut at the end of the file, and -1 for a start past
    the end or a range that wraps around 2^32; it changes nothing and its loop
    ends. *)
Theorem readi_ml_correct ip R off n s :
  let i := icache s !!! ip in
  ml_file s ip R -> dense s ip -> i_type i <> T_DEV -> 0 <= off < 2 ^ 32 -> 0 <= n < 2 ^ 32 ->
  readi ip off n s =
    Ok (if (i_size i <? off) || (2 ^ 32 <=? off + n) then (-1, [])
        else let n' := Z.min n (i_size i - off) in (n', bytes_from (ml_byte s i) off n'), s).
Proof. apply ml_readi_ok. Qed.
End Reading.

Section Theorems.
Context `{DevSw}.

Lemma ml_writei_ok ip R src off s :
  let i := icache s !!! ip in
  let n := Z.of_nat (length src) in
  ml_file s ip R -> i_type i <> T_DEV -> 0 <= i_inum i -> IBLOCK (i_inum i) (sb s) ∈ R ->
  synced s ip -> dense s ip -> 0 <= off < 2 ^ 32 -> n < 2 ^ 32 ->
  log_room s (8 * nblocks off n + 1) -> avail s (4 * Z.to_nat (nblocks off n)) ->
  returns (writei ip src off n) s (fun r s' =>
    if (i_size i <? off) || (2 ^ 32 <=? off + n) || (FILE_LIMIT <? off + n) then r = -1 /\ s' = s
    else r = n /\ ml_file s' ip R /\ i_size (icache s' !!! ip) = Z.max (i_size i) (off + n) /\
      (forall o, 0 <= o < FILE_LIMIT -> ml_byte s' (icache s' !!! ip) o =
         if decide (off <= o < off + n) then src !!! Z.to_nat (o - off) else ml_byte s i o) /\
      dense s' ip /\ synced s' ip /\
      (forall b, b ∈ R -> b <> IBLOCK (i_inum i) (sb s) -> block_of s' b = block_of s b) /\
      sb s' = sb s /\ (exists a z, icache s' = alter (fun j => with_size z (with_addrs a j)) ip (icache s))).
Proof.
  intros i n Hf Hty H0 HR Hsync Hdense Hoff Hn Hroom Hav. unfold writei, inode_at. step. fold i.
  destruct (Z.eqb_spec (i_type i) T_DEV); [done|].
  destruct (Z.ltb_spec (i_size i) off) as [Hso|Hso]; cbn [orb]; [by step|].
  destruct (Z.leb_spec (2 ^ 32) (off + n)) as [Hov|Hov]; cbn [orb].
  { rewrite u32_wrap by lia. destruct (Z.ltb_spec (off + n - 2 ^ 32) off); [|lia]. by step. }
  rewrite u32_small by lia. destruct (Z.ltb_spec (off + n) off); [lia|].
  change (u32 (MAXFILE * BSIZE)) with FILE_LIMIT.
  destruct (Z.ltb_spec FILE_LIMIT (off + n)) as [Hl|Hl]; [by step|].
  apply returns_bind, (writei_loop_ok 0 _ ip R); try done; try lia; rewrite ?Z.sub_0_r; try done.
  { apply fuel_enough. lia. }
  { eapply avail_le; [exact Hav | lia]. }
  intros s1 W Hr1 _. step. destruct (w_inode _ _ _ _ _ _ W) as [a Ei].
  assert (icache s1 !!! ip = with_addrs a i) as E1 by (rewrite Ei; apply (upd_inode_at (with_addrs a)), Hf).
  assert (forall z, i_size (with_addrs a z) = i_size z) as Es by done. rewrite E1, Es.
  assert (0 <= i_size i) as Hsz by apply (fo_size _ (mf_fields _ _ _ Hf)).
  destruct Hdense as [HszL Hdense]. fold i in HszL. assert (FILE_LIMIT = 1090784256) as HFL by reflexivity.
  assert (i32 n = n) as En by (apply i32_small; lia).
  assert (forall o, 0 <= o < Z.max (i_size i) (off + n) -> o < FILE_LIMIT -> ml_lookup s1 (icache s1 !!! ip) (o / BSIZE) <> 0) as Hd1.
  { intros o Ho HoL. destruct (Z_lt_le_dec o (i_size i)).
    - apply (w_keep _ _ _ _ _ _ W); [by apply off_block_range; lia | apply Hdense; fold i; lia].
    - apply (w_map _ _ _ _ _ _ W). lia. }
  pose proof (w_bytes _ _ _ _ _ _ W) as HB. fold n in HB.
  destruct ((0 <? n) && (i_size i <? off + n)) eqn:Egrow.
  - apply andb_true_iff in Egrow as [_ Hg]. apply Z.ltb_lt in Hg. apply returns_bind.
    apply (ml_size_update_ok ip R); try (rewrite ?E1; done); [apply W | unfold uint_ok; lia | by rewrite E1, (w_sb _ _ _ _ _ _ W) |].
    intros s2 F2 I2 A2 Z2 B2 L2 S2 K2. step. split_and!; try done.
    + rewrite I2. cbn [with_size i_size]. lia.
    + intros o Ho. by rewrite B2, HB.
    + assert (i_size (icache s2 !!! ip) = off + n) as Ez by (by rewrite I2).
      unfold dense. rewrite Ez. split; [lia|]. intros o Ho.
      rewrite L2 by (apply off_block_range; lia). apply Hd1; lia.
    + intros b Hb Hne. rewrite K2 by (by rewrite E1, (w_sb _ _ _ _ _ _ W)). by apply (w_R _ _ _ _ _ _ W).
    + by rewrite Z2, (w_sb _ _ _ _ _ _ W).
    + exists a, (off + n). by rewrite A2, Ei, list_alter_alter_eq.
  - step. step. assert (n = 0 \/ off + n <= i_size i) as Hcase.
    { apply andb_false_iff in Egrow as [Hg|Hg]; [left | right]; [apply Z.ltb_ge in Hg | apply Z.ltb_ge in Hg]; lia. }
    assert (icache s1 = icache s) as Esame.
    { apply (w_hit _ _ _ _ _ _ W). intros o Ho. apply Hdense. fold i. fold n in Ho. lia. }
    split_and!; try done; [apply W | rewrite Esame; fold i; lia | | | | |].
    + assert (i_size (icache s1 !!! ip) = i_size i) as Ez by (by rewrite Esame).
      unfold dense. rewrite Ez. split; [done|]. intros o Ho. apply Hd1; lia.
    + unfold synced, disk_inode in *. rewrite Esame, (w_sb _ _ _ _ _ _ W), (w_R _ _ _ _ _ _ W) by done. exact Hsync.
    + intros b Hb _. by apply (w_R _ _ _ _ _ _ W).
    + apply (w_sb _ _ _ _ _ _ W).
    + exists a, (i_size i). rewrite Ei. apply list_alter_ext; [|done]. intros j Hj.
      replace i with j by (symmetry; by apply list_lookup_total_correct). by destruct j.
Qed.

(** C16: [writei] on a multilevel file.  Below the limits every byte of the
    range becomes the written one and every other byte of the file is as
    before, the size is the larger of the old one and the end of the range, the
    inode on disk agrees with the cached one, no other block in use and no other
    entry of the cache changes, and the loop ends; a start past the end, a range that wraps around 2^32 and a
    range past the largest file give -1 and no change.  It needs 8 slots of the
    transaction and at most 4 free blocks per block of the range. *)
Theorem writei_ml_correct ip R src off s :
  let i := icache s !!! ip in
  let n := Z.of_nat (length src) in
  ml_file s ip R -> i_type i <> T_DEV -> 0 <= i_inum i -> IBLOCK (i_inum i) (sb s) ∈ R ->
  synced s ip -> dense s ip -> 0 <= off < 2 ^ 32 -> n < 2 ^ 32 ->
  log_room s (8 * nblocks off n + 1) -> avail s (4 * Z.to_nat (nblocks off n)) ->
  returns (writei ip src off n) s (fun r s' =>
    if (i_size i <? off) || (2 ^ 32 <=? off + n) || (FILE_LIMIT <? off + n) then r = -1 /\ s' = s
    else r = n /\ ml_file s' ip R /\ i_size (icache s' !!! ip) = Z.max (i_size i) (off + n) /\
      (forall o, 0 <= o < FILE_LIMIT -> ml_byte s' (icache s' !!! ip) o =
         if decide (off <= o < off + n) then src !!! Z.to_nat (o - off) else ml_byte s i o) /\
      dense s' ip /\ synced s' ip /\
      (forall b, b ∈ R -> b <> IBLOCK (i_inum i) (sb s) -> block_of s' b = block_of s b) /\
      sb s' = sb s /\ (exists a z, icache s' = alter (fun j => with_size z (with_addrs a j)) ip (icache s))).
Proof. apply ml_writei_ok. Qed.
End Theorems.

(** a file of one block, on disk as in the cache *)
Definition demo_one : inode := mkinode 1 1 1 true true T_FILE 0 0 1 512 (4 :: replicate 12 0).
Definition demo_one_fs : fsys :=
  set_blk (fun m => <[2 := splice zero_block 64 (dinode_bytes demo_one)]> m) (demo_fs [demo_one]).

Lemma demo_one_block b :
  block_of demo_one_fs b = if decide (2 = b) then splice zero_block 64 (dinode_bytes demo_one) else block_of (demo_fs []) b.
Proof. by apply (block_of_insert (demo_fs []) demo_one_fs). Qed.

Lemma demo_one_used c : 0 <= c < 40 -> used demo_one_fs c = used (demo_fs []) c.
Proof.
  intros Hc. unfold used. rewrite demo_one_block. change (sb demo_one_fs) with demo_sb.
  change (sb (demo_fs [])) with demo_sb. by rewrite demo_bblock.
Qed.

Lemma demo_one_fields : bool_decide (fields_ok demo_one).
Proof. vm_compute. exact I. Qed.

Lemma demo_one_file : ml_file demo_one_fs 0 [2].
Proof.
  pose proof (demo_geom []) as [G1 G2 G3 G4 G5]. split.
  - split; try done.
    + intros b. rewrite demo_one_block. case_decide; [reflexivity | apply G2].
    + intros b Hb. rewrite demo_one_used by (by apply G4). by apply G5.
  - vm_compute. congruence.
  - vm_compute. lia.
  - apply (bool_decide_unpack _ demo_one_fields).
  - assert (ml_blocks demo_one_fs (icache demo_one_fs !!! 0%nat) = [4]) as -> by (vm_compute; reflexivity).
    split; [apply (bool_decide_unpack _); vm_compute; exact I|].
    repeat constructor; try (simpl; lia); try (intros c Hc; change (sb demo_one_fs) with demo_sb; by rewrite demo_bblock);
      by rewrite demo_one_used by lia.
Qed.

Lemma demo_one_dense : dense demo_one_fs 0.
Proof.
  split; [vm_compute; congruence|]. change (i_size (icache demo_one_fs !!! 0%nat)) with 512. intros o Ho.
  assert (o / BSIZE = 0) as -> by (change BSIZE with 512; Z.div_mod_to_equations; lia). vm_compute. congruence.
Qed.

Lemma readi_ml_correct_witness :
  readi (H := no_devs) 0 510 7 demo_one_fs = Ok ((2, [0; 0]), demo_one_fs).
Proof.
  rewrite (readi_ml_correct (H := no_devs) 0 [2] 510 7 demo_one_fs demo_one_file demo_one_dense);
    [reflexivity | vm_compute; congruence | lia | lia].
Defined.

Lemma writei_ml_correct_witness :
  returns (writei (H := no_devs) 0 [104; 105] 511 2) demo_one_fs (fun r s' =>
    r = 2 /\ i_size (icache s' !!! 0%nat) = 513 /\ ml_byte s' (icache s' !!! 0%nat) 510 = 0 /\
    ml_byte s' (icache s' !!! 0%nat) 511 = 104 /\ ml_byte s' (icache s' !!! 0%nat) 512 = 105 /\ synced s' 0).
Proof.
  eapply returns_mono.
  - apply (writei_ml_correct (H := no_devs) 0 [2] [104; 105] 511 demo_one_fs).
    + exact demo_one_file.
    + vm_compute. congruence.
    + vm_compute. congruence.
    + change (IBLOCK _ _) with 2. apply elem_of_cons. by left.
    + intros j. vm_compute. reflexivity.
    + exact demo_one_dense.
    + lia.
    + simpl. lia.
    + split; [|done]. vm_compute. congruence.
    + exists [8; 9; 10; 11; 12; 13; 14; 15]. split_and!; [done | apply (bool_decide_unpack _); vm_compute; exact I |].
      repeat constructor; try (simpl; lia); by rewrite demo_one_used by lia.
  - cbv beta zeta. change (i_size (icache demo_one_fs !!! 0%nat)) with 512. cbn [length Z.of_nat].
    intros r s' (Hr & _ & Hsz & Hb & _ & Hs & _). split; [exact Hr|]. split; [exact Hsz|].
    assert (FILE_LIMIT = 1090784256) as HL by reflexivity.
    rewrite !Hb by lia. split; [vm_compute; reflexivity|]. split; [reflexivity|]. split; [reflexivity | exact Hs].
Defined.
