(* ===== verification/CStr.v ===== *)
(** * C strings and byte lists

    Strings as the C programs see them: lists of bytes, a string being the
    bytes before the first NUL.  [strcmp] and the decimal output of [printf] of
    the C library, as the programs use them. *)

From S2P Require Import Prelude.

(** the bytes of a literal *)
Definition str (s : string) : list Z :=
  (fun c => Z.of_N (Ascii.N_of_ascii c)) <$> String.list_ascii_of_string s.

(** the string stored at the start of [l] *)
Fixpoint cstr (l : list Z) : list Z :=
  match l with
  | [] => []
  | c :: l' => if c =? 0 then [] else c :: cstr l'
  end.

(** [strcmp], as the sign of the difference of the first bytes that differ *)
Fixpoint strcmp (a b : list Z) : Z :=
  match a, b with
  | [], [] => 0
  | [], _ :: _ => -1
  | _ :: _, [] => 1
  | x :: a', y :: b' => if x =? y then strcmp a' b' else x - y
  end.

Definition streq (a b : list Z) : bool := strcmp a b =? 0.

Definition isspace (c : Z) : bool := (c =? 32) || ((9 <=? c) && (c <=? 13)).
Definition isdigit (c : Z) : bool := (48 <=? c) && (c <=? 57).

(** decimal digits, most significant first *)
Fixpoint dec_digits (fuel : nat) (n : Z) (acc : list Z) : list Z :=
  match fuel with
  | O => acc
  | S f => if n <? 10 then (48 + n) :: acc else dec_digits f (n / 10) ((48 + n mod 10) :: acc)
  end.
(** [printf] with [PRIu64] *)
Definition dec (n : Z) : list Z := dec_digits 20 n [].

Definition nonul (l : list Z) : Prop := Forall (fun c => c <> 0) l.

Lemma cstr_nonul l : nonul (cstr l).
Proof. induction l as [|c l IH]; simpl; [constructor|]. destruct (Z.eqb_spec c 0); by constructor. Qed.

Lemma cstr_app l r : nonul l -> cstr (l ++ 0 :: r) = l.
Proof. induction 1 as [|c l Hc _ IH]; simpl; [done|]. destruct (Z.eqb_spec c 0); [done|]. by rewrite IH. Qed.

Lemma cstr_id l : nonul l -> cstr l = l.
Proof. induction 1 as [|c l Hc _ IH]; simpl; [done|]. destruct (Z.eqb_spec c 0); [done|]. by rewrite IH. Qed.

Lemma cstr_length l : (length (cstr l) <= length l)%nat.
Proof. induction l as [|c l IH]; simpl; [done|]. destruct (c =? 0); simpl; lia. Qed.

Lemma strcmp_eq a b : strcmp a b = 0 <-> a = b.
Proof.
  revert b. induction a as [|x a IH]; intros [|y b]; simpl; try (split; [lia | done]); [done|].
  destruct (Z.eqb_spec x y) as [->|Hne].
  - rewrite IH. split; [by intros -> | by intros [=]].
  - split; [lia | intros [=]; lia].
Qed.

Lemma streq_spec a b : reflect (a = b) (streq a b).
Proof.
  unfold streq. destruct (Z.eqb_spec (strcmp a b) 0) as [E|E].
  - constructor. by apply strcmp_eq.
  - constructor. intros H. by apply E, strcmp_eq.
Qed.

Lemma strcmp_antisym a b : Z.sgn (strcmp a b) = - Z.sgn (strcmp b a).
Proof.
  revert b. induction a as [|x a IH]; intros [|y b]; simpl; try done.
  rewrite (Z.eqb_sym y x). destruct (Z.eqb_spec x y); [apply IH | lia].
Qed.

Lemma strcmp_total a b : strcmp a b <= 0 \/ strcmp b a <= 0.
Proof. pose proof (strcmp_antisym a b). lia. Qed.

Lemma strcmp_trans a b c : strcmp a b <= 0 -> strcmp b c <= 0 -> strcmp a c <= 0.
Proof.
  revert b c. induction a as [|x a IH]; intros [|y b] [|z c]; simpl; try lia.
  destruct (Z.eqb_spec x y), (Z.eqb_spec y z), (Z.eqb_spec x z); subst; try lia. apply IH.
Qed.

(** the order of names *)
Definition str_le (a b : list Z) : Prop := strcmp a b <= 0.
#[export] Instance str_le_dec a b : Decision (str_le a b).
Proof. unfold str_le. apply _. Defined.
#[export] Instance str_le_trans : Transitive str_le.
Proof. intros a b c. apply strcmp_trans. Qed.
#[export] Instance str_le_total : Total str_le.
Proof. intros a b. apply strcmp_total. Qed.
