(* ===== verification/Print.v ===== *)
(** * Formatted output

    [printint] and [cprintf] of the kernels' [console.c], and [printint],
    [printf] and [atoi] of their user library ([printf.c], [ulib.c]).  Output is
    the list of bytes given to [consputc] or [putc]; a format is the list of its
    bytes before the NUL. *)

From S2P Require Import Prelude CStr.

(** what [*argp++] finds: a word, or a pointer to a string, [None] for a null
    one *)
Inductive arg : Type :=
| AWord (w : Z)
| AStr (s : option (list Z)).

Definition lower_digits : list Z := str "0123456789abcdef".
Definition upper_digits : list Z := str "0123456789ABCDEF".

(** the [do ... while] loop that fills [buf]; [x] is a [uint] *)
Fixpoint fill (fuel : nat) (digits : list Z) (x base : Z) : list Z :=
  match fuel with
  | O => []
  | S fuel' =>
      (digits !!! Z.to_nat (x mod base)) ::
      (if x / base =? 0 then [] else fill fuel' digits (x / base) base)
  end.

(** the final [buf[0..i)] of [printint]; it is printed backwards *)
Definition printint_buf (digits : list Z) (xx base : Z) (sign : bool) : list Z :=
  let neg := sign && (xx <? 0) in
  fill 32 digits (if neg then u32 (- xx) else u32 xx) base ++ (if neg then str "-" else []).
Definition printint (digits : list Z) (xx base : Z) (sign : bool) : list Z :=
  rev (printint_buf digits xx base sign).

(** one conversion of [cprintf] or [printf]: its output and the arguments left;
    [None] when the argument is not there or not of that kind *)
Definition convert (digits : list Z) (c : Z) (ap : list arg) : option (list Z * list arg) :=
  match ap with
  | AWord w :: ap' =>
      if c =? 100 then Some (printint digits (i32 w) 10 true, ap')
      else Some (printint digits (i32 w) 16 false, ap')
  | _ => None
  end.
Definition convert_string (ap : list arg) : option (list Z * list arg) :=
  match ap with
  | AStr s :: ap' => Some (default (str "(null)") s, ap')
  | _ => None
  end.

(** [cprintf]: a conversion looks one character ahead *)
Fixpoint cprintf (fmt : list Z) (ap : list arg) : option (list Z) :=
  match fmt with
  | [] => Some []
  | c :: fmt' =>
      if negb (c =? 37) then cons c <$> cprintf fmt' ap
      else match fmt' with
           | [] => Some []
           | c :: fmt'' =>
               if c =? 100 then '(o, ap) ← convert lower_digits c ap; app o <$> cprintf fmt'' ap
               else if (c =? 120) || (c =? 112) then '(o, ap) ← convert lower_digits c ap; app o <$> cprintf fmt'' ap
               else if c =? 115 then '(o, ap) ← convert_string ap; app o <$> cprintf fmt'' ap
               else if c =? 37 then cons 37 <$> cprintf fmt'' ap
               else (fun o => 37 :: c :: o) <$> cprintf fmt'' ap
           end
  end.

(** [printf]: [state] says that a [%] came before *)
Fixpoint printf (state : bool) (fmt : list Z) (ap : list arg) : option (list Z) :=
  match fmt with
  | [] => Some []
  | c :: fmt' =>
      if negb state then
        if c =? 37 then printf true fmt' ap else cons c <$> printf false fmt' ap
      else if c =? 100 then '(o, ap) ← convert upper_digits c ap; app o <$> printf false fmt' ap
      else if (c =? 120) || (c =? 112) then '(o, ap) ← convert upper_digits c ap; app o <$> printf false fmt' ap
      else if c =? 115 then '(o, ap) ← convert_string ap; app o <$> printf false fmt' ap
      else if c =? 99 then
        match ap with
        | AWord w :: ap => cons (w mod 256) <$> printf false fmt' ap
        | _ => None
        end
      else if c =? 37 then cons c <$> printf false fmt' ap
      else (fun o => 37 :: c :: o) <$> printf false fmt' ap
  end.

(** [atoi]; [n] is an [int] *)
Fixpoint atoi_loop (s : list Z) (n : Z) : Z :=
  match s with
  | c :: s' => if (48 <=? c) && (c <=? 57) then atoi_loop s' (i32 (n * 10 + c - 48)) else n
  | [] => n
  end.
Definition atoi (s : list Z) : Z := atoi_loop s 0.

(** ** [printint] *)

Lemma fill_dec fuel digits x acc : 0 <= x < 10 ^ Z.of_nat fuel -> (0 < fuel)%nat ->
  (forall d, 0 <= d < 10 -> digits !!! Z.to_nat d = 48 + d) ->
  rev (fill fuel digits x 10) ++ acc = dec_digits fuel x acc.
Proof.
  revert x acc. induction fuel as [|fuel IH]; intros x acc Hx Hf Hd; [lia|]. cbn [fill dec_digits rev].
  pose proof (Z.mod_pos_bound x 10 ltac:(lia)). rewrite Hd by done. destruct (Z.ltb_spec x 10).
  - rewrite (Z.div_small x 10), (Z.mod_small x 10) by lia. done.
  - assert (0 < x / 10) by (apply Z.div_str_pos; lia). destruct (Z.eqb_spec (x / 10) 0); [lia|].
    rewrite <- (app_assoc (rev _)). apply IH; [|destruct fuel; [change (10 ^ _) with 10 in Hx; lia | lia]|done].
    rewrite Nat2Z.inj_succ, Z.pow_succ_r in Hx by lia. split; [lia|]. apply Z.div_lt_upper_bound; lia.
Qed.

Lemma fill_length fuel digits x base k : 1 < base -> 0 <= x < base ^ Z.of_nat k -> (0 < k)%nat ->
  (length (fill fuel digits x base) <= k)%nat.
Proof.
  intros Hb. revert x k. induction fuel as [|fuel IH]; intros x k Hx Hk; simpl; [lia|].
  destruct (Z.eqb_spec (x / base) 0) as [E|E]; simpl; [lia|]. destruct k as [|[|k]]; [lia | |].
  - change (Z.of_nat 1) with 1 in Hx. rewrite Z.pow_1_r in Hx. by rewrite Z.div_small in E.
  - assert (length (fill fuel digits (x / base) base) <= S k)%nat; [|lia]. apply IH; [|lia].
    rewrite (Nat2Z.inj_succ (S k)), Z.pow_succ_r in Hx by lia. split; [apply Z.div_pos; lia | apply Z.div_lt_upper_bound; lia].
Qed.

Lemma fill_more f1 f2 digits x base : 1 < base -> 0 <= x < base ^ Z.of_nat f1 -> (0 < f1 <= f2)%nat ->
  fill f1 digits x base = fill f2 digits x base.
Proof.
  intros Hb. revert x f2. induction f1 as [|f1 IH]; intros x [|f2] Hx Hf; try lia. cbn [fill]. f_equal.
  destruct (Z.eqb_spec (x / base) 0) as [E|E]; [done|]. rewrite Nat2Z.inj_succ, Z.pow_succ_r in Hx by lia.
  destruct f1 as [|f1]; [change (base ^ Z.of_nat 0) with 1 in Hx; rewrite Z.div_small in E by lia; done|].
  apply IH; [split; [apply Z.div_pos; lia | apply Z.div_lt_upper_bound; lia] | lia].
Qed.

Lemma printint_dec xx : - 2 ^ 31 <= xx < 2 ^ 31 ->
  printint lower_digits xx 10 true = (if xx <? 0 then str "-" else []) ++ dec (Z.abs xx).
Proof.
  intros Hx. unfold printint, printint_buf, dec. cbn [andb]. rewrite rev_app_distr.
  assert (forall x, 0 <= x <= 2 ^ 31 -> rev (fill 32 lower_digits x 10) = dec_digits 20 x []) as Hfill.
  { intros x Hr. rewrite <- (fill_more 20) by lia. rewrite <- fill_dec with (digits := lower_digits); [by rewrite app_nil_r | lia | lia |].
    intros d Hd. assert (d ∈ seqZ 0 10) as Hin by (apply elem_of_seqZ; lia). revert d Hin Hd.
    assert (Forall (fun d => lower_digits !!! Z.to_nat d = 48 + d) (seqZ 0 10)) as Hall by (repeat constructor).
    intros d Hin _. rewrite Forall_forall in Hall. by apply Hall. }
  destruct (Z.ltb_spec xx 0).
  - rewrite u32_small by lia. rewrite Z.abs_neq by lia. by rewrite Hfill by lia.
  - rewrite u32_small by lia. rewrite Z.abs_eq by lia. by rewrite Hfill by lia.
Qed.

Lemma atoi_digits fuel n acc v : (0 < fuel)%nat -> 0 <= n < 10 ^ Z.of_nat fuel -> 0 <= v ->
  exists k, 0 <= k /\
  (v * 10 ^ k + n < 2 ^ 31 -> atoi_loop (dec_digits fuel n acc) v = atoi_loop acc (v * 10 ^ k + n)).
Proof.
  revert n acc v. induction fuel as [|fuel IH]; intros n acc v Hf Hn Hv; [lia|]. cbn [dec_digits].
  destruct (Z.ltb_spec n 10).
  - exists 1. split; [lia|]. intros Hlt. cbn [atoi_loop]. destruct (Z.leb_spec 48 (48 + n)), (Z.leb_spec (48 + n) 57); try lia.
    cbn [andb]. rewrite Z.pow_1_r in *. rewrite i32_small by lia. f_equal. lia.
  - rewrite Nat2Z.inj_succ, Z.pow_succ_r in Hn by lia. pose proof (Z.mod_pos_bound n 10 ltac:(lia)). pose proof (Z.div_mod n 10 ltac:(lia)).
    destruct (IH (n / 10) ((48 + n mod 10) :: acc) v) as (k & Hk & E).
    { destruct fuel; [change (10 ^ _) with 1 in Hn; lia | lia]. }
    { split; [apply Z.div_pos; lia | apply Z.div_lt_upper_bound; lia]. }
    { done. }
    exists (k + 1). rewrite Z.pow_add_r, Z.pow_1_r by lia. split; [lia|]. intros Hlt.
    assert (0 < 10 ^ k) by (apply Z.pow_pos_nonneg; lia).
    rewrite E by nia. cbn [atoi_loop]. destruct (Z.leb_spec 48 (48 + n mod 10)), (Z.leb_spec (48 + n mod 10) 57); try lia.
    cbn [andb]. rewrite i32_small by nia. f_equal. nia.
Qed.

Lemma atoi_dec n : 0 <= n < 2 ^ 31 -> atoi (dec n) = n.
Proof.
  intros Hn. destruct (atoi_digits 20 n [] 0) as (k & _ & E); [lia | lia | lia |]. apply E. lia.
Qed.

(** [printint] prints the decimal numeral of every [int], the most negative
    one included, within its buffer of 16 bytes (and so the hexadecimal one), and
    [atoi] reads back what it prints. *)
Theorem printint_correct xx : - 2 ^ 31 <= xx < 2 ^ 31 ->
  printint lower_digits xx 10 true = (if xx <? 0 then str "-" else []) ++ dec (Z.abs xx) /\
  (length (printint_buf lower_digits xx 10 true) <= 16)%nat /\
  (length (printint_buf lower_digits xx 16 false) <= 16)%nat /\
  (0 <= xx -> atoi (printint lower_digits xx 10 true) = xx).
Proof.
  intros Hx. split; [by apply printint_dec|]. unfold printint_buf. rewrite !length_app.
  pose proof (u32_range xx). pose proof (u32_range (- xx)). split_and!.
  - assert (length (fill 32 lower_digits (if true && (xx <? 0)%Z then u32 (- xx) else u32 xx) 10) <= 10)%nat.
    { apply fill_length; [lia | destruct (_ && _); change (10 ^ Z.of_nat 10) with 10000000000; lia | lia]. }
    destruct (true && (xx <? 0)); [change (length (str "-")) with 1%nat | change (length (A := Z) []) with 0%nat]; lia.
  - cbn [andb length]. assert (length (fill 32 lower_digits (u32 xx) 16) <= 8)%nat; [|lia].
    apply fill_length; [lia | change (16 ^ Z.of_nat 8) with (2 ^ 32); lia | lia].
  - intros Hpos. rewrite printint_dec by done. destruct (Z.ltb_spec xx 0); [lia|]. rewrite Z.abs_eq by done. apply atoi_dec. lia.
Qed.

Lemma printint_correct_witness : printint lower_digits (-2147483648) 10 true = str "-2147483648".
Proof. destruct (printint_correct (-2147483648)) as [E _]; [lia|]. rewrite E. vm_compute. reflexivity. Defined.

(** ** The two printers *)

(** a format without [%c], [%x] and [%p]; [state] as in [printf] *)
Fixpoint common (state : bool) (fmt : list Z) : bool :=
  match fmt with
  | [] => true
  | c :: fmt' =>
      if state then negb ((c =? 99) || (c =? 120) || (c =? 112)) && common false fmt' else common (c =? 37) fmt'
  end.

Lemma fill_digits fuel x : fill fuel upper_digits x 10 = fill fuel lower_digits x 10.
Proof.
  revert x. induction fuel as [|fuel IH]; intros x; [done|]. cbn [fill]. rewrite IH.
  assert (upper_digits !!! Z.to_nat (x mod 10) = lower_digits !!! Z.to_nat (x mod 10)) as ->; [|done].
  pose proof (Z.mod_pos_bound x 10 ltac:(lia)) as Hd. revert Hd. generalize (x mod 10) as d. intros d Hd.
  assert (Forall (fun d => upper_digits !!! Z.to_nat d = lower_digits !!! Z.to_nat d) (seqZ 0 10)) as Hall by (repeat constructor).
  rewrite Forall_forall in Hall. apply Hall, elem_of_seqZ. lia.
Qed.

Lemma printint_digits xx : printint upper_digits xx 10 true = printint lower_digits xx 10 true.
Proof. unfold printint, printint_buf. by rewrite fill_digits. Qed.

(** the printer of the kernel and the one of its programs agree *)
Lemma printf_cprintf fmt ap : common false fmt = true -> printf false fmt ap = cprintf fmt ap.
Proof.
  revert ap. remember (length fmt) as n eqn:En. revert fmt En.
  induction (lt_wf n) as [n _ IH]. intros fmt -> ap Hc.
  destruct fmt as [|c fmt]; [done|]. cbn [printf cprintf common negb] in *.
  destruct (c =? 37) eqn:Ec; cbn [negb]; [|by rewrite (IH (length fmt)) by (simpl; lia || done)].
  destruct fmt as [|d fmt]; [done|]. cbn [printf common negb] in *.
  apply andb_true_iff in Hc as [Hd Hc]. rewrite !negb_orb in Hd. apply andb_true_iff in Hd as [Hd Hp]. apply andb_true_iff in Hd as [Hd Hxx].
  apply negb_true_iff in Hd, Hp, Hxx. rewrite Hd, Hp, Hxx. cbn [orb].
  assert (forall ap, printf false fmt ap = cprintf fmt ap) as E by (intros; eapply IH; [|done|done]; simpl; lia).
  destruct (Z.eqb_spec d 100) as [->|].
  { unfold convert. destruct ap as [|[w|s] ap]; [done| |done]. change (100 =? 100) with true. cbv iota.
    unfold mbind, option_bind. by rewrite E, printint_digits. }
  destruct (d =? 115) eqn:Es.
  { destruct ap as [|[w|s] ap]; [done..|]. simpl. by rewrite E. }
  destruct (Z.eqb_spec d 37) as [->|]; by rewrite E.
Qed.
