(* ===== verification/Dir.v ===== *)
(** * Directories and path names ([fs.c])

    [namecmp], [dirlookup], [dirlink], [skipelem], [namex], [namei] and
    [nameiparent], which are the same in both kernels.  What they ask of the
    layer below is the class [FileOps], the operations of a kernel on the
    contents of an inode; each kernel is an instance.

    A C string is the list of its bytes before the NUL; reading past the end of
    such a list gives the NUL.  [char name[DIRSIZ]] filled by [skipelem] is the
    string it holds, of at most [DIRSIZ] bytes. *)

From S2P Require Import Prelude CStr Blocks Inode.

Definition DIRSIZ : Z := 14.
Definition ROOTINO : Z := 1.
Definition ROOTDEV : Z := 1.
Definition SLASH : Z := 47.
(** [sizeof(struct dirent)] *)
Definition DIRENT_SIZE : Z := 2 + DIRSIZ.

Class FileOps : Type := {
  readi : nat -> Z -> Z -> M fsys (Z * list Z);
  writei : nat -> list Z -> Z -> Z -> M fsys Z;
  discard :: Truncate
}.

(** [struct dirent] *)
Record dirent : Type := mkdirent { de_inum : Z; de_name : list Z }.
Definition dirent_of (d : list Z) : dirent := mkdirent (le_val (take 2 d)) (drop 2 d).
Definition dirent_bytes (de : dirent) : list Z := le_bytes 2 (de_inum de) ++ de_name de.

(** [strncmp]; the bytes are compared as [uchar] *)
Fixpoint strncmp (n : nat) (p q : list Z) : Z :=
  match n with
  | O => 0
  | S n' =>
      let a := hd 0 p in
      let b := hd 0 q in
      if negb (a =? 0) && (a =? b) then strncmp n' (tail p) (tail q) else a - b
  end.

(** [strncpy]: the [n] bytes it stores *)
Fixpoint strncpy (n : nat) (t : list Z) : list Z :=
  match n with
  | O => []
  | S n' =>
      let c := hd 0 t in
      if c =? 0 then replicate (S n') 0 else c :: strncpy n' (tail t)
  end.

Definition namecmp (s t : list Z) : Z := strncmp (Z.to_nat DIRSIZ) s t.

(** ** Paths *)

Fixpoint skip_slashes (path : list Z) : list Z :=
  match path with
  | c :: path' => if c =? SLASH then skip_slashes path' else path
  | [] => []
  end.

(** the bytes up to the next slash, and the rest *)
Fixpoint take_elem (path : list Z) : list Z * list Z :=
  match path with
  | c :: path' =>
      if c =? SLASH then ([], path)
      else let '(e, r) := take_elem path' in (c :: e, r)
  | [] => ([], [])
  end.

(** [skipelem]: the rest of the path and the name *)
Definition skipelem (path : list Z) : option (list Z * list Z) :=
  match skip_slashes path with
  | [] => None
  | path =>
      let '(e, r) := take_elem path in
      let name := if DIRSIZ <=? Z.of_nat (length e) then take (Z.to_nat DIRSIZ) e else e in
      Some (skip_slashes r, name)
  end.

Section Dir.
Context `{FileOps}.

(** [readi(dp, &de, off, sizeof(de))], or a panic *)
Definition read_dirent (msg : string) (dp : nat) (off : Z) : M fsys dirent :=
  '(r, d) ← readi dp off DIRENT_SIZE;
  if negb (r =? DIRENT_SIZE) then panic msg else mret (dirent_of d).

(** the loop of [dirlookup]: the entry of the cache and its offset *)
Fixpoint dirlookup_loop (fuel : nat) (dp : nat) (name : list Z) (off : Z) : M fsys (option (nat * Z)) :=
  match fuel with
  | O => block
  | S fuel' =>
      i ← inode_at dp;
      if off <? i_size i then
        de ← read_dirent "dirlookup read" dp off;
        if de_inum de =? 0 then dirlookup_loop fuel' dp name (u32 (off + DIRENT_SIZE))
        else if namecmp name (de_name de) =? 0 then
          ip ← iget (i_dev i) (de_inum de); mret (Some (ip, off))
        else dirlookup_loop fuel' dp name (u32 (off + DIRENT_SIZE))
      else mret None
  end.

(** [dirlookup]; the second component is [*poff] *)
Definition dirlookup (dp : nat) (name : list Z) : M fsys (option (nat * Z)) :=
  i ← inode_at dp;
  if negb (i_type i =? T_DIR) then panic "dirlookup not DIR"
  else dirlookup_loop (S (Z.to_nat (i_size i / DIRENT_SIZE + 1))) dp name 0.

(** the search of [dirlink] for an empty entry *)
Fixpoint dirlink_slot (fuel : nat) (dp : nat) (off : Z) : M fsys Z :=
  match fuel with
  | O => block
  | S fuel' =>
      i ← inode_at dp;
      if off <? i_size i then
        de ← read_dirent "dirlink read" dp off;
        if de_inum de =? 0 then mret off else dirlink_slot fuel' dp (u32 (off + DIRENT_SIZE))
      else mret off
  end.

(** [dirlink] *)
Definition dirlink (dp : nat) (name : list Z) (inum : Z) : M fsys Z :=
  found ← dirlookup dp name;
  match found with
  | Some (ip, _) => iput ip ;; mret (-1)
  | None =>
      i ← inode_at dp;
      off ← dirlink_slot (S (Z.to_nat (i_size i / DIRENT_SIZE + 1))) dp 0;
      let de := mkdirent (u16 inum) (strncpy (Z.to_nat DIRSIZ) name) in
      r ← writei dp (dirent_bytes de) off DIRENT_SIZE;
      if negb (r =? DIRENT_SIZE) then panic "dirlink" else mret 0
  end.

(** the loop of [namex]; with [parent] the result comes with the last name *)
Fixpoint namex_loop (fuel : nat) (parent : bool) (path name : list Z) (ip : nat) : M fsys (option (nat * list Z)) :=
  match fuel with
  | O => block
  | S fuel' =>
      match skipelem path with
      | None => if parent then iput ip ;; mret None else mret (Some (ip, name))
      | Some (path', name') =>
          ilock ip ;;
          i ← inode_at ip;
          if negb (i_type i =? T_DIR) then iunlockput ip ;; mret None
          else if parent && bool_decide (path' = []) then iunlock ip ;; mret (Some (ip, name'))
          else
            found ← dirlookup ip name';
            match found with
            | None => iunlockput ip ;; mret None
            | Some (next, _) => iunlockput ip ;; namex_loop fuel' parent path' name' next
            end
      end
  end.

(** [namex]; [cwd] is the current directory of the process *)
Definition namex (cwd : nat) (path : list Z) (parent : bool) : M fsys (option (nat * list Z)) :=
  ip ← (if hd 0 path =? SLASH then iget ROOTDEV ROOTINO else idup cwd);
  namex_loop (S (length path)) parent path [] ip.

Definition namei (cwd : nat) (path : list Z) : M fsys (option nat) :=
  r ← namex cwd path false; mret (fst <$> r).
Definition nameiparent (cwd : nat) (path : list Z) : M fsys (option (nat * list Z)) :=
  namex cwd path true.
End Dir.

(** ** Names *)

Lemma strncmp_eq n p q : strncmp n p q = 0 <-> cstr (take n p) = cstr (take n q).
Proof.
  revert p q. induction n as [|n IH]; intros p q; [done|].
  destruct p as [|a p], q as [|b q]; cbn [strncmp hd tail take cstr]; cbn [andb negb].
  - done.
  - change (0 =? 0) with true. cbn [negb andb]. destruct (Z.eqb_spec b 0) as [->|Hb]; [done|]. split; [lia|done].
  - destruct (Z.eqb_spec a 0) as [->|Ha]; cbn [negb andb]; [done|].
    destruct (Z.eqb_spec a 0); [lia|]. split; [lia|done].
  - destruct (Z.eqb_spec a 0) as [->|Ha]; cbn [negb andb].
    + destruct (Z.eqb_spec b 0) as [->|]; [done|]. split; [lia|done].
    + destruct (Z.eqb_spec a b) as [->|Hab].
      * destruct (Z.eqb_spec b 0); [done|]. rewrite IH. split; [by intros -> | by intros [= ->]].
      * destruct (Z.eqb_spec b 0); (split; [lia | intros [=]; lia]) || (split; [lia | done]).
Qed.

Lemma length_strncpy n t : length (strncpy n t) = n.
Proof.
  revert t. induction n as [|n IH]; intros t; cbn [strncpy]; [done|].
  destruct (hd 0 t =? 0); [by rewrite length_replicate|]. simpl. by rewrite IH.
Qed.

Lemma cstr_strncpy n t : cstr (strncpy n t) = cstr (take n t).
Proof.
  revert t. induction n as [|n IH]; intros t; [done|]. cbn [strncpy].
  destruct t as [|c t]; cbn [hd tail take cstr]; [done|].
  destruct (Z.eqb_spec c 0) as [->|Hc]; [done|]. cbn [cstr].
  destruct (Z.eqb_spec c 0); [done|]. by rewrite IH.
Qed.
