(* ===== verification/DirSpec.v ===== *)
(** * What directories promise

    A directory is a list of entries; what a name means in it is a finite map.
    The class [FileLaws] is what the operations on directories ask of a
    kernel's [readi] and [writei] on a file that holds some bytes; against it,
    [dirlookup] is the lookup of that map and [dirlink] its insertion. *)

From S2P Require Import Prelude CStr Blocks Inode Dir.

(** ** Entries *)

Record dirent_ok (de : dirent) : Prop := {
  do_inum : 0 <= de_inum de < 2 ^ 16;
  do_name : length (de_name de) = Z.to_nat DIRSIZ
}.

Definition dir_bytes (es : list dirent) : list Z := es ≫= dirent_bytes.

(** two names that [namecmp] does not tell apart *)
Definition same_name (a b : list Z) : bool := namecmp a b =? 0.

(** the first entry in use of that name: its index and inode number *)
Fixpoint dir_find (name : list Z) (es : list dirent) : option (nat * Z) :=
  match es with
  | [] => None
  | de :: es' =>
      if negb (de_inum de =? 0) && same_name name (de_name de) then Some (O, de_inum de)
      else prod_map S id <$> dir_find name es'
  end.

(** the directory as a map from names to inode numbers *)
Definition dir_map (es : list dirent) (name : list Z) : option Z := snd <$> dir_find name es.

Fixpoint dir_slot (es : list dirent) : nat :=
  match es with
  | [] => O
  | de :: es' => if de_inum de =? 0 then O else S (dir_slot es')
  end.

(** the entry stored in the first free slot *)
Fixpoint dir_put (new : dirent) (es : list dirent) : list dirent :=
  match es with
  | [] => [new]
  | de :: es' => if de_inum de =? 0 then new :: es' else de :: dir_put new es'
  end.

Lemma same_name_spec a b :
  same_name a b = true <-> cstr (take (Z.to_nat DIRSIZ) a) = cstr (take (Z.to_nat DIRSIZ) b).
Proof. unfold same_name, namecmp. rewrite Z.eqb_eq. apply strncmp_eq. Qed.

Lemma same_name_sym a b : same_name a b = same_name b a.
Proof. apply eq_true_iff_eq. rewrite !same_name_spec. done. Qed.

Lemma same_name_trans a b c : same_name a b = true -> same_name b c = same_name a c.
Proof. rewrite same_name_spec. intros E. apply eq_true_iff_eq. by rewrite !same_name_spec, E. Qed.

Lemma same_name_stored name : same_name name (strncpy (Z.to_nat DIRSIZ) name) = true.
Proof.
  apply same_name_spec. rewrite (take_ge (strncpy _ _)) by (by rewrite length_strncpy). by rewrite cstr_strncpy.
Qed.

Lemma dir_find_same a b es : same_name a b = true -> dir_find b es = dir_find a es.
Proof.
  intros Hs. induction es as [|de es IH]; [done|]. cbn [dir_find]. by rewrite IH, (same_name_trans _ _ (de_name de) Hs).
Qed.

Lemma dir_find_Some name es k n : dir_find name es = Some (k, n) ->
  exists de, es !! k = Some de /\ de_inum de = n /\ n <> 0 /\ same_name name (de_name de) = true.
Proof.
  revert k. induction es as [|de es IH]; intros k; cbn [dir_find]; [done|].
  destruct (Z.eqb_spec (de_inum de) 0), (same_name name (de_name de)) eqn:Es; cbn [negb andb];
    try (destruct (dir_find name es) as [[j m]|]; [|done]; intros [= <- <-]; by apply IH).
  intros [= <- <-]. by exists de.
Qed.

(** storing an entry for a name that is not there *)
Lemma dir_map_put new es name :
  de_inum new <> 0 -> dir_map es (de_name new) = None ->
  dir_map (dir_put new es) name = if same_name (de_name new) name then Some (de_inum new) else dir_map es name.
Proof.
  intros Hn. unfold dir_map. induction es as [|de es IH]; cbn [dir_find dir_put]; intros Habs.
  - rewrite (proj2 (Z.eqb_neq _ _) Hn), (same_name_sym name). by destruct (same_name _ _).
  - destruct (Z.eqb_spec (de_inum de) 0) as [E|E]; cbn [negb andb] in *.
    + cbn [dir_find]. rewrite (proj2 (Z.eqb_neq _ _) Hn), (same_name_sym name). cbn [negb andb].
      by destruct (same_name _ _).
    + destruct (same_name (de_name new) (de_name de)) eqn:E1; [done|].
      assert (snd <$> dir_find (de_name new) es = None) as Hn' by (by destruct (dir_find (de_name new) es)).
      specialize (IH Hn'). cbn [dir_find]. rewrite (proj2 (Z.eqb_neq _ _) E). cbn [negb andb].
      destruct (same_name name (de_name de)) eqn:E2.
      * destruct (same_name (de_name new) name) eqn:E3; [|done].
        rewrite (same_name_trans _ _ (de_name de) E3) in E2. congruence.
      * assert (forall o : option (nat * Z), snd <$> (prod_map S id <$> o) = snd <$> o) as Hs by (by intros [[]|]).
        by rewrite !Hs, IH.
Qed.

Lemma length_dirent_bytes de : dirent_ok de -> length (dirent_bytes de) = Z.to_nat DIRENT_SIZE.
Proof. intros [_ H]. unfold dirent_bytes. rewrite length_app, length_le_bytes, H. done. Qed.

Lemma dirent_of_bytes de : dirent_ok de -> dirent_of (dirent_bytes de) = de.
Proof.
  intros [Hi Hl]. unfold dirent_of, dirent_bytes. destruct de as [n nm]; cbn [de_inum de_name] in *.
  rewrite take_app_le, take_ge by (rewrite length_le_bytes; lia). rewrite drop_app_length' by (by rewrite length_le_bytes).
  rewrite le_val_bytes. by rewrite Z.mod_small.
Qed.

Lemma length_dir_bytes es : Forall dirent_ok es -> length (dir_bytes es) = (16 * length es)%nat.
Proof.
  unfold dir_bytes. induction 1 as [|de es H _ IH]; [done|]. rewrite bind_cons, length_app, IH, length_dirent_bytes by done.
  simpl. lia.
Qed.

Lemma dir_bytes_app a b : dir_bytes (a ++ b) = dir_bytes a ++ dir_bytes b.
Proof. apply bind_app. Qed.

Lemma slice_dir_bytes pre de post :
  Forall dirent_ok pre -> dirent_ok de ->
  slice (dir_bytes (pre ++ de :: post)) (16 * Z.of_nat (length pre)) DIRENT_SIZE = dirent_bytes de.
Proof.
  intros Hp Hd. rewrite dir_bytes_app. unfold slice.
  rewrite drop_app_length' by (rewrite length_dir_bytes by done; lia).
  unfold dir_bytes. rewrite bind_cons, take_app_le, take_ge; [done | |]; rewrite length_dirent_bytes by done; lia.
Qed.

Lemma dir_put_bytes new es :
  Forall dirent_ok es -> dirent_ok new ->
  dir_bytes (dir_put new es) = splice (dir_bytes es) (16 * Z.of_nat (dir_slot es)) (dirent_bytes new).
Proof.
  intros Hes Hnew. pose proof (length_dirent_bytes _ Hnew) as Hl. unfold splice.
  assert (forall es, Forall dirent_ok es -> dir_bytes (dir_put new es) =
    take (16 * dir_slot es) (dir_bytes es) ++ dirent_bytes new ++ drop (16 * dir_slot es + 16) (dir_bytes es)) as Hgen.
  { clear es Hes. induction 1 as [|de es Hd _ IH]; cbn [dir_put dir_slot]; [unfold dir_bytes; simpl; by rewrite app_nil_r|].
    assert (dir_bytes (de :: es) = dirent_bytes de ++ dir_bytes es) as E by apply bind_cons.
    pose proof (length_dirent_bytes _ Hd) as Hld. destruct (de_inum de =? 0).
    - rewrite E. change (16 * 0)%nat with 0%nat. rewrite take_0, drop_app_length' by (rewrite Hld; done).
      unfold dir_bytes. by rewrite bind_cons.
    - replace (dir_bytes (de :: dir_put new es)) with (dirent_bytes de ++ dir_bytes (dir_put new es)) by (symmetry; apply bind_cons).
      rewrite IH, E. replace (16 * S (dir_slot es))%nat with (length (dirent_bytes de) + 16 * dir_slot es)%nat by (rewrite Hld; change (Z.to_nat DIRENT_SIZE) with 16%nat; lia).
      rewrite take_app_add, <- Nat.add_assoc, drop_app_add. by rewrite <- app_assoc. }
  rewrite Hgen by done. rewrite Hl. change (Z.to_nat DIRENT_SIZE) with 16%nat.
  do 2 f_equal; [f_equal; lia | do 2 f_equal; lia].
Qed.

Lemma dir_put_ok new es : dirent_ok new -> Forall dirent_ok es -> Forall dirent_ok (dir_put new es).
Proof. intros Hn. induction 1; cbn [dir_put]; [by constructor|]. destruct (_ =? 0); by constructor. Qed.

Lemma dir_slot_le es : (dir_slot es <= length es)%nat.
Proof. induction es as [|de es IH]; simpl; [done|]. destruct (_ =? 0); lia. Qed.

(** ** What is asked of a kernel *)

(** [holds s ip c]: entry [ip] of the cache is a file with the bytes [c];
    [roomy]: there is room for a write within one block.  The contents depend
    only on the blocks and on the fields that an inode has on disk. *)
Definition same_file (i j : inode) : Prop := i_inum j = i_inum i /\ reloaded i j = j.

Class FileLaws `{FileOps} : Type := {
  holds : fsys -> nat -> list Z -> Prop;
  roomy : fsys -> nat -> Prop;
  file_limit : Z;
  holds_frame s s' ip ip' c : holds s ip c -> blk s' = blk s -> sb s' = sb s ->
    (ip' < length (icache s'))%nat -> same_file (icache s !!! ip) (icache s' !!! ip') -> holds s' ip' c;
  holds_size s ip c : holds s ip c -> i_size (icache s !!! ip) = Z.of_nat (length c);
  holds_bound s ip c : holds s ip c -> Z.of_nat (length c) <= file_limit;
  file_limit_ok : file_limit < 2 ^ 32 - BSIZE;
  holds_read s ip c off n : holds s ip c -> 0 <= off <= Z.of_nat (length c) -> 0 <= n <= BSIZE ->
    readi ip off n s = Ok (let n' := Z.min n (Z.of_nat (length c) - off) in (n', slice c off n'), s);
  holds_write s ip c off x : holds s ip c -> roomy s ip -> 0 <= off <= Z.of_nat (length c) ->
    0 < Z.of_nat (length x) -> off mod BSIZE + Z.of_nat (length x) <= BSIZE ->
    off + Z.of_nat (length x) <= file_limit ->
    returns (writei ip x off (Z.of_nat (length x))) s (fun r s' =>
      r = Z.of_nat (length x) /\ holds s' ip (splice c off x) /\
      i_type (icache s' !!! ip) = i_type (icache s !!! ip))
}.

Section Laws.
Context `{FileLaws}.

(** entry [dp] of the cache is a directory with the entries [es] *)
Record dir_at (s : fsys) (dp : nat) (es : list dirent) : Prop := {
  id_type : i_type (icache s !!! dp) = T_DIR;
  id_holds : holds s dp (dir_bytes es);
  id_ok : Forall dirent_ok es
}.

Lemma dir_at_size s dp es : dir_at s dp es -> i_size (icache s !!! dp) = 16 * Z.of_nat (length es) /\ 16 * Z.of_nat (length es) < 2 ^ 32 - BSIZE.
Proof.
  intros [_ Hh Hok]. rewrite (holds_size _ _ _ Hh). pose proof (holds_bound _ _ _ Hh) as Hb.
  pose proof file_limit_ok. rewrite length_dir_bytes in * by done. lia.
Qed.

Lemma read_dirent_ok msg s dp pre de post :
  dir_at s dp (pre ++ de :: post) ->
  read_dirent msg dp (16 * Z.of_nat (length pre)) s = Ok (de, s).
Proof.
  intros [_ Hh Hok]. unfold read_dirent, mbind, M_bind.
  pose proof (length_dir_bytes _ Hok) as HL. rewrite length_app in HL. cbn [length] in HL.
  rewrite (holds_read _ _ _ _ _ Hh) by (change BSIZE with 512; change DIRENT_SIZE with 16; lia).
  cbv zeta. rewrite Z.min_l by (change DIRENT_SIZE with 16; lia). rewrite Z.eqb_refl.
  apply Forall_app in Hok as [Hp Hd]. inversion Hd; subst. cbn [negb].
  by rewrite slice_dir_bytes, dirent_of_bytes.
Qed.

Lemma dir_step s dp pre de post : dir_at s dp (pre ++ de :: post) ->
  (16 * Z.of_nat (length pre) <? i_size (icache s !!! dp)) = true /\
  u32 (16 * Z.of_nat (length pre) + DIRENT_SIZE) = 16 * Z.of_nat (length (pre ++ [de])).
Proof.
  intros Hd. destruct (dir_at_size _ _ _ Hd) as [-> Hb]. rewrite !length_app in *. cbn [length] in *.
  change DIRENT_SIZE with 16. change BSIZE with 512 in *. split; [apply Z.ltb_lt; lia|]. rewrite u32_small; lia.
Qed.

Lemma dir_end s dp es : dir_at s dp es -> (16 * Z.of_nat (length es) <? i_size (icache s !!! dp)) = false.
Proof. intros Hd. destruct (dir_at_size _ _ _ Hd) as [-> _]. apply Z.ltb_irrefl. Qed.

Lemma dirlookup_loop_ok s dp name : forall post pre fuel,
  dir_at s dp (pre ++ post) -> (length post < fuel)%nat ->
  dirlookup_loop fuel dp name (16 * Z.of_nat (length pre)) s =
  match dir_find name post with
  | None => Ok (None, s)
  | Some (k, n) =>
      (ip ← iget (i_dev (icache s !!! dp)) n; mret (Some (ip, 16 * Z.of_nat (length pre + k)))) s
  end.
Proof.
  induction post as [|de post IH]; intros pre [|fuel] Hd Hf; cbn [length] in Hf; try lia;
    cbn [dirlookup_loop dir_find]; unfold inode_at, gets; unfold mbind at 1, M_bind at 1.
  - rewrite app_nil_r in Hd. by rewrite (dir_end _ _ _ Hd).
  - destruct (dir_step _ _ _ _ _ Hd) as [-> ->]. unfold mbind at 1, M_bind at 1.
    rewrite (read_dirent_ok _ _ _ _ _ _ Hd).
    assert (dir_at s dp ((pre ++ [de]) ++ post)) as Hd' by (by rewrite <- app_assoc).
    specialize (IH _ fuel Hd' ltac:(lia)).
    assert (match prod_map S id <$> dir_find name post with
            | None => Ok (None, s)
            | Some (k, n) => (ip ← iget (i_dev (icache s !!! dp)) n; mret (Some (ip, 16 * Z.of_nat (length pre + k)))) s
            end = dirlookup_loop fuel dp name (16 * Z.of_nat (length (pre ++ [de]))) s) as Hnext.
    { rewrite IH. destruct (dir_find name post) as [[k n]|]; [|done]. cbn [fmap option_fmap option_map prod_map fst snd id].
      by replace (length (pre ++ [de]) + k)%nat with (length pre + S k)%nat by (rewrite length_app; simpl; lia). }
    destruct (de_inum de =? 0); cbn [negb andb]; [done|]. unfold same_name.
    destruct (namecmp name (de_name de) =? 0); [by rewrite Nat.add_0_r | done].
Qed.

Lemma dirlink_slot_ok s dp : forall post pre fuel,
  dir_at s dp (pre ++ post) -> (length post < fuel)%nat ->
  dirlink_slot fuel dp (16 * Z.of_nat (length pre)) s = Ok (16 * Z.of_nat (length pre + dir_slot post), s).
Proof.
  induction post as [|de post IH]; intros pre [|fuel] Hd Hf; cbn [length] in Hf; try lia;
    cbn [dirlink_slot dir_slot]; unfold inode_at, gets; unfold mbind at 1, M_bind at 1.
  - rewrite app_nil_r in Hd. by rewrite (dir_end _ _ _ Hd), Nat.add_0_r.
  - destruct (dir_step _ _ _ _ _ Hd) as [-> ->]. unfold mbind at 1, M_bind at 1.
    rewrite (read_dirent_ok _ _ _ _ _ _ Hd). destruct (de_inum de =? 0); [by rewrite Nat.add_0_r|].
    rewrite IH; [|by rewrite <- app_assoc | lia]. rewrite length_app. cbn [length].
    by replace (length pre + S (dir_slot post))%nat with (length pre + 1 + dir_slot post)%nat by lia.
Qed.

Lemma dir_fuel s dp es : dir_at s dp es ->
  (length es < S (Z.to_nat (i_size (icache s !!! dp) / DIRENT_SIZE + 1)))%nat.
Proof. intros Hd. destruct (dir_at_size _ _ _ Hd) as [-> _]. change DIRENT_SIZE with 16. Z.div_mod_to_equations. lia. Qed.

Lemma dirlookup_ok s dp es name :
  dir_at s dp es ->
  dirlookup dp name s =
  match dir_find name es with
  | None => Ok (None, s)
  | Some (k, n) => (ip ← iget (i_dev (icache s !!! dp)) n; mret (Some (ip, 16 * Z.of_nat k))) s
  end.
Proof.
  intros Hd. unfold dirlookup, inode_at, gets. unfold mbind at 1, M_bind at 1.
  rewrite (id_type _ _ _ Hd). change (T_DIR =? T_DIR) with true. cbn [negb].
  apply (dirlookup_loop_ok s dp name es []); [done | by apply dir_fuel].
Qed.

(** [dirlookup] ends; it answers with the first entry in use whose name
    agrees with the given one up to [DIRSIZ] bytes, taking a reference to its
    inode and reporting its offset, and finds nothing exactly when the
    directory, as a map from names to inode numbers, has no such name. *)
Theorem dirlookup_correct s dp es name :
  dir_at s dp es ->
  match dir_map es name with
  | None => dirlookup dp name s = Ok (None, s)
  | Some n => exists k de, es !! k = Some de /\ de_inum de = n /\ n <> 0 /\
      cstr (take (Z.to_nat DIRSIZ) name) = cstr (de_name de) /\
      dirlookup dp name s = (ip ← iget (i_dev (icache s !!! dp)) n; mret (Some (ip, DIRENT_SIZE * Z.of_nat k))) s
  end.
Proof.
  intros Hd. pose proof (dirlookup_ok s dp es name Hd) as E. unfold dir_map.
  destruct (dir_find name es) as [[k n]|] eqn:Ef; [|done]. simpl.
  apply dir_find_Some in Ef as (de & Hk & Hn & Hz & Hs). exists k, de. split_and!; try done.
  apply same_name_spec in Hs. rewrite Hs, take_ge; [done|].
  pose proof (Forall_lookup_1 _ _ _ _ (id_ok _ _ _ Hd) Hk) as Hok. by rewrite (do_name _ Hok).
Qed.

Lemma dir_put_at new es : let k := dir_slot es in
  Forall (fun de => de_inum de <> 0) (take k es) /\ (k = length es \/ exists de, es !! k = Some de /\ de_inum de = 0) /\
  dir_put new es = take k es ++ new :: drop (S k) es.
Proof using.
  induction es as [|de es IH]; cbn [dir_slot dir_put]; [split_and!; [constructor | by left | done]|].
  destruct (Z.eqb_spec (de_inum de) 0) as [E|E]; cbv zeta.
  - split_and!; [constructor | right; by exists de | cbn; by rewrite ?drop_0].
  - destruct IH as (H1 & H2 & H3). cbn [take drop length lookup list_lookup app]. split_and!; [by constructor | | by rewrite H3].
    destruct H2 as [->|H2]; [by left | by right].
Qed.

(** C34: [dirlink] ends.  For a name that is in the directory it takes and drops
    a reference and returns -1.  Otherwise it returns 0 and writes the entry, the
    inode number and the name cut or filled up to [DIRSIZ] bytes, into the first
    free slot, or at the end when there is none; every other entry stays, and no
    other name changes its meaning. *)
Theorem dirlink_correct s dp es name inum :
  dir_at s dp es -> roomy s dp -> DIRENT_SIZE * (Z.of_nat (length es) + 1) <= file_limit -> 0 < inum < 2 ^ 16 ->
  match dir_map es name with
  | Some n => dirlink dp name inum s = (ip ← iget (i_dev (icache s !!! dp)) n; iput ip ;; mret (-1)) s
  | None =>
      returns (dirlink dp name inum) s (fun r s' => r = 0 /\ exists k es', dir_at s' dp es' /\
        Forall (fun de => de_inum de <> 0) (take k es) /\ (k = length es \/ exists de, es !! k = Some de /\ de_inum de = 0) /\
        es' = take k es ++ mkdirent inum (strncpy (Z.to_nat DIRSIZ) name) :: drop (S k) es /\
        forall nm, dir_map es' nm = if same_name name nm then Some inum else dir_map es nm)
  end.
Proof.
  intros Hd Hr Hl Hi. pose proof (dirlookup_ok s dp es name Hd) as E. unfold dir_map at 1.
  destruct (dir_find name es) as [[k n]|] eqn:Ef; cbn [fmap option_fmap option_map snd].
  - unfold dirlink. unfold mbind at 1, M_bind at 1. rewrite E. unfold mbind at 1, M_bind at 1.
    unfold mbind, M_bind. by destruct (iget _ _ s) as [[ip s1]| |].
  - unfold dirlink. apply returns_bind. unfold returns at 1. rewrite E. unfold inode_at. step.
    set (new := mkdirent (u16 inum) (strncpy (Z.to_nat DIRSIZ) name)).
    assert (dirent_ok new) as Hnew by (split; [apply Z.mod_pos_bound; lia | apply length_strncpy]).
    apply returns_bind. unfold returns at 1.
    rewrite (dirlink_slot_ok s dp es []) by (done || by apply dir_fuel). cbn [length Nat.add].
    pose proof (dir_slot_le es) as Hslot. destruct Hd as [Ht Hh Hok]. pose proof (length_dir_bytes _ Hok) as HL.
    pose proof (length_dirent_bytes _ Hnew) as Hln. change DIRENT_SIZE with 16 in *. change (Z.to_nat 16) with 16%nat in Hln.
    apply returns_bind. eapply returns_mono.
    { pose proof (holds_write s dp _ (16 * Z.of_nat (dir_slot es)) (dirent_bytes new) Hh Hr) as W. rewrite Hln in W.
      apply W; change BSIZE with 512; try lia. Z.div_mod_to_equations. lia. }
    intros r s' (-> & Hh' & Ht'). cbn [negb]. change (Z.of_nat 16 =? 16) with true. cbn [negb]. step. split; [done|].
    destruct (dir_put_at new es) as (P1 & P2 & P3). assert (de_inum new = inum) as Ein by (apply Z.mod_small; lia).
    exists (dir_slot es), (dir_put new es).
    assert (new = mkdirent inum (strncpy (Z.to_nat DIRSIZ) name)) as Enew by (unfold new; f_equal; exact Ein).
    rewrite <- Enew. split; [|split; [exact P1 | split; [exact P2 | split; [exact P3|]]]].
    + split; [by rewrite Ht' | | by apply dir_put_ok]. by rewrite dir_put_bytes.
    + intros nm. assert (same_name (de_name new) nm = same_name name nm) as Esn.
      { apply (same_name_trans name (de_name new)), same_name_stored. }
      rewrite dir_map_put; rewrite ?Ein, ?Esn; [done | lia|].
      unfold dir_map. rewrite (dir_find_same name); [by rewrite Ef|]. apply same_name_stored.
Qed.
End Laws.
