(* ===== verification/DirWalk.v ===== *)
(** * Path names

    [skipelem] against a reference that splits the whole path, and [namex] as
    the walk of a tree of directories: it ends, resolves exactly the names that
    lead from its start, releases every lock and keeps exactly the reference to
    its result. *)

From S2P Require Import Prelude CStr Blocks Inode Dir DirSpec.

(** ** The components of a path *)

(** the pieces between the slashes, empty ones included *)
Fixpoint pieces (l : list Z) : list (list Z) :=
  match l with
  | [] => [[]]
  | c :: l' =>
      if c =? SLASH then [] :: pieces l'
      else match pieces l' with
           | p :: ps => (c :: p) :: ps
           | [] => [[c]]
           end
  end.

Definition components (path : list Z) : list (list Z) :=
  take (Z.to_nat DIRSIZ) <$> filter (fun p => p <> []) (pieces path).

Lemma components_slash path : components (skip_slashes path) = components path.
Proof.
  induction path as [|c path IH]; [done|]. cbn [skip_slashes].
  destruct (c =? SLASH) eqn:E; [|done]. rewrite IH. unfold components. cbn [pieces]. by rewrite E.
Qed.

Lemma skip_slashes_head path c r : skip_slashes path = c :: r -> (c =? SLASH) = false.
Proof.
  induction path as [|b path IH]; [done|]. cbn [skip_slashes].
  destruct (b =? SLASH) eqn:E; [done|]. by intros [= <- <-].
Qed.

Lemma skip_slashes_shorter path : (length (skip_slashes path) <= length path)%nat.
Proof. induction path as [|b path IH]; simpl; [done|]. destruct (b =? SLASH); simpl; lia. Qed.

Lemma take_elem_pieces path : exists ps,
  pieces path = (take_elem path).1 :: ps /\
  filter (fun p => p <> []) ps = filter (fun p => p <> []) (pieces (take_elem path).2) /\
  (length path = length (take_elem path).1 + length (take_elem path).2)%nat.
Proof.
  induction path as [|c path (ps & Ep & Ef & El)]; cbn [take_elem pieces].
  { by exists []. }
  destruct (c =? SLASH) eqn:E; cbn [fst snd pieces].
  - exists (pieces path). rewrite E. by split_and!.
  - destruct (take_elem path) as [e r]. cbn [fst snd] in *. rewrite Ep. exists ps. simpl. split_and!; [done..|lia].
Qed.

Lemma components_nil path : components path = [] -> skip_slashes path = [].
Proof.
  intros H. rewrite <- components_slash in H. destruct (skip_slashes path) as [|c r] eqn:E; [done|].
  apply skip_slashes_head in E. exfalso. revert H. unfold components. cbn [pieces]. rewrite E.
  destruct (pieces r); rewrite filter_cons_True by done; done.
Qed.

(** [skipelem] takes one component off *)
Lemma skipelem_spec path :
  match skipelem path with
  | None => components path = []
  | Some (path', name) =>
      components path = name :: components path' /\ (length path' < length path)%nat /\
      (path' = [] <-> components path' = [])
  end.
Proof.
  unfold skipelem. rewrite <- components_slash. pose proof (skip_slashes_shorter path) as Hl.
  destruct (skip_slashes path) as [|c r] eqn:E; [done|]. apply skip_slashes_head in E.
  destruct (take_elem_pieces (c :: r)) as (ps & Ep & Ef & El).
  assert ((take_elem (c :: r)).1 <> []) as Hne.
  { cbn [take_elem]. rewrite E. by destruct (take_elem r). }
  destruct (take_elem (c :: r)) as [e q]. cbn [fst snd] in *. split_and!.
  - unfold components at 1. rewrite Ep, filter_cons_True by done. cbn [fmap list_fmap]. f_equal.
    + destruct (Z.leb_spec DIRSIZ (Z.of_nat (length e))); [done|]. by rewrite take_ge by lia.
    + by rewrite Ef, components_slash.
  - pose proof (skip_slashes_shorter q). destruct e; [done|]. simpl in *. lia.
  - split; [by intros ->|]. rewrite components_slash. apply components_nil.
Qed.

(** ** The tree of directories *)

(** where the names of a path lead from inode [n]; with [parent], the inode
    that holds the last name *)
Fixpoint resolve (T : gmap Z (list dirent)) (parent : bool) (n : Z) (names : list (list Z)) (last : list Z) : option (Z * list Z) :=
  match names with
  | [] => if parent then None else Some (n, last)
  | name :: names' =>
      es ← T !! n;
      if parent && bool_decide (names' = []) then Some (n, name)
      else m ← dir_map es name; resolve T parent m names' name
  end.

(** the inode number [n] of the disk, as an entry of the cache *)
Definition inode_of (s : fsys) (n : Z) : inode :=
  disk_inode s n (mkinode ROOTDEV n 1 false true 0 0 0 0 0 []).

Definition put_cache (s : fsys) (l : list inode) : fsys := set_icache (fun _ => l) s.

Section Walk.
Context `{FileLaws}.

(** inode [n] of the disk is a directory with the entries [es] *)
Definition disk_dir (s : fsys) (n : Z) (es : list dirent) : Prop :=
  dir_at (put_cache s [inode_of s n]) 0 es /\ i_nlink (inode_of s n) <> 0.
Definition disk_file (s : fsys) (n : Z) : Prop :=
  i_type (inode_of s n) <> 0 /\ i_type (inode_of s n) <> T_DIR /\ i_nlink (inode_of s n) <> 0.

(** [T] is the tree of directories of the disk: every name in it leads to a
    directory of the tree or to a file *)
Record tree_ok (s : fsys) (T : gmap Z (list dirent)) : Prop := {
  t_dirs n es : T !! n = Some es -> disk_dir s n es;
  t_names n es name m : T !! n = Some es -> dir_map es name = Some m ->
    is_Some (T !! m) \/ (T !! m = None /\ disk_file s m)
}.
Definition node (s : fsys) (T : gmap Z (list dirent)) (n : Z) : Prop :=
  is_Some (T !! n) \/ (T !! n = None /\ disk_file s n).

(** a cache that agrees with the disk, of which only [lk] is locked *)
Record calm (s : fsys) (lk : option nat) (l : list inode) : Prop := {
  c_cache : cache_ok l;
  c_locks k i : l !! k = Some i -> i_locked i = bool_decide (lk = Some k);
  c_disk k i : l !! k = Some i -> 0 < i_ref i -> i_valid i = true ->
    forall j, disk_inode s (i_inum i) j = reloaded i j
}.

(** entry [ip] is in use for inode [n] *)
Definition names_inode (l : list inode) (ip : nat) (n : Z) : Prop :=
  exists i, l !! ip = Some i /\ caches ROOTDEV n i.

Definition refs (l : list inode) : list Z := i_ref <$> l.

Section Ops.
Context (s0 : fsys) (T : gmap Z (list dirent)).
Hypothesis Htree : tree_ok s0 T.
Local Notation put := (put_cache s0).

Lemma put_put l f : set_icache f (put l) = put (f l).
Proof. done. Qed.

Lemma inode_at_put l ip i (Q : inode -> fsys -> Prop) : l !! ip = Some i -> Q i (put l) -> returns (inode_at ip) (put l) Q.
Proof. intros Hi HQ. unfold inode_at. step. cbn. by rewrite (list_lookup_total_correct _ _ _ Hi). Qed.

(** changing the lock or the count of one entry *)
Lemma calm_alter lk lk' l ip i i' :
  calm s0 lk l -> l !! ip = Some i ->
  i_dev i' = i_dev i -> i_inum i' = i_inum i -> 0 <= i_ref i' ->
  (0 < i_ref i' -> ~ caches (i_dev i) (i_inum i) i -> forall k x, l !! k = Some x -> ~ caches (i_dev i) (i_inum i) x) ->
  i_locked i' = bool_decide (lk' = Some ip) ->
  (forall k, k <> ip -> k < length l -> bool_decide (lk' = Some k) = bool_decide (lk = Some k))%nat ->
  (0 < i_ref i' -> i_valid i' = true -> forall j, disk_inode s0 (i_inum i) j = reloaded i' j) ->
  calm s0 lk' (<[ip := i']> l).
Proof.
  intros [[Hc1 Hc2] Hlk Hd] Hi Ed En Hr Hu Hl Hlo Hv. pose proof (lookup_lt_Some _ _ _ Hi) as Hlt.
  assert (forall k x, <[ip := i']> l !! k = Some x -> (k = ip /\ x = i') \/ (k <> ip /\ l !! k = Some x)) as Hcase.
  { intros k x. destruct (decide (k = ip)) as [->|Hne]; [rewrite list_lookup_insert_eq by done | rewrite list_lookup_insert_ne by done]; naive_solver. }
  split; [split|..].
  - intros k x Hx. destruct (Hcase k x Hx) as [[-> ->]|[_ Hk]]; eauto.
  - intros a b x y Hx Hy Hrx Hry Edev Einum.
    assert (forall k z, k <> ip -> l !! k = Some z -> 0 < i_ref z -> 0 < i_ref i' -> i_dev z = i_dev i -> i_inum z = i_inum i -> False) as Hout.
    { intros k z Hne Hz Hrz Hri E1 E2. destruct (decide (0 < i_ref i)) as [Hri0|Hri0].
      - apply Hne. by eapply Hc2.
      - apply (Hu Hri ltac:(intros [? _]; done) k z Hz). by split. }
    destruct (Hcase a x Hx) as [[-> ->]|[Ha Hxa]], (Hcase b y Hy) as [[-> ->]|[Hb Hyb]]; [done| | |by eapply Hc2].
    + exfalso. apply (Hout b y); try done; congruence.
    + exfalso. apply (Hout a x); try done; congruence.
  - intros k x Hx. destruct (Hcase k x Hx) as [[-> ->]|[Hne Hk]]; [done|].
    rewrite (Hlo k Hne) by (by eapply lookup_lt_Some). by apply Hlk.
  - intros k x Hx. destruct (Hcase k x Hx) as [[-> ->]|[_ Hk]]; [by rewrite En | by apply (Hd k)].
Qed.

Lemma refs_insert l ip i i' : l !! ip = Some i -> refs (<[ip := i']> l) = <[ip := i_ref i']> (refs l).
Proof. intros _. apply list_fmap_insert. Qed.

Lemma refs_alter l ip i i' d : l !! ip = Some i -> i_ref i' = i_ref i + d ->
  refs (<[ip := i']> l) = alter (fun r => r + d) ip (refs l).
Proof.
  intros Hi Er. rewrite (refs_insert _ _ _ _ Hi), Er.
  symmetry. apply (list_alter_insert (fun r => r + d) (refs l) ip (i_ref i)).
  unfold refs. by rewrite list_lookup_fmap, Hi.
Qed.

(** the entry agrees with the disk *)
Lemma calm_same_file lk l ip i n :
  calm s0 lk l -> l !! ip = Some i -> caches ROOTDEV n i -> i_valid i = true -> same_file (inode_of s0 n) i.
Proof.
  intros Hc Hi (Hr & _ & <-) Hv. unfold same_file, inode_of.
  rewrite (c_disk _ _ _ Hc ip i Hi Hr Hv). split; [done|]. destruct i; done.
Qed.

(** [l'] keeps the entries in use of [l], up to their counts *)
Definition keeps (l l' : list inode) : Prop :=
  forall k i, l !! k = Some i -> 0 < i_ref i -> exists r, 0 < r /\ l' !! k = Some (with_ref r i).

Lemma keeps_insert l ip i r : l !! ip = Some i -> 0 < r -> keeps l (<[ip := with_ref r i]> l).
Proof.
  intros Hi Hr k x Hk Hrx. destruct (decide (k = ip)) as [->|Hne].
  - rewrite list_lookup_insert_eq by (by eapply lookup_lt_Some). rewrite Hi in Hk. injection Hk as <-. eauto.
  - rewrite list_lookup_insert_ne by done. exists (i_ref x). split; [done|]. rewrite Hk. by destruct x.
Qed.

Lemma iget_calm lk l n (Q : nat -> fsys -> Prop) :
  calm s0 lk l -> (exists k : nat, refs l !! k = Some 0) ->
  (forall ip l', calm s0 lk l' -> refs l' = alter (fun r => r + 1) ip (refs l) -> names_inode l' ip n ->
     keeps l l' -> Q ip (put l')) ->
  returns (iget ROOTDEV n) (put l) Q.
Proof.
  intros Hc [kf Hkf] HQ. unfold iget. step. cbn [icache put_cache set_icache].
  unfold refs in Hkf. rewrite list_lookup_fmap in Hkf. destruct (l !! kf) as [fr|] eqn:Efr; [|done]. injection Hkf as Hfr.
  destruct (iget_scan l 0 ROOTDEV n None) as [ip|[ip|]] eqn:E; unfold upd_inode; [step; step..|].
  - apply iget_scan_inl in E as (n' & i & -> & Hi & Hca). rewrite put_put. cbn [Nat.add].
    rewrite (list_alter_insert _ _ _ _ Hi). destruct Hca as (Hr & Hd & Hn). apply HQ.
    + apply (calm_alter lk lk _ _ i); try done; cbn; try lia.
      * intros _ Hno. exfalso. apply Hno. by split.
      * by apply (c_locks _ _ _ Hc).
      * intros _ Hv j. exact (c_disk _ _ _ Hc n' i Hi Hr Hv j).
    + by apply (refs_alter _ _ i).
    + exists (with_ref (i_ref i + 1) i). rewrite list_lookup_insert_eq by (by eapply lookup_lt_Some).
      split; [done|]. split; [cbn; lia | done].
    + apply keeps_insert; [done | lia].
  - apply iget_scan_inr in E as [Hno (n' & i & -> & Hi & Hr)]. rewrite put_put. cbn [Nat.add].
    rewrite (list_alter_insert _ _ _ _ Hi). set (i' := with_valid false _). apply HQ.
    + split; [split|..].
      * intros a x. destruct (decide (a = n')) as [->|Hne].
        { rewrite list_lookup_insert_eq by (by eapply lookup_lt_Some). intros [= <-]. cbn. lia. }
        rewrite list_lookup_insert_ne by done. apply (c_cache _ _ _ Hc).
      * pose proof (cache_ok_alter l n' (fun _ => i') i (c_cache _ _ _ Hc) Hi) as [_ Hu]; [cbn; lia | |].
        { intros b y Hb Hy _. cbn. by eapply Hno. }
        by rewrite (list_alter_insert _ _ _ _ Hi) in Hu.
      * intros k x. destruct (decide (k = n')) as [->|Hne].
        { rewrite list_lookup_insert_eq by (by eapply lookup_lt_Some). intros [= <-]. cbn. by apply (c_locks _ _ _ Hc). }
        rewrite list_lookup_insert_ne by done. apply (c_locks _ _ _ Hc).
      * intros k x. destruct (decide (k = n')) as [->|Hne].
        { rewrite list_lookup_insert_eq by (by eapply lookup_lt_Some). intros [= <-]. done. }
        rewrite list_lookup_insert_ne by done. apply (c_disk _ _ _ Hc).
    + apply (refs_alter _ _ i); [done|]. cbn. lia.
    + exists i'. rewrite list_lookup_insert_eq by (by eapply lookup_lt_Some). split; [done|]. split; [cbn; lia | done].
    + intros k x Hk Hrx. rewrite list_lookup_insert_ne by (intros ->; rewrite Hi in Hk; injection Hk as ->; lia).
      exists (i_ref x). split; [done|]. rewrite Hk. by destruct x.
  - apply iget_scan_inr in E as [_ Hnone]. by destruct (Hnone _ _ Efr).
Qed.

Lemma ilock_calm l ip n (Q : unit -> fsys -> Prop) :
  calm s0 None l -> names_inode l ip n -> i_type (inode_of s0 n) <> 0 ->
  (forall i', let l' := <[ip := i']> l in calm s0 (Some ip) l' -> refs l' = refs l -> (ip < length l)%nat ->
     caches ROOTDEV n i' -> i_valid i' = true -> Q tt (put l')) ->
  returns (ilock ip) (put l) Q.
Proof.
  intros Hc (i & Hi & Hca) Hty HQ. pose proof (lookup_lt_Some _ _ _ Hi) as Hlt. pose proof Hca as (Hr & Hd & Hn).
  unfold ilock. apply returns_bind, (inode_at_put _ _ _ _ Hi).
  destruct (Z.ltb_spec (i_ref i) 1); [lia|]. unfold acquiresleep. apply returns_bind, returns_bind, (inode_at_put _ _ _ _ Hi).
  rewrite (c_locks _ _ _ Hc ip i Hi). unfold upd_inode. change (bool_decide (None = Some ip)) with false. cbv iota. step.
  rewrite put_put, (list_alter_insert _ _ _ _ Hi).
  assert (forall i', i_dev i' = i_dev i -> i_inum i' = i_inum i -> i_ref i' = i_ref i -> i_locked i' = true -> i_valid i' = true ->
    (forall j, disk_inode s0 (i_inum i) j = reloaded i' j) -> Q tt (put (<[ip := i']> l))) as Hfin.
  { intros i' E1 E2 E3 E4 E5 E6. apply HQ; [| |done| |done].
    - apply (calm_alter None (Some ip) _ _ i); try done; try lia.
      + intros _ Hno. exfalso. apply Hno. by split.
      + by rewrite E4, bool_decide_eq_true_2.
      + intros k Hk _. rewrite !bool_decide_eq_false_2; [done..|congruence].
    - rewrite (refs_insert _ _ _ _ Hi), E3. unfold refs. apply list_insert_id. by rewrite list_lookup_fmap, Hi.
    - split_and!; congruence || lia. }
  destruct (i_valid i) eqn:Ev.
  - step. apply Hfin; try done. intros j. by rewrite (c_disk _ _ _ Hc ip i Hi Hr Ev).
  - step. unfold bread, brelse. step. step. rewrite put_put, list_alter_insert with (x := with_locked true i)
      by (by rewrite list_lookup_insert_eq). step. step. rewrite put_put, list_insert_insert_eq.
    erewrite list_alter_insert by (by rewrite list_lookup_insert_eq). rewrite list_insert_insert_eq.
    apply returns_bind. eapply inode_at_put; [by rewrite list_lookup_insert_eq|].
    change (block_of (put l) ?b) with (block_of s0 b). cbn [sb put_cache set_icache].
    set (i' := with_valid true _). replace (i_type i') with (i_type (inode_of s0 n)) by (by subst n).
    rewrite (proj2 (Z.eqb_neq _ _) Hty). step. by apply Hfin.
Qed.

Lemma iunlock_calm l ip i (Q : unit -> fsys -> Prop) :
  calm s0 (Some ip) l -> l !! ip = Some i -> 0 < i_ref i ->
  (let l' := <[ip := with_locked false i]> l in calm s0 None l' -> refs l' = refs l -> Q tt (put l')) ->
  returns (iunlock ip) (put l) Q.
Proof.
  intros Hc Hi Hr HQ. unfold iunlock. apply returns_bind, (inode_at_put _ _ _ _ Hi).
  rewrite (c_locks _ _ _ Hc ip i Hi), bool_decide_eq_true_2 by done. cbn [negb orb].
  destruct (Z.ltb_spec (i_ref i) 1); [lia|]. unfold releasesleep, upd_inode. step.
  rewrite put_put, (list_alter_insert _ _ _ _ Hi). apply HQ.
  - apply (calm_alter (Some ip) None _ _ i); try done; try (cbn; lia).
    + intros _ Hno. exfalso. apply Hno. by split.
    + intros k Hk _. rewrite !bool_decide_eq_false_2; [done|congruence|done].
    + intros _ Hv j. exact (c_disk _ _ _ Hc ip i Hi Hr Hv j).
  - rewrite (refs_insert _ _ _ _ Hi). unfold refs. apply list_insert_id. by rewrite list_lookup_fmap, Hi.
Qed.

Lemma iput_calm l ip i n (Q : unit -> fsys -> Prop) :
  calm s0 None l -> l !! ip = Some i -> caches ROOTDEV n i -> i_nlink (inode_of s0 n) <> 0 ->
  (let l' := <[ip := with_ref (i_ref i - 1) i]> l in calm s0 None l' -> refs l' = alter (fun r => r - 1) ip (refs l) -> Q tt (put l')) ->
  returns (iput ip) (put l) Q.
Proof.
  intros Hc Hi Hca Hnl HQ. pose proof (lookup_lt_Some _ _ _ Hi) as Hlt. pose proof Hca as (Hr & Hd & Hn).
  unfold iput, acquiresleep. apply returns_bind, returns_bind, (inode_at_put _ _ _ _ Hi).
  rewrite (c_locks _ _ _ Hc ip i Hi). change (bool_decide (None = Some ip)) with false. cbv iota. unfold upd_inode, releasesleep. step.
  rewrite put_put, (list_alter_insert _ _ _ _ Hi). unfold inode_at. step.
  cbn [put_cache set_icache icache]. rewrite list_lookup_total_insert_eq by done. cbn [with_locked i_valid i_nlink].
  assert (i_valid i && (i_nlink i =? 0) = false) as ->.
  { destruct (i_valid i) eqn:Ev; [|done]. destruct (calm_same_file _ _ _ _ _ Hc Hi Hca Ev) as [_ Hs].
    apply Z.eqb_neq. rewrite <- Hs. exact Hnl. }
  step. unfold upd_inode. step. rewrite put_put, list_alter_insert with (x := with_locked true i) by (by rewrite list_lookup_insert_eq).
  rewrite list_insert_insert_eq. step. rewrite put_put. erewrite list_alter_insert by (by rewrite list_lookup_insert_eq).
  rewrite list_insert_insert_eq. cbn [with_locked i_ref].
  assert (i_locked i = false) as El by (by rewrite (c_locks _ _ _ Hc ip i Hi)).
  assert (with_ref (i_ref i - 1) (with_locked false (with_locked true i)) = with_ref (i_ref i - 1) i) as ->
    by (unfold with_ref, with_locked; cbn; by rewrite El).
  apply HQ.
  - apply (calm_alter None None _ _ i); try done; try (cbn; lia).
    + intros _ Hno. exfalso. apply Hno. by split.
    + intros _ Hv j. exact (c_disk _ _ _ Hc ip i Hi Hr Hv j).
  - by apply (refs_alter _ _ i (with_ref (i_ref i - 1) i) (-1)).
Qed.

Lemma names_keeps l l' ip n : names_inode l ip n -> keeps l l' -> names_inode l' ip n.
Proof.
  intros (i & Hi & Hr & Hd & Hn) K. destruct (K ip i Hi Hr) as (r & Hr' & E). exists (with_ref r i). by split_and!.
Qed.

Lemma iunlockput_calm l ip i n (Q : unit -> fsys -> Prop) :
  calm s0 (Some ip) l -> l !! ip = Some i -> caches ROOTDEV n i -> i_nlink (inode_of s0 n) <> 0 ->
  (forall l', calm s0 None l' -> refs l' = alter (fun r => r - 1) ip (refs l) ->
     (forall k m, names_inode l k m -> (k = ip -> 2 <= i_ref i) -> names_inode l' k m) -> Q tt (put l')) ->
  returns (iunlockput ip) (put l) Q.
Proof.
  intros Hc Hi Hca Hnl HQ. pose proof (lookup_lt_Some _ _ _ Hi) as Hlt. unfold iunlockput. apply returns_bind.
  apply (iunlock_calm l ip i); [done|done|apply Hca|]. intros l1 Hc1 Hr1.
  apply (iput_calm l1 ip (with_locked false i) n); try done; [by apply list_lookup_insert_eq|].
  intros l' Hc' Hr'. unfold l', l1 in *. rewrite list_insert_insert_eq in *. clear l' l1. apply HQ; [done | by rewrite Hr', Hr1|].
  intros k m (x & Hx & Hrx & Hdx & Hnx) Hk. destruct (decide (k = ip)) as [->|Hne].
  - rewrite Hi in Hx. injection Hx as <-. specialize (Hk eq_refl).
    eexists. rewrite list_lookup_insert_eq by done. split; [done|]. split_and!; [cbn; lia|done..].
  - exists x. by rewrite list_lookup_insert_ne.
Qed.

Lemma calm_is_dir lk l ip i n es :
  calm s0 lk l -> l !! ip = Some i -> caches ROOTDEV n i -> i_valid i = true -> T !! n = Some es ->
  dir_at (put l) ip es.
Proof.
  intros Hc Hi Hca Hv Ht. destruct (t_dirs _ _ Htree n es Ht) as [[Hty Hh Hok] _].
  pose proof (calm_same_file _ _ _ _ _ Hc Hi Hca Hv) as Hs.
  assert (icache (put l) !!! ip = i) as Ei by (by apply list_lookup_total_correct).
  split; [|by eapply holds_frame; [exact Hh | done | done | by eapply lookup_lt_Some | by rewrite Ei] | done].
  rewrite Ei. destruct Hs as [_ <-]. exact Hty.
Qed.

Lemma node_type n : node s0 T n -> i_type (inode_of s0 n) <> 0 /\ i_nlink (inode_of s0 n) <> 0 /\
  (i_type (inode_of s0 n) = T_DIR <-> is_Some (T !! n)).
Proof.
  intros [[es E]|[E (? & ? & ?)]].
  - destruct (t_dirs _ _ Htree n es E) as [[Hty _ _] Hnl].
    change (i_type (inode_of s0 n) = T_DIR) in Hty. split_and!; [rewrite Hty; done | done |]. rewrite E. by split.
  - split_and!; [done..|]. rewrite E. split; [done | by intros [? ?]].
Qed.

Section Counts.
Context (r : list Z).
Lemma alter_inc_dec ip : alter (fun x => x - 1) ip (alter (fun x => x + 1) ip r) = r.
Proof.
  apply list_eq. intros k. rewrite !list_lookup_alter. repeat case_decide; subst; try done; destruct (r !! _); simpl; try done; f_equal; lia.
Qed.
Lemma alter_inc_inc_dec ip jp :
  alter (fun x => x - 1) ip (alter (fun x => x + 1) jp (alter (fun x => x + 1) ip r)) = alter (fun x => x + 1) jp r.
Proof.
  apply list_eq. intros k. rewrite !list_lookup_alter. repeat case_decide; subst; try done; destruct (r !! _); simpl; try done; f_equal; lia.
Qed.
End Counts.

(** the entries free at the start *)
Context (l0 : list inode).
Definition two_free : Prop := exists a b : nat, a <> b /\ refs l0 !! a = Some 0 /\ refs l0 !! b = Some 0.
Hypothesis Hfree : two_free.
Hypothesis Hpos : Forall (fun r => 0 <= r) (refs l0).

Lemma free_left l ip : refs l = alter (fun x => x + 1) ip (refs l0) -> exists k, refs l !! k = Some 0.
Proof.
  destruct Hfree as (a & b & Hab & Ha & Hb). intros ->.
  destruct (decide (a = ip)) as [->|]; [exists b | exists a]; by rewrite list_lookup_alter_ne.
Qed.

(** what a walk gives: [o] is where the names lead *)
Definition walked (o : option (Z * list Z)) (r : option (nat * list Z)) (s' : fsys) : Prop :=
  exists l', s' = put l' /\ calm s0 None l' /\
    match o with
    | None => r = None /\ refs l' = refs l0
    | Some (n, name) => exists ip, r = Some (ip, name) /\ names_inode l' ip n /\ refs l' = alter (fun x => x + 1) ip (refs l0)
    end.

Lemma iunlockput_none l ip i n : calm s0 (Some ip) l -> refs l = alter (fun x => x + 1) ip (refs l0) ->
  l !! ip = Some i -> caches ROOTDEV n i -> node s0 T n ->
  returns (iunlockput ip ;; mret None) (put l) (walked None).
Proof.
  intros Hc Hr Hi Hca Hn. apply node_type in Hn as (_ & Hnl & _). apply returns_bind.
  apply (iunlockput_calm l ip i n); try done. intros l' Hc' Hr' _. step.
  exists l'. split_and!; try done. by rewrite Hr', Hr, alter_inc_dec.
Qed.

Lemma namex_loop_ok : forall fuel parent path name ip n l,
  calm s0 None l -> refs l = alter (fun x => x + 1) ip (refs l0) -> names_inode l ip n -> node s0 T n ->
  (length path < fuel)%nat ->
  returns (namex_loop fuel parent path name ip) (put l) (walked (resolve T parent n (components path) name)).
Proof.
  induction fuel as [|fuel IH]; intros parent path name ip n l Hc Hr Hn Hnode Hf; [lia|].
  destruct (node_type n Hnode) as (Hty & Hnl & Hdir). cbn [namex_loop].
  pose proof (skipelem_spec path) as Hsk. destruct (skipelem path) as [[path' name']|].
  2:{ rewrite Hsk. cbn [resolve]. destruct parent.
    - destruct Hn as (i & Hi & Hca). apply returns_bind. apply (iput_calm l ip i n); try done.
      intros l' Hc' Hr'. step. exists l'. split_and!; try done. by rewrite Hr', Hr, alter_inc_dec.
    - step. exists l. split_and!; try done. by exists ip. }
  destruct Hsk as (-> & Hlen & Hlast). cbn [resolve]. apply returns_bind.
  apply (ilock_calm l ip n); try done. intros i1 l1 Hc1 Hr1 Hlt Hca1 Hv1.
  assert (l1 !! ip = Some i1) as Hi1 by (by apply list_lookup_insert_eq). rewrite Hr in Hr1.
  apply returns_bind, (inode_at_put _ _ _ _ Hi1).
  assert (i_type i1 = i_type (inode_of s0 n)) as Et.
  { destruct (calm_same_file _ _ _ _ _ Hc1 Hi1 Hca1 Hv1) as [_ <-]. done. }
  destruct (T !! n) as [es|] eqn:ET; cbn [mbind option_bind].
  2:{ assert (i_type i1 <> T_DIR) as Hnd by (rewrite Et, Hdir; intros [? ?]; done).
    rewrite (proj2 (Z.eqb_neq _ _) Hnd). cbn [negb]. by eapply iunlockput_none. }
  assert (i_type i1 = T_DIR) as -> by (rewrite Et; by apply Hdir). change (T_DIR =? T_DIR) with true. cbn [negb].
  assert (bool_decide (path' = []) = bool_decide (components path' = [])) as <- by (by apply bool_decide_ext).
  destruct (parent && bool_decide (path' = [])).
  { apply returns_bind. apply (iunlock_calm l1 ip i1); try done; [apply Hca1|]. intros l2 Hc2 Hr2. step.
    exists l2. split_and!; try done. exists ip. split_and!; [done| |by rewrite Hr2].
    exists (with_locked false i1). split; [by apply list_lookup_insert_eq; unfold l1; rewrite length_insert | done]. }
  pose proof (dirlookup_ok (put l1) ip es name' (calm_is_dir _ _ _ _ _ _ Hc1 Hi1 Hca1 Hv1 ET)) as El.
  unfold dir_map. apply returns_bind. unfold returns at 1. rewrite El. clear El.
  destruct (dir_find name' es) as [[k m]|] eqn:Ef; cbn [fmap option_fmap option_map snd mbind option_bind].
  2:{ by eapply iunlockput_none. }
  assert (i_dev (icache (put l1) !!! ip) = ROOTDEV) as ->.
  { cbn. rewrite (list_lookup_total_correct _ _ _ Hi1). apply Hca1. }
  change (returns (jp ← iget ROOTDEV m; mret (Some (jp, 16 * Z.of_nat k))) (put l1) (fun found s' => returns
    (match found with None => iunlockput ip ;; mret None | Some (next, _) => iunlockput ip ;; namex_loop fuel parent path' name' next end) s'
    (walked (resolve T parent m (components path') name')))).
  apply returns_bind. apply (iget_calm (Some ip) l1 m); [done | by eapply free_left |].
  intros next l2 Hc2 Hr2 Hn2 K2. step. destruct (K2 ip i1 Hi1 ltac:(apply Hca1)) as (r & Hrp & Hi2).
  apply (iunlockput_calm l2 ip (with_ref r i1) n); try done.
  { destruct Hca1 as (? & ? & ?). by split_and!. }
  intros l3 Hc3 Hr3 K3. rewrite Hr2, Hr1 in Hr3. rewrite alter_inc_inc_dec in Hr3.
  apply IH; [done | done | | | lia].
  - apply K3; [done|]. intros ->. cbn [with_ref i_ref].
    pose proof (f_equal (fun x => x !! ip) Hr2) as E. cbv beta in E. unfold refs in E at 1. rewrite Hr1 in E.
    rewrite list_lookup_fmap, Hi2, !list_lookup_alter, !decide_True in E by done.
    destruct (refs l0 !! ip) as [z|] eqn:Ez; [|done]. simpl in E. injection E as E.
    pose proof (Forall_lookup_1 _ _ _ _ Hpos Ez). cbv beta in *. lia.
  - apply (t_names _ _ Htree n es name'); [done|]. unfold dir_map. by rewrite Ef.
Qed.
End Ops.

Lemma refs_pos s lk l : calm s lk l -> Forall (fun r => 0 <= r) (refs l).
Proof. intros Hc. apply Forall_fmap, Forall_lookup. intros k i Hi. by apply (proj1 (c_cache _ _ _ Hc) k). Qed.

(** C33: path resolution.  On a disk whose directories form the tree [T], with
    no inode locked, a cache that agrees with the disk and two free entries,
    [namex] ends for every path.  It finds an inode exactly when the
    components of the path lead, through directories, from the root (for a
    path that begins with a slash) or from the current directory to it; with
    [parent] it stops at the directory of the last component and gives that
    component.  In every case no lock stays held, nothing on the disk changes,
    and the counts of the cache are as before but for one reference to the
    result. *)
Theorem namex_correct s T cwd path parent n :
  tree_ok s T -> calm s None (icache s) -> two_free (icache s) -> node s T n ->
  (if hd 0 path =? SLASH then n = ROOTINO else names_inode (icache s) cwd n) ->
  returns (namex cwd path parent) s (walked s (icache s) (resolve T parent n (components path) [])).
Proof.
  intros Ht Hc Hfree Hnode Hstart. pose proof (refs_pos _ _ _ Hc) as Hpos.
  assert (s = put_cache s (icache s)) as Es by (by destruct s).
  unfold namex. rewrite Es at 1. apply returns_bind. destruct (hd 0 path =? SLASH).
  - subst n. apply (iget_calm s None (icache s)); [done | destruct Hfree as (a & _ & _ & Ha & _); eauto |].
    intros ip l Hc1 Hr1 Hn1 _. apply (namex_loop_ok s T Ht); try done. lia.
  - destruct Hstart as (i & Hi & Hca). pose proof Hca as (Hr & _). unfold idup, upd_inode. do 2 step.
    rewrite put_put, (list_alter_insert _ _ _ _ Hi). apply (namex_loop_ok s T Ht); try done; [| | |lia].
    + apply (calm_alter s None None _ _ i); try done; try (cbn; lia).
      * intros _ Hno. exfalso. apply Hno. by split.
      * exact (c_locks _ _ _ Hc cwd i Hi).
      * intros _ Hv j. exact (c_disk _ _ _ Hc cwd i Hi Hr Hv j).
    + by apply (refs_alter _ _ i).
    + exists (with_ref (i_ref i + 1) i). rewrite list_lookup_insert_eq by (by eapply lookup_lt_Some).
      split; [done|]. destruct Hca as (? & ? & ?). split_and!; cbn; lia || done.
Qed.
End Walk.
