(* ===== verification/MlDir.v ===== *)
(** * Directories of the multilevel kernel

    The multilevel files of [MlIo] meet what [DirSpec] asks of a kernel, so the
    theorems about directories and path names hold of that kernel; and a
    concrete disk, with a root directory and a file, on which they apply. *)

From S2P Require Import Prelude CStr Blocks Inode Index FileIo MlFs MlIo Dir DirSpec DirWalk.

#[export] Instance ml_ops `{DevSw} : FileOps := {|
  Dir.readi := MlIo.readi;
  Dir.writei := MlIo.writei;
  discard := ml_truncate
|}.

(** entry [ip] holds the bytes [c] *)
Definition ml_holds (s : fsys) (ip : nat) (c : list Z) : Prop :=
  let i := icache s !!! ip in
  exists R, ml_file s ip R /\ i_type i <> T_DEV /\ 0 <= i_inum i /\ IBLOCK (i_inum i) (sb s) ∈ R /\
    synced s ip /\ dense s ip /\ c = bytes_from (ml_byte s i) 0 (i_size i).

(** room for one block *)
Definition ml_roomy (s : fsys) (ip : nat) : Prop := log_room s 9 /\ avail s 4.

Lemma length_bytes_from f off m : length (bytes_from f off m) = Z.to_nat m.
Proof. unfold bytes_from. by rewrite length_fmap, length_seqZ. Qed.

Lemma lookup_bytes_from f off m k : (k < Z.to_nat m)%nat -> bytes_from f off m !! k = Some (f (off + Z.of_nat k)).
Proof. intros Hk. unfold bytes_from. by rewrite list_lookup_fmap, lookup_seqZ_lt by lia. Qed.

Lemma slice_bytes_from f off n m :
  0 <= off -> 0 <= n -> off + n <= m -> slice (bytes_from f 0 m) off n = bytes_from f off n.
Proof.
  intros Ho Hn Hm. unfold slice.
  replace m with (off + (n + (m - off - n))) by lia. rewrite bytes_from_app, bytes_from_app by lia.
  rewrite drop_app_length' by (rewrite length_bytes_from; lia).
  by rewrite take_app_length' by (rewrite length_bytes_from; lia).
Qed.

Lemma bytes_from_ext f g off m : (forall k, off <= k < off + m -> g k = f k) -> bytes_from g off m = bytes_from f off m.
Proof.
  intros E. unfold bytes_from. apply list_fmap_ext. intros j k Hk. apply lookup_seqZ in Hk as [-> Hk]. apply E. lia.
Qed.

Lemma take_bytes_from f m n : 0 <= n <= m -> take (Z.to_nat n) (bytes_from f 0 m) = bytes_from f 0 n.
Proof. intros Hn. pose proof (slice_bytes_from f 0 n m) as E. apply E; lia. Qed.

Lemma drop_bytes_from f m n : 0 <= n -> drop (Z.to_nat n) (bytes_from f 0 m) = bytes_from f n (m - n).
Proof.
  intros Hn. destruct (Z.le_gt_cases n m).
  - replace m with (n + (m - n)) at 1 by lia. rewrite bytes_from_app by lia.
    by rewrite drop_app_length' by (rewrite length_bytes_from; lia).
  - rewrite drop_ge by (rewrite length_bytes_from; lia). symmetry. apply nil_length_inv. rewrite length_bytes_from. lia.
Qed.

Lemma splice_bytes_from f g off x m :
  0 <= off <= m -> (forall k, 0 <= k < Z.max m (off + Z.of_nat (length x)) ->
    g k = if decide (off <= k < off + Z.of_nat (length x)) then x !!! Z.to_nat (k - off) else f k) ->
  bytes_from g 0 (Z.max m (off + Z.of_nat (length x))) = splice (bytes_from f 0 m) off x.
Proof.
  intros Ho Hg. set (n := Z.of_nat (length x)) in *. unfold splice.
  replace (Z.max m (off + n)) with (off + (n + (Z.max m (off + n) - off - n))) by lia.
  rewrite !bytes_from_app by lia. rewrite take_bytes_from by lia. f_equal; [|f_equal].
  - apply bytes_from_ext. intros k Hk. rewrite Hg by lia. rewrite decide_False; [done | lia].
  - rewrite Z.add_0_l. apply list_eq. intros k. destruct (decide (k < length x)%nat) as [Hk|Hk].
    + rewrite lookup_bytes_from by lia. rewrite Hg by lia. rewrite decide_True by lia.
      replace (Z.to_nat (off + Z.of_nat k - off)) with k by lia. symmetry. by apply list_lookup_lookup_total_lt.
    + rewrite !lookup_ge_None_2; [done | lia | rewrite length_bytes_from; lia].
  - replace (Z.to_nat off + length x)%nat with (Z.to_nat (off + n)) by lia. rewrite drop_bytes_from by lia.
    rewrite Z.add_0_l. destruct (Z.le_gt_cases m (off + n)) as [Hm|Hm].
    + rewrite Z.max_r by lia. unfold bytes_from. by rewrite !seqZ_nil by lia.
    + rewrite Z.max_l by lia. replace (m - off - n) with (m - (off + n)) by lia.
      apply bytes_from_ext. intros k Hk. rewrite Hg by lia. rewrite decide_False; [done | lia].
Qed.

(** the contents depend on the blocks and on the fields an inode has on disk *)
Section Frame.
Context (s s' : fsys) (ip ip' : nat).
Hypothesis Hblk : blk s' = blk s.
Hypothesis Hsb : sb s' = sb s.
Hypothesis Hlen : (ip' < length (icache s'))%nat.
Hypothesis Hfile : same_file (icache s !!! ip) (icache s' !!! ip').

Lemma block_same b : block_of s' b = block_of s b.
Proof using Hblk. unfold block_of. by rewrite Hblk. Qed.

Lemma fields_same : i_inum (icache s' !!! ip') = i_inum (icache s !!! ip) /\
  i_type (icache s' !!! ip') = i_type (icache s !!! ip) /\ i_size (icache s' !!! ip') = i_size (icache s !!! ip) /\
  i_addrs (icache s' !!! ip') = i_addrs (icache s !!! ip).
Proof using Hfile. destruct Hfile as [E <-]. by split_and!. Qed.

Lemma geom_same : geom s -> geom s'.
Proof using Hblk Hsb.
  intros [G1 G2 G3 G4 G5].
  assert (forall c, used s' c = used s c) as U by (intros c; unfold used; by rewrite Hsb, block_same).
  split; rewrite ?Hsb, ?U; try done.
  - intros b. by rewrite block_same.
  - intros b Hb. rewrite U. by apply G5.
Qed.

Lemma ml_file_same R : ml_file s ip R -> ml_file s' ip' R.
Proof using Hblk Hsb Hlen Hfile.
  intros [Hg Hs Hi Hf [Hn Ho]]. destruct fields_same as (En & Et & Ez & Ea).
  assert (ml_blocks s' (icache s' !!! ip') = ml_blocks s (icache s !!! ip)) as Eb.
  { unfold ml_blocks. apply Forall_bind_ext, Forall_forall. intros k _. unfold slot_blocks. rewrite Ea.
    apply (idx_ext s s'). intros b _. apply block_same. }
  split; [by apply geom_same | by unfold small_disk; rewrite Hsb | done | | ].
  - destruct Hfile as [_ <-]. by destruct Hf.
  - rewrite Eb. split; [done|]. eapply Forall_impl; [exact Ho|]. unfold data_block, used. intros b (H1 & H2 & H3).
    rewrite Hsb, block_same. exact (conj H1 (conj H2 H3)).
Qed.

Lemma ml_holds_same c : ml_holds s ip c -> ml_holds s' ip' c.
Proof using Hblk Hsb Hlen Hfile.
  intros (R & Hml & Hty & H0 & HR & Hsync & [Hd1 Hd2] & Hc). destruct fields_same as (En & Et & Ez & Ea).
  destruct (ml_view_ext s s' (icache s !!! ip) (icache s' !!! ip') block_same Ea) as [El Eb].
  exists R. split_and!; [by apply ml_file_same | by rewrite Et | by rewrite En | by rewrite En, Hsb | | split | ].
  - intros j. unfold disk_inode. rewrite En, Hsb, block_same. destruct Hfile as [_ <-]. apply Hsync.
  - by rewrite Ez.
  - intros o. rewrite Ez, El. apply Hd2.
  - rewrite Hc, Ez. symmetry. apply bytes_from_ext. intros k _. apply Eb.
Qed.
End Frame.

#[export] Program Instance ml_laws `{DevSw} : FileLaws := {|
  holds := ml_holds;
  roomy := ml_roomy;
  file_limit := FILE_LIMIT
|}.
Next Obligation. intros D s s' ip ip' c H E1 E2 Hl Hs. by eapply (ml_holds_same s s' ip ip'). Qed.
Next Obligation.
  intros D s ip c (R & Hf & _ & _ & _ & _ & _ & ->). rewrite length_bytes_from.
  pose proof (fo_size _ (mf_fields _ _ _ Hf)) as [? _]. lia.
Qed.
Next Obligation.
  intros D s ip c (R & Hf & _ & _ & _ & _ & [Hd _] & ->). rewrite length_bytes_from.
  pose proof (fo_size _ (mf_fields _ _ _ Hf)) as [? _]. lia.
Qed.
Next Obligation. intros D. vm_compute. done. Qed.
Next Obligation.
  intros D s ip c off n (R & Hf & Hty & _ & _ & _ & Hd & ->) Ho Hn.
  pose proof (fo_size _ (mf_fields _ _ _ Hf)) as [Hz _]. rewrite length_bytes_from, Z2Nat.id in * by done.
  destruct Hd as [Hlim Hd]. assert (FILE_LIMIT = 1090784256) as HL by reflexivity. change BSIZE with 512 in *.
  change (MlIo.readi ip off n s = Ok (let n' := Z.min n (i_size (icache s !!! ip) - off) in
    (n', slice (bytes_from (ml_byte s (icache s !!! ip)) 0 (i_size (icache s !!! ip))) off n'), s)).
  rewrite (ml_readi_ok ip R) by (done || lia). cbv zeta.
  destruct (Z.ltb_spec (i_size (icache s !!! ip)) off); [lia|]. destruct (Z.leb_spec (2 ^ 32) (off + n)); [lia|].
  cbn [orb]. by rewrite slice_bytes_from by lia.
Qed.
Next Obligation.
  intros D s ip c off x (R & Hf & Hty & H0 & HR & Hsync & Hd & ->) [Hroom Hav] Ho Hx Hb Hl.
  pose proof (fo_size _ (mf_fields _ _ _ Hf)) as [Hz _]. rewrite length_bytes_from, Z2Nat.id in * by done.
  assert (FILE_LIMIT = 1090784256) as HL by reflexivity.
  assert (nblocks off (Z.of_nat (length x)) = 1) as En.
  { unfold nblocks. change BSIZE with 512 in *. destruct (Z.leb_spec (Z.of_nat (length x)) 0); [lia|].
    pose proof (Z.mod_pos_bound off 512). symmetry. apply (Z.div_unique_pos _ _ 1 (off mod 512 + Z.of_nat (length x) - 1)); lia. }
  eapply returns_mono.
  { apply (ml_writei_ok ip R x off s); try done; rewrite ?En; try done; change BSIZE with 512 in *; lia. }
  cbv beta zeta. destruct (Z.ltb_spec (i_size (icache s !!! ip)) off); [lia|].
  destruct (Z.leb_spec (2 ^ 32) (off + Z.of_nat (length x))); [lia|].
  destruct (Z.ltb_spec FILE_LIMIT (off + Z.of_nat (length x))); [lia|]. cbn [orb].
  intros r s' (-> & Hf' & Hz' & Hbytes & Hd' & Hsync' & _ & Hsb & a & z & Ei).
  assert (icache s' !!! ip = with_size z (with_addrs a (icache s !!! ip))) as E.
  { rewrite Ei. apply (upd_inode_at (fun j => with_size z (with_addrs a j))), Hf. }
  split; [done|]. split; [|by rewrite E]. exists R.
  split_and!; try (rewrite E; done); try done.
  - by rewrite E, Hsb.
  - rewrite Hz'. symmetry. apply splice_bytes_from; [lia|]. intros k Hk. apply Hbytes. destruct Hd. lia.
Qed.

(** ** A concrete disk *)

Definition demo_entry (n : Z) (name : string) : dirent := mkdirent n (strncpy 14 (str name)).
Definition demo_entries : list dirent := [demo_entry 1 "."; demo_entry 1 ".."; demo_entry 2 "a"].
Definition demo_root : inode := mkinode 1 1 1 false true T_DIR 0 0 1 48 (4 :: replicate 12 0).
Definition demo_file : inode := mkinode 1 2 1 false true T_FILE 0 0 1 0 (replicate 13 0).
Definition demo_dinodes : list Z :=
  Eval vm_compute in splice (splice zero_block 64 (dinode_bytes demo_root)) 128 (dinode_bytes demo_file).
Definition demo_content : list Z := Eval vm_compute in splice zero_block 0 (dir_bytes demo_entries).
Definition demo_disk (cache : list inode) : fsys :=
  mkfs demo_sb (<[2 := demo_dinodes]> (<[4 := demo_content]> {[3 := 255 :: replicate 511 0]})) [] 1 cache [].

Lemma demo_disk_block cache b :
  block_of (demo_disk cache) b =
  if decide (2 = b) then demo_dinodes else if decide (4 = b) then demo_content else block_of (demo_fs []) b.
Proof.
  unfold block_of at 1. cbn [blk demo_disk]. rewrite lookup_insert. case_decide; [done|]. rewrite lookup_insert. by case_decide.
Qed.

Lemma demo_disk_used cache c : 0 <= c < 40 -> used (demo_disk cache) c = used (demo_fs []) c.
Proof.
  intros Hc. unfold used. change (sb (demo_disk cache)) with demo_sb. change (sb (demo_fs [])) with demo_sb.
  rewrite demo_bblock by done. by rewrite demo_disk_block.
Qed.

Lemma demo_disk_geom cache : geom (demo_disk cache).
Proof.
  pose proof (demo_geom []) as [G1 G2 G3 G4 G5]. split; [done| |done|done|].
  - intros b. rewrite demo_disk_block. repeat case_decide; [reflexivity..|apply G2].
  - intros b Hb. rewrite demo_disk_used by (by apply G4). by apply G5.
Qed.

Lemma demo_root_fields : bool_decide (fields_ok demo_root).
Proof. vm_compute. exact I. Qed.

Lemma demo_root_file cache : ml_file (demo_disk (demo_root :: cache)) 0 [2].
Proof.
  split; [apply demo_disk_geom | vm_compute; congruence | simpl; lia | apply (bool_decide_unpack _ demo_root_fields) |].
  assert (ml_blocks (demo_disk (demo_root :: cache)) demo_root = [4]) as Eb by (vm_compute; reflexivity).
  change (icache (demo_disk (demo_root :: cache)) !!! 0%nat) with demo_root. rewrite Eb.
  split; [apply (bool_decide_unpack _); vm_compute; exact I|].
  repeat constructor; try (simpl; lia); try (intros c Hc; by rewrite demo_bblock); by rewrite demo_disk_used by lia.
Qed.

Lemma demo_entries_ok : Forall dirent_ok demo_entries.
Proof. repeat constructor; vm_compute; congruence. Qed.

Lemma demo_root_dir cache : dir_at (H := ml_ops (H := no_devs)) (demo_disk (demo_root :: cache)) 0 demo_entries.
Proof.
  split; [done | | apply demo_entries_ok]. exists [2].
  change (icache (demo_disk (demo_root :: cache)) !!! 0%nat) with demo_root. split_and!.
  - apply demo_root_file.
  - done.
  - done.
  - change (IBLOCK _ _) with 2. apply elem_of_cons. by left.
  - intros j. vm_compute. reflexivity.
  - split; [vm_compute; congruence|].
    change (icache (demo_disk (demo_root :: cache)) !!! 0%nat) with demo_root. change (i_size demo_root) with 48.
    intros o Ho. assert (o / BSIZE = 0) as -> by (change BSIZE with 512; Z.div_mod_to_equations; lia). vm_compute. congruence.
  - vm_compute. reflexivity.
Qed.

Lemma dirlookup_correct_witness :
  exists k : nat, dirlookup (H := ml_ops (H := no_devs)) 0 (str "a") (demo_disk [demo_root]) =
    (ip ← iget 1 2; mret (Some (ip, DIRENT_SIZE * Z.of_nat k))) (demo_disk [demo_root]).
Proof.
  pose proof (dirlookup_correct (H := ml_ops (H := no_devs)) (demo_disk [demo_root]) 0 demo_entries (str "a") (demo_root_dir [])) as H.
  change (dir_map demo_entries (str "a")) with (Some 2) in H. destruct H as (k & de & _ & _ & _ & _ & H).
  exists k. exact H.
Defined.

Lemma dirlink_correct_witness :
  returns (dirlink (H := ml_ops (H := no_devs)) 0 (str "b") 2) (demo_disk [demo_root]) (fun r s' =>
    r = 0 /\ exists es', es' = demo_entries ++ [demo_entry 2 "b"] /\ dir_map es' (str "b") = Some 2 /\ dir_map es' (str "a") = Some 2 /\ dir_map es' (str "c") = None).
Proof.
  eapply returns_mono.
  - apply (dirlink_correct (H := ml_ops (H := no_devs)) (demo_disk [demo_root]) 0 demo_entries (str "b") 2 (demo_root_dir [])).
    + split; [split; [vm_compute; congruence | done]|].
      exists [8; 9; 10; 11]. split_and!; [done | apply (bool_decide_unpack _); vm_compute; exact I |].
      repeat constructor; try (simpl; lia); by rewrite demo_disk_used by lia.
    + vm_compute. congruence.
    + lia.
  - cbv beta. intros r s' (-> & k & es' & _ & _ & Hk & Hes & Hm). split; [done|]. exists es'. split; [|rewrite !Hm; by vm_compute].
    destruct Hk as [-> | (de & Hk & Hz)]; [exact Hes|]. exfalso. do 3 (destruct k as [|k]; [injection Hk as <-; done|]). done.
Defined.

Definition demo_tree_map : gmap Z (list dirent) := {[1 := demo_entries]}.
Definition free_entry : inode := mkinode 0 0 0 false false 0 0 0 0 0 [].

Lemma demo_tree_ok cache : tree_ok (H := ml_ops (H := no_devs)) (demo_disk cache) demo_tree_map.
Proof.
  split.
  - intros n es Ht. unfold demo_tree_map in Ht. apply lookup_singleton_Some in Ht as [<- <-]. split; [|vm_compute; congruence].
    assert (put_cache (demo_disk cache) [inode_of (demo_disk cache) 1] = demo_disk [demo_root]) as -> by (vm_compute; reflexivity).
    apply demo_root_dir.
  - intros n es name m Ht. unfold demo_tree_map in Ht. apply lookup_singleton_Some in Ht as [<- <-]. unfold dir_map. cbn [dir_find demo_entries].
    destruct (_ && _); [intros [= <-]; left; by eexists|]. destruct (_ && _); [intros [= <-]; left; by eexists|].
    destruct (_ && _); [intros [= <-]; right | done]. split; [done|]. split_and!; vm_compute; congruence.
Qed.

Lemma namex_correct_witness :
  returns (namex (H := ml_ops (H := no_devs)) 0 (str "//a") false) (demo_disk [free_entry; free_entry]) (fun r s' =>
    exists ip i, r = Some (ip, str "a") /\ icache s' !! ip = Some i /\ i_inum i = 2 /\ 0 < i_ref i).
Proof.
  eapply returns_mono.
  - apply (namex_correct (H := ml_ops (H := no_devs)) (demo_disk [free_entry; free_entry]) demo_tree_map 0 (str "//a") false 1).
    + apply demo_tree_ok.
    + split; [split|..].
      * intros [|[|a]] x; [intros [= <-]; done.. | done].
      * intros [|[|a]] [|[|b]] x y; try done; intros [= <-] [= <-]; simpl; lia.
      * intros [|[|a]] x; [intros [= <-]; done.. | done].
      * intros [|[|a]] x; [intros [= <-]; done.. | done].
    + exists 0%nat, 1%nat. by split_and!.
    + left. by eexists.
    + done.
  - cbv beta. change (resolve demo_tree_map false 1 (components (str "//a")) []) with (Some (2, str "a")).
    intros r s' (l' & -> & _ & ip & -> & (i & Hi & Hr & _ & Hn) & _). exists ip, i. split_and!; done.
Defined.
