(* ===== verification/ExecFs.v ===== *)
(** * [exec] on the file system, and concrete runs

    The bytes that [Exec] reads are those of a file of the multilevel kernel; a
    machine with enough free pages, on which [copyuvm] and [exec] succeed. *)

From S2P Require Import Prelude Blocks Inode FileIo Vm LazyAlloc Uvm Kvm Exec ExecSpec MlFs MlIo MlDir.

(** the reads of [exec] are the reads of the inode that [namei] found *)
Lemma exec_readi `{DevSw} ip R f off n s :
  let i := icache s !!! ip in
  ml_file s ip R -> dense s ip -> i_type i <> T_DEV -> 0 <= off < 2 ^ 32 -> 0 <= n < 2 ^ 32 ->
  0 <= i_size i -> f = bytes_from (ml_byte s i) 0 (i_size i) ->
  MlIo.readi ip off n s = Ok (Exec.readi f off n, s).
Proof.
  intros i Hf Hd Ht Hoff Hn Hz ->.
  rewrite (ml_readi_ok ip R off n s Hf Hd Ht Hoff Hn). fold i. unfold Exec.readi. rewrite length_bytes_from, Z2Nat.id by lia.
  destruct (_ || _) eqn:E; [done|]. rewrite orb_false_iff, Z.ltb_ge in E. destruct E as [E _]. do 3 f_equal.
  unfold file_bytes. symmetry. apply slice_bytes_from; lia.
Qed.

(** ** A machine with many free pages *)

Fixpoint demo_pages (n : nat) : list Z :=
  match n with O => [pg 0; pg 1; pg 2] | S n' => pg (6 + Z.of_nat n') :: demo_pages n' end.
Fixpoint demo_owner (n : nat) : Z -> kind :=
  match n with O => demo_own | S n' => own_set (pg (6 + Z.of_nat n')) Free (demo_owner n') end.
Fixpoint demo_many (n : nat) : mach :=
  match n with O => demo_mach | S n' => kfreed (pg (6 + Z.of_nat n')) (demo_many n') end.

Lemma demo_layout_ok : layout_ok (H := demo_layout).
Proof. split; by vm_compute. Qed.

Lemma demo_page_ok k : 0 <= k < 16384 -> page_ok (H := demo_layout) (pg k).
Proof.
  intros Hk. unfold page_ok, pg. cbn [end_ demo_layout]. change PGSIZE with 4096. unfold KERNBASE, PHYSTOP.
  split; [Z.div_mod_to_equations; lia|]. split; lia.
Qed.

Lemma demo_detached n k : 6 + Z.of_nat n <= k -> demo_owner n (pg k) = Detached.
Proof.
  induction n as [|n IH]; intros Hk; cbn [demo_owner].
  - unfold demo_own. assert (forall j, j < 6 -> pg k =? pg j = false) as E by (intros j Hj; apply Z.eqb_neq; unfold pg; lia).
    by rewrite !E.
  - rewrite own_set_ne by (unfold pg; lia). apply IH. lia.
Qed.

Lemma demo_length n : length (demo_pages n) = (n + 3)%nat.
Proof. induction n as [|n IH]; cbn [demo_pages length]; [done|]. rewrite IH. lia. Qed.

Lemma demo_many_ok n : Z.of_nat n <= 16000 ->
  vm_inv (H := demo_layout) (demo_owner n) (demo_pages n) [pg 4] (demo_many n) /\ same_proc demo_mach (demo_many n) /\
  forall a, is_user a -> uview (mem (demo_many n)) (pg 4) a = uview demo_mem (pg 4) a.
Proof.
  induction n as [|n IH]; intros Hn; [split; [exact demo_vm_inv | done]|].
  destruct IH as (I & P & V); [lia|]. set (v := pg (6 + Z.of_nat n)).
  assert (page_ok (H := demo_layout) v) as Hv by (apply demo_page_ok; lia).
  assert (returns (kfree (H := demo_layout) v) (demo_many n) (fun _ s' => s' = demo_many (S n) /\
    vm_inv (H := demo_layout) (demo_owner (S n)) (demo_pages (S n)) [pg 4] s' /\ same_proc demo_mach s' /\
    forall a, is_user a -> uview (mem s') (pg 4) a = uview demo_mem (pg 4) a)) as Hk.
  { apply (kfree_ok (H := demo_layout) (demo_owner n) (demo_pages n) [pg 4]); [done | done | by apply demo_detached|].
    intros s' E I' P' _ _ V'. split; [done|]. split; [done|]. split; [by destruct P as (? & ? & ? & ?), P' as (? & ? & ? & ?); split_and!; etrans|].
    intros a Ha. rewrite V' by (done || exact demo_in). by apply V. }
  unfold returns in Hk. rewrite kfree_run in Hk by done. cbn [demo_many]. fold v. tauto.
Qed.

Definition demo_big : mach := demo_many 1200.
Lemma demo_big_ok : vm_inv (H := demo_layout) (demo_owner 1200) (demo_pages 1200) [pg 4] demo_big /\ same_proc demo_mach demo_big /\
  forall a, is_user a -> uview (mem demo_big) (pg 4) a = uview demo_mem (pg 4) a.
Proof. apply demo_many_ok. lia. Qed.

(** forking the process of the demonstration: its page and its reserved page *)
Lemma copyuvm_correct_witness :
  returns (copyuvm (H := demo_layout) (pg 4) 8192) demo_big (fun d s' =>
    d <> 0 /\ d <> pg 4 /\ uview (mem s') d 4095 = Some 0 /\ uview (mem s') d 4096 = Some 0 /\ uview (mem s') d 8192 = None /\
    reserved (vpte (mem s') d 4096) /\ uview (mem s') (pg 4) 4095 = Some 0).
Proof.
  assert (reserved (vpte (mem demo_big) (pg 4) 4096)) as Hres by (split; by vm_compute). revert Hres.
  generalize demo_big_ok (demo_length 1200) demo_in. generalize (demo_owner 1200) (demo_pages 1200) demo_big.
  intros own fl s (I & _ & V) Hfl Hin Hres.
  assert (uview demo_mem (pg 4) 4095 = Some 0 /\ uview demo_mem (pg 4) 4096 = Some 0 /\ uview demo_mem (pg 4) 8192 = None) as (Z1 & Z2 & Z3).
  { unfold uview. rewrite !demo_vpte by done. by vm_compute. }
  assert (forall a, 0 <= a < 16384 -> is_user a) as Hu by (intros; unfold is_user, KERNBASE; lia).
  eapply returns_mono.
  - apply (copyuvm_correct (H := demo_layout) demo_layout_ok own fl [pg 4] s (pg 4) 8192); [exact I | exact Hin|].
    unfold KERNBASE. lia.
  - cbv beta. intros d s' ((_ & K & _) & [(_ & Hl & _)|(Hd & Hnd & _ & _ & Hv & He)]); [exfalso; rewrite Hfl in Hl; vm_compute in Hl; done|].
    split; [done|]. split; [intros ->; by apply Hnd|]. rewrite !Hv by (apply Hu; lia).
    change (4095 / PGSIZE <? up 8192) with true. change (4096 / PGSIZE <? up 8192) with true. change (8192 / PGSIZE <? up 8192) with false.
    rewrite (uview_see (mem s')), (K (pg 4) 4095 Hin), <- uview_see by (apply Hu; lia). rewrite !V by (apply Hu; lia).
    split_and!; [exact Z1 | exact Z2 | reflexivity | | exact Z1]. apply He; [apply Hu; lia | by vm_compute | exact Hres].
Defined.

(** a program of three bytes at address 0, with a data size of eight *)
Definition demo_file : list Z :=
  le32 ELF_MAGIC ++ replicate 20 0 ++ le32 2 ++ le32 52 ++ replicate 12 0 ++ [1; 0] ++ replicate 6 0 ++
  words [ELF_PROG_LOAD; 84; 0; 0; 3; 8; 0; 0] ++ [144; 235; 254].
Definition demo_argv : list (list Z) := [[97]; [98; 99]].

Definition demo_stack : list Z := words [0xffffffff; 2; 12268; 12284; 12280; 0] ++ [98; 99; 0; 0] ++ [97; 0; 0; 0].
Definition demo_runs_as (R : run) : Prop :=
  r_entry R = 2 /\ r_top R = 4096 /\ r_esp R = 12256 /\ map (r_image R) [0; 1; 2; 3] = [144; 235; 254; 0] /\
  map (r_stack R) (seqZ (r_esp R) 32) = demo_stack.
Lemma demo_runs : exists R, runs demo_file demo_argv = Some R /\ demo_runs_as R.
Proof.
  assert (match runs demo_file demo_argv with None => False | Some R => demo_runs_as R end) as H by (vm_compute; split_and!; reflexivity).
  revert H. generalize (runs demo_file demo_argv). intros [R|] H; [by exists R | destruct H].
Qed.

(** the process of the demonstration runs this program *)
Lemma exec_correct_witness :
  returns (exec (H := demo_layout) (Some demo_file) [47; 97] demo_argv) (mktask demo_big [] 0 0 []) (fun r t' =>
    r = 0 /\ calls t' = [FBegin; FIlock; FUnlockPut; FEnd] /\ name t' = [97] /\ eip t' = 2 /\ esp t' = 12256 /\ p_sz (vm t') = 12288 /\
    uview (mem (vm t')) (p_pgdir (vm t')) 0 = Some 144 /\ uview (mem (vm t')) (p_pgdir (vm t')) 3 = Some 0 /\
    uview (mem (vm t')) (p_pgdir (vm t')) 4096 = None /\ uview (mem (vm t')) (p_pgdir (vm t')) 12260 = Some 2).
Proof.
  destruct demo_runs as (R & ER & Hent & Htop & Hesp & Himg & Hst). injection Himg as Hi0 Hi1 Hi2 Hi3.
  generalize demo_big_ok (demo_length 1200). generalize (demo_owner 1200) (demo_pages 1200) demo_big.
  intros own fl s (I & P & V) Hfl. assert (p_pgdir s = pg 4) as Hd by (by destruct P as (_ & Hd & _)).
  eapply returns_mono.
  - apply (exec_correct (H := demo_layout) demo_layout_ok own fl (mktask s [] 0 0 []) [] (Some demo_file) [47; 97] demo_argv).
    + cbn [vm]. rewrite Hd. exact I.
    + apply not_elem_of_nil.
    + intros f [= <-]. split; [by vm_compute|]. apply (bool_decide_unpack _). by vm_compute.
    + repeat constructor.
  - cbv beta zeta. intros r t' (Hc & [(-> & f & R' & [= <-] & ER' & Hrep)|(_ & _ & Hl)]).
    + rewrite ER in ER'. injection ER' as <-. split; [done|]. split; [exact Hc|].
      destruct Hrep as (own' & fl' & _ & _ & _ & _ & Hsz & Hv & He & Hs & Hn). rewrite Hn, He, Hs, Hsz, Hent, Hesp, Htop.
      split; [reflexivity|]. do 3 (split; [reflexivity|]).
      assert (forall a, 0 <= a < 16384 -> is_user a) as Hu by (intros; unfold is_user, KERNBASE; lia).
      rewrite !Hv, Htop by (apply Hu; lia). rewrite Hi0, Hi3. cbv iota.
      assert (r_stack R 12260 = 2) as Hargc.
      { rewrite Hesp in Hst. apply (f_equal (fun l => nth 4 l 0)) in Hst. exact Hst. }
      rewrite Hargc. split_and!; reflexivity.
    + exfalso. specialize (Hl demo_file R eq_refl ER). rewrite Hfl, Htop in Hl. vm_compute in Hl. discriminate Hl.
Defined.
