(* ===== verification/File.v ===== *)
(** * Open files and file system calls ([file.c], [sysfile.c])

    The file table, the descriptors and the current directory of the running
    process, and the system calls on them, over the file-system layers below
    ([FileOps]) and the pipes of [Pipe].  The two kernels differ in the details
    that the class [Variant] holds.

    A system call takes its arguments as [argint], [argptr] and [argstr] fetch
    them from user memory; [None] is an argument whose fetch fails.  A call runs
    to its end or blocks; what other processes do is not interleaved. *)

From S2P Require Import Prelude CStr Blocks Inode Dir.
From S2P Require Pipe.

Definition NFILE : Z := 100.
Definition NOFILE : Z := 16.
Definition O_RDONLY : Z := 0.
Definition O_WRONLY : Z := 1.
Definition O_RDWR : Z := 2.
Definition O_CREATE : Z := 512.

Inductive ftype : Set := FD_NONE | FD_PIPE | FD_INODE.
#[export] Instance ftype_eq_dec : EqDecision ftype.
Proof. solve_decision. Defined.

(** [struct file]; [fl_pipe] is an index into [pipes], [fl_ip] one into the inode
    cache; [fl_name] is a field of the continuous-sector kernel only *)
Record file : Type := mkfile {
  fl_type : ftype;
  fl_ref : Z;
  fl_readable : bool;
  fl_writable : bool;
  fl_pipe : nat;
  fl_ip : nat;
  fl_off : Z;
  fl_name : list Z
}.
#[export] Instance file_inhabited : Inhabited file := populate (mkfile FD_NONE 0 false false 0 0 0 []).

(** the file system, [ftable.file], the pipes, and [ofile], [cwd] and [killed]
    of the running process *)
Record kst : Type := mkk {
  fs : fsys;
  ftable : list file;
  pipes : list Pipe.pipe;
  ofile : list (option nat);
  cwd : nat;
  killed : bool
}.

Definition set_fs (f : fsys) (s : kst) : kst := mkk f (ftable s) (pipes s) (ofile s) (cwd s) (killed s).
Definition set_ftable (t : list file) (s : kst) : kst := mkk (fs s) t (pipes s) (ofile s) (cwd s) (killed s).
Definition set_pipes (p : list Pipe.pipe) (s : kst) : kst := mkk (fs s) (ftable s) p (ofile s) (cwd s) (killed s).
Definition set_ofile (o : list (option nat)) (s : kst) : kst := mkk (fs s) (ftable s) (pipes s) o (cwd s) (killed s).
Definition set_cwd (ip : nat) (s : kst) : kst := mkk (fs s) (ftable s) (pipes s) (ofile s) ip (killed s).

#[export] Instance pipe_inhabited : Inhabited Pipe.pipe := populate (Pipe.pipealloc_init []).

(** a call into the file system *)
Definition on_fs {A} (m : M fsys A) : M kst A := fun s =>
  match m (fs s) with
  | Ok (a, f) => Ok (a, set_fs f s)
  | Panic msg => Panic msg
  | Block => Block
  end.

(** what the kernels do differently: which inode [create] may open again, the
    type of a file that [sys_open] creates, whether [filewrite] accepts a short
    write, and what [sys_open] keeps of the path *)
Class Variant : Type := {
  may_reuse : Z -> Z -> bool;
  create_type : Z -> Z;
  short_write_ok : bool;
  saved_name : list Z -> list Z
}.

(** ** Transactions *)

Definition set_outstanding (n : Z) (s : fsys) : fsys := mkfs (sb s) (blk s) (lh s) n (icache s) (console s).

(** [begin_op]; a commit is part of [end_op], so none is running here *)
Definition begin_op : M fsys unit :=
  s ← get;
  if LOGSIZE <? Z.of_nat (length (lh s)) + (outstanding s + 1) * MAXOPBLOCKS then block
  else modify (set_outstanding (outstanding s + 1)).

Definition end_op : M fsys unit :=
  s ← get;
  modify (set_outstanding (outstanding s - 1)) ;;
  if outstanding s - 1 =? 0 then modify (set_lh (fun _ => [])) else mret tt.

(** ** The file table *)

Definition get_file (f : nat) : M kst file := gets (fun s => ftable s !!! f).
Definition upd_file (f : nat) (g : file -> file) : M kst unit :=
  modify (fun s => set_ftable (alter g f (ftable s)) s).
Definition with_fref (r : Z) (f : file) : file :=
  mkfile (fl_type f) r (fl_readable f) (fl_writable f) (fl_pipe f) (fl_ip f) (fl_off f) (fl_name f).
Definition with_ftype (t : ftype) (f : file) : file :=
  mkfile t (fl_ref f) (fl_readable f) (fl_writable f) (fl_pipe f) (fl_ip f) (fl_off f) (fl_name f).
Definition with_off (o : Z) (f : file) : file :=
  mkfile (fl_type f) (fl_ref f) (fl_readable f) (fl_writable f) (fl_pipe f) (fl_ip f) o (fl_name f).

(** the first file that no one refers to *)
Fixpoint free_file (l : list file) (k : nat) : option nat :=
  match l with
  | [] => None
  | f :: l' => if fl_ref f =? 0 then Some k else free_file l' (S k)
  end.

Section Kernel.
Context `{FileOps} `{Variant}.

(** [filealloc]; the continuous-sector kernel also clears the name *)
Definition filealloc : M kst (option nat) :=
  s ← get;
  match free_file (ftable s) 0 with
  | None => mret None
  | Some f => upd_file f (fun x => mkfile (fl_type x) 1 (fl_readable x) (fl_writable x) (fl_pipe x) (fl_ip x) (fl_off x) []) ;;
              mret (Some f)
  end.

Definition filedup (f : nat) : M kst nat :=
  x ← get_file f;
  if fl_ref x <? 1 then panic "filedup" else upd_file f (with_fref (fl_ref x + 1)) ;; mret f.

(** [pipeclose(ff.pipe, ff.writable)] *)
Definition close_pipe (p : nat) (writable : bool) : M kst unit :=
  modify (fun s => set_pipes (alter (fun q => (Pipe.pipeclose q (if writable then 1 else 0)).1) p (pipes s)) s).

Definition fileclose (f : nat) : M kst unit :=
  ff ← get_file f;
  if fl_ref ff <? 1 then panic "fileclose"
  else if 0 <? fl_ref ff - 1 then upd_file f (with_fref (fl_ref ff - 1))
  else
    upd_file f (fun x => with_ftype FD_NONE (with_fref 0 x)) ;;
    match fl_type ff with
    | FD_PIPE => close_pipe (fl_pipe ff) (fl_writable ff)
    | FD_INODE => on_fs (begin_op ;; iput (fl_ip ff) ;; end_op)
    | FD_NONE => mret tt
    end.

Definition filestat (f : nat) : M kst (option stat) :=
  x ← get_file f;
  match fl_type x with
  | FD_INODE => on_fs (ilock (fl_ip x) ;; st ← stati (fl_ip x); iunlock (fl_ip x) ;; mret (Some st))
  | _ => mret None
  end.

(** [fileread]: the result and the bytes stored at [addr] *)
Definition fileread (f : nat) (n : Z) : M kst (Z * list Z) :=
  x ← get_file f;
  if negb (fl_readable x) then mret (-1, [])
  else match fl_type x with
  | FD_PIPE =>
      s ← get;
      match Pipe.piperead (pipes s !!! fl_pipe x) (killed s) n with
      | (Pipe.Sleeping _, _) => block
      | (Pipe.Returned r, p') =>
          modify (set_pipes (<[fl_pipe x := p']> (pipes s))) ;;
          mret (match r with None => (-1, []) | Some bytes => (Z.of_nat (length bytes), bytes) end)
      end
  | FD_INODE =>
      on_fs (ilock (fl_ip x)) ;;
      '(r, bytes) ← on_fs (readi (fl_ip x) (fl_off x) n);
      (if 0 <? r then upd_file f (with_off (u32 (fl_off x + r))) else mret tt) ;;
      on_fs (iunlock (fl_ip x)) ;;
      mret (r, bytes)
  | FD_NONE => panic "fileread"
  end.

(** [max] of [filewrite] *)
Definition MAXWRITE : Z := (MAXOPBLOCKS - 1 - 1 - 2) / 2 * 512.

(** the loop of [filewrite]: the final [i] *)
Fixpoint filewrite_loop (fuel : nat) (f : nat) (src : list Z) (n i : Z) : M kst Z :=
  match fuel with
  | O => block
  | S fuel' =>
      if i <? n then
        let n1 := Z.min (n - i) MAXWRITE in
        x ← get_file f;
        on_fs (begin_op ;; ilock (fl_ip x)) ;;
        r ← on_fs (writei (fl_ip x) (slice src i n1) (fl_off x) n1);
        (if 0 <? r then upd_file f (with_off (u32 (fl_off x + r))) else mret tt) ;;
        on_fs (iunlock (fl_ip x) ;; end_op) ;;
        if r <? 0 then mret i
        else if negb (r =? n1) then
          if short_write_ok then mret (i + r) else panic "short filewrite"
        else filewrite_loop fuel' f src n (i + r)
      else mret i
  end.

Definition filewrite (f : nat) (src : list Z) (n : Z) : M kst Z :=
  x ← get_file f;
  if negb (fl_writable x) then mret (-1)
  else match fl_type x with
  | FD_PIPE =>
      s ← get;
      match Pipe.pipewrite (pipes s !!! fl_pipe x) (killed s) (fun k => src !!! Z.to_nat k) n 0 with
      | (Pipe.Sleeping _, _) => block
      | (Pipe.Returned r, p') => modify (set_pipes (<[fl_pipe x := p']> (pipes s))) ;; mret r
      end
  | FD_INODE =>
      i ← filewrite_loop (S (Z.to_nat n)) f src n 0;
      mret (if i =? n then n else if short_write_ok && (0 <? i) then i else -1)
  | FD_NONE => panic "filewrite"
  end.

(** ** Descriptors *)

(** [argfd]: the descriptor and its file *)
Definition argfd (arg : option Z) : M kst (option (Z * nat)) :=
  s ← get;
  mret (match arg with
        | Some fd =>
            if (fd <? 0) || (NOFILE <=? fd) then None
            else match ofile s !!! Z.to_nat fd with Some f => Some (fd, f) | None => None end
        | None => None
        end).

Fixpoint free_fd (l : list (option nat)) (k : nat) : option nat :=
  match l with
  | [] => None
  | None :: _ => Some k
  | Some _ :: l' => free_fd l' (S k)
  end.

(** [fdalloc]; -1 when there is no free descriptor *)
Definition fdalloc (f : nat) : M kst Z :=
  s ← get;
  match free_fd (ofile s) 0 with
  | None => mret (-1)
  | Some fd => modify (set_ofile (<[fd := Some f]> (ofile s))) ;; mret (Z.of_nat fd)
  end.

Definition sys_dup (arg : option Z) : M kst Z :=
  a ← argfd arg;
  match a with
  | None => mret (-1)
  | Some (_, f) =>
      fd ← fdalloc f;
      if fd <? 0 then mret (-1) else filedup f ;; mret fd
  end.

Definition sys_read (arg : option Z) (size : option Z) : M kst (Z * list Z) :=
  a ← argfd arg;
  match a, size with
  | Some (_, f), Some n => fileread f n
  | _, _ => mret (-1, [])
  end.

Definition sys_write (arg : option Z) (src : option (list Z)) : M kst Z :=
  a ← argfd arg;
  match a, src with
  | Some (_, f), Some l => filewrite f l (Z.of_nat (length l))
  | _, _ => mret (-1)
  end.

Definition sys_close (arg : option Z) : M kst Z :=
  a ← argfd arg;
  match a with
  | None => mret (-1)
  | Some (fd, f) =>
      s ← get;
      modify (set_ofile (<[Z.to_nat fd := None]> (ofile s))) ;;
      fileclose f ;;
      mret 0
  end.

(** [sys_fstat]; [ok] says that the pointer argument is good *)
Definition sys_fstat (arg : option Z) (ok : bool) : M kst (option stat) :=
  a ← argfd arg;
  match a with
  | Some (_, f) => if ok then filestat f else mret None
  | None => mret None
  end.

(** ** Calls on names *)

Definition with_nlinks (d : Z) (i : inode) : inode := with_nlink (i16 (i_nlink i + d)) i.
Definition with_device (major minor : Z) (i : inode) : inode :=
  mkinode (i_dev i) (i_inum i) (i_ref i) (i_locked i) (i_valid i) (i_type i) major minor
    (i_nlink i) (i_size i) (i_addrs i).

(** the [bad] exit of [sys_link] *)
Definition link_bad (ip : nat) : M fsys Z :=
  ilock ip ;;
  upd_inode ip (with_nlinks (-1)) ;;
  iupdate ip ;;
  iunlockput ip ;;
  end_op ;;
  mret (-1).

Definition sys_link (cwd : nat) (old new : option (list Z)) : M fsys Z :=
  match old, new with
  | Some old, Some new =>
      begin_op ;;
      found ← namei cwd old;
      match found with
      | None => end_op ;; mret (-1)
      | Some ip =>
          ilock ip ;;
          i ← inode_at ip;
          if i_type i =? T_DIR then iunlockput ip ;; end_op ;; mret (-1)
          else
            upd_inode ip (with_nlinks 1) ;;
            iupdate ip ;;
            iunlock ip ;;
            parent ← nameiparent cwd new;
            match parent with
            | None => link_bad ip
            | Some (dp, name) =>
                ilock dp ;;
                d ← inode_at dp;
                i ← inode_at ip;
                r ← (if negb (i_dev d =? i_dev i) then mret (-1) else dirlink dp name (i_inum i));
                if r <? 0 then iunlockput dp ;; link_bad ip
                else iunlockput dp ;; iput ip ;; end_op ;; mret 0
            end
      end
  | _, _ => mret (-1)
  end.

(** [isdirempty] *)
Fixpoint isdirempty_loop (fuel : nat) (dp : nat) (off : Z) : M fsys bool :=
  match fuel with
  | O => block
  | S fuel' =>
      i ← inode_at dp;
      if off <? i_size i then
        de ← read_dirent "isdirempty: readi" dp off;
        if negb (de_inum de =? 0) then mret false else isdirempty_loop fuel' dp (u32 (off + DIRENT_SIZE))
      else mret true
  end.
Definition isdirempty (dp : nat) : M fsys bool :=
  i ← inode_at dp; isdirempty_loop (S (Z.to_nat (i_size i / DIRENT_SIZE + 1))) dp (2 * DIRENT_SIZE).

(** the [bad] exit of [sys_unlink] *)
Definition unlink_bad (dp : nat) : M fsys Z := iunlockput dp ;; end_op ;; mret (-1).

Definition sys_unlink (cwd : nat) (path : option (list Z)) : M fsys Z :=
  match path with
  | None => mret (-1)
  | Some path =>
      begin_op ;;
      parent ← nameiparent cwd path;
      match parent with
      | None => end_op ;; mret (-1)
      | Some (dp, name) =>
          ilock dp ;;
          if (namecmp name (str ".") =? 0) || (namecmp name (str "..") =? 0) then unlink_bad dp
          else
            found ← dirlookup dp name;
            match found with
            | None => unlink_bad dp
            | Some (ip, off) =>
                ilock ip ;;
                i ← inode_at ip;
                if i_nlink i <? 1 then panic "unlink: nlink < 1"
                else
                  keep ← (if i_type i =? T_DIR then e ← isdirempty ip; mret (negb e) else mret false);
                  if (keep : bool) then iunlockput ip ;; unlink_bad dp
                  else
                    r ← writei dp (replicate (Z.to_nat DIRENT_SIZE) 0) off DIRENT_SIZE;
                    if negb (r =? DIRENT_SIZE) then panic "unlink: writei"
                    else
                      (i ← inode_at ip;
                       if i_type i =? T_DIR then upd_inode dp (with_nlinks (-1)) ;; iupdate dp else mret tt) ;;
                      iunlockput dp ;;
                      upd_inode ip (with_nlinks (-1)) ;;
                      iupdate ip ;;
                      iunlockput ip ;;
                      end_op ;;
                      mret 0
            end
      end
  end.

(** [create]: the new or reopened inode, locked *)
Definition create (cwd : nat) (path : list Z) (type major minor : Z) : M fsys (option nat) :=
  parent ← nameiparent cwd path;
  match parent with
  | None => mret None
  | Some (dp, name) =>
      ilock dp ;;
      found ← dirlookup dp name;
      match found with
      | Some (ip, _) =>
          iunlockput dp ;;
          ilock ip ;;
          i ← inode_at ip;
          if may_reuse type (i_type i) then mret (Some ip) else iunlockput ip ;; mret None
      | None =>
          d ← inode_at dp;
          ip ← ialloc (i_dev d) type;
          ilock ip ;;
          upd_inode ip (with_device major minor) ;;
          upd_inode ip (with_nlink 1) ;;
          iupdate ip ;;
          (if type =? T_DIR then
             upd_inode dp (with_nlinks 1) ;;
             iupdate dp ;;
             i ← inode_at ip;
             d ← inode_at dp;
             r ← dirlink ip (str ".") (i_inum i);
             r ← (if r <? 0 then mret r else dirlink ip (str "..") (i_inum d));
             if r <? 0 then panic "create dots" else mret tt
           else mret tt) ;;
          i ← inode_at ip;
          r ← dirlink dp name (i_inum i);
          if r <? 0 then panic "create: dirlink"
          else iunlockput dp ;; mret (Some ip)
      end
  end.

(** the two ways [sys_open] gets a locked inode; [None] ends the call *)
Definition open_inode (cwd : nat) (path : list Z) (omode : Z) : M fsys (option nat) :=
  if negb (Z.land omode O_CREATE =? 0) then
    create cwd path (create_type omode) 0 0
  else
    found ← namei cwd path;
    match found with
    | None => mret None
    | Some ip =>
        ilock ip ;;
        i ← inode_at ip;
        if (i_type i =? T_DIR) && negb (omode =? O_RDONLY) then iunlockput ip ;; mret None
        else mret (Some ip)
    end.

Definition sys_open (path : option (list Z)) (mode : option Z) : M kst Z :=
  match path, mode with
  | Some path, Some omode =>
      s ← get;
      on_fs begin_op ;;
      found ← on_fs (open_inode (cwd s) path omode);
      match found with
      | None => on_fs end_op ;; mret (-1)
      | Some ip =>
          f ← filealloc;
          fd ← (match f with None => mret (-1) | Some f => fdalloc f end);
          match f with
          | Some f =>
              if fd <? 0 then fileclose f ;; on_fs (iunlockput ip ;; end_op) ;; mret (-1)
              else
                on_fs (iunlock ip ;; end_op) ;;
                upd_file f (fun x => mkfile FD_INODE (fl_ref x) (Z.land omode O_WRONLY =? 0)
                  (negb (Z.land omode O_WRONLY =? 0) || negb (Z.land omode O_RDWR =? 0)) (fl_pipe x) ip 0 (saved_name path)) ;;
                mret fd
          | None => on_fs (iunlockput ip ;; end_op) ;; mret (-1)
          end
      end
  | _, _ => mret (-1)
  end.

Definition sys_mkdir (cwd : nat) (path : option (list Z)) : M fsys Z :=
  begin_op ;;
  found ← (match path with None => mret None | Some path => create cwd path T_DIR 0 0 end);
  match found with
  | None => end_op ;; mret (-1)
  | Some ip => iunlockput ip ;; end_op ;; mret 0
  end.

Definition sys_mknod (cwd : nat) (path : option (list Z)) (major minor : option Z) : M fsys Z :=
  begin_op ;;
  found ← (match path, major, minor with
           | Some path, Some major, Some minor => create cwd path T_DEV (i16 major) (i16 minor)
           | _, _, _ => mret None
           end);
  match found with
  | None => end_op ;; mret (-1)
  | Some ip => iunlockput ip ;; end_op ;; mret 0
  end.

Definition sys_chdir (path : option (list Z)) : M kst Z :=
  s ← get;
  on_fs begin_op ;;
  found ← on_fs (match path with None => mret None | Some path => namei (cwd s) path end);
  match found with
  | None => on_fs end_op ;; mret (-1)
  | Some ip =>
      on_fs (ilock ip) ;;
      i ← on_fs (inode_at ip);
      if negb (i_type i =? T_DIR) then on_fs (iunlockput ip ;; end_op) ;; mret (-1)
      else
        on_fs (iunlock ip) ;;
        on_fs (iput (cwd s)) ;;
        on_fs end_op ;;
        modify (set_cwd ip) ;;
        mret 0
  end.

(** [pipealloc]; [page] is what [kalloc] gives *)
Definition pipealloc (page : option (list Z)) : M kst (option (nat * nat)) :=
  f0 ← filealloc;
  f1 ← (match f0 with None => mret None | Some _ => filealloc end);
  match f0, f1, page with
  | Some a, Some b, Some page =>
      s ← get;
      let p := length (pipes s) in
      modify (set_pipes (pipes s ++ [Pipe.pipealloc_init page])) ;;
      upd_file a (fun x => mkfile FD_PIPE (fl_ref x) true false p (fl_ip x) (fl_off x) (fl_name x)) ;;
      upd_file b (fun x => mkfile FD_PIPE (fl_ref x) false true p (fl_ip x) (fl_off x) (fl_name x)) ;;
      mret (Some (a, b))
  | _, _, _ =>
      (match f0 with Some a => fileclose a | None => mret tt end) ;;
      (match f1 with Some b => fileclose b | None => mret tt end) ;;
      mret None
  end.

(** [sys_pipe]: the result and the two descriptors; [ok] says that the pointer
    argument is good *)
Definition sys_pipe (ok : bool) (page : option (list Z)) : M kst (Z * (Z * Z)) :=
  if negb ok then mret (-1, (0, 0))
  else
    fs ← pipealloc page;
    match fs with
    | None => mret (-1, (0, 0))
    | Some (rf, wf) =>
        fd0 ← fdalloc rf;
        fd1 ← (if fd0 <? 0 then mret (-1) else fdalloc wf);
        if (fd0 <? 0) || (fd1 <? 0) then
          (if 0 <=? fd0 then modify (fun s => set_ofile (<[Z.to_nat fd0 := None]> (ofile s)) s) else mret tt) ;;
          fileclose rf ;;
          fileclose wf ;;
          mret (-1, (0, 0))
        else mret (0, (fd0, fd1))
    end.
End Kernel.

(** ** The two kernels *)

(** xv6-lazy-allocation-multilevel-fs *)
Definition lazy_variant : Variant := {|
  may_reuse := fun type itype => (type =? T_FILE) && (itype =? T_FILE);
  create_type := fun _ => T_FILE;
  short_write_ok := false;
  saved_name := fun _ => []
|}.
