(* ===== verification/Quiet.v ===== *)
(** * What leaves counts and locks alone

    The contents of inodes (block maps, reads, writes, truncation) never touch
    the reference count or the lock of an entry of the inode cache, nor the
    number of transactions: [quiet].  Both kernels' operations are. *)

From S2P Require Import Prelude Blocks Inode Index FileIo CsFs CsIo MlFs MlIo Dir MlDir.

(** the counts and locks of the cache, and the number of open transactions *)
Definition tally (s : fsys) : list (Z * bool) * Z :=
  ((fun i => (i_ref i, i_locked i)) <$> icache s, outstanding s).

Definition quiet {A} (m : M fsys A) : Prop := forall s, safe m s (fun _ s' => tally s' = tally s).

Create HintDb quiet_db.

Section Rules.
Context {A B : Type}.

Lemma quiet_ret (a : A) : quiet (mret a : M fsys A).
Proof. by intros s. Qed.
Lemma quiet_panic msg : quiet (panic msg : M fsys A).
Proof. by intros s. Qed.
Lemma quiet_block : quiet (block : M fsys A).
Proof. by intros s. Qed.
Lemma quiet_gets (f : fsys -> A) : quiet (gets f).
Proof. by intros s. Qed.
Lemma quiet_bind (m : M fsys A) (f : A -> M fsys B) : quiet m -> (forall a, quiet (f a)) -> quiet (m ≫= f).
Proof.
  intros Hm Hf s. apply safe_bind. eapply safe_mono; [apply Hm|]. intros a s' E.
  eapply safe_mono; [apply Hf|]. intros b s'' E'. by rewrite E'.
Qed.
End Rules.

Lemma quiet_get : quiet (get : M fsys fsys).
Proof. by intros s. Qed.
Lemma quiet_modify f : (forall s, tally (f s) = tally s) -> quiet (modify f).
Proof. intros Hf s. apply Hf. Qed.
Lemma quiet_set_blk f : quiet (modify (set_blk f)).
Proof. by apply quiet_modify. Qed.
Lemma quiet_set_lh f : quiet (modify (set_lh f)).
Proof. by apply quiet_modify. Qed.

(** changing an entry without its count and its lock *)
Lemma quiet_upd_inode ip f : (forall i, i_ref (f i) = i_ref i /\ i_locked (f i) = i_locked i) -> quiet (upd_inode ip f).
Proof.
  intros Hf. apply quiet_modify. intros s. unfold tally. cbn [icache set_icache outstanding]. f_equal.
  apply list_eq. intros k. rewrite !list_lookup_fmap, list_lookup_alter. case_decide; [|done]. subst k.
  destruct (icache s !! ip) as [i|]; [|done]. simpl. by destruct (Hf i) as [-> ->].
Qed.

#[export] Hint Resolve quiet_ret quiet_panic quiet_block quiet_gets quiet_get quiet_set_blk quiet_set_lh : quiet_db.

(** symbolic execution: binds, conditionals and known operations *)
Ltac quiet_step :=
  match goal with
  | |- quiet (_ ≫= _) => apply quiet_bind; [|intros ?]
  | |- quiet (upd_inode _ _) => apply quiet_upd_inode; done
  | |- quiet (if ?b then _ else _) => destruct b
  | |- quiet (match ?x with _ => _ end) => destruct x
  | |- quiet (let '_ := ?x in _) => destruct x
  | |- quiet _ => solve [eauto 2 with quiet_db]
  end.
Ltac quiet_auto := repeat (cbv zeta; quiet_step).

Lemma quiet_cprintf msg : quiet (cprintf msg).
Proof. by apply quiet_modify. Qed.
#[export] Hint Resolve quiet_cprintf : quiet_db.

Lemma quiet_log_write b : quiet (log_write b).
Proof. unfold log_write. quiet_auto. Qed.
#[export] Hint Resolve quiet_log_write : quiet_db.

Lemma quiet_bzero b : quiet (bzero b).
Proof. unfold bzero, bread, set_data, brelse. quiet_auto. Qed.
#[export] Hint Resolve quiet_bzero : quiet_db.

Lemma quiet_ballocx failok : quiet (ballocx failok).
Proof.
  assert (forall fuel b, quiet (balloc_loop fuel failok b)) as Hloop.
  { induction fuel as [|fuel IH]; intros b; cbn [balloc_loop]; unfold ballocx_none, bread, set_data, brelse;
      quiet_auto; apply IH. }
  unfold ballocx. quiet_auto.
Qed.
Lemma quiet_bfree b : quiet (bfree b).
Proof. unfold bfree, bread, set_data, brelse. quiet_auto. Qed.
Lemma quiet_balloc : quiet balloc.
Proof. apply quiet_ballocx. Qed.
#[export] Hint Resolve quiet_ballocx quiet_bfree quiet_balloc : quiet_db.

Lemma quiet_inode_at ip : quiet (inode_at ip).
Proof. apply quiet_gets. Qed.
Lemma quiet_bread b : quiet (bread b).
Proof. apply quiet_gets. Qed.
Lemma quiet_set_data b d : quiet (set_data b d).
Proof. apply quiet_set_blk. Qed.
Lemma quiet_brelse b : quiet (brelse b).
Proof. apply quiet_ret. Qed.
Lemma quiet_store_word b k v : quiet (store_word b k v).
Proof. by apply quiet_modify. Qed.
Lemma quiet_set_addr ip k v : quiet (set_addr ip k v).
Proof. by apply quiet_upd_inode. Qed.
#[export] Hint Resolve quiet_inode_at quiet_bread quiet_set_data quiet_brelse quiet_store_word quiet_set_addr : quiet_db.

Lemma quiet_iupdate ip : quiet (iupdate ip).
Proof. unfold iupdate. quiet_auto. Qed.
Lemma quiet_addr_or_balloc ip k : quiet (addr_or_balloc ip k).
Proof. unfold addr_or_balloc. quiet_auto. Qed.
Lemma quiet_entry_or_balloc b k : quiet (entry_or_balloc b k).
Proof. unfold entry_or_balloc. quiet_auto. Qed.
#[export] Hint Resolve quiet_iupdate quiet_addr_or_balloc quiet_entry_or_balloc : quiet_db.

(** ** The interface of the layers above *)

Class QuietOps `{FileOps} : Prop := {
  quiet_readi ip off n : quiet (readi ip off n);
  quiet_writei ip src off n : quiet (writei ip src off n);
  quiet_itrunc ip : quiet (@itrunc discard ip)
}.
#[export] Hint Resolve quiet_readi quiet_writei quiet_itrunc : quiet_db.

(** devices that give back what they take *)
Class QuietDevices `{DevSw} : Prop := {
  quiet_dev_read major f ip n : dev_read major = Some f -> quiet (f ip n);
  quiet_dev_write major f ip src n : dev_write major = Some f -> quiet (f ip src n)
}.

Section Devices.
Context `{QuietDevices}.
Lemma guarded_read major ip n :
  quiet (match dev_guard major (dev_read major) with None => mret (-1, []) | Some f => f ip n end).
Proof.
  unfold dev_guard. destruct (_ || _); [quiet_auto|]. destruct (dev_read major) as [f|] eqn:E; [|quiet_auto].
  by eapply quiet_dev_read.
Qed.
Lemma guarded_write major ip src n :
  quiet (match dev_guard major (dev_write major) with None => mret (-1) | Some f => f ip src n end).
Proof.
  unfold dev_guard. destruct (_ || _); [quiet_auto|]. destruct (dev_write major) as [f|] eqn:E; [|quiet_auto].
  by eapply quiet_dev_write.
Qed.
End Devices.

(** ** The lazy kernel *)

Section Ml.
Context `{QuietDevices}.

Lemma quiet_ml_bmap ip bn : quiet (MlFs.bmap ip bn).
Proof. unfold MlFs.bmap. quiet_auto. Qed.
#[local] Hint Resolve quiet_ml_bmap : quiet_db.

Lemma quiet_ml_readi ip off n : quiet (MlIo.readi ip off n).
Proof.
  assert (forall fuel off n tot dst, quiet (MlIo.readi_loop fuel ip off n tot dst)) as Hloop.
  { induction fuel as [|fuel IH]; intros; cbn [MlIo.readi_loop]; quiet_auto; apply IH. }
  unfold MlIo.readi. quiet_step; [quiet_auto|]. destruct (_ =? _); [apply guarded_read|]. quiet_auto; apply Hloop.
Qed.

Lemma quiet_ml_writei ip src off n : quiet (MlIo.writei ip src off n).
Proof.
  assert (forall fuel src off n tot, quiet (MlIo.writei_loop fuel ip src off n tot)) as Hloop.
  { induction fuel as [|fuel IH]; intros; cbn [MlIo.writei_loop]; quiet_auto; apply IH. }
  unfold MlIo.writei. quiet_step; [quiet_auto|]. destruct (_ =? _); [apply guarded_write|]. quiet_auto; apply Hloop.
Qed.

Lemma quiet_bfreeindirect below addr : quiet (bfreeindirect below addr).
Proof.
  assert (forall free entries k i, (forall a, quiet (free a)) -> quiet (bfreeindirect_loop free entries k i)) as Hloop.
  { intros free entries k i Hf. revert i. induction k as [|k IH]; intros i; cbn [bfreeindirect_loop]; quiet_auto. }
  revert addr. induction below as [|below IH]; intros addr; cbn [bfreeindirect]; quiet_auto; apply Hloop; intros a; quiet_auto.
Qed.
#[local] Hint Resolve quiet_bfreeindirect : quiet_db.

Lemma quiet_itrunc_ml ip : quiet (itrunc_ml ip).
Proof.
  assert (forall free k i, (forall a, quiet (free a)) -> quiet (itrunc_loop free k ip i)) as Hloop.
  { intros free k i Hf. revert i. induction k as [|k IH]; intros i; cbn [itrunc_loop]; quiet_auto. }
  unfold itrunc_ml. quiet_auto; apply Hloop; intros a; quiet_auto.
Qed.

#[export] Instance ml_quiet : QuietOps (H := ml_ops).
Proof. split; [apply quiet_ml_readi | apply quiet_ml_writei | apply quiet_itrunc_ml]. Qed.
End Ml.

(** ** The continuous-sector kernel *)

#[export] Instance cs_ops `{DevSw} : FileOps := {|
  Dir.readi := CsIo.readi;
  Dir.writei := CsIo.writei;
  discard := cs_truncate
|}.

Section Cs.
Context `{QuietDevices}.

Lemma quiet_csbmap ip bn : quiet (csbmap ip bn).
Proof. unfold csbmap. quiet_auto. Qed.
#[local] Hint Resolve quiet_csbmap : quiet_db.
Lemma quiet_cs_bmap ip bn : quiet (CsFs.bmap ip bn).
Proof. unfold CsFs.bmap. quiet_auto. Qed.
#[local] Hint Resolve quiet_cs_bmap : quiet_db.

Lemma quiet_cs_readi ip off n : quiet (CsIo.readi ip off n).
Proof.
  assert (forall fuel off n tot dst, quiet (CsIo.readi_loop fuel ip off n tot dst)) as Hloop.
  { induction fuel as [|fuel IH]; intros; cbn [CsIo.readi_loop]; quiet_auto; apply IH. }
  unfold CsIo.readi. quiet_step; [quiet_auto|]. destruct (_ =? _); [apply guarded_read|]. quiet_auto; apply Hloop.
Qed.

Lemma quiet_cs_writei ip src off n : quiet (CsIo.writei ip src off n).
Proof.
  assert (forall fuel src off n tot, quiet (CsIo.writei_loop fuel ip src off n tot)) as Hloop.
  { induction fuel as [|fuel IH]; intros; cbn [CsIo.writei_loop]; quiet_auto; apply IH. }
  assert (forall src off n, quiet (writei_body ip src off n)) as Hbody.
  { intros. unfold writei_body. quiet_auto. }
  unfold CsIo.writei. quiet_step; [quiet_auto|]. destruct (_ =? _); [apply guarded_write|]. quiet_auto; apply Hbody.
Qed.

Lemma quiet_itrunc_cs ip : quiet (itrunc_cs ip).
Proof.
  assert (forall k b, quiet (bfree_run k b)) as Hrun.
  { induction k as [|k IH]; intros b; cbn [bfree_run]; quiet_auto. }
  assert (forall k i, quiet (itrunc_cs_loop k ip i)) as H1.
  { induction k as [|k IH]; intros i; cbn [itrunc_cs_loop]; quiet_auto. }
  assert (forall k i, quiet (itrunc_direct_loop k ip i)) as H2.
  { induction k as [|k IH]; intros i; cbn [itrunc_direct_loop]; quiet_auto; apply IH. }
  assert (forall k b j, quiet (itrunc_entries k b j)) as H3.
  { induction k as [|k IH]; intros b j; cbn [itrunc_entries]; quiet_auto; apply IH. }
  unfold itrunc_cs. quiet_auto.
Qed.

#[export] Instance cs_quiet : QuietOps (H := cs_ops).
Proof. split; [apply quiet_cs_readi | apply quiet_cs_writei | apply quiet_itrunc_cs]. Qed.
End Cs.
