(* ===== verification/CsSys.v ===== *)
(** * System calls of the continuous-sector kernel

    What its [sysfile.c] has beyond the calls of [File]: the name that an open
    file keeps ([savefilename]) and [sys_printinfo], and the kernel's choices at
    the points where the two kernels differ. *)

From S2P Require Import Prelude CStr Print Blocks Inode CsFs Dir DirWalk File Quiet.

Definition O_CS : Z := 32.

(** [savefilename]: [end] and [start] are found from the end of the path *)
Definition savefilename (path : list Z) : list Z :=
  take (Z.to_nat DIRSIZ) (rev (take_elem (skip_slashes (rev path))).1).

(** xv6-continuous-sector-fs *)
Definition cs_variant : Variant := {|
  may_reuse := fun type itype => (type =? T_FILE) && (itype =? T_FILE) || (type =? T_CS) && (itype =? T_CS);
  create_type := fun omode => if negb (Z.land omode O_CS =? 0) then T_CS else T_FILE;
  short_write_ok := true;
  saved_name := savefilename
|}.

Definition string_of (l : list Z) : string :=
  String.string_of_list_ascii ((fun c => Ascii.ascii_of_N (Z.to_N c)) <$> l).

(** [cprintf(fmt, ...)] in a system call; the arguments always fit the format *)
Definition kprintf (fmt : list Z) (ap : list arg) : M fsys unit :=
  Blocks.cprintf (string_of (default [] (Print.cprintf fmt ap))).

(** the loop of [sys_printinfo] over [ip->addrs] from entry [i] *)
Fixpoint printinfo_loop (cs : bool) (entries : list Z) (i : Z) : M fsys unit :=
  match entries with
  | [] => mret tt
  | entry :: entries' =>
      (if entry =? 0 then mret tt
       else if cs then
         let start := Z.shiftr entry CS_LENGTH_BITS in
         let length := Z.land entry CS_LENGTH_MASK in
         kprintf (str "[%d] %d (num: %d, length: %d)" ++ [10]) [AWord i; AWord entry; AWord start; AWord length]
       else kprintf (str "[%d] %d" ++ [10]) [AWord i; AWord entry]) ;;
      printinfo_loop cs entries' (i + 1)
  end.

Definition printinfo (name : list Z) (ip : nat) : M fsys Z :=
  ilock ip ;;
  i ← inode_at ip;
  if negb (i_type i =? T_FILE) && negb (i_type i =? T_CS) then iunlock ip ;; mret (-1)
  else
    kprintf (str "FILE NAME: %s" ++ [10]) [AStr (Some (if bool_decide (name = []) then str "(unknown)" else name))] ;;
    kprintf (str "INODE NUM: %d" ++ [10]) [AWord (i_inum i)] ;;
    kprintf (str "FILE TYPE: %s" ++ [10]) [AStr (Some (if i_type i =? T_CS then str "CS" else str "FILE"))] ;;
    kprintf (str "FILE SIZE: %d Bytes" ++ [10]) [AWord (i_size i)] ;;
    kprintf (str "DIRECT BLOCK INFO:" ++ [10]) [] ;;
    printinfo_loop (i_type i =? T_CS) (take (Z.to_nat NDIRECT) (i_addrs i)) 0 ;;
    kprintf [10] [] ;;
    iunlock ip ;;
    mret 0.

Definition sys_printinfo (arg : option Z) : M kst Z :=
  a ← argfd arg;
  match a with
  | None => mret (-1)
  | Some (_, f) =>
      x ← get_file f;
      match fl_type x with
      | FD_INODE => on_fs (printinfo (fl_name x) (fl_ip x))
      | _ => mret (-1)
      end
  end.

(** ** The saved name *)

Lemma pieces_nonempty a : pieces a <> [].
Proof. destruct a as [|c a]; [done|]. cbn [pieces]. destruct (c =? SLASH); [done|]. by destruct (pieces a). Qed.

Lemma pieces_app_slash a b : pieces (a ++ SLASH :: b) = pieces a ++ pieces b.
Proof.
  induction a as [|c a IH]; [done|]. cbn [app pieces]. destruct (c =? SLASH); [by rewrite IH|]. rewrite IH.
  pose proof (pieces_nonempty a). by destruct (pieces a).
Qed.

Lemma components_app_slash a b : components (a ++ SLASH :: b) = components a ++ components b.
Proof. unfold components. by rewrite pieces_app_slash, filter_app, fmap_app. Qed.

Lemma components_slashes_end a path : skip_slashes (rev path) = rev a -> components path = components a.
Proof.
  revert a. induction path as [|c path IH] using rev_ind; intros a E; [destruct a as [|x a] using rev_ind; [done|]; by rewrite rev_app_distr in E|].
  rewrite rev_app_distr in E. cbn [rev app skip_slashes] in E. destruct (Z.eqb_spec c SLASH) as [->|_].
  - rewrite (components_app_slash path []). rewrite (IH a E). by rewrite app_nil_r.
  - f_equal. apply (f_equal (@rev Z)) in E. cbn [rev] in E. by rewrite !rev_involutive in E.
Qed.

Lemma take_elem_split path : exists r, path = (take_elem path).1 ++ r /\ Forall (fun c => (c =? SLASH) = false) (take_elem path).1 /\
  (r = [] \/ exists r', r = SLASH :: r').
Proof.
  induction path as [|c path (r & Er & Hf & Hr)]; cbn [take_elem]; [exists []; by split_and!; [..|left]|].
  destruct (Z.eqb_spec c SLASH) as [->|Hc]; cbn [fst].
  - exists (SLASH :: path). split_and!; [done..|right; by eexists].
  - destruct (take_elem path) as [e q]. cbn [fst] in *. exists r. split_and!; [by rewrite Er at 1 | constructor; [lia|done] | done].
Qed.

Lemma components_elem e : e <> [] -> Forall (fun c => (c =? SLASH) = false) e -> components e = [take (Z.to_nat DIRSIZ) e].
Proof.
  intros Hne He. assert (pieces e = [e]) as E.
  { clear Hne. induction He as [|c e Hc _ IH]; [done|]. cbn [pieces]. by rewrite Hc, IH. }
  unfold components. rewrite E. by rewrite filter_cons_True.
Qed.

(** The name that an open file keeps is the last component of its path, as
    the walk of the path names it, and is empty when the path has none. *)
Theorem savefilename_last path : savefilename path = default [] (last (components path)).
Proof.
  unfold savefilename. destruct (skip_slashes (rev path)) as [|c q] eqn:Eq.
  { rewrite (components_slashes_end [] path) by done. done. }
  assert (take_elem (c :: q) = (c :: (take_elem q).1, (take_elem q).2)) as Et.
  { cbn [take_elem]. rewrite (skip_slashes_head _ _ _ Eq). by destruct (take_elem q). }
  destruct (take_elem_split (c :: q)) as (r & Er & Hf & Hr). set (e := (take_elem (c :: q)).1) in *.
  assert (e <> []) as Hne by (unfold e; by rewrite Et).
  rewrite (components_slashes_end (rev (c :: q)) path) by (by rewrite rev_involutive). rewrite Er, rev_app_distr.
  assert (components (rev e) = [take (Z.to_nat DIRSIZ) (rev e)]) as Ee.
  { apply components_elem; [|by apply Forall_rev]. intros E. apply Hne. apply (f_equal (@rev Z)) in E. by rewrite rev_involutive in E. }
  destruct Hr as [->|[r' ->]].
  - cbn [rev app]. by rewrite Ee.
  - cbn [rev]. rewrite <- app_assoc. cbn [app]. rewrite components_app_slash, Ee. by rewrite last_snoc.
Qed.

Lemma quiet_printinfo_loop cs l i : quiet (printinfo_loop cs l i).
Proof. revert i. induction l as [|e l IH]; intros i; cbn [printinfo_loop]; unfold kprintf; quiet_auto. Qed.
