(* ===== verification/Holding.v ===== *)
(** * The references and locks that a file system call holds

    [holding o lk n rs ls s]: in state [s] the call owns the references [rs] and
    the locks [ls] on entries of the inode cache, and [n] transactions, over and
    above what the functions [o] and [lk] and the number of other transactions
    say that everyone else owns.  Each operation on inodes moves references and
    locks in and out of these lists; a call that ends with empty lists has
    leaked nothing, on whichever path it took. *)

From S2P Require Import Prelude CStr Blocks Inode Dir File Quiet.

(** ** Counting *)

Definition rc (s : fsys) (k : nat) : Z := i_ref (icache s !!! k).
Definition lk (s : fsys) (k : nat) : bool := i_locked (icache s !!! k).

Lemma tally_same s s' : tally s' = tally s ->
  (forall k, rc s' k = rc s k) /\ (forall k, lk s' k = lk s k) /\ outstanding s' = outstanding s /\
  length (icache s') = length (icache s).
Proof.
  unfold tally. intros [= E Eo]. pose proof (f_equal length E) as El. rewrite !length_fmap in El.
  assert (forall k, (i_ref (icache s' !!! k), i_locked (icache s' !!! k)) = (i_ref (icache s !!! k), i_locked (icache s !!! k))) as Ek.
  { intros k. pose proof (f_equal (fun l => l !! k) E) as H. cbv beta in H. rewrite !list_lookup_fmap in H.
    rewrite !list_lookup_total_alt. destruct (icache s' !! k), (icache s !! k); simpl in *; congruence. }
  split_and!; try done; intros k; specialize (Ek k); unfold rc, lk; congruence.
Qed.

Section Holding.
Context (o : nat -> Z) (l0 : nat -> bool) (n0 : Z) (len : nat).

Record holding (n : Z) (rs ls : list nat) (s : fsys) : Prop := {
  h_rc k : rc s k = o k + occ k rs;
  h_lk k : lk s k = if decide (k ∈ ls) then true else l0 k;
  h_free : Forall (fun k => l0 k = false) ls;
  h_nodup : NoDup ls;
  h_out : outstanding s = n0 + n;
  h_len : length (icache s) = len;
  h_range : Forall (fun k => k < len)%nat rs
}.

#[export] Instance holding_proper : Proper (eq ==> (≡ₚ) ==> (≡ₚ) ==> eq ==> iff) holding.
Proof.
  assert (forall n rs rs' ls ls' s, rs ≡ₚ rs' -> ls ≡ₚ ls' -> holding n rs ls s -> holding n rs' ls' s) as Hone.
  { intros n rs rs' ls ls' s Hr Hl [A B C D E F G]. split; try done.
    - intros k. by rewrite A, (occ_perm k _ _ Hr).
    - intros k. rewrite B. apply decide_ext. by rewrite Hl.
    - by rewrite <- Hl.
    - by rewrite <- Hl.
    - by rewrite <- Hr. }
  intros n ? <- rs rs' Hr ls ls' Hl s ? <-. split; apply Hone; done.
Qed.

Lemma holding_tally n rs ls s s' : holding n rs ls s -> tally s' = tally s -> holding n rs ls s'.
Proof.
  intros [A B C D E F G] (Er & El & Eo & En)%tally_same.
  split; try done; [intros k; by rewrite Er | intros k; by rewrite El | by rewrite Eo | by rewrite En].
Qed.

Section Ops.
Context (n : Z) (rs ls : list nat) (s : fsys).
Hypothesis Hh : holding n rs ls s.

Lemma safe_quiet {A} (m : M fsys A) (Q : A -> fsys -> Prop) :
  quiet m -> (forall a s', holding n rs ls s' -> Q a s') -> safe m s Q.
Proof using Hh.
  intros Hq HQ. eapply safe_mono; [apply Hq|]. intros a s' E. apply HQ. by eapply holding_tally.
Qed.

(** the entry [ip] after a change of its count by [d] and of its lock to [b] *)
Lemma holding_alter f ip d b rs' ls' :
  (ip < len)%nat -> (forall i, i_ref (f i) = i_ref i + d) -> (forall i, i_locked (f i) = b i) ->
  (forall k, occ k rs' = occ k rs + (if decide (ip = k) then d else 0)) ->
  (forall k, (if decide (k ∈ ls') then true else l0 k) = if decide (ip = k) then b (icache s !!! ip) else lk s k) ->
  Forall (fun k => l0 k = false) ls' -> NoDup ls' -> Forall (fun k => k < len)%nat rs' ->
  holding n rs' ls' (set_icache (alter f ip) s).
Proof using Hh.
  intros Hip Hr Hl Hocc Hlk Hfree Hnd Hrange. destruct Hh as [A B C D E F G].
  assert (forall k, icache (set_icache (alter f ip) s) !!! k = if decide (ip = k) then f (icache s !!! k) else icache s !!! k) as Ek.
  { intros k. cbn [set_icache icache]. case_decide as Eik.
    - subst k. apply (upd_inode_at f). by rewrite F.
    - by rewrite list_lookup_total_alter_ne. }
  split; try done.
  - intros k. unfold rc. rewrite Ek, Hocc. specialize (A k). unfold rc in A. case_decide; [rewrite Hr; lia | lia].
  - intros k. unfold lk in *. rewrite Ek, Hlk. case_decide as Eik; [subst k; apply Hl | done].
  - cbn. by rewrite length_alter.
Qed.

Lemma holding_in_lk ip : lk s ip = true -> (ip < len)%nat.
Proof using Hh.
  intros Hl. destruct (decide (ip < len)%nat) as [|Hn]; [done|]. exfalso.
  unfold lk in Hl. rewrite list_lookup_total_alt, lookup_ge_None_2 in Hl by (rewrite (h_len _ _ _ _ Hh); lia). done.
Qed.

Lemma safe_iget dev inum (Q : nat -> fsys -> Prop) :
  (forall ip s', holding n (ip :: rs) ls s' -> Q ip s') -> safe (iget dev inum) s Q.
Proof using Hh.
  intros HQ. pose proof Hh as [A B C D E F G]. unfold iget. step.
  destruct (iget_scan (icache s) 0 dev inum None) as [ip|[ip|]] eqn:Es; [| |done].
  - apply iget_scan_inl in Es as (k & i & -> & Hi & Hc). unfold upd_inode. step. step. cbn [Nat.add].
    pose proof (lookup_lt_Some _ _ _ Hi) as Hlt. rewrite F in Hlt. apply HQ.
    apply (holding_alter _ _ 1 i_locked); try done.
    + intros j. cbn [occ]. repeat case_decide; try congruence; lia.
    + intros j. rewrite <- B. case_decide; [by subst|done].
    + by constructor.
  - apply iget_scan_inr in Es as [_ (k & i & -> & Hi & Hr)]. unfold upd_inode. step. step. cbn [Nat.add].
    pose proof (lookup_lt_Some _ _ _ Hi) as Hlt. rewrite F in Hlt. apply HQ.
    set (g := fun j : inode => with_valid false _).
    assert (set_icache (alter g k) s = set_icache (alter (fun j => with_ref (i_ref j + 1) (g j)) k) s) as ->.
    { unfold set_icache. f_equal. apply list_alter_ext; [|done]. intros x Hx. rewrite Hi in Hx. injection Hx as <-.
      unfold g, with_valid, with_ref. cbn. by rewrite Hr. }
    apply (holding_alter _ _ 1 i_locked); try done.
    + intros j. cbn [occ]. repeat case_decide; try congruence; lia.
    + intros j. rewrite <- B. case_decide; [by subst|done].
    + by constructor.
Qed.

Lemma safe_idup ip (Q : nat -> fsys -> Prop) :
  (ip < len)%nat -> (forall s', holding n (ip :: rs) ls s' -> Q ip s') -> safe (idup ip) s Q.
Proof using Hh.
  intros Hip HQ. unfold idup, upd_inode. step. step. apply HQ. apply (holding_alter _ _ 1 i_locked); try done.
  - intros j. cbn [occ]. repeat case_decide; try congruence; lia.
  - intros j. rewrite <- (h_lk _ _ _ _ Hh). case_decide; [by subst|done].
  - apply Hh.
  - apply Hh.
  - constructor; [done | apply Hh].
Qed.

(** taking and giving back a sleep lock *)
Lemma holding_lock ip : lk s ip = false -> (ip < len)%nat ->
  holding n rs (ip :: ls) (set_icache (alter (with_locked true) ip) s).
Proof using Hh.
  intros Hl Hip. pose proof Hh as [A B C D E F G].
  assert (ip ∉ ls /\ l0 ip = false) as [Hni H0].
  { rewrite B in Hl. case_decide; [done | by split]. }
  apply (holding_alter _ _ 0 (fun _ => true)); try done.
  - intros i. cbn. lia.
  - intros k. case_decide; lia.
  - intros k. rewrite B. destruct (decide (k = ip)) as [->|Hne].
    + by rewrite !decide_True by (done || set_solver).
    + rewrite (decide_False (P := ip = k)) by done. apply decide_ext. set_solver.
  - by constructor.
  - by constructor.
Qed.

Lemma holding_unlock ip ls' : ls ≡ₚ ip :: ls' -> holding n rs ls' (set_icache (alter (with_locked false) ip) s).
Proof using Hh.
  intros Hp. pose proof Hh as [A B C D E F G]. rewrite Hp in C, D.
  inversion C as [|? ? H0 C']; subst. apply NoDup_cons in D as [Hni D'].
  apply (holding_alter _ _ 0 (fun _ => false)); try done.
  - apply holding_in_lk. rewrite B, decide_True; [done|]. rewrite Hp. set_solver.
  - intros i. cbn. lia.
  - intros k. case_decide; lia.
  - intros k. rewrite B. destruct (decide (k = ip)) as [->|Hne].
    + by rewrite (decide_True (P := ip = ip)), decide_False.
    + rewrite (decide_False (P := ip = k)) by done. apply decide_ext. rewrite Hp. set_solver.
Qed.

Lemma safe_iunlock ip ls' (Q : unit -> fsys -> Prop) :
  ls ≡ₚ ip :: ls' -> (forall s', holding n rs ls' s' -> Q tt s') -> safe (iunlock ip) s Q.
Proof using Hh.
  intros Hp HQ. unfold iunlock, inode_at. step. destruct (_ || _); [done|]. unfold releasesleep, upd_inode. step.
  apply HQ. by apply holding_unlock.
Qed.

Lemma safe_begin_op (Q : unit -> fsys -> Prop) :
  (forall s', holding (n + 1) rs ls s' -> Q tt s') -> safe begin_op s Q.
Proof using Hh.
  intros HQ. unfold begin_op. step. destruct (_ <? _); [done|]. step. apply HQ. destruct Hh. split; try done. cbn. lia.
Qed.

Lemma safe_end_op (Q : unit -> fsys -> Prop) :
  (forall s', holding (n - 1) rs ls s' -> Q tt s') -> safe end_op s Q.
Proof using Hh.
  intros HQ. unfold end_op. step. step. destruct (_ =? _); step; apply HQ; destruct Hh; split; try done; cbn; lia.
Qed.
End Ops.

Lemma safe_ilock n rs ls s ip (Q : unit -> fsys -> Prop) :
  holding n rs ls s -> (forall s', holding n rs (ip :: ls) s' -> Q tt s') -> safe (ilock ip) s Q.
Proof.
  intros Hh HQ. unfold ilock, inode_at. step. destruct (Z.ltb_spec (i_ref (icache s !!! ip)) 1); [done|].
  assert (ip < len)%nat as Hip.
  { destruct (decide (ip < len)%nat) as [|Hn]; [done|]. exfalso.
    rewrite list_lookup_total_alt, lookup_ge_None_2 in * by (rewrite (h_len _ _ _ _ Hh); lia). done. }
  unfold acquiresleep, inode_at. apply safe_bind. step. destruct (i_locked (icache s !!! ip)) eqn:El; [done|].
  unfold upd_inode at 1. step. pose proof (holding_lock n rs ls s Hh ip El Hip) as Hh'.
  destruct (i_valid _); [step; by apply HQ|].
  eapply safe_quiet; [exact Hh' | quiet_auto | intros []; apply HQ].
Qed.

Section Calls.
Context `{QuietOps}.
Implicit Types (n : Z) (rs ls : list nat) (s : fsys).

Lemma safe_iput n rs ls s ip rs' (Q : unit -> fsys -> Prop) :
  holding n rs ls s -> rs ≡ₚ ip :: rs' -> (forall s', holding n rs' ls s' -> Q tt s') -> safe (iput ip) s Q.
Proof.
  intros Hh Hp HQ. assert (ip < len)%nat as Hip.
  { pose proof (h_range _ _ _ _ Hh) as Hr. rewrite Hp in Hr. by inversion Hr. }
  unfold iput, acquiresleep, inode_at. apply safe_bind, safe_bind. step.
  destruct (i_locked (icache s !!! ip)) eqn:El; [done|]. unfold upd_inode at 1. step.
  pose proof (holding_lock n rs ls s Hh ip El Hip) as H1. apply safe_bind.
  step. eapply (safe_quiet _ _ _ _ H1); [quiet_auto|]. intros [] s2 H2. unfold releasesleep, upd_inode. step. step.
  apply HQ. pose proof (holding_unlock _ _ _ _ H2 ip ls ltac:(done)) as H3. rewrite Hp in H3.
  apply (holding_alter _ _ _ _ H3 _ _ (-1) i_locked); try done.
  - intros k. cbn [occ]. repeat case_decide; lia.
  - intros k. rewrite <- (h_lk _ _ _ _ H3). case_decide; [by subst|done].
  - apply H3.
  - apply H3.
  - pose proof (h_range _ _ _ _ H3) as Hr. by inversion Hr.
Qed.

Lemma safe_iunlockput n rs ls s ip rs' ls' (Q : unit -> fsys -> Prop) :
  holding n rs ls s -> rs ≡ₚ ip :: rs' -> ls ≡ₚ ip :: ls' ->
  (forall s', holding n rs' ls' s' -> Q tt s') -> safe (iunlockput ip) s Q.
Proof.
  intros Hh Hr Hl HQ. unfold iunlockput. apply safe_bind. eapply safe_iunlock; [done..|]. intros s1 H1.
  by eapply safe_iput.
Qed.

(** ** Directories and paths *)

Lemma quiet_read_dirent msg dp off : quiet (read_dirent msg dp off).
Proof. unfold read_dirent. quiet_auto. Qed.
#[local] Hint Resolve quiet_read_dirent : quiet_db.

Lemma safe_dirlookup n rs ls s dp name (Q : option (nat * Z) -> fsys -> Prop) :
  holding n rs ls s ->
  (forall s', holding n rs ls s' -> Q None s') ->
  (forall ip off s', holding n (ip :: rs) ls s' -> Q (Some (ip, off)) s') ->
  safe (dirlookup dp name) s Q.
Proof.
  intros Hh HN HS. unfold dirlookup, inode_at. step. destruct (negb _); [done|].
  assert (forall fuel off s, holding n rs ls s -> safe (dirlookup_loop fuel dp name off) s Q) as Hloop; [|by apply Hloop].
  clear s Hh. induction fuel as [|fuel IH]; intros off s Hh; cbn [dirlookup_loop]; [done|]. unfold inode_at. step.
  destruct (_ <? _); [|step; by apply HN]. apply safe_bind. eapply (safe_quiet _ _ _ _ Hh); [quiet_auto|]. intros de s1 H1.
  destruct (_ =? _); [by apply IH|]. destruct (_ =? _); [|by apply IH].
  apply safe_bind. eapply (safe_iget _ _ _ _ H1). intros ip s2 H2. step. by apply HS.
Qed.

Lemma quiet_dirlink_slot fuel dp off : quiet (dirlink_slot fuel dp off).
Proof. revert off. induction fuel as [|fuel IH]; intros off; cbn [dirlink_slot]; quiet_auto. Qed.
#[local] Hint Resolve quiet_dirlink_slot : quiet_db.

Lemma safe_dirlink n rs ls s dp name inum (Q : Z -> fsys -> Prop) :
  holding n rs ls s -> (forall r s', holding n rs ls s' -> Q r s') -> safe (dirlink dp name inum) s Q.
Proof.
  intros Hh HQ. unfold dirlink. apply safe_bind. eapply safe_dirlookup; [exact Hh| |].
  - intros s1 H1. eapply (safe_quiet _ _ _ _ H1); [quiet_auto|done].
  - intros ip off s1 H1. apply safe_bind. eapply safe_iput; [exact H1|done|]. intros s2 H2. step. by apply HQ.
Qed.

Lemma safe_namex_loop n rs ls parent : forall fuel path name ip s (Q : option (nat * list Z) -> fsys -> Prop),
  holding n (ip :: rs) ls s ->
  (forall s', holding n rs ls s' -> Q None s') ->
  (forall ip' name' s', holding n (ip' :: rs) ls s' -> Q (Some (ip', name')) s') ->
  safe (namex_loop fuel parent path name ip) s Q.
Proof.
  induction fuel as [|fuel IH]; intros path name ip s Q Hh HN HS; cbn [namex_loop]; [done|].
  assert (forall s1, holding n (ip :: rs) (ip :: ls) s1 -> safe (iunlockput ip ;; mret None) s1 Q) as Hnone.
  { intros s1 H1. apply safe_bind. eapply safe_iunlockput; [exact H1|done|done|]. intros s2 H2. step. by apply HN. }
  destruct (skipelem path) as [[path' name']|].
  2:{ destruct parent.
    - apply safe_bind. eapply safe_iput; [exact Hh|done|]. intros s1 H1. step. by apply HN.
    - step. by apply HS. }
  apply safe_bind. eapply safe_ilock; [exact Hh|]. intros s1 H1. unfold inode_at. step.
  destruct (negb _); [by apply Hnone|]. destruct (_ && _).
  { apply safe_bind. eapply (safe_iunlock _ _ _ _ H1); [done|]. intros s2 H2. step. by apply HS. }
  apply safe_bind. eapply safe_dirlookup; [exact H1 | intros s2 H2; by apply Hnone |].
  intros next off s2 H2. apply safe_bind. eapply (safe_iunlockput _ _ _ _ _ (next :: rs)); [exact H2 | apply perm_swap | done |].
  intros s3 H3. by apply IH.
Qed.

Section Cwd.
Context (cwd : nat).
Hypothesis Hcwd : (cwd < len)%nat.

Lemma safe_namex n rs ls s path parent (Q : option (nat * list Z) -> fsys -> Prop) :
  holding n rs ls s ->
  (forall s', holding n rs ls s' -> Q None s') ->
  (forall ip name s', holding n (ip :: rs) ls s' -> Q (Some (ip, name)) s') ->
  safe (namex cwd path parent) s Q.
Proof using Hcwd H0.
  intros Hh HN HS. unfold namex. apply safe_bind. destruct (_ =? _).
  - eapply (safe_iget _ _ _ _ Hh). intros ip s1 H1. by eapply safe_namex_loop.
  - eapply (safe_idup _ _ _ _ Hh); [done|]. intros s1 H1. by eapply safe_namex_loop.
Qed.

Lemma safe_namei n rs ls s path (Q : option nat -> fsys -> Prop) :
  holding n rs ls s ->
  (forall s', holding n rs ls s' -> Q None s') ->
  (forall ip s', holding n (ip :: rs) ls s' -> Q (Some ip) s') ->
  safe (namei cwd path) s Q.
Proof using Hcwd H0.
  intros Hh HN HS. unfold namei. apply safe_bind. eapply safe_namex; [exact Hh| |].
  - intros s1 H1. step. by apply HN.
  - intros ip name s1 H1. step. by apply HS.
Qed.
End Cwd.
End Calls.
End Holding.
