(* ===== verification/SysInv.v ===== *)
(** * System calls leak nothing

    The reference count of every inode is what its holders account for: the open
    files, the current directory, and whoever else uses it; the count of every
    file is the number of descriptors for it.  Every system call of [File] keeps
    this accounting, gives back every lock it takes and closes every transaction
    it opens, on each of its error paths. *)

From S2P Require Import Prelude CStr Blocks Inode Dir File Quiet CsSys Holding.

Section Sys.
Context `{QO : QuietOps} `{VA : Variant}.

Section Fs.
Context (o : nat -> Z) (l0 : nat -> bool) (n0 : Z) (len : nat).
Local Notation holding := (holding o l0 n0 len).
Local Notation safe_iput := (@safe_iput o l0 n0 len H QO).
Local Notation safe_iunlockput := (@safe_iunlockput o l0 n0 len H QO).
Local Notation safe_dirlookup := (@safe_dirlookup o l0 n0 len H QO).
Local Notation safe_dirlink := (@safe_dirlink o l0 n0 len H QO).
Local Notation safe_namex := (@safe_namex o l0 n0 len H QO).
Local Notation safe_namei := (@safe_namei o l0 n0 len H QO).

(** the call gives back what it took *)
Definition nets {A} (m : M fsys A) : Prop := forall s, holding 0 [] [] s -> safe m s (fun _ => holding 0 [] []).

Lemma safe_end_op_last (Q : unit -> fsys -> Prop) s :
  holding 1 [] [] s -> (forall s', holding 0 [] [] s' -> Q tt s') -> safe end_op s Q.
Proof. intros Hh HQ. eapply (safe_end_op _ _ _ _ _ _ _ _ Hh). intros s' Hs. by apply HQ. Qed.

(** [end_op] and the result *)
Lemma nets_end {A} (a : A) s : holding 1 [] [] s -> safe (end_op ;; mret a) s (fun _ => holding 0 [] []).
Proof. intros Hh. apply safe_bind. eapply safe_end_op_last; [exact Hh|]. intros s' Hs. by step. Qed.

Lemma nets_put {A} (a : A) s ip : holding 1 [ip] [ip] s -> safe (iunlockput ip ;; end_op ;; mret a) s (fun _ => holding 0 [] []).
Proof.
  intros Hh. apply safe_bind. eapply safe_iunlockput; [exact Hh|done|done|]. intros s1 H1. by apply nets_end.
Qed.

Lemma safe_upd n rs ls s ip f (Q : unit -> fsys -> Prop) :
  holding n rs ls s -> (forall i, i_ref (f i) = i_ref i /\ i_locked (f i) = i_locked i) ->
  (forall s', holding n rs ls s' -> Q tt s') -> safe (upd_inode ip f) s Q.
Proof. intros Hh Hf HQ. eapply (safe_quiet _ _ _ _ _ _ _ _ Hh); [by apply quiet_upd_inode|]. intros [] s' Hs. by apply HQ. Qed.

Lemma safe_iupdate n rs ls s ip (Q : unit -> fsys -> Prop) :
  holding n rs ls s -> (forall s', holding n rs ls s' -> Q tt s') -> safe (iupdate ip) s Q.
Proof. intros Hh HQ. eapply (safe_quiet _ _ _ _ _ _ _ _ Hh); [apply quiet_iupdate|]. intros [] s' Hs. by apply HQ. Qed.

Lemma nets_link_bad ip s : holding 1 [ip] [] s -> safe (link_bad ip) s (fun _ => holding 0 [] []).
Proof.
  intros Hh. unfold link_bad. apply safe_bind. eapply safe_ilock; [exact Hh|]. intros s1 H1.
  apply safe_bind. eapply safe_upd; [exact H1|done|]. intros s2 H2. apply safe_bind. eapply safe_iupdate; [exact H2|]. intros s3 H3.
  by apply nets_put.
Qed.

Section Paths.
Context (cwd : nat).
Hypothesis Hcwd : (cwd < len)%nat.

Lemma nets_link old new : nets (sys_link cwd old new).
Proof using All.
  intros s Hh. unfold sys_link. destruct old as [old|]; [|by step]. destruct new as [new|]; [|by step].
  apply safe_bind. eapply (safe_begin_op _ _ _ _ _ _ _ _ Hh). intros s1 H1. apply safe_bind.
  eapply safe_namei; [done | exact H1 | intros s2 H2; by apply nets_end |]. intros ip s2 H2. apply safe_bind.
  eapply safe_ilock; [exact H2|]. intros s3 H3. unfold inode_at. step. destruct (_ =? _); [by apply nets_put|].
  apply safe_bind. eapply safe_upd; [exact H3|done|]. intros s4 H4. apply safe_bind. eapply safe_iupdate; [exact H4|]. intros s5 H5.
  apply safe_bind. eapply (safe_iunlock _ _ _ _ _ _ _ _ H5); [done|]. intros s6 H6. apply safe_bind. unfold nameiparent.
  eapply safe_namex; [done | exact H6 | intros s7 H7; by apply nets_link_bad |]. intros dp name s7 H7.
  apply safe_bind. eapply safe_ilock; [exact H7|]. intros s8 H8. step. step. apply safe_bind.
  assert (forall r s9, holding 1 [dp; ip] [dp] s9 ->
    safe (if r <? 0 then iunlockput dp ;; link_bad ip else iunlockput dp ;; iput ip ;; end_op ;; mret 0) s9 (fun _ => holding 0 [] [])) as Hend.
  { intros r s9 H9. destruct (r <? 0); apply safe_bind; (eapply safe_iunlockput; [exact H9|done|done|]); intros s10 H10.
    - by apply nets_link_bad.
    - apply safe_bind. eapply safe_iput; [exact H10|done|]. intros s11 H11. by apply nets_end. }
  destruct (negb _); [by apply (Hend (-1))|]. eapply safe_dirlink; [exact H8|]. intros r s9 H9. by apply Hend.
Qed.

Lemma nets_unlink_bad dp s : holding 1 [dp] [dp] s -> safe (unlink_bad dp) s (fun _ => holding 0 [] []).
Proof. apply nets_put. Qed.

Lemma quiet_isdirempty dp : quiet (isdirempty dp).
Proof.
  assert (forall fuel off, quiet (isdirempty_loop fuel dp off)) as Hloop.
  { induction fuel as [|fuel IH]; intros off; cbn [isdirempty_loop]; unfold read_dirent; quiet_auto. }
  unfold isdirempty. quiet_auto.
Qed.

Lemma nets_unlink path : nets (sys_unlink cwd path).
Proof using All.
  intros s Hh. unfold sys_unlink. destruct path as [path|]; [|by step].
  apply safe_bind. eapply (safe_begin_op _ _ _ _ _ _ _ _ Hh). intros s1 H1. apply safe_bind. unfold nameiparent.
  eapply safe_namex; [done | exact H1 | intros s2 H2; by apply nets_end |]. intros dp name s2 H2. apply safe_bind.
  eapply safe_ilock; [exact H2|]. intros s3 H3. destruct (_ || _); [by apply nets_unlink_bad|].
  apply safe_bind. eapply safe_dirlookup; [exact H3 | intros s4 H4; by apply nets_unlink_bad |]. intros ip off s4 H4.
  apply safe_bind. eapply safe_ilock; [exact H4|]. intros s5 H5. unfold inode_at. step. destruct (_ <? 1); [done|].
  apply safe_bind. eapply (safe_quiet _ _ _ _ _ _ _ _ H5); [destruct (_ =? _); [|apply quiet_ret]; apply quiet_bind; [apply quiet_isdirempty | intros; apply quiet_ret]|].
  intros keep s6 H6. destruct keep.
  { apply safe_bind. eapply safe_iunlockput; [exact H6|done|done|]. intros s7 H7. by apply nets_unlink_bad. }
  apply safe_bind. eapply (safe_quiet _ _ _ _ _ _ _ _ H6); [apply quiet_writei|]. intros r s7 H7.
  destruct (negb _); [done|]. apply safe_bind.
  eapply (safe_quiet _ _ _ _ _ _ _ _ H7); [quiet_auto|]. intros [] s8 H8.
  apply safe_bind. eapply (safe_iunlockput _ _ _ _ dp [ip] [ip]); [exact H8 | apply perm_swap | apply perm_swap |]. intros s9 H9.
  apply safe_bind. eapply safe_upd; [exact H9|done|]. intros s10 H10. apply safe_bind. eapply safe_iupdate; [exact H10|]. intros s11 H11.
  by apply nets_put.
Qed.

Lemma safe_ialloc n rs ls s dev type (Q : nat -> fsys -> Prop) :
  holding n rs ls s -> (forall ip s', holding n (ip :: rs) ls s' -> Q ip s') -> safe (ialloc dev type) s Q.
Proof.
  intros Hh HQ. unfold ialloc. step. generalize (Z.to_nat (sb_ninodes (sb s) - 1)) as k. intros k. revert s Hh.
  generalize 1. induction k as [|k IH]; intros inum s Hh; cbn [ialloc_loop]; [done|]. unfold bread, brelse. step. step.
  destruct (_ =? 0).
  - apply safe_bind. eapply (safe_quiet _ _ _ _ _ _ _ _ Hh); [quiet_auto|]. intros [] s1 H1. apply safe_bind.
    eapply (safe_quiet _ _ _ _ _ _ _ _ H1); [quiet_auto|]. intros [] s2 H2. step. by eapply (safe_iget _ _ _ _ _ _ _ _ H2).
  - step. by apply IH.
Qed.

(** [create] gives the inode locked, with a reference *)
Lemma safe_create n rs ls s path type major minor (Q : option nat -> fsys -> Prop) :
  holding n rs ls s ->
  (forall s', holding n rs ls s' -> Q None s') ->
  (forall ip s', holding n (ip :: rs) (ip :: ls) s' -> Q (Some ip) s') ->
  safe (create cwd path type major minor) s Q.
Proof using All.
  intros Hh HN HS. unfold create, nameiparent. apply safe_bind.
  eapply safe_namex; [done | exact Hh | intros s1 H1; step; by apply HN |]. intros dp name s1 H1.
  apply safe_bind. eapply safe_ilock; [exact H1|]. intros s2 H2. apply safe_bind. eapply safe_dirlookup; [exact H2 | |].
  - intros s3 H3. unfold inode_at. step. apply safe_bind. eapply safe_ialloc; [exact H3|]. intros ip s4 H4.
    apply safe_bind. eapply safe_ilock; [exact H4|]. intros s5 H5.
    apply safe_bind. eapply safe_upd; [exact H5|done|]. intros s6 H6. apply safe_bind. eapply safe_upd; [exact H6|done|]. intros s7 H7.
    apply safe_bind. eapply safe_iupdate; [exact H7|]. intros s8 H8. apply safe_bind.
    assert (forall s9, holding n (ip :: dp :: rs) (ip :: dp :: ls) s9 -> safe
      (i ← inode_at ip; r ← dirlink dp name (i_inum i); if r <? 0 then panic "create: dirlink" else iunlockput dp ;; mret (Some ip)) s9 Q) as Hend.
    { intros s9 H9. unfold inode_at. step. apply safe_bind. eapply safe_dirlink; [exact H9|]. intros r s10 H10.
      destruct (r <? 0); [done|]. apply safe_bind.
      eapply (safe_iunlockput _ _ _ _ dp (ip :: rs) (ip :: ls)); [exact H10 | apply perm_swap | apply perm_swap |].
      intros s11 H11. step. by apply HS. }
    destruct (type =? T_DIR); [|step; by apply Hend].
    apply safe_bind. eapply safe_upd; [exact H8|done|]. intros s9 H9. apply safe_bind. eapply safe_iupdate; [exact H9|]. intros s10 H10.
    unfold inode_at. step. step. apply safe_bind. eapply safe_dirlink; [exact H10|]. intros r s11 H11. apply safe_bind.
    destruct (r <? 0) eqn:Er; [step; rewrite Er; done|]. eapply safe_dirlink; [exact H11|]. intros r' s12 H12.
    destruct (r' <? 0); [done|]. step. by apply Hend.
  - intros ip off s3 H3. apply safe_bind.
    eapply (safe_iunlockput _ _ _ _ dp (ip :: rs) ls); [exact H3 | apply perm_swap | done |]. intros s4 H4.
    apply safe_bind. eapply safe_ilock; [exact H4|]. intros s5 H5. unfold inode_at. step.
    destruct (may_reuse _ _); [step; by apply HS|]. apply safe_bind. eapply safe_iunlockput; [exact H5|done|done|].
    intros s6 H6. step. by apply HN.
Qed.

Lemma safe_open_inode n rs ls s path omode (Q : option nat -> fsys -> Prop) :
  holding n rs ls s ->
  (forall s', holding n rs ls s' -> Q None s') ->
  (forall ip s', holding n (ip :: rs) (ip :: ls) s' -> Q (Some ip) s') ->
  safe (open_inode cwd path omode) s Q.
Proof using All.
  intros Hh HN HS. unfold open_inode. destruct (negb _); [by eapply safe_create|]. apply safe_bind.
  eapply safe_namei; [done | exact Hh | intros s1 H1; step; by apply HN |]. intros ip s1 H1.
  apply safe_bind. eapply safe_ilock; [exact H1|]. intros s2 H2. unfold inode_at. step. destruct (_ && _).
  - apply safe_bind. eapply safe_iunlockput; [exact H2|done|done|]. intros s3 H3. step. by apply HN.
  - step. by apply HS.
Qed.

Lemma nets_mkdir path : nets (sys_mkdir cwd path).
Proof using All.
  intros s Hh. unfold sys_mkdir. apply safe_bind. eapply (safe_begin_op _ _ _ _ _ _ _ _ Hh). intros s1 H1. apply safe_bind.
  destruct path as [path|]; [|by apply (nets_end (-1))].
  eapply safe_create; [exact H1 | intros s2 H2; by apply nets_end |]. intros ip s2 H2. by apply nets_put.
Qed.

Lemma nets_mknod path major minor : nets (sys_mknod cwd path major minor).
Proof using All.
  intros s Hh. unfold sys_mknod. apply safe_bind. eapply (safe_begin_op _ _ _ _ _ _ _ _ Hh). intros s1 H1. apply safe_bind.
  destruct path as [path|]; [|by apply (nets_end (-1))]. destruct major as [major|]; [|by apply (nets_end (-1))].
  destruct minor as [minor|]; [|by apply (nets_end (-1))].
  eapply safe_create; [exact H1 | intros s2 H2; by apply nets_end |]. intros ip s2 H2. by apply nets_put.
Qed.
End Paths.
End Fs.

(** ** The accounts of a process *)

(** the references that open files hold on inode [k] *)
Definition file_ref (k : nat) (f : file) : Z :=
  match fl_type f with FD_INODE => if decide (fl_ip f = k) then 1 else 0 | _ => 0 end.
Definition files (k : nat) (t : list file) : Z := foldr (fun f n => file_ref k f + n) 0 t.
(** the descriptors for file [j] *)
Definition fd_ref (j : nat) (d : option nat) : Z := if decide (d = Some j) then 1 else 0.
Definition fds (j : nat) (l : list (option nat)) : Z := foldr (fun d n => fd_ref j d + n) 0 l.
Definition cwd_ref (k : nat) (s : kst) : Z := if decide (cwd s = k) then 1 else 0.

Lemma foldr_insert {A} (w : A -> Z) (l : list A) i x y :
  l !! i = Some x ->
  foldr (fun a n => w a + n) 0 (<[i := y]> l) = foldr (fun a n => w a + n) 0 l - w x + w y.
Proof.
  revert i. induction l as [|z l IH]; intros [|i] Hi; simpl in *; try done; [injection Hi as ->; lia|].
  rewrite (IH _ Hi). lia.
Qed.

Section Accounts.
Context (base fbase : nat -> Z) (l0 : nat -> bool) (n0 : Z) (len : nat).
Hypothesis Hfbase : forall j, 0 <= fbase j.

(** who holds inode [k]: the others, the open files, the current directory *)
Definition holders (s : kst) (k : nat) : Z := base k + files k (ftable s) + cwd_ref k s.

(** [acct n rs ls df s]: every count is accounted for, with the references [rs],
    the locks [ls] and [n] transactions in the hands of the running call, and
    [df j] references to file [j] that are not descriptors *)
Record acct (n : Z) (rs ls : list nat) (df : nat -> Z) (s : kst) : Prop := {
  a_fs : holding (holders s) l0 n0 len n rs ls (fs s);
  a_ref j x : ftable s !! j = Some x -> fl_ref x = fbase j + fds j (ofile s) + df j;
  a_none j x : ftable s !! j = Some x -> fl_ref x = 0 -> fl_type x = FD_NONE;
  a_ip j x : ftable s !! j = Some x -> fl_type x = FD_INODE -> (fl_ip x < len)%nat;
  a_cwd : (cwd s < len)%nat
}.

Lemma acct_ext n rs ls df df' s : (forall j, df' j = df j) -> acct n rs ls df s -> acct n rs ls df' s.
Proof. intros E [A B C D F]. split; try done. intros j x Hx. rewrite E. by apply B. Qed.

Lemma holding_ext o o' n rs ls f : (forall k, o' k = o k) -> holding o l0 n0 len n rs ls f -> holding o' l0 n0 len n rs ls f.
Proof. intros E [A B C D F G J]. split; try done. intros k. rewrite E. apply A. Qed.

(** moving a reference between the call and the others *)
Lemma holding_take o o' n rs ls ip f :
  (ip < len)%nat -> (forall k, o k = o' k + (if decide (ip = k) then 1 else 0)) ->
  holding o l0 n0 len n rs ls f -> holding o' l0 n0 len n (ip :: rs) ls f.
Proof.
  intros Hip E [A B C D F G J]. split; try done; [|by constructor]. intros k. rewrite A, E. simpl. lia.
Qed.
Lemma holding_give o o' n rs ls ip f :
  (forall k, o' k = o k + (if decide (ip = k) then 1 else 0)) ->
  holding o l0 n0 len n (ip :: rs) ls f -> holding o' l0 n0 len n rs ls f.
Proof.
  intros E [A B C D F G J]. inversion J; subst. split; try done. intros k. rewrite A, E. simpl. lia.
Qed.

(** a call into the file system *)
Lemma safe_on_fs {A} n rs ls df s (m : M fsys A) (Q : A -> kst -> Prop) :
  acct n rs ls df s ->
  safe m (fs s) (fun a f => exists n' rs' ls', holding (holders s) l0 n0 len n' rs' ls' f /\
    (forall s', s' = set_fs f s -> acct n' rs' ls' df s' -> Q a s')) ->
  safe (on_fs m) s Q.
Proof.
  intros [F R N I W] Hm. unfold safe, on_fs in *. destruct (m (fs s)) as [[a f]| |]; [|done|done].
  destruct Hm as (n' & rs' & ls' & Hf & HQ). apply HQ; [done|]. by split.
Qed.

(** what an update of one file changes *)
Lemma acct_upd_file n rs ls df df' rs' s f x y :
  acct n rs ls df s -> ftable s !! f = Some x ->
  (fl_ref y = 0 -> fl_type y = FD_NONE) -> (fl_type y = FD_INODE -> (fl_ip y < len)%nat) ->
  (forall j, df' j = df j + (if decide (f = j) then fl_ref y - fl_ref x else 0)) ->
  (holding (holders s) l0 n0 len n rs ls (fs s) ->
   holding (fun k => holders s k - file_ref k x + file_ref k y) l0 n0 len n rs' ls (fs s)) ->
  acct n rs' ls df' (set_ftable (<[f := y]> (ftable s)) s).
Proof.
  intros [F R N I W] Hx Hn Hi Hd Hh. pose proof (lookup_lt_Some _ _ _ Hx) as Hlt.
  assert (forall j z, <[f := y]> (ftable s) !! j = Some z -> (j = f /\ z = y) \/ (j <> f /\ ftable s !! j = Some z)) as Hcase.
  { intros j z. destruct (decide (j = f)) as [->|Hne]; [rewrite list_lookup_insert_eq by done | rewrite list_lookup_insert_ne by done]; naive_solver. }
  split.
  - eapply holding_ext; [|by apply Hh]. intros k. unfold holders, files. cbn [ftable set_ftable].
    rewrite (foldr_insert (file_ref k) _ _ _ y Hx). unfold cwd_ref. cbn [cwd set_ftable]. lia.
  - intros j z Hz. cbn [ftable ofile set_ftable] in *. rewrite Hd. destruct (Hcase j z Hz) as [[-> ->]|[Hne Hj]].
    + rewrite decide_True by done. rewrite (R f x Hx) at 1. specialize (R f x Hx). lia.
    + rewrite decide_False by done. rewrite (R j z Hj). lia.
  - intros j z Hz. destruct (Hcase j z Hz) as [[-> ->]|[Hne Hj]]; [done | by eapply N].
  - intros j z Hz. destruct (Hcase j z Hz) as [[-> ->]|[Hne Hj]]; [done | by eapply I].
  - done.
Qed.

Lemma upd_file_insert f g (s : kst) x : ftable s !! f = Some x ->
  alter g f (ftable s) = <[f := g x]> (ftable s).
Proof. intros Hx. by apply list_alter_insert. Qed.

Lemma acct_pipes n rs ls df s p : acct n rs ls df s -> acct n rs ls df (set_pipes p s).
Proof. intros [F R N I W]. by split. Qed.

(** a descriptor changes hands *)
Lemma acct_ofile n rs ls df df' s fd d d' :
  acct n rs ls df s -> ofile s !! fd = Some d -> (forall j, df' j = df j + fd_ref j d - fd_ref j d') ->
  acct n rs ls df' (set_ofile (<[fd := d']> (ofile s)) s).
Proof.
  intros [F R N I W] Hd E. split; try done. intros j x Hx. cbn [ftable ofile set_ofile] in *. unfold fds.
  rewrite (foldr_insert (fd_ref j) _ _ _ d' Hd), E, (R j x Hx). unfold fds. lia.
Qed.

(** one more or one less reference to file [f] *)
Definition bump (df : nat -> Z) (f : nat) (d : Z) : nat -> Z := fun j => df j + (if decide (f = j) then d else 0).

Lemma free_file_Some l : forall k m, free_file l k = Some m -> exists i x, m = (k + i)%nat /\ l !! i = Some x /\ fl_ref x = 0.
Proof.
  induction l as [|x l IH]; intros k m; simpl; [done|]. destruct (Z.eqb_spec (fl_ref x) 0) as [E|E].
  - intros [= <-]. exists 0%nat, x. split_and!; [lia|done|done].
  - intros Hm. apply IH in Hm as (i & y & -> & Hi & Hr). exists (S i), y. split_and!; [lia|done|done].
Qed.

Lemma file_ref_same k x y : fl_type y = fl_type x -> fl_ip y = fl_ip x -> file_ref k y = file_ref k x.
Proof. unfold file_ref. by intros -> ->. Qed.
Lemma file_ref_none k x : fl_type x <> FD_INODE -> file_ref k x = 0.
Proof. unfold file_ref. by destruct (fl_type x). Qed.

Lemma holding_same_files n rs ls s x y : (forall k, file_ref k y = file_ref k x) ->
  holding (holders s) l0 n0 len n rs ls (fs s) ->
  holding (fun k => holders s k - file_ref k x + file_ref k y) l0 n0 len n rs ls (fs s).
Proof. intros E. apply holding_ext. intros k. rewrite E. lia. Qed.

Section Ops.
Context (n : Z) (rs ls : list nat) (df : nat -> Z) (s : kst).
Hypothesis Ha : acct n rs ls df s.

Lemma safe_filealloc (Q : option nat -> kst -> Prop) :
  Q None s ->
  (forall f x s', acct n rs ls (bump df f 1) s' -> ftable s' !! f = Some x -> fl_type x = FD_NONE -> cwd s' = cwd s ->
     ofile s' = ofile s -> (forall j y, j <> f -> ftable s !! j = Some y -> ftable s' !! j = Some y) -> Q (Some f) s') ->
  safe filealloc s Q.
Proof using Ha.
  intros HN HS. unfold filealloc. step. destruct (free_file (ftable s) 0) as [f|] eqn:Ef; [|by step].
  apply free_file_Some in Ef as (i & x & -> & Hi & Hr). cbn [Nat.add]. unfold upd_file. step. step.
  rewrite (upd_file_insert _ _ _ _ Hi). pose proof (lookup_lt_Some _ _ _ Hi) as Hlt.
  pose proof (a_none _ _ _ _ _ Ha _ _ Hi Hr) as Ht. eapply HS.
  - eapply acct_upd_file; [exact Ha | exact Hi | done | cbn; intros; congruence | |].
    + intros j. unfold bump. cbn. case_decide; lia.
    + apply holding_same_files. intros k. by apply file_ref_same.
  - by apply list_lookup_insert_eq.
  - done.
  - done.
  - done.
  - intros j y Hne Hj. cbn [ftable set_ftable]. by rewrite list_lookup_insert_ne.
Qed.

(** an update that keeps the count, the type and the inode of a file *)
Lemma safe_upd_off f g (Q : unit -> kst -> Prop) :
  (forall x, fl_ref (g x) = fl_ref x /\ fl_type (g x) = fl_type x /\ fl_ip (g x) = fl_ip x) ->
  (forall s', acct n rs ls df s' -> (forall j, fl_ip (ftable s' !!! j) = fl_ip (ftable s !!! j)) -> Q tt s') ->
  safe (upd_file f g) s Q.
Proof using Ha.
  intros Hg HQ. unfold upd_file. step. destruct (ftable s !! f) as [x|] eqn:Ex.
  - rewrite (upd_file_insert _ _ _ _ Ex). destruct (Hg x) as (E1 & E2 & E3). apply HQ.
    + eapply acct_upd_file; [exact Ha | exact Ex | | | |].
      * rewrite E1, E2. by apply (a_none _ _ _ _ _ Ha f).
      * rewrite E2, E3. by apply (a_ip _ _ _ _ _ Ha f).
      * intros j. rewrite E1. case_decide; lia.
      * apply holding_same_files. intros k. by apply file_ref_same.
    + intros j. cbn [ftable set_ftable]. destruct (decide (j = f)) as [->|Hne].
      * rewrite list_lookup_total_insert_eq by (by eapply lookup_lt_Some). by rewrite (list_lookup_total_correct _ _ _ Ex).
      * by rewrite list_lookup_total_insert_ne.
  - assert (alter g f (ftable s) = ftable s) as ->.
    { apply list_eq. intros j. rewrite list_lookup_alter. case_decide; [subst; by rewrite Ex | done]. }
    destruct s. by apply HQ.
Qed.

Lemma safe_filedup f (Q : nat -> kst -> Prop) :
  (forall s', acct n rs ls (bump df f 1) s' -> Q f s') -> safe (filedup f) s Q.
Proof using Ha.
  intros HQ. unfold filedup, get_file. step. destruct (Z.ltb_spec (fl_ref (ftable s !!! f)) 1); [done|].
  destruct (ftable s !! f) as [x|] eqn:Ex.
  2:{ exfalso. rewrite list_lookup_total_alt, Ex in *. cbn in *. lia. }
  rewrite (list_lookup_total_correct _ _ _ Ex) in *. unfold upd_file. step. step. rewrite (upd_file_insert _ _ _ _ Ex).
  apply HQ. eapply acct_upd_file; [exact Ha | exact Ex | cbn; lia | exact (a_ip _ _ _ _ _ Ha f x Ex) | |].
  - intros j. unfold bump. cbn. case_decide; lia.
  - apply holding_same_files. intros k. by apply file_ref_same.
Qed.

Lemma safe_fileclose f (Q : unit -> kst -> Prop) :
  (forall s', acct n rs ls (bump df f (-1)) s' -> cwd s' = cwd s -> ofile s' = ofile s -> Q tt s') -> safe (fileclose f) s Q.
Proof using Ha QO.
  intros HQ. unfold fileclose, get_file. step. destruct (Z.ltb_spec (fl_ref (ftable s !!! f)) 1); [done|].
  destruct (ftable s !! f) as [x|] eqn:Ex.
  2:{ exfalso. rewrite list_lookup_total_alt, Ex in *. cbn in *. lia. }
  rewrite (list_lookup_total_correct _ _ _ Ex) in *. destruct (Z.ltb_spec 0 (fl_ref x - 1)).
  { unfold upd_file. step. rewrite (upd_file_insert _ _ _ _ Ex). apply HQ; [|done|done].
    eapply acct_upd_file; [exact Ha | exact Ex | cbn; lia | exact (a_ip _ _ _ _ _ Ha f x Ex) | |].
    - intros j. unfold bump. cbn. case_decide; lia.
    - apply holding_same_files. intros k. by apply file_ref_same. }
  unfold upd_file. step. rewrite (upd_file_insert _ _ _ _ Ex).
  set (y := with_ftype FD_NONE (with_fref 0 x)). set (s1 := set_ftable _ s).
  assert (forall rs', (holding (holders s) l0 n0 len n rs ls (fs s) -> holding (fun k => holders s k - file_ref k x + file_ref k y) l0 n0 len n rs' ls (fs s)) ->
    acct n rs' ls (bump df f (-1)) s1) as Hacct.
  { intros rs' Hh. eapply acct_upd_file; [exact Ha | exact Ex | done | done | | exact Hh].
    intros j. unfold bump, y. cbn. case_decide; lia. }
  destruct (fl_type x) eqn:Et.
  - step. apply HQ; [|done|done]. apply Hacct. apply holding_same_files. intros k. rewrite (file_ref_none k y) by done. by rewrite file_ref_none by congruence.
  - unfold close_pipe. step. apply HQ; [|done|done]. apply acct_pipes, Hacct, holding_same_files.
    intros k. rewrite (file_ref_none k y) by done. by rewrite file_ref_none by congruence.
  - assert (acct n (fl_ip x :: rs) ls (bump df f (-1)) s1) as Ha1.
    { apply Hacct. apply holding_take; [by apply (a_ip _ _ _ _ _ Ha f)|]. intros k.
      rewrite (file_ref_none k y) by done. unfold file_ref. rewrite Et. lia. }
    eapply safe_on_fs; [exact Ha1|]. apply safe_bind. eapply (safe_begin_op _ _ _ _ _ _ _ _ (a_fs _ _ _ _ _ Ha1)). intros f2 H2.
    apply safe_bind. eapply (@safe_iput _ _ _ _ H QO); [exact H2|done|]. intros f3 H3.
    eapply (safe_end_op _ _ _ _ _ _ _ _ H3). intros f4 H4. exists n, rs, ls.
    replace (n + 1 - 1) with n in H4 by lia. split; [exact H4|]. intros s' -> Hs'. by apply HQ.
Qed.

Lemma free_fd_Some l : forall k m, free_fd l k = Some m -> exists i, m = (k + i)%nat /\ l !! i = Some None.
Proof.
  induction l as [|[x|] l IH]; intros k m; simpl; [done| |].
  - intros Hm. apply IH in Hm as (i & -> & Hi). exists (S i). split; [lia|done].
  - intros [= <-]. exists 0%nat. split; [lia|done].
Qed.

Lemma safe_fdalloc f (Q : Z -> kst -> Prop) :
  Q (-1) s ->
  (forall fd s', 0 <= fd -> acct n rs ls (bump df f (-1)) s' -> ofile s' !! Z.to_nat fd = Some (Some f) ->
     ftable s' = ftable s -> cwd s' = cwd s -> (forall d, d <> Z.to_nat fd -> ofile s' !! d = ofile s !! d) -> Q fd s') ->
  safe (fdalloc f) s Q.
Proof using Ha.
  intros HN HS. unfold fdalloc. step. destruct (free_fd (ofile s) 0) as [m|] eqn:Em; [|by step].
  apply free_fd_Some in Em as (i & -> & Hi). cbn [Nat.add]. step. step.
  pose proof (lookup_lt_Some _ _ _ Hi) as Hlt. apply HS; rewrite ?Nat2Z.id; try done; [lia | | |].
  - eapply acct_ofile; [exact Ha | exact Hi |]. intros j. unfold bump, fd_ref. repeat case_decide; simplify_eq; try lia; congruence.
  - by apply list_lookup_insert_eq.
  - intros d Hne. by apply list_lookup_insert_ne.
Qed.
End Ops.

(** ** The calls *)

(** every count is accounted for, and the running call holds nothing *)
Definition accounted (s : kst) : Prop := acct 0 [] [] (fun _ => 0) s.
Definition fair {A} (m : M kst A) : Prop := forall s, accounted s -> safe m s (fun _ => accounted).

Lemma acct_done df s : (forall j, df j = 0) -> acct 0 [] [] df s -> accounted s.
Proof. intros E. by apply acct_ext. Qed.

(** calls that only involve the file system *)
Lemma fair_on_fs {A} (m : nat -> M fsys A) :
  (forall o cwd, (cwd < len)%nat -> nets o l0 n0 len (m cwd)) -> fair (s ← get; on_fs (m (cwd s))).
Proof.
  intros Hm s Ha. step. eapply safe_on_fs; [exact Ha|].
  eapply safe_mono; [apply (Hm (holders s) (cwd s) (a_cwd _ _ _ _ _ Ha)), Ha|]. intros a f Hf. exists 0, [], [].
  split; [exact Hf|]. intros s' _ Hs. exact Hs.
Qed.

Lemma safe_on_raw {A} s (m : M fsys A) (Q : A -> kst -> Prop) :
  safe m (fs s) (fun a f => Q a (set_fs f s)) -> safe (on_fs m) s Q.
Proof. unfold safe, on_fs. by destruct (m (fs s)) as [[a f]| |]. Qed.

(** a step of the file system that keeps what the call holds *)
Lemma safe_on_quiet {A} n rs ls df s (m : M fsys A) (Q : A -> kst -> Prop) :
  acct n rs ls df s -> quiet m -> (forall a f s', s' = set_fs f s -> acct n rs ls df s' -> Q a s') -> safe (on_fs m) s Q.
Proof.
  intros Ha Hq HQ. eapply safe_on_fs; [exact Ha|]. eapply (safe_quiet _ _ _ _ _ _ _ _ (a_fs _ _ _ _ _ Ha)); [exact Hq|].
  intros a f Hf. exists n, rs, ls. split; [exact Hf|]. intros s' -> Hs. by eapply HQ.
Qed.

Lemma safe_on_ilock n rs ls df s ip (Q : unit -> kst -> Prop) :
  acct n rs ls df s -> (forall f s', s' = set_fs f s -> acct n rs (ip :: ls) df s' -> Q tt s') -> safe (on_fs (ilock ip)) s Q.
Proof.
  intros Ha HQ. eapply safe_on_fs; [exact Ha|]. eapply (safe_ilock _ _ _ _ _ _ _ _ _ _ (a_fs _ _ _ _ _ Ha)).
  intros f Hf. exists n, rs, (ip :: ls). split; [exact Hf|]. intros s' -> Hs. by eapply HQ.
Qed.

Lemma safe_on_iunlock n rs ls df s ip (Q : unit -> kst -> Prop) :
  acct n rs (ip :: ls) df s -> (forall f s', s' = set_fs f s -> acct n rs ls df s' -> Q tt s') -> safe (on_fs (iunlock ip)) s Q.
Proof.
  intros Ha HQ. eapply safe_on_fs; [exact Ha|]. eapply (safe_iunlock _ _ _ _ _ _ _ _ (a_fs _ _ _ _ _ Ha)); [done|].
  intros f Hf. exists n, rs, ls. split; [exact Hf|]. intros s' -> Hs. by eapply HQ.
Qed.

Lemma safe_on_iput n rs ls df s ip (Q : unit -> kst -> Prop) :
  acct n (ip :: rs) ls df s -> (forall f s', s' = set_fs f s -> acct n rs ls df s' -> Q tt s') -> safe (on_fs (iput ip)) s Q.
Proof.
  intros Ha HQ. eapply safe_on_fs; [exact Ha|]. eapply (@safe_iput _ _ _ _ H QO); [exact (a_fs _ _ _ _ _ Ha) | done |].
  intros f Hf. exists n, rs, ls. split; [exact Hf|]. intros s' -> Hs. by eapply HQ.
Qed.

Lemma safe_on_begin n rs ls df s (Q : unit -> kst -> Prop) :
  acct n rs ls df s -> (forall f s', s' = set_fs f s -> acct (n + 1) rs ls df s' -> Q tt s') -> safe (on_fs begin_op) s Q.
Proof.
  intros Ha HQ. eapply safe_on_fs; [exact Ha|]. eapply (safe_begin_op _ _ _ _ _ _ _ _ (a_fs _ _ _ _ _ Ha)).
  intros f Hf. exists (n + 1), rs, ls. split; [exact Hf|]. intros s' -> Hs. by eapply HQ.
Qed.

Lemma safe_on_end n rs ls df s (Q : unit -> kst -> Prop) :
  acct (n + 1) rs ls df s -> (forall f s', s' = set_fs f s -> acct n rs ls df s' -> Q tt s') -> safe (on_fs end_op) s Q.
Proof.
  intros Ha HQ. eapply safe_on_fs; [exact Ha|]. eapply (safe_end_op _ _ _ _ _ _ _ _ (a_fs _ _ _ _ _ Ha)).
  intros f Hf. exists n, rs, ls. replace (n + 1 - 1) with n in Hf by lia. split; [exact Hf|]. intros s' -> Hs. by eapply HQ.
Qed.

Lemma on_fs_bind {A B} (m : M fsys A) (f : A -> M fsys B) s : on_fs (m ≫= f) s = (a ← on_fs m; on_fs (f a)) s.
Proof. unfold on_fs, mbind, M_bind. destruct (m (fs s)) as [[a g]| |]; simpl; [|done|done]. by destruct (f a g) as [[]| |]. Qed.

Lemma safe_on_bind {A B} (m : M fsys A) (f : A -> M fsys B) s (Q : B -> kst -> Prop) :
  safe (on_fs m) s (fun a s' => safe (on_fs (f a)) s' Q) -> safe (on_fs (m ≫= f)) s Q.
Proof. intros Hm. unfold safe at 1. rewrite on_fs_bind. by apply safe_bind. Qed.

(** [iunlockput ip ;; end_op] *)
Lemma safe_on_put_end n rs ls df s ip (Q : unit -> kst -> Prop) :
  acct (n + 1) (ip :: rs) (ip :: ls) df s -> (forall f s', s' = set_fs f s -> acct n rs ls df s' -> Q tt s') ->
  safe (on_fs (iunlockput ip ;; end_op)) s Q.
Proof.
  intros Ha HQ. unfold iunlockput. apply safe_on_bind, safe_on_bind. eapply safe_on_iunlock; [exact Ha|]. intros f1 s1 -> H1.
  eapply safe_on_iput; [exact H1|]. intros f2 s2 -> H2. eapply safe_on_end; [exact H2|]. intros f3 s3 -> H3. by eapply HQ.
Qed.

(** [argfd] changes nothing, and its file is the one of its descriptor *)
Lemma safe_argfd arg s (Q : option (Z * nat) -> kst -> Prop) :
  Q None s -> (forall fd f, ofile s !! Z.to_nat fd = Some (Some f) -> Q (Some (fd, f)) s) -> safe (argfd arg) s Q.
Proof.
  intros HN HS. unfold argfd. step. step. destruct arg as [fd|]; [|done]. destruct (_ || _); [done|].
  destruct (ofile s !!! Z.to_nat fd) as [f|] eqn:E; [|done]. apply HS.
  rewrite list_lookup_total_alt in E. destruct (ofile s !! Z.to_nat fd) as [d|]; simpl in E; [by subst|done].
Qed.

Lemma fair_dup arg : fair (sys_dup arg).
Proof using QO.
  intros s Ha. unfold sys_dup. apply safe_bind, safe_argfd; [by step|]. intros fd f _. apply safe_bind.
  eapply safe_fdalloc; [exact Ha | by step |]. intros d s1 Hd H1 _ _ _ _. destruct (Z.ltb_spec d 0); [lia|].
  apply safe_bind. eapply safe_filedup; [exact H1|]. intros s2 H2. step.
  eapply acct_ext; [|exact H2]. intros j. unfold bump. case_decide; lia.
Qed.

Lemma fair_close arg : fair (sys_close arg).
Proof using QO.
  intros s Ha. unfold sys_close. apply safe_bind, safe_argfd; [by step|]. intros fd f Hfd. step. step. apply safe_bind.
  eapply safe_fileclose.
  - eapply (acct_ofile _ _ _ _ (bump (fun _ => 0) f 1)); [exact Ha | exact Hfd |]. intros j. unfold bump, fd_ref.
    repeat case_decide; simplify_eq; try lia; congruence.
  - intros s1 H1 _ _. step. eapply acct_ext; [|exact H1]. intros j. unfold bump. case_decide; lia.
Qed.

Lemma fair_fileread f sz : fair (fileread f sz).
Proof using QO.
  intros s Ha. unfold fileread, get_file. step. destruct (negb _); [by step|]. destruct (fl_type _); [done| |].
  - step. destruct (Pipe.piperead _ _ _) as [[r|i] p']; [|done]. step. step. by apply acct_pipes.
  - apply safe_bind. eapply safe_on_ilock; [exact Ha|]. intros g1 s1 _ H1. apply safe_bind.
    eapply safe_on_quiet; [exact H1 | apply quiet_readi |]. intros [r bytes] g2 s2 _ H2. apply safe_bind.
    assert (forall s3, acct 0 [] [fl_ip (ftable s !!! f)] (fun _ => 0) s3 ->
      safe (on_fs (iunlock (fl_ip (ftable s !!! f))) ;; mret (r, bytes)) s3 (fun _ => accounted)) as Hend.
    { intros s3 H3. apply safe_bind. eapply safe_on_iunlock; [exact H3|]. intros g4 s4 _ H4. by step. }
    destruct (0 <? r); [|by apply Hend]. eapply safe_upd_off; [exact H2|done|]. intros s3 H3 _. by apply Hend.
Qed.

Lemma fair_read arg sz : fair (sys_read arg sz).
Proof using QO.
  intros s Ha. unfold sys_read. apply safe_bind, safe_argfd; [by step|]. intros fd f _.
  destruct sz as [sz|]; [by apply fair_fileread | by step].
Qed.

Lemma fair_filewrite_loop f src sz : forall fuel i, fair (filewrite_loop fuel f src sz i).
Proof using QO.
  induction fuel as [|fuel IH]; intros i s Ha; cbn [filewrite_loop]; [done|]. destruct (i <? sz); [|by step].
  unfold get_file. step. set (x := ftable s !!! f). apply safe_bind, safe_on_bind.
  eapply safe_on_begin; [exact Ha|]. intros g1 s1 _ H1. eapply safe_on_ilock; [exact H1|]. intros g2 s2 _ H2.
  apply safe_bind. eapply safe_on_quiet; [exact H2 | apply quiet_writei |]. intros r g3 s3 _ H3. apply safe_bind.
  assert (forall s4, acct (0 + 1) [] [fl_ip x] (fun _ => 0) s4 -> safe
    (on_fs (iunlock (fl_ip x) ;; end_op) ;;
     if r <? 0 then mret i
     else if negb (r =? Z.min (sz - i) MAXWRITE) then if short_write_ok then mret (i + r) else panic "short filewrite"
     else filewrite_loop fuel f src sz (i + r)) s4 (fun _ => accounted)) as Hend.
  { intros s4 H4. apply safe_bind, safe_on_bind. eapply safe_on_iunlock; [exact H4|]. intros g5 s5 _ H5.
    eapply safe_on_end; [exact H5|]. intros g6 s6 _ H6. destruct (r <? 0); [by step|]. destruct (negb _); [|by apply IH].
    by destruct short_write_ok. }
  destruct (0 <? r); [|by apply Hend]. eapply safe_upd_off; [exact H3|done|]. intros s4 H4 _. by apply Hend.
Qed.

Lemma fair_write arg src : fair (sys_write arg src).
Proof using QO.
  intros s Ha. unfold sys_write. apply safe_bind, safe_argfd; [by step|]. intros fd f _.
  destruct src as [src|]; [|by step]. unfold filewrite, get_file. step. destruct (negb _); [by step|]. destruct (fl_type _); [done| |].
  - step. destruct (Pipe.pipewrite _ _ _ _ _) as [[r|i] p']; [|done]. step. step. by apply acct_pipes.
  - apply safe_bind. eapply safe_mono; [by apply fair_filewrite_loop|]. intros i s1 H1. by step.
Qed.

Lemma fair_printinfo arg : fair (sys_printinfo arg).
Proof using QO.
  intros s Ha. unfold sys_printinfo. apply safe_bind, safe_argfd; [by step|]. intros fd f _.
  unfold get_file. step. destruct (fl_type _); [by step..|]. unfold printinfo. apply safe_on_bind.
  eapply safe_on_ilock; [exact Ha|]. intros g1 s1 _ H1. apply safe_on_bind.
  eapply safe_on_quiet; [exact H1 | apply quiet_inode_at |]. intros i g2 s2 _ H2.
  assert (forall s3 (r : Z), acct 0 [] [fl_ip (ftable s !!! f)] (fun _ => 0) s3 ->
    safe (on_fs (iunlock (fl_ip (ftable s !!! f)) ;; mret r)) s3 (fun _ => accounted)) as Hend.
  { intros s3 r H3. apply safe_on_bind. eapply safe_on_iunlock; [exact H3|]. intros g4 s4 _ H4.
    eapply safe_on_quiet; [exact H4 | apply quiet_ret |]. intros a g5 s5 _ H5. exact H5. }
  destruct (_ && _); [by apply Hend|].
  do 7 (apply safe_on_bind; (eapply safe_on_quiet; [eassumption | first [apply quiet_cprintf | apply quiet_printinfo_loop] |]); intros [] ? ? _ ?).
  by apply Hend.
Qed.

Lemma fair_fstat arg ok : fair (sys_fstat arg ok).
Proof using QO.
  intros s Ha. unfold sys_fstat. apply safe_bind, safe_argfd; [by step|]. intros fd f _. destruct ok; [|by step].
  unfold filestat, get_file. step. destruct (fl_type _); [by step..|]. apply safe_on_bind.
  eapply safe_on_ilock; [exact Ha|]. intros g1 s1 _ H1. apply safe_on_bind. eapply safe_on_quiet; [exact H1 | unfold stati; quiet_auto |].
  intros st g2 s2 _ H2. apply safe_on_bind. eapply safe_on_iunlock; [exact H2|]. intros g3 s3 _ H3.
  eapply safe_on_quiet; [exact H3 | apply quiet_ret |]. intros a g4 s4 _ H4. exact H4.
Qed.
(** ** Opening *)

Lemma fds_nonneg j l : 0 <= fds j l.
Proof. induction l as [|d l IH]; [done|]. change (fds j (d :: l)) with (fd_ref j d + fds j l). unfold fd_ref. case_decide; lia. Qed.
Lemma fds_pos j l d : l !! d = Some (Some j) -> 1 <= fds j l.
Proof.
  revert d. induction l as [|e l IH]; intros [|d] Hd; simpl in Hd; try done; change (fds j (e :: l)) with (fd_ref j e + fds j l).
  - injection Hd as ->. unfold fd_ref. rewrite decide_True by done. pose proof (fds_nonneg j l). lia.
  - apply IH in Hd. unfold fd_ref. case_decide; lia.
Qed.

(** a file that a descriptor refers to becomes the file of inode [ip] *)
Lemma acct_install n rs ls df s f g ip :
  acct n (ip :: rs) ls df s -> 0 <= df f -> (exists d, ofile s !! d = Some (Some f)) ->
  (forall x, ftable s !! f = Some x -> fl_type x = FD_NONE) ->
  (forall x, fl_ref (g x) = fl_ref x /\ fl_type (g x) = FD_INODE /\ fl_ip (g x) = ip) -> is_Some (ftable s !! f) ->
  acct n rs ls df (set_ftable (alter g f (ftable s)) s).
Proof using Hfbase.
  intros Ha Hdf [d Hd] Hx Hg [x Ex]. rewrite (upd_file_insert _ _ _ _ Ex). specialize (Hx x Ex). destruct (Hg x) as (E1 & E2 & E3).
  eapply acct_upd_file; [exact Ha | exact Ex | | | |].
  - rewrite E1, (a_ref _ _ _ _ _ Ha _ _ Ex). pose proof (fds_pos _ _ _ Hd). specialize (Hfbase f). lia.
  - intros _. rewrite E3. pose proof (h_range _ _ _ _ _ _ _ _ (a_fs _ _ _ _ _ Ha)) as Hr. by inversion Hr.
  - intros j. rewrite E1. case_decide; lia.
  - apply holding_give. intros k. rewrite (file_ref_none k x) by congruence. unfold file_ref. rewrite E2, E3. lia.
Qed.

Lemma fair_open path mode : fair (sys_open path mode).
Proof using QO Hfbase.
  intros s Ha. unfold sys_open. destruct path as [path|]; [|by step]. destruct mode as [omode|]; [|by step]. step. apply safe_bind.
  eapply safe_on_begin; [exact Ha|]. intros g1 s1 _ H1. apply safe_bind. eapply safe_on_fs; [exact H1|].
  eapply (safe_open_inode _ _ _ _ (cwd s) (a_cwd _ _ _ _ _ Ha) _ _ _ _ _ _ _ (a_fs _ _ _ _ _ H1)).
  { intros g2 Hg2. exists (0 + 1), [], []. split; [exact Hg2|]. intros s2 _ H2. apply safe_bind.
    eapply safe_on_end; [exact H2|]. intros g3 s3 _ H3. by step. }
  intros ip g2 Hg2. exists (0 + 1), [ip], [ip]. split; [exact Hg2|]. intros s2 _ H2.
  assert (forall s3 df, (forall j, df j = 0) -> acct (0 + 1) [ip] [ip] df s3 ->
    safe (on_fs (iunlockput ip ;; end_op) ;; mret (-1)) s3 (fun _ => accounted)) as Hfail.
  { intros s3 df Hdf H3. apply safe_bind. eapply safe_on_put_end; [exact H3|]. intros g4 s4 _ H4. step. by eapply acct_done. }
  apply safe_bind. eapply safe_filealloc; [exact H2 | step; by eapply Hfail |].
  intros f x s3 H3 Hx Ht _ _ _. apply safe_bind. eapply safe_fdalloc; [exact H3 | |].
  - cbn beta. change (-1 <? 0) with true. cbv iota. apply safe_bind. eapply safe_fileclose; [exact H3|]. intros s4 H4 _ _. eapply Hfail; [|exact H4].
    intros j. unfold bump. case_decide; lia.
  - intros fd s4 Hfd H4 Hof Eft _ _. destruct (Z.ltb_spec fd 0); [lia|]. apply safe_bind, safe_on_bind.
    eapply safe_on_iunlock; [exact H4|]. intros g5 s5 E5 H5. eapply safe_on_end; [exact H5|]. intros g6 s6 E6 H6.
    apply safe_bind. unfold upd_file. step. step. subst s5 s6.
    eapply acct_done; [|eapply (acct_install _ _ _ _ _ f _ ip); [exact H6| | | | |]].
    + intros j. unfold bump. case_decide; lia.
    + unfold bump. rewrite !decide_True by done. lia.
    + by eexists.
    + cbn [ftable set_fs]. rewrite Eft. intros y Hy. congruence.
    + done.
    + cbn [ftable set_fs]. rewrite Eft. by eexists.
Qed.

Lemma fair_chdir path : fair (sys_chdir path).
Proof using QO.
  intros s Ha. unfold sys_chdir. step. apply safe_bind. eapply safe_on_begin; [exact Ha|]. intros g1 s1 -> H1. apply safe_bind.
  assert (forall s2, acct (0 + 1) [] [] (fun _ => 0) s2 -> safe (on_fs end_op ;; mret (-1)) s2 (fun _ => accounted)) as Hnone.
  { intros s2 H2. apply safe_bind. eapply safe_on_end; [exact H2|]. intros g3 s3 _ H3. by step. }
  eapply safe_on_fs; [exact H1|]. destruct path as [path|].
  2:{ step. exists (0 + 1), [], []. split; [apply H1|]. intros s2 _. apply Hnone. }
  eapply (@safe_namei _ _ _ _ H QO (cwd s) (a_cwd _ _ _ _ _ Ha)); [exact (a_fs _ _ _ _ _ H1) | |].
  { intros g2 Hg2. exists (0 + 1), [], []. split; [exact Hg2|]. intros s2 _. apply Hnone. }
  intros ip g2 Hg2. exists (0 + 1), [ip], []. split; [exact Hg2|]. intros s2 -> H2. apply safe_bind.
  eapply safe_on_ilock; [exact H2|]. intros g3 s3 -> H3. apply safe_bind.
  eapply safe_on_quiet; [exact H3 | apply quiet_inode_at |]. intros i g4 s4 -> H4. destruct (negb _).
  { apply safe_bind. eapply safe_on_put_end; [exact H4|]. intros g5 s5 _ H5. by step. }
  apply safe_bind. eapply safe_on_iunlock; [exact H4|]. intros g5 s5 -> H5. apply safe_bind.
  pose proof H5 as [F R N I W]. set (c := cwd s) in *.
  set (o' := fun k => base k + files k (ftable s) + (if decide (ip = k) then 1 else 0)).
  assert (holding o' l0 n0 len (0 + 1) [c] [] g5) as F'.
  { eapply (holding_take (fun k => holders s k + (if decide (ip = k) then 1 else 0))); [exact W | | eapply holding_give; [|exact F]; done].
    intros k. unfold o', holders, cwd_ref. fold c. lia. }
  eapply safe_on_raw. eapply (@safe_iput _ _ _ _ H QO); [exact F'|done|]. intros g6 F6. apply safe_bind.
  eapply safe_on_raw. eapply (safe_end_op _ _ _ _ _ _ _ _ F6). intros g7 F7. step. step. split; try done.
  pose proof (h_range _ _ _ _ _ _ _ _ Hg2) as Hr. by inversion Hr.
Qed.
(** ** Pipes *)

Lemma safe_set_pipe n rs ls df s f g (Q : unit -> kst -> Prop) :
  acct n rs ls df s -> 0 < df f -> (forall x, ftable s !! f = Some x -> fl_type x <> FD_INODE) ->
  (forall x, fl_ref (g x) = fl_ref x /\ fl_type (g x) = FD_PIPE) ->
  (forall s', acct n rs ls df s' -> (forall j x, ftable s' !! j = Some x -> fl_type x = FD_INODE -> exists y, ftable s !! j = Some y /\ fl_type y = FD_INODE) ->
     Q tt s') ->
  safe (upd_file f g) s Q.
Proof using Hfbase.
  intros Ha Hdf Hx Hg HQ. unfold upd_file. step. destruct (ftable s !! f) as [x|] eqn:Ex.
  2:{ assert (alter g f (ftable s) = ftable s) as ->.
      { apply list_eq. intros j. rewrite list_lookup_alter. case_decide; [subst; by rewrite Ex | done]. }
      apply HQ; [|eauto]. by destruct s. }
  rewrite (upd_file_insert _ _ _ _ Ex). destruct (Hg x) as [E1 E2]. specialize (Hx x eq_refl). apply HQ.
  - eapply acct_upd_file; [exact Ha | exact Ex | | | |].
    + rewrite E1, (a_ref _ _ _ _ _ Ha _ _ Ex). pose proof (fds_nonneg f (ofile s)). specialize (Hfbase f). lia.
    + congruence.
    + intros j. rewrite E1. case_decide; lia.
    + apply holding_same_files. intros k. rewrite !file_ref_none; congruence.
  - intros j y. cbn [ftable set_ftable]. destruct (decide (j = f)) as [->|Hne].
    + rewrite list_lookup_insert_eq by (by eapply lookup_lt_Some). intros [= <-]. congruence.
    + rewrite list_lookup_insert_ne by done. eauto.
Qed.

(** [pipealloc] gives two files with a reference each *)
Lemma safe_pipealloc n rs ls s page (Q : option (nat * nat) -> kst -> Prop) :
  acct n rs ls (fun _ => 0) s ->
  (forall df s', (forall j, df j = 0) -> acct n rs ls df s' -> Q None s') ->
  (forall a b s', acct n rs ls (bump (bump (fun _ => 0) a 1) b 1) s' -> Q (Some (a, b)) s') ->
  safe (pipealloc page) s Q.
Proof using QO Hfbase.
  intros Ha HN HS. unfold pipealloc. apply safe_bind. eapply safe_filealloc; [exact Ha | |].
  { apply safe_bind. step. step. step. step. by eapply HN. }
  intros a xa s1 H1 Hxa Hta _ _ _. apply safe_bind. eapply safe_filealloc; [exact H1 | |].
  { apply safe_bind. eapply safe_fileclose; [exact H1|]. intros s2 H2 _ _. step. step. eapply HN; [|exact H2].
    intros j. unfold bump. case_decide; lia. }
  intros b xb s2 H2 Hxb Htb _ _ Hkeep. destruct page as [page|].
  - step. step. pose proof (acct_pipes _ _ _ _ _ (pipes s2 ++ [Pipe.pipealloc_init page]) H2) as H3.
    assert (forall j x, j = a \/ j = b -> ftable s2 !! j = Some x -> fl_type x <> FD_INODE) as Hty.
    { intros j x Hj Hx. destruct (decide (j = b)) as [->|Hne]; [congruence|]. destruct Hj as [->|]; [|done].
      rewrite (Hkeep a xa Hne Hxa) in Hx. congruence. }
    apply safe_bind. eapply safe_set_pipe; [exact H3 | | | done |].
    + unfold bump. rewrite (decide_True (P := a = a)) by done. case_decide; lia.
    + intros x. apply Hty. by left.
    + intros s4 H4 Hback. apply safe_bind. eapply safe_set_pipe; [exact H4 | | | done |].
      * unfold bump. rewrite (decide_True (P := b = b)) by done. case_decide; lia.
      * intros x Hx Ht. destruct (Hback _ _ Hx Ht) as (y & Hy & Hyt). eapply (Hty b y); [by right | exact Hy | done].
      * intros s5 H5 _. step. by apply HS.
  - apply safe_bind. eapply safe_fileclose; [exact H2|]. intros s3 H3 _ _. apply safe_bind.
    eapply safe_fileclose; [exact H3|]. intros s4 H4 _ _. step. eapply HN; [|exact H4]. intros j. unfold bump. repeat case_decide; lia.
Qed.

Lemma fair_pipe ok page : fair (sys_pipe ok page).
Proof using QO Hfbase.
  intros s Ha. unfold sys_pipe. destruct (negb ok); [by step|]. apply safe_bind. eapply safe_pipealloc; [exact Ha | |].
  { intros df s1 Hdf H1. step. by eapply acct_done. }
  intros a b s1 H1.
  assert (forall s2 df, (forall j, df j = bump (bump (fun _ => 0) a 1) b 1 j) -> acct 0 [] [] df s2 ->
    safe (fileclose a ;; fileclose b ;; mret (-1, (0, 0))) s2 (fun _ => accounted)) as Hclose.
  { intros s2 df Hdf H2. apply safe_bind. eapply safe_fileclose; [exact H2|]. intros s3 H3 _ _. apply safe_bind.
    eapply safe_fileclose; [exact H3|]. intros s4 H4 _ _. step. eapply acct_done; [|exact H4].
    intros j. specialize (Hdf j). unfold bump in *. repeat case_decide; lia. }
  apply safe_bind. eapply safe_fdalloc; [exact H1 | |].
  { cbn beta. change (-1 <? 0) with true. cbv iota. step. step. change (0 <=? -1) with false. cbv iota.
    by eapply Hclose. }
  intros fd0 s2 Hfd0 H2 Hof _ _ _. destruct (Z.ltb_spec fd0 0); [lia|]. apply safe_bind. eapply safe_fdalloc; [exact H2 | |].
  - change (-1 <? 0) with true. cbn [orb]. destruct (Z.leb_spec 0 fd0); [|lia]. step.
    eapply Hclose; [|eapply (acct_ofile _ _ _ _ (bump (bump (fun _ => 0) a 1) b 1)); [exact H2 | exact Hof |]]; [done|].
    intros j. unfold bump, fd_ref. repeat case_decide; simplify_eq; try lia; congruence.
  - intros fd1 s3 Hfd1 H3 _ _ _ _. destruct (Z.ltb_spec fd1 0); [lia|]. cbn [orb]. step. eapply acct_done; [|exact H3].
    intros j. unfold bump. repeat case_decide; lia.
Qed.

End Accounts.
End Sys.
