(* ===== verification/Syscalls.v ===== *)
(** * Balanced system calls

    The system calls of one process as a step relation, and the invariant that
    every sequence of them keeps: no reference to an inode or to an open file,
    no sleep lock and no transaction is ever lost or gained. *)

From S2P Require Import Prelude CStr Blocks Inode FileIo MlFs MlIo Dir MlDir File Quiet CsSys Holding SysInv.
From S2P Require Pipe.

Section Steps.
Context `{FileOps} `{Variant}.

(** a call that only touches the file system, from the directory of the process *)
Definition in_cwd {A} (m : nat -> M fsys A) : M kst A := s ← get; on_fs (m (cwd s)).

(** a system call that returns; [sys_printinfo] is in the continuous-sector
    kernel only *)
Inductive syscall : kst -> kst -> Prop :=
| call_dup arg r s s' : sys_dup arg s = Ok (r, s') -> syscall s s'
| call_read arg size r s s' : sys_read arg size s = Ok (r, s') -> syscall s s'
| call_write arg src r s s' : sys_write arg src s = Ok (r, s') -> syscall s s'
| call_close arg r s s' : sys_close arg s = Ok (r, s') -> syscall s s'
| call_fstat arg ok r s s' : sys_fstat arg ok s = Ok (r, s') -> syscall s s'
| call_printinfo arg r s s' : sys_printinfo arg s = Ok (r, s') -> syscall s s'
| call_link old new r s s' : in_cwd (fun cwd => sys_link cwd old new) s = Ok (r, s') -> syscall s s'
| call_unlink path r s s' : in_cwd (fun cwd => sys_unlink cwd path) s = Ok (r, s') -> syscall s s'
| call_open path mode r s s' : sys_open path mode s = Ok (r, s') -> syscall s s'
| call_mkdir path r s s' : in_cwd (fun cwd => sys_mkdir cwd path) s = Ok (r, s') -> syscall s s'
| call_mknod path major minor r s s' :
    in_cwd (fun cwd => sys_mknod cwd path major minor) s = Ok (r, s') -> syscall s s'
| call_chdir path r s s' : sys_chdir path s = Ok (r, s') -> syscall s s'
| call_pipe ok page r s s' : sys_pipe ok page s = Ok (r, s') -> syscall s s'.
End Steps.

Section Balance.
Context `{QO : QuietOps} `{VA : Variant}.
Context (base fbase : nat -> Z) (l0 : nat -> bool) (n0 : Z) (len : nat).
Hypothesis Hfbase : forall j, 0 <= fbase j.
Local Notation accounted := (accounted base fbase l0 n0 len).

Lemma fair_result {A} (m : M kst A) (r : A) s s' :
  fair base fbase l0 n0 len m -> m s = Ok (r, s') -> accounted s -> accounted s'.
Proof. intros Hm E Ha. specialize (Hm s Ha). unfold safe in Hm. by rewrite E in Hm. Qed.

Lemma syscall_balanced s s' : syscall s s' -> accounted s -> accounted s'.
Proof using QO Hfbase.
  destruct 1 as [arg r s s' E|arg size r s s' E|arg src r s s' E|arg r s s' E|arg ok r s s' E|arg r s s' E|old new r s s' E
    |path r s s' E|path mode r s s' E|path r s s' E|path major minor r s s' E|path r s s' E|ok page r s s' E];
    (eapply fair_result; [|exact E]).
  - by apply fair_dup.
  - by apply fair_read.
  - by apply fair_write.
  - by apply fair_close.
  - by apply fair_fstat.
  - by apply fair_printinfo.
  - apply fair_on_fs. intros o cwd Hc. by apply nets_link.
  - apply fair_on_fs. intros o cwd Hc. by apply nets_unlink.
  - by apply fair_open.
  - apply fair_on_fs. intros o cwd Hc. by apply nets_mkdir.
  - apply fair_on_fs. intros o cwd Hc. by apply nets_mknod.
  - by apply fair_chdir.
  - by apply fair_pipe.
Qed.

Lemma syscalls_accounted s s' : rtc syscall s s' -> accounted s -> accounted s'.
Proof using QO Hfbase. induction 1 as [|s s1 s' Hs _ IH]; [done|]. intros Ha. by eapply IH, syscall_balanced. Qed.

(** C9: After any sequence of system calls of a process, successful or not, the
    count of every inode is what the other holders, the open files and the
    current directory account for, the count of every open file is the number of
    its descriptors, no inode is left locked and no transaction is left open. *)
Theorem syscalls_balanced s s' :
  rtc syscall s s' -> accounted s ->
  (forall k, i_ref (icache (fs s') !!! k) = base k + files k (ftable s') + (if decide (cwd s' = k) then 1 else 0)) /\
  (forall j x, ftable s' !! j = Some x -> fl_ref x = fbase j + fds j (ofile s')) /\
  (forall k, i_locked (icache (fs s') !!! k) = l0 k) /\
  outstanding (fs s') = n0.
Proof using QO Hfbase.
  intros Hs Ha. destruct (syscalls_accounted s s' Hs Ha) as [[A B _ _ E _ _] R _ _ _]. split_and!.
  - intros k. specialize (A k). unfold rc in A. rewrite A. unfold holders, cwd_ref. simpl. lia.
  - intros j x Hx. rewrite (R j x Hx). lia.
  - intros k. apply B.
  - rewrite E. lia.
Qed.
End Balance.

(** ** A process on the disk of [MlDir] *)

Definition demo_free : inode := mkinode 0 0 0 false false 0 0 0 0 0 [].
Definition demo_kst : kst :=
  mkk (demo_disk (demo_root :: replicate 4 demo_free)) (replicate 4 inhabitant) [] (replicate 16 None) 0 false.

#[local] Existing Instance lazy_variant.
#[local] Instance demo_ops : FileOps := ml_ops (H := no_devs).
#[local] Instance no_devs_quiet : QuietDevices (H := no_devs).
Proof. by split. Qed.

Definition demo_1 : kst := final (sys_open (Some (str "a")) (Some O_RDWR)) demo_kst.
Definition demo_2 : kst := final (sys_dup (Some 0)) demo_1.
Definition demo_3 : kst := final (sys_close (Some 0)) demo_2.
Definition demo_4 : kst := final (in_cwd (fun cwd => sys_link cwd (Some (str "a")) (Some (str "b")))) demo_3.

Lemma demo_accounted : accounted (fun _ => 0) (fun _ => 0) (fun _ => false) 1 5 demo_kst.
Proof.
  split; [split | | | |]; try done; try (by constructor).
  - intros k. unfold rc. by do 5 (destruct k as [|k]; [reflexivity|]).
  - intros k. unfold lk. by do 5 (destruct k as [|k]; [reflexivity|]).
  - intros j x Hx. by do 4 (destruct j as [|j]; [injection Hx as <-; reflexivity|]).
  - intros j x Hx. by do 4 (destruct j as [|j]; [injection Hx as <-; done|]).
  - intros j x Hx. by do 4 (destruct j as [|j]; [injection Hx as <-; done|]).
  - simpl. lia.
Qed.

Lemma demo_calls : rtc syscall demo_kst demo_4.
Proof.
  destruct (finishes_eq (sys_open (Some (str "a")) (Some O_RDWR)) demo_kst) as [r1 E1]; [by vm_compute|].
  destruct (finishes_eq (sys_dup (Some 0)) demo_1) as [r2 E2]; [by vm_compute|].
  destruct (finishes_eq (sys_close (Some 0)) demo_2) as [r3 E3]; [by vm_compute|].
  destruct (finishes_eq (in_cwd (fun cwd => sys_link cwd (Some (str "a")) (Some (str "b")))) demo_3) as [r4 E4]; [by vm_compute|].
  eapply rtc_l; [eapply call_open, E1|]. eapply rtc_l; [eapply call_dup, E2|]. eapply rtc_l; [eapply call_close, E3|].
  eapply rtc_once, call_link, E4.
Qed.

(** opened, duplicated, closed once and linked: one file and one descriptor are left *)
Lemma syscalls_balanced_witness : i_ref (icache (fs demo_4) !!! 1%nat) = 1 /\ outstanding (fs demo_4) = 1.
Proof.
  pose proof (syscalls_balanced (fun _ => 0) (fun _ => 0) (fun _ => false) 1 5 (fun _ => Z.le_refl 0) demo_kst demo_4
    demo_calls demo_accounted) as (Hr & _ & _ & Ho).
  split; [rewrite Hr; vm_compute; reflexivity | exact Ho].
Defined.
