(* ===== verification/Console.v ===== *)
(** * The console ([console.c])

    The input line discipline ([consoleintr], [consoleread]), the screen
    ([cgaputc]) and [consolewrite].  [input.buf] is a ring indexed by three
    free-running 32-bit counters; [consoleintr] and the stretches of [consoleread]
    between two calls of [sleep] run under [cons.lock] and are one step each.
    [consputc] sends its argument to the serial port and to the screen: the
    arguments are recorded, in order, in [out].  The cursor registers of the
    screen are a part of its state. *)

From S2P Require Import Prelude Blocks Inode.

Definition INPUT_BUF : Z := 128.
Definition BACKSPACE : Z := 256.
(** [C(x)]: control-x *)
Definition ctrl (x : Z) : Z := x - 64.
Definition NL : Z := 10.
Definition CR : Z := 13.
Definition CTRL_D : Z := ctrl 68.

(** [input], what was given to [consputc], and the calls [wakeup(&input.r)] *)
Record cons : Type := mkcons {
  buf : list Z;
  rd : Z;
  wr : Z;
  ed : Z;
  out : list Z;
  wakeups : nat
}.

Definition consputc (c : Z) (s : cons) : cons := mkcons (buf s) (rd s) (wr s) (ed s) (out s ++ [c]) (wakeups s).
Definition set_rd (r : Z) (s : cons) : cons := mkcons (buf s) r (wr s) (ed s) (out s) (wakeups s).
Definition set_ed (e : Z) (s : cons) : cons := mkcons (buf s) (rd s) (wr s) e (out s) (wakeups s).
(** [input.w = input.e; wakeup(&input.r)] *)
Definition commit_line (s : cons) : cons := mkcons (buf s) (rd s) (ed s) (ed s) (out s) (S (wakeups s)).
(** [input.buf[input.e++ % INPUT_BUF] = c] *)
Definition store (c : Z) (s : cons) : cons :=
  mkcons (<[Z.to_nat (ed s mod INPUT_BUF) := c]> (buf s)) (rd s) (wr s) (u32 (ed s + 1)) (out s) (wakeups s).
Definition at_ (i : Z) (s : cons) : Z := buf s !!! Z.to_nat (u32 i mod INPUT_BUF).

(** the loop of [C('U')] *)
Fixpoint kill_line (fuel : nat) (s : cons) : cons :=
  match fuel with
  | O => s
  | S fuel' =>
      if negb (ed s =? wr s) && negb (at_ (ed s - 1) s =? NL)
      then kill_line fuel' (consputc BACKSPACE (set_ed (u32 (ed s - 1)) s))
      else s
  end.

(** one character of [consoleintr], but for [doprocdump] *)
Definition intr_char (c : Z) (s : cons) : cons :=
  if c =? ctrl 80 then s
  else if c =? ctrl 85 then kill_line (S (Z.to_nat INPUT_BUF)) s
  else if (c =? ctrl 72) || (c =? 127) then
    if negb (ed s =? wr s) then consputc BACKSPACE (set_ed (u32 (ed s - 1)) s) else s
  else if negb (c =? 0) && (u32 (ed s - rd s) <? INPUT_BUF) then
    let c := if c =? CR then NL else c in
    let s := consputc c (store c s) in
    if (c =? NL) || (c =? CTRL_D) || (ed s =? u32 (rd s + INPUT_BUF)) then commit_line s else s
  else s.

(** [consoleintr] on the results of [getc]; the boolean is [doprocdump] *)
Fixpoint consoleintr (keys : list Z) (s : cons) : cons * bool :=
  match keys with
  | [] => (s, false)
  | c :: keys' =>
      if c <? 0 then (s, false)
      else let '(s', p) := consoleintr keys' (intr_char c s) in (s', (c =? ctrl 80) || p)
  end.

(** where a stretch of [consoleread] ends: it returns -1 ([None]) or the bytes
    stored at [dst], or sleeps with the bytes stored so far and the [n] left *)
Inductive reading : Type :=
| Returned (r : option (list Z))
| Sleeping (got : list Z) (n : Z).

(** the loop of [consoleread] *)
Fixpoint read_loop (fuel : nat) (killed : bool) (target : Z) (got : list Z) (n : Z) (s : cons) : reading * cons :=
  match fuel with
  | O => (Returned (Some got), s)
  | S fuel' =>
      if 0 <? n then
        if rd s =? wr s then
          if killed then (Returned None, s) else (Sleeping got n, s)
        else
          let c := buf s !!! Z.to_nat (rd s mod INPUT_BUF) in
          let s1 := set_rd (u32 (rd s + 1)) s in
          if c =? CTRL_D then
            (Returned (Some got), if n <? target then set_rd (u32 (rd s1 - 1)) s1 else s1)
          else if c =? NL then (Returned (Some (got ++ [c])), s1)
          else read_loop fuel' killed target (got ++ [c]) (n - 1) s1
      else (Returned (Some got), s)
  end.
(** from a point where [got] is stored and [n] bytes are left *)
Definition read_from (killed : bool) (target : Z) (got : list Z) (n : Z) (s : cons) : reading * cons :=
  read_loop (S (Z.to_nat n)) killed target got n s.

(** the file system and the console, for the calls that give up the inode lock *)
Definition on_inode (m : M fsys unit) : M (fsys * cons) unit := fun s =>
  match m s.1 with
  | Ok (_, f) => Ok (tt, (f, s.2))
  | Panic msg => Panic msg
  | Block => Block
  end.

(** [consoleread] when it does not sleep *)
Definition consoleread (killed : bool) (ip : nat) (n : Z) : M (fsys * cons) (Z * list Z) :=
  on_inode (iunlock ip) ;;
  s ← get;
  match read_from killed n [] n s.2 with
  | (Sleeping _ _, _) => block
  | (Returned r, c) =>
      modify (fun s => (s.1, c)) ;;
      on_inode (ilock ip) ;;
      mret (match r with None => (-1, []) | Some l => (Z.of_nat (length l), l) end)
  end.

Definition consolewrite (ip : nat) (src : list Z) : M (fsys * cons) Z :=
  on_inode (iunlock ip) ;;
  modify (fun s => (s.1, foldl (fun c b => consputc (Z.land b 255) c) s.2 src)) ;;
  on_inode (ilock ip) ;;
  mret (Z.of_nat (length src)).

(** ** The screen *)

Definition COLS : Z := 80.
Definition BLANK : Z := Z.lor 32 1792.

(** [crt] and the cursor *)
Record screen : Type := mkscreen { crt : list Z; pos : Z }.

(** [memmove(crt, crt+80, 23*80 words)] and [memset(crt+pos, 0, (24*80 - pos) words)] *)
Definition scroll (s : screen) : screen :=
  let p := pos s - COLS in
  let moved := take (23 * 80) (drop 80 (crt s)) ++ drop (23 * 80) (crt s) in
  mkscreen (take (Z.to_nat p) moved ++ replicate (Z.to_nat (24 * COLS - p)) 0 ++ drop (24 * 80) moved) p.

(** [None] is the panic *)
Definition cgaputc (c : Z) (s : screen) : option screen :=
  let s1 :=
    if c =? NL then mkscreen (crt s) (pos s + (COLS - Z.rem (pos s) COLS))
    else if c =? BACKSPACE then mkscreen (crt s) (if 0 <? pos s then pos s - 1 else pos s)
    else mkscreen (<[Z.to_nat (pos s) := Z.lor (Z.land c 255) 1792]> (crt s)) (pos s + 1) in
  if (pos s1 <? 0) || (25 * COLS <? pos s1) then None
  else
    let s2 := if 24 <=? Z.quot (pos s1) COLS then scroll s1 else s1 in
    Some (mkscreen (<[Z.to_nat (pos s2) := BLANK]> (crt s2)) (pos s2)).

(** ** The ring *)

(** the [n] bytes from index [r] on *)
Definition ring (b : list Z) (r : Z) (n : nat) : list Z :=
  (fun j => b !!! Z.to_nat ((r + Z.of_nat j) mod INPUT_BUF)) <$> seq 0 n.

Lemma u32_mod x : u32 x mod INPUT_BUF = x mod INPUT_BUF.
Proof. unfold u32, INPUT_BUF. Z.div_mod_to_equations. lia. Qed.
Lemma u32_add a b : u32 (u32 a + b) = u32 (a + b).
Proof. unfold u32. by rewrite Zplus_mod_idemp_l. Qed.

Lemma ring_u32 b r n : ring b (u32 r) n = ring b r n.
Proof.
  apply list_fmap_ext. intros i j _. do 2 f_equal. unfold u32, INPUT_BUF. Z.div_mod_to_equations. lia.
Qed.

Lemma ring_cons b r n : ring b r (S n) = (b !!! Z.to_nat (r mod INPUT_BUF)) :: ring b (r + 1) n.
Proof.
  unfold ring. cbn [seq]. rewrite fmap_cons, Z.add_0_r. f_equal. rewrite <- fmap_S_seq, <- list_fmap_compose.
  apply list_fmap_ext. intros i j _. simpl. do 2 f_equal. f_equal. lia.
Qed.

Lemma ring_snoc b r n : ring b r (S n) = ring b r n ++ [b !!! Z.to_nat ((r + Z.of_nat n) mod INPUT_BUF)].
Proof. unfold ring. rewrite seq_S, fmap_app. done. Qed.

Lemma ring_store b r n c : length b = Z.to_nat INPUT_BUF -> Z.of_nat n < INPUT_BUF ->
  ring (<[Z.to_nat ((r + Z.of_nat n) mod INPUT_BUF) := c]> b) r (S n) = ring b r n ++ [c].
Proof.
  intros Hb Hn. rewrite ring_snoc. unfold INPUT_BUF in *. pose proof (Z.mod_pos_bound (r + Z.of_nat n) 128 ltac:(lia)).
  rewrite list_lookup_total_insert_eq by lia. f_equal. apply list_fmap_ext. intros i j Hj. apply lookup_seq in Hj as [-> Hi].
  rewrite list_lookup_total_insert_ne; [done|]. intros E. change INPUT_BUF with 128 in E.
  pose proof (Z.mod_pos_bound (r + Z.of_nat (0 + i)) 128 ltac:(lia)). apply Z2Nat.inj in E; [|lia..]. Z.div_mod_to_equations. lia.
Qed.

(** ** The line discipline

    A reader sees [q], the bytes of the committed lines; [l] is the line that is
    being edited. *)

Definition breaks (c : Z) : bool := (c =? NL) || (c =? CTRL_D).

(** a key *)
Definition key (c : Z) (st : list Z * list Z) : list Z * list Z :=
  let '(q, l) := st in
  if c =? ctrl 80 then st
  else if c =? ctrl 85 then (q, [])
  else if (c =? ctrl 72) || (c =? 127) then (q, removelast l)
  else if (c =? 0) || (INPUT_BUF <=? Z.of_nat (length q + length l)) then st
  else
    let c := if c =? CR then NL else c in
    if breaks c || (Z.of_nat (length q + length l) + 1 =? INPUT_BUF) then (q ++ l ++ [c], []) else (q, l ++ [c]).

(** what a key shows *)
Definition echo (c : Z) (st : list Z * list Z) : list Z :=
  let '(q, l) := st in
  if c =? ctrl 80 then []
  else if c =? ctrl 85 then replicate (length l) BACKSPACE
  else if (c =? ctrl 72) || (c =? 127) then (if l is [] then [] else [BACKSPACE])
  else if (c =? 0) || (INPUT_BUF <=? Z.of_nat (length q + length l)) then []
  else [if c =? CR then NL else c].

(** the bytes of a [read] for [n] bytes, the rest of the queue, and whether the
    read ends there *)
Fixpoint take_line (n : nat) (q : list Z) (first : bool) : list Z * list Z * bool :=
  match n, q with
  | O, _ => ([], q, true)
  | _, [] => ([], [], false)
  | S n', c :: q' =>
      if c =? CTRL_D then ([], if first then q' else q, true)
      else if c =? NL then ([c], q', true)
      else let '(l, r, stop) := take_line n' q' false in (c :: l, r, stop)
  end.

Record line_ok (s : cons) (q l : list Z) : Prop := {
  lo_buf : length (buf s) = Z.to_nat INPUT_BUF;
  lo_rd : 0 <= rd s < 2 ^ 32;
  lo_wr : wr s = u32 (rd s + Z.of_nat (length q));
  lo_ed : ed s = u32 (rd s + Z.of_nat (length (q ++ l)));
  lo_room : Z.of_nat (length (q ++ l)) <= INPUT_BUF;
  lo_ring : ring (buf s) (rd s) (length (q ++ l)) = q ++ l;
  lo_line : Forall (fun c => breaks c = false) l
}.

Lemma u32_inj a x y : u32 (a + x) = u32 (a + y) -> 0 <= x <= INPUT_BUF -> 0 <= y <= INPUT_BUF -> x = y.
Proof. unfold u32, INPUT_BUF. intros. Z.div_mod_to_equations. lia. Qed.

Lemma line_empty s q l : line_ok s q l -> (ed s =? wr s) = bool_decide (l = []).
Proof.
  intros [_ _ Ew Ee Hr _ _]. rewrite length_app in *. destruct (Z.eqb_spec (ed s) (wr s)) as [E|E].
  - rewrite Ew, Ee in E. apply u32_inj in E; [|lia..]. rewrite bool_decide_eq_true_2; [done|]. apply nil_length_inv. lia.
  - rewrite bool_decide_eq_false_2; [done|]. intros ->. apply E. rewrite Ew, Ee. simpl. f_equal. lia.
Qed.

Lemma queue_empty s q l : line_ok s q l -> (rd s =? wr s) = bool_decide (q = []).
Proof.
  intros [_ Hrd Ew _ Hr _ _]. rewrite length_app in *. rewrite Ew. destruct (Z.eqb_spec (rd s) (u32 (rd s + Z.of_nat (length q)))) as [E|E].
  - rewrite <- (u32_small (rd s)) in E at 1 by done. rewrite <- (Z.add_0_r (rd s)) in E at 1. apply u32_inj in E; [|lia..].
    rewrite bool_decide_eq_true_2; [done|]. apply nil_length_inv. lia.
  - rewrite bool_decide_eq_false_2; [done|]. intros ->. apply E. simpl. rewrite Z.add_0_r. by rewrite u32_small.
Qed.

Lemma line_used s q l : line_ok s q l -> u32 (ed s - rd s) = Z.of_nat (length q + length l).
Proof.
  intros [_ Hrd _ Ee Hr _ _]. rewrite length_app in *. rewrite Ee. unfold u32, INPUT_BUF in *. Z.div_mod_to_equations. lia.
Qed.

(** the last byte of the line goes *)
Lemma line_pop s q l c : line_ok s q (l ++ [c]) -> line_ok (set_ed (u32 (ed s - 1)) s) q l /\ at_ (ed s - 1) s = c.
Proof.
  intros [Hb Hrd Ew Ee Hr Hring Hl]. rewrite !length_app in *. simpl in *.
  assert (u32 (ed s - 1) = u32 (rd s + Z.of_nat (length q + length l))) as E.
  { rewrite Ee. replace (u32 _ - 1) with (u32 (rd s + Z.of_nat (length q + (length l + 1))) + -1) by lia. rewrite u32_add. f_equal. lia. }
  replace (length q + (length l + 1))%nat with (S (length q + length l)) in Hring by lia. rewrite ring_snoc, app_assoc in Hring.
  apply app_inj_tail in Hring as [Hring Hc]. split.
  - split; cbn; rewrite ?length_app; try done; [lia|]. by apply Forall_app in Hl as [Hl _].
  - unfold at_. rewrite E, u32_mod. exact Hc.
Qed.

Lemma kill_line_ok fuel : forall s q l, line_ok s q l -> (length l < fuel)%nat ->
  line_ok (kill_line fuel s) q [] /\ out (kill_line fuel s) = out s ++ replicate (length l) BACKSPACE.
Proof.
  induction fuel as [|fuel IH]; intros s q l Hok Hf; [lia|]. cbn [kill_line]. rewrite (line_empty _ _ _ Hok).
  destruct l as [|c l _] using rev_ind.
  - rewrite bool_decide_eq_true_2 by done. cbn. by rewrite app_nil_r.
  - rewrite bool_decide_eq_false_2 by (by destruct l). destruct (line_pop _ _ _ _ Hok) as [Hok' ->].
    assert ((c =? NL) = false) as ->.
    { pose proof (lo_line _ _ _ Hok) as Hl. apply Forall_app in Hl as [_ Hl]. inversion Hl as [|? ? Hc]; subst.
      apply orb_false_iff in Hc. apply Hc. }
    cbn [negb andb]. rewrite length_app in *. simpl in Hf.
    assert (line_ok (consputc BACKSPACE (set_ed (u32 (ed s - 1)) s)) q l) as Hok'' by (destruct Hok'; by split).
    destruct (IH _ _ _ Hok'') as [H1 H2]; [lia|]. split; [done|]. rewrite H2. cbn. rewrite <- app_assoc. f_equal.
    rewrite Nat.add_1_r. done.
Qed.

Lemma key_ok c s q l : line_ok s q l ->
  line_ok (intr_char c s) (key c (q, l)).1 (key c (q, l)).2 /\ out (intr_char c s) = out s ++ echo c (q, l).
Proof.
  intros Hok. unfold intr_char, key, echo. rewrite (line_empty _ _ _ Hok), (line_used _ _ _ Hok).
  destruct (c =? ctrl 80); [by rewrite app_nil_r|]. destruct (c =? ctrl 85).
  { apply kill_line_ok; [done|]. pose proof (lo_room _ _ _ Hok) as Hr. rewrite length_app in Hr. unfold INPUT_BUF in *. lia. }
  destruct (_ || _).
  { destruct l as [|d l _] using rev_ind.
    - rewrite bool_decide_eq_true_2 by done. cbn. by rewrite app_nil_r.
    - rewrite bool_decide_eq_false_2 by (by destruct l). destruct (line_pop _ _ _ _ Hok) as [Hok' _].
      cbn [fst snd negb]. rewrite removelast_last. split; [destruct Hok'; by split|]. destruct l; done. }
  destruct (c =? 0); cbn [negb andb orb]; [by rewrite app_nil_r|].
  destruct (Z.leb_spec INPUT_BUF (Z.of_nat (length q + length l))) as [Hfull|Hroom];
    [destruct (Z.ltb_spec (Z.of_nat (length q + length l)) INPUT_BUF); [lia|]; by rewrite app_nil_r|].
  destruct (Z.ltb_spec (Z.of_nat (length q + length l)) INPUT_BUF); [|lia].
  set (d := if c =? CR then NL else c). cbv zeta. destruct Hok as [Hb Hrd Ew Ee Hr Hring Hl].
  assert (ed (consputc d (store d s)) = u32 (rd s + Z.of_nat (length (q ++ l ++ [d])))) as Ee'.
  { cbn. rewrite Ee, u32_add, !length_app. simpl. f_equal. lia. }
  assert (ring (buf (store d s)) (rd s) (length (q ++ l ++ [d])) = q ++ l ++ [d]) as Hring'.
  { rewrite !(app_assoc q l), length_app. cbn [length]. rewrite Nat.add_1_r. cbn [buf store]. rewrite Ee, u32_mod.
    rewrite ring_store; [by rewrite Hring | done | rewrite length_app; lia]. }
  rewrite Ee'. cbn [rd consputc store].
  assert ((u32 (rd s + Z.of_nat (length (q ++ l ++ [d]))) =? u32 (rd s + INPUT_BUF)) = (Z.of_nat (length q + length l) + 1 =? INPUT_BUF)) as ->.
  { rewrite !length_app. simpl. destruct (Z.eqb_spec (Z.of_nat (length q + length l) + 1) INPUT_BUF) as [E|E].
    - apply Z.eqb_eq. f_equal. lia.
    - apply Z.eqb_neq. intros E'. apply u32_inj in E'; unfold INPUT_BUF in *; lia. }
  unfold breaks. destruct (_ || _) eqn:Eb; cbn [fst snd].
  - split; [|done]. split; cbn; rewrite ?app_nil_r; try done.
    + by rewrite length_insert.
    + rewrite !length_app. simpl. lia.
  - split; [|done]. split; cbn; try done.
    + by rewrite length_insert.
    + rewrite !length_app. simpl. lia.
    + apply Forall_app. split; [done|]. constructor; [|done]. unfold breaks. apply orb_false_iff in Eb. apply Eb.
Qed.

(** the first byte of the queue goes *)
Lemma queue_pop s c q l : line_ok s (c :: q) l ->
  line_ok (set_rd (u32 (rd s + 1)) s) q l /\ buf s !!! Z.to_nat (rd s mod INPUT_BUF) = c.
Proof.
  intros [Hb Hrd Ew Ee Hr Hring Hl]. cbn [app length] in *. rewrite ring_cons in Hring. injection Hring as Hc Hring. split; [|done].
  split; cbn; try done.
  - apply u32_range.
  - rewrite u32_add, Ew. f_equal. lia.
  - rewrite u32_add, Ee. f_equal. lia.
  - lia.
  - by rewrite ring_u32.
Qed.

Lemma read_loop_ok fuel killed target : forall n got s q l,
  line_ok s q l -> n <= target -> (Z.to_nat n < fuel)%nat ->
  let '(bs, q', stop) := take_line (Z.to_nat n) q (bool_decide (n = target)) in
  let '(r, s') := read_loop fuel killed target got n s in
  line_ok s' q' l /\ out s' = out s /\
  r = (if stop then Returned (Some (got ++ bs)) else if killed then Returned None else Sleeping (got ++ bs) (n - Z.of_nat (length bs))).
Proof.
  induction fuel as [|fuel IH]; intros n got s q l Hok Hn Hf; [lia|]. cbn [read_loop].
  destruct (Z.ltb_spec 0 n) as [H0|H0].
  2:{ replace (Z.to_nat n) with 0%nat by lia. cbn [take_line]. by rewrite app_nil_r. }
  replace (Z.to_nat n) with (S (Z.to_nat (n - 1))) by lia. rewrite (queue_empty _ _ _ Hok). destruct q as [|c q].
  { rewrite (bool_decide_eq_true_2 ([] = [])) by done. cbn [take_line]. cbv iota beta. rewrite app_nil_r.
    replace (n - Z.of_nat (length (A := Z) [])) with n by (cbn; lia). by destruct killed. }
  rewrite (bool_decide_eq_false_2 (c :: q = [])) by done. destruct (queue_pop _ _ _ _ Hok) as [Hok' ->]. cbn [take_line]. cbv zeta.
  destruct (Z.eqb_spec c CTRL_D) as [->|Hc].
  { rewrite app_nil_r. case_bool_decide; destruct (Z.ltb_spec n target); try lia; [done|].
    assert (set_rd (u32 (rd (set_rd (u32 (rd s + 1)) s) - 1)) (set_rd (u32 (rd s + 1)) s) = s) as ->; [|done].
    destruct s as [b r w e o k]. unfold set_rd. cbn. f_equal. pose proof (lo_rd _ _ _ Hok) as Hrd. cbn in Hrd.
    replace (u32 (r + 1) - 1) with (u32 (r + 1) + -1) by lia. rewrite u32_add. replace (r + 1 + -1) with r by lia. by apply u32_small. }
  destruct (c =? NL); [done|]. specialize (IH (n - 1) (got ++ [c]) _ _ _ Hok' ltac:(lia) ltac:(lia)).
  rewrite bool_decide_eq_false_2 in IH by lia. destruct (take_line (Z.to_nat (n - 1)) q false) as [[bs q'] stop].
  destruct (read_loop fuel _ _ _ _ _) as [r s']. destruct IH as (H1 & H2 & ->). split; [done|]. split; [done|].
  rewrite <- !app_assoc. cbn [app length]. destruct stop; [done|]. destruct killed; [done|]. f_equal. lia.
Qed.

(** ** Runs *)

(** keys at an interrupt; a stretch of a reader that stored [got] and still asks
    for [n] of [target] bytes *)
Inductive event : Type :=
| Keys (keys : list Z)
| Read (killed : bool) (target : Z) (got : list Z) (n : Z).
Definition event_ok (e : event) : Prop := match e with Keys _ => True | Read _ target _ n => n <= target end.

Fixpoint runs (es : list event) (s : cons) : cons * list reading :=
  match es with
  | [] => (s, [])
  | Keys l :: es' => runs es' (consoleintr l s).1
  | Read killed target got n :: es' =>
      let '(r, s1) := read_from killed target got n s in let '(s2, rs) := runs es' s1 in (s2, r :: rs)
  end.

Fixpoint keys (l : list Z) (st : list Z * list Z) : list Z * list Z * list Z :=
  match l with
  | [] => (st, [])
  | c :: l' => if c <? 0 then (st, []) else let '(st', o) := keys l' (key c st) in (st', echo c st ++ o)
  end.
(** the specification: the queue and the line, what the readers get, what is shown *)
Fixpoint spec_runs (es : list event) (st : list Z * list Z) : list Z * list Z * list reading * list Z :=
  match es with
  | [] => (st, [], [])
  | Keys l :: es' => let '(st1, o) := keys l st in let '(st2, rs, o') := spec_runs es' st1 in (st2, rs, o ++ o')
  | Read killed target got n :: es' =>
      let '(bs, q', stop) := take_line (Z.to_nat n) st.1 (bool_decide (n = target)) in
      let r := if stop then Returned (Some (got ++ bs)) else if killed then Returned None
               else Sleeping (got ++ bs) (n - Z.of_nat (length bs)) in
      let '(st2, rs, o) := spec_runs es' (q', st.2) in (st2, r :: rs, o)
  end.

Lemma keys_ok l : forall s st, line_ok s st.1 st.2 ->
  line_ok (consoleintr l s).1 (keys l st).1.1 (keys l st).1.2 /\ out (consoleintr l s).1 = out s ++ (keys l st).2.
Proof.
  induction l as [|c l IH]; intros s [q p] Hok; cbn [consoleintr keys]; [by rewrite app_nil_r|].
  destruct (c <? 0); [by rewrite app_nil_r|]. destruct (key_ok c _ _ _ Hok) as [H1 H2].
  destruct (IH _ (key c (q, p)) H1) as [H3 H4]. destruct (consoleintr l (intr_char c s)) as [s' b]. destruct (keys l (key c (q, p))) as [st' o].
  cbn [fst snd] in *. split; [done|]. by rewrite H4, H2, <- app_assoc.
Qed.

(** C10: The console implements a line editor.  However typing and reading
    interleave, a reader gets the bytes of the committed lines in order, up to
    the end of a line or an end-of-file mark, and sleeps exactly when they run
    out; kill and backspace act on the uncommitted line only; what is shown is
    what the editor says; and the 32-bit indices may wrap. *)
Theorem console_refines es s q l :
  line_ok s q l -> Forall event_ok es ->
  let '(q', l', rs, o) := spec_runs es (q, l) in
  line_ok (runs es s).1 q' l' /\ (runs es s).2 = rs /\ out (runs es s).1 = out s ++ o.
Proof.
  intros Hok Hes. revert s q l Hok. induction Hes as [|e es He _ IH]; intros s q l Hok; cbn [spec_runs runs].
  - by rewrite app_nil_r.
  - destruct e as [ks|killed target got n]; cbn [event_ok] in He.
    + destruct (keys_ok ks s (q, l) Hok) as [H1 H2]. destruct (keys ks (q, l)) as [[q1 l1] o1]. cbn [fst snd] in *.
      specialize (IH _ _ _ H1). destruct (spec_runs es (q1, l1)) as [[[q2 l2] rs] o2]. destruct IH as (? & ? & E). split_and!; [done..|].
      by rewrite E, H2, <- app_assoc.
    + pose proof (read_loop_ok (S (Z.to_nat n)) killed target n got s q l Hok He ltac:(lia)) as H. cbn [fst snd].
      destruct (take_line _ _ _) as [[bs q1] stop]. unfold read_from. destruct (read_loop _ _ _ _ _ _) as [r s1]. destruct H as (H1 & H2 & ->).
      specialize (IH _ _ _ H1). destruct (spec_runs es (q1, l)) as [[[q2 l2] rs] o2]. destruct (runs es s1) as [s2 rs'].
      cbn [fst snd] in *. destruct IH as (? & -> & E). split_and!; [done..|]. by rewrite E, H2.
Qed.

(** two keys before the counters wrap, an edited line, and two reads *)
Definition demo_cons : cons := mkcons (replicate 128 0) (2 ^ 32 - 2) (2 ^ 32 - 2) (2 ^ 32 - 2) [] 0.
Definition demo_events : list event :=
  [Read false 10 [] 10; Keys [104; 120; 8; 105; 13; 111]; Read false 2 [] 2; Read false 10 [] 10].

Lemma console_refines_witness :
  (runs demo_events demo_cons).2 = [Sleeping [] 10; Returned (Some [104; 105]); Returned (Some [10])] /\
  out (runs demo_events demo_cons).1 = [104; 120; BACKSPACE; 105; 10; 111].
Proof.
  pose proof (console_refines demo_events demo_cons [] []) as H.
  destruct H as (_ & -> & ->); [|by repeat constructor|by vm_compute].
  split; try done; simpl; lia.
Defined.

(** ** The screen *)

Record screen_ok (s : screen) : Prop := {
  so_len : length (crt s) = Z.to_nat (25 * COLS);
  so_pos : 0 <= pos s < 24 * COLS
}.

Lemma scroll_ok s : length (crt s) = Z.to_nat (25 * COLS) -> 24 * COLS <= pos s < 25 * COLS ->
  length (crt (scroll s)) = Z.to_nat (25 * COLS) /\ pos (scroll s) = pos s - COLS /\
  (forall k, (k < 23 * 80)%nat -> crt (scroll s) !! k = crt s !! (k + 80)%nat) /\
  (forall k, Z.to_nat (pos s - COLS) <= k < 24 * 80 -> crt (scroll s) !! k = Some 0%Z)%nat.
Proof.
  unfold COLS. intros Hl Hp. unfold scroll. cbn [crt pos]. change COLS with 80.
  set (moved := take (23 * 80) (drop 80 (crt s)) ++ drop (23 * 80) (crt s)).
  assert (length moved = 2000%nat) as Hm by (unfold moved; rewrite length_app, length_take, !length_drop; lia).
  set (p := Z.to_nat (pos s - 80)). assert (23 * 80 <= p < 24 * 80)%nat as Hpr by lia.
  replace (Z.to_nat (24 * 80 - (pos s - 80))) with (24 * 80 - p)%nat by lia.
  assert (length (take p moved) = p) as Ht by (rewrite length_take; lia). split_and!.
  - rewrite !length_app, Ht, length_replicate, length_drop. lia.
  - done.
  - intros k Hk. rewrite lookup_app_l by lia. rewrite lookup_take_lt by lia. unfold moved.
    rewrite lookup_app_l by (rewrite length_take, length_drop; lia). rewrite lookup_take_lt by lia. rewrite lookup_drop. f_equal. lia.
  - intros k Hk. rewrite lookup_app_r by lia. rewrite Ht. rewrite lookup_app_l by (rewrite length_replicate; lia).
    apply lookup_replicate_2. lia.
Qed.

Lemma cga_quiet_step s1 : length (crt s1) = Z.to_nat (25 * COLS) -> 0 <= pos s1 < 24 * COLS ->
  (if (pos s1 <? 0) || (25 * COLS <? pos s1) then None
   else let s2 := if 24 <=? Z.quot (pos s1) COLS then scroll s1 else s1 in
        Some (mkscreen (<[Z.to_nat (pos s2) := BLANK]> (crt s2)) (pos s2))) =
  Some (mkscreen (<[Z.to_nat (pos s1) := BLANK]> (crt s1)) (pos s1)).
Proof.
  unfold COLS. intros Hl Hp. destruct (Z.ltb_spec (pos s1) 0); [lia|]. destruct (Z.ltb_spec (25 * 80) (pos s1)); [lia|]. cbn [orb]. cbv zeta.
  rewrite Z.quot_div_nonneg by lia. destruct (Z.leb_spec 24 (pos s1 / 80)); [Z.div_mod_to_equations; lia|]. done.
Qed.

Lemma cga_scroll_step s1 : length (crt s1) = Z.to_nat (25 * COLS) -> 24 * COLS <= pos s1 < 25 * COLS ->
  (if (pos s1 <? 0) || (25 * COLS <? pos s1) then None
   else let s2 := if 24 <=? Z.quot (pos s1) COLS then scroll s1 else s1 in
        Some (mkscreen (<[Z.to_nat (pos s2) := BLANK]> (crt s2)) (pos s2))) =
  Some (mkscreen (<[Z.to_nat (pos s1 - COLS) := BLANK]> (crt (scroll s1))) (pos s1 - COLS)).
Proof.
  unfold COLS. intros Hl Hp. destruct (Z.ltb_spec (pos s1) 0); [lia|]. destruct (Z.ltb_spec (25 * 80) (pos s1)); [lia|]. cbn [orb]. cbv zeta.
  rewrite Z.quot_div_nonneg by lia. destruct (Z.leb_spec 24 (pos s1 / 80)); [done|]. Z.div_mod_to_equations. lia.
Qed.

Lemma screen_put s p k v : length (crt s) = Z.to_nat (25 * COLS) -> 0 <= p < 25 * COLS ->
  <[Z.to_nat p := v]> (crt s) !! k = (if decide (k = Z.to_nat p) then Some v else crt s !! k).
Proof.
  intros Hl Hp. unfold COLS in *. case_decide; [subst; apply list_lookup_insert_eq; lia | by apply list_lookup_insert_ne].
Qed.

(** what a character does to the screen; [row] 23 is the last one, and the
    blank under the cursor is put last *)
Definition shown (c : Z) (s : screen) (p : Z) (cell : nat -> option Z) : Prop :=
  if c =? NL then
    p = COLS * Z.min 23 (pos s / COLS + 1) /\
    (pos s / COLS < 23 -> forall k, cell k = crt s !! k) /\
    (23 <= pos s / COLS -> forall k, ((k < 23 * 80)%nat -> cell k = crt s !! (k + 80)%nat) /\ ((23 * 80 <= k < 24 * 80)%nat -> cell k = Some 0))
  else if c =? BACKSPACE then p = Z.max 0 (pos s - 1) /\ forall k, cell k = crt s !! k
  else
    let put k := if decide (k = Z.to_nat (pos s)) then Some (Z.lor (Z.land c 255) 1792) else crt s !! k in
    (pos s + 1 < 24 * COLS -> p = pos s + 1 /\ forall k, cell k = put k) /\
    (pos s + 1 = 24 * COLS -> p = 23 * COLS /\
       forall k, ((k < 23 * 80)%nat -> cell k = put (k + 80)%nat) /\ ((23 * 80 <= k < 24 * 80)%nat -> cell k = Some 0)).

(** C36: Whatever is written, the cursor stays in the first 24 rows, so that the
    panic is never reached and every store is inside the screen; a character
    appears at the cursor, a newline goes to the next row, a backspace goes back
    by one, and a screen that is full moves up by one row with an empty last
    row. *)
Theorem cgaputc_correct c s : screen_ok s -> exists s' cell,
  cgaputc c s = Some s' /\ screen_ok s' /\ shown c s (pos s') cell /\
  forall k, crt s' !! k = if decide (k = Z.to_nat (pos s')) then Some BLANK else cell k.
Proof.
  intros [Hl Hp]. unfold cgaputc, shown. cbv zeta. set (s1 := if c =? NL then _ else _).
  assert (length (crt s1) = Z.to_nat (25 * COLS)) as Hl1.
  { unfold s1. destruct (c =? NL); [done|]. destruct (c =? BACKSPACE); [done|]. cbn. by rewrite length_insert. }
  assert (0 <= pos s1 < 25 * COLS) as Hp1.
  { unfold s1, COLS in *. destruct (c =? NL); cbn; [rewrite Z.rem_mod_nonneg by lia; Z.div_mod_to_equations; lia|].
    destruct (c =? BACKSPACE); cbn; [destruct (Z.ltb_spec 0 (pos s)); lia | lia]. }
  destruct (decide (pos s1 < 24 * COLS)) as [Hlt|Hge].
  - exists (mkscreen (<[Z.to_nat (pos s1) := BLANK]> (crt s1)) (pos s1)), (fun k => crt s1 !! k). split_and!.
    + apply cga_quiet_step; [done | lia].
    + split; cbn; [by rewrite length_insert | lia].
    + cbn [pos]. unfold s1, COLS in *. destruct (c =? NL); cbn in *.
      { rewrite Z.rem_mod_nonneg in * by lia. split_and!; [Z.div_mod_to_equations; lia | done | intros; exfalso; Z.div_mod_to_equations; lia]. }
      destruct (c =? BACKSPACE); cbn in *; [split; [destruct (Z.ltb_spec 0 (pos s)); lia | done]|].
      split; [|lia]. intros _. split; [done|]. intros k. apply screen_put; [done | unfold COLS; lia].
    + intros k. cbn [crt pos]. apply screen_put; [done | unfold COLS in *; lia].
  - assert (24 * COLS <= pos s1 < 25 * COLS) as Hr by lia. destruct (scroll_ok s1 Hl1 Hr) as (Hls & Eps & Hup & Hz).
    exists (mkscreen (<[Z.to_nat (pos s1 - COLS) := BLANK]> (crt (scroll s1))) (pos s1 - COLS)), (fun k => crt (scroll s1) !! k). split_and!.
    + apply cga_scroll_step; [done | lia].
    + split; cbn; [by rewrite length_insert | unfold COLS in *; lia].
    + cbn [pos]. unfold s1, COLS in *. destruct (c =? NL); cbn in *.
      { rewrite Z.rem_mod_nonneg in * by lia. split_and!; [Z.div_mod_to_equations; lia | intros; exfalso; Z.div_mod_to_equations; lia |].
        intros _ k. split; [apply Hup|]. intros Hk. apply Hz. Z.div_mod_to_equations. lia. }
      destruct (c =? BACKSPACE); cbn in *; [destruct (Z.ltb_spec 0 (pos s)); lia|].
      split; [lia|]. intros E. split; [lia|]. intros k. split; [|intros Hk; apply Hz; lia].
      intros Hk. rewrite Hup by done. apply screen_put; [done | unfold COLS; lia].
    + intros k. cbn [crt pos]. apply screen_put; [done | unfold COLS in *; lia].
Qed.

Lemma cgaputc_correct_witness : exists s', cgaputc 65 (mkscreen (replicate 2000 0) 1919) = Some s' /\ pos s' = 23 * COLS.
Proof.
  destruct (cgaputc_correct 65 (mkscreen (replicate 2000 0) 1919)) as (s' & cell & E & _ & Hs & _); [split; [done | unfold COLS; simpl; lia]|].
  exists s'. split; [exact E|]. by apply Hs.
Defined.
