(* ===== verification/Bio.v ===== *)
(** * The buffer cache ([bio.c]) on the memory disk ([memide.c])

    The buffers are the nodes of a circular doubly linked list through
    [bcache.head]; a pointer is the index of a buffer, the head being [HEAD].
    [bget] gives up [bcache.lock] before it takes the sleep lock of the buffer,
    so what others do in between is a step of its own: [bget_section] is the
    first part.  Sleep locks carry the pid of their holder. *)

From S2P Require Import Prelude Blocks.

Definition NBUF : nat := 30.
Definition HEAD : nat := NBUF.

Record buf : Type := mkbuf {
  b_valid : bool;
  b_dirty : bool;
  b_dev : Z;
  b_blockno : Z;
  b_lock : option Z;
  b_refcnt : Z;
  b_prev : nat;
  b_next : nat;
  b_data : list Z
}.
#[export] Instance buf_inhabited : Inhabited buf := populate (mkbuf false false 0 0 None 0 0 0 []).

(** [bcache.buf] followed by [bcache.head], and [memdisk] *)
Record bcache : Type := mkbc { nodes : list buf; memdisk : list (list Z) }.

Definition set_next (n : nat) (b : buf) : buf :=
  mkbuf (b_valid b) (b_dirty b) (b_dev b) (b_blockno b) (b_lock b) (b_refcnt b) (b_prev b) n (b_data b).
Definition set_prev (p : nat) (b : buf) : buf :=
  mkbuf (b_valid b) (b_dirty b) (b_dev b) (b_blockno b) (b_lock b) (b_refcnt b) p (b_next b) (b_data b).
Definition set_refcnt (r : Z) (b : buf) : buf :=
  mkbuf (b_valid b) (b_dirty b) (b_dev b) (b_blockno b) (b_lock b) r (b_prev b) (b_next b) (b_data b).
Definition set_lock (l : option Z) (b : buf) : buf :=
  mkbuf (b_valid b) (b_dirty b) (b_dev b) (b_blockno b) l (b_refcnt b) (b_prev b) (b_next b) (b_data b).
Definition set_flags (v d : bool) (b : buf) : buf :=
  mkbuf v d (b_dev b) (b_blockno b) (b_lock b) (b_refcnt b) (b_prev b) (b_next b) (b_data b).
Definition with_data (d : list Z) (b : buf) : buf :=
  mkbuf (b_valid b) (b_dirty b) (b_dev b) (b_blockno b) (b_lock b) (b_refcnt b) (b_prev b) (b_next b) d.

Definition node (k : nat) : M bcache buf := gets (fun s => nodes s !!! k).
Definition upd (k : nat) (f : buf -> buf) : M bcache unit := modify (fun s => mkbc (alter f k (nodes s)) (memdisk s)).

(** ** The list *)

(** [b->next = head.next; b->prev = &head; head.next->prev = b; head.next = b] *)
Definition link_front (b : nat) (l : list buf) : list buf :=
  let l := alter (set_next (b_next (l !!! HEAD))) b l in
  let l := alter (set_prev HEAD) b l in
  let l := alter (set_prev b) (b_next (l !!! HEAD)) l in
  alter (set_next b) HEAD l.

(** [b->next->prev = b->prev; b->prev->next = b->next] *)
Definition unlink (b : nat) (l : list buf) : list buf :=
  let l := alter (set_prev (b_prev (l !!! b))) (b_next (l !!! b)) l in
  alter (set_next (b_next (l !!! b))) (b_prev (l !!! b)) l.

Definition binit_list (l : list buf) : list buf :=
  foldl (fun l b => link_front b (alter (set_lock None) b l))
    (alter (set_next HEAD) HEAD (alter (set_prev HEAD) HEAD l)) (seq 0 NBUF).
Definition binit : M bcache unit := modify (fun s => mkbc (binit_list (nodes s)) (memdisk s)).

(** the search for a cached block, from [b] along [next] *)
Fixpoint find_cached (fuel : nat) (l : list buf) (b : nat) (dev blockno : Z) : option nat :=
  match fuel with
  | O => None
  | S fuel' =>
      if decide (b = HEAD) then None
      else if (b_dev (l !!! b) =? dev) && (b_blockno (l !!! b) =? blockno) then Some b
      else find_cached fuel' l (b_next (l !!! b)) dev blockno
  end.

(** the search for an unused buffer, from [b] along [prev] *)
Fixpoint find_unused (fuel : nat) (l : list buf) (b : nat) : option nat :=
  match fuel with
  | O => None
  | S fuel' =>
      if decide (b = HEAD) then None
      else if (b_refcnt (l !!! b) =? 0) && negb (b_dirty (l !!! b)) then Some b
      else find_unused fuel' l (b_prev (l !!! b))
  end.

(** [bget] up to the release of [bcache.lock] *)
Definition bget_section (dev blockno : Z) : M bcache nat :=
  s ← get;
  match find_cached (S NBUF) (nodes s) (b_next (nodes s !!! HEAD)) dev blockno with
  | Some b => upd b (fun x => set_refcnt (u32 (b_refcnt x + 1)) x) ;; mret b
  | None =>
      match find_unused (S NBUF) (nodes s) (b_prev (nodes s !!! HEAD)) with
      | Some b =>
          upd b (fun x => mkbuf false false dev blockno (b_lock x) 1 (b_prev x) (b_next x) (b_data x)) ;; mret b
      | None => panic "bget: no buffers"
      end
  end.

(** ** Sleep locks and the disk *)

Definition acquiresleep (pid : Z) (b : nat) : M bcache unit :=
  x ← node b;
  match b_lock x with
  | Some _ => block
  | None => upd b (set_lock (Some pid))
  end.
Definition releasesleep (b : nat) : M bcache unit := upd b (set_lock None).
Definition holdingsleep (pid : Z) (b : nat) : M bcache bool :=
  x ← node b; mret (bool_decide (b_lock x = Some pid)).

(** [iderw] *)
Definition iderw (pid : Z) (b : nat) : M bcache unit :=
  h ← holdingsleep pid b;
  x ← node b;
  s ← get;
  if negb h then panic "iderw: buf not locked"
  else if b_valid x && negb (b_dirty x) then panic "iderw: nothing to do"
  else if negb (b_dev x =? 1) then panic "iderw: request not for disk 1"
  else if Z.of_nat (length (memdisk s)) <=? b_blockno x then panic "iderw: block out of range"
  else if b_dirty x then
    modify (fun s => mkbc (nodes s) (<[Z.to_nat (b_blockno x) := b_data x]> (memdisk s))) ;;
    upd b (set_flags true false)
  else
    upd b (fun y => set_flags true false (with_data (memdisk s !!! Z.to_nat (b_blockno x)) y)).

Definition bget (pid dev blockno : Z) : M bcache nat :=
  b ← bget_section dev blockno;
  acquiresleep pid b ;;
  mret b.

Definition bread (pid dev blockno : Z) : M bcache nat :=
  b ← bget pid dev blockno;
  x ← node b;
  (if negb (b_valid x) then iderw pid b else mret tt) ;;
  mret b.

Definition bwrite (pid : Z) (b : nat) : M bcache unit :=
  h ← holdingsleep pid b;
  if negb h then panic "bwrite"
  else
    upd b (fun x => set_flags (b_valid x) true x) ;;
    iderw pid b.

(** The release of the sleep lock and the section under [bcache.lock] are one step:
    between them another process can only take the lock of a buffer that is still
    referenced, which does not recycle it. *)
Definition brelse (pid : Z) (b : nat) : M bcache unit :=
  h ← holdingsleep pid b;
  if negb h then panic "brelse"
  else
    releasesleep b ;;
    upd b (fun x => set_refcnt (u32 (b_refcnt x - 1)) x) ;;
    x ← node b;
    if b_refcnt x =? 0 then modify (fun s => mkbc (link_front b (unlink b (nodes s))) (memdisk s)) else mret tt.

(** ** The list of buffers, most recently used first *)

(** consecutive elements of [c] are linked *)
Fixpoint linked (l : list buf) (c : list nat) : Prop :=
  match c with
  | x :: (y :: _) as c' => b_next (l !!! x) = y /\ b_prev (l !!! y) = x /\ linked l c'
  | _ => True
  end.

Record mru (l : list buf) (o : list nat) : Prop := {
  mru_len : length l = S NBUF;
  mru_linked : linked l (HEAD :: o ++ [HEAD]);
  mru_perm : o ≡ₚ seq 0 NBUF
}.

Lemma alter_at (f : buf -> buf) k l j : (k < length l)%nat ->
  alter f k l !!! j = if decide (j = k) then f (l !!! k) else l !!! j.
Proof.
  intros Hk. destruct (lookup_lt_is_Some_2 l k Hk) as [x Hx]. rewrite (list_alter_insert _ _ _ _ Hx). case_decide as E.
  - subst. rewrite list_lookup_total_insert_eq by done. by rewrite (list_lookup_total_correct _ _ _ Hx).
  - by rewrite list_lookup_total_insert_ne.
Qed.

Lemma linked_cons l x y c : linked l (x :: y :: c) <-> b_next (l !!! x) = y /\ b_prev (l !!! y) = x /\ linked l (y :: c).
Proof. done. Qed.

Lemma linked_app l a x b : linked l (a ++ x :: b) <-> linked l (a ++ [x]) /\ linked l (x :: b).
Proof.
  induction a as [|y a IH]; [simpl; tauto|]. destruct a as [|z a]; [cbn [app] in *; rewrite !linked_cons; simpl; tauto|].
  cbn [app] in *. rewrite !linked_cons, IH. tauto.
Qed.

Lemma linked_ext l l' c :
  (forall x, x ∈ removelast c -> b_next (l' !!! x) = b_next (l !!! x)) ->
  (forall y, y ∈ tail c -> b_prev (l' !!! y) = b_prev (l !!! y)) -> linked l c -> linked l' c.
Proof.
  induction c as [|x [|y c] IH]; intros Hn Hp Hl; try done. rewrite linked_cons in *. destruct Hl as (E1 & E2 & Hl).
  rewrite Hn by (cbn; apply elem_of_cons; by left). rewrite Hp by (cbn; apply elem_of_cons; by left). split; [done|]. split; [done|].
  apply IH; [| |done].
  - intros z Hz. apply Hn. change (z ∈ x :: removelast (y :: c)). apply elem_of_cons. by right.
  - intros z Hz. apply Hp. cbn in *. apply elem_of_cons. by right.
Qed.

Lemma mru_elem l o k : mru l o -> k ∈ o <-> (k < NBUF)%nat.
Proof. intros [_ _ Hp]. rewrite Hp, elem_of_seq. lia. Qed.

Lemma mru_nodup l o : mru l o -> NoDup o.
Proof. intros [_ _ Hp]. rewrite Hp. apply NoDup_seq. Qed.

Lemma removelast_snoc {A} (c : list A) x : removelast (c ++ [x]) = c.
Proof. apply removelast_last. Qed.

Lemma tail_app {A} (a : list A) b : a <> [] -> tail (a ++ b) = tail a ++ b.
Proof. by destruct a. Qed.

(** taking a buffer out of the list *)
Lemma unlink_linked l o1 b o2 : length l = S NBUF -> NoDup (o1 ++ b :: o2) -> (forall k, k ∈ o1 ++ b :: o2 -> (k < NBUF)%nat) ->
  linked l (HEAD :: (o1 ++ b :: o2) ++ [HEAD]) ->
  linked (unlink b l) (HEAD :: (o1 ++ o2) ++ [HEAD]) /\ length (unlink b l) = S NBUF.
Proof.
  intros Hlen Hnd Hlt Hl.
  destruct (exists_last (l := HEAD :: o1)) as (c1 & p & E1); [done|].
  destruct (o2 ++ [HEAD]) as [|n c2] eqn:E2; [by destruct o2|].
  assert (HEAD :: (o1 ++ b :: o2) ++ [HEAD] = c1 ++ [p] ++ b :: n :: c2) as Ec.
  { rewrite <- E2, (app_assoc c1), <- E1. cbn [app]. f_equal. by rewrite <- app_assoc. }
  assert (HEAD :: (o1 ++ o2) ++ [HEAD] = c1 ++ p :: n :: c2) as Ec'.
  { change (c1 ++ p :: n :: c2) with (c1 ++ [p] ++ n :: c2). rewrite <- E2, (app_assoc c1), <- E1. cbn [app]. f_equal. by rewrite <- app_assoc. }
  rewrite Ec in Hl. rewrite Ec'. cbn [app] in Hl. apply linked_app in Hl as [Hl1 Hl]. rewrite !linked_cons in Hl.
  destruct Hl as (Epn & Ebp & Ebn & Enp & Hl2).
  assert (p ∈ HEAD :: o1) as Hp by (rewrite E1; apply elem_of_app; right; by apply list_elem_of_singleton).
  assert (n ∈ o2 ++ [HEAD]) as Hn by (rewrite E2; apply elem_of_cons; by left).
  assert (forall k, k ∈ o1 -> (k < NBUF)%nat) as Hlt1 by (intros k Hk; apply Hlt, elem_of_app; by left).
  assert (forall k, k ∈ o2 -> (k < NBUF)%nat) as Hlt2 by (intros k Hk; apply Hlt, elem_of_app; right; apply elem_of_cons; by right).
  assert (HEAD ∉ o1 /\ HEAD ∉ o2) as [HH1 HH2].
  { split; [intros Hk; specialize (Hlt1 _ Hk) | intros Hk; specialize (Hlt2 _ Hk)]; unfold HEAD in *; lia. }
  assert (forall k, k ∈ HEAD :: o1 -> k = HEAD \/ k ∈ o1) as Hc1 by (intros k; apply elem_of_cons).
  assert (HEAD = NBUF) as EH by done.
  apply NoDup_app in Hnd as (Hnd1 & Hdis & Hnd2). apply NoDup_cons in Hnd2 as [Hb2 Hnd2].
  assert (forall k, k ∈ o1 -> k ∉ o2) as Hdis2 by (intros k Hk Hk2; apply (Hdis k Hk), elem_of_cons; by right).
  assert (b ∉ o1) as Hb1 by (intros Hk; apply (Hdis b Hk), elem_of_cons; by left).
  assert (p < S NBUF /\ n < S NBUF /\ b < NBUF)%nat as (Hpl & Hnl & Hbl).
  { split_and!.
    - apply Hc1 in Hp as [->|Hp]; [lia|]. specialize (Hlt1 p Hp). lia.
    - apply elem_of_app in Hn as [Hn|Hn]; [specialize (Hlt2 n Hn); lia | apply list_elem_of_singleton in Hn; lia].
    - apply Hlt, elem_of_app. right. apply elem_of_cons. by left. }
  assert (b <> p /\ b <> n) as [Hbp Hbn].
  { split; intros <-.
    - apply Hc1 in Hp as [E|Hp]; [lia|done].
    - apply elem_of_app in Hn as [Hn|Hn]; [done|]. apply list_elem_of_singleton in Hn. lia. }
  unfold unlink. cbv zeta. rewrite Ebn, Ebp. set (l1 := alter (set_prev p) n l).
  assert (length l1 = S NBUF) as Hl1len by (unfold l1; by rewrite length_alter).
  assert (forall j, l1 !!! j = if decide (j = n) then set_prev p (l !!! n) else l !!! j) as A1 by (intros j; apply alter_at; lia).
  rewrite !(A1 b), decide_False by done. rewrite Ebn, Ebp.
  set (l2 := alter (set_next n) p l1).
  assert (forall j, l2 !!! j = if decide (j = p) then set_next n (l1 !!! p) else l1 !!! j) as A2 by (intros j; apply alter_at; lia).
  split; [|unfold l2, l1; by rewrite !length_alter].
  assert (forall j, j <> p -> b_next (l2 !!! j) = b_next (l !!! j)) as Hnext.
  { intros j Hj. rewrite A2, decide_False by done. rewrite A1. by case_decide; subst. }
  assert (forall j, j <> n -> b_prev (l2 !!! j) = b_prev (l !!! j)) as Hprev.
  { intros j Hj. rewrite A2. case_decide; [subst j; cbn|]; rewrite A1; by rewrite decide_False by done. }
  apply linked_app. split; [|rewrite linked_cons; split_and!].
  - eapply linked_ext; [| |exact Hl1].
    + intros x Hx. rewrite removelast_snoc in Hx. apply Hnext. intros ->.
      assert (NoDup (c1 ++ [p])) as Hnd.
      { rewrite <- E1. by apply NoDup_cons. }
      apply NoDup_app in Hnd as (_ & Hd & _). apply (Hd p Hx). by apply list_elem_of_singleton.
    + intros y Hy. rewrite <- E1 in Hy. cbn [tail] in Hy. apply Hprev. intros ->. apply elem_of_app in Hn as [Hn|Hn].
      * by apply (Hdis2 n Hy).
      * apply list_elem_of_singleton in Hn. apply HH1. by rewrite <- Hn.
  - rewrite A2, decide_True by done. done.
  - rewrite A2. case_decide as Ep; [subst p; cbn|]; rewrite A1; by rewrite decide_True by done.
  - eapply linked_ext; [| |exact Hl2].
    + intros x Hx. rewrite <- E2, removelast_snoc in Hx. apply Hnext. intros ->.
      apply Hc1 in Hp as [->|Hp]; [done|]. by apply (Hdis2 p Hp).
    + intros y Hy. apply Hprev. intros ->. cbn [tail] in Hy.
      assert (NoDup (n :: c2)) as Hnd.
      { rewrite <- E2. apply NoDup_app. split_and!; [done | | apply NoDup_singleton].
        intros z Hz Hin. apply list_elem_of_singleton in Hin. apply HH2. by rewrite <- Hin. }
      by apply NoDup_cons in Hnd as [Hnd _].
Qed.

(** putting a buffer in front *)
Lemma link_front_linked l o b : length l = S NBUF -> NoDup o -> (forall k, k ∈ o -> (k < NBUF)%nat) -> (b < NBUF)%nat -> b ∉ o ->
  linked l (HEAD :: o ++ [HEAD]) ->
  linked (link_front b l) (HEAD :: b :: o ++ [HEAD]) /\ length (link_front b l) = S NBUF.
Proof.
  intros Hlen Hnd Hlt Hb Hbo Hl. destruct (o ++ [HEAD]) as [|n c] eqn:Ec; [by destruct o|].
  rewrite linked_cons in Hl. destruct Hl as (En & Ep & Hl). assert (HEAD = NBUF) as EH by done.
  assert (n ∈ o ++ [HEAD]) as Hn by (rewrite Ec; apply elem_of_cons; by left).
  assert (n < S NBUF /\ b <> n /\ b <> HEAD)%nat as (Hnl & Hbn & HbH).
  { apply elem_of_app in Hn as [Hn|Hn]; [specialize (Hlt n Hn); split_and!; [lia | by intros -> | lia]|].
    apply list_elem_of_singleton in Hn. subst n. lia. }
  unfold link_front. cbv zeta. rewrite En. set (l1 := alter (set_next n) b l). set (l2 := alter (set_prev HEAD) b l1).
  assert (length l1 = S NBUF /\ length l2 = S NBUF) as [Hl1 Hl2] by (unfold l2, l1; by rewrite !length_alter).
  assert (forall j, l1 !!! j = if decide (j = b) then set_next n (l !!! b) else l !!! j) as A1 by (intros j; apply alter_at; lia).
  assert (forall j, l2 !!! j = if decide (j = b) then set_prev HEAD (l1 !!! b) else l1 !!! j) as A2 by (intros j; apply alter_at; lia).
  rewrite (A2 HEAD), (A1 HEAD), !decide_False by lia. rewrite En.
  set (l3 := alter (set_prev b) n l2). set (l4 := alter (set_next b) HEAD l3).
  assert (length l3 = S NBUF /\ length l4 = S NBUF) as [Hl3 Hl4] by (unfold l4, l3; by rewrite !length_alter).
  assert (forall j, l3 !!! j = if decide (j = n) then set_prev b (l2 !!! n) else l2 !!! j) as A3 by (intros j; apply alter_at; lia).
  assert (forall j, l4 !!! j = if decide (j = HEAD) then set_next b (l3 !!! HEAD) else l3 !!! j) as A4 by (intros j; apply alter_at; lia).
  split; [|done].
  assert (forall j, j <> HEAD -> j <> b -> b_next (l4 !!! j) = b_next (l !!! j)) as Hnext.
  { intros j H1 H2. rewrite A4, decide_False by done. rewrite A3. case_decide; [subst j; cbn|]; rewrite A2, decide_False by done; rewrite A1; by rewrite decide_False by done. }
  assert (forall j, j <> n -> j <> b -> b_prev (l4 !!! j) = b_prev (l !!! j)) as Hprev.
  { intros j H1 H2. rewrite A4. case_decide; [subst j; cbn|]; rewrite A3, decide_False by done; rewrite A2, decide_False by done; rewrite A1; by rewrite decide_False by done. }
  rewrite !linked_cons. split_and!.
  - rewrite A4, decide_True by done. done.
  - rewrite A4, decide_False by done. rewrite A3, decide_False by done. rewrite A2, decide_True by done. done.
  - rewrite A4, decide_False by done. rewrite A3, decide_False by done. rewrite A2, decide_True by done. cbn. rewrite A1, decide_True by done. done.
  - rewrite A4. case_decide as E; [cbn; rewrite <- E|]; rewrite A3, decide_True by done; done.
  - eapply linked_ext; [| |exact Hl].
    + intros x Hx. rewrite <- Ec, removelast_snoc in Hx. apply Hnext; [specialize (Hlt x Hx); lia | by intros ->].
    + intros y Hy. cbn [tail] in Hy.
      assert (NoDup (n :: c)) as Hndc.
      { rewrite <- Ec. apply NoDup_app. split_and!; [done | | apply NoDup_singleton].
        intros z Hz Hin. apply list_elem_of_singleton in Hin. subst z. specialize (Hlt HEAD Hz). lia. }
      apply NoDup_cons in Hndc as [Hnc _].
      assert (y ∈ o ++ [HEAD]) as Hy' by (rewrite Ec; apply elem_of_cons; by right).
      apply Hprev; [by intros ->|]. intros ->. apply elem_of_app in Hy' as [Hy'|Hy']; [done|]. apply list_elem_of_singleton in Hy'. lia.
Qed.

(** ** [binit] and the searches *)

Lemma linked_lock l k o c : (k < length l)%nat -> linked l c -> linked (alter (set_lock o) k l) c.
Proof. intros Hk. apply linked_ext; intros x _; rewrite alter_at by done; by case_decide; subst. Qed.

Lemma binit_fold bs : forall o l, length l = S NBUF -> NoDup (bs ++ o) -> (forall k, k ∈ bs ++ o -> (k < NBUF)%nat) ->
  linked l (HEAD :: o ++ [HEAD]) ->
  let l' := foldl (fun l b => link_front b (alter (set_lock None) b l)) l bs in
  linked l' (HEAD :: (rev bs ++ o) ++ [HEAD]) /\ length l' = S NBUF.
Proof.
  induction bs as [|b bs IH]; intros o l Hlen Hnd Hlt Hl; [done|]. cbn [foldl app] in *. apply NoDup_cons in Hnd as [Hb Hnd].
  assert (b < NBUF)%nat as Hbl by (apply Hlt, elem_of_cons; by left).
  destruct (link_front_linked (alter (set_lock None) b l) o b) as [H1 H2].
  - by rewrite length_alter.
  - by apply NoDup_app in Hnd as (_ & _ & Hnd).
  - intros k Hk. apply Hlt, elem_of_cons. right. apply elem_of_app. by right.
  - done.
  - intros Hk. apply Hb, elem_of_app. by right.
  - apply linked_lock; [lia|done].
  - specialize (IH (b :: o) _ H2). cbn [rev]. rewrite <- (app_assoc (rev bs)). apply IH.
    + apply NoDup_app in Hnd as (N1 & N2 & N3). apply NoDup_app. split_and!; [done | |].
      * intros k Hk [->|Ho]%elem_of_cons; [apply Hb, elem_of_app; by left | by apply (N2 k)].
      * apply NoDup_cons. split; [|done]. intros Hk. apply Hb, elem_of_app. by right.
    + intros k Hk. apply Hlt, elem_of_cons. apply elem_of_app in Hk as [Hk|[->|Hk]%elem_of_cons]; [right; apply elem_of_app; by left | by left | right; apply elem_of_app; by right].
    + exact H1.
Qed.

Lemma binit_mru l : length l = S NBUF -> mru (binit_list l) (rev (seq 0 NBUF)).
Proof.
  intros Hlen. unfold binit_list. set (l0 := alter (set_next HEAD) HEAD _).
  destruct (binit_fold (seq 0 NBUF) [] l0) as [H1 H2].
  - unfold l0. by rewrite !length_alter.
  - rewrite app_nil_r. apply NoDup_seq.
  - intros k. rewrite app_nil_r, elem_of_seq. lia.
  - cbn [app linked]. unfold l0. rewrite !alter_at by (rewrite ?length_alter, Hlen; unfold HEAD; lia). by rewrite decide_True.
  - rewrite app_nil_r in H1. split; [done | done | by rewrite Permutation_rev].
Qed.

Fixpoint first (p : nat -> bool) (o : list nat) : option nat :=
  match o with
  | [] => None
  | k :: o' => if p k then Some k else first p o'
  end.

Lemma first_Some p o k : first p o = Some k -> k ∈ o /\ p k = true.
Proof.
  induction o as [|j o IH]; simpl; [done|]. destruct (p j) eqn:E.
  - intros [= <-]. split; [apply elem_of_cons; by left | done].
  - intros Hk. destruct (IH Hk) as [H1 H2]. split; [apply elem_of_cons; by right | done].
Qed.
Lemma first_None p o : first p o = None <-> forall k, k ∈ o -> p k = false.
Proof.
  induction o as [|j o IH]; simpl; [split; [intros _ k Hk; by apply elem_of_nil in Hk | done]|]. destruct (p j) eqn:E.
  - split; [done|]. intros H. rewrite H in E; [done | apply elem_of_cons; by left].
  - rewrite IH. split; [intros H k [->|Hk]%elem_of_cons; [done | by apply H] | intros H k Hk; apply H, elem_of_cons; by right].
Qed.

Definition is_block (l : list buf) (dev blockno : Z) (k : nat) : bool :=
  (b_dev (l !!! k) =? dev) && (b_blockno (l !!! k) =? blockno).
Definition is_unused (l : list buf) (k : nat) : bool := (b_refcnt (l !!! k) =? 0) && negb (b_dirty (l !!! k)).

Lemma find_cached_first l dev blockno : forall o fuel x, linked l (x :: o ++ [HEAD]) -> HEAD ∉ o -> (length o < fuel)%nat ->
  find_cached fuel l (b_next (l !!! x)) dev blockno = first (is_block l dev blockno) o.
Proof.
  induction o as [|y o IH]; intros [|fuel] x Hl Ho Hf; simpl in Hf; try lia; cbn [app] in Hl; apply linked_cons in Hl as (-> & _ & Hl); cbn [find_cached first].
  - by rewrite decide_True.
  - apply not_elem_of_cons in Ho as [Hy Ho]. rewrite decide_False by done. fold (is_block l dev blockno y).
    destruct (is_block l dev blockno y); [done|]. apply IH; [done|done|lia].
Qed.

Lemma find_unused_first l : forall o fuel x, linked l (HEAD :: o ++ [x]) -> HEAD ∉ o -> (length o < fuel)%nat ->
  find_unused fuel l (b_prev (l !!! x)) = first (is_unused l) (rev o).
Proof.
  induction o as [|y o IH] using rev_ind; intros [|fuel] x Hl Ho Hf; [lia | | rewrite length_app in Hf; simpl in Hf; lia |].
  - cbn [app] in Hl. apply linked_cons in Hl as (_ & -> & _). cbn [find_unused]. by rewrite decide_True.
  - rewrite rev_app_distr. cbn [rev app first]. rewrite length_app in Hf. simpl in Hf. apply not_elem_of_app in Ho as [Ho Hy].
    rewrite <- app_assoc in Hl. change (HEAD :: o ++ [y] ++ [x]) with ((HEAD :: o) ++ y :: [x]) in Hl. apply linked_app in Hl as [Hl1 Hl2].
    apply linked_cons in Hl2 as (_ & -> & _). cbn [find_unused]. rewrite decide_False by (intros ->; apply Hy; by apply list_elem_of_singleton).
    fold (is_unused l y). destruct (is_unused l y); [done|]. apply IH; [done|done|lia].
Qed.

Lemma mru_head l o : mru l o -> HEAD ∉ o /\ (length o < S NBUF)%nat.
Proof.
  intros Hm. split; [intros Hin; apply (mru_elem _ _ _ Hm) in Hin; unfold HEAD in *; lia|].
  rewrite (mru_perm _ _ Hm), length_seq. lia.
Qed.

(** ** The system of buffers

    [w] lists the buffers that a process got from [bget_section] and has not
    locked yet. *)

Definition payload (x : buf) := (b_valid x, b_dirty x, b_dev x, b_blockno x, b_lock x, b_refcnt x, b_data x).

Record cache_ok (s : bcache) (w : list nat) : Prop := {
  c_mru : exists o, mru (nodes s) o;
  c_ref k : (k < NBUF)%nat -> b_refcnt (nodes s !!! k) = occ k w + (if b_lock (nodes s !!! k) then 1 else 0);
  c_wait : Z.of_nat (length w) <= 2 ^ 31 /\ Forall (fun k => k < NBUF)%nat w;
  c_uniq i j : (i < NBUF)%nat -> (j < NBUF)%nat -> b_dev (nodes s !!! i) <> 0 ->
    b_dev (nodes s !!! i) = b_dev (nodes s !!! j) -> b_blockno (nodes s !!! i) = b_blockno (nodes s !!! j) -> i = j;
  c_valid k : (k < NBUF)%nat -> b_valid (nodes s !!! k) = true ->
    b_dev (nodes s !!! k) = 1 /\ 0 <= b_blockno (nodes s !!! k) < Z.of_nat (length (memdisk s));
  c_block k : (k < NBUF)%nat -> 0 <= b_blockno (nodes s !!! k);
  c_dirty k : (k < NBUF)%nat -> b_dirty (nodes s !!! k) = true -> b_valid (nodes s !!! k) = true;
  c_clean k : (k < NBUF)%nat -> b_lock (nodes s !!! k) = None -> b_valid (nodes s !!! k) = true ->
    b_dirty (nodes s !!! k) = false -> b_data (nodes s !!! k) = memdisk s !!! Z.to_nat (b_blockno (nodes s !!! k));
  c_head : b_lock (nodes s !!! HEAD) = None
}.

(** one step of a process; the label is a block that it changes.  What the
    clients of the cache do is part of the steps: they change a buffer that they
    hold and have read, and let it go when it is marked dirty or as on the disk *)
Inductive bstep : bcache * list nat -> option (Z * list Z) -> bcache * list nat -> Prop :=
| B_get s w dev blockno k s' :
    dev <> 0 -> 0 <= blockno -> Z.of_nat (length w) < 2 ^ 31 ->
    bget_section dev blockno s = Ok (k, s') -> bstep (s, w) None (s', k :: w)
| B_lock s w w' pid k s' :
    w ≡ₚ k :: w' -> acquiresleep pid k s = Ok (tt, s') -> bstep (s, w) None (s', w')
| B_read s w pid k s' :
    b_valid (nodes s !!! k) = false -> iderw pid k s = Ok (tt, s') -> bstep (s, w) None (s', w)
| B_store s w pid k d s' :
    b_lock (nodes s !!! k) = Some pid -> b_valid (nodes s !!! k) = true ->
    upd k (with_data d) s = Ok (tt, s') -> bstep (s, w) (Some (b_blockno (nodes s !!! k), d)) (s', w)
| B_dirty s w pid k s' :
    b_lock (nodes s !!! k) = Some pid -> b_valid (nodes s !!! k) = true ->
    upd k (set_flags true true) s = Ok (tt, s') -> bstep (s, w) None (s', w)
| B_write s w pid k s' :
    b_valid (nodes s !!! k) = true -> bwrite pid k s = Ok (tt, s') -> bstep (s, w) None (s', w)
| B_rel s w pid k s' :
    (b_valid (nodes s !!! k) = true -> b_dirty (nodes s !!! k) = false ->
     b_data (nodes s !!! k) = memdisk s !!! Z.to_nat (b_blockno (nodes s !!! k))) ->
    brelse pid k s = Ok (tt, s') -> bstep (s, w) None (s', w).

(** the contents of block [b] of the disk, as the cache holds them *)
Definition view (s : bcache) (b : Z) : list Z :=
  match first (fun k => is_block (nodes s) 1 b k && b_valid (nodes s !!! k)) (seq 0 NBUF) with
  | Some k => b_data (nodes s !!! k)
  | None => memdisk s !!! Z.to_nat b
  end.

Section Inv.
Context (s : bcache) (w : list nat).
Hypothesis Hok : cache_ok s w.

Lemma nodes_len : length (nodes s) = S NBUF.
Proof using Hok. destruct (c_mru _ _ Hok) as [o Ho]. apply Ho. Qed.

Lemma held_in pid k : b_lock (nodes s !!! k) = Some pid -> (k < NBUF)%nat.
Proof using Hok.
  intros Hl. destruct (decide (k < NBUF)%nat) as [|Hn]; [done|]. exfalso. destruct (decide (k = HEAD)) as [->|Hk].
  - rewrite (c_head _ _ Hok) in Hl. done.
  - unfold HEAD in Hk. rewrite list_lookup_total_alt, lookup_ge_None_2 in Hl by (rewrite nodes_len; lia). done.
Qed.

Lemma view_at k b : (k < NBUF)%nat -> b_valid (nodes s !!! k) = true -> b_blockno (nodes s !!! k) = b ->
  view s b = b_data (nodes s !!! k).
Proof using Hok.
  intros Hk Hv Hb. unfold view. destruct (c_valid _ _ Hok k Hk Hv) as [Hd _].
  destruct (first _ _) as [j|] eqn:E.
  - apply first_Some in E as [Hj E]. apply elem_of_seq in Hj. unfold is_block in E.
    apply andb_true_iff in E as [[E1%Z.eqb_eq E2%Z.eqb_eq]%andb_true_iff E3].
    by rewrite (c_uniq _ _ Hok j k) by (lia || congruence).
  - rewrite first_None in E. specialize (E k ltac:(apply elem_of_seq; lia)). exfalso.
    unfold is_block in E. rewrite Hd, Hb, Hv, !Z.eqb_refl in E. done.
Qed.

Lemma view_disk b : (forall k, (k < NBUF)%nat -> b_valid (nodes s !!! k) = true -> b_blockno (nodes s !!! k) <> b) ->
  view s b = memdisk s !!! Z.to_nat b.
Proof using.
  intros Hn. unfold view. destruct (first _ _) as [j|] eqn:E; [|done].
  apply first_Some in E as [Hj E]. apply elem_of_seq in Hj. unfold is_block in E.
  apply andb_true_iff in E as [[E1%Z.eqb_eq E2%Z.eqb_eq]%andb_true_iff E3]. exfalso. apply (Hn j); [lia|done|done].
Qed.

Lemma view_cases b :
  (exists k, (k < NBUF)%nat /\ b_valid (nodes s !!! k) = true /\ b_blockno (nodes s !!! k) = b) \/
  (forall k, (k < NBUF)%nat -> b_valid (nodes s !!! k) = true -> b_blockno (nodes s !!! k) <> b).
Proof using.
  destruct (first (fun k => b_valid (nodes s !!! k) && (b_blockno (nodes s !!! k) =? b)) (seq 0 NBUF)) as [k|] eqn:E.
  - left. apply first_Some in E as [Hk E]. apply elem_of_seq in Hk. apply andb_true_iff in E as [E1 E2%Z.eqb_eq]. exists k. split_and!; [lia|done|done].
  - right. rewrite first_None in E. intros k Hk Hv Hb. specialize (E k ltac:(apply elem_of_seq; lia)). rewrite Hv, Hb, Z.eqb_refl in E. done.
Qed.
End Inv.

Lemma alter_mru f k l o : (k < length l)%nat -> (forall x, b_prev (f x) = b_prev x /\ b_next (f x) = b_next x) ->
  mru l o -> mru (alter f k l) o.
Proof.
  intros Hk Hf [A B C]. split; [by rewrite length_alter | | done].
  eapply linked_ext; [| |exact B]; intros x _; rewrite alter_at by done; case_decide; subst; by try apply Hf.
Qed.

(** one buffer changes, and perhaps the disk *)
Section Update.
Context (s : bcache) (w w' : list nat) (k : nat) (f : buf -> buf) (D : list (list Z)).
Hypothesis Hok : cache_ok s w.
Hypothesis Hk : (k < NBUF)%nat.
Let y := f (nodes s !!! k).
Let s' := mkbc (alter f k (nodes s)) D.

Lemma upd_node j : nodes s' !!! j = if decide (j = k) then y else nodes s !!! j.
Proof using Hok Hk. apply alter_at. rewrite (nodes_len _ _ Hok). lia. Qed.

Lemma cache_upd :
  (forall x, b_prev (f x) = b_prev x /\ b_next (f x) = b_next x) ->
  b_refcnt y = occ k w' + (if b_lock y then 1 else 0) -> (forall j, j <> k -> occ j w' = occ j w) ->
  Z.of_nat (length w') <= 2 ^ 31 /\ Forall (fun k => k < NBUF)%nat w' ->
  (forall j, (j < NBUF)%nat -> j <> k -> b_dev y <> 0 -> b_dev y = b_dev (nodes s !!! j) -> b_blockno y = b_blockno (nodes s !!! j) -> False) ->
  (b_valid y = true -> b_dev y = 1 /\ 0 <= b_blockno y < Z.of_nat (length (memdisk s))) ->
  0 <= b_blockno y ->
  (b_dirty y = true -> b_valid y = true) ->
  (b_lock y = None -> b_valid y = true -> b_dirty y = false -> b_data y = D !!! Z.to_nat (b_blockno y)) ->
  length D = length (memdisk s) ->
  (forall j, (j < NBUF)%nat -> j <> k -> b_valid (nodes s !!! j) = true -> D !!! Z.to_nat (b_blockno (nodes s !!! j)) = memdisk s !!! Z.to_nat (b_blockno (nodes s !!! j))) ->
  cache_ok s' w'.
Proof using Hok Hk.
  intros Hf Href Hocc Hw Huniq Hvalid Hblock Hdirty Hclean HD Hdisk. pose proof upd_node as U. destruct Hok as [A R W N V B T C H].
  split; try change (memdisk s') with D.
  - destruct A as [o Ho]. exists o. apply alter_mru; [rewrite (mru_len _ _ Ho); lia | done | done].
  - intros j Hj. rewrite U. case_decide; [by subst|]. rewrite Hocc by done. by apply R.
  - done.
  - intros i j Hi Hj. rewrite !U. repeat case_decide; subst; try done.
    + intros X1 X2 X3. exfalso. by eapply (Huniq j).
    + intros X1 X2 X3. exfalso. eapply (Huniq i); [done | done | congruence | done | done].
    + by apply N.
  - intros j Hj. change (memdisk s') with D. rewrite U, HD. case_decide; [by subst|]. by apply V.
  - intros j Hj. rewrite U. case_decide; [by subst|]. by apply B.
  - intros j Hj. rewrite U. case_decide; [by subst|]. by apply T.
  - intros j Hj. rewrite U. change (memdisk s') with D. case_decide; [by subst|]. intros X1 X2 X3. rewrite Hdisk by done. by apply C.
  - rewrite U. case_decide as E; [unfold HEAD in E; lia | done].
Qed.

Lemma view_same b : cache_ok s' w' ->
  (b_valid y = true -> b_blockno y <> b) ->
  ((forall j, (j < NBUF)%nat -> j <> k -> b_valid (nodes s !!! j) = true -> b_blockno (nodes s !!! j) <> b) -> D !!! Z.to_nat b = view s b) ->
  view s' b = view s b.
Proof using Hok Hk.
  intros Hok' Hy Hn. pose proof upd_node as U. destruct (view_cases s' b) as [(j & Hj & Hv & Hb)|Hnone].
  - rewrite (view_at _ _ Hok' j b) by done. rewrite U in *. case_decide; [subst; exfalso; by apply Hy|]. by rewrite (view_at _ _ Hok j b).
  - rewrite (view_disk _ b Hnone). apply Hn. intros j Hj Hjk Hv. specialize (Hnone j Hj). rewrite U, decide_False in Hnone by done. by apply Hnone.
Qed.

(** a change that leaves the block, the data and the disk *)
Lemma view_keep b : cache_ok s' w' -> D = memdisk s ->
  b_valid y = b_valid (nodes s !!! k) -> b_blockno y = b_blockno (nodes s !!! k) -> b_data y = b_data (nodes s !!! k) ->
  view s' b = view s b.
Proof using Hok Hk.
  intros Hok' HD Ev Eb Ed. destruct (decide (b_valid y = true /\ b_blockno y = b)) as [[Hv Hb]|Hn].
  - rewrite (view_at _ _ Hok' k b); rewrite ?upd_node, ?decide_True by done; try done.
    rewrite Ed. symmetry. apply (view_at _ _ Hok); [done | by rewrite <- Ev | by rewrite <- Eb].
  - apply view_same; [done | intros Hv Hb; by apply Hn |]. intros Hj. rewrite HD. symmetry. apply view_disk. intros j Hjn Hv.
    destruct (decide (j = k)) as [->|Hjk]; [|by apply Hj]. rewrite <- Eb, <- Ev in *. intros Hb. by apply Hn.
Qed.
End Update.

(** ** Steps *)

Definition refines (s : bcache) (lab : option (Z * list Z)) (s' : bcache) (w' : list nat) : Prop :=
  cache_ok s' w' /\ length (memdisk s') = length (memdisk s) /\
  forall b, 0 <= b < Z.of_nat (length (memdisk s)) ->
    view s' b = match lab with Some (c, d) => if decide (c = b) then d else view s b | None => view s b end.

Section Step.
Context (s : bcache) (w : list nat).
Hypothesis Hok : cache_ok s w.

Lemma upd_eq k f s' : upd k f s = Ok (tt, s') -> s' = mkbc (alter f k (nodes s)) (memdisk s).
Proof. by intros [= <-]. Qed.

Lemma get_refines dev blockno k s' :
  dev <> 0 -> 0 <= blockno -> Z.of_nat (length w) < 2 ^ 31 ->
  bget_section dev blockno s = Ok (k, s') -> refines s None s' (k :: w).
Proof using Hok.
  intros Hdev Hbn Hlen E. destruct (c_mru _ _ Hok) as [o Ho]. destruct (mru_head _ _ Ho) as [HH Hfuel].
  unfold bget_section, get, mbind, M_bind in E. 
  rewrite (find_cached_first _ _ _ o) in E by (done || apply Ho).
  rewrite (find_unused_first _ o) in E by (done || apply Ho).
  assert (Z.of_nat (length (k :: w)) <= 2 ^ 31) as Hlen' by (simpl; lia).
  pose proof (c_wait _ _ Hok) as [_ HW]. pose proof (occ_length k w) as Hocc.
  assert (forall j, j <> k -> occ j (k :: w) = occ j w) as Hother by (intros j Hj; simpl; rewrite decide_False by done; lia).
  destruct (first (is_block _ dev blockno) o) as [b|] eqn:Ec.
  - injection E as -> <-. apply first_Some in Ec as [Hb Ec]. apply (mru_elem _ _ _ Ho) in Hb.
    apply andb_true_iff in Ec as [E1%Z.eqb_eq E2%Z.eqb_eq].
    assert (cache_ok (mkbc (alter (fun x => set_refcnt (u32 (b_refcnt x + 1)) x) k (nodes s)) (memdisk s)) (k :: w)) as Hok'.
    { apply (cache_upd s w); try done.
      - cbn [b_refcnt set_refcnt b_lock]. rewrite (c_ref _ _ Hok k Hb). simpl. rewrite decide_True by done. pose proof (occ_nonneg k w).
        rewrite u32_small; destruct (b_lock _); lia.
      - split; [done|]. by constructor.
      - intros j Hj Hjk H1 H2 H3. apply Hjk. symmetry. by apply (c_uniq _ _ Hok).
      - by apply (c_valid _ _ Hok).
      - by apply (c_block _ _ Hok).
      - by apply (c_dirty _ _ Hok).
      - by apply (c_clean _ _ Hok). }
    split; [done|]. split; [done|]. intros c _. by eapply (view_keep s w).
  - destruct (first (is_unused _) (rev o)) as [b|] eqn:Eu; [|done]. injection E as -> <-. apply first_Some in Eu as [Hb Eu].
    assert (k ∈ o) as Hko by (by rewrite Permutation_rev). apply (mru_elem _ _ _ Ho) in Hko as Hkn. clear Hb.
    apply andb_true_iff in Eu as [E1%Z.eqb_eq E2%negb_true_iff].
    pose proof (c_ref _ _ Hok k Hkn) as Hr. rewrite E1 in Hr. pose proof (occ_nonneg k w).
    assert (b_lock (nodes s !!! k) = None) as El by (destruct (b_lock (nodes s !!! k)); [lia|done]). rewrite El in Hr.
    set (f := fun x => mkbuf false false dev blockno (b_lock x) 1 (b_prev x) (b_next x) (b_data x)).
    assert (cache_ok (mkbc (alter f k (nodes s)) (memdisk s)) (k :: w)) as Hok'.
    { apply (cache_upd s w); try done.
      - cbn. rewrite El, decide_True by done. lia.
      - split; [done|]. by constructor.
      - intros j Hj Hjk _ H1 H2. rewrite first_None in Ec. apply (mru_elem _ _ _ Ho) in Hj. specialize (Ec j Hj).
        unfold is_block in Ec. cbn in H1, H2. rewrite <- H1, <- H2, !Z.eqb_refl in Ec. done. }
    split; [done|]. split; [done|]. intros c _. eapply (view_same s w); [done | done | exact Hok' | done |].
    intros Hj. symmetry. destruct (decide (b_valid (nodes s !!! k) = true /\ b_blockno (nodes s !!! k) = c)) as [[Hv Hc]|Hn].
    + rewrite (view_at _ _ Hok k c) by done. rewrite (c_clean _ _ Hok) by done. by rewrite Hc.
    + apply view_disk. intros j Hjn Hv. destruct (decide (j = k)) as [->|Hjk]; [|by apply Hj]. intros Hc. by apply Hn.
Qed.

Lemma lock_refines pid k w' s' : w ≡ₚ k :: w' -> acquiresleep pid k s = Ok (tt, s') -> refines s None s' w'.
Proof using Hok.
  intros Hp E. unfold acquiresleep, node, gets, mbind, M_bind in E. destruct (b_lock (nodes s !!! k)) eqn:El; [done|].
  apply upd_eq in E as ->. destruct (c_wait _ _ Hok) as [Hl HW]. rewrite Hp in HW. inversion HW as [|? ? Hk HW']; subst.
  assert (forall j, occ j w = (if decide (k = j) then 1 else 0) + occ j w') as Eocc by (intros j; by rewrite (occ_perm j _ _ Hp)).
  assert (cache_ok (mkbc (alter (set_lock (Some pid)) k (nodes s)) (memdisk s)) w') as Hok'.
  { apply (cache_upd s w); try done.
    - cbn. rewrite (c_ref _ _ Hok k Hk), El, Eocc, decide_True by done. lia.
    - intros j Hj. rewrite Eocc, decide_False by done. lia.
    - split; [|done]. apply Permutation_length in Hp. simpl in Hp. lia.
    - intros j Hj Hjk H1 H2 H3. apply Hjk. symmetry. by apply (c_uniq _ _ Hok).
    - by apply (c_valid _ _ Hok).
    - by apply (c_block _ _ Hok).
    - by apply (c_dirty _ _ Hok). }
  split; [done|]. split; [done|]. intros c _. by eapply (view_keep s w).
Qed.

(** a held buffer gets other flags and data; what is on the disk may change at
    its own block only *)
Lemma held_refines pid k v d x D :
  b_lock (nodes s !!! k) = Some pid -> (d = true -> v = true) ->
  (v = true -> b_dev (nodes s !!! k) = 1 /\ b_blockno (nodes s !!! k) < Z.of_nat (length (memdisk s))) ->
  length D = length (memdisk s) -> (forall i, i <> Z.to_nat (b_blockno (nodes s !!! k)) \/ b_dev (nodes s !!! k) <> 1 -> D !!! i = memdisk s !!! i) ->
  let s' := mkbc (alter (fun b => set_flags v d (with_data x b)) k (nodes s)) D in
  cache_ok s' w /\ forall b, 0 <= b < Z.of_nat (length (memdisk s)) -> b <> b_blockno (nodes s !!! k) -> view s' b = view s b.
Proof using Hok.
  intros El Hd Hv HD HDi s'. pose proof (held_in _ _ Hok _ _ El) as Hk. pose proof (c_block _ _ Hok k Hk) as Hb0.
  assert (cache_ok s' w) as Hok'.
  { apply (cache_upd s w); try done.
    - apply (c_ref _ _ Hok k Hk).
    - apply (c_wait _ _ Hok).
    - intros j Hj Hjk H1 H2 H3. apply Hjk. symmetry. by apply (c_uniq _ _ Hok).
    - intros Hy. destruct (Hv Hy). split; [done|]. split; [apply Hb0 | done].
    - cbn. by rewrite El.
    - intros j Hj Hjk Hvj. apply HDi. destruct (decide (b_dev (nodes s !!! k) = 1)) as [E1|E1]; [left|by right]. intros E.
      destruct (c_valid _ _ Hok j Hj Hvj) as [Hd1 [Hj0 _]]. apply Z2Nat.inj in E; [|done|done].
      apply Hjk. apply (c_uniq _ _ Hok); [done|done|lia|lia|done]. }
  split; [done|]. intros b Hb Hne. eapply (view_same s w); [done | done | exact Hok' | |].
  - intros _ E. by apply Hne.
  - intros Hj. rewrite HDi by (left; intros E; apply Hne; apply Z2Nat.inj in E; lia). symmetry. apply view_disk.
    intros j Hjn Hvj. destruct (decide (j = k)) as [->|Hjk]; [intros E; by apply Hne | by apply Hj].
Qed.

Lemma alter_eq (f g : buf -> buf) (k : nat) (l : list buf) : f (l !!! k) = g (l !!! k) -> alter f k l = alter g k l.
Proof.
  intros E. apply list_eq. intros j. rewrite !list_lookup_alter. case_decide; [|done]. subst j.
  rewrite list_lookup_total_alt in E. destruct (l !! k); [|done]. simpl in *. by rewrite E.
Qed.

Lemma alter_twice (f g : buf -> buf) (k : nat) (l : list buf) : alter f k (alter g k l) = alter (fun x => f (g x)) k l.
Proof. apply list_eq. intros j. rewrite !list_lookup_alter. repeat case_decide; try done. by destruct (l !! k). Qed.

(** the block of the buffer itself *)
Lemma held_view pid k v d x D lab :
  b_lock (nodes s !!! k) = Some pid -> (d = true -> v = true) -> v = true -> b_dev (nodes s !!! k) = 1 ->
  b_blockno (nodes s !!! k) < Z.of_nat (length (memdisk s)) ->
  length D = length (memdisk s) -> (forall i, i <> Z.to_nat (b_blockno (nodes s !!! k)) \/ b_dev (nodes s !!! k) <> 1 -> D !!! i = memdisk s !!! i) ->
  match lab with Some (c, e) => c = b_blockno (nodes s !!! k) /\ e = x | None => view s (b_blockno (nodes s !!! k)) = x end ->
  refines s lab (mkbc (alter (fun b => set_flags v d (with_data x b)) k (nodes s)) D) w.
Proof using Hok.
  intros El Hd Hv Hdev Hbn HD HDi Hlab. pose proof (held_in _ _ Hok _ _ El) as Hk.
  destruct (held_refines pid k v d x D) as [Hok' Hview]; try done. split; [done|]. split; [done|]. intros b Hb.
  destruct (decide (b = b_blockno (nodes s !!! k))) as [->|Hne].
  - assert (view (mkbc (alter (fun b => set_flags v d (with_data x b)) k (nodes s)) D) (b_blockno (nodes s !!! k)) = x) as ->.
    { assert (alter (fun b => set_flags v d (with_data x b)) k (nodes s) !!! k = set_flags v d (with_data x (nodes s !!! k))) as U.
      { rewrite alter_at by (rewrite (nodes_len _ _ Hok); lia). by rewrite decide_True. }
      rewrite (view_at _ _ Hok' k); cbn [nodes]; by rewrite ?U. }
    destruct lab as [[c e]|]; [|done]. destruct Hlab as [-> ->]. by rewrite decide_True.
  - rewrite Hview by done. destruct lab as [[c e]|]; [|done]. destruct Hlab as [-> ->]. by rewrite decide_False.
Qed.

Lemma iderw_read_refines pid k s' : b_valid (nodes s !!! k) = false -> iderw pid k s = Ok (tt, s') -> refines s None s' w.
Proof using Hok.
  intros Hv E. unfold iderw, holdingsleep, node, gets, get, mbind, M_bind, mret, M_ret in E.
  case_bool_decide as El; [|done]. cbn [negb] in E. rewrite Hv in E. cbn [andb] in E.
  destruct (Z.eqb_spec (b_dev (nodes s !!! k)) 1) as [Hdev|]; [|done]. cbn [negb] in E.
  destruct (Z.leb_spec (Z.of_nat (length (memdisk s))) (b_blockno (nodes s !!! k))); [done|].
  pose proof (held_in _ _ Hok _ _ El) as Hk. pose proof (c_block _ _ Hok k Hk) as Hb0.
  destruct (b_dirty (nodes s !!! k)) eqn:Hd; [by rewrite (c_dirty _ _ Hok k Hk Hd) in Hv|]. apply upd_eq in E as ->.
  eapply held_view; try done. apply view_disk. intros j Hj Hvj E. destruct (c_valid _ _ Hok j Hj Hvj) as [Hdj _].
  assert (j = k) as -> by (apply (c_uniq _ _ Hok); lia || congruence). congruence.
Qed.

Lemma store_refines pid k d s' : b_lock (nodes s !!! k) = Some pid -> b_valid (nodes s !!! k) = true ->
  upd k (with_data d) s = Ok (tt, s') -> refines s (Some (b_blockno (nodes s !!! k), d)) s' w.
Proof using Hok.
  intros El Hv E. apply upd_eq in E as ->. pose proof (held_in _ _ Hok _ _ El) as Hk. destruct (c_valid _ _ Hok k Hk Hv) as [Hdev [_ Hbn]].
  rewrite (alter_eq _ (fun b => set_flags true (b_dirty (nodes s !!! k)) (with_data d b))) by (unfold set_flags, with_data; cbn; by rewrite Hv).
  by eapply held_view.
Qed.

Lemma dirty_refines pid k s' : b_lock (nodes s !!! k) = Some pid -> b_valid (nodes s !!! k) = true ->
  upd k (set_flags true true) s = Ok (tt, s') -> refines s None s' w.
Proof using Hok.
  intros El Hv E. apply upd_eq in E as ->. pose proof (held_in _ _ Hok _ _ El) as Hk. destruct (c_valid _ _ Hok k Hk Hv) as [Hdev [_ Hbn]].
  rewrite (alter_eq _ (fun b => set_flags true true (with_data (b_data (nodes s !!! k)) b))) by done.
  eapply held_view; try done. by apply (view_at _ _ Hok).
Qed.

Lemma write_refines pid k s' : b_valid (nodes s !!! k) = true -> bwrite pid k s = Ok (tt, s') -> refines s None s' w.
Proof using Hok.
  intros Hv E. unfold bwrite, holdingsleep, node, gets, mbind, M_bind, mret, M_ret in E.
  case_bool_decide as El; [|done]. cbn [negb] in E. unfold upd at 1, modify in E.
  pose proof (held_in _ _ Hok _ _ El) as Hk. destruct (c_valid _ _ Hok k Hk Hv) as [Hdev [Hb0 Hbn]].
  unfold iderw, holdingsleep, node, gets, get, mbind, M_bind, mret, M_ret in E. cbn [nodes memdisk] in E.
  rewrite !alter_at, !decide_True in E by (done || (rewrite (nodes_len _ _ Hok); lia)). cbn [b_lock set_flags b_valid b_dirty b_dev b_blockno] in E.
  rewrite El, Hv, Hdev, bool_decide_eq_true_2 in E by done. cbn [negb andb] in E. change (1 =? 1) with true in E. cbn [negb] in E.
  destruct (Z.leb_spec (Z.of_nat (length (memdisk s))) (b_blockno (nodes s !!! k))); [lia|].
  unfold upd, modify in E. cbn [nodes memdisk] in E. injection E as <-. rewrite alter_twice.
  rewrite (alter_eq _ (fun b => set_flags true false (with_data (b_data (nodes s !!! k)) b))) by done.
  eapply held_view; try done.
  - apply length_insert.
  - intros i [Hi|Hi]; [|done]. by apply list_lookup_total_insert_ne.
  - by apply (view_at _ _ Hok).
Qed.
End Step.

(** ** Letting a buffer go *)

Lemma alter_payload f (k : nat) (l : list buf) (j : nat) : (forall x, payload (f x) = payload x) -> payload (alter f k l !!! j) = payload (l !!! j).
Proof.
  intros Hf. rewrite !list_lookup_total_alt, list_lookup_alter. case_decide; [|done]. subst j. destruct (l !! k); [apply Hf|done].
Qed.
Lemma unlink_payload b l j : payload (unlink b l !!! j) = payload (l !!! j).
Proof. unfold unlink. cbv zeta. by rewrite !alter_payload. Qed.
Lemma link_front_payload b l j : payload (link_front b l !!! j) = payload (l !!! j).
Proof. unfold link_front. cbv zeta. by rewrite !alter_payload. Qed.

(** only the order of the buffers changes *)
Lemma move_refines s w l : cache_ok s w -> (exists o, mru l o) -> (forall j, payload (l !!! j) = payload (nodes s !!! j)) ->
  refines s None (mkbc l (memdisk s)) w.
Proof.
  intros Hok Hm Hp.
  assert (forall j, b_valid (l !!! j) = b_valid (nodes s !!! j) /\ b_dirty (l !!! j) = b_dirty (nodes s !!! j) /\
    b_dev (l !!! j) = b_dev (nodes s !!! j) /\ b_blockno (l !!! j) = b_blockno (nodes s !!! j) /\ b_lock (l !!! j) = b_lock (nodes s !!! j) /\
    b_refcnt (l !!! j) = b_refcnt (nodes s !!! j) /\ b_data (l !!! j) = b_data (nodes s !!! j)) as P.
  { intros j. specialize (Hp j). unfold payload in Hp. by simplify_eq. }
  assert (cache_ok (mkbc l (memdisk s)) w) as Hok'.
  { destruct Hok as [A R W N V B T C H]. split; cbn [nodes memdisk]; try done.
    - intros k Hk. destruct (P k) as (_ & _ & _ & _ & -> & -> & _). by apply R.
    - intros i j Hi Hj. destruct (P i) as (_ & _ & -> & -> & _). destruct (P j) as (_ & _ & -> & -> & _). by apply N.
    - intros k Hk. destruct (P k) as (-> & _ & -> & -> & _). by apply V.
    - intros k Hk. destruct (P k) as (_ & _ & _ & -> & _). by apply B.
    - intros k Hk. destruct (P k) as (-> & -> & _). by apply T.
    - intros k Hk. destruct (P k) as (-> & -> & _ & -> & -> & _ & ->). by apply C.
    - destruct (P HEAD) as (_ & _ & _ & _ & -> & _). done. }
  split; [done|]. split; [done|]. intros b _. destruct (view_cases s b) as [(k & Hk & Hv & Hb)|Hn].
  - rewrite (view_at _ _ Hok k b) by done. destruct (P k) as (Ev & _ & _ & Eb & _ & _ & Ed). rewrite <- Ed.
    apply (view_at _ _ Hok'); cbn [nodes]; congruence.
  - rewrite !view_disk; [done | done |]. intros k Hk. cbn [nodes]. destruct (P k) as (-> & _ & _ & -> & _). by apply Hn.
Qed.

Lemma move_mru l o b : mru l o -> (b < NBUF)%nat -> exists o1 o2, o = o1 ++ b :: o2 /\ mru (link_front b (unlink b l)) (b :: o1 ++ o2).
Proof.
  intros Hm Hb. pose proof (mru_nodup _ _ Hm) as Hnd. apply (mru_elem _ _ _ Hm) in Hb as Hin.
  apply list_elem_of_split in Hin as (o1 & o2 & ->). exists o1, o2. split; [done|].
  assert (forall k, k ∈ o1 ++ b :: o2 -> (k < NBUF)%nat) as Hlt by (intros k; by rewrite (mru_elem _ _ _ Hm)).
  destruct (unlink_linked l o1 b o2 (mru_len _ _ Hm) Hnd Hlt (mru_linked _ _ Hm)) as [H1 H2].
  assert (NoDup (b :: o1 ++ o2)) as Hnd' by (by rewrite Permutation_middle). apply NoDup_cons in Hnd' as [Hbo Hnd'].
  destruct (link_front_linked (unlink b l) (o1 ++ o2) b) as [H3 H4]; try done.
  - intros k Hk. apply Hlt. rewrite <- Permutation_middle. apply elem_of_cons. by right.
  - split; [done | done |]. rewrite Permutation_middle. apply Hm.
Qed.

Lemma rel_refines s w pid k s' : cache_ok s w ->
  (b_valid (nodes s !!! k) = true -> b_dirty (nodes s !!! k) = false -> b_data (nodes s !!! k) = memdisk s !!! Z.to_nat (b_blockno (nodes s !!! k))) ->
  brelse pid k s = Ok (tt, s') -> refines s None s' w.
Proof.
  intros Hok Hcl E. unfold brelse, releasesleep, upd, holdingsleep, node, modify, gets, mbind, M_bind, mret, M_ret in E.
  case_bool_decide as El; [|done]. cbn [negb nodes memdisk] in E. pose proof (held_in _ _ Hok _ _ El) as Hk.
  rewrite alter_twice in E. set (f := fun x => set_refcnt (u32 (b_refcnt (set_lock None x) - 1)) (set_lock None x)) in E.
  rewrite alter_at, decide_True in E by (done || (rewrite (nodes_len _ _ Hok); lia)).
  pose proof (c_ref _ _ Hok k Hk) as Hr. rewrite El in Hr. pose proof (occ_nonneg k w). pose proof (occ_length k w). pose proof (c_wait _ _ Hok) as [Hw HW].
  assert (b_refcnt (f (nodes s !!! k)) = occ k w) as Er by (cbn; rewrite u32_small; lia).
  assert (cache_ok (mkbc (alter f k (nodes s)) (memdisk s)) w) as Hok1.
  { apply (cache_upd s w); try done.
    - rewrite Er. cbn. lia.
    - intros j Hj Hjk H1 H2 H3. apply Hjk. symmetry. by apply (c_uniq _ _ Hok).
    - by apply (c_valid _ _ Hok).
    - by apply (c_block _ _ Hok).
    - by apply (c_dirty _ _ Hok). }
  assert (refines s None (mkbc (alter f k (nodes s)) (memdisk s)) w) as Hr1.
  { split; [done|]. split; [done|]. intros b _. by eapply (view_keep s w). }
  destruct (_ =? 0); [|by injection E as <-]. injection E as <-. destruct Hr1 as (_ & _ & Hv1).
  destruct (c_mru _ _ Hok1) as [o Ho]. destruct (move_mru _ o k Ho Hk) as (o1 & o2 & _ & Hm).
  destruct (move_refines (mkbc (alter f k (nodes s)) (memdisk s)) w (link_front k (unlink k (alter f k (nodes s))))) as (H1 & H2 & H3); try done.
  - by eexists.
  - intros j. by rewrite link_front_payload, unlink_payload.
  - split; [done|]. split; [done|]. intros b Hb. rewrite H3 by done. by apply Hv1.
Qed.

Lemma bstep_refines s w lab s' w' : cache_ok s w -> bstep (s, w) lab (s', w') -> refines s lab s' w'.
Proof.
  intros Hok H. inversion H; subst.
  - by eapply get_refines.
  - by eapply lock_refines.
  - by eapply iderw_read_refines.
  - by eapply store_refines.
  - by eapply dirty_refines.
  - by eapply write_refines.
  - by eapply rel_refines.
Qed.

(** ** What the cache promises *)

(** the buffers at boot, zero but for the list *)
Definition boot (disk : list (list Z)) : bcache := mkbc (binit_list (replicate (S NBUF) inhabitant)) disk.

Lemma boot_payload disk j : payload (nodes (boot disk) !!! j) = payload inhabitant.
Proof.
  cbn [nodes boot]. unfold binit_list. generalize (seq 0 NBUF) as bs. intros bs.
  assert (forall l, (forall j, payload (l !!! j) = payload inhabitant) ->
    forall j, payload (foldl (fun l b => link_front b (alter (set_lock None) b l)) l bs !!! j) = payload inhabitant) as Hfold.
  { induction bs as [|b bs IH]; intros l Hl i; [apply Hl|]. cbn [foldl]. apply IH. intros i'. rewrite link_front_payload.
    rewrite !list_lookup_total_alt, list_lookup_alter. case_decide; [|rewrite <- list_lookup_total_alt; apply Hl]. subst i'.
    specialize (Hl b). rewrite list_lookup_total_alt in Hl. destruct (l !! b) as [x|]; [|done].
    change (payload inhabitant) with (false, false, 0, 0, @None Z, 0, @nil Z) in *. unfold payload in *. cbn in *. injection Hl. congruence. }
  apply Hfold. intros i. rewrite !alter_payload by done. destruct (decide (i < S NBUF)%nat).
  - by rewrite lookup_total_replicate_2.
  - by rewrite list_lookup_total_alt, lookup_ge_None_2 by (rewrite length_replicate; lia).
Qed.

#[local] Opaque binit_list.

Lemma payload_zero x : payload x = payload inhabitant ->
  b_valid x = false /\ b_dirty x = false /\ b_dev x = 0 /\ b_blockno x = 0 /\ b_lock x = None /\ b_refcnt x = 0.
Proof. intros [= -> -> -> -> -> -> _]. done. Qed.

Lemma zero_ok l disk : (exists o, mru l o) -> (forall j, payload (l !!! j) = payload inhabitant) -> cache_ok (mkbc l disk) [].
Proof.
  intros Hm Hp. pose proof (fun j => payload_zero _ (Hp j)) as P. split; cbn [nodes memdisk].
  - exact Hm.
  - intros k _. by destruct (P k) as (_ & _ & _ & _ & -> & ->).
  - done.
  - intros i j _ _ Hd. by destruct (P i) as (_ & _ & E & _).
  - intros k _. by destruct (P k) as (-> & _).
  - intros k _. by destruct (P k) as (_ & _ & _ & -> & _).
  - intros k _. by destruct (P k) as (_ & -> & _).
  - intros k _ _. by destruct (P k) as (-> & _).
  - by destruct (P HEAD) as (_ & _ & _ & _ & -> & _).
Qed.

Lemma boot_ok disk : cache_ok (boot disk) [].
Proof.
  unfold boot. apply zero_ok; [|exact (boot_payload disk)]. exists (rev (seq 0 NBUF)). apply binit_mru. apply length_replicate.
Qed.

Inductive bruns : bcache * list nat -> list (Z * list Z) -> bcache * list nat -> Prop :=
| bruns_nil x : bruns x [] x
| bruns_step x lab y tr z : bstep x lab y -> bruns y tr z -> bruns x (option_list lab ++ tr) z.

(** block [b] of a disk that held [v] after the changes [tr] *)
Definition stored (tr : list (Z * list Z)) (b : Z) (v : list Z) : list Z :=
  foldl (fun v x => if decide (x.1 = b) then x.2 else v) v tr.

Lemma bruns_refines x tr y : bruns x tr y -> cache_ok x.1 x.2 ->
  cache_ok y.1 y.2 /\ length (memdisk y.1) = length (memdisk x.1) /\
  forall b, 0 <= b < Z.of_nat (length (memdisk x.1)) -> view y.1 b = stored tr b (view x.1 b).
Proof.
  induction 1 as [x|[s w] lab [s1 w1] tr z Hs _ IH]; intros Hok; [done|].
  destruct (bstep_refines _ _ _ _ _ Hok Hs) as (H1 & H2 & H3). destruct (IH H1) as (H4 & H5 & H6). cbn [fst snd] in *.
  split; [done|]. split; [congruence|]. intros b Hb. rewrite H6 by (by rewrite H2). rewrite H3 by done.
  destruct lab as [[c d]|]; [|done]. cbn. by case_decide.
Qed.

(** C14: The cache and the disk behave as one map from block numbers to contents,
    for every interleaving of processes: recycling a buffer never loses a change,
    whoever holds a buffer that was read sees the last change to its block, and a
    block whose buffer is neither held nor dirty is on the disk. *)
Theorem cache_refines_disk disk tr s w :
  bruns (boot disk, []) tr (s, w) ->
  (forall b, 0 <= b < Z.of_nat (length disk) -> view s b = stored tr b (disk !!! Z.to_nat b)) /\
  (forall pid k, b_lock (nodes s !!! k) = Some pid -> b_valid (nodes s !!! k) = true ->
     b_data (nodes s !!! k) = stored tr (b_blockno (nodes s !!! k)) (disk !!! Z.to_nat (b_blockno (nodes s !!! k)))) /\
  (forall b, 0 <= b < Z.of_nat (length disk) ->
     (forall k, (k < NBUF)%nat -> b_blockno (nodes s !!! k) = b -> b_lock (nodes s !!! k) = None /\ b_dirty (nodes s !!! k) = false) ->
     memdisk s !!! Z.to_nat b = stored tr b (disk !!! Z.to_nat b)).
Proof.
  intros Hr. destruct (bruns_refines _ _ _ Hr (boot_ok disk)) as (Hok & Hlen & Hview). cbn [fst snd] in *.
  assert (forall b, 0 <= b < Z.of_nat (length disk) -> view s b = stored tr b (disk !!! Z.to_nat b)) as Hv.
  { intros b Hb. rewrite Hview by done. rewrite (view_disk (boot disk) b); [done|]. intros k Hk Hvk. exfalso.
    destruct (payload_zero _ (boot_payload disk k)) as [E _]. congruence. }
  split_and!; [done | |].
  - intros pid k El Hvk. pose proof (held_in _ _ Hok _ _ El) as Hk. destruct (c_valid _ _ Hok k Hk Hvk) as [_ Hb]. rewrite Hlen in Hb.
    rewrite <- Hv by done. symmetry. by apply (view_at _ _ Hok).
  - intros b Hb Hn. rewrite <- Hv by done. destruct (view_cases s b) as [(k & Hk & Hvk & Eb)|Hnone].
    + destruct (Hn k Hk Eb) as [El Ed]. rewrite (view_at _ _ Hok k b) by done. rewrite (c_clean _ _ Hok) by done. by rewrite Eb.
    + symmetry. by apply view_disk.
Qed.

(** [bget] returns the buffer that caches the block if there is one; otherwise
    the least recently used buffer that is neither referred to nor dirty, every
    buffer used less recently being in use; and it panics exactly when the block
    is not cached and all buffers are in use. *)
Theorem bget_correct s o dev blockno :
  mru (nodes s) o ->
  let cached k := b_dev (nodes s !!! k) = dev /\ b_blockno (nodes s !!! k) = blockno in
  let unused k := b_refcnt (nodes s !!! k) = 0 /\ b_dirty (nodes s !!! k) = false in
  match bget_section dev blockno s with
  | Ok (k, s') =>
      k ∈ o /\ mru (nodes s') o /\ memdisk s' = memdisk s /\ b_dev (nodes s' !!! k) = dev /\ b_blockno (nodes s' !!! k) = blockno /\
      (forall j, j <> k -> nodes s' !!! j = nodes s !!! j) /\
      ((cached k /\ b_refcnt (nodes s' !!! k) = u32 (b_refcnt (nodes s !!! k) + 1) /\ b_valid (nodes s' !!! k) = b_valid (nodes s !!! k) /\
        b_data (nodes s' !!! k) = b_data (nodes s !!! k)) \/
       ((forall j, j ∈ o -> ~ cached j) /\ unused k /\ (exists o1 o2, o = o1 ++ k :: o2 /\ forall j, j ∈ o2 -> ~ unused j) /\
        b_refcnt (nodes s' !!! k) = 1 /\ b_valid (nodes s' !!! k) = false))
  | Panic msg => (forall j, j ∈ o -> ~ cached j /\ ~ unused j)
  | Block => False
  end.
Proof.
  intros Ho cached unused. destruct (mru_head _ _ Ho) as [HH Hfuel].
  assert (forall k, is_block (nodes s) dev blockno k = true <-> cached k) as Hc.
  { intros k. unfold is_block, cached. rewrite andb_true_iff, !Z.eqb_eq. done. }
  assert (forall k, is_unused (nodes s) k = true <-> unused k) as Hu.
  { intros k. unfold is_unused, unused. rewrite andb_true_iff, Z.eqb_eq, negb_true_iff. done. }
  assert (forall p q (k : nat), (p k = true <-> q k) -> p k = false -> ~ q k) as Hneg by (intros p q k E1 E2 Hq; apply E1 in Hq; congruence).
  unfold bget_section, get, mbind, M_bind. rewrite (find_cached_first _ _ _ o), (find_unused_first _ o) by (done || apply Ho).
  destruct (first (is_block _ dev blockno) o) as [k|] eqn:Ec.
  - apply first_Some in Ec as [Hk Ec]. apply Hc in Ec. apply (mru_elem _ _ _ Ho) in Hk as Hkn.
    assert (k < length (nodes s))%nat as Hkl by (rewrite (mru_len _ _ Ho); lia). cbn [upd modify mret M_ret nodes memdisk].
    rewrite alter_at, decide_True by done. split_and!; try done.
    + by apply alter_mru.
    + apply Ec.
    + apply Ec.
    + intros j Hj. by rewrite alter_at, decide_False.
    + by left.
  - destruct (first (is_unused _) (rev o)) as [k|] eqn:Eu; cbn [upd modify mret M_ret nodes memdisk panic].
    + assert (exists o1 o2, o = o1 ++ k :: o2 /\ forall j, j ∈ o2 -> is_unused (nodes s) j = false) as (o1 & o2 & Eo & Hlast).
      { clear -Eu. induction o as [|y o IH] using rev_ind; [done|]. rewrite rev_app_distr in Eu. cbn [rev app first] in Eu.
        destruct (is_unused _ y) eqn:E.
        - injection Eu as <-. exists o, []. split; [done|]. intros j Hj. by apply elem_of_nil in Hj.
        - destruct (IH Eu) as (o1 & o2 & -> & Hl). exists o1, (o2 ++ [y]). split; [by rewrite <- app_assoc|].
          intros j [Hj|Hj]%elem_of_app; [by apply Hl|]. apply list_elem_of_singleton in Hj. by subst. }
      apply first_Some in Eu as [Hk Eu]. assert (k ∈ o) as Hko by (by rewrite Permutation_rev). apply (mru_elem _ _ _ Ho) in Hko as Hkn.
      assert (k < length (nodes s))%nat as Hkl by (rewrite (mru_len _ _ Ho); lia). rewrite alter_at, decide_True by done. split_and!; try done.
      * by apply alter_mru.
      * intros j Hj. by rewrite alter_at, decide_False.
      * right. split_and!; try done.
        { intros j Hj. eapply Hneg; [apply Hc|]. rewrite first_None in Ec. by apply Ec. }
        { by apply Hu. }
        exists o1, o2. split; [done|]. intros j Hj. eapply Hneg; [apply Hu|]. by apply Hlast.
    + rewrite first_None in Ec, Eu. intros j Hj. split.
      * eapply Hneg; [apply Hc | by apply Ec].
      * eapply Hneg; [apply Hu|]. apply Eu. by rewrite <- Permutation_rev.
Qed.

#[local] Transparent binit_list.

(** ** A run: block 1 of a disk of two is read, changed, written and let go *)

Definition demo_disk : list (list Z) := [[7]; [8]].
Definition demo_1 : bcache := final (bget_section 1 1) (boot demo_disk).
Definition demo_2 : bcache := final (acquiresleep 5 0) demo_1.
Definition demo_3 : bcache := final (iderw 5 0) demo_2.
Definition demo_4 : bcache := final (upd 0 (with_data [9])) demo_3.
Definition demo_5 : bcache := final (bwrite 5 0) demo_4.
Definition demo_6 : bcache := final (brelse 5 0) demo_5.

Lemma demo_run : bruns (boot demo_disk, []) [(1, [9])] (demo_6, []).
Proof.
  change [(1, [9])] with (option_list (@None (Z * list Z)) ++ option_list (@None (Z * list Z)) ++ option_list (@None (Z * list Z)) ++
    option_list (Some (1, [9])) ++ option_list (@None (Z * list Z)) ++ option_list (@None (Z * list Z)) ++ []).
  eapply bruns_step; [apply (B_get _ _ 1 1 0 demo_1); [lia | lia | cbn; lia | by vm_compute]|].
  eapply bruns_step; [apply (B_lock _ _ [] 5 0 demo_2); [reflexivity | by vm_compute]|].
  eapply bruns_step; [apply (B_read _ _ 5 0 demo_3); by vm_compute|].
  assert (b_blockno (nodes demo_3 !!! 0%nat) = 1) as <- by (by vm_compute).
  eapply bruns_step; [apply (B_store _ _ 5 0 [9] demo_4); by vm_compute|].
  eapply bruns_step; [apply (B_write _ _ 5 0 demo_5); by vm_compute|].
  eapply bruns_step; [apply (B_rel _ _ 5 0 demo_6); by vm_compute|]. apply bruns_nil.
Qed.

Lemma cache_refines_disk_witness : memdisk demo_6 !!! Z.to_nat 1 = [9].
Proof.
  destruct (cache_refines_disk demo_disk [(1, [9])] demo_6 [] demo_run) as (_ & _ & H).
  specialize (H 1). rewrite H; [done | simpl; lia |]. intros k Hk _.
  assert (forallb (fun k => bool_decide (b_lock (nodes demo_6 !!! k) = None) && negb (b_dirty (nodes demo_6 !!! k))) (seq 0 NBUF) = true) as Hall by (by vm_compute).
  rewrite forallb_forall in Hall. specialize (Hall k ltac:(apply in_seq; lia)).
  apply andb_true_iff in Hall as [E1%bool_decide_eq_true E2%negb_true_iff]. by split.
Defined.

Lemma bget_correct_witness : exists k s', bget_section 1 1 (boot demo_disk) = Ok (k, s') /\ b_blockno (nodes s' !!! k) = 1.
Proof.
  assert (mru (nodes (boot demo_disk)) (rev (seq 0 NBUF))) as Hm by (apply binit_mru, length_replicate).
  pose proof (bget_correct (boot demo_disk) _ 1 1 Hm) as H. cbv zeta in H.
  destruct (bget_section 1 1 (boot demo_disk)) as [[k s']|msg|].
  - exists k, s'. split; [done | apply H].
  - exfalso. destruct (H 0%nat) as [_ H0]; [rewrite <- Permutation_rev; apply elem_of_seq; unfold NBUF; lia|]. apply H0. by vm_compute.
  - done.
Defined.
