(* ===== verification/Umalloc.v ===== *)
(** * The memory allocator of user programs ([umalloc.c])

    [malloc] and [free] on a circular list of free blocks in the order of their
    addresses.  A block starts with a [Header] of 8 bytes; [Header *] pointers are
    multiples of 8 and are given in units of a header, so that pointer arithmetic
    is modulo 2^29.  The static [base] is at [BASE], below the heap.  [room] is
    how far the kernel lets the process grow. *)

From stdpp Require Import sorting.
From S2P Require Import Prelude.

Definition HDR : Z := 8.

(** a [Header]: [s.ptr] and [s.size] *)
Record header : Type := mkheader { h_ptr : Z; h_size : Z }.
#[export] Instance header_inhabited : Inhabited header := populate (mkheader 0 0).

(** the headers in memory, [freep] (0 is the null pointer), and the size of the
    process in bytes *)
Record heap : Type := mkheap { hdr : gmap Z header; freep : Z; brk : Z; room : Z }.

Definition ptr (a : Z) (s : heap) : Z := h_ptr (hdr s !!! a).
Definition size_of (a : Z) (s : heap) : Z := h_size (hdr s !!! a).
Definition set_ptr (a p : Z) : M heap unit :=
  modify (fun s => mkheap (<[a := mkheader p (size_of a s)]> (hdr s)) (freep s) (brk s) (room s)).
Definition set_size (a n : Z) : M heap unit :=
  modify (fun s => mkheap (<[a := mkheader (ptr a s) n]> (hdr s)) (freep s) (brk s) (room s)).
Definition set_freep (p : Z) : M heap unit := modify (fun s => mkheap (hdr s) p (brk s) (room s)).
Definition set_brk (b : Z) : M heap unit := modify (fun s => mkheap (hdr s) (freep s) b (room s)).

(** [p + n] on pointers to headers *)
Definition padd (p n : Z) : Z := (p + n) mod 2 ^ 29.

(** [sbrk] as the kernel does it: [None] is -1 *)
Definition sbrk (n : Z) : M heap (option Z) :=
  s ← get;
  if 0 <? n then
    if brk s + n <=? room s then set_brk (brk s + n) ;; mret (Some (brk s)) else mret None
  else if n <? 0 then
    let newsz := u32 (brk s + n) in
    if brk s <=? newsz then mret (Some (brk s))
    else if newsz =? 0 then mret None
    else set_brk newsz ;; mret (Some (brk s))
  else mret (Some (brk s)).

Section Alloc.
Variable BASE : Z.

(** the search of [free] for the block before [bp] *)
Fixpoint find_prev (fuel : nat) (s : heap) (bp p : Z) : option Z :=
  match fuel with
  | O => None
  | S fuel' =>
      if (p <? bp) && (bp <? ptr p s) then Some p
      else if (ptr p s <=? p) && ((p <? bp) || (bp <? ptr p s)) then Some p
      else find_prev fuel' s bp (ptr p s)
  end.

(** the two [if]s of [free]: [bp] is joined to the block above, and to the block
    below *)
Definition join_upper (bp p : Z) : M heap unit :=
  s ← get;
  if padd bp (size_of bp s) =? ptr p s then
    set_size bp (u32 (size_of bp s + size_of (ptr p s) s)) ;;
    s ← get;
    set_ptr bp (ptr (ptr p s) s)
  else set_ptr bp (ptr p s).
Definition join_lower (bp p : Z) : M heap unit :=
  s ← get;
  if padd p (size_of p s) =? bp then
    set_size p (u32 (size_of p s + size_of bp s)) ;;
    s ← get;
    set_ptr p (ptr bp s)
  else set_ptr p bp.

(** [free]; twice the number of headers is more than the search needs *)
Definition free (ap : Z) : M heap unit :=
  let bp := padd ap (-1) in
  s ← get;
  match find_prev (2 * size (hdr s) + 2) s bp (freep s) with
  | None => block
  | Some p =>
      join_upper bp p ;;
      join_lower bp p ;;
      set_freep p
  end.

(** [morecore]; 0 is the null pointer *)
Definition morecore (nu : Z) : M heap Z :=
  let nu := if nu <? 4096 then 4096 else nu in
  p ← sbrk (i32 (u32 (nu * HDR)));
  match p with
  | None => mret 0
  | Some p =>
      let hp := p / HDR in
      set_size hp nu ;;
      free (padd hp 1) ;;
      s ← get;
      mret (freep s)
  end.

(** a block that is big enough, with its predecessor: the end of it is taken *)
Definition take_block (nunits prevp p : Z) : M heap Z :=
  s ← get;
  p ← (if size_of p s =? nunits then set_ptr prevp (ptr p s) ;; mret p
       else
         set_size p (u32 (size_of p s - nunits)) ;;
         s ← get;
         let p := padd p (size_of p s) in
         set_size p nunits ;;
         mret p);
  set_freep prevp ;;
  mret (padd p 1).

(** the loop of [malloc]; 0 is the null pointer *)
Fixpoint malloc_loop (fuel : nat) (nunits prevp p : Z) : M heap Z :=
  match fuel with
  | O => block
  | S fuel' =>
      s ← get;
      if nunits <=? size_of p s then take_block nunits prevp p
      else if p =? freep s then
        p ← morecore nunits;
        if p =? 0 then mret 0
        else s ← get; malloc_loop fuel' nunits p (ptr p s)
      else malloc_loop fuel' nunits p (ptr p s)
  end.

Definition nunits_of (nbytes : Z) : Z := u32 (u32 (nbytes + HDR - 1) / HDR + 1).

Definition malloc (nbytes : Z) : M heap Z :=
  let nunits := nunits_of nbytes in
  s ← get;
  (if freep s =? 0 then set_ptr BASE BASE ;; set_freep BASE ;; set_size BASE 0 else mret tt) ;;
  s ← get;
  malloc_loop (2 * size (hdr s) + 6) nunits (freep s) (ptr (freep s) s).

(** ** The free list *)

Fixpoint linked (P : Z -> Z) (c : list Z) : Prop :=
  match c with
  | x :: (y :: _) as c' => P x = y /\ linked P c'
  | _ => True
  end.

Lemma chain_cons P x y c : linked P (x :: y :: c) <-> P x = y /\ linked P (y :: c).
Proof. done. Qed.

Lemma chain_app P a x b : linked P (a ++ x :: b) <-> linked P (a ++ [x]) /\ linked P (x :: b).
Proof.
  induction a as [|y a IH]; [simpl; tauto|]. destruct a as [|z a]; [cbn [app] in *; rewrite !chain_cons; simpl; tauto|].
  cbn [app] in *. rewrite !chain_cons, IH. tauto.
Qed.

Lemma chain_ext P P' c : (forall x, x ∈ removelast c -> P' x = P x) -> linked P c -> linked P' c.
Proof.
  induction c as [|x [|y c] IH]; intros HP Hl; try done. rewrite chain_cons in *. destruct Hl as [E Hl]. split.
  - rewrite HP; [done | apply elem_of_cons; by left].
  - apply IH; [|done]. intros z Hz. apply HP. change (z ∈ x :: removelast (y :: c)). apply elem_of_cons. by right.
Qed.

(** the predecessor in the list *)
Lemma linked_pred P l x r a : linked P (l ++ x :: r) -> NoDup (tail (l ++ x :: r)) -> l <> [] ->
  a ∈ removelast (l ++ x :: r) -> P a = x -> last l = Some a.
Proof.
  intros Hl Hnd Hne Ha E. destruct (exists_last Hne) as (l' & b & ->). rewrite last_snoc. f_equal.
  rewrite <- app_assoc in *. cbn [app] in *.
  assert (forall c i u v, linked P c -> c !! i = Some u -> c !! S i = Some v -> P u = v) as Hlook.
  { clear. induction c as [|y [|z c] IH]; intros [|i] u v Hc Hu Hv; try done; apply chain_cons in Hc as [E Hc].
    - simpl in *. congruence.
    - by apply (IH i u v Hc). }
  set (c := l' ++ b :: x :: r) in *.
  apply list_elem_of_lookup in Ha as [i Hi].
  assert (i < length (removelast c))%nat as Hlt by (by eapply lookup_lt_Some).
  assert (c <> []) as Hc by (unfold c; by destruct l'). destruct (exists_last Hc) as (c' & z & Ec).
  rewrite Ec, removelast_last in Hi, Hlt. assert (c !! i = Some a) as Hci by (rewrite Ec, lookup_app_l; done).
  destruct (lookup_lt_is_Some_2 c (S i)) as [v Hv]; [rewrite Ec, length_app; simpl; lia|].
  pose proof (Hlook c i a v Hl Hci Hv) as Ev. assert (v = x) as -> by congruence.
  assert (c !! length l' = Some b) as Hb by (unfold c; by rewrite list_lookup_middle).
  assert (c !! S (length l') = Some x) as Hx by (unfold c; rewrite lookup_app_r by lia; by replace (S (length l') - length l')%nat with 1%nat by lia).
  assert (tail c !! i = Some x /\ tail c !! length l' = Some x) as [H1 H2] by (destruct c; done).
  pose proof (NoDup_lookup _ _ _ _ Hnd H1 H2) as ->. congruence.
Qed.

(** ** The search of [free] *)

Lemma find_prev_up s bp : forall v x fuel, linked (fun a => ptr a s) (x :: v ++ [BASE]) -> x < bp -> bp ∉ v -> BASE < bp -> BASE <= x ->
  StronglySorted Z.lt (x :: v) -> (length v < fuel)%nat ->
  exists v1 v2, x :: v = v1 ++ v2 /\ find_prev fuel s bp x = last v1 /\ v1 <> [] /\ Forall (fun a => a < bp) v1 /\ Forall (fun a => bp < a) v2.
Proof.
  induction v as [|y v IH]; intros x [|fuel] Hl Hx Hn HB HBx Hs Hf; simpl in Hf; try lia; cbn [find_prev].
  - cbn [app] in Hl. apply chain_cons in Hl as [-> _]. exists [x], []. split; [done|].
    destruct (Z.ltb_spec x bp); [|lia]. destruct (Z.ltb_spec bp BASE); [lia|]. destruct (Z.leb_spec BASE x); [|lia]. cbn.
    split; [done|]. split; [done|]. by repeat constructor.
  - cbn [app] in Hl. apply chain_cons in Hl as [-> Hl]. apply not_elem_of_cons in Hn as [Hny Hn].
    inversion Hs as [|? ? Hs' Hall]; subst. pose proof (Forall_inv Hall) as Hxy. cbv beta in Hxy.
    destruct (Z.ltb_spec x bp); [|lia]. destruct (Z.ltb_spec bp y).
    + exists [x], (y :: v). cbn. split; [done|]. split; [done|]. split; [done|]. split; [by repeat constructor|].
      constructor; [done|]. inversion Hs' as [|? ? _ Hall']; subst. eapply Forall_impl; [exact Hall'|]. intros; simpl in *; lia.
    + cbn [andb orb]. destruct (Z.leb_spec y x); [lia|]. cbn [andb].
      destruct (IH y fuel Hl ltac:(lia) Hn HB ltac:(lia) Hs' ltac:(lia)) as (v1 & v2 & E & Ef & Hne & A1 & A2).
      exists (x :: v1), v2. rewrite E. split; [done|]. rewrite Ef. destruct v1 as [|z v1]; [done|]. split; [done|]. split; [done|].
      split; [by constructor | done].
Qed.

Lemma find_prev_S fuel s bp p : find_prev (S fuel) s bp p =
  if (p <? bp) && (bp <? ptr p s) then Some p
  else if (ptr p s <=? p) && ((p <? bp) || (bp <? ptr p s)) then Some p
  else find_prev fuel s bp (ptr p s).
Proof. done. Qed.

Lemma find_prev_down s bp : forall v x fuel, linked (fun a => ptr a s) (x :: v ++ [BASE]) -> bp < x -> BASE < bp ->
  StronglySorted Z.lt (x :: v) -> find_prev (S (length v) + fuel) s bp x = find_prev fuel s bp BASE.
Proof.
  induction v as [|y v IH]; intros x fuel Hl Hx HB Hs; cbn [length]; rewrite Nat.add_succ_l, find_prev_S; cbn [app] in Hl;
    apply chain_cons in Hl as [-> Hl].
  - destruct (Z.ltb_spec x bp); [lia|]. destruct (Z.ltb_spec bp BASE); [lia|]. cbn [andb orb]. by rewrite andb_false_r.
  - inversion Hs as [|? ? Hs' Hall]; subst. pose proof (Forall_inv Hall) as Hxy. cbv beta in Hxy.
    destruct (Z.ltb_spec x bp); [lia|]. destruct (Z.leb_spec y x); [lia|]. cbn [andb orb].
    apply IH; [done | lia | done | done].
Qed.

(** ** The invariant

    [fl] lists the free blocks, with their sizes in units, from [BASE] on; [al]
    maps the blocks that the program has to their sizes. *)

Definition before (x y : Z * Z) : Prop := x.1 + Z.max 1 x.2 <= y.1.

Record heap_ok (s : heap) (fl : list (Z * Z)) (al : gmap Z Z) : Prop := {
  ho_base : exists rest, fl = (BASE, 0) :: rest;
  ho_linked : linked (fun a => ptr a s) (fl.*1 ++ [BASE]);
  ho_size a n : (a, n) ∈ fl -> size_of a s = n /\ is_Some (hdr s !! a);
  ho_sorted : StronglySorted before fl;
  ho_pos a n : (a, n) ∈ tail fl -> 1 <= n /\ a + n <= brk s / HDR;
  ho_freep : freep s ∈ fl.*1;
  ho_brk : brk s mod HDR = 0 /\ HDR * (BASE + 1) <= brk s <= room s /\ room s <= 2 ^ 31 /\ 0 < BASE;
  ho_al b n : al !! b = Some n -> size_of b s = n /\ 1 <= n /\ BASE < b /\ b + n <= brk s / HDR;
  ho_al_fl b n a m : al !! b = Some n -> (a, m) ∈ fl -> b + n <= a \/ a + Z.max 1 m <= b;
  ho_al_al b n b' n' : al !! b = Some n -> al !! b' = Some n' -> b <> b' -> b + n <= b' \/ b' + n' <= b
}.

Definition total (fl : list (Z * Z)) : Z := foldr (fun x n => x.2 + n) 0 fl.

Lemma total_app a b : total (a ++ b) = total a + total b.
Proof. induction a as [|x a IH]; simpl; [done|]. unfold total in *. lia. Qed.

Lemma sorted_lt fl : StronglySorted before fl -> StronglySorted Z.lt fl.*1.
Proof.
  induction 1 as [|x fl _ IH Hall]; cbn [fmap list_fmap]; constructor; [done|].
  apply Forall_fmap. eapply Forall_impl; [exact Hall|]. intros y Hy. unfold before in Hy. simpl. lia.
Qed.

Lemma sorted_nodup l : StronglySorted Z.lt l -> NoDup l.
Proof.
  induction 1 as [|x l _ IH Hall]; constructor; [|done]. intros Hin. rewrite Forall_forall in Hall. specialize (Hall x Hin). lia.
Qed.

Lemma total_cons x l : total (x :: l) = x.2 + total l.
Proof. done. Qed.

Section Heap.
Context (s : heap) (fl : list (Z * Z)) (al : gmap Z Z).
Hypothesis Hok : heap_ok s fl al.

Lemma fl_range a n : (a, n) ∈ fl -> BASE <= a < 2 ^ 28 /\ 0 <= n /\ a + n <= 2 ^ 28 /\ (a = BASE /\ n = 0 \/ BASE < a /\ 1 <= n).
Proof using Hok.
  intros Hin. destruct (ho_base _ _ _ Hok) as [rest E]. destruct (ho_brk _ _ _ Hok) as (Hm & [Hb1 Hb2] & Hr & HB).
  unfold HDR in *. rewrite E in Hin. apply elem_of_cons in Hin as [[= -> ->]|Hin].
  - Z.div_mod_to_equations. lia.
  - pose proof (ho_pos _ _ _ Hok a n) as Hp. rewrite E in Hp. specialize (Hp Hin). pose proof (ho_sorted _ _ _ Hok) as Hs.
    rewrite E in Hs. apply StronglySorted_cons in Hs as [Hall _]. rewrite Forall_forall in Hall. specialize (Hall _ Hin).
    unfold before, HDR in *. cbn in Hall. Z.div_mod_to_equations. lia.
Qed.

Lemma al_range b n : al !! b = Some n -> BASE < b < 2 ^ 28 /\ 1 <= n /\ b + n <= 2 ^ 28 /\ b ∉ fl.*1.
Proof using Hok.
  intros Hb. destruct (ho_al _ _ _ Hok b n Hb) as (_ & H1 & H2 & H3). destruct (ho_brk _ _ _ Hok) as (Hm & [Hb1 Hb2] & Hr & HB).
  unfold HDR in *. split_and!; try lia; try (Z.div_mod_to_equations; lia).
  intros ([a m] & Ea & Hin)%list_elem_of_fmap. cbn in Ea. subst a.
  pose proof (ho_al_fl _ _ _ Hok b n b m Hb Hin). lia.
Qed.

Lemma padd_small a n : 0 <= a + n < 2 ^ 29 -> padd a n = a + n.
Proof using. intros H. unfold padd. by apply Z.mod_small. Qed.

(** every free block is a header in memory *)
Lemma fl_length : (length fl <= size (hdr s))%nat.
Proof using Hok.
  assert (NoDup fl.*1) as Hnd by (by apply sorted_nodup, sorted_lt, Hok).
  rewrite <- (length_fmap fst fl), <- (size_list_to_set (C := gset Z) fl.*1) by done. rewrite <- size_dom. apply subseteq_size.
  intros a Ha. apply elem_of_list_to_set, list_elem_of_fmap in Ha as ([a' n] & -> & Hin). apply elem_of_dom.
  by apply (ho_size _ _ _ Hok a' n).
Qed.

(** the search of [free] ends with the neighbours of [bp] *)
Lemma find_prev_ok bp : bp ∉ fl.*1 -> BASE < bp -> exists l1 p n l2,
  fl = l1 ++ (p, n) :: l2 /\ find_prev (2 * size (hdr s) + 2) s bp (freep s) = Some p /\
  Forall (fun x => x.1 < bp) (l1 ++ [(p, n)]) /\ Forall (fun x => bp < x.1) l2.
Proof using Hok.
  intros Hbp HB. pose proof (sorted_lt _ (ho_sorted _ _ _ Hok)) as Hs. pose proof fl_length as Hlen. rewrite <- (length_fmap fst) in Hlen.
  pose proof (ho_linked _ _ _ Hok) as Hl. destruct (ho_base _ _ _ Hok) as [rest E].
  assert (exists v1 v2, fl.*1 = v1 ++ v2 /\ find_prev (2 * size (hdr s) + 2) s bp (freep s) = last v1 /\ v1 <> [] /\
    Forall (fun a => a < bp) v1 /\ Forall (fun a => bp < a) v2) as (v1 & v2 & Ev & Ef & Hne & H1 & H2).
  { assert (forall fuel, (length fl.*1 <= fuel)%nat -> exists v1 v2, fl.*1 = v1 ++ v2 /\ find_prev fuel s bp BASE = last v1 /\ v1 <> [] /\
      Forall (fun a => a < bp) v1 /\ Forall (fun a => bp < a) v2) as Hfrom.
    { intros fuel Hfu. rewrite E in *. cbn [fmap list_fmap fst app length] in *. apply find_prev_up; try done; try lia.
      by apply not_elem_of_cons in Hbp as [_ Hbp]. }
    destruct (list_elem_of_split _ _ (ho_freep _ _ _ Hok)) as (u & v & Euv). rewrite Euv in Hl, Hs, Hlen, Hbp.
    apply not_elem_of_app in Hbp as [_ [Hbf Hbv]%not_elem_of_cons]. rewrite length_app in Hlen. cbn [length] in Hlen.
    rewrite <- app_assoc in Hl. cbn [app] in Hl. apply chain_app in Hl as [_ Hl]. pose proof Hs as Hs0. apply StronglySorted_app in Hs as (_ & _ & Hs).
    destruct (Z.lt_trichotomy (freep s) bp) as [Hlt|[Heq|Hgt]]; [|congruence|].
    - assert (BASE <= freep s) as Hge.
      { pose proof (ho_freep _ _ _ Hok) as Hin. apply list_elem_of_fmap in Hin as ([a n] & -> & Hin). by apply fl_range in Hin as [[? _] _]. }
      destruct (find_prev_up s bp v (freep s) (2 * size (hdr s) + 2) Hl Hlt Hbv HB Hge Hs ltac:(lia)) as (v1 & v2 & Ev & Ef & Hne & H1 & H2).
      exists (u ++ v1), v2. rewrite Euv, Ev, <- app_assoc. split; [done|]. rewrite Ef.
      destruct (exists_last Hne) as (v1' & z & ->). rewrite app_assoc, !last_snoc. split; [done|]. split; [by destruct u, v1'|]. split; [|done].
      rewrite <- app_assoc. apply Forall_app. split; [|done]. apply Forall_forall. intros a Ha.
      apply StronglySorted_app in Hs0 as (Hs0 & _ & _). specialize (Hs0 a (freep s) Ha ltac:(apply elem_of_cons; by left)). lia.
    - replace (2 * size (hdr s) + 2)%nat with (S (length v) + (2 * size (hdr s) + 1 - length v))%nat by lia.
      rewrite find_prev_down by done. apply Hfrom. rewrite Euv, length_app. cbn [length]. lia. }
  destruct (exists_last Hne) as (v1' & p & ->). rewrite last_snoc in Ef.
  rewrite <- app_assoc in Ev. cbn [app] in Ev. apply fmap_app_inv in Ev as (l1 & l2' & -> & El2 & ->). 
  symmetry in El2. apply fmap_cons_inv in El2 as ([p' n] & l2 & -> & -> & ->). cbn [fst] in *.
  exists l1, p', n, l2. split; [done|]. split; [done|]. split.
  - change (Forall ((fun a => a < bp) ∘ fst) (l1 ++ [(p', n)])). apply Forall_fmap. by rewrite fmap_app.
  - change (Forall ((fun a => bp < a) ∘ fst) l2). by apply Forall_fmap.
Qed.
End Heap.

(** ** Replacing a stretch of the free list *)

Lemma sorted_replace l1 p n old mid l2 :
  StronglySorted before (l1 ++ ((p, n) :: old) ++ l2) -> StronglySorted before mid ->
  (forall x, x ∈ mid -> p <= x.1) -> (forall x y, x ∈ mid -> y ∈ l2 -> before x y) ->
  StronglySorted before (l1 ++ mid ++ l2).
Proof.
  intros (H1 & Hs1 & Hs2)%StronglySorted_app Hm Hp Hr. cbn [app] in Hs2. apply StronglySorted_cons in Hs2 as [_ Hs2].
  apply StronglySorted_app in Hs2 as (_ & _ & Hs2). apply StronglySorted_app. split_and!; [|done|].
  - intros x y Hx Hy. apply elem_of_app in Hy as [Hy|Hy].
    + specialize (H1 x (p, n) Hx ltac:(apply elem_of_cons; by left)). specialize (Hp y Hy). unfold before in *. cbn in *. lia.
    + apply H1; [done|]. apply elem_of_app. by right.
  - apply StronglySorted_app. split_and!; done.
Qed.

Lemma elem_mid {A} (x : A) l1 mid l2 : x ∈ l1 ++ mid ++ l2 <-> x ∈ l1 \/ x ∈ mid \/ x ∈ l2.
Proof. by rewrite !elem_of_app. Qed.

Section Rebuild.
Context (s s' : heap) (al al' : gmap Z Z) (l1 old mid l2 : list (Z * Z)) (p n n' : Z).
Hypothesis Hok : heap_ok s (l1 ++ ((p, n) :: old) ++ l2) al.
Hypothesis Hbrk : brk s' = brk s /\ room s' = room s.
Hypothesis Hsame : forall a, a ∈ l1.*1 \/ a ∈ l2.*1 -> hdr s' !! a = hdr s !! a.
Hypothesis Hlink : linked (fun a => ptr a s') (((p, n') :: mid).*1 ++ [hd BASE l2.*1]).
Hypothesis Hsize : forall a k, (a, k) ∈ (p, n') :: mid -> exists q, hdr s' !! a = Some (mkheader q k).
Hypothesis Hsorted : StronglySorted before ((p, n') :: mid).
Hypothesis Hend : forall x y, x ∈ (p, n') :: mid -> y ∈ l2 -> before x y.
Hypothesis Hbase : (l1 = [] -> n' = n) /\ (l1 <> [] -> 1 <= n' /\ p + n' <= brk s / HDR).
Hypothesis Hpos : forall a k, (a, k) ∈ mid -> 1 <= k /\ a + k <= brk s / HDR.
Hypothesis Hfreep : freep s' ∈ (l1 ++ ((p, n') :: mid) ++ l2).*1.
Hypothesis Hal : forall b k, al' !! b = Some k -> size_of b s' = k /\ 1 <= k /\ BASE < b /\ b + k <= brk s / HDR.
Hypothesis Hal_fl : forall b k a m, al' !! b = Some k -> (a, m) ∈ l1 ++ ((p, n') :: mid) ++ l2 -> b + k <= a \/ a + Z.max 1 m <= b.
Hypothesis Hal_al : forall b k b' k', al' !! b = Some k -> al' !! b' = Some k' -> b <> b' -> b + k <= b' \/ b' + k' <= b.

Lemma rebuild : heap_ok s' (l1 ++ ((p, n') :: mid) ++ l2) al'.
Proof using All.
  destruct Hbrk as [Eb Er]. destruct Hok as [[rest Hrest] Hl Hsz Hso Hp Hf Hb _ _ _].
  assert (forall x, x ∈ (p, n') :: mid -> p <= x.1) as Hmid.
  { intros x Hx. apply StronglySorted_cons in Hsorted as [Hall _]. apply elem_of_cons in Hx as [->|Hx]; [done|].
    rewrite Forall_forall in Hall. specialize (Hall x Hx). unfold before in Hall. cbn in *. lia. }
  assert (forall a, a ∈ l1.*1 \/ a ∈ l2.*1 -> ptr a s' = ptr a s /\ size_of a s' = size_of a s) as Hps.
  { intros a Ha. unfold ptr, size_of. rewrite !lookup_total_alt, Hsame by done. done. }
  split.
  - destruct l1 as [|x l1']; cbn [app] in *; injection Hrest as E1 E2.
    + exists (mid ++ l2). destruct Hbase as [-> _]; [|done]. congruence.
    + exists (l1' ++ ((p, n') :: mid) ++ l2). by rewrite E1.
  - rewrite !fmap_app, <- !app_assoc in *. cbn [fmap list_fmap fst app] in *. apply chain_app in Hl as [Hl1 Hl2].
    apply chain_app. split; [|].
    + eapply chain_ext; [|exact Hl1]. intros a Ha. rewrite removelast_last in Ha. apply Hps. by left.
    + assert (linked (fun a => ptr a s') (l2.*1 ++ [BASE])) as Hl2'.
      { change (p :: old.*1 ++ l2.*1 ++ [BASE]) with ((p :: old.*1) ++ l2.*1 ++ [BASE]) in Hl2.
        assert (linked (fun a => ptr a s) (l2.*1 ++ [BASE])) as H0.
        { destruct (l2.*1 ++ [BASE]) as [|y c]; [done|]. by apply chain_app in Hl2 as [_ Hl2]. }
        eapply chain_ext; [|exact H0]. intros a Ha. rewrite removelast_last in Ha. apply Hps. by right. }
      change (p :: mid.*1 ++ l2.*1 ++ [BASE]) with ((p :: mid.*1) ++ l2.*1 ++ [BASE]).
      destruct l2 as [|[y k] l2']; cbn [fmap list_fmap fst app hd] in *; [done|].
      change (p :: mid.*1 ++ y :: l2'.*1 ++ [BASE]) with ((p :: mid.*1) ++ y :: l2'.*1 ++ [BASE]). apply chain_app. by split.
  - intros a k Hin. apply elem_mid in Hin as [Hin|[Hin|Hin]].
    + assert (a ∈ l1.*1) as Ha by (apply list_elem_of_fmap; by exists (a, k)). rewrite Hsame by by left. destruct (Hps a ltac:(by left)) as [_ ->].
      apply Hsz, elem_mid. by left.
    + destruct (Hsize a k Hin) as [q Hq]. unfold size_of. rewrite lookup_total_alt, Hq. split; [done|by eexists].
    + assert (a ∈ l2.*1) as Ha by (apply list_elem_of_fmap; by exists (a, k)). rewrite Hsame by by right. destruct (Hps a ltac:(by right)) as [_ ->].
      apply Hsz, elem_mid. by right; right.
  - by eapply sorted_replace.
  - rewrite Eb. intros a k Hin. destruct l1 as [|x l1']; cbn [app tail] in *.
    + apply elem_of_app in Hin as [Hin|Hin]; [by apply Hpos|]. apply Hp. apply elem_of_app. by right.
    + change (l1' ++ (p, n') :: mid ++ l2) with (l1' ++ ((p, n') :: mid) ++ l2) in Hin. rewrite elem_mid in Hin. destruct Hin as [Hin|[Hin|Hin]].
      * apply Hp, elem_of_app. by left.
      * apply elem_of_cons in Hin as [[= -> ->]|Hin]; [by apply Hbase | by apply Hpos].
      * apply Hp. change (l1' ++ (p, n) :: old ++ l2) with (l1' ++ ((p, n) :: old) ++ l2). apply elem_mid. by right; right.
  - done.
  - by rewrite Eb, Er.
  - rewrite Eb. exact Hal.
  - exact Hal_fl.
  - exact Hal_al.
Qed.
End Rebuild.

(** ** [free] *)

Lemma ptr_insert a b h H f k r : ptr a (mkheap (<[b := h]> H) f k r) = if decide (b = a) then h_ptr h else h_ptr (H !!! a).
Proof. unfold ptr. cbn [hdr]. rewrite !lookup_total_alt, lookup_insert. by case_decide. Qed.
Lemma size_insert a b h H f k r : size_of a (mkheap (<[b := h]> H) f k r) = if decide (b = a) then h_size h else h_size (H !!! a).
Proof. unfold size_of. cbn [hdr]. rewrite !lookup_total_alt, lookup_insert. by case_decide. Qed.

Lemma linked_next P l x r : linked P (l ++ (x :: r) ++ [BASE]) -> P x = hd BASE r.
Proof.
  rewrite chain_app || idtac. cbn [app]. intros Hl. apply chain_app in Hl as [_ Hl]. destruct r as [|y r]; cbn [app hd] in *; by apply chain_cons in Hl as [-> _].
Qed.

Section Free.
Context (s : heap) (fl : list (Z * Z)) (al : gmap Z Z) (b m : Z) (l1 : list (Z * Z)) (p n : Z) (l2 : list (Z * Z)).
Hypothesis Hok : heap_ok s (l1 ++ (p, n) :: l2) al.
Hypothesis Hb : al !! b = Some m.
Hypothesis Hlow : Forall (fun x => x.1 < b) (l1 ++ [(p, n)]).
Hypothesis Hup : Forall (fun x => b < x.1) l2.

Lemma free_next : ptr p s = hd BASE l2.*1.
Proof using Hok.
  pose proof (ho_linked _ _ _ Hok) as Hl. rewrite fmap_app, <- app_assoc in Hl. cbn [fmap list_fmap fst] in Hl.
  by apply (linked_next (fun a => ptr a s) _ _ _ Hl).
Qed.

Lemma join_upper_ok (Q : unit -> heap -> Prop) :
  (forall s' extra l2' sz, l2 = extra ++ l2' -> (extra = [] /\ sz = m \/ exists k, extra = [(b + m, k)] /\ 1 <= k /\ sz = m + k) ->
     s' = mkheap (<[b := mkheader (hd BASE l2'.*1) sz]> (hdr s)) (freep s) (brk s) (room s) -> Q tt s') ->
  returns (join_upper b p) s Q.
Proof using Hok Hb Hlow Hup.
  intros HQ. unfold join_upper. step. destruct (ho_al _ _ _ Hok b m Hb) as (Esz & Hm & HB & _).
  destruct (al_range _ _ _ Hok b m Hb) as (Hr & _ & Hr2 & Hnin). pose proof (ho_brk _ _ _ Hok) as (_ & _ & _ & HB0). rewrite Esz, padd_small by lia. pose proof free_next as Enp. rewrite Enp.
  destruct (Z.eqb_spec (b + m) (hd BASE l2.*1)) as [E|E].
  - destruct l2 as [|[q k] l2']; cbn [fmap list_fmap fst hd] in E; [lia|]. subst q.
    assert ((b + m, k) ∈ l1 ++ (p, n) :: (b + m, k) :: l2') as Hin by (apply elem_of_app; right; apply elem_of_cons; right; apply elem_of_cons; by left).
    destruct (fl_range _ _ _ Hok _ _ Hin) as (Hq & _ & Hqk & Hk). destruct (ho_size _ _ _ Hok _ _ Hin) as [Eq _].
    cbn [fmap list_fmap fst hd]. rewrite Eq. unfold set_size, set_ptr. step. step. step.
    apply (HQ _ [(b + m, k)] l2' (m + k)); [done | right; exists k; split_and!; [done | lia | done] |].
    assert (p <> b) as Hpb by (intros ->; apply Hnin; rewrite fmap_app; apply elem_of_app; right; apply elem_of_cons; by left).
    assert (ptr (b + m) s = hd BASE l2'.*1) as Enx.
    { pose proof (ho_linked _ _ _ Hok) as Hl. rewrite fmap_app, <- app_assoc in Hl. cbn [fmap list_fmap fst] in Hl.
      change (l1.*1 ++ (p :: b + m :: l2'.*1) ++ [BASE]) with (l1.*1 ++ [p] ++ ((b + m :: l2'.*1) ++ [BASE])) in Hl. rewrite (app_assoc l1.*1) in Hl.
      by apply (linked_next (fun a => ptr a s) _ _ _ Hl). }
    cbn [fmap list_fmap fst hd] in Enp.
    set (s1 := mkheap (<[b := _]> (hdr s)) (freep s) (brk s) (room s)).
    assert (ptr p s1 = b + m) as E1 by (unfold s1; rewrite ptr_insert, decide_False by congruence; exact Enp).
    assert (ptr (b + m) s1 = hd BASE l2'.*1) as E2 by (unfold s1; rewrite ptr_insert, decide_False by lia; exact Enx).
    assert (size_of b s1 = m + k) as E3 by (unfold s1; rewrite size_insert, decide_True by done; cbn; rewrite u32_small; lia).
    rewrite E1, E2, E3. unfold s1. cbn [hdr freep brk room]. by rewrite insert_insert, decide_True by done.
  - unfold set_ptr. step. apply (HQ _ [] l2 m); [done | by left |]. by rewrite Esz.
Qed.

(** the state after both joins *)
Definition joined (s' : heap) (mid : list (Z * Z)) (n' : Z) (extra l2' : list (Z * Z)) : Prop :=
  brk s' = brk s /\ room s' = room s /\ freep s' = p /\
  exists sz, (extra = [] /\ sz = m \/ exists k, extra = [(b + m, k)] /\ 1 <= k /\ sz = m + k) /\
    (mid = [(b, sz)] /\ n' = n /\ hdr s' = <[p := mkheader b n]> (<[b := mkheader (hd BASE l2'.*1) sz]> (hdr s)) \/
     mid = [] /\ n' = n + sz /\ p + n = b /\ hdr s' = <[p := mkheader (hd BASE l2'.*1) (n + sz)]> (<[b := mkheader (hd BASE l2'.*1) sz]> (hdr s))).

Lemma join_both (Q : unit -> heap -> Prop) :
  (forall s' mid n' extra l2', l2 = extra ++ l2' -> joined s' mid n' extra l2' -> Q tt s') ->
  returns (join_upper b p ;; join_lower b p ;; set_freep p) s Q.
Proof using Hok Hb Hlow Hup.
  intros HQ. apply returns_bind, join_upper_ok. intros s1 extra l2' sz El2 Hex ->.
  assert ((p, n) ∈ l1 ++ (p, n) :: l2) as Hp by (apply elem_of_app; right; apply elem_of_cons; by left).
  destruct (fl_range _ _ _ Hok _ _ Hp) as (Hpr & Hn & Hpn & _). destruct (ho_size _ _ _ Hok _ _ Hp) as [Esz _].
  destruct (al_range _ _ _ Hok b m Hb) as (Hbr & Hm & Hr2 & Hnin). pose proof (ho_brk _ _ _ Hok) as (_ & _ & _ & HB0).
  assert (p < b) as Hpb. { apply Forall_app in Hlow as [_ Hlow']. by inversion Hlow'. }
  assert (0 <= sz /\ sz <= 2 ^ 28) as Hsz.
  { destruct Hex as [[_ ->]|(k & -> & Hk & ->)]; [lia|]. rewrite El2 in Hok.
    assert ((b + m, k) ∈ l1 ++ (p, n) :: [(b + m, k)] ++ l2') as Hin by (apply elem_of_app; right; apply elem_of_cons; right; apply elem_of_cons; by left).
    destruct (fl_range _ _ _ Hok _ _ Hin). lia. }
  apply returns_bind. unfold join_lower. step. set (s1 := mkheap (<[b := _]> (hdr s)) (freep s) (brk s) (room s)).
  assert (size_of p s1 = n) as E1 by (unfold s1; rewrite size_insert, decide_False by lia; exact Esz).
  assert (size_of b s1 = sz) as E2 by (unfold s1; by rewrite size_insert, decide_True by done).
  assert (ptr b s1 = hd BASE l2'.*1) as E3 by (unfold s1; by rewrite ptr_insert, decide_True by done).
  rewrite E1, E2, padd_small by lia. destruct (Z.eqb_spec (p + n) b) as [E|E].
  - unfold set_size, set_ptr, set_freep. step. step. step. step. apply (HQ _ [] (n + sz) extra l2' El2).
    split_and!; try done. exists sz. split; [done|]. right. split_and!; try done.
    set (s2 := mkheap (<[p := _]> (hdr s1)) (freep s1) (brk s1) (room s1)).
    assert (ptr b s2 = hd BASE l2'.*1) as E4 by (unfold s2; rewrite ptr_insert, decide_False by lia; exact E3).
    assert (size_of p s2 = n + sz) as E5 by (unfold s2; rewrite size_insert, decide_True by done; cbn; rewrite u32_small; lia).
    rewrite E4, E5. unfold s2. cbn [hdr]. by rewrite insert_insert, decide_True by done.
  - unfold set_ptr, set_freep. step. step. apply (HQ _ [(b, sz)] n extra l2' El2).
    split_and!; try done. exists sz. split; [done|]. left. split_and!; try done. rewrite E1. done.
Qed.

Lemma joined_ok s' mid n' extra l2' : l2 = extra ++ l2' -> joined s' mid n' extra l2' ->
  heap_ok s' (l1 ++ ((p, n') :: mid) ++ l2') (delete b al) /\
  total (l1 ++ ((p, n') :: mid) ++ l2') = total (l1 ++ (p, n) :: l2) + m /\
  exists a k, (a, k) ∈ l1 ++ ((p, n') :: mid) ++ l2' /\ m <= k.
Proof using Hok Hb Hlow Hup.
  intros El2 (Eb & Er & Ef & sz & Hex & Hcase).
  assert (Hp : (p, n) ∈ l1 ++ (p, n) :: l2) by (apply elem_of_app; right; apply elem_of_cons; by left).
  destruct (fl_range _ _ _ Hok _ _ Hp) as (Hpr & Hn & Hpn & Hbase). destruct (al_range _ _ _ Hok b m Hb) as (Hbr & Hm & Hr2 & Hnin).
  pose proof (ho_brk _ _ _ Hok) as (Hm8 & _ & _ & HB0). destruct (ho_al _ _ _ Hok b m Hb) as (_ & _ & _ & Hbm).
  assert (p < b) as Hpb. { apply Forall_app in Hlow as [_ Hlow']. by inversion Hlow'. }
  assert (p + Z.max 1 n <= b) as Hpnb by (pose proof (ho_al_fl _ _ _ Hok b m p n Hb Hp); lia).
  assert (forall y, y ∈ l2 -> b + m <= y.1) as Hab.
  { intros [y k] Hy. rewrite Forall_forall in Hup. specialize (Hup _ Hy). cbn in *.
    pose proof (ho_al_fl _ _ _ Hok b m y k Hb ltac:(apply elem_of_app; right; apply elem_of_cons; by right)). lia. }
  assert (m <= sz /\ b + sz <= brk s / HDR /\ (forall y, y ∈ l2' -> b + sz <= y.1) /\ total extra + m = sz) as (Hsz1 & Hsz2 & Hsz3 & Htot).
  { destruct Hex as [[-> ->]|(k & -> & Hk & ->)].
    - cbn [app] in El2. subst l2'. split_and!; [lia | done | done | cbn; lia].
    - pose proof (ho_sorted _ _ _ Hok) as Hs. rewrite El2 in Hs. apply StronglySorted_app in Hs as (_ & _ & Hs).
      cbn [app] in Hs. apply StronglySorted_cons in Hs as [_ Hs]. apply StronglySorted_cons in Hs as [Hs _]. rewrite Forall_forall in Hs.
      split_and!; [lia | | | cbn; lia].
      + pose proof (ho_pos _ _ _ Hok (b + m) k) as Hpos. rewrite El2 in Hpos. destruct Hpos; [|lia].
        destruct l1 as [|x l1']; cbn [app tail]; [apply elem_of_cons; by left|].
        apply elem_of_app. right. apply elem_of_cons. right. apply elem_of_cons. by left.
      + intros y Hy. specialize (Hs y Hy). unfold before in Hs. cbn in Hs. lia. }
  rewrite El2 in Hok, Hup, Hnin, Hp, Hab.
  assert (p ∉ l1.*1 /\ p ∉ l2'.*1 /\ b ∉ l1.*1 /\ b ∉ l2'.*1) as (N1 & N2 & N3 & N4).
  { pose proof (sorted_nodup _ (sorted_lt _ (ho_sorted _ _ _ Hok))) as Hnd. rewrite !fmap_app in *. cbn [fmap list_fmap fst] in *. rewrite !fmap_app in *.
    apply NoDup_app in Hnd as (_ & Hd & Hnd). apply NoDup_cons in Hnd as [Hd2 _]. rewrite !not_elem_of_app in *.
    rewrite not_elem_of_cons, not_elem_of_app in Hnin. split_and!; try tauto. intros Hin. apply (Hd p Hin). apply elem_of_cons. by left. }
  assert (hdr s' = hdr s' /\ forall a, a <> p -> a <> b -> hdr s' !! a = hdr s !! a) as [_ Hframe].
  { split; [done|]. intros a H1 H2. destruct Hcase as [(_ & _ & ->)|(_ & _ & _ & ->)]; by rewrite !lookup_insert_ne. }
  assert (freep s' ∈ (l1 ++ ((p, n') :: mid) ++ l2').*1) as Hfreep.
  { rewrite Ef, fmap_app. apply elem_of_app. right. cbn. apply elem_of_cons. by left. }
  assert (forall a k, (a, k) ∈ (p, n') :: mid -> p <= a /\ a + Z.max 1 k <= b + sz) as Hin.
  { intros a k. destruct Hcase as [(-> & -> & _)|(-> & -> & Hpb' & _)].
    - intros [[= -> ->]|[[= -> ->]|?%elem_of_nil]%elem_of_cons]%elem_of_cons; lia || done.
    - intros [[= -> ->]|?%elem_of_nil]%elem_of_cons; lia || done. }
  split; [|split].
  - apply (rebuild s s' al (delete b al) l1 extra mid l2' p n n'); try done.
    + intros a Ha. apply Hframe; intros ->; tauto.
    + destruct Hcase as [(-> & -> & Eh)|(-> & -> & _ & Eh)]; cbn [fmap list_fmap fst app linked]; unfold ptr; rewrite Eh, !lookup_total_insert.
      * rewrite (decide_True (P := p = p)), (decide_False (P := p = b)), (decide_True (P := b = b)) by lia. done.
      * by rewrite (decide_True (P := p = p)).
    + intros a k Ha. destruct Hcase as [(-> & -> & Eh)|(-> & -> & _ & Eh)]; rewrite Eh.
      * apply elem_of_cons in Ha as [[= -> ->]|Ha]; [rewrite lookup_insert_eq; by eexists|].
        apply list_elem_of_singleton in Ha as [= -> ->]. rewrite lookup_insert_ne, lookup_insert_eq by lia. by eexists.
      * apply list_elem_of_singleton in Ha as [= -> ->]. rewrite lookup_insert_eq. by eexists.
    + destruct Hcase as [(-> & -> & Eh)|(-> & -> & _ & Eh)]; repeat constructor. unfold before. cbn. lia.
    + intros [a k] y Ha Hy. destruct (Hin a k Ha) as [_ H2]. specialize (Hsz3 y Hy). unfold before. cbn. lia.
    + destruct Hcase as [(_ & -> & _)|(_ & -> & Hpb' & _)].
      * split; [done|]. intros Hne. pose proof (ho_pos _ _ _ Hok p n) as Hpos. apply Hpos.
        destruct l1 as [|x l1']; [done|]. cbn [app tail]. apply elem_of_app. right. apply elem_of_cons. by left.
      * split; [|intros _; lia]. intros ->. exfalso. destruct (ho_base _ _ _ Hok) as [rest E]. cbn [app] in E. injection E as -> -> _. lia.
    + intros a k Ha. destruct Hcase as [(-> & _ & _)|(-> & _)]; [|by apply elem_of_nil in Ha].
      apply list_elem_of_singleton in Ha as [= -> ->]. lia.
    + intros c k Hc. apply lookup_delete_Some in Hc as [Hne Hc]. destruct (ho_al _ _ _ Hok c k Hc) as (H1 & H2 & H3 & H4). split_and!; try done.
      unfold size_of. rewrite lookup_total_alt, Hframe, <- lookup_total_alt; [done| |by intros ->].
      intros ->. destruct (al_range _ _ _ Hok p k Hc) as (_ & _ & _ & Hni). apply Hni. rewrite fmap_app. apply elem_of_app. right. apply elem_of_cons. by left.
    + intros c k a x Hc Ha. apply lookup_delete_Some in Hc as [Hne Hc]. rewrite elem_mid in Ha.
      assert (forall y z, (y, z) ∈ l1 ++ (p, n) :: extra ++ l2' -> c + k <= y \/ y + Z.max 1 z <= c) as Hold by (intros y z; by apply (ho_al_fl _ _ _ Hok)).
      pose proof (ho_al_al _ _ _ Hok c k b m Hc Hb ltac:(done)) as Hcb. destruct (ho_al _ _ _ Hok c k Hc) as (_ & Hk1 & _).
      destruct Ha as [Ha|[Ha|Ha]]; [apply Hold, elem_of_app; by left | | apply Hold, elem_of_app; right; apply elem_of_cons; right; apply elem_of_app; by right].
      pose proof (Hold p n ltac:(apply elem_of_app; right; apply elem_of_cons; by left)) as Hcp.
      assert (c + k <= b \/ b + sz <= c) as Hcs.
      { destruct Hex as [[_ ->]|(k' & -> & Hk' & ->)]; [lia|].
        pose proof (Hold (b + m) k' ltac:(apply elem_of_app; right; apply elem_of_cons; right; apply elem_of_cons; by left)). lia. }
      destruct Hcase as [(-> & -> & _)|(-> & -> & Hpb' & _)].
      * apply elem_of_cons in Ha as [[= -> ->]|Ha]; [lia|]. apply list_elem_of_singleton in Ha as [= -> ->]. lia.
      * apply list_elem_of_singleton in Ha as [= -> ->]. lia.
    + intros c k c' k' Hc Hc'. apply lookup_delete_Some in Hc as [_ Hc], Hc' as [_ Hc']. by apply (ho_al_al _ _ _ Hok).
  - rewrite El2, !total_app. cbn [total foldr]. change (foldr (fun x n0 => x.2 + n0) 0 mid) with (total mid).
    change (foldr (fun x n0 => x.2 + n0) 0 (extra ++ l2')) with (total (extra ++ l2')). rewrite total_app. cbn [snd].
    destruct Hcase as [(-> & -> & _)|(-> & -> & _)]; cbn; lia.
  - destruct Hcase as [(-> & -> & _)|(-> & -> & _)].
    + exists b, sz. split; [|done]. rewrite elem_mid. right. left. apply elem_of_cons. right. apply elem_of_cons. by left.
    + exists p, (n + sz). split; [|lia]. rewrite elem_mid. right. left. apply elem_of_cons. by left.
Qed.
End Free.

Lemma joined_length s b m l1 p n l2 s' mid n' extra l2' : l2 = extra ++ l2' -> joined s b m p n s' mid n' extra l2' ->
  (length (l1 ++ ((p, n') :: mid) ++ l2') <= S (length (l1 ++ (p, n) :: l2)))%nat.
Proof.
  intros -> (_ & _ & _ & sz & _ & Hcase). rewrite !length_app. cbn [length]. rewrite length_app.
  destruct Hcase as [(-> & _)|(-> & _)]; simpl; lia.
Qed.

Lemma free_ok s fl al b m (Q : unit -> heap -> Prop) :
  heap_ok s fl al -> al !! b = Some m ->
  (forall s' fl', heap_ok s' fl' (delete b al) -> brk s' = brk s -> room s' = room s -> total fl' = total fl + m ->
     (length fl' <= S (length fl))%nat -> (exists a k, (a, k) ∈ fl' /\ m <= k) -> Q tt s') ->
  returns (free (b + 1)) s Q.
Proof.
  intros Hok Hb HQ. destruct (al_range _ _ _ Hok b m Hb) as (Hr & _ & _ & Hnin). pose proof (ho_brk _ _ _ Hok) as (_ & _ & _ & HB0).
  unfold free. rewrite padd_small by lia. replace (b + 1 + -1) with b by lia. step.
  destruct (find_prev_ok _ _ _ Hok b Hnin ltac:(lia)) as (l1 & p & n & l2 & -> & -> & H1 & H2).
  eapply join_both; try done. intros s' mid n' extra l2' El2 Hj.
  destruct (joined_ok _ _ _ _ _ _ _ _ Hok Hb H1 H2 _ _ _ _ _ El2 Hj) as (Hok' & Ht & Hbig).
  pose proof (joined_length _ _ _ l1 _ _ _ _ _ _ _ _ El2 Hj) as Hlen. destruct Hj as (Eb & Er & _). by eapply HQ.
Qed.

(** ** [morecore] *)

(** memory from [sbrk] becomes a block of the program *)
Lemma grow_ok s fl al nu : heap_ok s fl al -> 1 <= nu -> brk s + nu * HDR <= room s ->
  heap_ok (mkheap (<[brk s / HDR := mkheader (ptr (brk s / HDR) s) nu]> (hdr s)) (freep s) (brk s + nu * HDR) (room s))
    fl (<[brk s / HDR := nu]> al) /\ al !! (brk s / HDR) = None.
Proof.
  intros Hok Hnu Hroom. set (hp := brk s / HDR). pose proof (ho_brk _ _ _ Hok) as (Hm & Hb & Hr & HB0). unfold HDR in *.
  assert (brk s = 8 * hp /\ (brk s + nu * 8) / 8 = hp + nu) as [Ebrk Enew] by (unfold hp; split; Z.div_mod_to_equations; lia).
  assert (forall a n, (a, n) ∈ fl -> a < hp /\ a + Z.max 1 n <= hp) as Hfl.
  { intros a n Hin. destruct (ho_base _ _ _ Hok) as [rest E]. rewrite E in Hin. apply elem_of_cons in Hin as [[= -> ->]|Hin]; [lia|].
    pose proof (ho_pos _ _ _ Hok a n) as Hp. rewrite E in Hp. specialize (Hp Hin). unfold HDR in Hp. fold hp in Hp. lia. }
  assert (forall b n, al !! b = Some n -> b + n <= hp /\ 1 <= n) as Hal by (intros b n Hb'; destruct (ho_al _ _ _ Hok b n Hb') as (_ & ? & _ & ?); done).
  assert (al !! hp = None) as Hnone.
  { destruct (al !! hp) as [n|] eqn:E; [|done]. apply Hal in E. lia. }
  split; [|done].
  destruct Hok as [B0 Hl Hsz Hso Hp Hf _ Ha Haf Haa]. unfold HDR in Hp, Ha. fold hp in Hp, Ha. split; cbn [brk room freep]; try done.
  - eapply chain_ext; [|exact Hl]. intros a Hin. rewrite removelast_last in Hin. apply list_elem_of_fmap in Hin as ([a' n] & -> & Hin).
    cbn [fst]. rewrite ptr_insert, decide_False by (specialize (Hfl _ _ Hin); lia). done.
  - intros a n Hin. rewrite size_insert, decide_False by (specialize (Hfl _ _ Hin); lia). destruct (Hsz a n Hin) as [E1 [x E2]].
    split; [exact E1|]. cbn [hdr]. rewrite lookup_insert_ne by (specialize (Hfl _ _ Hin); lia). by eexists.
  - unfold HDR. rewrite Enew. intros a n Hin. destruct (Hp a n Hin). lia.
  - unfold HDR. split; [|lia]. rewrite Z.mod_add by lia. done.
  - unfold HDR. rewrite Enew. intros b n. rewrite lookup_insert. case_decide as E.
    + intros [= <-]. subst b. rewrite size_insert, decide_True by done. cbn. lia.
    + intros Hb'. destruct (Ha b n Hb') as (E1 & E2 & E3 & E4). rewrite size_insert, decide_False by done.
      split_and!; [exact E1 | done | done | lia].
  - intros b n a m. rewrite lookup_insert. case_decide as E.
    + intros [= <-] Hin. subst b. specialize (Hfl _ _ Hin). lia.
    + by apply Haf.
  - intros b n b' n'. rewrite !lookup_insert. repeat case_decide; subst; try done.
    + intros [= <-] Hb'. apply Hal in Hb'. lia.
    + intros Hb' [= <-]. apply Hal in Hb'. lia.
    + by apply Haa.
Qed.

Lemma morecore_ok s fl al nu (Q : Z -> heap -> Prop) :
  heap_ok s fl al -> 1 <= nu -> nu * HDR < 2 ^ 31 ->
  (room s < brk s + Z.max nu 4096 * HDR -> Q 0 s) ->
  (forall s' fl', heap_ok s' fl' al -> brk s' = brk s + Z.max nu 4096 * HDR -> room s' = room s ->
     total fl' = total fl + Z.max nu 4096 ->
     (length fl' <= S (length fl))%nat -> (exists a k, (a, k) ∈ fl' /\ nu <= k) -> Q (freep s') s') ->
  returns (morecore nu) s Q.
Proof.
  intros Hok H1 H2 HN HS. unfold morecore. pose proof (ho_brk _ _ _ Hok) as (Hm & Hb & Hr & HB0). unfold HDR in H2.
  assert ((if nu <? 4096 then 4096 else nu) = Z.max nu 4096) as -> by (destruct (Z.ltb_spec nu 4096); lia). set (k := Z.max nu 4096) in *.
  change HDR with 8 in *. rewrite u32_small, i32_small by lia. apply returns_bind. unfold sbrk. step.
  destruct (Z.ltb_spec 0 (k * 8)); [|lia]. destruct (Z.leb_spec (brk s + k * 8) (room s)) as [Hle|Hgt]; [|step; step; by apply HN].
  unfold set_brk, set_size. step. step. step. cbn [brk hdr freep room].
  destruct (grow_ok s fl al k Hok ltac:(lia) Hle) as [Hok' Hnone]. change HDR with 8 in *.
  assert (0 <= brk s / 8 < 2 ^ 28) as Hhp by (Z.div_mod_to_equations; lia). rewrite padd_small by lia.
  apply returns_bind. eapply free_ok; [exact Hok' | apply lookup_insert_eq |]. cbn [brk room].
  intros s' fl' Hok2 Eb Er Et Hlen (a & z & Hin & Hz). step. step. eapply HS; try done.
  - by rewrite delete_insert_id in Hok2.
  - exists a, z. split; [done|]. lia.
Qed.

(** ** Taking a block *)

Section Take.
Context (s : heap) (l1 : list (Z * Z)) (prev np x n : Z) (l2 : list (Z * Z)) (al : gmap Z Z) (nunits : Z).
Let fl := l1 ++ (prev, np) :: (x, n) :: l2.
Hypothesis Hok : heap_ok s fl al.
Hypothesis Hn : 1 <= nunits <= n.
(** the end of the block at [x] *)
Let b := x + (n - nunits).

Lemma take_facts :
  (x, n) ∈ fl /\ (prev, np) ∈ fl /\ BASE < x /\ x + n <= brk s / HDR /\ al !! b = None /\
  (forall y, y ∈ l1 ++ [(prev, np)] -> y.1 + Z.max 1 y.2 <= x) /\ (forall y, y ∈ l2 -> x + n <= y.1) /\
  (forall c k, al !! c = Some k -> c + k <= x \/ x + n <= c).
Proof using Hok Hn.
  assert (Hx : (x, n) ∈ fl) by (apply elem_of_app; right; apply elem_of_cons; right; apply elem_of_cons; by left).
  assert (Hp : (prev, np) ∈ fl) by (apply elem_of_app; right; apply elem_of_cons; by left).
  pose proof (ho_sorted _ _ _ Hok) as Hs. unfold fl in Hs. change ((prev, np) :: (x, n) :: l2) with ([(prev, np)] ++ (x, n) :: l2) in Hs.
  rewrite app_assoc in Hs. apply StronglySorted_app in Hs as (Hs1 & _ & Hs2). apply StronglySorted_cons in Hs2 as [Hs2 _]. rewrite Forall_forall in Hs2.
  assert (forall y, y ∈ l1 ++ [(prev, np)] -> y.1 + Z.max 1 y.2 <= x) as H1.
  { intros y Hy. specialize (Hs1 y (x, n) Hy ltac:(apply elem_of_cons; by left)). unfold before in Hs1. exact Hs1. }
  assert (forall y, y ∈ l2 -> x + n <= y.1) as H2 by (intros y Hy; specialize (Hs2 y Hy); unfold before in Hs2; cbn in Hs2; lia).
  assert (forall c k, al !! c = Some k -> c + k <= x \/ x + n <= c) as H3.
  { intros c k Hc. pose proof (ho_al_fl _ _ _ Hok c k x n Hc Hx). lia. }
  assert (BASE < x /\ x + n <= brk s / HDR) as [HB Hbrk].
  { destruct (fl_range _ _ _ Hok _ _ Hp) as (Hp1 & _). specialize (H1 (prev, np) ltac:(apply elem_of_app; right; by apply list_elem_of_singleton)). cbn in H1.
    split; [lia|]. apply (ho_pos _ _ _ Hok x n). unfold fl. destruct l1; cbn [app tail]; [apply elem_of_cons; by left|].
    apply elem_of_app. right. apply elem_of_cons. right. apply elem_of_cons. by left. }
  split_and!; try done. destruct (al !! b) as [k|] eqn:E; [|done]. exfalso.
  destruct (ho_al _ _ _ Hok b k E) as (_ & Hk & _). specialize (H3 b k E). unfold b in *. lia.
Qed.

(** the part of the invariant about the blocks of the program *)
Lemma take_al s' (fl' : list (Z * Z)) : (forall a, a <> prev -> a <> x -> a <> b -> hdr s' !! a = hdr s !! a) -> size_of b s' = nunits ->
  (forall a m, (a, m) ∈ fl' -> (a, m) ∈ l1 ++ [(prev, np)] \/ (a, m) ∈ l2 \/ a = x /\ m = n - nunits /\ 1 <= m) ->
  (forall c k, <[b := nunits]> al !! c = Some k -> size_of c s' = k /\ 1 <= k /\ BASE < c /\ c + k <= brk s / HDR) /\
  (forall c k a m, <[b := nunits]> al !! c = Some k -> (a, m) ∈ fl' -> c + k <= a \/ a + Z.max 1 m <= c) /\
  (forall c k c' k', <[b := nunits]> al !! c = Some k -> <[b := nunits]> al !! c' = Some k' -> c <> c' -> c + k <= c' \/ c' + k' <= c).
Proof using Hok Hn.
  intros Hframe Hsz Hfl'. destruct take_facts as (Hx & Hp & HB & Hbrk & Hnone & H1 & H2 & H3). split_and!.
  - intros c k. rewrite lookup_insert. case_decide as E; [intros [= <-]; subst c; unfold b in *; split_and!; [done|lia..]|].
    intros Hc. destruct (ho_al _ _ _ Hok c k Hc) as (E1 & E2 & E3 & E4). split_and!; try done.
    destruct (al_range _ _ _ Hok c k Hc) as (_ & _ & _ & Hni).
    unfold size_of. rewrite lookup_total_alt, Hframe, <- lookup_total_alt; [done | | | congruence].
    + intros ->. apply Hni, list_elem_of_fmap. by exists (prev, np).
    + intros ->. apply Hni, list_elem_of_fmap. by exists (x, n).
  - intros c k a m Hc Ha. apply Hfl' in Ha. rewrite lookup_insert in Hc. case_decide as E.
    + injection Hc as <-. subst c. unfold b. destruct Ha as [Ha|[Ha|(-> & -> & Ha)]]; [specialize (H1 _ Ha); cbn in H1; lia | specialize (H2 _ Ha); cbn in H2; lia | lia].
    + destruct Ha as [Ha|[Ha|(-> & -> & Ha)]].
      * apply (ho_al_fl _ _ _ Hok c k a m Hc). unfold fl. rewrite (app_assoc l1 [(prev, np)]) || idtac.
        apply elem_of_app in Ha as [Ha|Ha]; [apply elem_of_app; by left|]. apply list_elem_of_singleton in Ha. rewrite Ha. apply elem_of_app. right. apply elem_of_cons. by left.
      * apply (ho_al_fl _ _ _ Hok c k a m Hc). apply elem_of_app. right. apply elem_of_cons. right. apply elem_of_cons. by right.
      * specialize (H3 c k Hc). lia.
  - intros c k c' k'. rewrite !lookup_insert. destruct (decide (b = c)) as [<-|], (decide (b = c')) as [<-|]; try done.
    + intros [= <-] Hc' _. specialize (H3 _ _ Hc'). destruct (ho_al _ _ _ Hok _ _ Hc') as (_ & ? & _). unfold b. lia.
    + intros Hc' [= <-] _. specialize (H3 _ _ Hc'). destruct (ho_al _ _ _ Hok _ _ Hc') as (_ & ? & _). unfold b. lia.
    + by apply (ho_al_al _ _ _ Hok).
Qed.

Lemma take_next : ptr prev s = x /\ ptr x s = hd BASE l2.*1.
Proof using Hok.
  pose proof (ho_linked _ _ _ Hok) as Hl. unfold fl in Hl. rewrite fmap_app, <- app_assoc in Hl. cbn [fmap list_fmap fst] in Hl. split.
  - apply (linked_next (fun a => ptr a s) _ _ _ Hl).
  - change (l1.*1 ++ (prev :: x :: l2.*1) ++ [BASE]) with (l1.*1 ++ [prev] ++ ((x :: l2.*1) ++ [BASE])) in Hl. rewrite (app_assoc l1.*1) in Hl.
    apply (linked_next (fun a => ptr a s) _ _ _ Hl).
Qed.

Lemma take_block_ok (Q : Z -> heap -> Prop) :
  (forall s' fl', heap_ok s' fl' (<[b := nunits]> al) -> al !! b = None -> brk s' = brk s -> room s' = room s ->
     total fl' = total fl - nunits -> Q (b + 1) s') ->
  returns (take_block nunits prev x) s Q.
Proof using Hok Hn.
  intros HQ. destruct take_facts as (Hx & Hp & HB & Hbrk & Hnone & H1 & H2 & H3). destruct take_next as [Epx Exn].
  destruct (fl_range _ _ _ Hok _ _ Hx) as (Hxr & _ & Hxn & _). destruct (fl_range _ _ _ Hok _ _ Hp) as (Hpr & Hp0 & _).
  destruct (ho_size _ _ _ Hok _ _ Hx) as [Esx _]. destruct (ho_size _ _ _ Hok _ _ Hp) as [Esp _].
  pose proof (ho_brk _ _ _ Hok) as (_ & _ & _ & HB0). unfold take_block. step. rewrite Esx.
  assert (prev + Z.max 1 np <= x) as Hpx by (apply (H1 (prev, np)), elem_of_app; right; by apply list_elem_of_singleton).
  pose proof (sorted_nodup _ (sorted_lt _ (ho_sorted _ _ _ Hok))) as Hnd. unfold fl in Hnd. rewrite fmap_app in Hnd. cbn [fmap list_fmap fst] in Hnd.
  apply NoDup_app in Hnd as (_ & Hd & [Hp2 [Hx2 _]%NoDup_cons]%NoDup_cons).
  assert (prev ∉ l1.*1 /\ x ∉ l1.*1) as [Hp1 Hx1].
  { split; intros Hin; apply (Hd _ Hin); apply elem_of_cons; [by left | right; apply elem_of_cons; by left]. }
  apply not_elem_of_cons in Hp2 as [_ Hp2]. apply returns_bind. destruct (Z.eqb_spec n nunits) as [E|E].
  - unfold set_ptr. step. step. unfold set_freep. step. step. rewrite padd_small by lia. rewrite Exn, Esp.
    assert (b = x) as Eb by (unfold b; lia). rewrite <- Eb at 1.
    set (s' := mkheap _ prev _ _). assert (forall a, a <> prev -> hdr s' !! a = hdr s !! a) as Hframe by (intros a Ha; by apply lookup_insert_ne).
    assert (hdr s' !! prev = Some (mkheader (hd BASE l2.*1) np)) as Eprev by (apply lookup_insert_eq).
    destruct (take_al s' (l1 ++ [(prev, np)] ++ l2)) as (A1 & A2 & A3).
    { intros a Ha _ _. by apply Hframe. }
    { unfold size_of. rewrite lookup_total_alt, Hframe, <- lookup_total_alt by lia. rewrite Eb. fold (size_of x s). lia. }
    { intros a m. rewrite elem_mid. intros [?|[?|?]]; [left; apply elem_of_app; by left | left; apply elem_of_app; by right | right; by left]. }
    apply (HQ s' (l1 ++ [(prev, np)] ++ l2)); try done.
    + apply (rebuild s s' al (<[b := nunits]> al) l1 [(x, n)] [] l2 prev np np); try done.
      * intros a Ha. apply Hframe. intros ->. tauto.
      * cbn [fmap list_fmap fst app linked]. unfold ptr. by rewrite lookup_total_alt, Eprev.
      * intros a k Ha. apply list_elem_of_singleton in Ha as [= -> ->]. by eexists.
      * by repeat constructor.
      * intros y z Hy Hz. apply list_elem_of_singleton in Hy as ->. specialize (H2 z Hz). unfold before. cbn. lia.
      * split; [done|]. intros Hne. apply (ho_pos _ _ _ Hok prev np). unfold fl. destruct l1; [done|]. cbn [app tail]. apply elem_of_app. right. apply elem_of_cons. by left.
      * intros a k Ha. by apply elem_of_nil in Ha.
      * rewrite fmap_app. apply elem_of_app. right. apply elem_of_cons. by left.
    + unfold fl. rewrite !total_app, !total_cons. cbn [snd]. change (total []) with 0. lia.
  - unfold set_size. step. step. step. step. unfold set_freep. step. step.
    set (s1 := mkheap (<[x := _]> (hdr s)) (freep s) (brk s) (room s)).
    assert (size_of x s1 = n - nunits) as E1 by (unfold s1; rewrite size_insert, decide_True by done; cbn; rewrite u32_small; lia).
    rewrite E1. rewrite !padd_small by (rewrite ?padd_small; lia). fold b. cbn [hdr brk room s1].
    set (s' := mkheap _ prev _ _). assert (x < b) as Hxb by (unfold b; lia).
    assert (forall a, a <> x -> a <> b -> hdr s' !! a = hdr s !! a) as Hframe by (intros a Ha Hb'; cbn; by rewrite !lookup_insert_ne).
    assert (hdr s' !! x = Some (mkheader (hd BASE l2.*1) (n - nunits))) as Ex.
    { cbn. rewrite lookup_insert_ne by lia. rewrite lookup_insert_eq. rewrite Exn. do 2 f_equal. apply u32_small. lia. }
    destruct (take_al s' ((l1 ++ [(prev, np)]) ++ [(x, n - nunits)] ++ l2)) as (A1 & A2 & A3).
    { intros a _ Ha Hb'. by apply Hframe. }
    { unfold s'. by rewrite size_insert, decide_True by done. }
    { intros a m. rewrite elem_mid. intros [?|[Ha|?]]; [by left | | right; by left]. apply list_elem_of_singleton in Ha as [= -> ->]. right; right. split_and!; [done|done|lia]. }
    assert (fl = (l1 ++ [(prev, np)]) ++ [(x, n)] ++ l2) as Efl by (unfold fl; by rewrite <- app_assoc).
    apply (HQ s' ((l1 ++ [(prev, np)]) ++ [(x, n - nunits)] ++ l2)); try done.
    + apply (rebuild s s' al (<[b := nunits]> al) (l1 ++ [(prev, np)]) [] [] l2 x n (n - nunits)); try done.
      * by rewrite <- Efl.
      * intros a Ha. rewrite fmap_app in Ha. apply Hframe.
        { intros ->. destruct Ha as [[Ha|Ha]%elem_of_app|Ha]; [done | apply list_elem_of_singleton in Ha; cbn in Ha; lia | done]. }
        { intros ->. destruct Ha as [Ha|Ha]; [rewrite <- fmap_app in Ha; apply list_elem_of_fmap in Ha as (y & Ey & Ha); specialize (H1 y Ha); lia|].
          apply list_elem_of_fmap in Ha as (y & Ey & Ha). specialize (H2 y Ha). unfold b in *. lia. }
      * cbn [fmap list_fmap fst app linked]. unfold ptr. by rewrite lookup_total_alt, Ex.
      * intros a k Ha. apply list_elem_of_singleton in Ha as [= -> ->]. by eexists.
      * by repeat constructor.
      * intros y z Hy Hz. apply list_elem_of_singleton in Hy as ->. specialize (H2 z Hz). unfold before. cbn. lia.
      * split; [by destruct l1|]. intros _. lia.
      * intros a k Ha. by apply elem_of_nil in Ha.
      * rewrite !fmap_app. apply elem_of_app. left. apply elem_of_app. right. by apply list_elem_of_singleton.
    + rewrite Efl, !total_app, !total_cons. cbn [snd]. change (total []) with 0. lia.
Qed.
End Take.

(** ** [malloc] *)

Lemma last_cons_default (r : list Z) a b : List.last (b :: r) a = List.last r b.
Proof.
  revert a b. induction r as [|c r IH]; intros a b; [done|]. change (List.last (b :: c :: r) a) with (List.last (c :: r) a).
  by rewrite (IH a c), (IH b c).
Qed.

Lemma linked_last P : forall r a x, linked P (a :: r ++ [x]) -> P (List.last r a) = x.
Proof.
  induction r as [|b r IH]; intros a x Hl; cbn [app] in Hl; apply chain_cons in Hl as [E Hl]; [done|].
  rewrite <- (IH b x Hl). f_equal. apply last_cons_default.
Qed.

Lemma loop_S fuel nunits prevp p s : malloc_loop (S fuel) nunits prevp p s =
  (if nunits <=? size_of p s then take_block nunits prevp p
   else if p =? freep s then
     q ← morecore nunits;
     if q =? 0 then mret 0 else s ← get; malloc_loop fuel nunits q (ptr q s)
   else malloc_loop fuel nunits p (ptr p s)) s.
Proof. done. Qed.

Lemma walk s nunits : forall r fuel prevp x, linked (fun a => ptr a s) (prevp :: r ++ [x]) -> freep s ∉ r ->
  Forall (fun a => size_of a s < nunits) r ->
  malloc_loop (length r + fuel) nunits prevp (ptr prevp s) s = malloc_loop fuel nunits (List.last r prevp) x s.
Proof.
  induction r as [|a r IH]; intros fuel prevp x Hl Hf Hsz; cbn [app] in Hl; apply chain_cons in Hl as [-> Hl]; [done|].
  cbn [length Nat.add malloc_loop]. unfold get, mbind, M_bind. inversion Hsz as [|? ? Ha Hsz']; subst. apply not_elem_of_cons in Hf as [Hfa Hf].
  destruct (Z.leb_spec nunits (size_of a s)); [lia|]. destruct (Z.eqb_spec a (freep s)); [congruence|].
  rewrite (IH fuel a x Hl Hf Hsz'). by rewrite last_cons_default.
Qed.

(** the free blocks in the order in which [malloc] tries them *)
Lemma rotation s fl al : heap_ok s fl al -> exists r, r ++ [freep s] ≡ₚ fl.*1 /\ freep s ∉ r /\ linked (fun a => ptr a s) (freep s :: r ++ [freep s]).
Proof.
  intros Hok. destruct (list_elem_of_split _ _ (ho_freep _ _ _ Hok)) as (u & v & E). pose proof (ho_linked _ _ _ Hok) as Hl.
  pose proof (sorted_nodup _ (sorted_lt _ (ho_sorted _ _ _ Hok))) as Hnd. destruct (ho_base _ _ _ Hok) as [rest Er]. rewrite E in *.
  exists (v ++ u). split; [|split].
  - rewrite <- app_assoc, Permutation_app_comm, <- app_assoc. done.
  - rewrite Permutation_app_comm. intros Hin. apply NoDup_app in Hnd as (_ & Hd & [Hv _]%NoDup_cons).
    apply elem_of_app in Hin as [Hin|Hin]; [|done]. apply (Hd _ Hin). apply elem_of_cons. by left.
  - assert (u ++ freep s :: v = BASE :: rest.*1) as E' by (rewrite <- E, Er; done).
    destruct u as [|b u]; cbn [app] in *; injection E' as E1 E2.
    + rewrite app_nil_r. rewrite E1 in *. done.
    + subst b. change (BASE :: u ++ freep s :: v) with ((BASE :: u) ++ freep s :: v) in Hl. rewrite <- app_assoc in Hl. cbn [app] in Hl.
      change (BASE :: u ++ freep s :: v ++ [BASE]) with ((BASE :: u) ++ freep s :: v ++ [BASE]) in Hl. apply chain_app in Hl as [Hl1 Hl2].
      rewrite <- app_assoc. change (freep s :: v ++ (BASE :: u) ++ [freep s]) with ((freep s :: v) ++ BASE :: u ++ [freep s]). apply chain_app. by split.
Qed.

Lemma first_big (f : Z -> Z) nunits (l : list Z) :
  (exists r x r', l = r ++ x :: r' /\ Forall (fun a => f a < nunits) r /\ nunits <= f x) \/ Forall (fun a => f a < nunits) l.
Proof.
  induction l as [|a l IH]; [by right|]. destruct (Z.lt_ge_cases (f a) nunits).
  - destruct IH as [(r & x & r' & -> & Hr & Hx)|Hall]; [left; exists (a :: r), x, r'; split_and!; [done | by constructor | done] | right; by constructor].
  - left. by exists [], a, l.
Qed.

Section Malloc.
Context (nunits : Z).
Hypothesis Hnu : 1 <= nunits.

(** what a successful search leaves *)
Definition taken (s : heap) (fl : list (Z * Z)) (al : gmap Z Z) (r : Z) (s' : heap) : Prop :=
  exists b fl', r = b + 1 /\ heap_ok s' fl' (<[b := nunits]> al) /\ al !! b = None /\ brk s' = brk s /\ room s' = room s /\ total fl' = total fl - nunits.

Lemma loop_found s fl al fuel r x r' : heap_ok s fl al -> linked (fun a => ptr a s) (freep s :: r ++ [x]) ->
  freep s ∉ r -> Forall (fun a => size_of a s < nunits) r -> nunits <= size_of x s -> r ++ x :: r' ≡ₚ fl.*1 -> (length fl <= fuel)%nat ->
  returns (malloc_loop fuel nunits (freep s) (ptr (freep s) s)) s (taken s fl al).
Proof using Hnu.
  intros Hok Hl Hf Hr Hx Hp Hfu. pose proof (Permutation_length Hp) as Hlen. rewrite length_app, length_fmap in Hlen. cbn [length] in Hlen.
  replace fuel with (length r + S (fuel - length r - 1))%nat by lia. eapply returns_ext; [exact (walk s nunits r _ _ x Hl Hf Hr)|].
  eapply returns_ext; [apply loop_S|]. destruct (Z.leb_spec nunits (size_of x s)); [|lia].
  assert (x ∈ fl.*1) as Hxin by (rewrite <- Hp; apply elem_of_app; right; apply elem_of_cons; by left).
  assert (List.last r (freep s) ∈ fl.*1) as Hlin.
  { destruct r as [|a r _] using rev_ind; [apply Hok|]. rewrite List.last_last. rewrite <- Hp. apply elem_of_app. left. apply elem_of_app. right. by apply list_elem_of_singleton. }
  pose proof (linked_last _ _ _ _ Hl) as Enext. cbv beta in Enext. set (prev := List.last r (freep s)) in *.
  destruct (list_elem_of_split _ _ Hxin) as (u & v & E). pose proof (ho_linked _ _ _ Hok) as Hlk.
  pose proof (sorted_nodup _ (sorted_lt _ (ho_sorted _ _ _ Hok))) as Hnd. destruct (ho_base _ _ _ Hok) as [rest Er].
  assert (size_of BASE s = 0) as Ebase by (apply (ho_size _ _ _ Hok); rewrite Er; apply elem_of_cons; by left).
  assert (u <> []) as Hu. { intros ->. rewrite Er in E. cbn in E. injection E as E _. rewrite <- E in *. lia. }
  assert (last u = Some prev) as Eu.
  { apply (linked_pred (fun a => ptr a s) u x (v ++ [BASE]) prev); try done.
    - rewrite E, <- app_assoc in Hlk. done.
    - change (u ++ x :: v ++ [BASE]) with (u ++ (x :: v) ++ [BASE]). rewrite app_assoc, <- E, Er. cbn [fmap list_fmap fst app tail].
      rewrite Er in Hnd. cbn [fmap list_fmap fst] in Hnd. apply NoDup_cons in Hnd as [H1 H2]. rewrite Permutation_app_comm. by constructor.
    - change (u ++ x :: v ++ [BASE]) with (u ++ (x :: v) ++ [BASE]). rewrite app_assoc, removelast_last, <- E. done. }
  destruct (exists_last Hu) as (u' & z & ->). rewrite last_snoc in Eu. injection Eu as ->. rewrite <- app_assoc in E. cbn [app] in E.
  apply fmap_app_inv in E as (l1 & l2' & -> & El2 & ->). symmetry in El2. apply fmap_cons_inv in El2 as ([pp np] & l2'' & Ep & El2 & ->).
  symmetry in El2. apply fmap_cons_inv in El2 as ([xx n] & l2 & Ex & -> & ->). cbn [fst] in Ep, Ex. subst pp xx.
  destruct (ho_size _ _ _ Hok x n) as [Esz _]; [apply elem_of_app; right; apply elem_of_cons; right; apply elem_of_cons; by left|].
  apply (take_block_ok _ _ _ _ _ _ _ _ _ Hok); [lia|]. intros s' fl' H1 H2 H3 H4 H5. by exists (x + (n - nunits)), fl'.
Qed.

Lemma loop_big s fl al fuel : heap_ok s fl al -> (exists a k, (a, k) ∈ fl /\ nunits <= k) -> (length fl <= fuel)%nat ->
  returns (malloc_loop fuel nunits (freep s) (ptr (freep s) s)) s (taken s fl al).
Proof using Hnu.
  intros Hok (a & k & Hin & Hk) Hfu. destruct (rotation _ _ _ Hok) as (r & Hp & Hf & Hl).
  destruct (first_big (fun a => size_of a s) nunits (r ++ [freep s])) as [(r1 & x & r2 & E & Hr & Hx)|Hall].
  - eapply (loop_found s fl al fuel r1 x r2); try done.
    + change (freep s :: r ++ [freep s]) with (freep s :: (r ++ [freep s])) in Hl. rewrite E in Hl.
      change (freep s :: r1 ++ x :: r2) with ((freep s :: r1) ++ x :: r2) in Hl. by apply chain_app in Hl as [Hl _].
    + intros Hin1. apply Hf. destruct r2 as [|y r2 _] using rev_ind.
      * apply app_inj_tail in E as [<- _]. done.
      * change (r1 ++ x :: r2 ++ [y]) with (r1 ++ (x :: r2) ++ [y]) in E. rewrite app_assoc in E. apply app_inj_tail in E as [-> _]. apply elem_of_app. by left.
    + by rewrite <- E.
  - exfalso. rewrite Forall_forall in Hall. assert (a ∈ r ++ [freep s]) as Ha by (rewrite Hp; apply list_elem_of_fmap; by exists (a, k)).
    specialize (Hall a Ha). destruct (ho_size _ _ _ Hok a k Hin) as [E _]. cbv beta in Hall. lia.
Qed.

Lemma loop_ok s fl al fuel : heap_ok s fl al -> nunits * HDR < 2 ^ 31 -> (2 * length fl + 3 <= fuel)%nat ->
  returns (malloc_loop fuel nunits (freep s) (ptr (freep s) s)) s (fun r s' =>
    (r = 0 /\ s' = s /\ (forall a k, (a, k) ∈ fl -> k < nunits) /\ room s < brk s + Z.max nunits 4096 * HDR) \/
    (exists b fl', r = b + 1 /\ heap_ok s' fl' (<[b := nunits]> al) /\ al !! b = None /\ room s' = room s /\
       brk s' = brk s + HDR * (total fl' + nunits - total fl))).
Proof using Hnu.
  intros Hok Hlim Hfu. destruct (rotation _ _ _ Hok) as (r & Hp & Hf & Hl).
  destruct (first_big (fun a => size_of a s) nunits (r ++ [freep s])) as [(r1 & x & r2 & E & Hr & Hx)|Hall].
  - eapply returns_mono; [eapply loop_big; [exact Hok | | lia]|].
    + assert (x ∈ fl.*1) as Hin by (rewrite <- Hp, E; apply elem_of_app; right; apply elem_of_cons; by left).
      apply list_elem_of_fmap in Hin as ([a k] & -> & Hin). destruct (ho_size _ _ _ Hok a k Hin) as [Es _]. exists a, k. split; [done|]. cbn in Hx. lia.
    + intros v s' (b & fl' & -> & H1 & H2 & H3 & H4 & H5). right. exists b, fl'. split_and!; try done. lia.
  - apply Forall_app in Hall as [Hr Hfs]. pose proof (Forall_inv Hfs) as Hfsz. cbv beta in Hfsz.
    pose proof (Permutation_length Hp) as Hlen. rewrite length_app, length_fmap in Hlen. cbn [length] in Hlen.
    replace fuel with (length r + S (fuel - length r - 1))%nat by lia. eapply returns_ext; [exact (walk s nunits r _ _ (freep s) Hl Hf Hr)|].
    eapply returns_ext; [apply loop_S|]. destruct (Z.leb_spec nunits (size_of (freep s) s)); [lia|]. rewrite Z.eqb_refl.
    apply returns_bind. eapply morecore_ok; [exact Hok | done | done | |].
    + intros Hroom. change (0 =? 0) with true. cbv iota. step. left. split_and!; try done. intros a k Hin.
      destruct (ho_size _ _ _ Hok a k Hin) as [Es _]. assert (a ∈ r ++ [freep s]) as Ha by (rewrite Hp; apply list_elem_of_fmap; by exists (a, k)).
      apply elem_of_app in Ha as [Ha|Ha]; [rewrite Forall_forall in Hr; specialize (Hr a Ha); cbv beta in Hr; lia|]. apply list_elem_of_singleton in Ha. subst a. lia.
    + intros s' fl' Hok' Eb Er Et Hlen' Hbig. pose proof (ho_brk _ _ _ Hok') as (_ & _ & _ & HB0).
      assert (freep s' =? 0 = false) as ->.
      { apply Z.eqb_neq. pose proof (ho_freep _ _ _ Hok') as Hin. apply list_elem_of_fmap in Hin as ([a k] & -> & Hin). apply (fl_range _ _ _ Hok') in Hin as [[? _] _]. simpl. lia. }
      step. eapply returns_mono; [eapply loop_big; [exact Hok' | exact Hbig | lia]|].
      intros v s2 (b & fl2 & -> & H1 & H2 & H3 & H4 & H5). right. exists b, fl2. split_and!; try done; [congruence|]. rewrite H3, Eb. unfold HDR. lia.
Qed.
End Malloc.

(** the state in which [malloc] starts its search *)
Definition start (s : heap) : heap :=
  if freep s =? 0 then mkheap (<[BASE := mkheader BASE 0]> (hdr s)) BASE (brk s) (room s) else s.

Lemma nunits_small nbytes : 0 <= nbytes < 2 ^ 31 - 16 ->
  nunits_of nbytes = (nbytes + 7) / 8 + 1 /\ 1 <= nunits_of nbytes /\ nunits_of nbytes * HDR < 2 ^ 31 /\ nbytes <= HDR * (nunits_of nbytes - 1).
Proof using.
  intros Hn. assert (nunits_of nbytes = (nbytes + 7) / 8 + 1) as ->.
  { unfold nunits_of, HDR. rewrite (u32_small (nbytes + 8 - 1)) by lia. replace (nbytes + 8 - 1) with (nbytes + 7) by lia.
    apply u32_small. Z.div_mod_to_equations. lia. }
  unfold HDR. split; [done|]. Z.div_mod_to_equations. lia.
Qed.

(** C37: [malloc] of fewer than 2^31 - 16 bytes ends.  It gives a null pointer
    only when no free block is big enough and the kernel gives no more memory,
    and then nothing has changed; otherwise a block with room for the request
    that lies inside the memory of the process and overlaps neither a block that
    the program has nor a free one, and what is free, given and obtained from the
    kernel adds up. *)
Theorem malloc_correct s fl al nbytes :
  heap_ok (start s) fl al -> 0 <= nbytes < 2 ^ 31 - 16 ->
  let n := nunits_of nbytes in
  returns (malloc nbytes) s (fun r s' =>
    (r = 0 /\ s' = start s /\ (forall a k, (a, k) ∈ fl -> k < n) /\ room s < brk s + Z.max n 4096 * HDR) \/
    (exists b fl', r = b + 1 /\ al !! b = None /\ nbytes <= HDR * (n - 1) /\ heap_ok s' fl' (<[b := n]> al) /\ room s' = room s /\
       brk s' = brk s + HDR * (total fl' + n - total fl))).
Proof.
  intros Hok Hn n. destruct (nunits_small _ Hn) as (_ & H1 & H2 & H3). unfold malloc. step. apply returns_bind.
  assert (forall s1, s1 = start s -> returns (s ← get; malloc_loop (2 * size (hdr s) + 6) n (freep s) (ptr (freep s) s)) s1 (fun r s' =>
    (r = 0 /\ s' = start s /\ (forall a k, (a, k) ∈ fl -> k < n) /\ room s < brk s + Z.max n 4096 * HDR) \/
    (exists b fl', r = b + 1 /\ al !! b = None /\ nbytes <= HDR * (n - 1) /\ heap_ok s' fl' (<[b := n]> al) /\ room s' = room s /\
       brk s' = brk s + HDR * (total fl' + n - total fl)))) as Hloop.
  { intros s1 ->. step. assert (brk (start s) = brk s /\ room (start s) = room s) as [Eb Er] by (unfold start; by destruct (freep s =? 0)).
    pose proof (fl_length _ _ _ Hok). eapply returns_mono; [eapply (loop_ok n H1 _ _ _ _ Hok H2); lia|]. rewrite Eb, Er.
    intros r s' [(-> & -> & Ha & Hb)|(b & fl' & -> & Ha & Hb & Hc & Hd)]; [left | right; exists b, fl']; by split_and!. }
  destruct (freep s =? 0) eqn:E.
  - unfold set_ptr, set_freep, set_size. step. step. step. apply Hloop. unfold start. rewrite E. cbn [hdr freep brk room].
    rewrite insert_insert, decide_True by done. rewrite ptr_insert, decide_True by done. done.
  - step. apply Hloop. unfold start. by rewrite E.
Qed.

(** [free] of a block that the program has ends, makes exactly its units
    free, joined to the free blocks that touch it, and leaves every other block of
    the program alone. *)
Theorem free_correct s fl al b m :
  heap_ok s fl al -> al !! b = Some m ->
  returns (free (b + 1)) s (fun _ s' => exists fl',
    heap_ok s' fl' (delete b al) /\ total fl' = total fl + m /\ brk s' = brk s /\ room s' = room s).
Proof. intros Hok Hb. eapply free_ok; [exact Hok | exact Hb |]. intros s' fl' H1 H2 H3 H4 _ _. by exists fl'. Qed.
End Alloc.

(** ** A process *)

Definition demo_heap : heap := mkheap ∅ 0 8192 (2 ^ 20).

Lemma demo_start : heap_ok 100 (start 100 demo_heap) [(100, 0)] ∅.
Proof.
  split; try done.
  - by exists [].
  - intros a n Hin. apply list_elem_of_singleton in Hin as [= -> ->]. split; [done | by eexists].
  - repeat constructor.
  - intros a n Hin. by apply elem_of_nil in Hin.
  - apply elem_of_cons. by left.
Qed.

Lemma malloc_correct_witness : returns (malloc 100 10) demo_heap (fun r s' => exists b fl', r = b + 1 /\ heap_ok 100 s' fl' {[b := 3]}).
Proof.
  eapply returns_mono; [apply (malloc_correct 100 demo_heap [(100, 0)] ∅ 10 demo_start); lia|].
  cbv zeta. intros r s' [(_ & _ & _ & H)|(b & fl' & -> & _ & _ & H & _)]; [exfalso; vm_compute in H; done|].
  exists b, fl'. split; [done|]. exact H.
Defined.

Lemma free_correct_witness : exists s b fl', heap_ok 100 s fl' ∅ /\ brk s = brk (final (malloc 100 10) demo_heap) /\ b = 5117.
Proof.
  assert (returns (malloc 100 10) demo_heap (fun r s' => exists b fl', r = b + 1 /\ heap_ok 100 s' fl' {[b := 3]})) as H.
  { eapply returns_mono; [apply (malloc_correct 100 demo_heap [(100, 0)] ∅ 10 demo_start); lia|].
    cbv zeta. intros r s' [(_ & _ & _ & H)|(b & fl' & -> & _ & _ & H & _)]; [exfalso; vm_compute in H; done|].
    exists b, fl'. split; [done|]. exact H. }
  unfold returns in H. unfold final. destruct (malloc 100 10 demo_heap) as [[r s]| |] eqn:E; [|done|done].
  assert (r = 5118) as -> by (vm_compute in E; congruence). destruct H as (b & fl & Hr & Hok). assert (b = 5117) as -> by lia.
  pose proof (free_correct 100 s fl {[5117 := 3]} 5117 3 Hok (lookup_singleton_eq _ _)) as H. unfold returns in H.
  destruct (free (5117 + 1) s) as [[u s']| |]; [|done|done]. destruct H as (fl' & Hok' & _ & Hb & _).
  exists s', 5117, fl'. split_and!; [|done|done]. by rewrite delete_singleton_eq in Hok'.
Defined.

(** a request near 2^32 wraps to a block without any room, and one of 2 GB is
    given without any memory *)
Example malloc_wraps :
  nunits_of (2 ^ 32 - 1) = 1 /\
  match malloc 100 (2 ^ 32 - 1) demo_heap with Ok (r, s') => negb (r =? 0) && (size_of (r - 1) s' =? 1) = true | _ => False end.
Proof. by vm_compute. Qed.
Example malloc_2g :
  match malloc 100 (2 ^ 31) demo_heap with Ok (r, s') => negb (r =? 0) && (brk s' =? brk demo_heap) = true | _ => False end.
Proof. by vm_compute. Qed.
