(* ===== verification/Spin.v ===== *)
(** * Spin locks ([spinlock.c])

    [acquire], [release], [holding], [pushcli] and [popcli] as sequences of
    instructions, run by several processors that share the locks, under
    interrupts and while threads move between processors.  Every access to a
    lock is a step of its own, so that all interleavings are considered. *)

From stdpp Require Import functions.
From S2P Require Import Prelude.

Definition NCPU : nat := 8.

(** [cpu] is null when [None]; processors are numbered *)
Record spinlock : Type := mklk { locked : Z; lk_name : list Z; lk_cpu : option nat; pcs : list Z }.
Definition initlock (name : list Z) (lk : spinlock) : spinlock := mklk 0 name None (pcs lk).

(** [getcallerpcs] on the words of the memory: the return addresses along the
    chain of frame pointers, ten at most, then zeros *)
Fixpoint caller_chain (n : nat) (word : Z -> Z) (ebp : Z) : list Z :=
  match n with
  | O => []
  | S n' =>
      if (ebp =? 0) || (ebp <? 0x80000000) || (ebp =? 0xffffffff) then replicate n 0
      else word (u32 (ebp + 4)) :: caller_chain n' word (word ebp)
  end.
Definition getcallerpcs (word : Z -> Z) (v : Z) : list Z := caller_chain 10 word (u32 (v - 8)).

(** what a call was about when it returns to its caller *)
Inductive event : Type := EvAcquire (l : nat) | EvRelease (l : nat) | EvPush | EvPop.

(** the instructions left to execute; [Idle] is kernel code between calls *)
Inductive code : Type :=
| Idle
| Ret (e : event)
| Readeflags (k : bool -> code)
| Cli (k : code)
| Count (eflags : bool) (k : code)
| Popcli (k : code)
| ReadLocked (l : nat) (k : Z -> code)
| CpuIsMine (l : nat) (k : bool -> code)
| Xchg (l : nat) (k : code)
| SetCpu (l : nat) (k : code)
| SetPcs (l : nat) (k : code)
| ClearPcs (l : nat) (k : code)
| ClearCpu (l : nat) (k : code)
| Unlock (l : nat) (k : code)
| Panicked (msg : string).

Definition pushcli (k : code) : code := Readeflags (fun eflags => Cli (Count eflags k)).
Definition popcli (k : code) : code := Popcli k.
Definition holding (l : nat) (k : bool -> code) : code :=
  pushcli (ReadLocked l (fun v => if v =? 0 then popcli (k false) else CpuIsMine l (fun r => popcli (k r)))).
(** what [acquire] and [release] do with the answer of [holding] *)
Definition acquire_go (l : nat) : bool -> code :=
  fun held => if held then Panicked "acquire" else Xchg l (SetCpu l (SetPcs l (Ret (EvAcquire l)))).
Definition release_go (l : nat) : bool -> code :=
  fun held => if negb held then Panicked "release" else ClearPcs l (ClearCpu l (Unlock l (popcli (Ret (EvRelease l))))).
Definition acquire (l : nat) : code := pushcli (holding l (acquire_go l)).
Definition release (l : nat) : code := holding l (release_go l).

(** a processor: [ncli] and [intena], its interrupt flag, the thread that it
    runs, and what that kernel code has: the locks it acquired and the calls of
    [pushcli] it has to undo *)
Record core : Type := mkcore { ncli : Z; intena : bool; iflag : bool; cur : nat; mine : list nat; plain : nat }.
(** a thread: its code, the code that interrupts suspended, the innermost first,
    and the [intena] that [sched] keeps for it *)
Record thread : Type := mkthr { code_of : code; below : list code; saved : option bool }.
Record state : Type := mkst { locks : nat -> spinlock; cores : nat -> core; threads : nat -> thread }.

Definition set_flag (b : bool) (x : core) : core := mkcore (ncli x) (intena x) b (cur x) (mine x) (plain x).
Definition set_ncli (n : Z) (x : core) : core := mkcore n (intena x) (iflag x) (cur x) (mine x) (plain x).
Definition set_intena (b : bool) (x : core) : core := mkcore (ncli x) b (iflag x) (cur x) (mine x) (plain x).
Definition set_cur (t : nat) (x : core) : core := mkcore (ncli x) (intena x) (iflag x) t (mine x) (plain x).
Definition set_books (m : list nat) (p : nat) (x : core) : core := mkcore (ncli x) (intena x) (iflag x) (cur x) m p.
Definition set_code (k : code) (t : thread) : thread := mkthr k (below t) (saved t).
Definition set_saved (o : option bool) (t : thread) : thread := mkthr (code_of t) (below t) o.

(** processor [c] gets the state [x] and goes on at [k], in its thread *)
Definition goto (c : nat) (x : core) (k : code) (s : state) : state :=
  mkst (locks s) (<[c := x]> (cores s)) (<[cur x := set_code k (threads s (cur x))]> (threads s)).
Definition set_lock (l : nat) (lk : spinlock) (s : state) : state := mkst (<[l := lk]> (locks s)) (cores s) (threads s).

(** what the caller has after the call *)
Definition book (e : event) (x : core) : core :=
  match e with
  | EvAcquire l => set_books (l :: mine x) (plain x) x
  | EvPush => set_books (mine x) (S (plain x)) x
  | EvRelease _ | EvPop => x
  end.

(** [mycpu] and what comes after it *)
Definition with_mycpu (c : nat) (x : core) (s : state) (then_ : state) : state :=
  if iflag x then goto c x (Panicked "mycpu called with interrupts enabled") s else then_.

(** one instruction of processor [c]; the memory of the stacks is [word], the
    frame of the call [v] *)
Definition instr (word : Z -> Z) (v : Z) (c : nat) (s : state) : state :=
  let x := cores s c in
  match code_of (threads s (cur x)) with
  | Idle | Panicked _ => s
  | Ret e => goto c (book e x) Idle s
  | Readeflags k => goto c x (k (iflag x)) s
  | Cli k => goto c (set_flag false x) k s
  | Count eflags k =>
      with_mycpu c x s
        (goto c (set_ncli (ncli x + 1) (if ncli x =? 0 then set_intena eflags x else x)) k s)
  | Popcli k =>
      if iflag x then goto c x (Panicked "popcli - interruptible") s
      else
        let x := set_ncli (ncli x - 1) x in
        if ncli x <? 0 then goto c x (Panicked "popcli") s
        else goto c (if (ncli x =? 0) && intena x then set_flag true x else x) k s
  | ReadLocked l k => goto c x (k (locked (locks s l))) s
  | CpuIsMine l k => with_mycpu c x s (goto c x (k (bool_decide (lk_cpu (locks s l) = Some c))) s)
  | Xchg l k =>
      let lk := locks s l in
      let s := set_lock l (mklk 1 (lk_name lk) (lk_cpu lk) (pcs lk)) s in
      if locked lk =? 0 then goto c x k s else s
  | SetCpu l k =>
      let lk := locks s l in
      with_mycpu c x s (goto c x k (set_lock l (mklk (locked lk) (lk_name lk) (Some c) (pcs lk)) s))
  | SetPcs l k =>
      let lk := locks s l in
      goto c x k (set_lock l (mklk (locked lk) (lk_name lk) (lk_cpu lk) (getcallerpcs word v)) s)
  | ClearPcs l k =>
      let lk := locks s l in
      goto c x k (set_lock l (mklk (locked lk) (lk_name lk) (lk_cpu lk) (<[0%nat := 0]> (pcs lk))) s)
  | ClearCpu l k =>
      let lk := locks s l in
      goto c x k (set_lock l (mklk (locked lk) (lk_name lk) None (pcs lk)) s)
  | Unlock l k =>
      let lk := locks s l in
      goto c x k (set_lock l (mklk 0 (lk_name lk) (lk_cpu lk) (pcs lk)) s)
  end.

(** ** What the kernel does with them

    Kernel code calls [acquire] only for a lock that it does not have, [release]
    for one that it has, and [popcli] to undo a [pushcli]; it turns interrupts
    on, and returns from an interrupt, when it has nothing; it switches threads
    when it has exactly one lock, as [sched] checks. *)
Definition may_call (x : core) (e : event) : bool :=
  match e with
  | EvAcquire l => bool_decide (l ∉ mine x)
  | EvRelease l => bool_decide (l ∈ mine x)
  | EvPush => true
  | EvPop => negb (plain x =? 0)%nat
  end.
Definition call (e : event) (x : core) : core * code :=
  match e with
  | EvAcquire l => (x, acquire l)
  | EvRelease l => (set_books (filter (fun l' => l' <> l) (mine x)) (plain x) x, release l)
  | EvPush => (x, pushcli (Ret EvPush))
  | EvPop => (set_books (mine x) (pred (plain x)) x, popcli (Ret EvPop))
  end.

Inductive action : Type :=
| AInstr (word : Z -> Z) (v : Z)      (** the next instruction *)
| ACall (e : event)
| ASti
| ACli
| AInterrupt                          (** an interrupt is taken: its handler starts *)
| AIret                               (** and returns *)
| ASwtch (t : nat) (keep : bool).     (** [swtch] to a thread that no processor runs; [sched] keeps [intena] *)

Definition nothing_held (x : core) : bool := match mine x with [] => (plain x =? 0)%nat | _ => false end.
Definition one_lock (x : core) : bool := match mine x with [_] => (plain x =? 0)%nat | _ => false end.
Definition running (s : state) (c : nat) : code := code_of (threads s (cur (cores s c))).
Definition is_idle (k : code) : bool := match k with Idle => true | _ => false end.
Definition parked (s : state) (t : nat) : bool :=
  forallb (fun c => negb (cur (cores s c) =? t)%nat) (seq 0 NCPU) && is_idle (code_of (threads s t)).

(** [swtch] in [sched] and [scheduler] *)
Definition swtch (c t : nat) (keep : bool) (s : state) : state :=
  let x := cores s c in
  let old := set_saved (if keep then Some (intena x) else None) (threads s (cur x)) in
  let x' := set_cur t (match saved (threads s t) with Some b => set_intena b x | None => x end) in
  mkst (locks s) (<[c := x']> (cores s)) (<[cur x := old]> (threads s)).

Definition act (c : nat) (a : action) (s : state) : option state :=
  let x := cores s c in
  let t := threads s (cur x) in
  let guard (b : bool) (s : state) := if b && is_idle (code_of t) then Some s else None in
  match a with
  | AInstr word v => Some (instr word v c s)
  | ACall e => guard (may_call x e) (goto c (call e x).1 (call e x).2 s)
  | ASti => guard (nothing_held x) (goto c (set_flag true x) Idle s)
  | ACli => guard true (goto c (set_flag false x) Idle s)
  | AInterrupt =>
      if iflag x then
        Some (mkst (locks s) (<[c := set_flag false x]> (cores s)) (<[cur x := mkthr Idle (code_of t :: below t) (saved t)]> (threads s)))
      else None
  | AIret =>
      match below t with
      | [] => None
      | k :: ks => guard (nothing_held x)
          (mkst (locks s) (<[c := set_flag true x]> (cores s)) (<[cur x := mkthr k ks (saved t)]> (threads s)))
      end
  | ASwtch t' keep => guard (one_lock x && negb (iflag x) && parked s t') (swtch c t' keep s)
  end.

Fixpoint run (l : list (nat * action)) (s : state) : option state :=
  match l with
  | [] => Some s
  | (c, a) :: l' => if (c <? NCPU)%nat then match act c a s with Some s' => run l' s' | None => None end else None
  end.

(** processor [c] starts with thread [c] *)
Definition boot (junk : nat -> spinlock) : state :=
  mkst (fun l => initlock [] (junk l)) (fun c => mkcore 0 false false c [] 0) (fun _ => mkthr Idle [] None).

(** ** The invariant *)

(** the calls of [pushcli] that the code has to account for when it returns *)
Fixpoint pushed (k : code) : Z :=
  match k with
  | Idle | Ret (EvRelease _) | Ret EvPop => 0
  | Ret (EvAcquire _) | Ret EvPush | Panicked _ => 1
  | Readeflags k => pushed (k true)
  | CpuIsMine _ k => pushed (k true)
  | ReadLocked _ k => pushed (k 1)
  | Count _ k => pushed k - 1
  | Popcli k => pushed k + 1
  | Cli k | Xchg _ k | SetCpu _ k | SetPcs _ k | ClearPcs _ k | ClearCpu _ k | Unlock _ k => pushed k
  end.
(** the lock that the code has without the caller having it *)
Fixpoint claim (k : code) : option nat :=
  match k with
  | SetCpu l _ | SetPcs l _ | Ret (EvAcquire l) | ClearPcs l _ | ClearCpu l _ | Unlock l _ => Some l
  | Readeflags k => claim (k true)
  | CpuIsMine _ k => claim (k true)
  | ReadLocked _ k => claim (k 1)
  | Cli k | Count _ k | Popcli k => claim k
  | Idle | Ret _ | Xchg _ _ | Panicked _ => None
  end.
Definition counting (k : code) : bool := match k with Count _ _ => true | _ => false end.
(** what [lk_cpu] is while processor [c], which is at [k], has the lock [l] *)
Definition shown (c : nat) (k : code) (l : nat) : option nat :=
  match k with
  | SetCpu l' _ | Unlock l' _ => if (l =? l')%nat then None else Some c
  | _ => Some c
  end.

(** the points inside a call of [pushcli], going on at [k] *)
Inductive in_push (k : code) : code -> Prop :=
| ip_read : in_push k (pushcli k)
| ip_cli b : in_push k (Cli (Count b k))
| ip_count b : in_push k (Count b k).
(** and inside [holding], whose answer is [r] *)
Inductive in_holding (l : nat) (go : bool -> code) (r : bool) : code -> Prop :=
| ih_push k : in_push (ReadLocked l (fun v => if v =? 0 then popcli (go false) else CpuIsMine l (fun r => popcli (go r)))) k -> in_holding l go r k
| ih_locked : in_holding l go r (ReadLocked l (fun v => if v =? 0 then popcli (go false) else CpuIsMine l (fun r => popcli (go r))))
| ih_cpu : in_holding l go r (CpuIsMine l (fun r => popcli (go r)))
| ih_pop : in_holding l go r (popcli (go r)).

(** the code of a processor whose caller has the locks [m] *)
Inductive point (m : list nat) : code -> Prop :=
| pt_idle : point m Idle
| pt_push k : in_push (Ret EvPush) k -> point m k
| pt_pushed : point m (Ret EvPush)
| pt_pop : point m (popcli (Ret EvPop))
| pt_popped : point m (Ret EvPop)
| pt_acquire l k : l ∉ m -> in_push (holding l (acquire_go l)) k -> point m k
| pt_acquire_holding l k : l ∉ m -> in_holding l (acquire_go l) false k -> point m k
| pt_xchg l : l ∉ m -> point m (acquire_go l false)
| pt_setcpu l : l ∉ m -> point m (SetCpu l (SetPcs l (Ret (EvAcquire l))))
| pt_setpcs l : l ∉ m -> point m (SetPcs l (Ret (EvAcquire l)))
| pt_acquired l : l ∉ m -> point m (Ret (EvAcquire l))
| pt_release_holding l k : l ∉ m -> in_holding l (release_go l) true k -> point m k
| pt_clearpcs l : l ∉ m -> point m (release_go l true)
| pt_clearcpu l : l ∉ m -> point m (ClearCpu l (Unlock l (popcli (Ret (EvRelease l)))))
| pt_unlock l : l ∉ m -> point m (Unlock l (popcli (Ret (EvRelease l))))
| pt_release_pop l : point m (popcli (Ret (EvRelease l)))
| pt_released l : point m (Ret (EvRelease l)).

Record core_ok (x : core) (k : code) : Prop := {
  co_point : point (mine x) k;
  co_nodup : NoDup (mine x);
  co_ncli : ncli x = Z.of_nat (length (mine x)) + Z.of_nat (plain x) + pushed k;
  co_flag : iflag x = true -> ncli x = 0 /\ counting k = false
}.
Definition early (k : code) : Prop := point [] k /\ pushed k = 0 /\ counting k = false.
Definition owns (x : core) (k : code) (l : nat) : Prop := l ∈ mine x \/ claim k = Some l.
Definition lock_ok (s : state) (l : nat) : Prop :=
  (locked (locks s l) = 0 /\ lk_cpu (locks s l) = None /\ forall c, (c < NCPU)%nat -> ~ owns (cores s c) (running s c) l) \/
  (exists c, (c < NCPU)%nat /\ owns (cores s c) (running s c) l /\
     (forall c', (c' < NCPU)%nat -> owns (cores s c') (running s c') l -> c' = c) /\
     locked (locks s l) = 1 /\ lk_cpu (locks s l) = shown c (running s c) l).

Record inv (s : state) : Prop := {
  i_core c : (c < NCPU)%nat -> core_ok (cores s c) (running s c);
  i_cur c c' : (c < NCPU)%nat -> (c' < NCPU)%nat -> cur (cores s c) = cur (cores s c') -> c = c';
  i_lock l : lock_ok s l;
  i_below t : Forall early (below (threads s t))
}.
(** parked threads' code is [Idle] *)
Definition inv_parked (s : state) : Prop :=
  forall t, (forall c, (c < NCPU)%nat -> cur (cores s c) <> t) -> code_of (threads s t) = Idle.

#[export] Instance owns_dec x k l : Decision (owns x k l).
Proof. unfold owns. apply _. Defined.

Ltac by_point H := inversion H; subst; repeat match goal with
  | H : in_holding _ _ _ _ |- _ => inversion H; subst; clear H
  | H : in_push _ _ |- _ => inversion H; subst; clear H end; simpl in *.

Lemma claim_not_mine m k l : point m k -> claim k = Some l -> l ∉ m.
Proof. intros Hp Hc. by_point Hp; congruence. Qed.
Lemma claim_pushed m k : point m k -> pushed k = 0 -> claim k = None.
Proof. intros Hp Hc. by_point Hp; done. Qed.
Lemma shown_pushed m k c l : point m k -> pushed k = 0 -> shown c k l = Some c.
Proof. intros Hp Hc. by_point Hp; done. Qed.
Lemma pushed_pos m k : point m k -> 0 <= pushed k.
Proof. intros Hp. by_point Hp; lia. Qed.
Lemma not_panicked m k msg : point m k -> k <> Panicked msg.
Proof. intros Hp ->. by_point Hp. Qed.

Lemma shown_mine c m k l : point m k -> l ∈ m -> shown c k l = Some c.
Proof.
  intros Hp Hl. assert (forall l', l' ∉ m -> (l =? l')%nat = false) as E by (intros l' Hl'; apply Nat.eqb_neq; by intros ->).
  by_point Hp; try done; by rewrite E.
Qed.

(** nothing changes for the locks of the other processors when [c] goes on *)
Definition lock_step (c : nat) (x : core) (k : code) (x' : core) (k' : code) (lk lk' : spinlock) (l : nat) : Prop :=
  if decide (owns x k l) then
    locked lk = 1 -> lk_cpu lk = shown c k l ->
    if decide (owns x' k' l) then locked lk' = 1 /\ lk_cpu lk' = shown c k' l else locked lk' = 0 /\ lk_cpu lk' = None
  else if decide (owns x' k' l) then locked lk = 0 /\ locked lk' = 1 /\ (lk_cpu lk = None -> lk_cpu lk' = shown c k' l)
  else locked lk' = locked lk /\ lk_cpu lk' = lk_cpu lk.

Lemma goto_running s c x k c' : (forall c', (c' < NCPU)%nat -> c' <> c -> cur (cores s c') <> cur x) -> (c' < NCPU)%nat ->
  running (goto c x k s) c' = if decide (c' = c) then k else running s c'.
Proof.
  intros Hne Hc'. unfold running, goto; cbn. destruct (decide (c' = c)) as [->|Hn].
  - by rewrite !fn_lookup_insert.
  - rewrite (fn_lookup_insert_ne (cores s)) by done. by rewrite fn_lookup_insert_ne by (by apply not_eq_sym, Hne).
Qed.

Lemma inv_goto s c x' k' ls : inv s -> (c < NCPU)%nat -> core_ok x' k' -> cur x' = cur (cores s c) ->
  (forall l, lock_step c (cores s c) (running s c) x' k' (locks s l) (ls l) l) ->
  inv (goto c x' k' (mkst ls (cores s) (threads s))).
Proof.
  intros [I1 I2 I3 I4] Hc Hok Hcur Hl. set (s' := goto _ _ _ _).
  assert (forall c', (c' < NCPU)%nat -> running s' c' = if decide (c' = c) then k' else running s c') as Hr.
  { intros c' Hc'. unfold s'. rewrite goto_running; [done | | done]. intros c2 Hc2 Hn E. apply Hn, I2; [done..|]. by rewrite <- Hcur. }
  assert (forall c', cores s' c' = if decide (c' = c) then x' else cores s c') as Hx.
  { intros c'. cbn. destruct (decide (c' = c)) as [->|]; [by rewrite fn_lookup_insert | by rewrite fn_lookup_insert_ne]. }
  split.
  - intros c' Hc'. rewrite Hr, Hx by done. destruct (decide (c' = c)) as [->|]; [done | by apply I1].
  - intros c1 c2 H1 H2. rewrite !Hx. destruct (decide (c1 = c)) as [->|], (decide (c2 = c)) as [->|]; rewrite ?Hcur; eauto.
  - intros l. specialize (Hl l). unfold lock_step in Hl. unfold lock_ok. change (locks s' l) with (ls l).
    destruct (I3 l) as [(F1 & F2 & F3)|(o & Ho & O1 & O2 & O3 & O4)].
    + rewrite decide_False in Hl by (by apply F3). destruct (decide (owns x' k' l)) as [Hown|Hown].
      * destruct Hl as (_ & L1 & L2). right. exists c. rewrite Hx, Hr, !decide_True by done. split_and!; [done | done | | done | by apply L2].
        intros c' Hc'. rewrite Hx, Hr by done. destruct (decide (c' = c)); [done|]. intros Hw. by destruct (F3 c').
      * destruct Hl as (L1 & L2). left. rewrite L1, L2. split_and!; [done..|]. intros c' Hc'. rewrite Hx, Hr by done.
        destruct (decide (c' = c)); [done | by apply F3].
    + destruct (decide (o = c)) as [->|Hoc].
      * rewrite decide_True in Hl by done. specialize (Hl O3 O4). destruct (decide (owns x' k' l)) as [Hown|Hown].
        -- right. exists c. rewrite Hx, Hr, !decide_True by done. split_and!; try tauto. intros c' Hc'. rewrite Hx, Hr by done.
           destruct (decide (c' = c)); [done|]. by apply O2.
        -- left. split_and!; try tauto. intros c' Hc'. rewrite Hx, Hr by done. destruct (decide (c' = c)); [done|].
           intros Hw. by rewrite (O2 c') in n.
      * assert (~ owns (cores s c) (running s c) l) as Hno by (intros Hw; by apply Hoc; symmetry; apply O2).
        rewrite decide_False in Hl by done. destruct (decide (owns x' k' l)) as [Hown|Hown]; [destruct Hl; lia|].
        destruct Hl as (L1 & L2). right. exists o. rewrite Hx, Hr, L1, L2 by done. destruct (decide (o = c)) as [|_]; [done|].
        split_and!; try done. intros c' Hc'. rewrite Hx, Hr by done. destruct (decide (c' = c)) as [->|]; [done|]. by apply O2.
  - intros t. cbn. destruct (decide (t = cur x')) as [->|]; [rewrite fn_lookup_insert; by apply I4 | rewrite fn_lookup_insert_ne by done; apply I4].
Qed.

Lemma inv_locks s ls : inv s -> (forall l, locked (ls l) = locked (locks s l) /\ lk_cpu (ls l) = lk_cpu (locks s l)) ->
  inv (mkst ls (cores s) (threads s)).
Proof.
  intros [I1 I2 I3 I4] E. split; [exact I1 | exact I2 | | exact I4]. intros l. destruct (E l) as [E1 E2]. unfold lock_ok, running. cbn.
  rewrite E1, E2. apply I3.
Qed.

(** a step that touches no lock *)
Lemma lock_step_same c x k x' k' lk l : (owns x' k' l <-> owns x k l) -> shown c k' l = shown c k l -> lock_step c x k x' k' lk lk l.
Proof. intros E1 E2. unfold lock_step. rewrite E2. destruct (decide (owns x k l)), (decide (owns x' k' l)); tauto. Qed.

Section Instr.
Context (s : state) (c : nat).
Hypothesis I : inv s.
Hypothesis Hc : (c < NCPU)%nat.
Notation x := (cores s c) (only parsing).
Notation k := (running s c) (only parsing).

Lemma step_goto x' k' : core_ok x' k' -> cur x' = cur x -> mine x' = mine x -> claim k' = claim k -> (forall l, shown c k' l = shown c k l) ->
  inv (goto c x' k' s).
Proof using I Hc.
  intros Hok E1 E2 E3 E4. apply (inv_goto s c x' k' (locks s)); [done..|]. intros l. apply lock_step_same; [|done]. unfold owns. by rewrite E2, E3.
Qed.

Lemma step_panic msg : iflag x = true -> counting k = true \/ ncli x <> 0 -> inv (goto c x (Panicked msg) s).
Proof using I Hc.
  intros Hf Hn. exfalso. destruct (co_flag _ _ (i_core s I c Hc)) as [F1 F2]; [done|]. destruct Hn; congruence.
Qed.

(** the processor goes on at [k'], which is the next point of the same call *)
Lemma step_next x' k' : point (mine x) k' -> ncli x' = ncli x + (pushed k' - pushed k) -> cur x' = cur x -> mine x' = mine x -> plain x' = plain x ->
  (iflag x' = true -> ncli x' = 0 /\ counting k' = false) -> claim k' = claim k -> (forall l, shown c k' l = shown c k l) -> inv (goto c x' k' s).
Proof using I Hc.
  intros Hp Hn E1 E2 E3 Hf E4 E5. destruct (i_core s I c Hc) as [P N C F]. apply step_goto; try done.
  split; [by rewrite E2 | by rewrite E2 | rewrite E2, E3; lia | done].
Qed.

Lemma flag_off : counting k = true \/ pushed k > 0 -> iflag x = false.
Proof using I Hc.
  intros Hn. destruct (i_core s I c Hc) as [P N C F]. destruct (iflag x); [|done]. destruct (F eq_refl) as [F1 F2]. destruct Hn as [Hn|Hn]; [congruence | lia].
Qed.

Lemma instr_push word v k0 : in_push k0 k -> (forall j, in_push k0 j -> point (mine x) j) -> point (mine x) k0 ->
  counting k0 = false -> (forall l, shown c k0 l = Some c) -> inv (instr word v c s).
Proof using I Hc.
  intros Hk Hj H0 Hco Hs. pose proof (co_flag _ _ (i_core s I c Hc)) as F. unfold instr. change (code_of _) with k.
  inversion Hk as [E|b E|b E]; rewrite <- E in F; cbn beta iota delta [pushcli].
  - apply step_next; rewrite <- ?E; [apply Hj; constructor | cbn; lia | done | done | done | intros Hf; split; [by apply F | done] | done | done].
  - apply step_next; rewrite <- ?E; [apply Hj; constructor | cbn; lia | done | done | done | done | done | done].
  - unfold with_mycpu. rewrite flag_off by (rewrite <- E; by left).
    assert (iflag x = false) as Ef by (apply flag_off; rewrite <- E; by left).
    apply step_next; rewrite <- ?E; [done | cbn; lia | by destruct (_ =? 0).. | | done | by intros; rewrite Hs].
    destruct (_ =? 0); cbn; congruence.
Qed.

Lemma instr_pop word v k0 : k = popcli k0 -> point (mine x) k0 -> 0 <= pushed k0 -> counting k0 = false -> (forall l, shown c k0 l = Some c) -> inv (instr word v c s).
Proof using I Hc.
  intros E H0 Hp Hco Hs. pose proof (co_ncli _ _ (i_core s I c Hc)) as C. rewrite E in C. cbn in C.
  unfold instr. change (code_of _) with k. rewrite E. cbn beta iota delta [popcli]. rewrite flag_off by (rewrite E; cbn; right; lia).
  assert (iflag x = false) as Ef by (apply flag_off; rewrite E; cbn; right; lia).
  destruct (Z.ltb_spec (ncli (set_ncli (ncli x - 1) x)) 0) as [Hlt|_]; [cbn in Hlt; lia|].
  apply step_next; rewrite ?E; [done | destruct (_ && _); cbn; lia | by destruct (_ && _).. | | done | by intros; rewrite Hs].
  destruct ((_ =? 0) && _) eqn:Ez; cbn in *; [|congruence]. intros _. split; [lia | done].
Qed.

(** [holding] answers whether this processor has the lock *)
Lemma instr_holding word v l go r : in_holding l go r k -> (forall j, in_holding l go r j -> point (mine x) j) -> point (mine x) (go r) ->
  0 <= pushed (go r) -> pushed (go true) = pushed (go r) -> claim (go true) = claim (go r) ->
  counting (go r) = false -> (forall l, shown c (go r) l = Some c) ->
  (locked (locks s l) = 0 -> r = false) -> bool_decide (lk_cpu (locks s l) = Some c) = r -> inv (instr word v c s).
Proof using I Hc.
  intros Hk Hj H0 Hp Hp2 Hcl Hco Hs Hr Hr2.
  assert (pushed k > 0 -> iflag x = false) as Ef by (intros; apply flag_off; by right).
  inversion Hk as [k1 Hpush E|E|E|E]; [|rewrite <- E in Ef; cbn in Ef; specialize (Ef ltac:(lia))..].
  - eapply instr_push; [exact Hpush | | | done | done]; [intros j Hin; by apply Hj, ih_push | by apply Hj, ih_locked].
  - unfold instr. change (code_of _) with k. rewrite <- E. destruct (Z.eqb_spec (locked (locks s l)) 0) as [El|El].
    + specialize (Hr El). rewrite Hr in *. apply step_next; rewrite <- ?E; [apply Hj, ih_pop | cbn; lia | done | done | done | by rewrite Ef | cbn; by rewrite Hcl | done].
    + apply step_next; rewrite <- ?E; [apply Hj, ih_cpu | cbn; lia | done | done | done | by rewrite Ef | done | done].
  - unfold instr. change (code_of _) with k. rewrite <- E. unfold with_mycpu. rewrite Ef, Hr2.
    apply step_next; rewrite <- ?E; [apply Hj, ih_pop | cbn; lia | done | done | done | by rewrite Ef | cbn; by rewrite Hcl | done].
  - apply (instr_pop word v (go r)); done.
Qed.

(** an instruction on the lock [l], with interrupts off *)
Lemma instr_lock l k' lk : pushed k > 0 -> point (mine x) k' -> pushed k' = pushed k -> counting k' = false ->
  (forall l', l' <> l -> owns x k' l' <-> owns x k l') -> (forall l', l' <> l -> shown c k' l' = shown c k l') ->
  lock_step c x k x k' (locks s l) lk l -> inv (goto c x k' (set_lock l lk s)).
Proof using I Hc.
  intros Hp H0 Hp2 Hco Ho Hs Hl. destruct (i_core s I c Hc) as [P N C F].
  apply inv_goto; [done | done | | done |].
  - split; [done | done | lia |]. intros Hf. rewrite flag_off in Hf by by right. done.
  - intros l'. destruct (decide (l' = l)) as [->|Hne]; [by rewrite fn_lookup_insert|]. rewrite fn_lookup_insert_ne by done.
    specialize (Ho l' Hne). specialize (Hs l' Hne). unfold lock_step. rewrite Hs. destruct (decide (owns x k l')), (decide (owns x k' l')); tauto.
Qed.

Lemma mine_not_other l : l ∉ mine x -> claim k <> Some l -> lk_cpu (locks s l) <> Some c.
Proof using I Hc.
  intros H1 H2 E. destruct (i_lock s I l) as [(_ & F2 & _)|(o & Ho & O1 & O2 & O3 & O4)]; [congruence|].
  assert (o = c) as ->.
  { rewrite E in O4. unfold shown in O4. destruct (running s o); repeat case_match; congruence. }
  destruct O1; contradiction.
Qed.
Lemma mine_shown l : claim k = Some l -> locked (locks s l) = 1 /\ lk_cpu (locks s l) = shown c k l.
Proof using I Hc.
  intros Hl. destruct (i_lock s I l) as [(_ & _ & F3)|(o & Ho & O1 & O2 & O3 & O4)]; [destruct (F3 c Hc); by right|].
  assert (c = o) as -> by (apply O2; [done | by right]). done.
Qed.

(** an instruction on the lock that the running call has *)
Lemma instr_owned l k' lk : claim k = Some l -> point (mine x) k' -> pushed k > 0 -> pushed k' = pushed k -> counting k' = false ->
  (forall l', l' <> l -> shown c k' l' = shown c k l') ->
  (claim k' = Some l /\ locked lk = 1 /\ lk_cpu lk = shown c k' l) \/ (claim k' = None /\ locked lk = 0 /\ lk_cpu lk = None) ->
  inv (goto c x k' (set_lock l lk s)).
Proof using I Hc.
  intros Hcl H0 Hp Hp2 Hco Hs Hq. pose proof (claim_not_mine _ _ _ (co_point _ _ (i_core s I c Hc)) Hcl) as Hl.
  apply instr_lock; [done..| |done|].
  - intros l' Hne. unfold owns. rewrite Hcl. destruct Hq as [(-> & _)|(-> & _)]; [done|]. split; intros [H|H]; try tauto; congruence.
  - unfold lock_step. rewrite decide_True by by right. intros _ _. destruct Hq as [(E & L)|(E & L)].
    + by rewrite decide_True by by right.
    + rewrite decide_False; [done|]. unfold owns. rewrite E. intros [H|H]; [done | congruence].
Qed.

Lemma instr_ret e word v : k = Ret e -> inv (instr word v c s).
Proof using I Hc.
  intros E. destruct (i_core s I c Hc) as [P N C F]. rewrite E in P, C, F. unfold instr. change (code_of _) with k. rewrite E.
  apply (inv_goto s c _ _ (locks s)); [done | done | | by destruct e |].
  - destruct e as [l| | |]; (split; [constructor | | cbn in *; lia | done]); try done. constructor; [by apply (claim_not_mine _ _ _ P) | done].
  - intros l. rewrite E. apply lock_step_same; [|done]. unfold owns. destruct e; cbn; rewrite ?elem_of_cons; split; intros [H|H]; try tauto; try done.
    + destruct H as [->|]; tauto.
    + injection H as ->. tauto.
Qed.

Lemma inv_instr word v : inv (instr word v c s).
Proof using I Hc.
  pose proof (i_core s I c Hc) as [P _ _ _]. inversion P as [E|k0 Hk|E|E|E|l k0 Hl Hk|l k0 Hl Hk|l Hl E|l Hl E|l Hl E|l Hl E|l k0 Hl Hk|l Hl E|l Hl E|l Hl E|l E|l E].
  - unfold instr. change (code_of _) with k. by rewrite <- E.
  - by eapply instr_push; [exact Hk | constructor | constructor | |].
  - by eapply instr_ret.
  - by eapply instr_pop; [done | constructor | | |].
  - by eapply instr_ret.
  - eapply instr_push; [exact Hk | intros; by eapply pt_acquire | by eapply pt_acquire_holding, ih_push, ip_read | done | done].
  - eapply instr_holding; [exact Hk | intros; by eapply pt_acquire_holding | by apply pt_xchg | done..|].
    apply bool_decide_false, mine_not_other; [done|]. by_point Hk; congruence.
  - pose proof (i_lock s I l) as L. unfold instr. change (code_of _) with k. rewrite <- E. cbn beta iota delta [acquire_go].
    destruct (Z.eqb_spec (locked (locks s l)) 0) as [L0|L0].
    + apply instr_lock; rewrite <- ?E; [done | by apply pt_setcpu | done | done | | |].
      * intros l' Hne. unfold owns. cbn. split; intros [H|H]; try tauto; congruence.
      * intros l' Hne. cbn. by rewrite (proj2 (Nat.eqb_neq l' l)).
      * unfold lock_step, owns. cbn. rewrite decide_False, decide_True; [| by right | intros [H|H]; done]. by rewrite Nat.eqb_refl.
    + apply inv_locks; [done|]. intros l'. destruct (decide (l' = l)) as [->|Hne]; [rewrite fn_lookup_insert | by rewrite fn_lookup_insert_ne].
      destruct L as [(L1 & _)|(o & _ & _ & _ & L1 & _)]; [done | by rewrite L1].
  - unfold instr, with_mycpu. change (code_of _) with k. rewrite <- E. rewrite flag_off by (rewrite <- E; by right). apply instr_owned; rewrite <- ?E; [done | by constructor | done | done | done | intros l' Hne; cbn; by rewrite (proj2 (Nat.eqb_neq l' l)) | left; destruct (mine_shown l ltac:(by rewrite <- E)) as [L1 L2]; rewrite <- E in L2; done].
  - unfold instr, with_mycpu. change (code_of _) with k. rewrite <- E. apply instr_owned; rewrite <- ?E; [done | by constructor | done | done | done | done | left; destruct (mine_shown l ltac:(by rewrite <- E)) as [L1 L2]; rewrite <- E in L2; done].
  - by eapply instr_ret.
  - assert (claim k = Some l) as Hcl by (by_point Hk; done). destruct (mine_shown l Hcl) as [L1 L2].
    eapply instr_holding; [exact Hk | intros; by eapply pt_release_holding | by apply pt_clearpcs | done.. | by rewrite L1 |].
    rewrite L2. apply bool_decide_true. by_point Hk; done.
  - unfold instr, with_mycpu. change (code_of _) with k. rewrite <- E. apply instr_owned; rewrite <- ?E; [done | by constructor | done | done | done | done | left; destruct (mine_shown l ltac:(by rewrite <- E)) as [L1 L2]; rewrite <- E in L2; done].
  - unfold instr, with_mycpu. change (code_of _) with k. rewrite <- E. apply instr_owned; rewrite <- ?E; [done | by constructor | done | done | done | intros l' Hne; cbn; by rewrite (proj2 (Nat.eqb_neq l' l)) | left; destruct (mine_shown l ltac:(by rewrite <- E)) as [L1 L2]; rewrite <- E in L2; cbn; by rewrite Nat.eqb_refl].
  - unfold instr, with_mycpu. change (code_of _) with k. rewrite <- E. apply instr_owned; rewrite <- ?E; [done | by constructor | done | done | done | intros l' Hne; cbn; by rewrite (proj2 (Nat.eqb_neq l' l)) | right; destruct (mine_shown l ltac:(by rewrite <- E)) as [L1 L2]; rewrite <- E in L2; cbn in L2; by rewrite Nat.eqb_refl in L2].
  - by eapply instr_pop; [done | constructor | | |].
  - by eapply instr_ret.
Qed.
End Instr.

Lemma inv_threads s th : inv s -> (forall t, code_of (th t) = code_of (threads s t)) -> (forall t, Forall early (below (th t))) ->
  inv (mkst (locks s) (cores s) th).
Proof.
  intros [I1 I2 I3 I4] E1 E2.
  assert (forall c, running (mkst (locks s) (cores s) th) c = running s c) as Er by (intros; apply E1).
  split; [| exact I2 | | exact E2].
  - intros c Hc. rewrite Er. by apply I1.
  - intros l. destruct (I3 l) as [(F1 & F2 & F3)|(o & Ho & O1 & O2 & O3 & O4)]; [left | right; exists o]; rewrite ?Er; split_and!; try done.
    + intros c Hc. rewrite Er. by apply F3.
    + intros c' Hc'. rewrite Er. by apply O2.
Qed.

Lemma nothing_held_spec x : nothing_held x = true -> mine x = [] /\ plain x = 0%nat.
Proof. unfold nothing_held. destruct (mine x); [|done]. by intros ->%Nat.eqb_eq. Qed.

Lemma filter_absent l (m : list nat) : l ∉ m -> filter (fun l' => l' <> l) m = m.
Proof.
  induction m as [|a m IH]; intros Hl; [done|]. apply not_elem_of_cons in Hl as [Ha Hl]. rewrite filter_cons_True by done. by rewrite IH.
Qed.

Lemma length_without l (m : list nat) : NoDup m -> l ∈ m -> length m = S (length (filter (fun l' => l' <> l) m)).
Proof.
  induction m as [|a m IH]; intros Hn Hl; [by apply elem_of_nil in Hl|]. apply NoDup_cons in Hn as [Ha Hn].
  destruct (decide (a = l)) as [->|Hne].
  - rewrite filter_cons_False by (by intros H; apply H). cbn. f_equal. by rewrite filter_absent.
  - rewrite filter_cons_True by done. cbn. f_equal. apply IH; [done|]. by apply elem_of_cons in Hl as [->|].
Qed.

Section Act.
Context (s : state) (c : nat).
Hypothesis I : inv s.
Hypothesis Hc : (c < NCPU)%nat.
Notation x := (cores s c) (only parsing).
Notation k := (running s c) (only parsing).

Lemma inv_call e : k = Idle -> may_call x e = true -> inv (goto c (call e x).1 (call e x).2 s).
Proof using I Hc.
  intros E Hm. destruct (i_core s I c Hc) as [P N C F]. rewrite E in C, F. cbn in C.
  apply (inv_goto s c _ _ (locks s)); [done | done | | by destruct e |].
  - destruct e as [l|l| |]; cbn in Hm |- *.
    + apply bool_decide_eq_true in Hm. split; [by eapply pt_acquire; [|constructor] | done | cbn; lia | intros Hf; split; [by apply F | done]].
    + apply bool_decide_eq_true in Hm. pose proof (length_without l (mine x) N Hm). split; cbn; [| by apply NoDup_filter | lia | intros Hf; destruct (F Hf); lia].
      eapply pt_release_holding; [|by apply ih_push, ip_read]. rewrite list_elem_of_filter. tauto.
    + split; [by apply pt_push, ip_read | done | cbn; lia | intros Hf; split; [by apply F | done]].
    + apply negb_true_iff, Nat.eqb_neq in Hm. split; [apply pt_pop | done | cbn; lia | intros Hf; destruct (F Hf); lia].
  - intros l. apply lock_step_same; rewrite E; [|by destruct e]. unfold owns. destruct e as [l'|l'| |]; cbn in Hm |- *; try done.
    apply bool_decide_eq_true in Hm. rewrite list_elem_of_filter. split; [intros [[_ H]|[= ->]]; by left|].
    intros [H|H]; [|done]. destruct (decide (l = l')) as [->|]; [by right | by left].
Qed.

Lemma inv_flag b : k = Idle -> (b = true -> nothing_held x = true) -> inv (goto c (set_flag b x) Idle s).
Proof using I Hc.
  intros E Hb. destruct (i_core s I c Hc) as [P N C F]. rewrite E in C. cbn in C. apply step_goto; [done | done | | done | done | by rewrite E | by intros; rewrite E].
  split; [constructor | done | cbn; lia |]. cbn. intros ->. destruct (nothing_held_spec x (Hb eq_refl)) as [E1 E2]. rewrite E1, E2 in C. cbn in C. by split; [lia|].
Qed.

(** what can be suspended: the caller has nothing, and the call has not yet begun to take anything *)
Lemma flag_early : iflag x = true -> early k /\ mine x = [] /\ plain x = 0%nat.
Proof using I Hc.
  intros Ef. destruct (i_core s I c Hc) as [P N C F]. destruct (F Ef) as [F1 F2].
  pose proof (pushed_pos _ _ P). assert (mine x = []) as Em by (destruct (mine x); [done | cbn in C; lia]).
  unfold early. rewrite <- Em. split_and!; [done | | done | done |]; rewrite ?Em in C; cbn in C; lia.
Qed.

(** the processor goes on at [k'] with other code suspended; neither code has a lock *)
Lemma inv_frame b k' bl : inv (goto c (set_flag b x) k' s) -> Forall early bl ->
  inv (mkst (locks s) (<[c := set_flag b x]> (cores s)) (<[cur x := mkthr k' bl (saved (threads s (cur x)))]> (threads s))).
Proof using I.
  intros I' Hb. apply (inv_threads (goto c (set_flag b x) k' s)); [done | |]; intros t; cbn; destruct (decide (t = cur x)) as [->|Hne].
  - by rewrite !fn_lookup_insert.
  - by rewrite !fn_lookup_insert_ne.
  - by rewrite fn_lookup_insert.
  - rewrite fn_lookup_insert_ne by done. apply I.
Qed.

Lemma inv_interrupt : iflag x = true ->
  inv (mkst (locks s) (<[c := set_flag false x]> (cores s)) (<[cur x := mkthr Idle (k :: below (threads s (cur x))) (saved (threads s (cur x)))]> (threads s))).
Proof using I Hc.
  intros Ef. destruct (flag_early Ef) as (He & Em & Epl). destruct (i_core s I c Hc) as [P N C F]. destruct He as (H1 & H2 & H3).
  apply inv_frame; [|by constructor; [|apply I]]. apply step_goto; [done | done | | done | done | by rewrite (claim_pushed _ _ P H2) |].
  - split; cbn; rewrite ?Em, ?Epl in *; [constructor | constructor | cbn in *; lia | done].
  - intros l. by rewrite (shown_pushed _ _ _ _ P).
Qed.

Lemma inv_iret kk ks : k = Idle -> nothing_held x = true -> below (threads s (cur x)) = kk :: ks ->
  inv (mkst (locks s) (<[c := set_flag true x]> (cores s)) (<[cur x := mkthr kk ks (saved (threads s (cur x)))]> (threads s))).
Proof using I Hc.
  intros E Hn Eb. destruct (nothing_held_spec x Hn) as [Em Epl]. destruct (i_core s I c Hc) as [P N C F]. rewrite E, Em, Epl in C. cbn in C.
  pose proof (i_below s I (cur x)) as Hb. rewrite Eb in Hb. apply Forall_cons in Hb as [(H1 & H2 & H3) Hb].
  apply inv_frame; [|done]. apply step_goto; [done | done | | done | done | by rewrite E, (claim_pushed _ _ H1 H2) |].
  - split; cbn; rewrite ?Em, ?Epl; [done | constructor | cbn; lia | done].
  - intros l. rewrite E. by rewrite (shown_pushed _ _ _ _ H1).
Qed.

Lemma inv_swtch t keep : k = Idle -> one_lock x = true -> iflag x = false -> parked s t = true -> inv (swtch c t keep s).
Proof using I Hc.
  intros E Ho Ef Hp. apply andb_true_iff in Hp as [Hp Ht]. rewrite forallb_forall in Hp.
  assert (forall c', (c' < NCPU)%nat -> cur (cores s c') <> t) as Hcur.
  { intros c' Hc'. specialize (Hp c' ltac:(apply in_seq; lia)). by apply negb_true_iff, Nat.eqb_neq in Hp. }
  assert (code_of (threads s t) = Idle) as Ek by (destruct (code_of (threads s t)); done).
  set (x' := cores (swtch c t keep s) c).
  assert (cur x' = t /\ mine x' = mine x /\ plain x' = plain x /\ ncli x' = ncli x /\ iflag x' = iflag x) as (X1 & X2 & X3 & X4 & X5).
  { unfold x', swtch. cbn. rewrite fn_lookup_insert. by destruct (saved (threads s t)). }
  assert (forall c', c' <> c -> cores (swtch c t keep s) c' = cores s c') as Xo by (intros c' Hne; cbn; by rewrite fn_lookup_insert_ne).
  assert (forall c', (c' < NCPU)%nat -> running (swtch c t keep s) c' = running s c') as Xr.
  { intros c' Hc'. unfold running. destruct (decide (c' = c)) as [->|Hne].
    - fold x'. rewrite X1. cbn. rewrite fn_lookup_insert_ne by (apply Hcur, Hc). by rewrite Ek.
    - rewrite Xo by done. cbn. rewrite fn_lookup_insert_ne; [done|]. intros E'. by apply Hne, (i_cur s I). }
  assert (forall c' l, (c' < NCPU)%nat -> owns (cores (swtch c t keep s) c') (running (swtch c t keep s) c') l <-> owns (cores s c') (running s c') l) as Xw.
  { intros c' l Hc'. rewrite Xr by done. destruct (decide (c' = c)) as [->|Hne]; [|by rewrite Xo]. unfold owns. fold x'. by rewrite X2. }
  destruct (i_core s I c Hc) as [P N C F]. split.
  - intros c' Hc'. rewrite Xr by done. destruct (decide (c' = c)) as [->|Hne]; [|rewrite Xo by done; by apply I].
    fold x'. split; rewrite ?X2, ?X3, ?X4, ?X5; [done | done | done | by rewrite Ef].
  - intros c1 c2 H1 H2. destruct (decide (c1 = c)) as [->|N1], (decide (c2 = c)) as [->|N2]; rewrite ?Xo by done; fold x'; rewrite ?X1.
    + intros _. done.
    + intros E'. rewrite Xo in E' by done. by destruct (Hcur c2 H2).
    + intros E'. by destruct (Hcur c1 H1).
    + by apply I.
  - intros l. destruct (i_lock s I l) as [(F1 & F2 & F3)|(o & Ho' & O1 & O2 & O3 & O4)]; [left | right; exists o]; rewrite ?Xr by done.
    + split_and!; [done | done |]. intros c' Hc'. rewrite Xw by done. by apply F3.
    + split_and!; [done | by rewrite <- Xr, Xw | | done | done]. intros c' Hc'. rewrite Xw by done. by apply O2.
  - intros t'. cbn. destruct (decide (t' = cur x)) as [->|]; [rewrite fn_lookup_insert | rewrite fn_lookup_insert_ne by done]; apply I.
Qed.
End Act.

Lemma inv_act s c a s' : inv s -> (c < NCPU)%nat -> act c a s = Some s' -> inv s'.
Proof.
  intros I Hc Ha.
  assert (forall b f, (if b && is_idle (running s c) then Some f else None) = Some s' -> b = true /\ running s c = Idle /\ f = s') as G.
  { intros b f. destruct b, (running s c); try done. by intros [= <-]. }
  destruct a as [word v|e| | | | |t keep]; cbn in Ha.
  - injection Ha as <-. by apply inv_instr.
  - apply G in Ha as (Hm & E & <-). by apply inv_call.
  - apply G in Ha as (Hm & E & <-). by apply inv_flag.
  - apply (G true) in Ha as (_ & E & <-). by apply inv_flag.
  - destruct (iflag (cores s c)) eqn:Ef; [|done]. injection Ha as <-. by apply inv_interrupt.
  - destruct (below (threads s (cur (cores s c)))) as [|k ks] eqn:Eb; [done|]. apply G in Ha as (Hm & E & <-). by apply inv_iret.
  - apply G in Ha as (Hm & E & <-). rewrite !andb_true_iff, negb_true_iff in Hm. destruct Hm as [[H1 H2] H3]. by apply inv_swtch.
Qed.

Lemma inv_boot junk : inv (boot junk).
Proof.
  split.
  - intros c Hc. split; [constructor | constructor | done | done].
  - by intros c c' _ _ E.
  - intros l. left. split_and!; [done | done |]. intros c Hc [H|H]; [by apply elem_of_nil in H | done].
  - intros t. constructor.
Qed.

Lemma inv_run l : forall s s', inv s -> run l s = Some s' -> inv s'.
Proof.
  induction l as [|[c a] l IH]; intros s s' I Hr; cbn [run] in Hr; [by injection Hr as <-|].
  destruct (Nat.ltb_spec c NCPU) as [Hc|]; [|done]. destruct (act c a s) as [s1|] eqn:Ea; [|done].
  eapply IH; [by eapply inv_act | exact Hr].
Qed.

(** C3: spin locks, for any number of threads on eight processors, any
    interleaving of their instructions, interrupts and switches of threads.  No
    processor panics.  A lock that a processor acquired is marked with it and no
    other processor has it; a marked lock has an owner.  While a processor has a
    lock, or an open [pushcli], its interrupts are off, and [ncli] counts both.
    A processor that spins waits for another one, never for itself. *)
Theorem spinlock_correct junk l s :
  run l (boot junk) = Some s ->
  (forall c, (c < NCPU)%nat ->
     let x := cores s c in
     (forall msg, running s c <> Panicked msg) /\ NoDup (mine x) /\
     (mine x <> [] \/ plain x <> 0%nat -> iflag x = false) /\
     (running s c = Idle -> ncli x = Z.of_nat (length (mine x)) + Z.of_nat (plain x)) /\
     (forall k, k ∈ mine x -> locked (locks s k) = 1 /\ lk_cpu (locks s k) = Some c /\
        forall c', (c' < NCPU)%nat -> k ∈ mine (cores s c') -> c' = c) /\
     (forall k next, running s c = Xchg k next -> locked (locks s k) <> 0 ->
        exists c', (c' < NCPU)%nat /\ c' <> c /\ owns (cores s c') (running s c') k)) /\
  (forall k, locked (locks s k) <> 0 -> exists c, (c < NCPU)%nat /\ owns (cores s c) (running s c) k).
Proof.
  intros Hr. pose proof (inv_run l _ _ (inv_boot junk) Hr) as I.
  assert (forall k, locked (locks s k) <> 0 -> exists c, (c < NCPU)%nat /\ owns (cores s c) (running s c) k) as Hown.
  { intros k Hk. destruct (i_lock s I k) as [(F1 & _)|(o & Ho & O1 & _)]; [done | by exists o]. }
  split; [|exact Hown]. intros c Hc x. destruct (i_core s I c Hc) as [P N C F]. fold x in P, N, C, F. split_and!.
  - intros msg. by eapply not_panicked.
  - done.
  - intros Hh. destruct (iflag x) eqn:Ef; [|done]. destruct (flag_early s c I Hc Ef) as (_ & E1 & E2). fold x in E1, E2. destruct Hh; congruence.
  - intros E. rewrite E in C. cbn in C. lia.
  - intros k Hk. destruct (i_lock s I k) as [(_ & _ & F3)|(o & Ho & O1 & O2 & O3 & O4)]; [destruct (F3 c Hc); by left|].
    assert (c = o) as <- by (apply O2; [done | by left]). rewrite O4, (shown_mine _ _ _ _ P Hk). split_and!; try done.
    intros c' Hc' Hk'. apply O2; [done | by left].
  - intros k next E Hk. destruct (Hown k Hk) as (o & Ho & Hw). exists o. split_and!; [done | | done]. intros ->.
    rewrite E in P, Hw. destruct Hw as [Hw|Hw]; [|done]. by_point P; done.
Qed.

(** two processors want the lock 5; the first one takes an interrupt before its
    interrupts are off, and has them on again after its release *)
Definition instrs (c n : nat) : list (nat * action) := replicate n (c, AInstr (fun _ => 0) 0).
Definition contend : list (nat * action) :=
  [(0%nat, ASti); (0%nat, ACall (EvAcquire 5)); (0%nat, AInstr (fun _ => 0) 0); (0%nat, AInterrupt); (0%nat, ACall (EvAcquire 6))] ++
  instrs 0 12 ++ [(0%nat, ACall (EvRelease 6))] ++ instrs 0 12 ++ [(0%nat, AIret)] ++ instrs 0 11 ++
  [(1%nat, ACall (EvAcquire 5))] ++ instrs 1 20.

Definition contended (s : state) : Prop :=
  mine (cores s 0) = [5%nat] /\ plain (cores s 0) = 0%nat /\ running s 0 = Idle /\ locked (locks s 6) = 0 /\ locked (locks s 5) = 1 /\
  match running s 1 with Xchg 5 _ => True | _ => False end /\
  match run ([(0%nat, ACall (EvRelease 5))] ++ instrs 0 12 ++ instrs 1 4) s with
  | Some s' => iflag (cores s' 0) = true /\ mine (cores s' 1) = [5%nat]
  | None => False
  end.
Lemma contend_run : exists s, run contend (boot (fun _ => mklk 7 [] (Some 3%nat) [])) = Some s /\ contended s.
Proof.
  assert (match run contend (boot (fun _ => mklk 7 [] (Some 3%nat) [])) with Some s => contended s | None => False end) as H by by vm_compute.
  revert H. generalize (run contend (boot (fun _ => mklk 7 [] (Some 3%nat) []))). intros [s|] H; [by exists s | destruct H].
Qed.

Lemma spinlock_correct_witness : exists s,
  run contend (boot (fun _ => mklk 7 [] (Some 3%nat) [])) = Some s /\ iflag (cores s 0) = false /\ ncli (cores s 0) = 1 /\ lk_cpu (locks s 5) = Some 0%nat /\
  exists c', (c' < NCPU)%nat /\ c' <> 1%nat /\ owns (cores s c') (running s c') 5.
Proof.
  destruct contend_run as (s & E & (M0 & P0 & R0 & _ & L5 & R1 & _)). exists s. split; [done|].
  destruct (spinlock_correct _ _ _ E) as [H _].
  destruct (H 0%nat ltac:(unfold NCPU; lia)) as (_ & _ & H3 & H4 & H5 & _), (H 1%nat ltac:(unfold NCPU; lia)) as (_ & _ & _ & _ & _ & H6).
  split; [apply H3; left; by rewrite M0|]. split; [rewrite (H4 R0), M0, P0; reflexivity|].
  split; [apply H5; rewrite M0; by apply elem_of_cons; left|].
  destruct (running s 1) as [| | | | | | | |l k| | | | | |] eqn:Ex; try destruct R1.
  do 6 (destruct l as [|l]; try destruct R1). apply (H6 5%nat k eq_refl). rewrite L5. discriminate.
Defined.
