(* ===== verification/Sh.v ===== *)
(** * The parser of the shell ([sh.c])

    [gettoken], [peek] and the recursive descent over them, on a buffer that
    holds a NUL-terminated line.  The state of the parser is the position [*ps];
    the words of a command are pairs of positions, as [argv] and [eargv] hold
    them, until [nulterminate] writes the NULs. *)

From S2P Require Import Prelude CStr.

Definition whitespace : list Z := [32; 9; 13; 10; 11].
Definition symbols : list Z := str "<|>&;()".
Definition MAXARGS : nat := 10.
Definition O_RDONLY : Z := 0.
Definition O_WRONLY_CREATE : Z := Z.lor 1 512.

Definition BAR : Z := 124.
Definition LPAREN : Z := 40.
Definition RPAREN : Z := 41.
Definition SEMI : Z := 59.
Definition AMP : Z := 38.
Definition LT : Z := 60.
Definition GT : Z := 62.
Definition APPEND : Z := 43.
Definition WORD : Z := 97.

(** [strchr(s, c) != 0] ([ulib.c]), [l] the bytes of [s] before its NUL, which is not found *)
Fixpoint strchr (l : list Z) (c : Z) : bool :=
  match l with [] => false | b :: l => if b =? c then true else strchr l c end.

(** [struct cmd]: [A] is the type of a word *)
Inductive cmd (A : Type) : Type :=
| Exec (argv : list A)
| Redir (c : cmd A) (file : A) (mode fd : Z)
| Pipe (l r : cmd A)
| List (l r : cmd A)
| Back (c : cmd A).
Arguments Exec {A}.
Arguments Redir {A}.
Arguments Pipe {A}.
Arguments List {A}.
Arguments Back {A}.

Fixpoint cmap {A B} (f : A -> B) (c : cmd A) : cmd B :=
  match c with
  | Exec argv => Exec (f <$> argv)
  | Redir c file mode fd => Redir (cmap f c) (f file) mode fd
  | Pipe l r => Pipe (cmap f l) (cmap f r)
  | List l r => List (cmap f l) (cmap f r)
  | Back c => Back (cmap f c)
  end.

(** [cmd->argv[argc] = q] on the [execcmd] under the redirections of [c] *)
Fixpoint add_arg {A} (c : cmd A) (a : A) : cmd A :=
  match c with
  | Exec argv => Exec (argv ++ [a])
  | Redir c file mode fd => Redir (add_arg c a) file mode fd
  | _ => c
  end.

(** a word, from [q] up to [eq] *)
Definition span : Type := nat * nat.

Section Parse.
Variable buf : list Z.

(** [es] *)
Definition es : nat := length (cstr buf).
Definition at_ (s : nat) : Z := buf !!! s.

(** [while(s < es && p( *s )) s++] *)
Fixpoint scan (fuel : nat) (p : Z -> bool) (s : nat) : nat :=
  match fuel with
  | O => s
  | S fuel' => if (s <? es)%nat && p (at_ s) then scan fuel' p (S s) else s
  end.
Definition skip_ws (s : nat) : nat := scan es (strchr whitespace) s.

(** the result, [*q] and [*eq] *)
Definition gettoken : M nat (Z * span) :=
  s ← get;
  let q := skip_ws s in
  let c := at_ q in
  let '(ret, eq) :=
    if c =? 0 then (c, q)
    else if bool_decide (c ∈ [BAR; LPAREN; RPAREN; SEMI; AMP; LT]) then (c, S q)
    else if c =? GT then (if at_ (S q) =? GT then (APPEND, S (S q)) else (c, S q))
    else (WORD, scan es (fun c => negb (strchr whitespace c) && negb (strchr symbols c)) q) in
  modify (fun _ => skip_ws eq) ;;
  mret (ret, (q, eq)).

Definition peek (toks : list Z) : M nat bool :=
  s ← get;
  let s := skip_ws s in
  modify (fun _ => s) ;;
  mret (negb (at_ s =? 0) && strchr toks (at_ s)).

(** [redircmd] for the three operators *)
Definition redircmd {A} (tok : Z) (c : cmd A) (f : A) : cmd A :=
  if tok =? LT then Redir c f O_RDONLY 0
  else if tok =? GT then Redir c f O_WRONLY_CREATE 1
  else if tok =? APPEND then Redir c f O_WRONLY_CREATE 1
  else c.

Fixpoint redirs_loop (fuel : nat) (c : cmd span) : M nat (cmd span) :=
  match fuel with
  | O => block
  | S fuel' =>
      b ← peek [LT; GT];
      if negb b then mret c
      else
        t ← gettoken;
        f ← gettoken;
        if negb (f.1 =? WORD) then panic "missing file for redirection"
        else redirs_loop fuel' (redircmd t.1 c f.2)
  end.
Definition parseredirs (c : cmd span) : M nat (cmd span) := redirs_loop (S es) c.

(** the loop of [parseexec]; [ret] is the command with its redirections *)
Fixpoint args_loop (fuel : nat) (argc : nat) (ret : cmd span) : M nat (cmd span) :=
  match fuel with
  | O => block
  | S fuel' =>
      b ← peek [BAR; RPAREN; AMP; SEMI];
      if (b : bool) then mret ret
      else
        t ← gettoken;
        if t.1 =? 0 then mret ret
        else if negb (t.1 =? WORD) then panic "syntax"
        else
          let ret := add_arg ret t.2 in
          if (MAXARGS <=? S argc)%nat then panic "too many args"
          else ret ← parseredirs ret; args_loop fuel' (S argc) ret
  end.

(** the loop of [parseline] *)
Fixpoint backs_loop (fuel : nat) (c : cmd span) : M nat (cmd span) :=
  match fuel with
  | O => block
  | S fuel' =>
      b ← peek [AMP];
      if negb b then mret c else gettoken ;; backs_loop fuel' (Back c)
  end.

Fixpoint parseline (fuel : nat) : M nat (cmd span) :=
  match fuel with
  | O => block
  | S fuel' =>
      c ← parsepipe fuel';
      c ← backs_loop (S es) c;
      b ← peek [SEMI];
      if (b : bool) then gettoken ;; r ← parseline fuel'; mret (List c r) else mret c
  end
with parsepipe (fuel : nat) : M nat (cmd span) :=
  match fuel with
  | O => block
  | S fuel' =>
      c ← parseexec fuel';
      b ← peek [BAR];
      if (b : bool) then gettoken ;; r ← parsepipe fuel'; mret (Pipe c r) else mret c
  end
with parseexec (fuel : nat) : M nat (cmd span) :=
  match fuel with
  | O => block
  | S fuel' =>
      b ← peek [LPAREN];
      if (b : bool) then parseblock fuel'
      else ret ← parseredirs (Exec []); args_loop (S es) 0 ret
  end
with parseblock (fuel : nat) : M nat (cmd span) :=
  match fuel with
  | O => block
  | S fuel' =>
      b ← peek [LPAREN];
      if negb b then panic "parseblock"
      else
        gettoken ;;
        c ← parseline fuel';
        b ← peek [RPAREN];
        if negb b then panic "syntax - missing )"
        else gettoken ;; parseredirs c
  end.

(** [*eargv[i] = 0] for every word *)
Fixpoint nulterminate (c : cmd span) (b : list Z) : list Z :=
  match c with
  | Exec argv => foldl (fun b w => <[w.2 := 0]> b) b argv
  | Redir c file _ _ => <[file.2 := 0]> (nulterminate c b)
  | Pipe l r => nulterminate r (nulterminate l b)
  | List l r => nulterminate r (nulterminate l b)
  | Back c => nulterminate c b
  end.

(** [parsecmd]: the command and the buffer that it points into *)
Definition parsecmd : res (cmd span * list Z) :=
  match (c ← parseline (4 * es + 4); peek [] ;; mret c) 0%nat with
  | Ok (c, s) => if decide (s = es) then Ok (c, nulterminate c buf) else Panic "syntax"
  | Panic msg => Panic msg
  | Block => Block
  end.

(** the string at a word *)
Definition string_at (b : list Z) (w : span) : list Z := cstr (drop w.1 b).

(** ** The grammar *)

End Parse.

Inductive token : Type :=
| Word (w : list Z)
| Sym (c : Z).

Definition flush (acc : list Z) : list token := match acc with [] => [] | _ => [Word acc] end.

(** the tokens of a line, [acc] being the word that is being read *)
Fixpoint lex (acc : list Z) (l : list Z) : list token :=
  match l with
  | [] => flush acc
  | c :: l1 =>
      if bool_decide (c ∈ whitespace) then flush acc ++ lex [] l1
      else if bool_decide (c ∈ symbols) then
        flush acc ++
        (if c =? GT then
           match l1 with
           | d :: l2 => if d =? GT then Sym APPEND :: lex [] l2 else Sym GT :: lex [] l1
           | [] => [Sym GT]
           end
         else Sym c :: lex [] l1)
      else lex (acc ++ [c]) l1
  end.

(** a part of a simple command: a word, or an operator with its file *)
Inductive item : Type :=
| Arg (w : list Z)
| File (op : Z) (w : list Z).
Definition item_tokens (i : item) : list token :=
  match i with Arg w => [Word w] | File op w => [Sym op; Word w] end.
Definition words (l : list item) : list (list Z) := omap (fun i => match i with Arg w => Some w | _ => None end) l.
Definition wrap (c : cmd (list Z)) (l : list item) : cmd (list Z) :=
  foldl (fun c i => match i with File op w => redircmd op c w | Arg _ => c end) c l.
Definition is_file (i : item) : Prop := match i with File op _ => op = LT \/ op = GT \/ op = APPEND | Arg _ => False end.
Definition item_ok (i : item) : Prop := match i with Arg _ => True | _ => is_file i end.

Inductive Line : list token -> cmd (list Z) -> Prop :=
| G_line ts c n : PipeLine ts c -> Line (ts ++ replicate n (Sym AMP)) (Nat.iter n Back c)
| G_list ts c n ts' c' :
    PipeLine ts c -> Line ts' c' ->
    Line (ts ++ replicate n (Sym AMP) ++ Sym SEMI :: ts') (List (Nat.iter n Back c) c')
with PipeLine : list token -> cmd (list Z) -> Prop :=
| G_exec ts c : Simple ts c -> PipeLine ts c
| G_pipe ts c ts' c' : Simple ts c -> PipeLine ts' c' -> PipeLine (ts ++ Sym BAR :: ts') (Pipe c c')
with Simple : list token -> cmd (list Z) -> Prop :=
| G_simple l :
    Forall item_ok l -> (length (words l) < MAXARGS)%nat ->
    Simple (l ≫= item_tokens) (wrap (Exec (words l)) l)
| G_block ts c l :
    Line ts c -> Forall is_file l ->
    Simple (Sym LPAREN :: ts ++ Sym RPAREN :: (l ≫= item_tokens)) (wrap c l).

Scheme Line_mind := Induction for Line Sort Prop
with PipeLine_mind := Induction for PipeLine Sort Prop
with Simple_mind := Induction for Simple Sort Prop.
Combined Scheme grammar_ind from Line_mind, PipeLine_mind, Simple_mind.

(** ** Small inputs *)
Definition show_parse (l : list Z) : option (cmd (list Z)) :=
  match parsecmd l with
  | Ok (c, b) => Some (cmap (string_at b) c)
  | _ => None
  end.
Example parse_pipe :
  show_parse (str "(a >b <c&);echo  x|wc>>f&" ++ [10; 0]) =
  Some (List (Back (Redir (Redir (Exec [str "a"]) (str "b") O_WRONLY_CREATE 1) (str "c") O_RDONLY 0))
             (Back (Pipe (Exec [str "echo"; str "x"]) (Redir (Exec [str "wc"]) (str "f") O_WRONLY_CREATE 1)))).
Proof. by vm_compute. Qed.
