(* ===== verification/ShSpec.v ===== *)
(** * The parser of the shell decides its grammar

    [gettoken] and [peek] read the tokens of [lex]; the functions of the parser
    accept exactly what the grammar of [Sh] derives, with its tree; and
    [nulterminate] ends every word of the tree where the line ends it. *)

From S2P Require Import Prelude CStr Sh.

(** [m] returns or panics *)
Definition ends {S A} (m : M S A) (s : S) (Q : A -> S -> Prop) : Prop :=
  match m s with Ok (a, s') => Q a s' | Panic _ => True | Block => False end.
Lemma ends_bind {S A B} (m : M S A) (f : A -> M S B) s Q :
  ends m s (fun a s' => ends (f a) s' Q) -> ends (m ≫= f) s Q.
Proof. unfold ends, mbind, M_bind. by destruct (m s) as [[a s']| |]. Qed.
Lemma returns_ends {S A} (m : M S A) s Q : returns m s Q -> ends m s Q.
Proof. unfold returns, ends. by destruct (m s) as [[a s']| |]. Qed.
Lemma ends_mono {S A} (m : M S A) s (P Q : A -> S -> Prop) :
  ends m s P -> (forall a s', P a s' -> Q a s') -> ends m s Q.
Proof. unfold ends. destruct (m s) as [[a s']| |]; auto. Qed.

(** ** The lexer *)

Definition wordch (c : Z) : Prop := c ∉ whitespace /\ c ∉ symbols.
Definition stops (l : list Z) : Prop := match l with [] => True | c :: _ => c ∈ whitespace \/ c ∈ symbols end.

Lemma lex_ws w l : Forall (fun c => c ∈ whitespace) w -> lex [] (w ++ l) = lex [] l.
Proof. induction 1 as [|c w Hc _ IH]; simpl; [done|]. by rewrite bool_decide_eq_true_2. Qed.

Lemma lex_word w : forall acc l, Forall wordch w -> lex acc (w ++ l) = lex (acc ++ w) l.
Proof.
  induction w as [|c w IH]; intros acc l H; [by rewrite app_nil_r|]. apply Forall_cons in H as [[H1 H2] H]. simpl.
  rewrite !bool_decide_eq_false_2 by done. rewrite IH by done. by rewrite <- app_assoc.
Qed.

Lemma lex_acc acc l : acc <> [] -> exists w ts, lex acc l = Word w :: ts.
Proof.
  revert acc. induction l as [|c l IH]; intros acc Ha; simpl; [destruct acc; by eauto|].
  destruct (bool_decide _); [destruct acc; by eauto|]. destruct (bool_decide _); [destruct acc; by eauto|]. apply IH. by destruct acc.
Qed.

Lemma lex_stop acc l : stops l -> lex acc l = flush acc ++ lex [] l.
Proof.
  destruct l as [|c l]; intros H; simpl; [by rewrite app_nil_r|]. destruct (bool_decide (c ∈ whitespace)) eqn:E1; [done|].
  apply bool_decide_eq_false in E1. destruct H as [H|H]; [done|]. by rewrite bool_decide_eq_true_2.
Qed.

Definition op_ok (t : token) : Prop := match t with Sym c => c ∈ symbols \/ c = APPEND | Word _ => True end.
Lemma flush_ok acc ts : Forall op_ok ts -> Forall op_ok (flush acc ++ ts).
Proof. intros H. destruct acc; simpl; [done|]. by constructor. Qed.
Lemma lex_ops acc l : Forall op_ok (lex acc l).
Proof.
  remember (length l) as n eqn:E. assert (length l <= n)%nat as Hn by lia. clear E. revert acc l Hn.
  induction n as [|n IH]; intros acc [|c l] Hn; simpl in *; try lia; try (rewrite <- (app_nil_r (flush acc)); apply flush_ok; constructor).
  destruct (bool_decide _); [apply flush_ok, IH; lia|]. destruct (bool_decide (c ∈ symbols)) eqn:Es; [|apply IH; lia].
  apply bool_decide_eq_true in Es. apply flush_ok. destruct (Z.eqb_spec c GT) as [->|]; [|constructor; [by left | apply IH; lia]].
  destruct l as [|d l]; [by repeat constructor|]. destruct (d =? GT); (constructor; [by (left + right) | apply IH; simpl in *; lia]).
Qed.

Ltac isin := match goal with |- ?c ∈ ?l => apply (bool_decide_eq_true_1 (c ∈ l)); vm_compute; reflexivity end.
Ltac notin := match goal with |- ?c ∉ ?l => apply (bool_decide_eq_false_1 (c ∈ l)); vm_compute; reflexivity end.

Lemma whitespace_nz : 0 ∉ whitespace.
Proof. notin. Qed.
Lemma symbols_nz : 0 ∉ symbols.
Proof. notin. Qed.
Lemma symbols_ws c : c ∈ symbols -> c ∉ whitespace.
Proof.
  assert (Forall (fun c => c ∉ whitespace) symbols) as H by (repeat constructor; notin). by rewrite Forall_forall in H; auto.
Qed.

(** the symbols are the cases of the switch of [gettoken] *)
Lemma symbols_cases c : c ∈ symbols <-> c = GT \/ c ∈ [BAR; LPAREN; RPAREN; SEMI; AMP; LT].
Proof.
  split.
  - assert (Forall (fun c => c = GT \/ c ∈ [BAR; LPAREN; RPAREN; SEMI; AMP; LT]) symbols) as H; [|by rewrite Forall_forall in H; auto].
    repeat constructor; first [by left | right; isin].
  - intros [->|H]; [isin|]. assert (Forall (fun c => c ∈ symbols) [BAR; LPAREN; RPAREN; SEMI; AMP; LT]) as Hall by (repeat constructor; isin).
    rewrite Forall_forall in Hall. auto.
Qed.

Lemma strchr_spec l c : strchr l c = bool_decide (c ∈ l).
Proof.
  induction l as [|b l IH]; [done|]. cbn [strchr]. rewrite IH. destruct (Z.eqb_spec b c) as [->|Hne].
  - symmetry. apply bool_decide_eq_true. by left.
  - apply bool_decide_ext. rewrite elem_of_cons. naive_solver.
Qed.

Lemma cstr_split l : 0 ∈ l -> exists r, l = cstr l ++ 0 :: r.
Proof.
  induction l as [|c l IH]; intros H; [by apply elem_of_nil in H|]. simpl. destruct (Z.eqb_spec c 0) as [->|Hc]; [by exists l|].
  apply elem_of_cons in H as [H|H]; [lia|]. destruct (IH H) as [r E]. exists r. simpl. by rewrite <- E.
Qed.

(** the first byte of an operator *)
Definition first_char (c : Z) : Z := if c =? APPEND then GT else c.

Section Buffer.
Variable buf : list Z.
Hypothesis Hnul : 0 ∈ buf.
Notation line := (cstr buf).
Notation es := (es buf).
Notation at_ := (at_ buf).

(** what the parser has not read yet, from position [s] *)
Definition rest (s : nat) : list Z := drop s line.
Definition toks (s : nat) : list token := lex [] (rest s).

Lemma toks_op s c ts : toks s = Sym c :: ts -> c <> WORD /\ c <> 0.
Proof.
  intros E. pose proof (lex_ops [] (rest s)) as H. fold (toks s) in H. rewrite E in H. apply Forall_cons in H as [H _].
  assert (WORD ∉ symbols) by notin. pose proof symbols_nz. simpl in H. destruct H as [H| ->]; [|done]. split; congruence.
Qed.

Lemma rest_nz s : Forall (fun c => c <> 0) (rest s).
Proof. apply Forall_drop, cstr_nonul. Qed.

Lemma at_rest s : (s <= es)%nat -> at_ s = match rest s with [] => 0 | c :: _ => c end.
Proof.
  intros Hs. unfold Sh.at_, rest. destruct (cstr_split buf Hnul) as [r E]. unfold Sh.es in Hs. rewrite E at 1.
  destruct (drop s line) as [|c l] eqn:Ed.
  - apply (f_equal length) in Ed. rewrite length_drop in Ed. simpl in Ed.
    rewrite (lookup_total_app_r line) by lia. by replace (s - length line)%nat with 0%nat by lia.
  - assert (line !! s = Some c) as El by (rewrite <- (Nat.add_0_r s), <- lookup_drop, Ed; done).
    rewrite lookup_total_app_l by (apply lookup_lt_Some in El; done). by apply list_lookup_total_correct.
Qed.

Lemma rest_cons s c l : rest s = c :: l -> rest (S s) = l /\ (S s <= es)%nat.
Proof.
  unfold rest, Sh.es. intros E. split.
  - by rewrite <- Nat.add_1_r, <- drop_drop, E.
  - apply (f_equal length) in E. rewrite length_drop in E. simpl in E. lia.
Qed.

(** [scan] stops at the first byte without [p] *)
Lemma scan_spec p fuel s : (s <= es)%nat -> (es - s <= fuel)%nat ->
  exists w, rest s = w ++ rest (scan buf fuel p s) /\ scan buf fuel p s = (s + length w)%nat /\ (scan buf fuel p s <= es)%nat /\
    Forall (fun c => p c = true) w /\ match rest (scan buf fuel p s) with [] => True | c :: _ => p c = false end.
Proof.
  revert s. induction fuel as [|fuel IH]; intros s Hs Hf; cbn [scan].
  - exists []. simpl. split_and!; [done | lia | done | constructor |]. unfold rest. rewrite drop_ge; [done | unfold Sh.es in *; lia].
  - destruct (Nat.ltb_spec s es) as [Hlt|Hge]; cbn [andb].
    2: { exists []. simpl. split_and!; [done | lia | done | constructor |]. unfold rest. rewrite drop_ge; [done | unfold Sh.es in *; lia]. }
    rewrite at_rest by done. destruct (rest s) as [|c l] eqn:E.
    { unfold rest in E. apply (f_equal length) in E. rewrite length_drop in E. simpl in E. unfold Sh.es in *. lia. }
    destruct (p c) eqn:Ep.
    + destruct (rest_cons _ _ _ E) as [E1 H1]. destruct (IH (S s)) as (w & Hw1 & Hw2 & Hw3 & Hw4 & Hw5); [done | lia |].
      exists (c :: w). simpl. split_and!; [by rewrite <- Hw1, E1 | lia | done | by constructor | done].
    + exists []. rewrite E. simpl. split_and!; [done | lia | done | constructor | done].
Qed.

Lemma skip_spec s : (s <= es)%nat ->
  (s <= skip_ws buf s <= es)%nat /\ toks (skip_ws buf s) = toks s /\
  match rest (skip_ws buf s) with [] => True | c :: _ => c ∉ whitespace /\ c <> 0 end.
Proof.
  intros Hs. unfold skip_ws. destruct (scan_spec (strchr whitespace) es s Hs ltac:(lia)) as (w & E & E2 & H1 & Hw & H2).
  pose proof (rest_nz s) as Hnz. rewrite E in Hnz. apply Forall_app in Hnz as [Hz1 Hz2]. split; [lia|]. split.
  - unfold toks. rewrite E. symmetry. apply lex_ws. apply Forall_forall. intros c Hc. rewrite Forall_forall in Hw, Hz1.
    specialize (Hw _ Hc). rewrite strchr_spec in Hw by auto. by apply bool_decide_eq_true in Hw.
  - destruct (rest (scan _ _ _ _)) as [|c l]; [done|]. apply Forall_cons in Hz2 as [Hz _]. rewrite strchr_spec in H2 by done.
    by apply bool_decide_eq_false in H2.
Qed.

(** [q..eq) is the word [w] of the line *)
Definition word_at (x : span) (w : list Z) : Prop :=
  (x.1 <= x.2 <= es)%nat /\ rest x.1 = w ++ rest x.2 /\ Forall wordch w /\ w <> [] /\ stops (rest x.2).

Definition code (t : token) : Z := match t with Word _ => WORD | Sym c => c end.
Definition span_ok (t : token) (x : span) : Prop := match t with Word w => word_at x w | Sym _ => True end.

(** the position [s'] is after the first token, which is of the kind [ret], of
    those at [s] *)
Definition got (s : nat) (ret : Z) (x : span) (s' : nat) : Prop :=
  (s <= s' <= es)%nat /\
  match toks s with
  | [] => ret = 0 /\ toks s' = []
  | t :: ts => ret = code t /\ toks s' = ts /\ span_ok t x /\ (s < s')%nat
  end.

(** an operator that ends at [eq] *)
Lemma got_sym s c l eq : (s <= es)%nat -> (s <= skip_ws buf s)%nat -> toks s = Sym c :: lex [] l ->
  rest eq = l -> (skip_ws buf s < eq <= es)%nat -> got s c (skip_ws buf s, eq) (skip_ws buf eq).
Proof.
  intros Hs H1 Et El H2. destruct (skip_spec eq) as (H3 & E3 & _); [lia|]. unfold got. rewrite Et, E3. unfold toks at 1. rewrite El.
  by split_and!; try lia.
Qed.

(** a word that starts after the white space *)
Lemma got_word s : (s <= es)%nat -> (s <= skip_ws buf s <= es)%nat -> toks s = toks (skip_ws buf s) ->
  match rest (skip_ws buf s) with [] => False | c :: _ => wordch c end ->
  let eq := scan buf es (fun c => negb (strchr whitespace c) && negb (strchr symbols c)) (skip_ws buf s) in
  got s WORD (skip_ws buf s, eq) (skip_ws buf eq).
Proof.
  intros Hs H1 Et Hc eq. set (q := skip_ws buf s) in *.
  destruct (scan_spec (fun c => negb (strchr whitespace c) && negb (strchr symbols c)) es q) as (w & E & Eq & Hle & Hw & Hstop); [lia..|].
  fold eq in E, Eq, Hle, Hstop. destruct (skip_spec eq Hle) as (H3 & E3 & _).
  pose proof (rest_nz q) as Hnz. rewrite E in Hnz. apply Forall_app in Hnz as [Hz1 Hz2].
  assert (Forall wordch w) as Hword.
  { apply Forall_forall. intros c Hcw. rewrite Forall_forall in Hw, Hz1. specialize (Hw _ Hcw). rewrite !strchr_spec in Hw by auto.
    apply andb_prop in Hw as [Hw1 Hw2]. rewrite negb_true_iff, bool_decide_eq_false in Hw1, Hw2. done. }
  assert (stops (rest eq)) as Hst.
  { destruct (rest eq) as [|c l]; [done|]. apply Forall_cons in Hz2 as [Hz _]. rewrite !strchr_spec in Hstop by done.
    simpl. destruct (decide (c ∈ whitespace)); [by left|]. destruct (decide (c ∈ symbols)); [by right|].
    by rewrite !bool_decide_eq_false_2 in Hstop. }
  assert (w <> []) as Hne.
  { intros ->. simpl in E. rewrite E in Hc. destruct (rest eq) as [|c l]; [done|]. simpl in Hst. destruct Hc. tauto. }
  assert (toks s = Word w :: toks eq) as Ets.
  { rewrite Et. unfold toks. rewrite E, lex_word, lex_stop by done. by destruct w. }
  unfold got. rewrite Ets. split; [lia|]. split_and!; [done | done | | destruct w; [done|simpl in *; lia]].
  split; [simpl; lia|]. by split_and!.
Qed.

Lemma gettoken_spec s : (s <= es)%nat -> exists ret x s', gettoken buf s = Ok ((ret, x), s') /\ got s ret x s'.
Proof.
  intros Hs. destruct (skip_spec s Hs) as (H1 & E1 & H2). unfold gettoken, get, modify, mbind, M_bind, mret, M_ret.
  rewrite (at_rest (skip_ws buf s)) by lia. pose proof E1 as Et. unfold toks in E1. destruct (rest (skip_ws buf s)) as [|c l] eqn:Er.
  - destruct (skip_spec (skip_ws buf s)) as (H3 & E3 & _); [lia|]. do 3 eexists. split; [done|].
    split; [lia|]. unfold toks. rewrite <- E1. split; [done|]. unfold toks in E3. by rewrite E3, Er.
  - destruct H2 as [H2 Hc]. destruct (Z.eqb_spec c 0); [done|]. destruct (rest_cons _ _ _ Er) as [Er1 Hlt]. simpl in E1.
    rewrite (bool_decide_eq_false_2 (c ∈ whitespace)) in E1 by done. destruct (bool_decide (c ∈ symbols)) eqn:Esym.
    + apply bool_decide_eq_true in Esym. destruct (Z.eqb_spec c GT) as [->|Hgt].
      * simpl. rewrite at_rest by done. rewrite Er1. destruct l as [|d l2]; simpl.
        { do 3 eexists. split; [done|]. by eapply (got_sym s GT []); try lia. }
        destruct (Z.eqb_spec d GT) as [->|Hd]; do 3 eexists; (split; [done|]).
        -- destruct (rest_cons _ _ _ Er1) as [Er2 Hlt2]. by eapply (got_sym s APPEND l2); try lia.
        -- by eapply (got_sym s GT (d :: l2)); try lia.
      * assert (bool_decide (c ∈ [BAR; LPAREN; RPAREN; SEMI; AMP; LT]) = true) as ->.
        { apply bool_decide_eq_true_2. by apply symbols_cases in Esym as [->|?]. }
        do 3 eexists. split; [done|]. by eapply (got_sym s c l); try lia.
    + apply bool_decide_eq_false in Esym. rewrite symbols_cases in Esym.
      rewrite (bool_decide_eq_false_2 (c ∈ [BAR; LPAREN; RPAREN; SEMI; AMP; LT])) by tauto.
      destruct (Z.eqb_spec c GT) as [->|Hgt]; [tauto|]. do 3 eexists. split; [done|].
      apply got_word; [done | lia | done | rewrite Er]. split; [done|]. by rewrite symbols_cases.
Qed.
Lemma peek_spec l s : (s <= es)%nat -> Forall (fun c => c ∈ symbols) l -> exists b s',
  peek buf l s = Ok (b, s') /\ (s <= s' <= es)%nat /\ toks s' = toks s /\
  b = match toks s with Sym c :: _ => bool_decide (first_char c ∈ l) | _ => false end.
Proof.
  intros Hs Hl. destruct (skip_spec s Hs) as (H1 & E1 & H2). unfold peek, get, modify, mbind, M_bind, mret, M_ret.
  do 2 eexists. split; [done|]. split; [done|]. split; [done|]. rewrite at_rest by lia. unfold toks at 1 in E1.
  rewrite <- E1. clear E1. destruct (rest (skip_ws buf s)) as [|c r]; [done|]. destruct H2 as [H2 Hc]. destruct (Z.eqb_spec c 0); [done|].
  rewrite strchr_spec by done. cbn [negb andb lex flush app]. rewrite (bool_decide_eq_false_2 (c ∈ whitespace)) by done.
  destruct (bool_decide (c ∈ symbols)) eqn:Es.
  - apply bool_decide_eq_true in Es. assert (APPEND ∉ symbols) by notin. assert (c <> APPEND) by congruence.
    destruct (Z.eqb_spec c GT) as [->|Hg]; [destruct r as [|d r]; [done|]; by destruct (d =? GT)|].
    unfold first_char. by destruct (Z.eqb_spec c APPEND).
  - destruct (lex_acc [c] r) as (w & ts & ->); [done|]. apply bool_decide_eq_false in Es. apply bool_decide_eq_false_2.
    intros Hin. rewrite Forall_forall in Hl. auto.
Qed.

(** ** Commands whose words are positions *)

Definition slice (x : span) : list Z := take (x.2 - x.1) (drop x.1 line).
Definition is_word (x : span) : Prop := exists w, word_at x w.

Fixpoint cmd_words {A} (c : cmd A) : list A :=
  match c with
  | Exec argv => argv
  | Redir c file _ _ => cmd_words c ++ [file]
  | Pipe l r | List l r => cmd_words l ++ cmd_words r
  | Back c => cmd_words c
  end.

(** [c] is the tree [t] with words of the line *)
Definition reads (c : cmd span) (t : cmd (list Z)) : Prop := Forall is_word (cmd_words c) /\ cmap slice c = t.

Lemma slice_word x w : word_at x w -> slice x = w.
Proof.
  intros (H1 & E & _). unfold slice. unfold rest in E. rewrite E.
  assert (length w = (x.2 - x.1)%nat) as <-; [|by rewrite take_app_length].
  apply (f_equal length) in E. rewrite length_app, !length_drop in E. unfold Sh.es in *. lia.
Qed.

Lemma cmd_words_add {A} (c : cmd A) a : cmd_words (add_arg c a) ⊆+ cmd_words c ++ [a].
Proof.
  induction c as [argv|c IH file mode fd|l _ r _|l _ r _|c _]; simpl; try (by apply submseteq_inserts_r); [done|].
  rewrite <- app_assoc, (Permutation_app_comm [file]), app_assoc. by apply submseteq_skips_r.
Qed.

Lemma cmap_add {A B} (f : A -> B) c a : cmap f (add_arg c a) = add_arg (cmap f c) (f a).
Proof. induction c; simpl; [by rewrite fmap_app | by f_equal | done..]. Qed.

Lemma cmap_redircmd {A B} (f : A -> B) op c a : cmap f (redircmd op c a) = redircmd op (cmap f c) (f a).
Proof. unfold redircmd. by repeat destruct (_ =? _). Qed.

Lemma reads_add c t x w : reads c t -> word_at x w -> reads (add_arg c x) (add_arg t w).
Proof.
  intros [H1 <-] Hx. split; [|by rewrite cmap_add, (slice_word x w)].
  apply Forall_forall. intros y Hy. eapply elem_of_submseteq in Hy; [|apply cmd_words_add].
  apply elem_of_app in Hy as [Hy|Hy]; [by rewrite Forall_forall in H1; apply H1|]. apply list_elem_of_singleton in Hy as ->. by exists w.
Qed.

Lemma reads_redir op c t x w : reads c t -> word_at x w -> reads (redircmd op c x) (redircmd op t w).
Proof.
  intros [H1 <-] Hx. split; [|by rewrite cmap_redircmd, (slice_word x w)].
  unfold redircmd. repeat destruct (_ =? _); simpl; try done; apply Forall_app; split; try done; by (constructor; [exists w|]).
Qed.

Lemma reads_iter n c t : reads c t -> reads (Nat.iter n Back c) (Nat.iter n Back t).
Proof. intros H. induction n as [|n IH]; [done|]. destruct IH as [H1 H2]. split; [done|]. simpl. by rewrite H2. Qed.

Lemma reads_pair c t c' t' : reads c t -> reads c' t' -> reads (Pipe c c') (Pipe t t') /\ reads (List c c') (List t t').
Proof. intros [H1 <-] [H2 <-]. by split; (split; [apply Forall_app | ]). Qed.

(** ** Rules for the two primitives *)

Definition symbol_list (l : list Z) : Prop := Forall (fun c => c ∈ symbols) l.
Definition head_in (l : list Z) (ts : list token) : bool :=
  match ts with Sym c :: _ => bool_decide (first_char c ∈ l) | _ => false end.

Lemma returns_gettoken {B} (k : Z * span -> M nat B) s Q : (s <= es)%nat ->
  (forall ret x s', got s ret x s' -> returns (k (ret, x)) s' Q) -> returns (gettoken buf ≫= k) s Q.
Proof.
  intros Hs H. destruct (gettoken_spec s Hs) as (ret & x & s' & E & Hg). apply returns_bind. unfold returns at 1. rewrite E. by apply H.
Qed.
Lemma ends_gettoken {B} (k : Z * span -> M nat B) s Q : (s <= es)%nat ->
  (forall ret x s', got s ret x s' -> ends (k (ret, x)) s' Q) -> ends (gettoken buf ≫= k) s Q.
Proof.
  intros Hs H. destruct (gettoken_spec s Hs) as (ret & x & s' & E & Hg). apply ends_bind. unfold ends at 1. rewrite E. by apply H.
Qed.
Lemma returns_peek {B} l (k : bool -> M nat B) s Q : (s <= es)%nat -> symbol_list l ->
  (forall s', (s <= s' <= es)%nat -> toks s' = toks s -> returns (k (head_in l (toks s))) s' Q) -> returns (peek buf l ≫= k) s Q.
Proof.
  intros Hs Hl H. destruct (peek_spec l s Hs Hl) as (b & s' & E & H1 & H2 & ->). apply returns_bind. unfold returns at 1. rewrite E. by apply H.
Qed.
Lemma ends_peek {B} l (k : bool -> M nat B) s Q : (s <= es)%nat -> symbol_list l ->
  (forall s', (s <= s' <= es)%nat -> toks s' = toks s -> ends (k (head_in l (toks s))) s' Q) -> ends (peek buf l ≫= k) s Q.
Proof.
  intros Hs Hl H. destruct (peek_spec l s Hs Hl) as (b & s' & E & H1 & H2 & ->). apply ends_bind. unfold ends at 1. rewrite E. by apply H.
Qed.

(** ** Redirections *)

Definition after_word (ts : list token) : bool := head_in [BAR; RPAREN; AMP; SEMI] ts.

Lemma head_in_redir ts : head_in [LT; GT] ts = true -> exists op ts', ts = Sym op :: ts' /\ (op = LT \/ op = GT \/ op = APPEND).
Proof.
  destruct ts as [|[w|c] ts]; [done|done|]. simpl. intros H. apply bool_decide_eq_true in H. exists c, ts. split; [done|].
  unfold first_char in H. destruct (Z.eqb_spec c APPEND); [tauto|]. rewrite !elem_of_cons, elem_of_nil in H. tauto.
Qed.

Lemma head_in_op op ts : op = LT \/ op = GT \/ op = APPEND -> head_in [LT; GT] (Sym op :: ts) = true.
Proof. intros H. apply bool_decide_eq_true_2. destruct H as [->|[->| ->]]; vm_compute; set_solver. Qed.

Lemma redirs_ends fuel s c t : (s <= es)%nat -> (es < fuel + s)%nat -> reads c t ->
  ends (redirs_loop buf fuel c) s (fun c' s' => exists l, Forall is_file l /\ reads c' (wrap t l) /\
    toks s = (l ≫= item_tokens) ++ toks s' /\ (s <= s' <= es)%nat /\ head_in [LT; GT] (toks s') = false).
Proof.
  revert s c t. induction fuel as [|fuel IH]; intros s c t Hs Hf Hr; [lia|]. cbn [redirs_loop].
  apply ends_peek; [done | repeat constructor; isin |]. intros s1 Hs1 E1. destruct (head_in [LT; GT] (toks s)) eqn:Eh; simpl.
  2: { exists []. simpl. split_and!; [constructor | done | done | lia | lia | by rewrite E1]. }
  destruct (head_in_redir _ Eh) as (op & ts & Es & Hop).
  apply ends_gettoken; [lia|]. intros ret x s2 [Hs2 Hg]. rewrite E1, Es in Hg. destruct Hg as (-> & Et2 & _ & Hlt).
  apply ends_gettoken; [lia|]. intros ret y s3 [Hs3 Hg]. cbn [fst snd]. destruct (Z.eqb_spec ret WORD) as [->|]; simpl; [|done].
  rewrite Et2 in Hg. destruct ts as [|[w|d] ts]; [by destruct Hg| |]; destruct Hg as (Hret & Et3 & Hy & Hlt3).
  2: { by apply toks_op in Et2 as [? _]. }
  eapply ends_mono; [eapply (IH s3 _ (redircmd op t w)); [lia | lia | by apply reads_redir] |].
  intros c' s' (l & Hl & Hrd & E & Hb & Hh). exists (File op w :: l). split_and!; [by constructor | done | | lia | lia | done].
  by rewrite Es, <- Et3, E.
Qed.

Lemma redirs_returns fuel s c t l r : (s <= es)%nat -> (es < fuel + s)%nat -> reads c t ->
  Forall is_file l -> toks s = (l ≫= item_tokens) ++ r -> head_in [LT; GT] r = false ->
  returns (redirs_loop buf fuel c) s (fun c' s' => reads c' (wrap t l) /\ toks s' = r /\ (s <= s' <= es)%nat).
Proof.
  revert s c t l. induction fuel as [|fuel IH]; intros s c t l Hs Hf Hr Hl E Hh; [lia|]. cbn [redirs_loop].
  apply returns_peek; [done | repeat constructor; isin |]. intros s1 Hs1 E1. destruct l as [|[w|op w] l].
  - simpl in E. rewrite E, Hh. cbn [negb]. apply returns_ret. split_and!; [done | by rewrite E1 | lia | lia].
  - apply Forall_cons in Hl as [[] _].
  - apply Forall_cons in Hl as [Hop Hl]. assert (toks s = Sym op :: Word w :: (l ≫= item_tokens) ++ r) as Es by done.
    rewrite Es, head_in_op by done. cbn [negb].
    apply returns_gettoken; [lia|]. intros ret x s2 [Hs2 Hg]. rewrite E1, Es in Hg. destruct Hg as (-> & Et2 & _ & Hlt).
    apply returns_gettoken; [lia|]. intros ret y s3 [Hs3 Hg]. rewrite Et2 in Hg. destruct Hg as (-> & Et3 & Hy & Hlt3).
    eapply returns_mono; [eapply (IH s3 _ (redircmd op t w) l); [lia | lia | by apply reads_redir | done..] |].
    intros c' s' (Hrd & E' & Hb). by split_and!; try lia.
Qed.

(** ** Simple commands *)

Definition simple (l : list item) : cmd (list Z) := wrap (Exec (words l)) l.

Lemma wrap_app c l l' : wrap c (l ++ l') = wrap (wrap c l) l'.
Proof. apply foldl_app. Qed.
Lemma wrap_files_words l : Forall is_file l -> words l = [].
Proof. induction 1 as [|[w|op w] l Hi _ IH]; [done | by destruct Hi | done]. Qed.
Lemma words_app l l' : words (l ++ l') = words l ++ words l'.
Proof. apply omap_app. Qed.
Lemma simple_files l l' : Forall is_file l' -> wrap (simple l) l' = simple (l ++ l').
Proof. intros H. unfold simple. by rewrite words_app, (wrap_files_words l'), app_nil_r, wrap_app. Qed.
Lemma add_arg_wrap (c : cmd (list Z)) l w : add_arg (wrap c l) w = wrap (add_arg c w) l.
Proof.
  revert c. induction l as [|[v|op v] l IH]; intros c; simpl; [done | apply IH |]. rewrite IH. f_equal.
  unfold redircmd. by repeat destruct (_ =? _).
Qed.
Lemma simple_arg l w : add_arg (simple l) w = simple (l ++ [Arg w]).
Proof. unfold simple. by rewrite add_arg_wrap, words_app, wrap_app. Qed.

Lemma after_word_redir ts : after_word ts = true -> head_in [LT; GT] ts = false.
Proof.
  destruct ts as [|[w|c] ts]; [done|done|]. unfold after_word. simpl. intros H. apply bool_decide_eq_true in H. apply bool_decide_eq_false_2.
  rewrite !elem_of_cons, elem_of_nil in H. destruct H as [H|[H|[H|[H|[]]]]]; rewrite H; notin.
Qed.

Definition ended (ts : list token) : Prop := ts = [] \/ after_word ts = true.

Lemma args_ends fuel s argc ret l : (s <= es)%nat -> (es < fuel + s)%nat -> argc = length (words l) -> (argc < MAXARGS)%nat ->
  reads ret (simple l) -> head_in [LT; GT] (toks s) = false ->
  ends (args_loop buf fuel argc ret) s (fun c' s' => exists l', Forall item_ok l' /\ reads c' (simple (l ++ l')) /\
    (length (words (l ++ l')) < MAXARGS)%nat /\ toks s = (l' ≫= item_tokens) ++ toks s' /\ (s <= s' <= es)%nat).
Proof.
  revert s argc ret l. induction fuel as [|fuel IH]; intros s argc ret l Hs Hf Ha Hm Hr Hh; [lia|]. cbn [args_loop].
  apply ends_peek; [done | repeat constructor; isin |]. intros s1 Hs1 E1. fold (after_word (toks s)). destruct (after_word (toks s)) eqn:Eh.
  { exists []. rewrite app_nil_r, E1. split_and!; [constructor | done | by rewrite <- Ha | done | lia | lia]. }
  apply ends_gettoken; [lia|]. intros r x s2 [Hs2 Hg]. rewrite E1 in Hg. cbn [fst snd].
  destruct (toks s) as [|[w|d] ts] eqn:Es.
  - destruct Hg as [-> Et2]. exists []. rewrite app_nil_r, Et2. split_and!; [constructor | done | by rewrite <- Ha | done | lia | lia].
  - destruct Hg as (-> & Et2 & Hx & Hlt). cbn [code Z.eqb WORD Pos.eqb negb]. destruct (Nat.leb_spec MAXARGS (S argc)) as [|Hlt2]; [done|].
    apply ends_bind. unfold parseredirs.
    eapply ends_mono; [apply (redirs_ends _ s2 _ (simple (l ++ [Arg w]))); [lia | lia | rewrite <- simple_arg; by apply reads_add]|].
    intros c1 s3 (l1 & Hl1 & Hr1 & E3 & Hs3 & Hh3). rewrite simple_files in Hr1 by done.
    eapply ends_mono; [eapply (IH s3 (S argc) c1 _); [lia | lia | | done | done | done]|].
    { rewrite words_app, (wrap_files_words l1), app_nil_r, words_app, length_app by done. simpl. lia. }
    intros c2 s4 (l2 & Hl2 & Hr2 & Hm2 & E4 & Hs4). exists (Arg w :: l1 ++ l2).
    replace (l ++ Arg w :: l1 ++ l2) with (((l ++ [Arg w]) ++ l1) ++ l2) by (by rewrite <- !app_assoc).
    split_and!; [| done | done | | lia | lia].
    + constructor; [done|]. apply Forall_app. split; [|done]. eapply Forall_impl; [exact Hl1|]. by intros [].
    + rewrite bind_cons, bind_app, <- !app_assoc, <- E4, <- E3. simpl. by rewrite Et2.
  - destruct Hg as (-> & Et2 & _ & Hlt). destruct (toks_op s d ts Es) as [Hn1 Hn2]. cbn [code].
    destruct (Z.eqb_spec d 0); [done|]. by destruct (Z.eqb_spec d WORD).
Qed.

(** the redirections at the front of a list of items *)
Lemma split_files l : Forall item_ok l -> exists l1 l2, l = l1 ++ l2 /\ Forall is_file l1 /\ Forall item_ok l2 /\
  match l2 with [] => True | i :: _ => exists w, i = Arg w end.
Proof.
  induction 1 as [|[w|op w] l Hi Hl IH].
  - by exists [], [].
  - exists [], (Arg w :: l). split_and!; [done | constructor | by constructor | by exists w].
  - destruct IH as (l1 & l2 & -> & H1 & H2 & H3). exists (File op w :: l1), l2. split_and!; [done | by constructor | done | done].
Qed.

Lemma ended_redir ts : ended ts -> head_in [LT; GT] ts = false.
Proof. intros [->|H]; [done | by apply after_word_redir]. Qed.
Lemma items_redir l r : match l with [] => True | i :: _ => exists w, i = Arg w end -> ended r -> head_in [LT; GT] ((l ≫= item_tokens) ++ r) = false.
Proof. destruct l as [|i l]; [intros _; apply ended_redir | by intros [w ->] _]. Qed.

Lemma args_returns fuel s argc ret l l' r : (s <= es)%nat -> (es < fuel + s)%nat -> argc = length (words l) ->
  (length (words (l ++ l')) < MAXARGS)%nat -> reads ret (simple l) ->
  Forall item_ok l' -> match l' with [] => True | i :: _ => exists w, i = Arg w end ->
  toks s = (l' ≫= item_tokens) ++ r -> ended r ->
  returns (args_loop buf fuel argc ret) s (fun c' s' => reads c' (simple (l ++ l')) /\ toks s' = r /\ (s <= s' <= es)%nat).
Proof.
  revert s argc ret l l'. induction fuel as [|fuel IH]; intros s argc ret l l' Hs Hf Ha Hm Hr Hl Hh E He; [lia|]. cbn [args_loop].
  apply returns_peek; [done | repeat constructor; isin |]. intros s1 Hs1 E1. fold (after_word (toks s)). destruct l' as [|i l'].
  - rewrite app_nil_r. simpl in E. destruct He as [->|He].
    + rewrite E. cbn [after_word head_in]. apply returns_gettoken; [lia|]. intros r x s2 [Hs2 Hg]. rewrite E1, E in Hg. destruct Hg as [-> E2].
      apply returns_ret. split_and!; [done | done | lia | lia].
    + rewrite E, He. apply returns_ret. rewrite E1. split_and!; [done | done | lia | lia].
  - destruct Hh as [w ->]. apply Forall_cons in Hl as [_ Hl]. destruct (split_files _ Hl) as (l1 & l2 & -> & Hl1 & Hl2 & Hh2).
    assert (toks s = Word w :: (l1 ≫= item_tokens) ++ (l2 ≫= item_tokens) ++ r) as Es by (rewrite E, bind_cons, bind_app, <- !app_assoc; done).
    rewrite Es. cbn [after_word head_in].
    apply returns_gettoken; [lia|]. intros ret' x s2 [Hs2 Hg]. rewrite E1, Es in Hg. destruct Hg as (-> & Et2 & Hx & Hlt).
    cbn [fst snd code Z.eqb WORD Pos.eqb negb].
    rewrite words_app, length_app in Hm. simpl in Hm. destruct (Nat.leb_spec MAXARGS (S argc)) as [|Hlt2]; [lia|].
    apply returns_bind. unfold parseredirs.
    eapply returns_mono; [apply (redirs_returns _ s2 _ (simple (l ++ [Arg w])) l1 ((l2 ≫= item_tokens) ++ r)); [lia | lia | | done | done | by apply items_redir]|].
    { rewrite <- simple_arg. by apply reads_add. }
    intros c1 s3 (Hr1 & E3 & Hs3). rewrite simple_files in Hr1 by done.
    assert (l ++ Arg w :: l1 ++ l2 = ((l ++ [Arg w]) ++ l1) ++ l2) as Eassoc by (by rewrite <- !app_assoc). rewrite Eassoc.
    eapply returns_mono; [eapply (IH s3 (S argc) c1 _ l2); [lia | lia | | | done | done | done | done | done]|].
    + rewrite words_app, (wrap_files_words l1), app_nil_r, words_app, length_app by done. simpl. lia.
    + rewrite <- Eassoc, words_app, length_app. simpl. lia.
    + intros c2 s4 (? & ? & ?). split_and!; [done | done | lia | lia].
Qed.

(** ** Background commands *)

Lemma head_amp c ts : c ∈ [AMP; SEMI; BAR; LPAREN; RPAREN] -> head_in [c] ts = true -> exists ts', ts = Sym c :: ts'.
Proof.
  intros Hc. destruct ts as [|[w|d] ts]; [done|done|]. simpl. intros H. apply bool_decide_eq_true, list_elem_of_singleton in H. exists ts.
  unfold first_char in H. destruct (Z.eqb_spec d APPEND); [|congruence]. subst c.
  exfalso. revert Hc. change (GT ∉ [AMP; SEMI; BAR; LPAREN; RPAREN]). notin.
Qed.
Lemma head_sym c ts : c <> APPEND -> head_in [c] (Sym c :: ts) = true.
Proof. intros H. apply bool_decide_eq_true_2, list_elem_of_singleton. unfold first_char. by destruct (Z.eqb_spec c APPEND). Qed.

Lemma backs_returns fuel s c t n r : (s <= es)%nat -> (es < fuel + s)%nat -> reads c t ->
  toks s = replicate n (Sym AMP) ++ r -> head_in [AMP] r = false ->
  returns (backs_loop buf fuel c) s (fun c' s' => reads c' (Nat.iter n Back t) /\ toks s' = r /\ (s <= s' <= es)%nat).
Proof.
  revert s c t n. induction fuel as [|fuel IH]; intros s c t n Hs Hf Hr E Hh; [lia|]. cbn [backs_loop].
  apply returns_peek; [done | repeat constructor; isin |]. intros s1 Hs1 E1. destruct n as [|n].
  - simpl in E. rewrite E, Hh. apply returns_ret. rewrite E1. split_and!; [done | done | lia | lia].
  - simpl in E. rewrite E, head_sym by done. cbn [negb].
    apply returns_gettoken; [lia|]. intros ret x s2 [Hs2 Hg]. rewrite E1, E in Hg. destruct Hg as (-> & Et2 & _ & Hlt).
    eapply returns_mono; [apply (IH s2 (Back c) (Back t) n); [lia | lia | by apply (reads_iter 1) | done | done]|].
    intros c' s' (Hr' & E' & Hb). rewrite <- Nat.iter_succ_r in Hr'. split_and!; [done | done | lia | lia].
Qed.

(** how many [&] there are *)
Lemma split_amps ts : exists n r, ts = replicate n (Sym AMP) ++ r /\ head_in [AMP] r = false.
Proof.
  induction ts as [|t ts (n & r & E & H)]; [by exists 0%nat, []|]. destruct (head_in [AMP] (t :: ts)) eqn:Eh.
  - destruct (head_amp AMP _ ltac:(isin) Eh) as [ts' [= -> _]]. exists (S n), r. by rewrite E.
  - by exists 0%nat, (t :: ts).
Qed.

(** ** The grammar *)

(** what the parser returns is derived from the tokens that it has read *)
Definition derived (G : list token -> cmd (list Z) -> Prop) (m : M nat (cmd span)) (s : nat) : Prop :=
  ends m s (fun c s' => exists ts t, G ts t /\ reads c t /\ toks s = ts ++ toks s' /\ (s <= s' <= es)%nat).

Lemma derived_mono (G G' : list token -> cmd (list Z) -> Prop) m s : derived G m s -> (forall ts t, G ts t -> G' ts t) -> derived G' m s.
Proof. intros H HG. eapply ends_mono; [exact H|]. intros c s' (ts & t & ? & ?). exists ts, t. split; [by apply HG | done]. Qed.

Lemma parseline_derived fuel s : (s <= es)%nat -> (forall s', (s <= s' <= es)%nat -> (s < s')%nat -> derived Line (parseline buf fuel) s') ->
  derived PipeLine (parsepipe buf fuel) s -> derived Line (parseline buf (S fuel)) s.
Proof.
  intros Hs IH Hp. cbn [parseline]. unfold derived. apply ends_bind. eapply ends_mono; [exact Hp|].
  intros c s1 (ts & t & HG & Hr & E & Hb1). apply ends_bind. destruct (split_amps (toks s1)) as (n & r & Er & Hh).
  eapply ends_mono; [apply returns_ends, (backs_returns _ s1 c t n r); [lia | lia | done..]|].
  intros c2 s2 (Hr2 & E2 & Hb2). apply ends_peek; [lia | repeat constructor; isin |]. intros s3 Hs3 E3.
  destruct (head_in [SEMI] (toks s2)) eqn:Eh.
  - destruct (head_amp SEMI _ ltac:(isin) Eh) as [ts' Ets].
    apply ends_gettoken; [lia|]. intros ret x s4 [Hs4 Hg]. rewrite E3, Ets in Hg. destruct Hg as (_ & E4 & _ & Hlt).
    apply ends_bind. eapply ends_mono; [apply (IH s4); lia|]. intros c5 s5 (ts5 & t5 & HG5 & Hr5 & E5 & Hb5).
    exists (ts ++ replicate n (Sym AMP) ++ Sym SEMI :: ts5), (List (Nat.iter n Back t) t5). split_and!; [by constructor | by apply reads_pair | | lia | lia].
    rewrite E, Er, <- E2, Ets, <- E4, E5, <- !app_assoc. done.
  - exists (ts ++ replicate n (Sym AMP)), (Nat.iter n Back t). rewrite E3, E2. split_and!; [by constructor | done | | lia | lia].
    by rewrite E, Er, <- app_assoc.
Qed.

Lemma parsepipe_derived fuel s : (s <= es)%nat -> (forall s', (s <= s' <= es)%nat -> (s < s')%nat -> derived PipeLine (parsepipe buf fuel) s') ->
  derived Simple (parseexec buf fuel) s -> derived PipeLine (parsepipe buf (S fuel)) s.
Proof.
  intros Hs IH Hp. cbn [parsepipe]. unfold derived. apply ends_bind. eapply ends_mono; [exact Hp|].
  intros c s2 (ts & t & HG & Hr & E & Hb1). apply ends_peek; [lia | repeat constructor; isin |]. intros s3 Hs3 E3.
  destruct (head_in [BAR] (toks s2)) eqn:Eh.
  - destruct (head_amp BAR _ ltac:(isin) Eh) as [ts' Ets].
    apply ends_gettoken; [lia|]. intros ret x s4 [Hs4 Hg]. rewrite E3, Ets in Hg. destruct Hg as (_ & E4 & _ & Hlt).
    apply ends_bind. eapply ends_mono; [apply (IH s4); lia|]. intros c5 s5 (ts5 & t5 & HG5 & Hr5 & E5 & Hb5).
    exists (ts ++ Sym BAR :: ts5), (Pipe t t5). split_and!; [by constructor | by apply reads_pair | | lia | lia].
    rewrite E, Ets, <- E4, E5, <- !app_assoc. done.
  - exists ts, t. rewrite E3. split_and!; [by constructor | done | done | lia | lia].
Qed.

Lemma parseblock_derived fuel s : (s <= es)%nat -> (forall s', (s <= s' <= es)%nat -> (s < s')%nat -> derived Line (parseline buf fuel) s') ->
  derived Simple (parseblock buf (S fuel)) s.
Proof.
  intros Hs IH. cbn [parseblock]. unfold derived. apply ends_peek; [lia | repeat constructor; isin |]. intros s1 Hs1 E1.
  destruct (head_in [LPAREN] (toks s)) eqn:Eh; [|done]. destruct (head_amp LPAREN _ ltac:(isin) Eh) as [ts' Ets]. cbn [negb].
  apply ends_gettoken; [lia|]. intros ret x s2 [Hs2 Hg]. rewrite E1, Ets in Hg. destruct Hg as (_ & E2 & _ & Hlt).
  apply ends_bind. eapply ends_mono; [apply (IH s2); lia|]. intros c3 s3 (ts3 & t3 & HG3 & Hr3 & E3 & Hb3).
  apply ends_peek; [lia | repeat constructor; isin |]. intros s4 Hs4 E4.
  destruct (head_in [RPAREN] (toks s3)) eqn:Eh3; [|done]. destruct (head_amp RPAREN _ ltac:(isin) Eh3) as [ts4 Ets4]. cbn [negb].
  apply ends_gettoken; [lia|]. intros ret' x' s5 [Hs5 Hg]. rewrite E4, Ets4 in Hg. destruct Hg as (_ & E5 & _ & Hlt5).
  eapply ends_mono; [apply (redirs_ends _ s5 c3 t3); [lia | lia | done]|]. intros c6 s6 (l & Hl & Hr6 & E6 & Hb6 & _).
  exists (Sym LPAREN :: ts3 ++ Sym RPAREN :: (l ≫= item_tokens)), (wrap t3 l). split_and!; [by constructor | done | | lia | lia].
  rewrite Ets, <- E2, E3, Ets4, <- E5, E6. simpl. by rewrite <- app_assoc.
Qed.

Lemma parseexec_derived fuel s : (s <= es)%nat -> (forall s', (s <= s' <= es)%nat -> derived Simple (parseblock buf fuel) s') -> derived Simple (parseexec buf (S fuel)) s.
Proof.
  intros Hs Hb. cbn [parseexec]. unfold derived. apply ends_peek; [lia | repeat constructor; isin |]. intros s1 Hs1 E1.
  destruct (head_in [LPAREN] (toks s)) eqn:Eh.
  - eapply ends_mono; [by apply Hb|]. intros c s2 (ts & t & HG & Hr & E & Hb2). exists ts, t. rewrite <- E1. split_and!; [done..| lia | lia].
  - apply ends_bind. eapply ends_mono; [apply (redirs_ends _ s1 (Exec []) (simple [])); [lia | lia | done]|].
    intros c2 s2 (l & Hl & Hr & E & Hb2 & Hh). rewrite simple_files in Hr by done. simpl in Hr.
    eapply ends_mono; [apply (args_ends _ s2 0%nat c2 l); [lia | lia | by rewrite wrap_files_words | unfold MAXARGS; lia | done | done]|].
    intros c3 s3 (l' & Hl' & Hr' & Hm & E' & Hb3). exists ((l ++ l') ≫= item_tokens), (simple (l ++ l')).
    split_and!; [|done| | lia | lia].
    + constructor; [|done]. apply Forall_app. split; [|done]. eapply Forall_impl; [exact Hl|]. by intros [].
    + by rewrite bind_app, <- app_assoc, <- E', <- E, E1.
Qed.

Lemma parse_derived fuel : forall s, (s <= es)%nat ->
  ((4 * (es - s) + 4 <= fuel)%nat -> derived Line (parseline buf fuel) s) /\
  ((4 * (es - s) + 3 <= fuel)%nat -> derived PipeLine (parsepipe buf fuel) s) /\
  ((4 * (es - s) + 2 <= fuel)%nat -> derived Simple (parseexec buf fuel) s) /\
  ((4 * (es - s) + 1 <= fuel)%nat -> derived Simple (parseblock buf fuel) s).
Proof.
  induction fuel as [|fuel IH]; intros s Hs; [lia|]. destruct (IH s Hs) as (H1 & H2 & H3 & H4). split_and!; intros Hf.
  - apply parseline_derived; [done | | apply H2; lia]. intros s' Hb Hlt. apply (IH s'); lia.
  - apply parsepipe_derived; [done | | apply H3; lia]. intros s' Hb Hlt. apply (IH s'); lia.
  - apply parseexec_derived; [done|]. intros s' Hb. apply (IH s'); lia.
  - apply parseblock_derived; [done|]. intros s' Hb Hlt. apply (IH s'); lia.
Qed.

(** what may follow a simple command, a pipeline and a line *)
Definition ends_pipe (ts : list token) : Prop := ts = [] \/ head_in [RPAREN; AMP; SEMI] ts = true.
Definition ends_line (ts : list token) : Prop := ts = [] \/ head_in [RPAREN] ts = true.

Lemma head_in_sub l l' ts : l ⊆ l' -> head_in l ts = true -> head_in l' ts = true.
Proof. destruct ts as [|[w|c] ts]; [done|done|]. simpl. intros Hl H. apply bool_decide_eq_true in H. by apply bool_decide_eq_true_2, Hl. Qed.
Lemma head_in_not c l ts : c ∉ l -> ts = [] \/ head_in l ts = true -> head_in [c] ts = false.
Proof.
  intros Hc [->|H]; [done|]. destruct ts as [|[w|d] ts]; [done|done|]. simpl in *. apply bool_decide_eq_true in H.
  apply bool_decide_eq_false_2. rewrite list_elem_of_singleton. congruence.
Qed.
Lemma ends_line_pipe ts : ends_line ts -> ends_pipe ts.
Proof. intros [->|H]; [by left | right]. eapply head_in_sub; [|exact H]. set_solver. Qed.
Lemma ends_pipe_ended ts : ends_pipe ts -> ended ts.
Proof. intros [->|H]; [by left | right]. eapply head_in_sub; [|exact H]. set_solver. Qed.
Lemma ends_pipe_amps n ts : ends_pipe ts -> ends_pipe (replicate n (Sym AMP) ++ ts).
Proof. intros H. destruct n; [done|]. right. apply bool_decide_eq_true_2. isin. Qed.
Lemma ends_pipe_semi ts : ends_pipe (Sym SEMI :: ts).
Proof. right. apply bool_decide_eq_true_2. isin. Qed.
Lemma ended_sym c ts : c ∈ [BAR; RPAREN; AMP; SEMI] -> ended (Sym c :: ts).
Proof.
  intros Hc. right. apply bool_decide_eq_true_2. unfold first_char. destruct (Z.eqb_spec c APPEND) as [->|]; [|done].
  exfalso. revert Hc. change (APPEND ∉ [BAR; RPAREN; AMP; SEMI]). notin.
Qed.

(** the call returns the tree [t] and leaves [r] *)
Definition accepts (m : M nat (cmd span)) (s : nat) (t : cmd (list Z)) (r : list token) : Prop :=
  returns m s (fun c s' => reads c t /\ toks s' = r /\ (s <= s' <= es)%nat).

Definition line_accepts ts t : Prop := forall fuel s r, (s <= es)%nat -> (4 * (es - s) + 4 <= fuel)%nat -> toks s = ts ++ r -> ends_line r ->
  accepts (parseline buf fuel) s t r.
Definition pipe_accepts ts t : Prop := forall fuel s r, (s <= es)%nat -> (4 * (es - s) + 3 <= fuel)%nat -> toks s = ts ++ r -> ends_pipe r ->
  accepts (parsepipe buf fuel) s t r.
Definition simple_accepts ts t : Prop := forall fuel s r, (s <= es)%nat -> (4 * (es - s) + 2 <= fuel)%nat -> toks s = ts ++ r -> ended r ->
  accepts (parseexec buf fuel) s t r.

(** a pipeline with its [&], before [r] *)
Lemma pipe_amps {B} ts t n r fuel s (k : cmd span -> M nat B) Q : pipe_accepts ts t ->
  (s <= es)%nat -> (4 * (es - s) + 3 <= fuel)%nat -> toks s = ts ++ replicate n (Sym AMP) ++ r -> ends_pipe r -> head_in [AMP] r = false ->
  (forall c s', reads c (Nat.iter n Back t) -> toks s' = r -> (s <= s' <= es)%nat -> returns (k c) s' Q) ->
  returns (c ← parsepipe buf fuel; c ← backs_loop buf (S es) c; k c) s Q.
Proof.
  intros IH Hs Hf E He Hh Hk. apply returns_bind. eapply returns_mono; [eapply IH; [done | lia | exact E | by apply ends_pipe_amps]|].
  intros c s1 (Hr & E1 & Hb1). apply returns_bind. eapply returns_mono; [apply (backs_returns _ s1 c t n r); [lia | lia | done..]|].
  intros c2 s2 (Hr2 & E2 & Hb2). apply Hk; [done | done | lia].
Qed.

Lemma line_complete ts t n : pipe_accepts ts t -> line_accepts (ts ++ replicate n (Sym AMP)) (Nat.iter n Back t).
Proof.
  intros IH [|fuel] s r Hs Hf E He; [lia|]. cbn [parseline]. rewrite <- app_assoc in E.
  eapply (pipe_amps _ _ n r); [exact IH | done | lia | exact E | by apply ends_line_pipe | by apply (head_in_not _ [RPAREN]); [notin|]|].
  intros c2 s2 Hr2 E2 Hb2. apply returns_peek; [lia | repeat constructor; isin |]. intros s3 Hs3 E3.
  rewrite E2, (head_in_not _ [RPAREN]) by (done || notin). apply returns_ret. rewrite E3. split_and!; [done | done | lia | lia].
Qed.

Lemma list_complete ts t n ts' t' : pipe_accepts ts t -> line_accepts ts' t' ->
  line_accepts (ts ++ replicate n (Sym AMP) ++ Sym SEMI :: ts') (List (Nat.iter n Back t) t').
Proof.
  intros IH IH' [|fuel] s r Hs Hf E He; [lia|]. cbn [parseline]. rewrite <- !app_assoc in E.
  eapply (pipe_amps _ _ n (Sym SEMI :: ts' ++ r)); [exact IH | done | lia | exact E | apply ends_pipe_semi | done |].
  intros c2 s2 Hr2 E2 Hb2. apply returns_peek; [lia | repeat constructor; isin |]. intros s3 Hs3 E3. rewrite E2, head_sym by done.
  apply returns_gettoken; [lia|]. intros ret x s4 [Hs4 Hg]. rewrite E3, E2 in Hg. destruct Hg as (_ & E4 & _ & Hlt).
  apply returns_bind. eapply returns_mono; [apply (IH' fuel s4 r); [lia | lia | done | done]|].
  intros c5 s5 (Hr5 & E5 & Hb5). apply returns_ret. split_and!; [by apply reads_pair | done | lia | lia].
Qed.

Lemma exec_complete ts t : simple_accepts ts t -> pipe_accepts ts t.
Proof.
  intros IH [|fuel] s r Hs Hf E He; [lia|]. cbn [parsepipe]. apply returns_bind.
  eapply returns_mono; [apply (IH fuel s r); [done | lia | done | by apply ends_pipe_ended]|].
  intros c s1 (Hr & E1 & Hb1). apply returns_peek; [lia | repeat constructor; isin |]. intros s2 Hs2 E2.
  rewrite E1, (head_in_not _ [RPAREN; AMP; SEMI]) by (done || notin). apply returns_ret. rewrite E2. split_and!; [done | done | lia | lia].
Qed.

Lemma pipe_complete ts t ts' t' : simple_accepts ts t -> pipe_accepts ts' t' -> pipe_accepts (ts ++ Sym BAR :: ts') (Pipe t t').
Proof.
  intros IH IH' [|fuel] s r Hs Hf E He; [lia|]. cbn [parsepipe]. apply returns_bind. rewrite <- app_assoc in E.
  eapply returns_mono; [eapply (IH fuel s); [done | lia | exact E | apply ended_sym; isin]|].
  intros c s1 (Hr & E1 & Hb1). apply returns_peek; [lia | repeat constructor; isin |]. intros s2 Hs2 E2. rewrite E1. simpl (_ ++ _). rewrite head_sym by done.
  apply returns_gettoken; [lia|]. intros ret x s4 [Hs4 Hg]. rewrite E2, E1 in Hg. destruct Hg as (_ & E4 & _ & Hlt).
  apply returns_bind. eapply returns_mono; [apply (IH' fuel s4 r); [lia | lia | done | done]|].
  intros c5 s5 (Hr5 & E5 & Hb5). apply returns_ret. split_and!; [by apply reads_pair | done | lia | lia].
Qed.

Lemma simple_complete l : Forall item_ok l -> (length (words l) < MAXARGS)%nat -> simple_accepts (l ≫= item_tokens) (simple l).
Proof.
  intros Hl Hm [|fuel] s r Hs Hf E He; [lia|]. cbn [parseexec]. destruct (split_files l Hl) as (l1 & l2 & -> & H1 & H2 & Hh).
  rewrite bind_app, <- app_assoc in E. apply returns_peek; [lia | repeat constructor; isin |]. intros s1 Hs1 E1.
  assert (head_in [LPAREN] (toks s) = false) as ->.
  { rewrite E. destruct H1 as [|[w|op w] l1 Hop _]; [|by destruct Hop|].
    - simpl. destruct l2 as [|i l2]; [|by destruct Hh as [w ->]]. simpl. apply (head_in_not _ [BAR; RPAREN; AMP; SEMI]); [notin | done].
    - apply (head_in_not _ [LT; GT]); [notin|]. right. by apply head_in_op. }
  apply returns_bind. eapply returns_mono; [apply (redirs_returns _ s1 (Exec []) (simple []) l1 ((l2 ≫= item_tokens) ++ r)); try lia; try done|].
  { by rewrite E1. } { by apply items_redir. }
  intros c2 s2 (Hr2 & E2 & Hb2). rewrite simple_files in Hr2 by done. simpl in Hr2.
  eapply returns_mono; [apply (args_returns _ s2 0%nat c2 l1 l2 r); try done; try lia; by rewrite wrap_files_words|].
  intros c3 s3 (Hr3 & E3 & Hb3). split_and!; [done | done | lia | lia].
Qed.

Lemma block_complete ts t l : line_accepts ts t -> Forall is_file l ->
  simple_accepts (Sym LPAREN :: ts ++ Sym RPAREN :: (l ≫= item_tokens)) (wrap t l).
Proof.
  intros IH Hl [|[|fuel]] s r Hs Hf E He; [lia|lia|]. cbn [parseexec parseblock]. simpl in E. rewrite <- app_assoc in E. simpl in E.
  apply returns_peek; [lia | repeat constructor; isin |]. intros s0 Hs0 E0. rewrite E, head_sym by done.
  apply returns_peek; [lia | repeat constructor; isin |]. intros s1 Hs1 E1. rewrite E0, E, head_sym by done. cbn [negb].
  apply returns_gettoken; [lia|]. intros ret x s2 [Hs2 Hg]. rewrite E1, E0, E in Hg. destruct Hg as (_ & E2 & _ & Hlt).
  apply returns_bind. eapply returns_mono; [eapply (IH fuel s2); [lia | lia | exact E2 | right; by apply head_sym]|].
  intros c3 s3 (Hr3 & E3 & Hb3). apply returns_peek; [lia | repeat constructor; isin |]. intros s4 Hs4 E4. rewrite E3, head_sym by done. cbn [negb].
  apply returns_gettoken; [lia|]. intros ret' x' s5 [Hs5 Hg]. rewrite E4, E3 in Hg. destruct Hg as (_ & E5 & _ & Hlt5).
  eapply returns_mono; [apply (redirs_returns _ s5 c3 t l r); [lia | lia | done | done | done | by apply ended_redir]|].
  intros c6 s6 (? & ? & ?). split_and!; [done | done | lia | lia].
Qed.

Lemma parse_complete :
  (forall ts t, Line ts t -> line_accepts ts t) /\ (forall ts t, PipeLine ts t -> pipe_accepts ts t) /\
  (forall ts t, Simple ts t -> simple_accepts ts t).
Proof.
  apply grammar_ind; intros.
  - by apply line_complete.
  - by apply list_complete.
  - by apply exec_complete.
  - by apply pipe_complete.
  - by apply simple_complete.
  - by apply block_complete.
Qed.

(** ** The whole line *)

Lemma toks_end s : (s <= es)%nat -> toks s = [] <-> skip_ws buf s = es.
Proof.
  intros Hs. destruct (skip_spec s Hs) as (H1 & E & H2). rewrite <- E. unfold toks. split.
  - intros Et. destruct (rest (skip_ws buf s)) as [|c r] eqn:Er.
    + unfold rest in Er. apply (f_equal length) in Er. rewrite length_drop in Er. simpl in Er. unfold Sh.es in *. lia.
    + exfalso. simpl in Et. destruct H2 as [H2 _]. rewrite bool_decide_eq_false_2 in Et by done. destruct (bool_decide (c ∈ symbols)).
      * destruct (c =? GT); [|done]. destruct r as [|d r]; [done|]. by destruct (d =? GT).
      * destruct (lex_acc [c] r) as (w & ts & E'); [done|]. by rewrite E' in Et.
  - intros ->. unfold rest. by rewrite drop_ge by (unfold Sh.es; lia).
Qed.

(** [nulterminate] writes at the ends of the words *)
Lemma nulterminate_words c b : nulterminate c b = foldl (fun b w => <[w.2 := 0]> b) b (cmd_words c).
Proof. revert b. induction c as [| | l IHl r IHr | l IHl r IHr |]; intros b; simpl; rewrite ?foldl_app; simpl; rewrite ?IHc, ?IHl, ?IHr; done. Qed.

Lemma write_ends (ws : list span) b i :
  foldl (fun b w => <[w.2 := 0]> b) b ws !! i =
  if decide (i ∈ ws.*2 /\ (i < length b)%nat) then Some 0 else b !! i.
Proof.
  revert b. induction ws as [|w ws IH]; intros b; cbn [foldl fmap list_fmap].
  { case_decide as H; [|done]. destruct H as [H _]. by apply elem_of_nil in H. }
  rewrite IH, length_insert. destruct (decide (i = w.2)) as [->|Hne].
  - destruct (decide (w.2 < length b)%nat) as [Hlt|Hge].
    + rewrite list_lookup_insert_eq by done. assert (w.2 ∈ w.2 :: ws.*2) by apply list_elem_of_here.
      repeat case_decide; tauto.
    + rewrite list_insert_ge by lia. repeat case_decide; tauto.
  - rewrite list_lookup_insert_ne by done. assert (i ∈ w.2 :: ws.*2 <-> i ∈ ws.*2) as Hin by (rewrite elem_of_cons; tauto).
    repeat case_decide; tauto.
Qed.

(** a word does not contain the end of another one *)
Lemma word_end x w y v i : word_at x w -> word_at y v -> (i < length w)%nat -> (x.1 + i)%nat <> y.2.
Proof.
  intros (H1 & E & Hw & _) (H2 & _ & _ & _ & Hst) Hi Heq. destruct (lookup_lt_is_Some_2 w i Hi) as [c Hc].
  rewrite <- Heq in Hst. unfold rest in Hst. rewrite <- drop_drop in Hst. fold (rest x.1) in Hst.
  rewrite E, drop_app_le in Hst by lia. rewrite (drop_S _ _ _ Hc) in Hst. simpl in Hst.
  rewrite Forall_lookup in Hw. specialize (Hw _ _ Hc). destruct Hw. tauto.
Qed.

Lemma cstr_prefix l w : (forall i, (i < length w)%nat -> l !! i = w !! i) -> l !! length w = Some 0 -> nonul w -> cstr l = w.
Proof.
  intros H1 H2 Hw. assert (exists r, l = w ++ 0 :: r) as [r ->]; [|by apply cstr_app].
  exists (drop (S (length w)) l). rewrite <- (take_drop (length w) l) at 1. f_equal; [|by apply drop_S].
  apply list_eq. intros i. destruct (decide (i < length w)%nat) as [Hi|Hi].
  - rewrite lookup_take_lt by done. auto.
  - rewrite lookup_take_ge by lia. symmetry. apply lookup_ge_None. lia.
Qed.

Lemma line_lookup i : (i < es)%nat -> buf !! i = line !! i.
Proof. intros Hi. destruct (cstr_split buf Hnul) as [r E]. rewrite E at 1. by apply lookup_app_l. Qed.
Lemma es_lt : (es < length buf)%nat.
Proof. destruct (cstr_split buf Hnul) as [r E]. rewrite E at 2. rewrite length_app. simpl. unfold Sh.es. lia. Qed.

Lemma string_at_word c x w : Forall is_word (cmd_words c) -> x ∈ cmd_words c -> word_at x w -> string_at (nulterminate c buf) x = w.
Proof.
  intros Hall Hin Hx. rewrite nulterminate_words. unfold string_at. pose proof Hx as (Hb & E & Hw & _). pose proof es_lt as Hes.
  assert (length w = (x.2 - x.1)%nat) as Hlen.
  { apply (f_equal length) in E. unfold rest in E. rewrite length_app, !length_drop in E. unfold Sh.es in *. lia. }
  apply cstr_prefix.
  - intros i Hi. rewrite lookup_drop, write_ends, decide_False.
    + rewrite line_lookup by lia. rewrite <- lookup_drop. fold (rest x.1). rewrite E. by apply lookup_app_l.
    + intros [Hends _]. apply list_elem_of_fmap in Hends as (y & Ey & Hy). rewrite Forall_forall in Hall. destruct (Hall _ Hy) as [v Hv].
      by apply (word_end _ _ _ _ i Hx Hv).
  - rewrite lookup_drop, write_ends, decide_True; [done|]. split; [|lia]. replace (x.1 + length w)%nat with x.2 by lia.
    apply list_elem_of_fmap. by exists x.
  - pose proof (rest_nz x.1) as Hnz. rewrite E in Hnz. by apply Forall_app in Hnz as [? _].
Qed.

Lemma cmap_words {A B} (f g : A -> B) c : (forall x, x ∈ cmd_words c -> f x = g x) -> cmap f c = cmap g c.
Proof.
  induction c as [argv|c IH file m fd|l IHl r IHr|l IHl r IHr|c IH]; simpl; intros H.
  - f_equal. apply list_fmap_ext. intros i x Hx. apply H. by eapply list_elem_of_lookup_2.
  - f_equal; [apply IH; intros; apply H|apply H]; set_solver.
  - f_equal; [apply IHl|apply IHr]; intros; apply H; set_solver.
  - f_equal; [apply IHl|apply IHr]; intros; apply H; set_solver.
  - f_equal. by apply IH.
Qed.

Lemma reads_strings c t : reads c t -> cmap (string_at (nulterminate c buf)) c = t.
Proof.
  intros [H <-]. apply cmap_words. intros x Hx. pose proof H as Hall. rewrite Forall_forall in H. destruct (H _ Hx) as [w Hw].
  by rewrite (slice_word _ _ Hw), (string_at_word c x w).
Qed.
End Buffer.

(** a line of the grammar is accepted *)
Lemma parsecmd_complete buf t : 0 ∈ buf -> Line (lex [] (cstr buf)) t ->
  exists c b, parsecmd buf = Ok (c, b) /\ cmap (string_at b) c = t.
Proof.
  intros Hnul Ht. destruct (parse_complete buf Hnul) as [Hc _].
  pose proof (Hc _ _ Ht (4 * es buf + 4)%nat 0%nat [] ltac:(lia) ltac:(lia)) as H. unfold toks, rest in H. rewrite drop_0, app_nil_r in H.
  specialize (H eq_refl (or_introl eq_refl)). unfold accepts, returns in H. unfold parsecmd, mbind, M_bind.
  destruct (parseline buf _ 0%nat) as [[c s1]| |]; [|done|done]. destruct H as (Hr & E1 & Hb). unfold peek, get, modify, mbind, M_bind, mret, M_ret.
  apply (toks_end buf Hnul) in E1; [|lia]. rewrite decide_True by done. do 2 eexists. split; [done|]. by apply reads_strings.
Qed.

(** a command that is returned was derived *)
Lemma parsecmd_sound buf : 0 ∈ buf ->
  match parsecmd buf with
  | Ok (c, b) => Line (lex [] (cstr buf)) (cmap (string_at b) c)
  | Panic _ => True
  | Block => False
  end.
Proof.
  intros Hnul. destruct (parse_derived buf Hnul (4 * es buf + 4) 0 ltac:(lia)) as (Hd & _). specialize (Hd ltac:(lia)).
  unfold derived, ends in Hd. unfold parsecmd, mbind, M_bind. destruct (parseline buf _ 0%nat) as [[c s1]| |]; [|done|done].
  destruct Hd as (ts & t & HG & Hr & Et & Hb). unfold peek, get, modify, mbind, M_bind, mret, M_ret. case_decide as Hes; [|done].
  apply (toks_end buf Hnul) in Hes; [|lia]. rewrite Hes, app_nil_r in Et. unfold toks, rest in Et. rewrite drop_0 in Et.
  by rewrite (reads_strings _ Hnul _ _ Hr), Et.
Qed.

(** C11: The parser decides the grammar and always ends: it returns a command, whose
    strings after [nulterminate] are those of the tree [t], exactly when the tokens
    of the line derive [t]; on any other line the program ends with a message. *)
Theorem parsecmd_correct buf : 0 ∈ buf ->
  parsecmd buf <> Block /\
  forall t, Line (lex [] (cstr buf)) t <-> exists c b, parsecmd buf = Ok (c, b) /\ cmap (string_at b) c = t.
Proof.
  intros Hnul. pose proof (parsecmd_sound buf Hnul) as H. split; [by intros E; rewrite E in H|]. intros t.
  split; [by apply parsecmd_complete|]. intros (c & b & E & <-). by rewrite E in H.
Qed.

Lemma parsecmd_correct_witness :
  (forall t, ~ Line (lex [] (cstr (str "(a|b" ++ [10; 0]))) t) /\
  Line (lex [] (cstr (str "a|b>c&" ++ [10; 0]))) (Back (Pipe (Exec [str "a"]) (Redir (Exec [str "b"]) (str "c") O_WRONLY_CREATE 1))).
Proof.
  split.
  - intros t H. apply (parsecmd_correct (str "(a|b" ++ [10; 0])) in H as (c & b & E & _); [|isin]. vm_compute in E. discriminate.
  - apply (parsecmd_correct (str "a|b>c&" ++ [10; 0])); [isin|]. do 2 eexists. split; [vm_compute; reflexivity | by vm_compute].
Defined.

(** ** Writing a command *)

Definition word_ok (w : list Z) : Prop := w <> [] /\ Forall (fun c => wordch c /\ c <> 0) w.

(** the trees that a line can denote *)
Inductive printable : cmd (list Z) -> Prop :=
| P_exec argv : Forall word_ok argv -> (length argv < MAXARGS)%nat -> printable (Exec argv)
| P_redir c file mode fd : printable c -> word_ok file -> (mode, fd) = (O_RDONLY, 0) \/ (mode, fd) = (O_WRONLY_CREATE, 1) ->
    printable (Redir c file mode fd)
| P_pipe l r : printable l -> printable r -> printable (Pipe l r)
| P_list l r : printable l -> printable r -> printable (List l r)
| P_back c : printable c -> printable (Back c).

Definition parens (b : bool) (ts : list token) : list token := if b then Sym LPAREN :: ts ++ [Sym RPAREN] else ts.

(** the tokens of a command where a simple command (0), a pipeline (1), a
    pipeline with its [&] (2) or a line (3) is expected *)
Fixpoint show (lvl : nat) (c : cmd (list Z)) : list token :=
  match c with
  | Exec argv => Word <$> argv
  | Redir c file mode fd => show 0 c ++ [Sym (if fd =? 0 then LT else GT); Word file]
  | Pipe l r => parens (lvl <? 1)%nat (show 0 l ++ Sym BAR :: show 1 r)
  | Back c => parens (lvl <? 2)%nat (show 2 c ++ [Sym AMP])
  | List l r => parens (lvl <? 3)%nat (show 2 l ++ Sym SEMI :: show 3 r)
  end.

(** the line of a list of tokens *)
Definition token_bytes (t : token) : list Z :=
  match t with
  | Word w => w ++ [32]
  | Sym c => if c =? APPEND then [GT; GT; 32] else [c; 32]
  end.
Definition line_of (c : cmd (list Z)) : list Z := show 3 c ≫= token_bytes.

Lemma simple_redir ts c op w : Simple ts c -> op = LT \/ op = GT \/ op = APPEND ->
  Simple (ts ++ [Sym op; Word w]) (redircmd op c w).
Proof.
  intros H Hop. destruct H as [l Hl Hm|ts c l HG Hl].
  - replace ((l ≫= item_tokens) ++ [Sym op; Word w]) with ((l ++ [File op w]) ≫= item_tokens) by by rewrite bind_app.
    assert (words (l ++ [File op w]) = words l) as Ew by (rewrite words_app; apply app_nil_r).
    change (redircmd op (wrap (Exec (words l)) l) w) with (wrap (wrap (Exec (words l)) l) [File op w]). rewrite <- wrap_app, <- Ew at 1.
    constructor; [|by rewrite Ew]. apply Forall_app. split; [done|]. constructor; [exact Hop | constructor].
  - change (redircmd op (wrap c l) w) with (wrap (wrap c l) [File op w]). rewrite <- wrap_app.
    replace ((Sym LPAREN :: ts ++ Sym RPAREN :: (l ≫= item_tokens)) ++ [Sym op; Word w])
      with (Sym LPAREN :: ts ++ Sym RPAREN :: ((l ++ [File op w]) ≫= item_tokens)) by (rewrite bind_app; simpl; by rewrite <- app_assoc).
    constructor; [done|]. apply Forall_app. split; [done|]. constructor; [exact Hop | constructor].
Qed.

Lemma simple_words argv : (length argv < MAXARGS)%nat -> Simple (Word <$> argv) (Exec argv).
Proof.
  intros H. assert (words (Arg <$> argv) = argv) as Ew by (induction argv as [|w argv IH]; simpl in *; [done | f_equal; apply IH; lia]).
  assert ((Arg <$> argv) ≫= item_tokens = Word <$> argv) as Et by (clear; induction argv as [|w argv IH]; [done|]; rewrite fmap_cons, bind_cons, IH; done).
  assert (wrap (Exec argv) (Arg <$> argv) = Exec argv) as Ea by (clear; generalize (Exec argv); induction argv; simpl; auto).
  pose proof (G_simple (Arg <$> argv)) as G. rewrite Ew, Et, Ea in G. apply G; [|done]. by apply Forall_fmap, Forall_true.
Qed.

Lemma simple_parens ts c : Line ts c -> Simple (Sym LPAREN :: ts ++ [Sym RPAREN]) c.
Proof. intros H. by apply (G_block ts c []). Qed.

Definition Amps (ts : list token) (c : cmd (list Z)) : Prop :=
  exists ts' c' n, ts = ts' ++ replicate n (Sym AMP) /\ PipeLine ts' c' /\ c = Nat.iter n Back c'.
Lemma pipe_amps_0 ts c : PipeLine ts c -> Amps ts c.
Proof. intros H. exists ts, c, 0%nat. by rewrite app_nil_r. Qed.
Lemma amps_line ts c : Amps ts c -> Line ts c.
Proof. intros (ts' & c' & n & -> & H & ->). by constructor. Qed.

Lemma show_derived c : printable c ->
  Simple (show 0 c) c /\ PipeLine (show 1 c) c /\ Amps (show 2 c) c /\ Line (show 3 c) c.
Proof.
  induction 1 as [argv _ Hn|c file mode fd _ IH Hf Hm|l r _ IHl _ IHr|l r _ IHl _ IHr|c _ IH].
  - pose proof (simple_words argv Hn) as H. pose proof (G_exec _ _ H) as H1. split_and!; [done | done | by apply pipe_amps_0 | by apply amps_line, pipe_amps_0].
  - assert (Simple (show 0 (Redir c file mode fd)) (Redir c file mode fd)) as H.
    { destruct IH as [IH _]. destruct Hm as [[= -> ->]|[= -> ->]]; [apply (simple_redir _ _ LT) | apply (simple_redir _ _ GT)]; tauto. }
    pose proof (G_exec _ _ H) as H1. split_and!; [done | done | by apply pipe_amps_0 | by apply amps_line, pipe_amps_0].
  - destruct IHl as (Hl & _), IHr as (_ & Hr & _). pose proof (G_pipe _ _ _ _ Hl Hr) as H. pose proof (pipe_amps_0 _ _ H) as H2. pose proof (amps_line _ _ H2) as H3.
    split_and!; [by apply simple_parens | done..].
  - destruct IHl as (_ & _ & Hl & _), IHr as (_ & _ & _ & Hr).
    assert (Line (show 2 l ++ Sym SEMI :: show 3 r) (List l r)) as H.
    { destruct Hl as (ts' & c' & n & -> & H & ->). rewrite <- app_assoc. by constructor. }
    pose proof (simple_parens _ _ H) as H0. pose proof (G_exec _ _ H0) as H1. split_and!; [done | done | by apply pipe_amps_0 | done].
  - destruct IH as (_ & _ & (ts' & c' & n & E & Hp & ->) & _).
    assert (Amps (show 2 (Nat.iter n Back c') ++ [Sym AMP]) (Back (Nat.iter n Back c'))) as H.
    { exists ts', c', (S n). split_and!; [|done | done]. rewrite E, <- app_assoc. f_equal. symmetry. apply (replicate_cons_app n). }
    pose proof (amps_line _ _ H) as H3. pose proof (simple_parens _ _ H3) as H0. split_and!; [done | by apply G_exec | done | done].
Qed.

Definition token_ok (t : token) : Prop := match t with Word w => word_ok w | Sym c => c ∈ symbols end.

Lemma lex_bytes ts : Forall token_ok ts -> lex [] (ts ≫= token_bytes) = ts.
Proof.
  induction 1 as [|[w|c] ts Ht _ IH]; [done| |].
  - destruct Ht as [Hne Hw]. rewrite bind_cons. cbn [token_bytes]. rewrite <- app_assoc, lex_word by (eapply Forall_impl; [exact Hw | by intros ? []]).
    cbn [app]. rewrite lex_stop by (left; isin). cbn [lex]. rewrite bool_decide_eq_true_2 by isin. cbn [flush app]. rewrite IH. by destruct w.
  - simpl in Ht. assert (APPEND ∉ symbols) by notin. rewrite bind_cons. cbn [token_bytes]. destruct (Z.eqb_spec c APPEND) as [->|_]; [done|].
    cbn [app lex]. rewrite bool_decide_eq_false_2 by by apply symbols_ws. rewrite (bool_decide_eq_true_2 (c ∈ symbols)) by done.
    destruct (Z.eqb_spec c GT) as [->|_].
    + cbn [app flush]. destruct (Z.eqb_spec 32 GT); [done|]. cbn [lex]. rewrite bool_decide_eq_true_2 by isin. cbn [flush app]. by rewrite IH.
    + cbn [flush app]. rewrite bool_decide_eq_true_2 by isin. by rewrite IH.
Qed.

Lemma parens_ok b ts : Forall token_ok ts -> Forall token_ok (parens b ts).
Proof. intros H. destruct b; [|done]. constructor; [cbn [token_ok]; isin|]. apply Forall_app. split; [done|]. constructor; [cbn [token_ok]; isin | constructor]. Qed.
Lemma show_ok c lvl : printable c -> Forall token_ok (show lvl c).
Proof.
  intros H. revert lvl. induction H as [argv H _|c file mode fd _ IH Hf _|l r _ IHl _ IHr|l r _ IHl _ IHr|c _ IH]; intros lvl; cbn [show].
  - by apply Forall_fmap.
  - apply Forall_app. split; [done|]. constructor; [cbn [token_ok]; destruct (fd =? 0); isin|]. by constructor.
  - apply parens_ok, Forall_app. split; [done|]. constructor; [cbn [token_ok]; isin | done].
  - apply parens_ok, Forall_app. split; [done|]. constructor; [cbn [token_ok]; isin | done].
  - apply parens_ok, Forall_app. split; [done|]. constructor; [cbn [token_ok]; isin | constructor].
Qed.

Lemma bytes_nonul ts : Forall token_ok ts -> nonul (ts ≫= token_bytes).
Proof.
  induction 1 as [|t ts Ht _ IH]; [constructor|]. rewrite bind_cons. apply Forall_app. split; [|done]. destruct t as [w|c]; simpl in *.
  - apply Forall_app. split; [|by repeat constructor]. destruct Ht as [_ Hw]. eapply Forall_impl; [exact Hw | by intros ? []].
  - destruct (c =? APPEND); [by repeat constructor|]. pose proof symbols_nz. constructor; [by intros ->|]. by repeat constructor.
Qed.

(** C38: Every command that the grammar can denote is written as a line that the
    parser reads back as the same command. *)
Theorem parse_show c rest : printable c ->
  exists c' b, parsecmd (line_of c ++ 0 :: rest) = Ok (c', b) /\ cmap (string_at b) c' = c.
Proof.
  intros Hc. pose proof (show_ok c 3 Hc) as Hok. assert (cstr (line_of c ++ 0 :: rest) = line_of c) as E by (by apply cstr_app, bytes_nonul).
  assert (0 ∈ line_of c ++ 0 :: rest) as Hnul by (apply elem_of_app; right; by left).
  apply parsecmd_complete; [done|]. rewrite E. unfold line_of. rewrite lex_bytes by done. by apply show_derived.
Qed.

Definition demo_cmd : cmd (list Z) :=
  List (Back (Pipe (List (Exec [str "a"; str "b"]) (Exec [])) (Redir (Back (Exec [str "c"])) (str "in") O_RDONLY 0)))
       (Redir (Exec [str "d"]) (str "out") O_WRONLY_CREATE 1).
Lemma demo_printable : printable demo_cmd.
Proof.
  assert (forall w, w <> [] -> forallb (fun c => negb (bool_decide (c ∈ whitespace)) && negb (bool_decide (c ∈ symbols)) && negb (c =? 0)) w = true -> word_ok w) as Hw.
  { intros w Hne H. split; [done|]. apply Forall_forall. intros c Hc. rewrite forallb_forall in H. specialize (H c (proj1 (list_elem_of_In _ _) Hc)).
    apply andb_prop in H as [H H3]. apply andb_prop in H as [H1 H2]. rewrite negb_true_iff in *. apply bool_decide_eq_false in H1, H2. apply Z.eqb_neq in H3. done. }
  unfold demo_cmd. repeat first [apply P_list | apply P_pipe | apply P_redir | apply P_exec | apply P_back | apply Forall_cons_2 | apply Forall_nil_2 | apply Hw; [done | by vm_compute]]; try (vm_compute; lia); tauto.
Qed.

Lemma parse_show_witness : exists c b, parsecmd (line_of demo_cmd ++ [0]) = Ok (c, b) /\ cmap (string_at b) c = demo_cmd.
Proof. apply (parse_show demo_cmd [] demo_printable). Defined.
Example demo_line : line_of demo_cmd = str "( a b ; ) | ( c & ) < in & ; d > out ".
Proof. by vm_compute. Qed.
