(* ===== verification/ShRun.v ===== *)
(** * Running commands in the shell ([sh.c])

    [runcmd], [getcmd] and [main].  A process is its table of open files; the
    calls [open], [close], [dup] and [pipe] act on it as [fdalloc] of the kernel
    does, in the lowest free entry.  [fork] gives the child a copy; what children
    do is collected in the order in which the shell starts them.  Whether a file
    can be opened and whether a fork succeeds are given from outside.

    A program is taken to read its input to the end.  The input from a pipe ends
    when no process has the write end open any more; a process that waits for the
    program, or that never ends itself, does not close its ends before.  A program
    whose pipe is held open by one of these, or by itself, never ends, and a
    process that waits for it hangs. *)

From S2P Require Import Prelude CStr Sh ShSpec.

Definition NOFILE : nat := 16.
Definition O_RDWR : Z := 2.

Inductive handle : Type :=
| Opened (name : list Z) (mode : Z)
| ReadEnd (k : nat)
| WriteEnd (k : nat).
Definition fdtable : Type := list (option handle).

#[export] Instance handle_eq_dec : EqDecision handle.
Proof. solve_decision. Defined.

Inductive event : Type :=
| Run (argv : list (list Z)) (fds : fdtable)
| Chdir (path : list Z).

(** what happened: the programs started and the changes of directory, the pipes
    and the forks so far, the children that were never waited for, and the tables
    of the processes that never end *)
Record world : Type := mkworld { events : list event; pipes : nat; forks : nat; orphans : nat; stuck : list fdtable }.

Definition tell (e : event) (w : world) : world := mkworld (events w ++ [e]) (pipes w) (forks w) (orphans w) (stuck w).
Definition count_fork (w : world) : world := mkworld (events w) (pipes w) (S (forks w)) (orphans w) (stuck w).
Definition count_pipe (w : world) : world := mkworld (events w) (S (pipes w)) (forks w) (orphans w) (stuck w).
Definition leave (kids : nat) (w : world) : world := mkworld (events w) (pipes w) (forks w) (orphans w + kids) (stuck w).
(** the process with the table [t] never ends *)
Definition hang (t : fdtable) (w : world) : world * bool :=
  (mkworld (events w) (pipes w) (forks w) (orphans w) (stuck w ++ [t]), false).

(** ** The end of a program *)

Definition holds (k : nat) (t : fdtable) : bool := bool_decide (Some (WriteEnd k) ∈ t).
(** the input of a program with the table [t] ends, when [held] are the tables of
    the processes that do not end before it *)
Definition ends (t : fdtable) (held : list fdtable) : bool :=
  match t !! 0%nat with
  | Some (Some (ReadEnd k)) => negb (existsb (holds k) (t :: held))
  | _ => true
  end.
(** [wait] for the children that ended as [kids] says *)
Definition wait (t : fdtable) (kids : list bool) (w : world) : world * bool :=
  if forallb id kids then (w, true) else hang t w.

(** ** System calls on the table *)

Definition fdalloc (h : handle) (t : fdtable) : option (nat * fdtable) :=
  match list_find (fun x => x = None) t with
  | Some (fd, _) => Some (fd, <[fd := Some h]> t)
  | None => None
  end.
Definition close (fd : nat) (t : fdtable) : fdtable := <[fd := None]> t.
Definition dup (fd : nat) (t : fdtable) : fdtable :=
  match t !! fd with
  | Some (Some h) => match fdalloc h t with Some (_, t') => t' | None => t end
  | _ => t
  end.
(** the read end, the write end and the new table *)
Definition pipe (k : nat) (t : fdtable) : option (nat * nat * fdtable) :=
  match fdalloc (ReadEnd k) t with
  | None => None
  | Some (p0, t1) =>
      match fdalloc (WriteEnd k) t1 with
      | None => None
      | Some (p1, t2) => Some (p0, p1, t2)
      end
  end.

(** ** Standard tables *)

(** input, output and errors, and nothing else *)
Definition table (i o e : handle) : fdtable := Some i :: Some o :: Some e :: replicate (NOFILE - 3) None.

(** the write ends are of pipes that were made already *)
Definition made (n : nat) (t : fdtable) : Prop := forall k, Some (WriteEnd k) ∈ t -> (k < n)%nat.
Definition made_in (n : nat) (h : handle) : Prop := match h with ReadEnd k | WriteEnd k => (k < n)%nat | _ => True end.
(** no other process that stays holds the other end of the input *)
Definition ready (e : handle) (i o : handle) (held : list fdtable) (w : world) : Prop :=
  stuck w = [] /\ Forall (made_in (pipes w)) [i; o; e] /\ Forall (made (pipes w)) held /\ ends (table i o e) held = true.

Lemma table_holds k i o e : Some (WriteEnd k) ∈ table i o e <-> WriteEnd k ∈ [i; o; e].
Proof.
  unfold table. rewrite !elem_of_cons, elem_of_nil. assert (Some (WriteEnd k) ∉ replicate (NOFILE - 3) (None : option handle)) as Hno.
  { intros [H _]%elem_of_replicate. done. }
  set (rest := replicate _ _) in *. clearbody rest. split; intros [H|[H|[H|H]]]; simplify_eq; tauto.
Qed.
Lemma ends_table i o e held : ends (table i o e) held = true <->
  match i with ReadEnd k => WriteEnd k ∉ [o; e] /\ Forall (fun t => Some (WriteEnd k) ∉ t) held | _ => True end.
Proof.
  unfold ends. cbn [table lookup list_lookup]. destruct i as [| k |]; [done | | done]. cbn [existsb]. rewrite negb_true_iff, orb_false_iff.
  unfold holds at 1. rewrite bool_decide_eq_false, table_holds, not_elem_of_cons. rewrite <- not_true_iff_false, existsb_exists.
  split.
  - intros [[_ H1] H2]. split; [done|]. apply Forall_forall. intros t Ht H. apply H2. exists t. split; [by apply list_elem_of_In|]. by apply bool_decide_eq_true.
  - intros [H1 H2]. split; [done|]. intros (t & Ht & H). rewrite Forall_forall in H2. apply bool_decide_eq_true in H. eapply H2; [by apply list_elem_of_In|done].
Qed.
Lemma made_table n i o e : Forall (made_in n) [i; o; e] -> made n (table i o e).
Proof. intros H k Hk. apply table_holds in Hk. rewrite Forall_forall in H. by specialize (H _ Hk). Qed.
Lemma made_mono n m held : (n <= m)%nat -> Forall (made n) held -> Forall (made m) held.
Proof. intros Hm H. eapply Forall_impl; [exact H|]. intros t Ht k Hk. specialize (Ht k Hk). lia. Qed.
Lemma made_in_mono n m l : (n <= m)%nat -> Forall (made_in n) l -> Forall (made_in m) l.
Proof. intros Hm H. eapply Forall_impl; [exact H|]. intros [] ?; simpl in *; lia. Qed.

Lemma ready_later e i o held w w' : ready e i o held w -> (pipes w <= pipes w')%nat -> stuck w' = [] -> ready e i o held w'.
Proof. intros (_ & H1 & H2 & H3) Hp Hs. split; [done|]. split; [by eapply made_in_mono|]. split; [by eapply made_mono|done]. Qed.

(** what the parts of a command may assume *)
Lemma ready_wait e i o held w : ready e i o held w -> ready e i o (table i o e :: held) w.
Proof.
  intros (H0 & H1 & H2 & H3). split_and!; [done | done | constructor; [by apply made_table | done] |].
  apply ends_table in H3. apply ends_table. destruct i as [| k |]; try done. destruct H3 as [H3 H4]. split; [done|]. constructor; [|done].
  rewrite table_holds. set_solver.
Qed.
Lemma ready_input e name mode i o held w : ready e i o held w -> ready e (Opened name mode) o held w.
Proof. intros (H0 & H1 & H2 & _). split_and!; [done | by inversion H1; constructor | done | done]. Qed.
Lemma ready_output e name mode i o held w : ready e i o held w -> ready e i (Opened name mode) held w.
Proof.
  intros (H0 & H1 & H2 & H3). rewrite !Forall_cons in H1. destruct H1 as (Hi & _ & He & _). split_and!; [done | by repeat constructor | done |].
  apply ends_table in H3. apply ends_table. destruct i as [| k |]; [done | | done]. set_solver.
Qed.
Lemma ready_left e i o held w : ready e i o held w -> ready e i (WriteEnd (pipes w)) (table i o e :: held) (count_fork (count_pipe w)).
Proof.
  intros H. pose proof (ready_wait _ _ _ _ _ H) as (H0 & H1 & H2 & H3). rewrite !Forall_cons in H1. destruct H1 as (Hi & _ & He & _).
  split_and!; [done | | eapply made_mono; [|exact H2]; simpl; lia |].
  - assert (Forall (made_in (pipes w)) [i; e]) as Hie by (by repeat constructor). apply (made_in_mono _ (S (pipes w))) in Hie; [|lia].
    rewrite !Forall_cons in Hie. destruct Hie as (? & ? & _). rewrite !Forall_cons. split_and!; [done | simpl; lia | done | constructor].
  - apply ends_table in H3. apply ends_table. destruct i as [| k |]; [done | | done]. destruct H3 as [H3 H4]. split; [|done].
    simpl in Hi. rewrite !not_elem_of_cons in *. split; [intros [= ->]; lia | by destruct H3].
Qed.
Lemma ready_right e i o held w w' : ready e i o held w -> (S (pipes w) <= pipes w')%nat -> stuck w' = [] ->
  ready e (ReadEnd (pipes w)) o (table i o e :: held) (count_fork w').
Proof.
  intros H Hp Hs. pose proof (ready_wait _ _ _ _ _ H) as (_ & H1 & H2 & _). pose proof H1 as Hm. rewrite !Forall_cons in H1. destruct H1 as (_ & Ho & He & _).
  assert (forall t, made (pipes w) t -> Some (WriteEnd (pipes w)) ∉ t) as Hno by (intros t Ht Hk; specialize (Ht _ Hk); lia).
  split_and!; [done | | eapply made_mono; [|exact H2]; simpl; lia |].
  - apply (made_in_mono _ (pipes w')) in Hm; [|lia]. rewrite !Forall_cons in Hm. destruct Hm as (_ & ? & ? & _). rewrite !Forall_cons. split_and!; [simpl; lia | done | done | constructor].
  - apply ends_table. split; [|eapply Forall_impl; [exact H2 | exact Hno]].
    rewrite !not_elem_of_cons. split_and!; [intros <- | intros <- | apply not_elem_of_nil]; simpl in *; lia.
Qed.

Section Run.
Variable can_open : list Z -> Z -> bool.
Variable can_fork : nat -> bool.

Definition open (name : list Z) (mode : Z) (t : fdtable) : option (nat * fdtable) :=
  if can_open name mode then fdalloc (Opened name mode) t else None.

(** [fork1]: [child] is what the child does, and [parent] what the parent does
    then, given whether the child ends; a fork that fails ends the process, with
    [kids] children *)
Definition fork1 (kids : nat) (child : world -> world * bool) (parent : bool -> world -> world * bool) (w : world) : world * bool :=
  if can_fork (forks w) then let '(w, e) := child (count_fork w) in parent e w
  else (leave kids (count_fork w), true).

(** [runcmd] never returns: the result is the world when the process is gone, and
    whether it ends at all; [held] are the tables of the processes that wait for it *)
Fixpoint runcmd (c : cmd (list Z)) (t : fdtable) (held : list fdtable) (w : world) : world * bool :=
  match c with
  | Exec argv =>
      match argv with
      | [] => (w, true)
      | _ => if ends t (held ++ stuck w) then (tell (Run argv t) w, true) else hang t (tell (Run argv t) w)
      end
  | Redir c file mode fd =>
      match open file mode (close (Z.to_nat fd) t) with
      | None => (w, true)
      | Some (_, t') => runcmd c t' held w
      end
  | List l r =>
      fork1 0 (runcmd l t (t :: held)) (fun el w =>
        let '(w, e) := wait t [el] w in
        if e then runcmd r t held w else (w, false)) w
  | Pipe l r =>
      match pipe (pipes w) t with
      | None => (w, true)
      | Some (p0, p1, t1) =>
          let tp := close p1 (close p0 t1) in
          fork1 0 (runcmd l (close p1 (close p0 (dup p1 (close 1 t1)))) (tp :: held)) (fun el =>
          fork1 1 (runcmd r (close p1 (close p0 (dup p0 (close 0 t1)))) (tp :: held)) (fun er =>
          wait tp [el; er])) (count_pipe w)
      end
  | Back c => fork1 0 (runcmd c t []) (fun _ w => (leave 1 w, true)) w
  end.

(** ** Reading and running lines *)

(** [gets]: the bytes stored before the NUL, and the rest of the input *)
Fixpoint gets (room : nat) (input : list Z) : list Z * list Z :=
  match room, input with
  | S room', c :: input' =>
      if (c =? 10) || (c =? 13) then ([c], input')
      else let '(l, rest) := gets room' input' in (c :: l, rest)
  | _, _ => ([], input)
  end.

Definition BUFLEN : nat := 100.
(** [getcmd]: the buffer, and the rest of the input; [None] at its end *)
Definition getcmd (input : list Z) : option (list Z * list Z) :=
  let '(l, rest) := gets (BUFLEN - 1) input in
  let buf := l ++ replicate (BUFLEN - length l) 0 in
  if buf !!! 0%nat =? 0 then None else Some (buf, rest).

(** [buf\[strlen(buf)-1\] = 0] *)
Definition chop (buf : list Z) : list Z := <[(length (cstr buf) - 1)%nat := 0]> buf.

(** what the child of [main] does with the line *)
Definition run_line (buf : list Z) (t : fdtable) (held : list fdtable) (w : world) : world * bool :=
  match parsecmd buf with
  | Ok (c, b) => runcmd (cmap (string_at b) c) t held w
  | _ => (w, true)
  end.

(** the shell itself: whether it gets to the end of its input or hangs in a [wait] *)
Fixpoint main_loop (fuel : nat) (input : list Z) (t : fdtable) (w : world) : option (world * bool) :=
  match fuel with
  | O => None
  | S fuel' =>
      match getcmd input with
      | None => Some (w, true)
      | Some (buf, rest) =>
          if (buf !!! 0%nat =? 99) && (buf !!! 1%nat =? 100) && (buf !!! 2%nat =? 32) then
            main_loop fuel' rest t (tell (Chdir (cstr (drop 3 (chop buf)))) w)
          else if can_fork (forks w) then
            let '(w, e) := run_line buf t [t] (count_fork w) in
            let '(w, e) := wait t [e] w in
            if e then main_loop fuel' rest t w else Some (w, false)
          else Some (count_fork w, true)
      end
  end.

(** the loop that opens the console *)
Fixpoint open_console (fuel : nat) (t : fdtable) : fdtable :=
  match fuel with
  | O => t
  | S fuel' =>
      match open (str "console") O_RDWR t with
      | None => t
      | Some (fd, t') => if (3 <=? fd)%nat then close fd t' else open_console fuel' t'
      end
  end.

Definition main (input : list Z) (t : fdtable) : option (world * bool) :=
  main_loop (S (length input)) input (open_console (S NOFILE) t) (mkworld [] 0 0 0 []).

(** ** What a command runs *)

(** the programs that [c] starts, each with its input and its output; pipes are
    numbered from [n] *)
Fixpoint plan (c : cmd (list Z)) (i o : handle) (n : nat) : list (list (list Z) * handle * handle) * nat :=
  match c with
  | Exec argv => match argv with [] => ([], n) | _ => ([(argv, i, o)], n) end
  | Redir c file mode fd =>
      if can_open file mode then
        if fd =? 0 then plan c (Opened file mode) o n else plan c i (Opened file mode) n
      else ([], n)
  | Pipe l r =>
      let '(a, n1) := plan l i (WriteEnd n) (S n) in
      let '(b, n2) := plan r (ReadEnd n) o n1 in (a ++ b, n2)
  | List l r =>
      let '(a, n1) := plan l i o n in
      let '(b, n2) := plan r i o n1 in (a ++ b, n2)
  | Back c => plan c i o n
  end.

(** the background commands among those that run *)
Fixpoint backgrounds (c : cmd (list Z)) : nat :=
  match c with
  | Exec _ => 0
  | Redir c file mode _ => if can_open file mode then backgrounds c else 0
  | Pipe l r | List l r => backgrounds l + backgrounds r
  | Back c => S (backgrounds c)
  end.

(** redirections are of the standard input or output *)
Fixpoint std {A} (c : cmd A) : Prop :=
  match c with
  | Exec _ => True
  | Redir c _ _ fd => (fd = 0 \/ fd = 1) /\ std c
  | Pipe l r | List l r => std l /\ std r
  | Back c => std c
  end.

Definition runs (e : handle) (l : list (list (list Z) * handle * handle)) : list event :=
  (fun x => Run x.1.1 (table x.1.2 x.2 e)) <$> l.

(** the command [c] ran with the input [i] and the output [o], and ended *)
Definition ran (e : handle) (c : cmd (list Z)) (i o : handle) (w : world) (r : world * bool) : Prop :=
  events r.1 = events w ++ runs e (plan c i o (pipes w)).1 /\ pipes r.1 = (plan c i o (pipes w)).2 /\
  orphans r.1 = (orphans w + backgrounds c)%nat /\ stuck r.1 = [] /\ r.2 = true.

Lemma plan_mono c : forall i o n, (n <= (plan c i o n).2)%nat.
Proof.
  induction c as [argv|c IH file mode fd|l IHl r IHr|l IHl r IHr|c IH]; intros i o n; cbn [plan].
  - by destruct argv.
  - destruct (can_open file mode); [|done]. destruct (fd =? 0); apply IH.
  - specialize (IHl i (WriteEnd n) (S n)). destruct (plan l _ _ _) as [a n1]. specialize (IHr (ReadEnd n) o n1). destruct (plan r _ _ _). simpl in *. lia.
  - specialize (IHl i o n). destruct (plan l _ _ _) as [a n1]. specialize (IHr i o n1). destruct (plan r _ _ _). simpl in *. lia.
  - apply IH.
Qed.

Lemma open_0 name mode i o e : can_open name mode = true ->
  open name mode (close 0 (table i o e)) = Some (0%nat, table (Opened name mode) o e).
Proof. intros H. unfold open. by rewrite H. Qed.
Lemma open_1 name mode i o e : can_open name mode = true ->
  open name mode (close 1 (table i o e)) = Some (1%nat, table i (Opened name mode) e).
Proof. intros H. unfold open. by rewrite H. Qed.

Hypothesis Hfork : forall k, can_fork k = true.

Lemma runcmd_ran e c : forall i o held w, std c -> ready e i o held w -> ran e c i o w (runcmd c (table i o e) held w).
Proof.
  induction c as [argv|c IH file mode fd|l IHl r IHr|l IHl r IHr|c IH]; intros i o held w Hc Hr; unfold ran; cbn [runcmd plan backgrounds].
  - pose proof Hr as (H0 & _ & _ & H3). rewrite H0, app_nil_r, H3. destruct argv; simpl; rewrite ?app_nil_r, ?Nat.add_0_r; by split_and!.
  - destruct Hc as [Hfd Hc]. destruct (can_open file mode) eqn:Eo.
    + destruct Hfd as [-> | ->]; simpl Z.to_nat; [rewrite open_0 by done | rewrite open_1 by done]; apply IH; eauto using ready_input, ready_output.
    + unfold open. rewrite Eo. simpl. rewrite app_nil_r, Nat.add_0_r. split_and!; try done. apply Hr.
  - destruct Hc as [Hl Hrr]. unfold pipe. change (fdalloc (ReadEnd (pipes w)) (table i o e))
      with (Some (3%nat, <[3%nat := Some (ReadEnd (pipes w))]> (table i o e))). cbn beta iota.
    change (fdalloc (WriteEnd (pipes w)) (<[3%nat := Some (ReadEnd (pipes w))]> (table i o e)))
      with (Some (4%nat, <[4%nat := Some (WriteEnd (pipes w))]> (<[3%nat := Some (ReadEnd (pipes w))]> (table i o e)))). cbn beta iota.
    set (t1 := <[4%nat := _]> _). unfold fork1. rewrite !Hfork.
    change (close 4 (close 3 (dup 4 (close 1 t1)))) with (table i (WriteEnd (pipes w)) e).
    change (close 4 (close 3 (dup 3 (close 0 t1)))) with (table (ReadEnd (pipes w)) o e).
    change (close 4 (close 3 t1)) with (table i o e). cbv zeta.
    destruct (IHl i (WriteEnd (pipes w)) (table i o e :: held) (count_fork (count_pipe w)) Hl (ready_left _ _ _ _ _ Hr)) as (El & Pl & Ol & Sl & Bl).
    destruct (runcmd l _ _ _) as [w2 el]. cbn [count_fork count_pipe events pipes orphans stuck fst snd] in *. subst el.
    pose proof (plan_mono l i (WriteEnd (pipes w)) (S (pipes w))) as Hmono. rewrite <- Pl in Hmono. rewrite Hfork.
    destruct (IHr (ReadEnd (pipes w)) o (table i o e :: held) (count_fork w2) Hrr (ready_right _ _ _ _ _ _ Hr Hmono Sl)) as (Er & Pr & Or & Sr & Br).
    destruct (runcmd r _ _ _) as [w3 er]. cbn [count_fork events pipes orphans stuck fst snd] in *. subst er.
    rewrite Pl in *. destruct (plan l _ _ _) as [a n1]. cbn [fst snd] in *. destruct (plan r _ _ _) as [b n2]. cbn [fst snd] in *.
    cbn. rewrite Er, Pr, Or, El, Ol. split_and!; [|done | lia | done | done]. unfold runs. by rewrite fmap_app, app_assoc.
  - destruct Hc as [Hl Hrr]. unfold fork1. rewrite !Hfork.
    destruct (IHl i o (table i o e :: held) (count_fork w) Hl) as (El & Pl & Ol & Sl & Bl).
    { eapply ready_later; [by apply ready_wait | done | apply Hr]. }
    destruct (runcmd l _ _ _) as [w2 el]. cbn [count_fork events pipes orphans stuck fst snd] in *. subst el. cbn [wait forallb id andb].
    assert (ready e i o held w2) as Hr2 by (eapply ready_later; [exact Hr | rewrite Pl; apply plan_mono | done]).
    destruct (IHr i o held w2 Hrr Hr2) as (Er & Pr & Or & Sr & Br).
    rewrite Pl in *. destruct (plan l _ _ _) as [a n1]. cbn [fst snd] in *. destruct (plan r _ _ _) as [b n2]. cbn [fst snd] in *.
    rewrite Er, Pr, Or, El, Ol. split_and!; [|done | lia | done | done]. unfold runs. by rewrite fmap_app, app_assoc.
  - unfold fork1. rewrite Hfork. destruct (IH i o [] (count_fork w) Hc) as (E & P & O & S & B).
    { destruct Hr as (H0 & H1 & _ & H3). split_and!; [done | done | constructor|]. apply ends_table in H3. apply ends_table. destruct i; try done. by destruct H3. }
    destruct (runcmd c _ _ _) as [w2 ec]. cbn [leave count_fork events pipes orphans stuck fst snd] in *.
    rewrite E, P, O. split_and!; [done | done | lia | done | done].
Qed.

(** ** Lines of input *)

Definition plain (l : list Z) : Prop := Forall (fun c => c <> 10 /\ c <> 13 /\ c <> 0) l /\ (length l + 1 < BUFLEN)%nat.

Lemma gets_line room l rest : Forall (fun c => c <> 10 /\ c <> 13 /\ c <> 0) l -> (length l < room)%nat ->
  gets room (l ++ 10 :: rest) = (l ++ [10], rest).
Proof.
  revert room. induction l as [|c l IH]; intros [|room] Hl Hr; simpl in *; try lia; [done|].
  apply Forall_cons in Hl as [(H1 & H2 & _) Hl]. destruct (Z.eqb_spec c 10), (Z.eqb_spec c 13); try done. cbn [orb].
  by rewrite IH by (done || lia).
Qed.

Definition zeros (l : list Z) : list Z := replicate (BUFLEN - S (length l)) 0.

Lemma getcmd_line l rest : plain l -> getcmd (l ++ 10 :: rest) = Some (l ++ 10 :: zeros l, rest).
Proof.
  intros [Hl Hr]. unfold getcmd. unfold BUFLEN in Hr. rewrite gets_line by (done || (unfold BUFLEN; lia)).
  rewrite length_app, <- app_assoc. cbn [length app]. rewrite (Nat.add_comm (length l)). fold (zeros l). destruct l as [|c l]; [done|].
  apply Forall_cons in Hl as [(_ & _ & H0) _]. simpl. by destruct (Z.eqb_spec c 0).
Qed.

Lemma plain_cstr l : plain l -> cstr (l ++ 10 :: zeros l) = l ++ [10].
Proof.
  intros [Hl Hn]. unfold zeros. destruct (BUFLEN - S (length l))%nat as [|k] eqn:E; [lia|].
  change (l ++ 10 :: replicate (S k) 0) with (l ++ [10] ++ 0 :: replicate k 0). rewrite app_assoc. apply cstr_app.
  apply Forall_app. split; [|by repeat constructor]. eapply Forall_impl; [exact Hl|]. by intros ? (_ & _ & ?).
Qed.

Definition is_cd (l : list Z) : Prop := take 3 l = str "cd ".

Lemma cd_test l : let buf := l ++ 10 :: zeros l in
  (buf !!! 0%nat =? 99) && (buf !!! 1%nat =? 100) && (buf !!! 2%nat =? 32) = bool_decide (is_cd l).
Proof.
  unfold is_cd. change (str "cd ") with [99; 100; 32]. apply eq_iff_eq_true. rewrite bool_decide_eq_true, !andb_true_iff, !Z.eqb_eq.
  destruct l as [|a [|b [|c l]]]; simpl; (split; [intros [[H1 H2] H3] | intros E]); try discriminate; simplify_eq; by rewrite ?take_0.
Qed.

Lemma cd_path p : plain (str "cd " ++ p) -> cstr (drop 3 (chop ((str "cd " ++ p) ++ 10 :: zeros (str "cd " ++ p)))) = p.
Proof.
  intros H. unfold chop. rewrite (plain_cstr _ H), length_app. cbn [length]. replace (length (str "cd " ++ p) + 1 - 1)%nat with (length (str "cd " ++ p) + 0)%nat by lia.
  rewrite insert_app_r. cbn [insert list_insert]. rewrite <- app_assoc. change (drop 3 (str "cd " ++ ?x)) with x. apply cstr_app.
  destruct H as [H _]. apply Forall_app in H as [_ H]. eapply Forall_impl; [exact H|]. by intros ? (_ & _ & ?).
Qed.

(** ** The meaning of the lines *)

Definition console : handle := Opened (str "console") O_RDWR.

(** what the line [l] (without its newline) makes happen, pipes numbered from [n] *)
Inductive means (n : nat) : list Z -> list event -> nat -> Prop :=
| M_cd p : means n (str "cd " ++ p) [Chdir p] n
| M_run l c : ~ is_cd l -> Line (lex [] (l ++ [10])) c ->
    means n l (runs console (plan c console console n).1) (plan c console console n).2
| M_bad l : ~ is_cd l -> (forall c, ~ Line (lex [] (l ++ [10])) c) -> means n l [] n.
Inductive all_mean : nat -> list (list Z) -> list event -> Prop :=
| A_nil n : all_mean n [] []
| A_cons n l ls es n' es' : means n l es n' -> all_mean n' ls es' -> all_mean n (l :: ls) (es ++ es').
End Run.

Lemma wrap_std c l : std c -> Forall is_file l -> std (wrap c l).
Proof.
  intros Hc Hl. revert c Hc. induction Hl as [|[w|op w] l Hi _ IH]; intros c Hc; simpl; [done | done |]. apply IH. simpl in Hi.
  unfold redircmd. destruct Hi as [->|[->| ->]]; simpl; tauto.
Qed.
Lemma wrap_items (c : cmd (list Z)) l : std c -> Forall item_ok l -> std (wrap c l).
Proof.
  intros Hc Hl. revert c Hc. induction Hl as [|[w|op w] l Hi _ IH]; intros c Hc; simpl; [done | by apply IH |]. apply IH.
  unfold redircmd. destruct Hi as [->|[->| ->]]; simpl; tauto.
Qed.
Lemma iter_std n (c : cmd (list Z)) : std c -> std (Nat.iter n Back c).
Proof. intros H. by induction n. Qed.
Lemma grammar_std : (forall ts c, Line ts c -> std c) /\ (forall ts c, PipeLine ts c -> std c) /\ (forall ts c, Simple ts c -> std c).
Proof.
  apply grammar_ind; intros; simpl; auto using iter_std, wrap_std. by apply wrap_items.
Qed.

Section Main.
Variable can_open : list Z -> Z -> bool.
Variable can_fork : nat -> bool.
Hypothesis Hfork : forall k, can_fork k = true.
Hypothesis Hconsole : can_open (str "console") O_RDWR = true.

Definition consoles (k : nat) : fdtable := replicate k (Some console) ++ replicate (NOFILE - k) None.

Lemma open_console_ok k : (k <= 3)%nat -> open_console can_open (S NOFILE) (consoles k) = table console console console.
Proof.
  intros Hk. assert (forall fuel t, open_console can_open fuel t = open_console (fun _ _ => true) fuel t) as ->.
  { clear Hk. induction fuel as [|fuel IH]; intros t; cbn [open_console]; [done|]. unfold open. rewrite Hconsole.
    destruct (fdalloc _ t) as [[fd t']|]; [|done]. by destruct (3 <=? fd)%nat. }
  do 4 (destruct k as [|k]; [by vm_compute|]). lia.
Qed.

Lemma run_line_ok l w es n : plain l -> stuck w = [] -> means can_open (pipes w) l es n -> ~ is_cd l ->
  exists w', run_line can_open can_fork (l ++ 10 :: zeros l) (table console console console) [table console console console] w = (w', true) /\
    events w' = events w ++ es /\ pipes w' = n /\ stuck w' = [].
Proof.
  intros Hl Hs Hm Hcd. assert (0 ∈ l ++ 10 :: zeros l) as Hnul.
  { destruct Hl as [_ Hl]. unfold zeros. destruct (BUFLEN - S (length l))%nat eqn:E; [lia|]. apply elem_of_app. right. right. by left. }
  pose proof (plain_cstr l Hl) as Ec. unfold run_line. inversion Hm as [p E|l' c _ Hc|l' _ Hc]; subst.
  - by destruct Hcd.
  - destruct (parsecmd_complete (l ++ 10 :: zeros l) c Hnul) as (c' & b & -> & ->); [by rewrite Ec|].
    assert (std c) as Hstd by (destruct grammar_std as [G _]; by eapply G).
    destruct (runcmd_ran can_open can_fork Hfork console c console console [table console console console] w Hstd) as (H1 & H2 & _ & H4 & H5).
    { split; [done|]. split; [by repeat constructor|]. split; [|by vm_compute]. apply Forall_singleton, made_table. by repeat constructor. }
    destruct (runcmd _ _ _ _ _ _) as [w' b']. simpl in *. subst b'. by exists w'.
  - pose proof (parsecmd_sound (l ++ 10 :: zeros l) Hnul) as H. destruct (parsecmd _) as [[c b]| |]; [| |done].
    + rewrite Ec in H. by apply Hc in H.
    + exists w. by rewrite app_nil_r.
Qed.

Lemma main_loop_ok ls : forall fuel w es, Forall plain ls -> (length ls < fuel)%nat -> stuck w = [] -> all_mean can_open (pipes w) ls es ->
  exists w', main_loop can_open can_fork fuel (ls ≫= (fun l => l ++ [10])) (table console console console) w = Some (w', true) /\
    events w' = events w ++ es /\ stuck w' = [].
Proof.
  induction ls as [|l ls IH]; intros [|fuel] w es Hp Hf Hs Hm; simpl in Hf; try lia.
  - inversion Hm; subst. exists w. by rewrite app_nil_r.
  - apply Forall_cons in Hp as [Hl Hp]. inversion Hm as [|n l' ls' es1 n' es' Hm1 Hm2]; subst. cbn [main_loop].
    rewrite bind_cons, <- app_assoc. cbn [app]. rewrite getcmd_line by done. rewrite cd_test. case_bool_decide as Hcd.
    + inversion Hm1 as [p E|l' c Hn _|l' Hn _]; subst; try done. rewrite cd_path by done.
      destruct (IH fuel (tell (Chdir p) w) es' Hp ltac:(lia) Hs Hm2) as (w' & -> & E & Hs'). exists w'. split; [done|]. rewrite E. simpl. by rewrite <- app_assoc.
    + rewrite Hfork. destruct (run_line_ok l (count_fork w) es1 n' Hl Hs Hm1 Hcd) as (w1 & -> & E1 & E2 & Hs1). rewrite <- E2 in Hm2.
      cbn [wait forallb id andb]. destruct (IH fuel w1 es' Hp ltac:(lia) Hs1 Hm2) as (w' & -> & E & Hs').
      exists w'. split; [done|]. rewrite E, E1. simpl. by rewrite <- app_assoc.
Qed.

(** C12: The shell does what its lines say, in their order, when the console can
    be opened, every fork succeeds and no line fills the buffer.  Every program
    of a command is started with the input and the output that the redirections
    and the pipes of its line give it, and with no other open file.  No process
    that waits for the program keeps an end of its pipe open, so that, each
    program reading its input to the end, no [wait] hangs and the shell gets to
    the end of its input.  A line outside the grammar runs nothing; [cd] is done
    by the shell itself. *)
Theorem sh_main_correct lines es k : (k <= 3)%nat -> Forall plain lines -> all_mean can_open 0 lines es ->
  exists w, main can_open can_fork (lines ≫= (fun l => l ++ [10])) (consoles k) = Some (w, true) /\ events w = es /\ stuck w = [].
Proof.
  intros Hk Hp Hm. unfold main. rewrite open_console_ok by done.
  destruct (main_loop_ok lines (S (length (lines ≫= (fun l => l ++ [10])))) (mkworld [] 0 0 0 []) es Hp) as (w & E & Hw); [|done|done|by exists w].
  clear. induction lines as [|l ls IH]; [simpl; lia|]. rewrite bind_cons, !length_app. simpl in *. lia.
Qed.
End Main.

(** ** A session *)

Definition demo_lines : list (list Z) := [str "cd /bin"; str "a | b x > f"; str "a | | ("; str "(a; b) < g &"].
Definition demo_open (name : list Z) (mode : Z) : bool := bool_decide (name <> str "g").

Lemma session_run l n es n' : bool_decide (is_cd l) = false ->
  bool_decide (0 ∈ l ++ [10; 0]) = true -> cstr (l ++ [10; 0]) = l ++ [10] ->
  match show_parse (l ++ [10; 0]) with
  | Some c => es = runs console (plan demo_open c console console n).1 /\ n' = (plan demo_open c console console n).2
  | None => False
  end -> means demo_open n l es n'.
Proof.
  intros H1 H2 H3. apply bool_decide_eq_true in H2. pose proof (parsecmd_sound _ H2) as H. unfold show_parse.
  destruct (parsecmd _) as [[c b]| |]; [|done|done]. intros [-> ->]. apply M_run; [by apply bool_decide_eq_false in H1|]. by rewrite <- H3.
Qed.
Lemma session_bad l n : bool_decide (is_cd l) = false -> show_parse (l ++ [10; 0]) = None ->
  bool_decide (0 ∈ l ++ [10; 0]) = true -> cstr (l ++ [10; 0]) = l ++ [10] -> means demo_open n l [] n.
Proof.
  intros H1 H2 H3 H4. apply M_bad; [by apply bool_decide_eq_false in H1|]. intros c Hc. apply bool_decide_eq_true in H3. rewrite <- H4 in Hc.
  destruct (parsecmd_complete _ _ H3 Hc) as (c' & b & E & _). unfold show_parse in H2. by rewrite E in H2.
Qed.

Lemma sh_main_correct_witness : exists w,
  main demo_open (fun _ => true) (demo_lines ≫= (fun l => l ++ [10])) (consoles 0) = Some (w, true) /\
  events w = [Chdir (str "/bin");
              Run [str "a"] (table console (WriteEnd 0) console);
              Run [str "b"; str "x"] (table (ReadEnd 0) (Opened (str "f") O_WRONLY_CREATE) console)] /\ stuck w = [].
Proof.
  apply (sh_main_correct demo_open (fun _ => true)); [done | done | lia | |].
  - repeat (apply Forall_cons_2 || apply Forall_nil_2); (split; [|vm_compute; lia]); repeat (apply Forall_cons_2 || apply Forall_nil_2); done.
  - eapply (A_cons _ _ _ _ [Chdir (str "/bin")]); [apply (M_cd _ 0%nat (str "/bin"))|].
    eapply (A_cons _ _ _ _ [_; _] 1%nat); [apply session_run; by vm_compute|].
    eapply (A_cons _ _ _ _ []); [apply session_bad; by vm_compute|].
    eapply (A_cons _ _ _ _ [] 1%nat); [apply session_run; by vm_compute | constructor].
Defined.

(** the end of a line is chopped off even if it is not a newline *)
Example cd_at_end : match main demo_open (fun _ => true) (str "cd ab") (consoles 3) with Some (w, _) => events w | None => [] end = [Chdir (str "a")].
Proof. by vm_compute. Qed.
