(* ===== verification/Score.v ===== *)
(** * The grading program ([ssu_score.c]): options, sorting, comparison of outputs

    The scanner of the command line, the merge sort of the list of students, the
    comparison of a student's output with the answer's, and the count of compiler
    warnings.  A linked list is the list of its nodes; a [double] is a [spec_float]
    with 53 bits of precision; a file is the list of its bytes. *)

From Stdlib Require Import SpecFloat.
From S2P Require Import Prelude CStr.

(** ** The command line *)

Definition MAX_OPTION_ARGS : nat := 5.

Record options : Type := mkoptions {
  modify_scores : bool;
  print_scores : bool;
  print_wrong : bool;
  thread_all : bool;
  sort_enabled : bool;
  error_enabled : bool;
  output_name : option (list Z);
  error_name : option (list Z);
  sort_key : option (list Z);
  sort_direction : Z;
  display_ids : list (list Z);
  thread_questions : list (list Z)
}.
Definition no_options : options := mkoptions false false false false false false None None None 0 [] [].

Definition set_modify (o : options) : options :=
  mkoptions true (print_scores o) (print_wrong o) (thread_all o) (sort_enabled o) (error_enabled o) (output_name o) (error_name o)
    (sort_key o) (sort_direction o) (display_ids o) (thread_questions o).
Definition set_output (name : list Z) (o : options) : options :=
  mkoptions (modify_scores o) (print_scores o) (print_wrong o) (thread_all o) (sort_enabled o) (error_enabled o) (Some name) (error_name o)
    (sort_key o) (sort_direction o) (display_ids o) (thread_questions o).
Definition set_error (name : list Z) (o : options) : options :=
  mkoptions (modify_scores o) (print_scores o) (print_wrong o) (thread_all o) (sort_enabled o) true (output_name o) (Some name)
    (sort_key o) (sort_direction o) (display_ids o) (thread_questions o).
Definition set_sort (key : list Z) (dir : Z) (o : options) : options :=
  mkoptions (modify_scores o) (print_scores o) (print_wrong o) (thread_all o) true (error_enabled o) (output_name o) (error_name o)
    (Some key) dir (display_ids o) (thread_questions o).
Definition set_thread (l : list (list Z)) (o : options) : options :=
  mkoptions (modify_scores o) (print_scores o) (print_wrong o) (bool_decide (l = [])) (sort_enabled o) (error_enabled o) (output_name o)
    (error_name o) (sort_key o) (sort_direction o) (display_ids o) l.
(** [-c] if [c], [-p] otherwise *)
Definition set_print (c : bool) (o : options) : options :=
  mkoptions (modify_scores o) (print_scores o || c) (print_wrong o || negb c) (thread_all o) (sort_enabled o) (error_enabled o) (output_name o)
    (error_name o) (sort_key o) (sort_direction o) (display_ids o) (thread_questions o).
Definition set_ids (l : list (list Z)) (o : options) : options :=
  mkoptions (modify_scores o) (print_scores o) (print_wrong o) (thread_all o) (sort_enabled o) (error_enabled o) (output_name o)
    (error_name o) (sort_key o) (sort_direction o) l (thread_questions o).

Definition option_names : list (list Z) := str <$> ["-n"; "-m"; "-c"; "-p"; "-t"; "-s"; "-e"; "-h"]%string.
Definition is_option_name (text : list Z) : bool := existsb (streq text) option_names.

Definition has_suffix (text suffix : list Z) : bool :=
  (length suffix <=? length text)%nat && streq (drop (length text - length suffix) text) suffix.

(** the arguments up to the next option: what is kept, at most [MAX_OPTION_ARGS]
    of them, and the rest; [None] where a second list of IDs is refused *)
Fixpoint collect (refuse : bool) (count : nat) (args : list (list Z)) : option (list (list Z) * list (list Z)) :=
  match args with
  | [] => Some ([], [])
  | a :: args' =>
      if is_option_name a then Some ([], args)
      else if refuse then None
      else
        match collect refuse (S count) args' with
        | None => None
        | Some (l, rest) => Some (if (count <? MAX_OPTION_ARGS)%nat then a :: l else l, rest)
        end
  end.
Definition add_limited_arguments (args : list (list Z)) (destination : list (list Z)) (shared : bool) : option (list (list Z) * list (list Z)) :=
  match collect (shared && negb (bool_decide (destination = []))) 0 args with
  | None => None
  | Some (l, rest) => Some (if shared && negb (bool_decide (destination = [])) then destination else l, rest)
  end.

(** [seen_n], [seen_m], [seen_t], [seen_s] and [seen_e] *)
Record seen : Type := mkseen { seen_n : bool; seen_m : bool; seen_t : bool; seen_s : bool; seen_e : bool }.

(** the loop of [parse_options] on the arguments that are left.  The outer [None]
    says that it did not end within its fuel, and the inner one is an error. *)
Fixpoint parse_loop (fuel : nat) (args : list (list Z)) (sn : seen) (o : options) : option (option options) :=
  match fuel with
  | O => None
  | S fuel' =>
      match args with
      | [] => Some (Some o)
      | a :: args =>
          if streq a (str "-n") then
            if seen_n sn then Some None
            else match args with
                 | [] => Some None
                 | name :: args => parse_loop fuel' args (mkseen true (seen_m sn) (seen_t sn) (seen_s sn) (seen_e sn)) (set_output name o)
                 end
          else if streq a (str "-m") then
            if seen_m sn then Some None
            else parse_loop fuel' args (mkseen (seen_n sn) true (seen_t sn) (seen_s sn) (seen_e sn)) (set_modify o)
          else if streq a (str "-c") || streq a (str "-p") then
            let c := streq a (str "-c") in
            if (if c then print_scores o else print_wrong o) then Some None
            else
              match add_limited_arguments args (display_ids o) true with
              | None => Some None
              | Some (ids, args) => parse_loop fuel' args sn (set_ids ids (set_print c o))
              end
          else if streq a (str "-t") then
            if seen_t sn then Some None
            else
              match add_limited_arguments args (thread_questions o) false with
              | None => Some None
              | Some (qs, args) => parse_loop fuel' args (mkseen (seen_n sn) (seen_m sn) true (seen_s sn) (seen_e sn)) (set_thread qs o)
              end
          else if streq a (str "-s") then
            if seen_s sn then Some None
            else
              match args with
              | key :: dir :: args =>
                  if negb (streq key (str "stdid")) && negb (streq key (str "score")) then Some None
                  else if negb (streq dir (str "1")) && negb (streq dir (str "-1")) then Some None
                  else
                    parse_loop fuel' args (mkseen (seen_n sn) (seen_m sn) (seen_t sn) true (seen_e sn))
                      (set_sort key (if streq dir (str "1") then 1 else -1) o)
              | _ => Some None
              end
          else if streq a (str "-e") then
            if seen_e sn then Some None
            else match args with
                 | [] => Some None
                 | name :: args => parse_loop fuel' args (mkseen (seen_n sn) (seen_m sn) (seen_t sn) (seen_s sn) true) (set_error name o)
                 end
          else Some None
      end
  end.

(** [parse_options] on the arguments from the third on *)
Definition parse_options (args : list (list Z)) : option (option options) :=
  match parse_loop (S (length args)) args (mkseen false false false false false) no_options with
  | Some (Some o) =>
      match output_name o with
      | Some name => if has_suffix name (str ".csv") then Some (Some o) else Some None
      | None => Some (Some o)
      end
  | r => r
  end.

(** ** The result list *)

Definition double : Type := spec_float.
Definition dlt (a b : double) : bool := SFltb a b.

Record student : Type := mkstudent { sid : list Z; scores : list double; total : double }.

Section Sort.
Variable o : options.

Definition compare_students (left right : student) : Z :=
  let comparison :=
    if match sort_key o with Some k => streq k (str "score") | None => false end then
      if dlt (total left) (total right) then -1
      else if dlt (total right) (total left) then 1
      else strcmp (sid left) (sid right)
    else strcmp (sid left) (sid right) in
  if sort_direction o =? 1 then comparison else - comparison.

Fixpoint merge_students (fuel : nat) (left right : list student) : list student :=
  match fuel with
  | O => left ++ right
  | S fuel' =>
      match left, right with
      | a :: left', b :: right' =>
          if compare_students a b <=? 0 then a :: merge_students fuel' left' right
          else b :: merge_students fuel' left right'
      | [], _ => right
      | _, [] => left
      end
  end.

(** the steps that [slow] makes while [fast] runs to the end *)
Fixpoint slow_steps (fast : list student) : nat :=
  match fast with
  | _ :: _ :: fast' => S (slow_steps fast')
  | _ => 0
  end.

Fixpoint sort_loop (fuel : nat) (l : list student) : list student :=
  match fuel with
  | O => l
  | S fuel' =>
      match l with
      | [] | [_] => l
      | _ :: fast =>
          let k := S (slow_steps fast) in
          let left := sort_loop fuel' (take k l) in
          let right := sort_loop fuel' (drop k l) in
          merge_students (length left + length right) left right
      end
  end.
Definition sort_student_list (l : list student) : list student := sort_loop (length l) l.
End Sort.

(** ** Outputs *)

Definition tolower (c : Z) : Z := if (65 <=? c) && (c <=? 90) then c + 32 else c.

(** [next_significant]: the character, [None] at the end, and the rest of the file *)
Fixpoint next_significant (f : list Z) : option Z * list Z :=
  match f with
  | [] => (None, [])
  | c :: f' => if isspace c then next_significant f' else (Some (tolower c), f')
  end.

Fixpoint matches_loop (fuel : nat) (student answer : list Z) : bool :=
  match fuel with
  | O => false
  | S fuel' =>
      let '(x, student') := next_significant student in
      let '(y, answer') := next_significant answer in
      match x, y with
      | None, None => true
      | Some c, Some d => if c =? d then matches_loop fuel' student' answer' else false
      | _, _ => false
      end
  end.
Definition output_matches (student answer : list Z) : bool := matches_loop (S (length student)) student answer.

Definition WARNING : list Z := str "warning:".

(** the loop over [strstr] in a line *)
Fixpoint count_in (fuel : nat) (line : list Z) : nat :=
  match fuel with
  | O => 0
  | S fuel' =>
      match line with
      | [] => 0
      | _ :: line' => if bool_decide (take (length WARNING) line = WARNING) then S (count_in fuel' (drop (length WARNING) line))
                      else count_in fuel' line'
      end
  end.

(** [getline]: the line with its newline, and the rest *)
Fixpoint getline (f : list Z) : list Z * list Z :=
  match f with
  | [] => ([], [])
  | c :: f' => if c =? 10 then ([c], f') else let '(l, rest) := getline f' in (c :: l, rest)
  end.

Fixpoint warnings_loop (fuel : nat) (f : list Z) : nat :=
  match fuel with
  | O => 0
  | S fuel' =>
      match f with
      | [] => 0
      | _ => let '(l, rest) := getline f in (count_in (length l) (cstr l) + warnings_loop fuel' rest)%nat
      end
  end.
Definition count_warnings (f : list Z) : nat := warnings_loop (length f) f.
