(* ===== verification/ScoreSpec.v ===== *)
(** * Options, sorting and comparison of outputs of the grading program

    The scanner of the command line accepts exactly the valid options; the merge
    sort sorts; outputs are compared up to white space and capitals, and every
    warning is counted once. *)

From Stdlib Require Import SpecFloat.
From stdpp Require Import sorting.
From S2P Require Import Prelude CStr Score.

(** ** Outputs: what is compared and counted *)

(** what is left of a file without white space and capitals *)
Definition significant (f : list Z) : list Z := tolower <$> filter (fun c => isspace c = false) f.

Lemma next_spec f : match next_significant f with
  | (None, _) => significant f = []
  | (Some c, f') => significant f = c :: significant f' /\ (length f' < length f)%nat
  end.
Proof.
  induction f as [|c f IH]; simpl; [done|]. unfold significant in *. rewrite filter_cons. destruct (isspace c) eqn:E; simpl.
  - destruct (next_significant f) as [[d|] f']; [destruct IH; split; [done | lia] | done].
  - split; [done | lia].
Qed.

Lemma matches_loop_spec fuel : forall a b, (length a < fuel)%nat -> matches_loop fuel a b = bool_decide (significant a = significant b).
Proof.
  induction fuel as [|fuel IH]; intros a b Hf; [lia|]. cbn [matches_loop].
  pose proof (next_spec a) as Ha. pose proof (next_spec b) as Hb. destruct (next_significant a) as [[c|] a'], (next_significant b) as [[d|] b'].
  - destruct Ha as [-> Ha], Hb as [-> Hb]. destruct (Z.eqb_spec c d) as [->|Hne].
    + rewrite IH by lia. apply bool_decide_ext. split; [by intros -> | by intros [=]].
    + symmetry. apply bool_decide_eq_false_2. congruence.
  - destruct Ha as [-> _]. rewrite Hb. by rewrite bool_decide_eq_false_2.
  - destruct Hb as [-> _]. rewrite Ha. by rewrite bool_decide_eq_false_2.
  - rewrite Ha, Hb. by rewrite bool_decide_eq_true_2.
Qed.

(** C40: Two outputs match exactly when they are the same text up to white space and
    capital letters; the comparison ends on all files. *)
Theorem output_matches_correct student answer :
  output_matches student answer = true <-> significant student = significant answer.
Proof. unfold output_matches. rewrite matches_loop_spec by lia. apply bool_decide_eq_true. Qed.

(** the places where the word occurs *)
Fixpoint occurrences (f : list Z) : nat :=
  match f with
  | [] => 0
  | _ :: f' => (if bool_decide (take (length WARNING) f = WARNING) then 1 else 0) + occurrences f'
  end.

Lemma occurrences_word l : occurrences (WARNING ++ l) = S (occurrences l).
Proof.
  unfold WARNING. simpl. destruct (bool_decide_reflect (take 0 l = [])) as [_|H]; [|by rewrite take_0 in H]. done.
Qed.

Lemma count_in_occurrences fuel : forall l, (length l <= fuel)%nat -> count_in fuel l = occurrences l.
Proof.
  induction fuel as [|fuel IH]; intros [|c l] Hf; try done; [simpl in Hf; lia|]. cbn [count_in]. case_bool_decide as H.
  - assert (c :: l = WARNING ++ drop (length WARNING) (c :: l)) as E by (rewrite <- H at 1; by rewrite take_drop).
    rewrite E at 2. rewrite occurrences_word, IH; [done|]. rewrite length_drop. simpl in *. lia.
  - cbn [occurrences]. rewrite bool_decide_eq_false_2 by done. apply IH. simpl in Hf. lia.
Qed.

Lemma word_across x r : take (length WARNING) (x ++ 10 :: r) = WARNING <-> take (length WARNING) x = WARNING.
Proof.
  destruct (decide (length WARNING <= length x)%nat) as [H|H]; [by rewrite take_app_le|]. split; intros E; exfalso.
  - assert (10 ∈ WARNING) as Hin; [|revert Hin; apply (bool_decide_eq_false_1 (10 ∈ WARNING)); by vm_compute].
    rewrite <- E, take_app_ge by lia. apply elem_of_app. right. destruct (length WARNING - length x)%nat eqn:En; [lia|]. by left.
  - apply (f_equal length) in E. rewrite length_take in E. lia.
Qed.

Lemma occurrences_line l r : occurrences (l ++ 10 :: r) = (occurrences (l ++ [10%Z]) + occurrences r)%nat.
Proof.
  induction l as [|c l IH]; [done|]. cbn [app occurrences]. rewrite IH.
  assert (bool_decide (take (length WARNING) (c :: l ++ 10 :: r) = WARNING) = bool_decide (take (length WARNING) (c :: l ++ [10]) = WARNING)) as ->; [|lia].
  apply bool_decide_ext. pose proof (word_across (c :: l) r). pose proof (word_across (c :: l) []). simpl app in *. tauto.
Qed.

Lemma getline_spec f : f <> [] -> f = (getline f).1 ++ (getline f).2 /\ (length (getline f).2 < length f)%nat /\
  occurrences f = (occurrences (getline f).1 + occurrences (getline f).2)%nat.
Proof.
  intros Hf. assert (f = (getline f).1 ++ (getline f).2 /\ (length (getline f).2 < length f)%nat /\
    ((getline f).2 = [] \/ exists l, (getline f).1 = l ++ [10])) as (E & Hl & Hend).
  { induction f as [|c f IH]; [done|]. simpl. destruct (Z.eqb_spec c 10) as [->|Hc]; [split_and!; [done | simpl; lia | right; by exists []]|].
    destruct f as [|d f]; [simpl; split_and!; [done | lia | by left]|]. specialize (IH ltac:(done)). destruct (getline (d :: f)) as [l r].
    destruct IH as (E & Hl & Hend). simpl in *. split_and!; [by rewrite E | lia |]. destruct Hend as [->|[l' ->]]; [by left | right; by exists (c :: l')]. }
  split_and!; [done | done|]. rewrite E at 1. destruct Hend as [-> | [l ->]]; [rewrite app_nil_r; simpl; lia|].
  by rewrite <- app_assoc, <- occurrences_line.
Qed.

(** every warning of a compiler's report is counted once *)
Lemma count_warnings_correct f : nonul f -> count_warnings f = occurrences f.
Proof.
  unfold count_warnings. assert (forall fuel g, (length g <= fuel)%nat -> nonul g -> warnings_loop fuel g = occurrences g) as H; [|by apply H].
  induction fuel as [|fuel IH]; intros [|c g] Hf Hn; try done; [simpl in Hf; lia|]. cbn [warnings_loop].
  destruct (getline_spec (c :: g) ltac:(done)) as (E & Hl & ->). destruct (getline (c :: g)) as [l r]. cbn [fst snd] in *.
  rewrite E in Hn. apply Forall_app in Hn as [Hn1 Hn2]. rewrite cstr_id by done. rewrite count_in_occurrences by done. rewrite IH; [done | simpl in *; lia | done].
Qed.

(** ** The sort *)

Section Sorting.
Variable o : options.
Notation le a b := (compare_students o a b <= 0).

Lemma merge_perm fuel : forall l r, (length l + length r <= fuel)%nat -> merge_students o fuel l r ≡ₚ l ++ r.
Proof.
  induction fuel as [|fuel IH]; intros [|a l] [|b r] Hf; simpl in Hf |- *; rewrite ?app_nil_r; try done.
  destruct (compare_students o a b <=? 0).
  - by rewrite IH by (simpl; lia).
  - rewrite IH by (simpl; lia). apply (Permutation_middle (a :: l) r b).
Qed.

Lemma slow_steps_bound l : (slow_steps l <= length l)%nat /\ (l <> [] -> slow_steps l < length l)%nat.
Proof.
  remember (length l) as n eqn:E. assert (length l <= n)%nat as Hn by lia. rewrite E. clear E. revert l Hn.
  induction n as [|n IH]; intros [|a [|b l]] Hn; simpl in *; try (split; [lia | intros; (done || lia)]); try lia.
  destruct (IH l ltac:(lia)). split; [lia | intros _; lia].
Qed.

Lemma sort_perm fuel : forall l, sort_loop o fuel l ≡ₚ l.
Proof.
  induction fuel as [|fuel IH]; intros l; [done|]. cbn [sort_loop]. destruct l as [|a [|b l]]; [done..|].
  rewrite merge_perm by done. rewrite !IH. by rewrite take_drop.
Qed.

Variable P : student -> Prop.
Hypothesis Htotal : forall a b, P a -> P b -> le a b \/ le b a.
Hypothesis Htrans : forall a b c, P a -> P b -> P c -> le a b -> le b c -> le a c.

Lemma merge_sorted fuel : forall l r, (length l + length r <= fuel)%nat -> Forall P l -> Forall P r ->
  StronglySorted (fun a b => le a b) l -> StronglySorted (fun a b => le a b) r ->
  StronglySorted (fun a b => le a b) (merge_students o fuel l r).
Proof.
  induction fuel as [|fuel IH]; intros [|a l] [|b r] Hf Hl Hr Sl Sr; simpl in Hf |- *; rewrite ?app_nil_r; try done; try lia.
  pose proof Hl as Hl'. pose proof Hr as Hr'. pose proof Sl as Sl'. pose proof Sr as Sr'.
  apply Forall_cons in Hl as [Ha Hl], Hr as [Hb Hr]. apply StronglySorted_cons in Sl as [Al Sl], Sr as [Br Sr].
  destruct (Z.leb_spec (compare_students o a b) 0) as [Hab|Hab]; apply StronglySorted_cons; (split; [|apply IH; simpl; (done || lia)]).
  - rewrite merge_perm by (simpl; lia). apply Forall_app. split; [done|]. constructor; [done|].
    rewrite Forall_forall in *. intros c Hc. eapply (Htrans a b c); auto.
  - assert (le b a) as Hba by (destruct (Htotal a b Ha Hb); [lia | done]).
    rewrite merge_perm by (simpl; lia). apply Forall_app. split; [|done]. constructor; [done|].
    rewrite Forall_forall in *. intros c Hc. eapply (Htrans b a c); auto.
Qed.

Lemma sort_sorted fuel : forall l, (length l <= fuel)%nat -> Forall P l -> StronglySorted (fun a b => le a b) (sort_loop o fuel l).
Proof.
  induction fuel as [|fuel IH]; intros l Hf Hl; cbn [sort_loop].
  { destruct l; [constructor | simpl in Hf; lia]. }
  destruct l as [|a [|b l]]; [constructor | repeat constructor |]. set (k := S (slow_steps (b :: l))).
  destruct (slow_steps_bound (b :: l)) as [_ Hk]. specialize (Hk ltac:(done)). simpl length in *.
  apply merge_sorted; [done | | | |].
  - rewrite sort_perm. by apply Forall_take.
  - rewrite sort_perm. by apply Forall_drop.
  - apply IH; [|by apply Forall_take]. rewrite length_take. subst k. simpl length. lia.
  - apply IH; [|by apply Forall_drop]. rewrite length_drop. subst k. simpl length. lia.
Qed.
End Sorting.

(** ** The order of the students *)

Lemma strcmp_le_trans a : forall b c, strcmp a b <= 0 -> strcmp b c <= 0 -> strcmp a c <= 0.
Proof.
  induction a as [|x a IH]; intros [|y b] [|z c]; simpl; try lia.
  intros H1 H2. destruct (Z.eqb_spec x z) as [->|Hxz]; [|destruct (Z.eqb_spec x y), (Z.eqb_spec y z); lia].
  destruct (Z.eqb_spec z y) as [->|]; [rewrite Z.eqb_refl in H2; by eapply IH | destruct (Z.eqb_spec y z); lia].
Qed.

Lemma strcmp_app k k' a b : length k = length k' ->
  strcmp (k ++ a) (k' ++ b) = if strcmp k k' =? 0 then strcmp a b else strcmp k k'.
Proof.
  revert k'. induction k as [|x k IH]; intros [|y k'] Hl; try done. simpl. destruct (Z.eqb_spec x y) as [->|Hxy]; [apply IH; simpl in Hl; lia|].
  destruct (Z.eqb_spec (x - y) 0); [lia | done].
Qed.

(** a number as three numbers in dictionary order *)
Definition fkey (f : double) : list Z :=
  match f with
  | S754_zero _ | S754_nan => [0; 0; 0]
  | S754_infinity s => [if s then -2 else 2; 0; 0]
  | S754_finite s m e => if s then [-1; - e; Z.neg m] else [1; e; Z.pos m]
  end.

Lemma dlt_fkey a b : a <> S754_nan -> b <> S754_nan -> dlt a b = (strcmp (fkey a) (fkey b) <? 0).
Proof.
  intros Ha Hb. unfold dlt, SFltb. destruct a as [sa|sa| |sa ma ea]; try done; destruct b as [sb|sb| |sb mb eb]; try done;
    destruct sa; try destruct sb; try done; cbn [SFcompare fkey].
  - destruct (Z.compare_spec ea eb) as [->|H|H]; simpl.
    + rewrite Z.eqb_refl. fold (Pos.compare ma mb). destruct (Pos.compare_spec ma mb) as [->|H|H]; cbn [CompOpp].
      * by rewrite Pos.eqb_refl.
      * destruct (Pos.eqb_spec ma mb); [lia|]. symmetry. apply Z.ltb_ge. lia.
      * destruct (Pos.eqb_spec ma mb); [lia|]. symmetry. apply Z.ltb_lt. lia.
    + destruct (Z.eqb_spec (- ea) (- eb)); [lia|]. symmetry. apply Z.ltb_ge. lia.
    + destruct (Z.eqb_spec (- ea) (- eb)); [lia|]. symmetry. apply Z.ltb_lt. lia.
  - destruct (Z.compare_spec ea eb) as [->|H|H]; simpl.
    + rewrite Z.eqb_refl. fold (Pos.compare ma mb). destruct (Pos.compare_spec ma mb) as [->|H|H].
      * by rewrite Pos.eqb_refl.
      * destruct (Pos.eqb_spec ma mb); [lia|]. symmetry. apply Z.ltb_lt. lia.
      * destruct (Pos.eqb_spec ma mb); [lia|]. symmetry. apply Z.ltb_ge. lia.
    + destruct (Z.eqb_spec ea eb); [lia|]. symmetry. apply Z.ltb_lt. lia.
    + destruct (Z.eqb_spec ea eb); [lia|]. symmetry. apply Z.ltb_ge. lia.
Qed.

Section Students.
Variable o : options.

Definition by_score : bool := match sort_key o with Some k => streq k (str "score") | None => false end.
Definition skey (s : student) : list Z := if by_score then fkey (total s) ++ sid s else sid s.
(** the total is a number, where it matters *)
Definition ranked (s : student) : Prop := by_score = true -> total s <> S754_nan.

Lemma compare_key a b : ranked a -> ranked b ->
  Z.sgn (compare_students o a b) = (if sort_direction o =? 1 then 1 else -1) * Z.sgn (strcmp (skey a) (skey b)).
Proof.
  intros Ha Hb. unfold compare_students. fold by_score.
  assert (Z.sgn (if by_score then if dlt (total a) (total b) then -1 else if dlt (total b) (total a) then 1 else strcmp (sid a) (sid b)
                 else strcmp (sid a) (sid b)) = Z.sgn (strcmp (skey a) (skey b))) as H.
  { unfold skey, ranked in *. destruct by_score; [|done]. specialize (Ha eq_refl). specialize (Hb eq_refl).
    assert (length (fkey (total a)) = 3%nat /\ length (fkey (total b)) = 3%nat) as [La Lb] by (split; [destruct (total a) as [| | |[]] | destruct (total b) as [| | |[]]]; done).
    rewrite strcmp_app by congruence. rewrite !dlt_fkey by done. pose proof (strcmp_antisym (fkey (total b)) (fkey (total a))).
    destruct (Z.ltb_spec (strcmp (fkey (total a)) (fkey (total b))) 0), (Z.ltb_spec (strcmp (fkey (total b)) (fkey (total a))) 0),
      (Z.eqb_spec (strcmp (fkey (total a)) (fkey (total b))) 0); lia. }
  destruct (sort_direction o =? 1); rewrite ?Z.sgn_opp, H; lia.
Qed.

Lemma compare_le a b : ranked a -> ranked b ->
  compare_students o a b <= 0 <-> if sort_direction o =? 1 then strcmp (skey a) (skey b) <= 0 else strcmp (skey b) (skey a) <= 0.
Proof.
  intros Ha Hb. pose proof (compare_key a b Ha Hb). pose proof (strcmp_antisym (skey a) (skey b)). destruct (sort_direction o =? 1); lia.
Qed.
Lemma compare_total a b : ranked a -> ranked b -> compare_students o a b <= 0 \/ compare_students o b a <= 0.
Proof.
  intros Ha Hb. rewrite !compare_le by done. pose proof (strcmp_total (skey a) (skey b)). destruct (sort_direction o =? 1); tauto.
Qed.
Lemma compare_trans a b c : ranked a -> ranked b -> ranked c ->
  compare_students o a b <= 0 -> compare_students o b c <= 0 -> compare_students o a c <= 0.
Proof. intros Ha Hb Hc. rewrite !compare_le by done. destruct (sort_direction o =? 1); eauto using strcmp_le_trans. Qed.
End Students.


Definition whole (n : Z) : double := binary_normalize 53 1024 n 0 false.
Definition demo_students : list student :=
  [mkstudent (str "3") [] (whole 3); mkstudent (str "1") [] (whole 0); mkstudent (str "2") [] (whole 3); mkstudent (str "4") [] (whole 7)].
Example sort_demo : sid <$> sort_student_list (set_sort (str "score") (-1) no_options) demo_students = [str "4"; str "3"; str "2"; str "1"].
Proof. by vm_compute. Qed.
(** a total that is not a number, which the score table can hold, hides the order *)
Example sort_nan : sid <$> sort_student_list (set_sort (str "score") 1 no_options)
  [mkstudent (str "1") [] (whole 2); mkstudent (str "4") [] (whole 9); mkstudent (str "2") [] S754_nan; mkstudent (str "3") [] (whole 1)]
  = [str "1"; str "2"; str "3"; str "4"].
Proof. by vm_compute. Qed.

(** ** The command line *)

Lemma streq_true a b : streq a b = true <-> a = b.
Proof. destruct (streq_spec a b); by split. Qed.
Lemma streq_refl a : streq a a = true.
Proof. by apply streq_true. Qed.

(** what [collect] leaves *)
Lemma collect_shorter refuse args : forall count l rest, collect refuse count args = Some (l, rest) -> (length rest <= length args)%nat.
Proof.
  induction args as [|a args IH]; intros count l rest E; simpl in E; [by injection E as <- <-|].
  destruct (is_option_name a); [by injection E as <- <-|]. destruct refuse; [done|].
  destruct (collect false (S count) args) as [[l' r]|] eqn:Ec; [|done]. apply IH in Ec. injection E as <- <-. simpl. lia.
Qed.

(** where a list of arguments ends *)
Definition stops (args : list (list Z)) : Prop := match args with [] => True | a :: _ => is_option_name a = true end.

Lemma collect_stop refuse count rest : stops rest -> collect refuse count rest = Some ([], rest).
Proof. destruct rest as [|a rest]; [done|]. simpl. by intros ->. Qed.
Lemma add_shorter args dest shared l rest : add_limited_arguments args dest shared = Some (l, rest) -> (length rest <= length args)%nat.
Proof.
  unfold add_limited_arguments. destruct (collect _ 0 args) as [[l' r]|] eqn:E; [|done]. intros [= <- <-]. by apply collect_shorter in E.
Qed.

Definition is_some {A} (x : option A) : bool := match x with Some _ => true | None => false end.

Ltac scan_one := cbn [parse_loop app]; repeat match goal with |- context [streq ?a ?b] =>
  let v := eval vm_compute in (streq a b) in change (streq a b) with v; cbn [orb andb negb] end; cbn [seen_n seen_m seen_t seen_s seen_e].

(** every round takes an argument *)
Lemma parse_ends fuel : forall args sn o, (length args < fuel)%nat -> parse_loop fuel args sn o <> None.
Proof.
  induction fuel as [|fuel IH]; intros args sn o H; [lia|]. cbn [parse_loop]. destruct args as [|a args]; [done|]. simpl in H.
  repeat match goal with
  | |- (if ?b then _ else _) <> None => destruct b
  | |- match add_limited_arguments ?a ?d ?s with _ => _ end <> None =>
      let E := fresh in destruct (add_limited_arguments a d s) as [[? ?]|] eqn:E; [apply add_shorter in E|]
  | |- match ?l with [] => _ | _ => _ end <> None => destruct l
  end; first [done | apply IH; simpl in *; lia].
Qed.

(** ** The meaning of a command line *)

(** one option with its arguments; [OS key up] sorts by [key], upwards if [up] *)
Inductive opt : Type :=
| ON (name : list Z) | OM | OC (ids : list (list Z)) | OP (ids : list (list Z)) | OT (questions : list (list Z))
| OS (key : list Z) (up : bool) | OE (name : list Z).

Definition letter (x : opt) : Z :=
  match x with ON _ => 110 | OM => 109 | OC _ => 99 | OP _ => 112 | OT _ => 116 | OS _ _ => 115 | OE _ => 101 end.
Definition written (x : opt) : list (list Z) :=
  [45; letter x] :: match x with
                    | ON name | OE name => [name]
                    | OM => []
                    | OC l | OP l | OT l => l
                    | OS key up => [key; if up then str "1" else str "-1"]
                    end.
Definition listed (x : opt) : list (list Z) := match x with OC l | OP l | OT l => l | _ => [] end.
Definition students (x : opt) : list (list Z) := match x with OC l | OP l => l | _ => [] end.
Definition well_formed (x : opt) : Prop :=
  Forall (fun a => is_option_name a = false) (listed x) /\
  match x with OS key _ => key = str "stdid" \/ key = str "score" | _ => True end.

(** no option is given twice, and only one of [-c] and [-p] has a list of students *)
Definition legal (d : list opt) : Prop :=
  NoDup (letter <$> d) /\ (length (filter (fun l => l <> []) (students <$> d)) <= 1)%nat.

Definition the (k : Z) (d : list opt) : option opt := head (filter (fun x => letter x = k) d).
Definition given (k : Z) (d : list opt) : bool := is_some (the k d).
Definition meaning (d : list opt) : options :=
  mkoptions (given 109 d) (given 99 d) (given 112 d)
    (match the 116 d with Some (OT []) => true | _ => false end) (given 115 d) (given 101 d)
    (match the 110 d with Some (ON name) => Some name | _ => None end)
    (match the 101 d with Some (OE name) => Some name | _ => None end)
    (match the 115 d with Some (OS key _) => Some key | _ => None end)
    (match the 115 d with Some (OS _ up) => if up then 1 else -1 | _ => 0 end)
    (take MAX_OPTION_ARGS (d ≫= students))
    (match the 116 d with Some (OT l) => take MAX_OPTION_ARGS l | _ => [] end).

Lemma the_snoc k d x : the k (d ++ [x]) = match the k d with Some y => Some y | None => if decide (letter x = k) then Some x else None end.
Proof. unfold the. rewrite filter_app. destruct (filter _ d); [|done]. simpl. unfold filter; simpl. by destruct (decide _). Qed.
Lemma given_in k d : given k d = false <-> k ∉ letter <$> d.
Proof.
  unfold given, the. induction d as [|x d IH]; [split; [intros _; apply not_elem_of_nil | done]|].
  rewrite filter_cons, fmap_cons, not_elem_of_cons. case_decide as E; [|naive_solver]. split; [done|]. intros [H _]. by destruct H.
Qed.
Lemma students_nil d : d ≫= students = [] <-> filter (fun l => l <> []) (students <$> d) = [].
Proof.
  induction d as [|x d IH]; [done|]. rewrite bind_cons, fmap_cons, filter_cons.
  destruct (students x); [rewrite decide_False by auto; exact IH | by rewrite decide_True by done].
Qed.

Lemma legal_snoc d x : legal (d ++ [x]) <-> legal d /\ given (letter x) d = false /\ (students x = [] \/ d ≫= students = []).
Proof.
  unfold legal. rewrite !fmap_app, NoDup_app, filter_app, length_app, given_in, students_nil. cbn [fmap list_fmap].
  assert (length (filter (fun l : list (list Z) => l <> []) [students x]) = if decide (students x = []) then 0 else 1)%nat as ->.
  { rewrite filter_cons. by destruct (students x). }
  set (F := filter _ (students <$> d)). split.
  - intros [(H1 & H2 & _) H3]. split_and!; [done | destruct (decide _); lia | intros Hin; by apply (H2 _ Hin), list_elem_of_singleton |].
    destruct (decide (students x = [])); [by left | right]. destruct F; [done | simpl in H3; lia].
  - intros ([H1 H2] & H3 & H4). split_and!; [done | by intros y Hy ->%list_elem_of_singleton | apply NoDup_singleton |].
    destruct (decide (students x = [])); [lia|]. destruct H4 as [|H4]; [done|]. rewrite H4. simpl. lia.
Qed.

Definition seen_of (d : list opt) : seen := mkseen (given 110 d) (given 109 d) (given 116 d) (given 115 d) (given 101 d).

Lemma given_snoc k d x : given k (d ++ [x]) = given k d || bool_decide (letter x = k).
Proof. unfold given. rewrite the_snoc. destruct (the k d); [done|]. simpl. by case_decide; case_bool_decide. Qed.
Lemma the_none k d : given k d = false -> the k d = None.
Proof. unfold given. by destruct (the k d). Qed.

Lemma take_nil_iff {A} (l : list A) : bool_decide (take MAX_OPTION_ARGS l = []) = bool_decide (l = []).
Proof. by destruct l. Qed.
Lemma collect_take l rest : forall count, Forall (fun a => is_option_name a = false) l -> stops rest ->
  collect false count (l ++ rest) = Some (take (MAX_OPTION_ARGS - count) l, rest).
Proof.
  induction l as [|a l IH]; intros count Hl Hr; [cbn [app]; by rewrite take_nil, collect_stop|]. apply Forall_cons in Hl as [Ha Hl]. simpl app. cbn [collect].
  rewrite Ha, IH by done. destruct (Nat.ltb_spec count MAX_OPTION_ARGS).
  - by replace (MAX_OPTION_ARGS - count)%nat with (S (MAX_OPTION_ARGS - S count)) by lia.
  - by replace (MAX_OPTION_ARGS - count)%nat with 0%nat by lia; replace (MAX_OPTION_ARGS - S count)%nat with 0%nat by lia.
Qed.
Lemma add_shared l rest ids : Forall (fun a => is_option_name a = false) l -> stops rest ->
  add_limited_arguments (l ++ rest) (take MAX_OPTION_ARGS ids) true =
  if decide (l = [] \/ ids = []) then Some (take MAX_OPTION_ARGS (ids ++ l), rest) else None.
Proof.
  intros Hl Hr. unfold add_limited_arguments. rewrite take_nil_iff. cbn [andb]. case_bool_decide as Hi; cbn [negb].
  - subst ids. rewrite collect_take, decide_True by auto. done.
  - destruct l as [|a l]; cbn [app].
    + rewrite collect_stop, decide_True, app_nil_r by auto. done.
    + apply Forall_cons in Hl as [Ha _]. cbn [collect]. rewrite Ha, decide_False; [done|]. by intros [?|?].
Qed.
Lemma add_questions l rest : Forall (fun a => is_option_name a = false) l -> stops rest ->
  add_limited_arguments (l ++ rest) [] false = Some (take MAX_OPTION_ARGS l, rest).
Proof. intros Hl Hr. unfold add_limited_arguments. cbn [andb]. by rewrite collect_take. Qed.

#[local] Instance legal_dec d : Decision (legal d).
Proof. unfold legal. apply _. Defined.

Definition greedy (x : opt) (rest : list (list Z)) : Prop := match x with OC _ | OP _ | OT _ => stops rest | _ => True end.

Lemma the_other k d x : letter x <> k -> the k (d ++ [x]) = the k d.
Proof. intros H. rewrite the_snoc, decide_False by done. by destruct (the k d). Qed.
Lemma the_new k d x : letter x = k -> the k d = None -> the k (d ++ [x]) = Some x.
Proof. intros H E. by rewrite the_snoc, E, decide_True. Qed.

(** what one more option changes *)
Lemma meaning_snoc d x : given (letter x) d = false ->
  meaning (d ++ [x]) =
    match x with
    | ON name => set_output name (meaning d)
    | OM => set_modify (meaning d)
    | OC l => set_ids (take MAX_OPTION_ARGS ((d ≫= students) ++ l)) (set_print true (meaning d))
    | OP l => set_ids (take MAX_OPTION_ARGS ((d ≫= students) ++ l)) (set_print false (meaning d))
    | OT l => set_thread (take MAX_OPTION_ARGS l) (meaning d)
    | OS key up => set_sort key (if up then 1 else -1) (meaning d)
    | OE name => set_error name (meaning d)
    end /\
  seen_of (d ++ [x]) =
    let sn := seen_of d in
    match x with
    | ON _ => mkseen true (seen_m sn) (seen_t sn) (seen_s sn) (seen_e sn)
    | OM => mkseen (seen_n sn) true (seen_t sn) (seen_s sn) (seen_e sn)
    | OT _ => mkseen (seen_n sn) (seen_m sn) true (seen_s sn) (seen_e sn)
    | OS _ _ => mkseen (seen_n sn) (seen_m sn) (seen_t sn) true (seen_e sn)
    | OE _ => mkseen (seen_n sn) (seen_m sn) (seen_t sn) (seen_s sn) true
    | _ => sn
    end.
Proof.
  intros Hx%the_none. unfold seen_of, meaning, given. rewrite bind_app.
  destruct x; cbn [letter] in Hx; repeat match goal with |- context [the ?k (d ++ [?x])] =>
    first [rewrite (the_other k d x) by done | rewrite (the_new k d x) by done] end;
    cbv beta iota zeta delta [set_output set_modify set_ids set_print set_thread set_sort set_error is_some];
    cbn [modify_scores print_scores print_wrong thread_all sort_enabled error_enabled output_name error_name sort_key sort_direction
         display_ids thread_questions seen_n seen_m seen_t seen_s seen_e mbind list_bind students app];
    rewrite ?app_nil_r, ?orb_true_r, ?orb_false_r, ?take_nil_iff; (split; [|done]); try done.
  f_equal. by destruct questions.
Qed.

(** the loop takes one option *)
Lemma advance fuel x rest d : well_formed x -> greedy x rest -> legal d ->
  parse_loop (S fuel) (written x ++ rest) (seen_of d) (meaning d) =
  if decide (legal (d ++ [x])) then parse_loop fuel rest (seen_of (d ++ [x])) (meaning (d ++ [x])) else Some None.
Proof.
  intros [Hl Hk] Hg Hd. rewrite (decide_ext _ _ _ _ (legal_snoc d x)).
  destruct (given (letter x) d) eqn:Hx.
  - rewrite decide_False by (intros (_ & ? & _); done). destruct x; cbn [letter] in Hx; cbn [written letter app]; scan_one; unfold seen_of, meaning; cbn; by rewrite ?Hx.
  - destruct (meaning_snoc _ _ Hx) as [-> ->]. 
    destruct x as [n| |l|l|l|key up|n]; cbn [letter listed] in Hx, Hl; cbn [greedy] in Hg; cbn [written letter app students]; scan_one.
    + cbn [seen_of seen_n]. rewrite Hx, decide_True by auto. done.
    + cbn [seen_of seen_m]. rewrite Hx, decide_True by auto. done.
    + cbn [meaning print_scores display_ids]. rewrite Hx, add_shared by done. destruct (decide (l = [] \/ _)); [rewrite decide_True by auto | rewrite decide_False by tauto]; done.
    + cbn [meaning print_wrong display_ids]. rewrite Hx, add_shared by done. destruct (decide (l = [] \/ _)); [rewrite decide_True by auto | rewrite decide_False by tauto]; done.
    + cbn [meaning seen_of seen_t thread_questions]. rewrite Hx, (the_none _ _ Hx), add_questions, decide_True by auto. done.
    + cbn [seen_of seen_s]. rewrite Hx, decide_True by auto. destruct Hk as [-> | ->], up; reflexivity.
    + cbn [seen_of seen_e]. rewrite Hx, decide_True by auto. done.
Qed.
Lemma split_list args : exists l rest, args = l ++ rest /\ Forall (fun a => is_option_name a = false) l /\ stops rest.
Proof.
  induction args as [|a args (l & rest & -> & Hl & Hr)]; [by exists [], []|]. destruct (is_option_name a) eqn:E.
  - by exists [], (a :: l ++ rest).
  - exists (a :: l), rest. split_and!; [done | by constructor | done].
Qed.
Lemma taken_opt fuel a args sn o o' : parse_loop (S fuel) (a :: args) sn o = Some (Some o') ->
  exists x rest, a :: args = written x ++ rest /\ well_formed x /\ greedy x rest.
Proof.
  intros E. cbn [parse_loop] in E. destruct (split_list args) as (l & rest & Eargs & Hl & Hr).
  destruct (streq a (str "-n")) eqn:Ea; [apply streq_true in Ea as ->; destruct (seen_n sn), args as [|n args]; try done; by exists (ON n), args|].
  destruct (streq a (str "-m")) eqn:Eb; [apply streq_true in Eb as ->; by exists OM, args|].
  destruct (streq a (str "-c")) eqn:Ec; [apply streq_true in Ec as ->; subst args; by exists (OC l), rest|].
  destruct (streq a (str "-p")) eqn:Ep; [apply streq_true in Ep as ->; subst args; by exists (OP l), rest|]. cbn [orb] in E.
  destruct (streq a (str "-t")) eqn:Et; [apply streq_true in Et as ->; subst args; by exists (OT l), rest|].
  destruct (streq a (str "-s")) eqn:Es.
  { apply streq_true in Es as ->. destruct (seen_s sn), args as [|key [|dir args]]; try done. destruct (negb (streq key _) && _) eqn:Ek; [done|].
    destruct (negb (streq dir _) && _) eqn:Ed; [done|]. exists (OS key (streq dir (str "1"))), args.
    apply andb_false_iff in Ek as [Ek|Ek], Ed as [Ed|Ed]; apply negb_false_iff, streq_true in Ek as ->, Ed as ->; unfold well_formed; simpl; auto. }
  destruct (streq a (str "-e")) eqn:Ee; [|done]. apply streq_true in Ee as ->. destruct (seen_e sn), args as [|n args]; try done. by exists (OE n), args.
Qed.

Lemma legal_prefix d xs : legal (d ++ xs) -> legal d.
Proof. induction xs as [|x xs IH] using rev_ind; [by rewrite app_nil_r|]. rewrite app_assoc, legal_snoc. tauto. Qed.
Lemma stops_written xs : stops (xs ≫= written).
Proof. destruct xs as [|x xs]; [done|]. by destruct x. Qed.

Lemma parse_meaning fuel : forall args d o, (length args < fuel)%nat -> legal d ->
  parse_loop fuel args (seen_of d) (meaning d) = Some (Some o) <->
  exists xs, args = xs ≫= written /\ Forall well_formed xs /\ legal (d ++ xs) /\ o = meaning (d ++ xs).
Proof.
  induction fuel as [|fuel IH]; intros args d o Hf Hd; [lia|]. destruct args as [|a args].
  - split; [intros [= <-]; exists []; by rewrite app_nil_r|]. intros ([|x xs] & E & _ & _ & ->); [by rewrite app_nil_r | by destruct x].
  - assert (forall x rest, a :: args = written x ++ rest -> (length rest < fuel)%nat) as Hlen.
    { intros x rest E. apply (f_equal length) in E. rewrite length_app in E. simpl in E, Hf. lia. }
    split.
    + intros E. destruct (taken_opt _ _ _ _ _ _ E) as (x & rest & Ea & Hx & Hg). pose proof (Hlen _ _ Ea). rewrite Ea, advance in E by done.
      destruct (decide _) as [Hl|]; [|done]. apply IH in E as (xs & -> & H1 & H2 & ->); [|done..]. rewrite <- app_assoc in *.
      exists (x :: xs). rewrite bind_cons. split_and!; [done | by constructor | done..].
    + intros ([|x xs] & Ea & Hx & Hl & ->); [done|]. rewrite bind_cons in Ea. pose proof (Hlen _ _ Ea). apply Forall_cons in Hx as [Hx Hxs].
      assert (greedy x (xs ≫= written)) as Hg by (destruct x; try done; apply stops_written).
      change (x :: xs) with ([x] ++ xs) in *. rewrite app_assoc in *. rewrite Ea, advance, decide_True by eauto using legal_prefix.
      apply IH; [done | by eapply legal_prefix | by exists xs].
Qed.

(** C17: The scanner of the command line.  It ends on every argument list.  The
    list is accepted exactly when it is a sequence of options, each with its
    arguments, in which no option is given twice, only one of [-c] and [-p] lists
    students, a sort key and its direction are known, and the result name ends in
    [.csv]; the options that result are those that were given, [-c], [-p] and [-t]
    with the first five of their arguments.  Every other argument list is refused. *)
Theorem parse_options_correct args :
  parse_options args <> None /\
  forall o, parse_options args = Some (Some o) <->
  exists d, args = d ≫= written /\ Forall well_formed d /\ legal d /\ o = meaning d /\
    forall name, output_name o = Some name -> has_suffix name (str ".csv") = true.
Proof.
  assert (legal []) as Hnil by (split; [constructor | simpl; lia]).
  pose proof (fun o => parse_meaning (S (length args)) args [] o ltac:(lia) Hnil) as H.
  pose proof (parse_ends (S (length args)) args (seen_of []) (meaning []) ltac:(lia)) as Hend. unfold parse_options.
  change (parse_loop _ args _ no_options) with (parse_loop (S (length args)) args (seen_of []) (meaning [])).
  destruct (parse_loop _ _ _ _) as [[o'|]|]; [| |done].
  - split; [by destruct (output_name o') as [name|]; [destruct (has_suffix name _)|]|]. intros o. split.
    + intros E. destruct (proj1 (H o') eq_refl) as (d & ? & ? & ? & ?). exists d.
      destruct (output_name o') as [name|] eqn:En; [destruct (has_suffix name (str ".csv")) eqn:Es; [|done]|]; injection E as <-; split_and!; try done; congruence.
    + intros (d & E1 & E2 & E3 & E4 & Hcsv). assert (Some (Some o') = Some (Some o)) as [= ->] by (apply H; by exists d).
      destruct (output_name o) as [name|]; [|done]. by rewrite Hcsv.
  - split; [done|]. intros o. split; [done|]. intros (d & E1 & E2 & E3 & E4 & _). apply H. by exists d.
Qed.

(** a line with all that is allowed, and lines that are refused *)
Example options_read :
  parse_options (str <$> ["-p"; "-c"; "20240001"; "-s"; "score"; "-1"; "-n"; "out.csv"; "-t"; "1"; "2"; "3"; "4"; "5"; "6"]%string) =
  Some (Some (meaning [OP []; OC [str "20240001"]; OS (str "score") false; ON (str "out.csv"); OT (str <$> ["1"; "2"; "3"; "4"; "5"; "6"]%string)])).
Proof. by vm_compute. Qed.
Example options_refused :
  parse_options (str <$> ["-n"; "a.csv"; "-n"; "b.csv"]%string) = Some None /\ parse_options (str <$> ["-c"; "x"; "-p"; "y"]%string) = Some None /\
  parse_options (str <$> ["-x"]%string) = Some None /\ parse_options (str <$> ["-h"]%string) = Some None.
Proof. by vm_compute. Qed.

