(* ===== verification/Blank.v ===== *)
(** * Comparing fill-in answers ([blank.c] of ssu_score)

    [compare_tree] decides whether the student's expression counts as the same as
    the answer's.  It walks two trees of operators; the second one it also
    changes: a relational operator is turned around, operands are swapped.  A
    node with its siblings is a list of trees and a position in it; [None] is the
    crash of a null pointer that is followed. *)

From S2P Require Import Prelude.
Local Open Scope string_scope.

(** [struct node]: the name and the operands *)
Inductive tree : Type := Node (name : string) (kids : list tree).
Definition name_of (t : tree) : string := match t with Node n _ => n end.
Definition kids_of (t : tree) : list tree := match t with Node _ k => k end.

Definition relational (n : string) : bool := bool_decide (n ∈ ["<"; ">"; "<="; ">="]).
Definition equality (n : string) : bool := bool_decide (n ∈ ["=="; "!="]).
Definition associative (n : string) : bool := bool_decide (n ∈ ["+"; "*"; "|"; "&"; "||"; "&&"]).

(** [strncpy] of a string of [k] characters over the first [k] *)
Definition overwrite (p n : string) : string := p +:+ String.substring (String.length p) (String.length n - String.length p) n.
(** a relational operator turned around *)
Definition turn_name (n : string) : string :=
  if String.prefix "<" n then overwrite ">" n
  else if String.prefix ">" n then overwrite "<" n
  else if String.prefix "<=" n then overwrite ">=" n
  else if String.prefix ">=" n then overwrite "<=" n
  else n.

(** [change_sibling]: the second child in front, the others lost *)
Definition change_sibling (t : tree) : option tree :=
  match t with Node n (a :: b :: _) => Some (Node n [b; a]) | _ => None end.

(** the loop over the siblings, from the first one: [cmp] compares with the one
    at a position, and may change all of them *)
Fixpoint some_sibling (cmp : list tree -> nat -> option (bool * list tree)) (left : nat) (sib : list tree) (j : nat) : option (bool * list tree) :=
  match left with
  | O => Some (false, sib)
  | S left' =>
      match cmp sib j with
      | None => None
      | Some (true, sib) => Some (true, sib)
      | Some (false, sib) => some_sibling cmp left' sib (S j)
      end
  end.

(** the comparison of the operands [k1] and [k2] of the operator [n]; [kids]
    compares from a position on *)
Definition compare_kids (kids : tree -> list tree -> list tree -> nat -> option (bool * list tree)) (n : string) (k1 k2 : list tree) : option (bool * list tree) :=
  match k1 with
  | [] => Some (true, k2)
  | c1 :: cs1 =>
      if equality n then
        match kids c1 cs1 k2 0%nat with
        | None => None
        | Some (true, k2) => Some (true, k2)
        | Some (false, k2) =>
            match change_sibling (Node n k2) with
            | None => None
            | Some t => kids c1 cs1 (kids_of t) 0%nat
            end
        end
      else if associative n then some_sibling (kids c1 cs1) (length k2) k2 0
      else kids c1 cs1 k2 0%nat
  end.

(** the first siblings that are left, after the result [result] so far; [next]
    compares them from a position on *)
Definition compare_next (next : tree -> list tree -> list tree -> nat -> option (bool * list tree)) (above : option string) (count1 : nat)
    (result : bool) (next1 sib2 : list tree) (j : nat) : option (bool * list tree) :=
  match next1 with
  | [] => Some (result, sib2)
  | x :: xs =>
      if negb (count1 =? length sib2)%nat then Some (false, sib2)
      else if result then
        match above with
        | None => None
        | Some op => if associative op then some_sibling (next x xs) (length sib2) sib2 0 else next x xs sib2 (S j)
        end
      else Some (false, sib2)
  end.

(** [compare_tree] of [root1], which has the following siblings [next1], [count1]
    siblings in all and the parent [above], with [sib2] at position [j]: the
    result, and the second siblings after it *)
Fixpoint compare_tree (fuel : nat) (above : option string) (count1 : nat) (root1 : tree) (next1 : list tree)
    (sib2 : list tree) (j : nat) : option (bool * list tree) :=
  match fuel with
  | O => None
  | S fuel' =>
      match sib2 !! j with
      | None => Some (false, sib2)
      | Some root2 =>
          let n1 := name_of root1 in
          let k1 := kids_of root1 in
          match (if relational n1 && negb (bool_decide (n1 = name_of root2))
                 then change_sibling (Node (turn_name (name_of root2)) (kids_of root2)) else Some root2) with
          | None => None
          | Some (Node n2 k2) =>
              let sib2 := <[j := Node n2 k2]> sib2 in
              if negb (bool_decide (n1 = n2)) then Some (false, sib2)
              else if negb (length k1 =? length k2)%nat then Some (false, sib2)
              else
                match compare_kids (compare_tree fuel' (Some n1) (length k1)) n1 k1 k2 with
                | None => None
                | Some (result, k2) =>
                    compare_next (compare_tree fuel' above count1) above count1 result next1 (<[j := Node n2 k2]> sib2) j
                end
          end
      end
  end.

Fixpoint size (t : tree) : nat := match t with Node _ k => S (list_sum (map size k)) end.
(** the comparison of two answers *)
Definition same_answer (student answer : tree) : option bool := fst <$> compare_tree (size student) None 1 student [] [answer] 0.

Definition leaf (n : string) : tree := Node n [].
Example turned : same_answer (Node "<" [leaf "a"; leaf "b"]) (Node ">" [leaf "b"; leaf "a"]) = Some true.
Proof. by vm_compute. Qed.
Example turned_le : same_answer (Node "<=" [leaf "a"; leaf "b"]) (Node ">=" [leaf "b"; leaf "a"]) = Some true.
Proof. by vm_compute. Qed.
Example commuted : same_answer (Node "+" [leaf "a"; Node "*" [leaf "b"; leaf "c"]; leaf "d"]) (Node "+" [Node "*" [leaf "c"; leaf "b"]; leaf "d"; leaf "a"]) = Some true.
Proof. by vm_compute. Qed.
Example minus_not : same_answer (Node "-" [leaf "a"; leaf "b"]) (Node "-" [leaf "b"; leaf "a"]) = Some false.
Proof. by vm_compute. Qed.
(** an operand that occurs twice *)
Example twice : same_answer (Node "+" [leaf "a"; leaf "a"]) (Node "+" [leaf "a"; leaf "b"]) = Some true.
Proof. by vm_compute. Qed.
(** a relation against an answer that is none *)
Example crash : same_answer (Node "<" [leaf "a"; leaf "b"]) (leaf "a") = None.
Proof. by vm_compute. Qed.
