(* ===== verification/BlankSpec.v ===== *)
(** * When two fill-in answers count as the same

    Expressions up to the order of the operands of commutative operators and
    relations turned around, and the proof that [compare_tree] decides this for
    expressions in which no operand of an operator occurs twice. *)

From S2P Require Import Prelude Blank.
Local Open Scope string_scope.

(** ** Equivalent expressions *)

(** the operands [k] of [m], as operands [k'] of [n] *)
Definition rearranged (n m : string) (k k' : list tree) : Prop :=
  (m = n /\ k' = k) \/
  (m = n /\ associative n = true /\ k ≡ₚ k') \/
  (m = n /\ equality n = true /\ exists a b, k = [a; b] /\ k' = [b; a]) \/
  (relational n = true /\ m = turn_name n /\ exists a b, k = [a; b] /\ k' = [b; a]).

Inductive eqv : tree -> tree -> Prop :=
| eqv_node n m k1 k2 k2' : rearranged n m k2 k2' -> Forall2 eqv k1 k2' -> eqv (Node n k1) (Node m k2).

Lemma relational_cases n : relational n = true -> n = "<" \/ n = ">" \/ n = "<=" \/ n = ">=".
Proof. unfold relational. rewrite bool_decide_eq_true, !elem_of_cons, elem_of_nil. tauto. Qed.
Lemma equality_cases n : equality n = true -> n = "==" \/ n = "!=".
Proof. unfold equality. rewrite bool_decide_eq_true, !elem_of_cons, elem_of_nil. tauto. Qed.
Lemma turn_turn n : relational n = true -> relational (turn_name n) = true /\ turn_name (turn_name n) = n /\ turn_name n <> n.
Proof. intros H. destruct (relational_cases n H) as [E|[E|[E|E]]]; subst; by vm_compute. Qed.
Lemma equality_only n : equality n = true -> associative n = false /\ relational n = false.
Proof. intros H. destruct (equality_cases n H) as [E|E]; subst; by vm_compute. Qed.
Lemma relational_only n : relational n = true -> associative n = false /\ equality n = false.
Proof. intros H. destruct (relational_cases n H) as [E|[E|[E|E]]]; subst; by vm_compute. Qed.

Lemma rearranged_refl n k : rearranged n n k k.
Proof. by left. Qed.
Lemma rearranged_sym n m k k' : rearranged n m k k' -> rearranged m n k' k.
Proof.
  intros [[-> ->]|[(-> & H & P)|[(-> & H & a & b & -> & ->)|(H & -> & a & b & -> & ->)]]].
  - by left. - right; left. done. - right; right; left. eauto 6.
  - right; right; right. destruct (turn_turn n H) as (H1 & H2 & _). eauto 6.
Qed.
Lemma rearranged_trans n m p k k1 k2 : rearranged m p k k1 -> rearranged n m k1 k2 -> rearranged n p k k2.
Proof.
  intros [[-> ->]|[(-> & H & P)|[(-> & H & a & b & -> & ->)|(H & -> & a & b & -> & ->)]]]; [done| | |].
  - intros [[-> ->]|[(-> & H' & P')|[(-> & H' & _)|(H' & -> & _)]]].
    + right; left. done. + right; left. split_and!; [done..|]. by etrans.
    + by destruct (equality_only _ H') as [E _]; rewrite E in H.
    + by destruct (relational_only _ (proj1 (turn_turn _ H'))) as [E _]; rewrite E in H.
  - intros [[-> ->]|[(-> & H' & P')|[(-> & H' & a' & b' & [= <- <-] & ->)|(H' & -> & _)]]].
    + right; right; left. eauto 6. + by destruct (equality_only _ H) as [E _]; rewrite E in H'. + by left.
    + by destruct (equality_only _ H) as [_ E]; rewrite (proj1 (turn_turn _ H')) in E.
  - intros [[-> ->]|[(-> & H' & P')|[(-> & H' & _)|(H' & E & a' & b' & [= <- <-] & ->)]]].
    + right; right; right. eauto 6. + by destruct (relational_only _ H) as [E _]; rewrite E in H'. + by destruct (relational_only _ H) as [_ E]; rewrite E in H'.
    + left. split; [|done]. subst m. apply turn_turn, H'.
Qed.

Lemma perm_Forall2 {A} (R : A -> A -> Prop) k k' l : k ≡ₚ k' -> Forall2 R k l -> exists l', l ≡ₚ l' /\ Forall2 R k' l'.
Proof.
  intros P. revert l. induction P as [|x k k' P IH|x y k|k1 k2 k3 P1 IH1 P2 IH2]; intros l F.
  - by exists l.
  - inversion F as [|? y ? l0 Hx F']; subst. destruct (IH l0 F') as (l' & Q1 & Q2). exists (y :: l'). split; [by constructor | by constructor].
  - inversion F as [|? u ? l0 Hx F']; subst. inversion F' as [|? v ? l1 Hy F'']; subst. exists (v :: u :: l1). split; [constructor | by repeat constructor].
  - destruct (IH1 l F) as (l1 & Q1 & Q2). destruct (IH2 l1 Q2) as (l2 & Q3 & Q4). exists l2. split; [by etrans | done].
Qed.
Lemma rearranged_Forall2 (R : tree -> tree -> Prop) n m k k' l : rearranged n m k k' -> Forall2 R k l -> exists l', rearranged n m l l' /\ Forall2 R k' l'.
Proof.
  intros [[-> ->]|[(-> & H & P)|[(-> & H & a & b & -> & ->)|(H & -> & a & b & -> & ->)]]] F.
  - exists l. by split; [left|].
  - destruct (perm_Forall2 R k k' l P F) as (l' & Q1 & Q2). exists l'. by split; [right; left|].
  - inversion F as [|? u ? l0 Hx F']; subst. inversion F' as [|? v ? l1 Hy F'']; subst. inversion F''; subst.
    exists [v; u]. split; [right; right; left; eauto 6 | by repeat constructor].
  - inversion F as [|? u ? l0 Hx F']; subst. inversion F' as [|? v ? l1 Hy F'']; subst. inversion F''; subst.
    exists [v; u]. split; [right; right; right; eauto 6 | by repeat constructor].
Qed.

Lemma tree_induction (P : tree -> Prop) : (forall n k, Forall P k -> P (Node n k)) -> forall t, P t.
Proof.
  intros H. fix IH 1. intros [n k]. apply H. induction k as [|t k IHk]; constructor; [apply IH | exact IHk].
Qed.

Lemma eqv_refl t : eqv t t.
Proof. induction t as [n k IH] using tree_induction. eapply eqv_node; [apply rearranged_refl|]. induction IH; by constructor. Qed.

Lemma eqv_sym t1 : forall t2, eqv t1 t2 -> eqv t2 t1.
Proof.
  induction t1 as [n k1 IH] using tree_induction. intros t2 E. inversion E as [? m ? k2 k2' Hr F]; subst.
  assert (Forall2 eqv k2' k1) as F'.
  { clear E Hr. revert k2' F. induction IH as [|x k1 Hx _ IHk]; intros k2' F; inversion F; subst; constructor; auto. }
  destruct (rearranged_Forall2 eqv _ _ _ _ _ (rearranged_sym _ _ _ _ Hr) F') as (l & Hl & Fl). by eapply eqv_node.
Qed.

Lemma eqv_trans t1 : forall t2 t3, eqv t1 t2 -> eqv t2 t3 -> eqv t1 t3.
Proof.
  induction t1 as [n k1 IH] using tree_induction. intros t2 t3 E12 E23. inversion E12 as [? m ? k2 k2' Hr F]; subst.
  inversion E23 as [? p ? k3 k3' Hr' F']; subst. destruct (rearranged_Forall2 eqv _ _ _ _ _ Hr F') as (l & Hl & Fl).
  eapply eqv_node; [by eapply rearranged_trans|]. clear E12 E23 Hr Hr' Hl F'. revert k2' l F Fl.
  induction IH as [|x k1 Hx _ IHk]; intros k2' l F Fl; inversion F; subst; inversion Fl; subst; constructor; eauto.
Qed.
#[export] Instance eqv_equivalence : Equivalence eqv.
Proof. split; [intros t; apply eqv_refl | intros t1 t2; apply eqv_sym | intros t1 t2 t3; apply eqv_trans]. Qed.

(** ** Expressions that the comparison is right about *)

(** no operand of a commutative operator occurs twice; a comparison has two *)
Inductive proper : tree -> Prop :=
| proper_node n k : (associative n = true -> ForallOrdPairs (fun x y => ~ eqv x y) k) ->
    (equality n = true -> k = [] \/ length k = 2%nat) -> Forall proper k -> proper (Node n k).
(** wherever the comparison turns a relation around, it finds one *)
Inductive tame : tree -> tree -> Prop :=
| tame_node n1 k1 n2 k2 : (relational n1 = true -> n1 = n2 \/ (relational n2 = true /\ length k2 = 2%nat)) ->
    (forall x y, x ∈ k1 -> y ∈ k2 -> tame x y) -> tame (Node n1 k1) (Node n2 k2).

(** what the comparison may make of the second tree *)
Definition same (t t' : tree) : Prop := eqv t t' /\ forall x, tame x t -> tame x t'.
#[export] Instance same_refl : Reflexive same.
Proof. intros t. by split. Qed.
#[export] Instance same_trans : Transitive same.
Proof. intros t1 t2 t3 [E1 T1] [E2 T2]. split; [by etrans | auto]. Qed.

Lemma tame_kids n k k' x m : tame x (Node n k) -> (relational (name_of x) = true -> name_of x = m \/ (relational m = true /\ length k' = 2%nat)) ->
  (forall y', y' ∈ k' -> exists y, y ∈ k /\ same y y') -> tame x (Node m k').
Proof.
  intros T Hn Hk. inversion T as [n1 k1 ? ? H1 H2]; subst. constructor; [exact Hn|].
  intros u v Hu Hv. destruct (Hk v Hv) as (y & Hy & _ & Hs). by apply Hs, H2.
Qed.

Lemma same_node n k k' : Forall2 same k k' -> same (Node n k) (Node n k').
Proof.
  intros F. split.
  - eapply eqv_node; [apply rearranged_refl|]. eapply Forall2_impl; [exact F|]. by intros x y [? _].
  - intros x T. eapply tame_kids; [exact T | |].
    + inversion T as [? ? ? ? H1 _]; subst. cbn. by rewrite <- (Forall2_length _ _ _ F).
    + intros y' Hy'. apply list_elem_of_lookup in Hy' as [i Hi]. destruct (Forall2_lookup_r _ _ _ _ _ F Hi) as (y & Hy & Hs).
      exists y. split; [by eapply list_elem_of_lookup_2 | done].
Qed.

Lemma elem2 {A} (x a b : A) : x ∈ [a; b] -> x = a \/ x = b.
Proof. rewrite !elem_of_cons, elem_of_nil. tauto. Qed.
Lemma swapped_kids a b y : y ∈ [b; a] -> exists x, x ∈ [a; b] /\ same x y.
Proof. intros Hy. exists y. split; [|done]. apply elem2 in Hy as [->| ->]; rewrite !elem_of_cons; tauto. Qed.

(** turned around *)
Lemma same_turned n a b : relational n = true -> same (Node n [a; b]) (Node (turn_name n) [b; a]).
Proof.
  intros H. split.
  - eapply (eqv_node _ _ _ _ [a; b]); [right; right; right; eauto 6 | by repeat constructor].
  - intros x T. eapply tame_kids; [exact T | | apply swapped_kids]. intros _. right. split; [by apply turn_turn | done].
Qed.
Lemma same_swapped n a b : equality n = true -> same (Node n [a; b]) (Node n [b; a]).
Proof.
  intros H. split.
  - eapply (eqv_node _ _ _ _ [a; b]); [right; right; left; eauto 6 | by repeat constructor].
  - intros x T. eapply tame_kids; [exact T | | apply swapped_kids]. by inversion T as [? ? ? ? H1 _]; subst.
Qed.

(** ** Operands that are matched one by one *)

Lemma kids_assoc n k1 k2 : associative n = true -> ForallOrdPairs (fun x y => ~ eqv x y) k1 -> length k1 = length k2 ->
  (eqv (Node n k1) (Node n k2) <-> forall x, x ∈ k1 -> exists y, y ∈ k2 /\ eqv x y).
Proof.
  intros Ha Hd Hl. split.
  - intros E. inversion E as [? ? ? ? k2' Hr F]; subst. assert (k2 ≡ₚ k2') as P.
    { destruct Hr as [[_ ->]|[(_ & _ & P)|[(_ & H & _)|(H & _)]]]; [done | done | |].
      - destruct (equality_only _ H); congruence. - destruct (relational_only _ H); congruence. }
    intros x Hx. apply list_elem_of_lookup in Hx as [i Hi]. destruct (Forall2_lookup_l _ _ _ _ _ F Hi) as (y & Hy & Hxy).
    exists y. split; [|done]. rewrite P. by eapply list_elem_of_lookup_2.
  - intros Hm. assert (exists k2', k2 ≡ₚ k2' /\ Forall2 eqv k1 k2') as (k2' & P & F); [|eapply eqv_node; [right; left; done | done]].
    revert k2 Hl Hm. induction Hd as [|x k1 Hx Hd IH]; intros k2 Hl Hm.
    + destruct k2; [by exists [] | done].
    + destruct (Hm x ltac:(by apply elem_of_cons; left)) as (y & Hy & Hxy). apply elem_of_Permutation in Hy as [k2' P].
      destruct (IH k2') as (k3 & P3 & F3).
      * apply Permutation_length in P. cbn in *. lia.
      * intros z Hz. destruct (Hm z ltac:(by apply elem_of_cons; right)) as (w & Hw & Hzw). exists w. split; [|done].
        rewrite P in Hw. apply elem_of_cons in Hw as [->|Hw]; [|done]. exfalso. rewrite Forall_forall in Hx. apply (Hx z Hz).
        etrans; [exact Hxy | by symmetry].
      * exists (y :: k3). split; [by rewrite P, P3 | by constructor].
Qed.

Lemma kids_pairs n k1 k2 : associative n = false -> equality n = false -> (eqv (Node n k1) (Node n k2) <-> Forall2 eqv k1 k2).
Proof.
  intros Ha He. split.
  - intros E. inversion E as [? ? ? ? k2' Hr F]; subst. destruct Hr as [[_ ->]|[(_ & H & _)|[(_ & H & _)|(H & E' & _)]]]; [done | congruence | congruence |].
    by destruct (turn_turn _ H) as (_ & _ & []).
  - intros F. by eapply eqv_node; [apply rearranged_refl|].
Qed.

Lemma kids_equality n a b c d : equality n = true -> (eqv (Node n [a; b]) (Node n [c; d]) <-> (eqv a c /\ eqv b d) \/ (eqv a d /\ eqv b c)).
Proof.
  intros He. destruct (equality_only _ He) as [Ha Hr]. split.
  - intros E. inversion E as [? ? ? ? k2' Hrr F]; subst. destruct Hrr as [[_ ->]|[(_ & H & _)|[(_ & H & u & v & [= <- <-] & ->)|(H & _)]]]; try congruence.
    + inversion F as [|? ? ? ? H1 F']; subst. inversion F' as [|? ? ? ? H2 F'']; subst. by left.
    + inversion F as [|? ? ? ? H1 F']; subst. inversion F' as [|? ? ? ? H2 F'']; subst. by right.
  - intros [[H1 H2]|[H1 H2]].
    + eapply eqv_node; [apply rearranged_refl | by repeat constructor].
    + eapply (eqv_node _ _ _ _ [d; c]); [right; right; left; eauto 6 | by repeat constructor].
Qed.

(** ** The comparison *)

(** [root1] with its following siblings against the second ones, from position [j] *)
Definition matches (above : option string) (count1 : nat) (root1 : tree) (next1 sib2 : list tree) (j : nat) : Prop :=
  (exists root2, sib2 !! j = Some root2 /\ eqv root1 root2) /\
  (next1 = [] \/
   (count1 = length sib2 /\
    match above with
    | None => False
    | Some op => if associative op then (forall x, x ∈ next1 -> exists y, y ∈ sib2 /\ eqv x y) else Forall2 eqv next1 (drop (S j) sib2)
    end)).

Lemma same_lookup sib sib' j t' : Forall2 same sib sib' -> sib' !! j = Some t' -> exists t, sib !! j = Some t /\ same t t'.
Proof. intros F E. apply (Forall2_lookup_r _ _ _ _ _ F E). Qed.

Lemma same_lists sib sib' : Forall2 same sib sib' -> Forall2 eqv sib sib' /\ length sib = length sib'.
Proof. intros F. split; [|by eapply Forall2_length]. eapply Forall2_impl; [exact F|]. by intros x y [? _]. Qed.

Lemma Forall2_eqv_iff l k k' : Forall2 eqv k k' -> (Forall2 eqv l k <-> Forall2 eqv l k').
Proof.
  intros F. split; intros G.
  - revert k' F. induction G as [|x y l k Hxy _ IH]; intros k' F; inversion F; subst; constructor; [by etrans | by apply IH].
  - revert l G. induction F as [|x y k k' Hxy _ IH]; intros l G; inversion G; subst; constructor; [by etrans; [|symmetry] | by apply IH].
Qed.

Lemma matches_same above c r n sib sib' j : Forall2 same sib sib' -> matches above c r n sib' j <-> matches above c r n sib j.
Proof.
  intros F. destruct (same_lists _ _ F) as [F' El]. unfold matches. rewrite El.
  assert ((exists t, sib' !! j = Some t /\ eqv r t) <-> (exists t, sib !! j = Some t /\ eqv r t)) as ->.
  { split; intros (t & Et & Er).
    - destruct (same_lookup _ _ _ _ F Et) as (u & Eu & [Hs _]). exists u. split; [done | by etrans; [|symmetry]].
    - destruct (Forall2_lookup_l _ _ _ _ _ F Et) as (u & Eu & [Hs _]). exists u. split; [done | by etrans]. }
  assert (forall x, (exists y, y ∈ sib' /\ eqv x y) <-> (exists y, y ∈ sib /\ eqv x y)) as Em.
  { intros x. split; intros (y & Hy & Hxy); apply list_elem_of_lookup in Hy as [i Hi].
    - destruct (same_lookup _ _ _ _ F Hi) as (u & Eu & [Hs _]). exists u. split; [by eapply list_elem_of_lookup_2 | by etrans; [|symmetry]].
    - destruct (Forall2_lookup_l _ _ _ _ _ F Hi) as (u & Eu & [Hs _]). exists u. split; [by eapply list_elem_of_lookup_2 | by etrans]. }
  assert (Forall2 eqv n (drop (S j) sib') <-> Forall2 eqv n (drop (S j) sib)) as Ed.
  { symmetry. apply Forall2_eqv_iff. by apply Forall2_drop. }
  destruct above as [op|]; [|done]. destruct (associative op); [by setoid_rewrite Em | by rewrite Ed].
Qed.

(** the loop over the siblings *)
Lemma some_sibling_ok cmp (M : nat -> Prop) sib0 : forall left sib j, Forall2 same sib0 sib -> (j + left <= length sib0)%nat ->
  (forall sib i, Forall2 same sib0 sib -> (i < length sib0)%nat -> exists b sib', cmp sib i = Some (b, sib') /\ Forall2 same sib sib' /\ (b = true <-> M i)) ->
  exists b sib', some_sibling cmp left sib j = Some (b, sib') /\ Forall2 same sib0 sib' /\ (b = true <-> exists i, (j <= i < j + left)%nat /\ M i).
Proof.
  induction left as [|left IH]; intros sib j F Hj Hc; cbn [some_sibling].
  - exists false, sib. split_and!; [done | done |]. split; [done|]. intros (i & Hi & _). lia.
  - destruct (Hc sib j F ltac:(lia)) as (b & sib' & -> & F' & Hb). assert (Forall2 same sib0 sib') as F2 by (by etrans).
    destruct b.
    + exists true, sib'. split_and!; [done | done |]. split; [|done]. intros _. exists j. split; [lia | by apply Hb].
    + destruct (IH sib' (S j) F2 ltac:(lia) Hc) as (b & sib2 & -> & F3 & Hb2). exists b, sib2. split_and!; [done | done |]. rewrite Hb2.
      split; intros (i & Hi & Hm).
      * exists i. split; [lia | done].
      * exists i. split; [|done]. destruct (decide (i = j)) as [->|]; [|lia]. by apply Hb in Hm.
Qed.

Lemma Forall2_pair {A} (R : A -> A -> Prop) a b c d : Forall2 R [a; b] [c; d] <-> R a c /\ R b d.
Proof.
  split; [|intros [? ?]; by repeat constructor].
  intros F. inversion F as [|? ? ? ? H1 F']; subst. by inversion F'; subst.
Qed.

Definition forest (l : list tree) : nat := list_sum (map size l).
Lemma forest_node n k l : forest (Node n k :: l) = S (forest k + forest l).
Proof. done. Qed.
Definition correct (fuel : nat) : Prop := forall above count1 r n sib j,
  (forest (r :: n) <= fuel)%nat -> Forall proper (r :: n) -> (forall x y, x ∈ r :: n -> y ∈ sib -> tame x y) ->
  (n <> [] -> above <> None) -> (forall op, above = Some op -> associative op = false -> count1 = (j + 1 + length n)%nat) ->
  exists b sib', compare_tree fuel above count1 r n sib j = Some (b, sib') /\ Forall2 same sib sib' /\ (b = true <-> matches above count1 r n sib j).

Lemma tame_same x sib sib' : Forall2 same sib sib' -> (forall y, y ∈ sib -> tame x y) -> forall y, y ∈ sib' -> tame x y.
Proof.
  intros F T y' Hy. apply list_elem_of_lookup in Hy as [i Hi]. destruct (same_lookup _ _ _ _ F Hi) as (y & Ey & _ & Hs).
  apply Hs, T. by eapply list_elem_of_lookup_2.
Qed.

(** the first operand and those after it against a list of the same length *)
Lemma matches_pairs n c cs k : length (c :: cs) = length k -> associative n = false ->
  matches (Some n) (length (c :: cs)) c cs k 0 <-> Forall2 eqv (c :: cs) k.
Proof.
  intros El Ha. unfold matches. rewrite Ha, El. destruct k as [|d ds]; [done|]. cbn [lookup list_lookup drop]. split.
  - intros [(t & [= <-] & H1) H2]. constructor; [done|]. destruct H2 as [->|[_ H2]]; [|done]. destruct ds; [constructor | done].
  - intros F. inversion F; subst. split; [by eexists | by right].
Qed.

Lemma matches_assoc n c cs k j : length (c :: cs) = length k -> associative n = true ->
  matches (Some n) (length (c :: cs)) c cs k j <-> (exists y, k !! j = Some y /\ eqv c y) /\ forall x, x ∈ cs -> exists y, y ∈ k /\ eqv x y.
Proof.
  intros El Ha. unfold matches. rewrite Ha. split; intros [H1 H2]; (split; [done|]).
  - destruct H2 as [->|[_ H2]]; [|done]. intros x Hx. by apply elem_of_nil in Hx.
  - by right.
Qed.

Lemma compare_kids_ok fuel n k1 k2 : correct fuel -> (forest k1 <= fuel)%nat -> proper (Node n k1) -> (forall x y, x ∈ k1 -> y ∈ k2 -> tame x y) ->
  length k1 = length k2 ->
  exists b k2', compare_kids (compare_tree fuel (Some n) (length k1)) n k1 k2 = Some (b, k2') /\ same (Node n k2) (Node n k2') /\
    (b = true <-> eqv (Node n k1) (Node n k2)).
Proof.
  intros IH Hf Hp Ht El. inversion Hp as [? ? Hdist Heq Hkids]; subst. destruct k1 as [|c cs]; cbn [compare_kids].
  { destruct k2; [|done]. exists true, []. split_and!; [done | done |]. split; [intros _; reflexivity | done]. }
  assert (forall k j, (forall x y, x ∈ c :: cs -> y ∈ k -> tame x y) -> (associative n = false -> j = 0%nat) ->
    exists b k', compare_tree fuel (Some n) (length (c :: cs)) c cs k j = Some (b, k') /\ Forall2 same k k' /\
      (b = true <-> matches (Some n) (length (c :: cs)) c cs k j)) as Hrun.
  { intros k j T Hj. apply IH; [done | done | done | done |]. intros op [= <-] Ha. rewrite Hj by done. cbn. lia. }
  destruct (equality n) eqn:En.
  - destruct (equality_only _ En) as [Ha _]. destruct (Heq eq_refl) as [|El1]; [done|].
    destruct cs as [|d [|]]; try done. destruct k2 as [|u [|v [|]]]; try done. clear El El1.
    destruct (Hrun [u; v] 0%nat) as (b & k' & -> & F & Hb); [done | done|]. rewrite matches_pairs, Forall2_pair in Hb by done. destruct b.
    + exists true, k'. split_and!; [done | by apply same_node |]. rewrite kids_equality by done. tauto.
    + inversion F as [|? u' ? k1 Hu F1]; subst. inversion F1 as [|? v' ? k3 Hv F2]; subst. inversion F2; subst. cbn [change_sibling kids_of].
      destruct (Hrun [v'; u'] 0%nat) as (b & k'' & -> & F' & Hb'); [| done |].
      { intros x y Hx Hy. apply elem2 in Hy as [->| ->]; [apply Hv | apply Hu]; (apply Ht; [done|]); rewrite ?elem_of_cons; tauto. }
      rewrite matches_pairs, Forall2_pair in Hb' by done. exists b, k''. split_and!; [done | |].
      * etrans; [by apply same_node|]. etrans; [by apply same_swapped | by apply same_node].
      * rewrite Hb', kids_equality by done. rewrite <- (proj1 Hu), <- (proj1 Hv). split; [by right|]. intros [H|H]; [by apply Hb in H | done].
  - destruct (associative n) eqn:Ea.
    + destruct (some_sibling_ok (compare_tree fuel (Some n) (length (c :: cs)) c cs) (matches (Some n) (length (c :: cs)) c cs k2) k2 (length k2) k2 0)
        as (b & k' & -> & F & Hb); [done | lia | |].
      { intros k i F _. destruct (Hrun k i) as (b & k' & H1 & H2 & H3); [|congruence|].
        - intros x y Hx. apply (tame_same x k2 k F). intros z Hz. by apply Ht.
        - exists b, k'. split_and!; [done | done |]. rewrite H3. by apply matches_same. }
      exists b, k'. split_and!; [done | by apply same_node |]. rewrite Hb, kids_assoc by auto. split.
      * intros (i & _ & Hm). apply matches_assoc in Hm as [(y & Hy & Hcy) Hm]; [|done..]. intros x Hx.
        apply elem_of_cons in Hx as [->|Hx]; [|by apply Hm]. exists y. split; [by eapply list_elem_of_lookup_2 | done].
      * intros Hm. destruct (Hm c ltac:(by apply elem_of_cons; left)) as (y & Hy & Hcy). apply list_elem_of_lookup in Hy as [i Hi].
        exists i. split; [apply lookup_lt_Some in Hi; lia|]. apply matches_assoc; [done | done |]. split; [by exists y|].
        intros x Hx. apply Hm. by apply elem_of_cons; right.
    + destruct (Hrun k2 0%nat) as (b & k' & -> & F & Hb); [done | done|]. exists b, k'.
      split_and!; [done | by apply same_node |]. by rewrite Hb, matches_pairs, kids_pairs.
Qed.

Lemma eqv_length n m k1 k2 : eqv (Node n k1) (Node m k2) -> length k1 = length k2.
Proof.
  intros E. inversion E as [? ? ? ? k2' Hr F]; subst. rewrite (Forall2_length _ _ _ F).
  destruct Hr as [[_ ->]|[(_ & _ & P)|[(_ & _ & a & b & -> & ->)|(_ & _ & a & b & -> & ->)]]]; [done | by rewrite P | done | done].
Qed.

(** the second node, turned around when the first one is another relation *)
Lemma turn_ok n1 k1 root2 : tame (Node n1 k1) root2 -> exists n2 k2,
  (if relational n1 && negb (bool_decide (n1 = name_of root2)) then change_sibling (Node (turn_name (name_of root2)) (kids_of root2)) else Some root2) =
    Some (Node n2 k2) /\ same root2 (Node n2 k2) /\ (n1 <> n2 -> ~ eqv (Node n1 k1) (Node n2 k2)).
Proof.
  intros T. inversion T as [? ? n0 k0 Hrel _]; subst. cbn [name_of kids_of].
  assert (forall n2, (relational n1 = true -> n1 <> n2 -> n2 <> turn_name n1) -> forall k2, n1 <> n2 -> ~ eqv (Node n1 k1) (Node n2 k2)) as Hno.
  { intros n2 Hr k2 Hne E. inversion E as [? ? ? ? k2' Hrr _]; subst. destruct Hrr as [[? _]|[(? & _)|[(? & _)|(H & ? & _)]]]; try congruence. by apply Hr. }
  destruct (relational n1) eqn:Er; cbn [andb].
  - destruct (bool_decide_reflect (n1 = n0)) as [->|Hne]; cbn [negb].
    + exists n0, k0. split_and!; [done | done|]. by intros [].
    + destruct (Hrel eq_refl) as [|[Hr0 El]]; [done|]. destruct k0 as [|a [|b [|]]]; try done. cbn [change_sibling].
      exists (turn_name n0), [b; a]. split_and!; [done | by apply same_turned |]. apply Hno. intros _ _ E.
      destruct (turn_turn n0 Hr0) as (_ & E1 & _), (turn_turn n1 Er) as (_ & E2 & _). congruence.
  - exists n0, k0. split_and!; [done | done|]. by apply Hno.
Qed.

Lemma compare_next_ok fuel above count1 r n sib j result : correct fuel -> (forest n <= fuel)%nat -> Forall proper n ->
  (forall x y, x ∈ n -> y ∈ sib -> tame x y) -> (n <> [] -> above <> None) ->
  (forall op, above = Some op -> associative op = false -> count1 = (j + 1 + length n)%nat) ->
  (result = true <-> exists t, sib !! j = Some t /\ eqv r t) ->
  exists b sib', compare_next (compare_tree fuel above count1) above count1 result n sib j = Some (b, sib') /\ Forall2 same sib sib' /\
    (b = true <-> matches above count1 r n sib j).
Proof.
  intros IH Hf Hp Ht Hab Hc Hres. unfold matches. setoid_rewrite <- Hres. destruct n as [|x xs]; cbn [compare_next].
  { exists result, sib. split_and!; [done | done |]. split; [by intros ->; split; [|left] | by intros [? _]]. }
  destruct (Nat.eqb_spec count1 (length sib)) as [Ec|Ec]; cbn [negb].
  2:{ exists false, sib. split_and!; [done | done |]. split; [done|]. by intros [_ [|[? _]]]. }
  destruct result; [|exists false, sib; split_and!; [done | done |]; split; [done | by intros [? _]]].
  destruct above as [op|]; [|by destruct (Hab ltac:(done))]. destruct (associative op) eqn:Ea.
  - destruct (some_sibling_ok (compare_tree fuel (Some op) count1 x xs) (matches (Some op) count1 x xs sib) sib (length sib) sib 0)
      as (b & sib' & -> & F & Hb); [done | lia | |].
    { intros k i F _. destruct (IH (Some op) count1 x xs k i) as (b & k' & H1 & H2 & H3); [done | done | | done | by intros ? [= <-]; rewrite Ea |].
      - intros u y Hu. apply (tame_same u sib k F). intros z Hz. by apply Ht.
      - exists b, k'. split_and!; [done | done |]. rewrite H3. by apply matches_same. }
    exists b, sib'. split_and!; [done | done |]. rewrite Hb. unfold matches. rewrite Ea. split.
    + intros (i & _ & (y & Hy & Hxy) & Hm). split; [done|]. right. split; [done|]. intros u Hu. apply elem_of_cons in Hu as [->|Hu].
      * exists y. split; [by eapply list_elem_of_lookup_2 | done].
      * destruct Hm as [->|[_ Hm]]; [by apply elem_of_nil in Hu | by apply Hm].
    + intros [_ [|[_ Hm]]]; [done|]. destruct (Hm x ltac:(by apply elem_of_cons; left)) as (y & Hy & Hxy). apply list_elem_of_lookup in Hy as [i Hi].
      exists i. split; [apply lookup_lt_Some in Hi; lia|]. split; [by exists y|]. right. split; [done|]. intros u Hu. apply Hm. by apply elem_of_cons; right.
  - specialize (Hc op eq_refl Ea). cbn in Hc.
    destruct (IH (Some op) count1 x xs sib (S j)) as (b & sib' & -> & F & Hb); [done | done | done | done | intros ? [= <-] _; lia |].
    exists b, sib'. split_and!; [done | done |]. rewrite Hb. unfold matches. rewrite Ea. split.
    + intros [(y & Hy & Hxy) Hm]. split; [done|]. right. split; [done|]. rewrite (drop_S _ _ _ Hy). constructor; [done|].
      destruct Hm as [->|[_ Hm]]; [|done]. rewrite drop_ge by (cbn in Hc; lia). constructor.
    + intros [_ [|[_ Hm]]]; [done|]. inversion Hm as [|? y ? ys Hxy Hm' E1 E2]; subst. symmetry in E2.
      assert (sib !! S j = Some y) as Hy by (rewrite <- (Nat.add_0_r (S j)), <- lookup_drop, E2; done).
      rewrite (drop_S _ _ _ Hy) in E2. injection E2 as <-. split; [by exists y | by right].
Qed.

Lemma same_insert sib j t t' : sib !! j = Some t -> same t t' -> Forall2 same sib (<[j := t']> sib).
Proof.
  intros E Hs. apply Forall2_same_length_lookup. split; [by rewrite length_insert|]. intros i u u' Eu Eu'. destruct (decide (i = j)) as [->|Hij].
  - rewrite list_lookup_insert_eq in Eu' by (by eapply lookup_lt_Some). congruence.
  - rewrite list_lookup_insert_ne in Eu' by done. rewrite Eu in Eu'. by injection Eu' as <-.
Qed.

Lemma compare_tree_ok fuel : correct fuel.
Proof.
  induction fuel as [|fuel IH]; intros above count1 [n1 k1] n sib j Hf Hp Ht Hab Hc; [cbn in Hf; lia|].
  cbn [compare_tree]. destruct (sib !! j) as [root2|] eqn:Ej.
  2:{ exists false, sib. split_and!; [done | done |]. split; [done|]. intros [(t & ? & _) _]. congruence. }
  assert (tame (Node n1 k1) root2) as T by (apply Ht; [by apply elem_of_cons; left | by eapply list_elem_of_lookup_2]).
  cbn [name_of kids_of]. destruct (turn_ok n1 k1 root2 T) as (n2 & k2 & -> & Hs & Hne).
  set (sib1 := <[j := Node n2 k2]> sib).
  assert (Forall2 same sib sib1) as F1.
  { by apply (same_insert sib j root2). }
  assert (sib1 !! j = Some (Node n2 k2)) as Ej1 by (apply list_lookup_insert_eq; by eapply lookup_lt_Some).
  assert (~ eqv (Node n1 k1) (Node n2 k2) -> false = true <-> matches above count1 (Node n1 k1) n sib j) as Hfalse.
  { intros Hno. split; [done|]. rewrite <- (matches_same _ _ _ _ _ _ _ F1). intros [(t & Et & E) _]. rewrite Ej1 in Et. injection Et as <-. contradiction. }
  destruct (bool_decide_reflect (n1 = n2)) as [<-|Hn]; cbn [negb].
  2:{ exists false, sib1. split_and!; [done | done |]. by apply Hfalse, Hne. }
  destruct (Nat.eqb_spec (length k1) (length k2)) as [El|El]; cbn [negb].
  2:{ exists false, sib1. split_and!; [done | done |]. apply Hfalse. intros E. by apply El, (eqv_length n1 n1). }
  rewrite forest_node in Hf. apply Forall_cons in Hp as [Hp1 Hp]. apply (proj2 Hs) in T. inversion T as [? ? ? ? _ Tk]; subst.
  destruct (compare_kids_ok fuel n1 k1 k2 IH) as (b & k2' & -> & Hs2 & Hb); [lia | done | done | done |].
  assert (Forall2 same sib1 (<[j := Node n1 k2']> sib1)) as F2.
  { by apply (same_insert sib1 j (Node n1 k2)). }
  set (sib2 := <[j := Node n1 k2']> sib1) in *. assert (Forall2 same sib sib2) as F12 by (by etrans).
  assert (sib2 !! j = Some (Node n1 k2')) as Ej2 by (apply list_lookup_insert_eq; by eapply lookup_lt_Some).
  destruct (compare_next_ok fuel above count1 (Node n1 k1) n sib2 j b IH) as (r & sib' & -> & F3 & Hr); [lia | done | | done | done | |].
  - intros x y Hx. apply (tame_same x sib sib2 F12). intros z Hz. apply Ht; [by apply elem_of_cons; right | done].
  - rewrite Hb, Ej2. split.
    + intros E. exists (Node n1 k2'). split; [done|]. etrans; [exact E | apply Hs2].
    + intros (t & [= <-] & E). etrans; [exact E | symmetry; apply Hs2].
  - exists r, sib'. split_and!; [done | by etrans |]. rewrite Hr. by apply matches_same.
Qed.

(** C13: the comparison of two fill-in answers.  When no operand of a commutative
    operator of the student's answer occurs twice, and relations of the student's
    meet relations only, the comparison ends without following a null pointer and
    accepts exactly the answers that differ in the order of the operands of
    commutative operators, in the sides of [==] and [!=], and in relations turned
    around. *)
Theorem same_answer_correct student answer :
  proper student -> tame student answer -> exists b, same_answer student answer = Some b /\ (b = true <-> eqv student answer).
Proof.
  intros Hp Ht. unfold same_answer.
  destruct (compare_tree_ok (size student) None 1%nat student [] [answer] 0%nat) as (b & sib' & -> & _ & Hb); [unfold forest; cbn; lia | by repeat constructor | | done | done |].
  - intros x y Hx Hy. rewrite elem_of_cons, elem_of_nil in Hx, Hy. destruct Hx as [->|[]], Hy as [->|[]]. done.
  - exists b. split; [done|]. rewrite Hb. unfold matches. cbn. split; [by intros [(t & [= <-] & E) _]|].
    intros E. split; [by exists answer | by left].
Qed.

Fixpoint tameb (t1 t2 : tree) : bool :=
  match t1, t2 with
  | Node n1 k1, Node n2 k2 =>
      (negb (relational n1) || bool_decide (n1 = n2) || (relational n2 && (length k2 =? 2)%nat)) &&
      forallb (fun x => forallb (tameb x) k2) k1
  end.
Lemma tameb_tame t1 : forall t2, tameb t1 t2 = true -> tame t1 t2.
Proof.
  induction t1 as [n1 k1 IH] using tree_induction. intros [n2 k2] E. cbn in E. apply andb_true_iff in E as [E1 E2].
  constructor.
  - intros Hr. rewrite Hr in E1. cbn in E1. apply orb_true_iff in E1 as [E1|E1]; [left; by apply bool_decide_eq_true in E1|].
    apply andb_true_iff in E1 as [E1 E3]. right. by apply Nat.eqb_eq in E3.
  - intros x y Hx Hy. rewrite Forall_forall in IH. apply IH; [done|]. rewrite forallb_forall in E2. specialize (E2 x (proj1 (list_elem_of_In _ _) Hx)).
    rewrite forallb_forall in E2. apply E2. by apply list_elem_of_In.
Qed.
Lemma eqv_names n m k1 k2 : eqv (Node n k1) (Node m k2) -> m = n \/ m = turn_name n.
Proof. intros E. inversion E as [? ? ? ? k2' Hr F]; subst. destruct Hr as [[? _]|[(? & _)|[(? & _)|(_ & ? & _)]]]; auto. Qed.

(** [a < b && c <= x*y], [y*x >= c && b > a] and [b > a && x*y < c] *)
Definition demo_student : tree := Node "&&" [Node "<" [leaf "a"; leaf "b"]; Node "<=" [leaf "c"; Node "*" [leaf "x"; leaf "y"]]].
Definition demo_answer : tree := Node "&&" [Node ">=" [Node "*" [leaf "y"; leaf "x"]; leaf "c"]; Node ">" [leaf "b"; leaf "a"]].
Definition demo_other : tree := Node "&&" [Node ">" [leaf "b"; leaf "a"]; Node "<" [Node "*" [leaf "x"; leaf "y"]; leaf "c"]].

Lemma proper_leaf n : proper (leaf n).
Proof. constructor; [constructor | by left | constructor]. Qed.
Lemma proper_two n a b : associative n = false \/ ~ eqv a b -> proper a -> proper b -> proper (Node n [a; b]).
Proof.
  intros H Ha Hb. constructor; [|by right | by repeat constructor]. intros E. destruct H as [H|H]; [congruence | by repeat constructor].
Qed.

Lemma same_answer_correct_witness : eqv demo_student demo_answer /\ ~ eqv demo_student demo_other.
Proof.
  assert (proper demo_student) as Hp.
  { apply proper_two; [right; intros E; apply eqv_names in E; destruct E as [E|E]; vm_compute in E; discriminate E | |].
    - apply proper_two; [by left | apply proper_leaf | apply proper_leaf].
    - apply proper_two; [by left | apply proper_leaf |]. apply proper_two; [| apply proper_leaf | apply proper_leaf].
      right. intros E. apply eqv_names in E. destruct E as [E|E]; vm_compute in E; discriminate E. }
  destruct (same_answer_correct demo_student demo_answer Hp) as (b1 & E1 & H1); [by apply tameb_tame|].
  destruct (same_answer_correct demo_student demo_other Hp) as (b2 & E2 & H2); [by apply tameb_tame|].
  vm_compute in E1. injection E1 as <-. vm_compute in E2. injection E2 as <-. split; [by apply H1|]. intros H. by apply H2 in H.
Defined.
