(* ===== verification/BlankTree.v ===== *)
(** * The tree of a fill-in answer ([make_tree] of [blank.c])

    The parser that builds the tree of an expression from its tokens, on a heap
    of nodes with the code's pointers: only a first operand points to its
    operator, the others to the operand before them.  A null pointer that is
    followed is [Panic]. *)

From S2P Require Import Prelude Blank.
Local Open Scope string_scope.

Definition operators : list (string * Z) :=
  [("(", 0); (")", 0); ("->", 1); ("*", 4); ("/", 3); ("%", 2); ("+", 6); ("-", 5); ("<", 7); ("<=", 7); (">", 7); (">=", 7);
   ("==", 8); ("!=", 8); ("&", 9); ("^", 10); ("|", 11); ("&&", 12); ("||", 13); ("=", 14); ("+=", 14); ("-=", 14); ("&=", 14); ("|=", 14)].
Definition get_precedence (op : string) : Z :=
  match filter (fun e => e.1 = op) (drop 2 operators) with e :: _ => e.2 | [] => 0 end.
Definition is_operator (op : string) : bool := existsb (fun e => bool_decide (e.1 = op)) operators.

Record node : Type := mknode {
  parentheses : Z; nname : string; parent : option nat; child_head : option nat; prev : option nat; next : option nat }.
Definition heap : Type := list node.

Definition set_parent (o : option nat) (x : node) : node := mknode (parentheses x) (nname x) o (child_head x) (prev x) (next x).
Definition set_child (o : option nat) (x : node) : node := mknode (parentheses x) (nname x) (parent x) o (prev x) (next x).
Definition set_prev (o : option nat) (x : node) : node := mknode (parentheses x) (nname x) (parent x) (child_head x) o (next x).
Definition set_next (o : option nat) (x : node) : node := mknode (parentheses x) (nname x) (parent x) (child_head x) (prev x) o.

(** what a pointer points to *)
Definition at_ (p : option nat) : M heap node := fun h =>
  match p with
  | None => Panic "null"
  | Some i => match h !! i with Some x => Ok (x, h) | None => Panic "null" end
  end.
Definition change (p : option nat) (f : node -> node) : M heap unit := fun h =>
  match p with
  | None => Panic "null"
  | Some i => match h !! i with Some x => Ok (tt, <[i := f x]> h) | None => Panic "null" end
  end.

Definition create_node (name : string) (parens : Z) : M heap (option nat) := fun h =>
  Ok (Some (length h), (h ++ [mknode parens name None None None None])%list).

(** to the first sibling *)
Fixpoint first_sibling (fuel : nat) (cur : option nat) : M heap (option nat) :=
  match fuel with
  | O => block
  | S fuel' => x ← at_ cur; match prev x with Some _ => first_sibling fuel' (prev x) | None => mret cur end
  end.
Fixpoint get_root (fuel : nat) (cur : option nat) : M heap (option nat) :=
  match fuel with
  | O => block
  | S fuel' =>
      match cur with
      | None => mret None
      | Some _ =>
          cur ← first_sibling fuel cur;
          x ← at_ cur;
          match parent x with Some _ => get_root fuel' (parent x) | None => mret cur end
      end
  end.
Fixpoint last_sibling (fuel : nat) (cur : option nat) : M heap (option nat) :=
  match fuel with
  | O => block
  | S fuel' => x ← at_ cur; match next x with Some _ => last_sibling fuel' (next x) | None => mret cur end
  end.
Definition get_last_child (fuel : nat) (cur : option nat) : M heap (option nat) :=
  x ← at_ cur; last_sibling fuel (match child_head x with Some _ => child_head x | None => cur end).

Fixpoint get_high_precedence_node (fuel : nat) (cur : option nat) (new : string) : M heap (option nat) :=
  match fuel with
  | O => block
  | S fuel' =>
      x ← at_ cur;
      if is_operator (nname x) && (get_precedence (nname x) <? get_precedence new)%Z then mret cur
      else
        match prev x with
        | Some _ => get_high_precedence_node fuel' (prev x) new
        | None =>
            match parent x with
            | None => mret cur
            | Some _ => get_high_precedence_node fuel' (parent x) new
            end
        end
  end.
Fixpoint most_high_loop (fuel : nat) (saved : option nat) (new : string) : M heap (option nat) :=
  match fuel with
  | O => block
  | S fuel' =>
      x ← at_ saved;
      match parent x with
      | None => mret saved
      | Some _ =>
          operator ← get_high_precedence_node fuel (match prev x with Some _ => prev x | None => parent x end) new;
          most_high_loop fuel' operator new
      end
  end.
Definition get_most_high_precedence_node (fuel : nat) (cur : option nat) (new : string) : M heap (option nat) :=
  operator ← get_high_precedence_node fuel cur new;
  most_high_loop fuel operator new.

Definition insert_node (old new : option nat) : M heap (option nat) :=
  x ← at_ old;
  (match prev x with
   | Some _ => change new (set_prev (prev x)) ;; change (prev x) (set_next new) ;; change old (set_prev None)
   | None => mret tt
   end) ;;
  change new (set_child old) ;;
  change old (set_parent new) ;;
  mret new.

Definition token (tokens : list string) (i : nat) : string := default "" (tokens !! i).

(** the operands of [new] after the last operand of [cur], which has the same
    operator; or [new] itself *)
Definition join_operands (fuel : nat) (cur new : option nat) : M heap (option nat) :=
  cur ← get_last_child fuel cur;
  x ← at_ new;
  (match child_head x with
   | Some _ =>
       let first := child_head x in
       y ← at_ first;
       change (parent y) (set_child None) ;; change first (set_parent None) ;;
       change first (set_prev cur) ;; change cur (set_next first)
   | None => mret tt
   end) ;;
  mret cur.
Definition append_operand (fuel : nat) (cur new : option nat) : M heap (option nat) :=
  cur ← get_last_child fuel cur;
  change cur (set_next new) ;; change new (set_prev cur) ;;
  mret new.

(** the operator after the parenthesis *)
Fixpoint operator_after (left : nat) (tokens : list string) (i : nat) : string :=
  let t := token tokens i in
  if bool_decide (t = "") || (is_operator t && negb (bool_decide (t = ")"))) then t
  else match left with O => "" | S left' => operator_after left' tokens (S i) end.

(** what follows a parenthesis that is no call *)
Definition join_group (fuel : nat) (tokens : list string) (idx : nat) (cur new : option nat) : M heap (option nat) :=
  match cur with
  | None => mret new
  | Some _ =>
      x ← at_ new; y ← at_ cur;
      let n := nname x in
      if bool_decide (n = nname y) then
        if bool_decide (n ∈ ["|"; "||"; "&"; "&&"]) then join_operands fuel cur new
        else if bool_decide (n ∈ ["+"; "*"]) then
          if (get_precedence (operator_after (length tokens) tokens idx) <? get_precedence n)%Z then append_operand fuel cur new
          else join_operands fuel cur new
        else append_operand fuel cur new
      else append_operand fuel cur new
  end.

(** an operand that is no group *)
Definition add_operand (fuel : nat) (t : string) (parens : Z) (cur : option nat) : M heap (option nat) :=
  new ← create_node t parens;
  match cur with
  | None => mret new
  | Some _ =>
      x ← at_ cur;
      match child_head x with
      | None => change cur (set_child new) ;; change new (set_parent cur) ;; mret new
      | Some _ => append_operand fuel cur new
      end
  end.

(** [new] above the last operand of [operator], if it has one *)
Definition above_last (fuel : nat) (cur operator new : option nat) : M heap (option nat) :=
  o ← at_ operator;
  match child_head o with
  | Some _ => last ← get_last_child fuel operator; insert_node last new
  | None => mret cur
  end.

(** back to the operator with this name, from [cur] *)
Fixpoint same_operator (fuel : nat) (operator : option nat) (t : string) : M heap (option nat) :=
  match fuel with
  | O => block
  | S fuel' =>
      x ← at_ operator;
      if is_operator (nname x) && bool_decide (nname x = t) then mret operator
      else match prev x with Some _ => same_operator fuel' (prev x) t | None => mret operator end
  end.

Definition add_associative (fuel : nat) (t : string) (parens : Z) (cur : option nat) : M heap (option nat) :=
  x ← at_ cur;
  if is_operator (nname x) && bool_decide (nname x = t) then mret cur
  else
    new ← create_node t parens;
    operator ← get_most_high_precedence_node fuel cur t;
    o ← at_ operator;
    match parent o, prev o with
    | None, None =>
        if (get_precedence (nname o) <? get_precedence t)%Z then insert_node operator new
        else if (get_precedence t <? get_precedence (nname o))%Z then above_last fuel cur operator new
        else
          operator ← same_operator fuel cur t;
          o ← at_ operator;
          let operator := if bool_decide (nname o = t) then operator else parent o in
          match operator with
          | None => mret cur
          | Some _ => o ← at_ operator; mret (if bool_decide (nname o = t) then operator else cur)
          end
    | _, _ => insert_node operator new
    end.

Definition add_operator (fuel : nat) (t : string) (parens : Z) (cur : option nat) : M heap (option nat) :=
  new ← create_node t parens;
  match cur with
  | None => mret new
  | Some _ =>
      operator ← get_most_high_precedence_node fuel cur t;
      o ← at_ operator;
      if (parens <? parentheses o)%Z then insert_node operator new
      else
        match parent o, prev o with
        | None, None => if (get_precedence t <? get_precedence (nname o))%Z then above_last fuel cur operator new else insert_node operator new
        | _, _ => insert_node operator new
        end
  end.

(** [make_tree]: the root and the position reached *)
Fixpoint make_tree (fuel : nat) (cur : option nat) (tokens : list string) (idx : nat) (parens : Z) : M heap (option nat * nat) :=
  match fuel with
  | O => block
  | S fuel' =>
      let t := token tokens idx in
      let go (cur : option nat) (idx : nat) := make_tree fuel' cur tokens (S idx) parens in
      if bool_decide (t = "") || bool_decide (t = ")") || bool_decide (t = ",") then root ← get_root fuel cur; mret (root, idx)
      else if bool_decide (t = "(") then
        let before := token tokens (pred idx) in
        if negb (idx =? 0)%nat && negb (is_operator before) && negb (bool_decide (before = ",")) then
          r ← call_args fuel' true cur tokens idx parens;
          go r.1 r.2
        else
          r ← make_tree fuel' None tokens (S idx) (parens + 1);
          cur ← join_group fuel tokens r.2 cur r.1;
          go cur r.2
      else if is_operator t then
        cur ← (if associative t then add_associative fuel t parens cur else add_operator fuel t parens cur);
        go cur idx
      else
        cur ← add_operand fuel t parens cur;
        go cur idx
  end
(** the arguments of a call *)
with call_args (fuel : nat) (fstart : bool) (cur : option nat) (tokens : list string) (idx : nat) (parens : Z) : M heap (option nat * nat) :=
  match fuel with
  | O => block
  | S fuel' =>
      let idx := S idx in
      if bool_decide (token tokens idx = ")") then mret (cur, idx)
      else
        r ← make_tree fuel' None tokens idx (parens + 1);
        r' ← (match r.1 with
              | None => mret (fstart, cur)
              | Some _ =>
                  (if fstart then change cur (set_child r.1) ;; change r.1 (set_parent cur)
                   else change cur (set_next r.1) ;; change r.1 (set_prev cur)) ;;
                  mret (false, r.1)
              end);
        if bool_decide (token tokens r.2 = ")") then mret (r'.2, r.2) else call_args fuel' r'.1 r'.2 tokens r.2 parens
  end.

(** the tree below a pointer, with the siblings after it *)
Fixpoint forest_of (fuel : nat) (h : heap) (p : option nat) : list tree :=
  match fuel, p with
  | S fuel', Some i => match h !! i with Some x => Node (nname x) (forest_of fuel' h (child_head x)) :: forest_of fuel' h (next x) | None => [] end
  | _, _ => []
  end.
Definition parse (tokens : list string) : option tree :=
  let fuel := (4 * length tokens + 8)%nat in
  match make_tree fuel None tokens 0 0 [] with
  | Ok ((p, _), h) => head (forest_of fuel h p)
  | _ => None
  end.

(** one character per token *)
Definition chars (s : string) : list string := (fun c => String.String c "") <$> String.list_ascii_of_string s.
(** two answers given as tokens *)
Definition answers_match (student answer : string) : option bool :=
  match parse (chars student), parse (chars answer) with
  | Some s, Some a => same_answer s a
  | _, _ => None
  end.

Example parse_call : parse (chars "a<f(x,y)+b") = Some (Node "<" [leaf "a"; Node "+" [Node "f" [leaf "x"; leaf "y"]; leaf "b"]]).
Proof. by vm_compute. Qed.
Example parse_left : parse (chars "a-b-c") = Some (Node "-" [Node "-" [leaf "a"; leaf "b"]; leaf "c"]).
Proof. by vm_compute. Qed.
Example match_commuted : answers_match "a*b+c>d" "d<b*a+c" = Some true.
Proof. by vm_compute. Qed.
Example match_group : answers_match "a-(b-c)" "a-b-c" = Some false.
Proof. by vm_compute. Qed.

(** parentheses before a tighter associative operator are lost *)
Example parentheses_lost : parse (chars "(a+b)*c") = parse (chars "a+b*c") /\ answers_match "(a+b)*c" "a+b*c" = Some true.
Proof. by vm_compute. Qed.
(** an operator of the same precedence goes below the first one of the line *)
Example grouped_right : parse (chars "a-b*c-d") = parse (chars "a-(b*c-d)") /\ answers_match "a-(b*c-d)" "a-b*c-d" = Some true.
Proof. by vm_compute. Qed.
(** a tighter operator takes the whole right side of an assignment or comparison *)
Example precedence_lost : parse (chars "a=b+c*d") = parse (chars "a=(b+c)*d") /\ answers_match "a=(b+c)*d" "a=b+c*d" = Some true.
Proof. by vm_compute. Qed.
(** a comparison that dies on a student's answer *)
Example answer_crashes : answers_match "a<b" "a" = None.
Proof. by vm_compute. Qed.
