(* ===== verification/Mkfs.v ===== *)
(** * The program that builds the first image ([mkfs.c])

    [mkfs.c] of the xv6-lazy-allocation-multilevel-fs kernel: the image file as
    sectors, inodes written one by one, files grown at their end, and at last
    the bitmap.  It has its own copy of what the kernel does ([ialloc],
    [balloc], [bmap], [writei]), over a disk without cache and log.

    The host is little-endian and its calls on the image file succeed; a sector
    past the end of the image cannot be read.  The host's files are an argument:
    the name, and what the calls of [read] return, [None] for a file that cannot
    be opened.  [exit(1)] and a failed [assert] are [Panic]; what is printed is
    left out.  A [struct dinode] is an [inode] with the cache's fields unused. *)

From S2P Require Import Prelude CStr Blocks Inode MlFs Dir.

Definition FSSIZE : Z := 2500000.
Definition NINODES : Z := 200.

Definition nbitmap : Z := FSSIZE / (BSIZE * 8) + 1.
Definition ninodeblocks : Z := NINODES / IPB + 1.
Definition nlog : Z := LOGSIZE.
Definition nmeta : Z := 2 + nlog + ninodeblocks + nbitmap.
Definition nblocks : Z := FSSIZE - nmeta.

(** the image file, the sectors that were never written being zero *)
Record image : Type := mkimage {
  im : gmap Z (list Z);
  im_len : Z;      (** sectors in the file *)
  freeinode : Z;
  freeblock : Z
}.

Definition set_im (f : gmap Z (list Z) -> gmap Z (list Z)) (m : image) : image :=
  mkimage (f (im m)) (im_len m) (freeinode m) (freeblock m).
Definition set_im_len (f : Z -> Z) (m : image) : image := mkimage (im m) (f (im_len m)) (freeinode m) (freeblock m).
Definition set_freeinode (f : Z -> Z) (m : image) : image := mkimage (im m) (im_len m) (f (freeinode m)) (freeblock m).
Definition set_freeblock (f : Z -> Z) (m : image) : image := mkimage (im m) (im_len m) (freeinode m) (f (freeblock m)).

Definition sector_of (m : image) (b : Z) : list Z := default zero_block (im m !! b).

(** [xint] and [xshort]: the bytes are stored least significant first and read
    by the host *)
Definition xint (x : Z) : Z := le_val (le_bytes 4 x).
Definition xshort (x : Z) : Z := le_val (le_bytes 2 x).

(** [sb] as [main] fills it *)
Definition mkfs_sb : superblock :=
  mksb (xint FSSIZE) (xint nblocks) (xint NINODES) (xint nlog) (xint 2) (xint (2 + nlog)) (xint (2 + nlog + ninodeblocks)).

Definition superblock_bytes (x : superblock) : list Z :=
  [sb_size x; sb_nblocks x; sb_ninodes x; sb_nlog x; sb_logstart x; sb_inodestart x; sb_bmapstart x] ≫= le_bytes 4.

(** where [lseek(fsfd, sec * BSIZE, 0)] goes *)
Definition position (sec : Z) : Z := u32 (sec * BSIZE) / BSIZE.

Definition wsect (sec : Z) (buf : list Z) : M image unit :=
  modify (set_im (fun x => <[position sec := buf]> x)) ;;
  modify (set_im_len (fun n => Z.max n (position sec + 1))).

Definition rsect (sec : Z) : M image (list Z) :=
  m ← get;
  if position sec <? im_len m then mret (sector_of m (position sec)) else panic "read".

Definition winode (inum : Z) (ip : inode) : M image unit :=
  let bn := IBLOCK inum mkfs_sb in
  buf ← rsect bn;
  wsect bn (splice buf (inum mod IPB * DINODE_SIZE) (dinode_bytes ip)).

Definition blank (inum : Z) : inode := mkinode ROOTDEV inum 1 false true 0 0 0 0 0 [].

Definition rinode (inum : Z) : M image inode :=
  buf ← rsect (IBLOCK inum mkfs_sb);
  mret (read_dinode buf (inum mod IPB * DINODE_SIZE) (blank inum)).

Definition ialloc (type : Z) : M image Z :=
  m ← get;
  let inum := freeinode m in
  modify (set_freeinode (fun n => u32 (n + 1))) ;;
  winode inum (mkinode ROOTDEV inum 1 false true (xshort type) 0 0 (xshort 1) (xint 0) (replicate (Z.to_nat NADDRS) 0)) ;;
  mret inum.

(** the inner loop of [balloc]: [k] bits from [i] *)
Fixpoint balloc_bits (k : nat) (i : Z) (buf : list Z) : list Z :=
  match k with
  | O => buf
  | S k' => balloc_bits k' (i + 1) (set_bit buf i)
  end.

Fixpoint balloc_loop (fuel : nat) (used b : Z) : M image unit :=
  match fuel with
  | O => block
  | S fuel' =>
      if b <? used then
        let n := if BPB <? used - b then BPB else used - b in
        wsect (xint (sb_bmapstart mkfs_sb) + b / BPB) (balloc_bits (Z.to_nat n) 0 zero_block) ;;
        balloc_loop fuel' used (b + BPB)
      else mret tt
  end.

Definition balloc (used : Z) : M image unit :=
  if used <? FSSIZE then balloc_loop (Z.to_nat (used / BPB + 2)) used 0 else panic "used < FSSIZE".

(** [xint(freeblock++)] *)
Definition new_block : M image Z :=
  m ← get;
  modify (set_freeblock (fun b => u32 (b + 1))) ;;
  mret (xint (freeblock m)).

Definition indexblock (parent index : Z) : M image Z :=
  if index <? NINDIRECT then
    entries ← rsect parent;
    if word entries index =? 0 then
      a ← new_block;
      wsect parent (set_word entries index a) ;;
      mret (xint (word (set_word entries index a) index))
    else mret (xint (word entries index))
  else panic "index < NINDIRECT".

(** [if(xint(din->addrs[k]) == 0) din->addrs[k] = xint(freeblock++)], and the
    address *)
Definition address (din : inode) (k : Z) : M image (Z * inode) :=
  if xint (i_addrs din !!! Z.to_nat k) =? 0 then
    a ← new_block;
    let din := with_addrs (<[Z.to_nat k := a]> (i_addrs din)) din in
    mret (xint (i_addrs din !!! Z.to_nat k), din)
  else mret (xint (i_addrs din !!! Z.to_nat k), din).

(** [appendblock]: the block and the changed [*din] *)
Definition appendblock (din : inode) (fbn : Z) : M image (Z * inode) :=
  if fbn <? MAXFILE then
    if fbn <? NDIRECT then address din fbn
    else
      let fbn := fbn - NDIRECT in
      if fbn <? NSINDIRECT * NINDIRECT then
        let index := fbn / NINDIRECT in
        let offset := fbn mod NINDIRECT in
        '(addr, din) ← address din (NDIRECT + index);
        addr ← indexblock addr offset;
        mret (addr, din)
      else
        let fbn := fbn - NSINDIRECT * NINDIRECT in
        if fbn <? NDINDIRECT * NDOUBLE then
          let index := fbn / NDOUBLE in
          let offset := fbn mod NDOUBLE in
          let first := offset / NINDIRECT in
          let second := offset mod NINDIRECT in
          '(addr, din) ← address din (NDIRECT + NSINDIRECT + index);
          addr ← indexblock addr first;
          addr ← indexblock addr second;
          mret (addr, din)
        else
          let fbn := fbn - NDINDIRECT * NDOUBLE in
          let first := fbn / NDOUBLE in
          let offset := fbn mod NDOUBLE in
          let second := offset / NINDIRECT in
          let third := offset mod NINDIRECT in
          '(addr, din) ← address din (NDIRECT + NSINDIRECT + NDINDIRECT);
          addr ← indexblock addr first;
          addr ← indexblock addr second;
          addr ← indexblock addr third;
          mret (addr, din)
  else panic "fbn < MAXFILE".

(** the copy loop of [iappend]: the final offset and [din] *)
Fixpoint iappend_loop (fuel : nat) (din : inode) (p : list Z) (off n : Z) : M image (Z * inode) :=
  match fuel with
  | O => block
  | S fuel' =>
      if 0 <? n then
        let fbn := off / BSIZE in
        '(x, din) ← appendblock din fbn;
        let n1 := Z.min n (u32 (u32 ((fbn + 1) * BSIZE) - off)) in
        buf ← rsect x;
        wsect x (splice buf (off - u32 (fbn * BSIZE)) (slice p 0 n1)) ;;
        iappend_loop fuel' din (drop (Z.to_nat n1) p) (u32 (off + n1)) (n - n1)
      else mret (off, din)
  end.

Definition iappend (inum : Z) (p : list Z) : M image unit :=
  din ← rinode inum;
  let n := Z.of_nat (length p) in
  let off := xint (i_size din) in
  '(off, din) ← iappend_loop (Z.to_nat (n / BSIZE + 3)) din p off n;
  winode inum (with_size (xint off) din).

(** one entry appended to the root directory *)
Definition add_entry (inum : Z) (name : list Z) : M image unit :=
  iappend ROOTINO (dirent_bytes (mkdirent (xshort (u16 inum)) (strncpy (Z.to_nat DIRSIZ) name))).

(** [while((cc = read(fd, buf, sizeof(buf))) > 0)] *)
Fixpoint add_chunks (inum : Z) (chunks : list (list Z)) : M image unit :=
  match chunks with
  | [] => mret tt
  | c :: chunks => iappend inum c ;; add_chunks inum chunks
  end.

(** the name without a leading underscore *)
Definition strip (name : list Z) : list Z :=
  match name with
  | c :: rest => if c =? 95 then rest else name
  | [] => []
  end.

Definition add_file (arg : list Z) (host : option (list (list Z))) : M image unit :=
  if bool_decide (SLASH ∈ arg) then panic "index(argv[i], '/') == 0"
  else
    match host with
    | None => panic "open"
    | Some chunks =>
        inum ← ialloc T_FILE;
        add_entry inum (strip arg) ;;
        add_chunks inum chunks
    end.

Fixpoint add_files (files : list (list Z * option (list (list Z)))) : M image unit :=
  match files with
  | [] => mret tt
  | (arg, host) :: files => add_file arg host ;; add_files files
  end.

(** [main], from the empty image file *)
Definition main (files : list (list Z * option (list (list Z)))) : M image unit :=
  modify (set_freeblock (fun _ => nmeta)) ;;
  modify (set_im_len (fun _ => FSSIZE)) ;;
  wsect 1 (splice zero_block 0 (superblock_bytes mkfs_sb)) ;;
  rootino ← ialloc T_DIR;
  if negb (rootino =? ROOTINO) then panic "rootino == ROOTINO"
  else
    add_entry rootino (str ".") ;;
    add_entry rootino (str "..") ;;
    add_files files ;;
    din ← rinode rootino;
    let off := xint (i_size din) in
    let off := u32 ((off / BSIZE + 1) * BSIZE) in
    winode rootino (with_size (xint off) din) ;;
    m ← get;
    balloc (freeblock m).

Definition empty_image : image := mkimage ∅ 0 1 0.
