(* ===== verification/MkfsSpec.v ===== *)
(** * What mkfs builds

    The image is followed against the kernel that will use it: a state of the
    kernel agrees with the image when it has the same blocks and its bitmap says
    what [freeblock] says.  Then [appendblock] does what the kernel's [bmap]
    does, and what mkfs writes is what the kernel reads. *)

From S2P Require Import Prelude Mkfs CStr Blocks Inode Index FileIo MlFs MlIo Dir.

Lemma mkfs_sb_eq : mkfs_sb = mksb 2500000 2499331 200 30 2 32 58.
Proof. by vm_compute. Qed.
Lemma nmeta_eq : nmeta = 669.
Proof. by vm_compute. Qed.
Lemma FSSIZE_eq : FSSIZE = 2500000.
Proof. done. Qed.
Lemma xint_small x : 0 <= x < 2 ^ 32 -> xint x = x.
Proof. apply le_val32. Qed.

Ltac sizes := rewrite ?nmeta_eq, ?FSSIZE_eq, ?mkfs_sb_eq in *; cbn [sb_size sb_inodestart sb_bmapstart sb_nlog] in *.

(** ** Sectors *)

Definition write_sector (b : Z) (d : list Z) (m : image) : image := set_im (fun x => <[b := d]> x) m.

Lemma sector_of_put m b d c : sector_of (write_sector b d m) c = if decide (b = c) then d else sector_of m c.
Proof. unfold sector_of, write_sector. cbn [im set_im]. rewrite lookup_insert. by case_decide. Qed.

Lemma position_id b : 0 <= b < FSSIZE -> position b = b.
Proof.
  intros Hb. sizes. unfold position. change BSIZE with 512. rewrite u32_small by lia. apply Z.div_mul. lia.
Qed.

Lemma rsect_ok b m : im_len m = FSSIZE -> 0 <= b < FSSIZE -> rsect b m = Ok (sector_of m b, m).
Proof.
  intros Hl Hb. unfold rsect, get, mbind, M_bind. rewrite position_id by done.
  destruct (Z.ltb_spec b (im_len m)); [done | lia].
Qed.

Lemma wsect_ok b d m : im_len m = FSSIZE -> 0 <= b < FSSIZE -> wsect b d m = Ok (tt, write_sector b d m).
Proof.
  intros Hl Hb. unfold wsect, modify, mbind, M_bind, write_sector. rewrite position_id by done. destruct m as [x n fi fb]. cbn in Hl. subst n.
  unfold set_im, set_im_len. cbn. rewrite Z.max_l by lia. done.
Qed.

(** ** A kernel state that agrees with the image *)

(** not a block of the bitmap *)
Definition plain (b : Z) : Prop := b < sb_bmapstart mkfs_sb \/ nmeta <= b.

Record sim (m : image) (s : fsys) : Prop := {
  s_sb : Blocks.sb s = mkfs_sb;
  s_geom : geom s;
  s_len : im_len m = FSSIZE;
  s_free : nmeta <= freeblock m <= FSSIZE;
  s_used : forall c, 0 <= c < FSSIZE -> used s c = (c <? freeblock m);
  s_blk : forall b, plain b -> block_of s b = sector_of m b;
  s_zero : forall b, freeblock m <= b \/ ~ plain b -> sector_of m b = zero_block
}.

Lemma BBLOCK_mkfs c : 0 <= c < FSSIZE -> sb_bmapstart mkfs_sb <= BBLOCK c mkfs_sb < nmeta.
Proof. intros Hc. unfold BBLOCK. change BPB with 4096. sizes. Z.div_mod_to_equations. lia. Qed.

Lemma BBLOCK_onto b : sb_bmapstart mkfs_sb <= b < nmeta -> exists c, 0 <= c < FSSIZE /\ BBLOCK c mkfs_sb = b.
Proof.
  intros Hb. exists ((b - sb_bmapstart mkfs_sb) * BPB). unfold BBLOCK. change BPB with 4096. sizes.
  rewrite Z.div_mul by lia. lia.
Qed.

Lemma plain_BBLOCK b c : 0 <= c < FSSIZE -> plain b -> b <> BBLOCK c mkfs_sb.
Proof. intros Hc [Hb|Hb] ->; pose proof (BBLOCK_mkfs c Hc); lia. Qed.

Section Agree.
Context (m : image) (s : fsys).
Hypothesis A : sim m s.

Lemma sim_size : sb_size (Blocks.sb s) = FSSIZE.
Proof using A. by rewrite (s_sb _ _ A), mkfs_sb_eq. Qed.

Lemma sim_small : small_disk s.
Proof using A. unfold small_disk. rewrite sim_size. sizes. lia. Qed.

(** the blocks of files, and those of the inodes *)
Lemma sim_data b : data_block s b <-> 0 < b < freeblock m /\ plain b.
Proof using A.
  pose proof (s_free _ _ A) as Hf. unfold data_block. rewrite sim_size, (s_sb _ _ A). split.
  - intros (H1 & H2 & H3). rewrite (s_used _ _ A) in H2 by lia. apply Z.ltb_lt in H2. split; [lia|].
    unfold plain. destruct (Z.lt_ge_cases b (sb_bmapstart mkfs_sb)); [by left|]. destruct (Z.lt_ge_cases b nmeta); [|by right].
    destruct (BBLOCK_onto b) as (c & Hc & E); [lia|]. by destruct (H3 c Hc).
  - intros [Hb Hp]. split; [lia|]. rewrite (s_used _ _ A) by lia. split; [by apply Z.ltb_lt; lia|].
    intros c Hc. by apply plain_BBLOCK.
Qed.

Lemma sim_read b : data_block s b -> rsect b m = Ok (block_of s b, m) /\ 0 <= b < FSSIZE.
Proof using A.
  intros Hb. apply sim_data in Hb as [Hb Hp]. pose proof (s_free _ _ A). split; [|lia].
  rewrite rsect_ok, (s_blk _ _ A); try done; [apply A | lia].
Qed.

Lemma sim_avail n : avail s n <-> Z.of_nat n <= FSSIZE - freeblock m.
Proof using A.
  pose proof (s_free _ _ A) as Hf. assert (0 <= freeblock m) as H0 by (sizes; lia). unfold avail. rewrite sim_size. split.
  - intros (l & <- & Hn & Hl). assert (l ⊆+ seqZ (freeblock m) (FSSIZE - freeblock m)) as Hs.
    { apply NoDup_submseteq; [done|]. intros b Hb. rewrite Forall_forall in Hl. destruct (Hl b Hb) as [Hr Hu].
      rewrite (s_used _ _ A) in Hu by done. apply Z.ltb_ge in Hu. apply elem_of_seqZ. lia. }
    apply submseteq_length in Hs. rewrite length_seqZ in Hs. lia.
  - intros Hn. exists (seqZ (freeblock m) (Z.of_nat n)). split_and!; [rewrite length_seqZ; lia | apply NoDup_seqZ |].
    apply Forall_forall. intros b Hb. apply elem_of_seqZ in Hb. rewrite (s_used _ _ A) by lia.
    split; [lia | apply Z.ltb_ge; lia].
Qed.

(** the kernel's allocator takes the block that mkfs takes *)
Lemma sim_alloc a s' : alloc_post s a s' ->
  a = freeblock m /\ freeblock m < FSSIZE /\ sim (set_freeblock (fun b => u32 (b + 1)) m) s'.
Proof using A.
  intros (Ha & Hua & Hlow & F & _ & Z0 & Hu & K & G). rewrite sim_size in Ha, Hu. pose proof (s_free _ _ A) as Hf.
  assert (0 <= freeblock m) as H0 by (sizes; lia).
  assert (a = freeblock m) as ->.
  { rewrite (s_used _ _ A) in Hua by lia. apply Z.ltb_ge in Hua. destruct (Z.eq_dec a (freeblock m)); [done|].
    specialize (Hlow (freeblock m) ltac:(lia)). rewrite (s_used _ _ A) in Hlow by lia. apply Z.ltb_lt in Hlow. lia. }
  assert (u32 (freeblock m + 1) = freeblock m + 1) as E by (apply u32_small; sizes; lia).
  split; [done|]. split; [lia|]. split; cbn [set_freeblock freeblock im_len]; rewrite ?E; try done.
  - by rewrite (f_sb _ _ _ F), (s_sb _ _ A).
  - apply A.
  - lia.
  - intros c Hc. rewrite Hu, (s_used _ _ A) by done. apply eq_true_iff_eq.
    rewrite orb_true_iff, Z.eqb_eq, !Z.ltb_lt. lia.
  - intros b Hp. change (sector_of (set_freeblock _ m) b) with (sector_of m b). destruct (decide (b = freeblock m)) as [->|Hne].
    + rewrite Z0. symmetry. apply (s_zero _ _ A). left. lia.
    + rewrite K; [by apply (s_blk _ _ A) | done |]. rewrite (s_sb _ _ A). apply plain_BBLOCK; [lia | done].
  - intros b Hb. apply (s_zero _ _ A). destruct Hb; [left; lia | by right].
Qed.

(** a store in a block in use *)
Lemma sim_store b d s' : data_block s b -> length d = Z.to_nat BSIZE -> logged b d s s' ->
  wsect b d m = Ok (tt, write_sector b d m) /\ sim (write_sector b d m) s'.
Proof using A.
  intros Hb Hd Hlog. pose proof (logged_data_geom b d s s' (s_geom _ _ A) (proj2 (proj2 Hb)) Hd Hlog) as [G Hu].
  destruct (sim_read b Hb) as [_ Hr]. apply sim_data in Hb as [Hb Hp]. rewrite sim_size in Hu.
  split; [by apply wsect_ok; [apply A|]|]. split; try done; try apply A.
  - by rewrite (f_sb _ _ _ (l_frame _ _ _ _ Hlog)), (s_sb _ _ A).
  - intros c Hc. rewrite Hu by done. by apply (s_used _ _ A).
  - intros c Hc. rewrite sector_of_put, (block_of_insert _ _ _ _ _ (l_blk _ _ _ _ Hlog)).
    case_decide; [done | by apply (s_blk _ _ A)].
  - intros c Hc. change (freeblock (write_sector b d m)) with (freeblock m) in Hc. rewrite sector_of_put.
    case_decide; [subst; destruct Hc; [lia | done] | by apply (s_zero _ _ A)].
Qed.
End Agree.

(** ** Appending a block *)

Lemma sim_u32 m s : sim m s -> 0 <= freeblock m < 2 ^ 32.
Proof. intros A. pose proof (s_free _ _ A). sizes. lia. Qed.

Lemma new_block_ok m : 0 <= freeblock m < 2 ^ 32 ->
  new_block m = Ok (freeblock m, set_freeblock (fun b => u32 (b + 1)) m).
Proof. intros Hb. unfold new_block, get, modify, mret, M_ret, mbind, M_bind. by rewrite xint_small. Qed.

Lemma returns_and {S A} (c : M S A) s (P Q : A -> S -> Prop) :
  returns c s P -> returns c s Q -> returns c s (fun a s' => P a s' /\ Q a s').
Proof. unfold returns. by destruct (c s) as [[a s']| |]. Qed.

(** an entry of an index block *)
Lemma indexblock_hit a k m s :
  sim m s -> data_block s a -> 0 <= k < NINDIRECT -> 0 < word (block_of s a) k < 2 ^ 32 ->
  indexblock a k m = Ok (word (block_of s a) k, m).
Proof.
  intros A Ha Hk Hw. unfold indexblock. destruct (Z.ltb_spec k NINDIRECT); [|lia].
  unfold mbind, M_bind. rewrite (proj1 (sim_read m s A a Ha)).
  destruct (Z.eqb_spec (word (block_of s a) k) 0); [lia|]. unfold mret, M_ret. by rewrite xint_small by lia.
Qed.

Lemma indexblock_new a k n m s :
  sim m s -> log_room s 3 -> data_block s a -> 0 <= k < NINDIRECT -> word (block_of s a) k = 0 -> avail s (S n) ->
  returns (entry_or_balloc a k) s (fun c s' => exists m', indexblock a k m = Ok (c, m') /\ sim m' s' /\ freeinode m' = freeinode m).
Proof.
  intros A Hr Ha Hk Hw Hav. pose proof (s_geom _ _ A) as Hg. unfold entry_or_balloc, bread. step. rewrite Hw. cbn [Z.eqb].
  apply returns_bind, (balloc_ok _ n); [done | by eapply log_room_weaken | done |]. intros c s1 Hal _.
  destruct (sim_alloc m s A c s1 Hal) as (-> & Hfree & A1). pose proof (sim_u32 _ _ A) as Hu.
  pose proof (alloc_mapped _ _ _ Hal) as M1. pose proof (alloc_data_kept _ _ _ Hal a Ha) as Ka.
  assert (data_block s1 a) as Ha1 by (by eapply mapped_data_block).
  set (d := set_word (block_of s1 a) k (freeblock m)).
  assert (length d = Z.to_nat BSIZE) as Hd by (apply length_set_word; [apply (g_len _ (s_geom _ _ A1)) | done]).
  assert (returns (set_data a d ;; log_write a ;; brelse a ;; mret (freeblock m)) s1
    (fun c s' => exists m', indexblock a k m = Ok (c, m') /\ sim m' s' /\ freeinode m' = freeinode m)) as HR; [|exact HR].
  apply set_data_log_ok; [by eapply (mapped_room _ 2 1); [exact M1 |] |]. intros s2 Hlog. step.
  destruct (sim_store _ s1 A1 a d s2 Ha1 Hd Hlog) as [W A2]. eexists. split; [|by split].
  unfold indexblock. destruct (Z.ltb_spec k NINDIRECT); [|lia]. unfold mbind, M_bind.
  rewrite (proj1 (sim_read m s A a Ha)), Hw. cbn [Z.eqb]. rewrite new_block_ok by done. rewrite <- Ka. fold d. rewrite W.
  unfold mret, M_ret. unfold d at 1. rewrite word_set_word, Z.eqb_refl, xint_small; try done. apply (g_len _ (s_geom _ _ A1)).
Qed.

Fixpoint index_path (a : Z) (p : list Z) : M image Z :=
  match p with
  | [] => mret a
  | k :: p' => b ← indexblock a k; index_path b p'
  end.

Lemma appendblock_path din fbn m : 0 <= fbn < MAXFILE ->
  appendblock din fbn m =
    ('(a, din) ← address din (slot_path fbn).1; r ← index_path a (slot_path fbn).2; mret (r, din)) m.
Proof.
  intros Hb. unfold appendblock, slot_path. destruct (Z.ltb_spec fbn MAXFILE); [|lia]. cbv zeta.
  destruct (Z.ltb_spec fbn NDIRECT); cbn [fst snd index_path].
  { unfold mbind, M_bind. by destruct (address din fbn m) as [[[a d] s]| |]. }
  destruct (Z.ltb_spec (fbn - NDIRECT) (NSINDIRECT * NINDIRECT)); cbn [fst snd index_path].
  { apply bind_ext_r. intros [a d] s1. by rewrite bind_assoc. }
  destruct (Z.ltb_spec (fbn - NDIRECT - NSINDIRECT * NINDIRECT) (NDINDIRECT * NDOUBLE)); cbn [fst snd index_path].
  - apply bind_ext_r. intros [a d] s1. rewrite bind_assoc. apply bind_ext_r. intros b s2. by rewrite bind_assoc.
  - apply bind_ext_r. intros [a d] s1. rewrite bind_assoc. apply bind_ext_r. intros b s2.
    rewrite bind_assoc. apply bind_ext_r. intros b2 s3. by rewrite bind_assoc.
Qed.

(** the kernel and mkfs follow the same path and allocate the same blocks *)
Lemma path_sim n p : forall a m s R,
  sim m s -> a <> 0 -> entries_ok p -> owned s (tree s (length p) a ++ R) ->
  log_room s (2 * Z.of_nat (length p) + 1 + slot_cost s a) -> avail s (length p + n) ->
  returns (descend a p) s (fun r s' => exists m', index_path a p m = Ok (r, m') /\ sim m' s' /\ icache s' = icache s /\ freeinode m' = freeinode m).
Proof.
  induction p as [|k p IH]; intros a m s R A Ha Hp Ho Hr Hav; cbn [descend index_path].
  { step. by exists m. }
  apply Forall_cons in Hp as [Hk Hp]. cbn [length] in Ho, Hr, Hav.
  pose proof (slot_cost_range s a) as Hsc. pose proof (s_geom _ _ A) as Hg. pose proof (sim_small m s A) as Hsm.
  assert (data_block s a) as Hda.
  { eapply owned_in; [exact Ho|]. apply elem_of_app. left. rewrite tree_nonzero by done. set_solver. }
  destruct (decide (word (block_of s a) k = 0)) as [Hw|Hw].
  - apply returns_bind. eapply returns_mono; [eapply returns_and|].
    + apply (entry_or_balloc_new a k (length p + n)); try done; [eapply log_room_weaken; [exact Hr | lia] |].
      intros c s1 EA. exact EA.
    + apply (indexblock_new a k (length p + n) m); try done. eapply log_room_weaken; [exact Hr | lia].
    + cbv beta. intros c s1 [EA (m1 & E1 & A1 & N1)].
      destruct (entry_added_tree a k c _ _ s s1 R Ha Hk Hw Ho EA) as (Ho1 & _ & _).
      destruct EA as [[Hc _] _ _ Mp Ic Wd [Lc _] Av].
      assert (word (block_of s1 a) k = c) as Ek by (rewrite Wd, Z.eqb_refl by done; done).
      apply (owned_perm _ _ _ (tree_around s1 _ a k R Ha Hk)) in Ho1. rewrite Ek in Ho1.
      eapply returns_mono; [apply (IH c m1 s1 (around s1 (length p) a k R)); try done; [lia|] |].
      { rewrite (slot_cost_in s1 c Lc). eapply (mapped_room _ _ _ _ _ Mp). eapply log_room_weaken; [exact Hr | lia]. }
      cbv beta. intros r s2 (m2 & E2 & A2 & I2 & N2). exists m2. split; [|by rewrite I2, N2]. unfold mbind, M_bind. by rewrite E1.
  - apply returns_bind. unfold returns at 1. rewrite entry_or_balloc_hit by done.
    pose proof (owned_perm _ _ _ (tree_around s _ a k R Ha Hk) Ho) as Ho'. set (c := word (block_of s a) k) in *.
    assert (data_block s c) as Hdc.
    { eapply owned_in; [exact Ho'|]. apply elem_of_app. left. rewrite tree_nonzero by done. destruct p; set_solver. }
    assert (0 < c < 2 ^ 32) as Hcr.
    { apply (sim_data m s A) in Hdc as [Hc _]. pose proof (sim_u32 _ _ A). lia. }
    pose proof (slot_cost_range s c).
    eapply returns_mono; [apply (IH c m s (around s (length p) a k R)); try done |].
    { eapply log_room_weaken; [exact Hr | lia]. }
    { eapply avail_le; [exact Hav | simpl; lia]. }
    cbv beta. intros r s2 (m2 & E2 & A2 & I2 & N2). exists m2. split; [|done]. unfold mbind, M_bind.
    by rewrite (indexblock_hit a k m s A Hda Hk Hcr).
Qed.

(** only the blocks of the kernel state matter *)
Lemma sim_cache m s c l o : sim m s -> sim m (mkfs (Blocks.sb s) (blk s) l o c (console s)).
Proof.
  intros [H1 [G1 G2 G3 G4 G5] H3 H4 H5 H6 H7]. split; done.
Qed.

(** [appendblock] is the kernel's [bmap] *)
Lemma appendblock_sim n ip bn R m s :
  sim m s -> (ip < length (icache s))%nat -> fields_ok (icache s !!! ip) ->
  owned s (ml_blocks s (icache s !!! ip) ++ R) -> 0 <= bn < MAXFILE -> log_room s 9 -> avail s (4 + n) ->
  returns (bmap ip bn) s (fun r s' =>
    exists m', appendblock (icache s !!! ip) bn m = Ok ((r, icache s' !!! ip), m') /\ sim m' s' /\ freeinode m' = freeinode m).
Proof.
  intros A Hip Hf Ho Hbn Hr Hav. pose proof (s_geom _ _ A) as Hg. pose proof (sim_small m s A) as Hsm.
  eapply returns_ext; [by apply bmap_descend|].
  destruct (slot_path_ok bn Hbn) as (Hk & Hlen & Hp). pose proof (slot_level_range (slot_path bn).1) as Hlv.
  pose proof (appendblock_path (icache s !!! ip) bn m Hbn) as Eap.
  set (k := (slot_path bn).1) in *. set (p := (slot_path bn).2) in *. set (i := icache s !!! ip) in *.
  pose proof (owned_perm _ _ _ (ml_blocks_others s i k R Hk) Ho) as Ho'. unfold slot_blocks in Ho'. rewrite <- Hlen in Ho'.
  assert (0 <= i_addrs i !!! Z.to_nat k < 2 ^ 32) as Hau.
  { pose proof (fo_addrs _ Hf) as Hall. rewrite Forall_forall in Hall. apply Hall, list_elem_of_lookup_total_2.
    rewrite (fo_naddrs _ Hf). unfold NADDRS in *. lia. }
  apply returns_bind. unfold addr_or_balloc, inode_at. step. fold i. unfold address in Eap. rewrite xint_small in Eap by done.
  destruct (Z.eqb_spec (i_addrs i !!! Z.to_nat k) 0) as [Ha|Ha].
  - apply returns_bind, (balloc_ok _ (3 + n)); [done | by eapply log_room_weaken | done |].
    intros c s1 Hal Hav1. destruct (sim_alloc m s A c s1 Hal) as (-> & _ & A1). pose proof (sim_u32 _ _ A) as Hu.
    unfold set_addr, upd_inode. step. step. set (c := freeblock m) in *.
    destruct (slot_added ip k c s s1 R Hg Hsm Hip Hk Hf Ha Ho Hal) as (M2 & Hf2 & Ek & EI & Ho2 & Zc & Lc & EL).
    pose proof Hal as (Hc & _). set (s2 := set_icache _ s1) in *.
    pose proof (owned_perm _ _ _ (ml_blocks_others s2 _ k R Hk) Ho2) as Ho2'. unfold slot_blocks in Ho2'.
    rewrite Ek, <- Hlen in Ho2'.
    pose proof (sim_cache _ s1 (icache s2) (lh s2) (outstanding s2) A1 : sim _ s2) as A2.
    eapply returns_mono; [apply (path_sim n p c _ s2 (others s2 (icache s2 !!! ip) k R) A2); try done; try lia|].
    { rewrite (slot_cost_in s2 c Lc). eapply (mapped_room _ _ _ _ _ M2). eapply log_room_weaken; [exact Hr | lia]. }
    { eapply avail_le; [|shelve]. eapply avail_keep; [| |exact Hav1]; done. Unshelve. lia. }
    cbv beta. intros r s3 (m3 & E3 & A3 & I3 & N3). exists m3. split; [|done]. rewrite Eap. unfold mbind, M_bind.
    rewrite new_block_ok by done. fold c. unfold mret, M_ret. cbn [with_addrs i_addrs].
    rewrite list_lookup_total_insert_eq by (rewrite (fo_naddrs _ Hf); unfold NADDRS in *; lia).
    rewrite xint_small, E3, I3, EI, (upd_inode_at (with_addrs _)) by done. done.
  - step. pose proof (slot_cost_range s (i_addrs i !!! Z.to_nat k)).
    eapply returns_mono; [apply (path_sim n p _ m s (others s i k R)); try done; try lia|].
    { eapply log_room_weaken; [exact Hr | lia]. } { eapply avail_le; [exact Hav | lia]. }
    cbv beta. intros r s3 (m3 & E3 & A3 & I3 & N3). exists m3. split; [|done]. rewrite Eap. unfold mbind, M_bind, mret, M_ret.
    by rewrite E3, I3.
Qed.

(** ** Growing a file *)

(** the unsigned arithmetic of [iappend] on offsets below the limit *)
Lemma iappend_chunk off rem : 0 <= off <= FILE_LIMIT ->
  Z.min rem (u32 (u32 ((off / BSIZE + 1) * BSIZE) - off)) = Z.min rem (BSIZE - off mod BSIZE) /\
  off - u32 (off / BSIZE * BSIZE) = off mod BSIZE.
Proof.
  intros Hoff. assert (FILE_LIMIT = 1090784256) as HFL by reflexivity. change BSIZE with 512. split.
  - f_equal. rewrite (u32_small ((off / 512 + 1) * 512)) by (Z.div_mod_to_equations; lia).
    rewrite u32_small; Z.div_mod_to_equations; lia.
  - rewrite u32_small; Z.div_mod_to_equations; lia.
Qed.

(** the copy loop writes what the kernel's [writei] would *)
Lemma iappend_loop_ok n fuel ip R : forall off rem src m s,
  sim m s -> ml_file s ip R -> 0 <= off -> 0 <= rem -> off + rem <= FILE_LIMIT ->
  rem = Z.of_nat (length src) -> enough fuel off rem ->
  log_room s (8 * nblocks off rem + 1) -> avail s (4 * Z.to_nat (nblocks off rem) + n) ->
  returns (iappend_loop fuel (icache s !!! ip) src off rem) m (fun r m' =>
    exists s', r = (off + rem, icache s' !!! ip) /\ sim m' s' /\ freeinode m' = freeinode m /\
      wrote ip R off src s s' /\ avail s' n).
Proof.
  induction fuel as [|fuel IH]; intros off rem src m s A Hf Hoff Hrem Hlim Hsrc Hfuel Hroom Hav.
  { destruct Hfuel. lia. }
  assert (FILE_LIMIT = 1090784256) as HFL by reflexivity.
  cbn [iappend_loop]. destruct (Z.ltb_spec 0 rem) as [Hlt|Hge].
  2:{ step. assert (rem = 0) as -> by lia. destruct src; [|simpl in Hsrc; lia]. exists s.
      split_and!; [by rewrite Z.add_0_r | done | done | by apply wrote_nil | eapply avail_le; [exact Hav | lia]]. }
  pose proof (chunk_step off rem fuel ltac:(lia) ltac:(lia) Hfuel) as (Hm & Hmb & Hf').
  pose proof (nblocks_step off rem ltac:(lia) ltac:(lia)) as [Hnb Hnb1]. cbv zeta in Hnb.
  set (k := Z.min rem (BSIZE - off mod BSIZE)) in *.
  assert (Z.of_nat (length (slice src 0 k)) = k) as Hlx by (rewrite length_slice; lia).
  assert (0 <= off / BSIZE < MAXFILE) as Hbn by (apply off_block_range; lia).
  destruct (iappend_chunk off rem ltac:(lia)) as [Ek Eo]. fold k in Ek.
  assert (returns (bmap ip (off / BSIZE)) s (fun r s' => (bmapped ip (off / BSIZE) R s r s' /\ avail s' (4 * Z.to_nat (nblocks off rem - 1) + n)) /\
    exists m', appendblock (icache s !!! ip) (off / BSIZE) m = Ok ((r, icache s' !!! ip), m') /\ sim m' s' /\ freeinode m' = freeinode m)) as HB.
  { apply returns_and.
    - apply (bmap_ok (4 * Z.to_nat (nblocks off rem - 1) + n) ip (off / BSIZE) R); try apply Hf; try done.
      + eapply log_room_weaken; [exact Hroom | lia].
      + eapply avail_le; [exact Hav | lia].
    - apply (appendblock_sim (4 * Z.to_nat (nblocks off rem - 1) + n) ip (off / BSIZE) R); try apply Hf; try done.
      + eapply log_room_weaken; [exact Hroom | lia].
      + eapply avail_le; [exact Hav | lia]. }
  apply returns_eq in HB as (r & s1 & _ & (B & Hav1) & m1 & E1 & A1 & N1).
  unfold returns, mbind at 1, M_bind. rewrite E1. cbv beta iota zeta. rewrite Ek, Eo.
  pose proof (b_map _ _ _ _ _ _ B) as M. pose proof (bmapped_file _ _ _ _ _ _ Hf B) as Hf1.
  destruct (b_look _ _ _ _ _ _ B) as [El Hr0].
  assert (data_block s1 r) as Hdr.
  { rewrite <- El in Hr0 |- *. by apply (ml_lookup_leaf s1 _ R (mf_owned _ _ _ Hf1) _ Hbn Hr0). }
  set (d := splice (block_of s1 r) (off mod BSIZE) (slice src 0 k)).
  assert (length d = Z.to_nat BSIZE) as Hd.
  { pose proof (off_mod off). unfold d. rewrite length_splice; rewrite ?(g_len _ (s_geom _ _ A1)); lia. }
  set (s2 := set_lh (absorb r) (set_blk (fun x => <[r := d]> x) s1)).
  assert (logged r d s1 s2) as Hlog by (split; try done; split; try done; apply length_absorb).
  destruct (sim_store m1 s1 A1 r d s2 Hdr Hd Hlog) as [W2 A2].
  unfold mbind, M_bind. rewrite (proj1 (sim_read m1 s1 A1 r Hdr)). fold d. rewrite W2.
  pose proof (wrote_block ip R off (slice src 0 k) s r s1 s2 Hf Hoff ltac:(lia) ltac:(lia) ltac:(lia) B Hlog) as W.
  rewrite u32_small by lia. change (icache s1 !!! ip) with (icache s2 !!! ip).
  eapply returns_mono; [apply (IH (off + k) (rem - k) (drop (Z.to_nat k) src) (write_sector r d m1) s2 A2); try lia|].
  - apply W.
  - rewrite length_drop. lia.
  - done.
  - rewrite Hnb. eapply block_growth; [apply Hf | exact B | exact Hlog |]. eapply log_room_weaken; [exact Hroom | lia].
  - rewrite Hnb. apply (avail_keep s1); [done | | exact Hav1]. intros c Hc.
    by apply (logged_data_geom r d s1 s2 (s_geom _ _ A1) (proj2 (proj2 Hdr)) Hd Hlog).
  - cbv beta. intros [o' din'] m' (s' & E & A' & N' & W' & Hav'). exists s'. injection E as -> ->.
    split_and!; try done; [f_equal; lia | by rewrite N', <- N1 |].
    assert (src = slice src 0 k ++ drop (Z.to_nat k) src) as Es by (unfold slice; by rewrite drop_0, take_drop).
    rewrite Es. eapply wrote_app; [done | rewrite <- Es; lia | exact W|]. by rewrite Hlx.
Qed.

(** ** Inodes *)

(** inode [n] as the kernel loads it *)
Definition dino (s : fsys) (n : Z) : inode := disk_inode s n (blank n).
(** the superblock, the log and the blocks of inodes *)
Definition meta_blocks : list Z := seqZ 1 (sb_bmapstart mkfs_sb - 1).

Lemma elem_of_meta b : b ∈ meta_blocks <-> 1 <= b < sb_bmapstart mkfs_sb.
Proof. unfold meta_blocks. rewrite elem_of_seqZ. lia. Qed.

Lemma IBLOCK_in n : 0 <= n < NINODES -> IBLOCK n mkfs_sb ∈ meta_blocks.
Proof.
  intros Hn. apply elem_of_meta. unfold IBLOCK. change IPB with 8. change NINODES with 200 in Hn. sizes.
  Z.div_mod_to_equations. lia.
Qed.

Lemma meta_data m s b : sim m s -> b ∈ meta_blocks -> data_block s b.
Proof.
  intros A Hb. apply elem_of_meta in Hb. apply (sim_data m s A). pose proof (s_free _ _ A). unfold plain. sizes. lia.
Qed.

Lemma rinode_ok m s n : sim m s -> 0 <= n < NINODES -> rinode n m = Ok (dino s n, m).
Proof.
  intros A Hn. unfold rinode, mbind, M_bind.
  rewrite (proj1 (sim_read m s A _ (meta_data _ _ _ A (IBLOCK_in n Hn)))). unfold mret, M_ret, dino, disk_inode.
  by rewrite (s_sb _ _ A).
Qed.

(** writing inode [n] *)
Lemma winode_ok m s n i :
  sim m s -> 0 <= n < NINODES -> fields_ok i -> reloaded i (blank n) = i ->
  exists s' d, winode n i m = Ok (tt, write_sector (IBLOCK n mkfs_sb) d m) /\ sim (write_sector (IBLOCK n mkfs_sb) d m) s' /\
    length d = Z.to_nat BSIZE /\ logged (IBLOCK n mkfs_sb) d s s' /\ dino s' n = i /\
    (forall n', 0 <= n' < NINODES -> n' <> n -> dino s' n' = dino s n').
Proof.
  intros A Hn Hi Hb. set (b := IBLOCK n mkfs_sb). pose proof (meta_data _ _ _ A (IBLOCK_in n Hn)) as Hdb. fold b in Hdb.
  set (d := splice (block_of s b) (dinode_off n) (dinode_bytes i)).
  pose proof (g_len _ (s_geom _ _ A) b) as Hlen. pose proof (dinode_off_bound n) as [Ho1 Ho2].
  pose proof (length_dinode i (fo_naddrs _ Hi)) as HL. assert (DINODE_SIZE = 64) as ED by done. assert (BSIZE = 512) as EB by done.
  assert (length d = Z.to_nat BSIZE) as Hd by (unfold d; rewrite length_splice; rewrite ?Hlen, ?HL; lia).
  set (s' := set_lh (absorb b) (set_blk (fun x => <[b := d]> x) s)).
  assert (logged b d s s') as Hlog by (split; try done; split; try done; apply length_absorb).
  destruct (sim_store m s A b d s' Hdb Hd Hlog) as [W A'].
  assert (forall n' j, disk_inode s' n' j =
    if decide (b = IBLOCK n' mkfs_sb) then read_dinode d (dinode_off n') j else disk_inode s n' j) as Edi.
  { intros n' j. unfold disk_inode. rewrite (f_sb _ _ _ (l_frame _ _ _ _ Hlog)), (s_sb _ _ A),
      (block_of_insert _ _ _ _ _ (l_blk _ _ _ _ Hlog)). by case_decide. }
  exists s', d. split_and!; try done.
  - unfold winode, mbind, M_bind. fold b. by rewrite (proj1 (sim_read m s A b Hdb)).
  - unfold dino. rewrite Edi, decide_True by done. unfold d. rewrite read_dinode_bytes; rewrite ?Hlen; try done; lia.
  - intros n' Hn' Hne. unfold dino. rewrite Edi. case_decide as E; [|done]. unfold disk_inode. rewrite (s_sb _ _ A), <- E.
    pose proof (dinode_off_bound n') as [Ho3 Ho4]. apply read_dinode_other; rewrite ?Hlen, ?HL; try lia.
    destruct (dinode_slots_disjoint n' n); try done; try lia. unfold b, IBLOCK in E. change IPB with 8 in *. lia.
Qed.

(** what is seen of a file depends on its blocks *)
Lemma view_kept s s' i :
  (forall b, b ∈ ml_blocks s i -> block_of s' b = block_of s b) ->
  ml_blocks s' i = ml_blocks s i /\
  (forall bn, 0 <= bn < MAXFILE -> ml_lookup s' i bn = ml_lookup s i bn) /\
  (forall o, 0 <= o < FILE_LIMIT -> ml_byte s' i o = ml_byte s i o).
Proof.
  intros Hb.
  assert (forall k, 0 <= k < NADDRS -> forall b, b ∈ slot_idx s i k -> block_of s' b = block_of s b) as Hi.
  { intros k Hk b Hin. apply Hb. unfold ml_blocks. rewrite list_elem_of_bind. exists k.
    split; [by apply idx_in_tree | apply elem_of_seqZ; lia]. }
  assert (forall bn, 0 <= bn < MAXFILE -> ml_lookup s' i bn = ml_lookup s i bn) as El.
  { intros bn Hbn. destruct (slot_path_ok bn Hbn) as (Hk & Hl & Hp). unfold ml_lookup.
    rewrite (surjective_pairing (slot_path bn)). by apply (idx_ext s s' _ _ (Hi _ Hk)). }
  split_and!; [| done |].
  - unfold ml_blocks. apply Forall_bind_ext, Forall_forall. intros k Hk. apply elem_of_seqZ in Hk.
    by apply (idx_ext s s' _ _ (Hi k ltac:(lia))).
  - intros o Ho. pose proof (off_block_range o Ho) as Hr. unfold ml_byte. rewrite El by done.
    destruct (Z.eqb_spec (ml_lookup s i (o / BSIZE)) 0) as [E|E]; [done|]. by rewrite Hb by (by apply ml_lookup_in).
Qed.
