(* ===== verification/MkfsImage.v ===== *)
(** * The image that mkfs builds

    The files of an image, what one inode or one chunk of a file adds to them,
    and the whole run of mkfs: the kernel that starts on the image finds exactly
    the files of the host, a root directory that names them, and every other
    block and inode free. *)

From S2P Require Import Prelude Mkfs CStr Blocks Inode Index FileIo MlFs MlIo Dir DirSpec DirWalk MlDir MkfsSpec.

(** ** The files of an image *)

(** [a_data] is followed by zeros up to [a_size] *)
Record afile : Type := mkafile { a_type : Z; a_data : list Z; a_size : Z }.

Definition byte_at (c : list Z) (o : Z) : Z := default 0 (c !! Z.to_nat o).

(** inode [i] is the file [f] *)
Record is_file (s : fsys) (i : inode) (f : afile) : Prop := {
  if_fields : fields_ok i;
  if_type : i_type i = a_type f;
  if_nlink : i_nlink i = 1;
  if_size : i_size i = a_size f;
  if_limit : Z.of_nat (length (a_data f)) <= FILE_LIMIT;
  if_bytes : forall o, 0 <= o < FILE_LIMIT -> ml_byte s i o = byte_at (a_data f) o;
  if_mapped : forall o, 0 <= o < Z.of_nat (length (a_data f)) -> ml_lookup s i (o / BSIZE) <> 0
}.

Lemma is_file_kept s s' i f :
  (forall b, b ∈ ml_blocks s i -> block_of s' b = block_of s b) -> is_file s i f -> is_file s' i f.
Proof.
  intros Hb [H1 H2 H3 H4 H5 H6 H7]. destruct (view_kept s s' i Hb) as (_ & Vl & Vb). split; try done.
  - intros o Ho. rewrite Vb; auto.
  - intros o Ho. rewrite Vl by (apply off_block_range; lia). auto.
Qed.

Definition blocks_of (s : fsys) (n : Z) : list Z := ml_blocks s (dino s n).
Definition all_blocks (s : fsys) (len : nat) : list Z := meta_blocks ++ (seqZ 1 (Z.of_nat len) ≫= blocks_of s).
(** the blocks in use that are not those of file [k] *)
Definition other_blocks (s : fsys) (len k : nat) : list Z :=
  meta_blocks ++ (seqZ 1 (Z.of_nat k) ≫= blocks_of s) ++ (seqZ (Z.of_nat k + 2) (Z.of_nat len - Z.of_nat k - 1) ≫= blocks_of s).

(** the blocks before the inodes: the superblock and an empty log *)
Definition head_block (b : Z) : list Z :=
  if decide (b = 1) then splice zero_block 0 (superblock_bytes mkfs_sb) else zero_block.

(** inode [k + 1] is the [k]-th file, no block has two uses, the other inodes
    are free, and the log is empty *)
Record image_holds (fs : list afile) (s : fsys) : Prop := {
  h_count : Z.of_nat (length fs) < NINODES;
  h_files : forall k f, fs !! k = Some f -> is_file s (dino s (Z.of_nat k + 1)) f;
  h_free : forall n, Z.of_nat (length fs) < n < NINODES -> i_type (dino s n) = 0;
  h_owned : owned s (all_blocks s (length fs));
  h_head : forall b, 1 <= b < sb_inodestart mkfs_sb -> block_of s b = head_block b
}.

Definition set_file (fs : list afile) (k : nat) (f : afile) : list afile := take k fs ++ f :: drop (S k) fs.

Lemma length_set_file fs k f : (k <= length fs)%nat -> length (set_file fs k f) = Nat.max (length fs) (S k).
Proof. intros Hk. unfold set_file. rewrite length_app, length_take. simpl. rewrite length_drop. lia. Qed.

Lemma lookup_set_file fs k f j : (k <= length fs)%nat ->
  set_file fs k f !! j = if decide (j = k) then Some f else fs !! j.
Proof.
  intros Hk. unfold set_file. case_decide as E.
  - subst j. rewrite lookup_app_r; rewrite length_take, Nat.min_l by lia; [|done]. by rewrite Nat.sub_diag.
  - destruct (decide (j < k)%nat).
    + rewrite lookup_app_l by (rewrite length_take; lia). by rewrite lookup_take_lt.
    + rewrite lookup_app_r; rewrite length_take, Nat.min_l by lia; [|lia].
      destruct (j - k)%nat as [|x] eqn:Ex; [lia|]. simpl. rewrite lookup_drop. f_equal. lia.
Qed.

Lemma elem_of_blocks s a n b : b ∈ seqZ a n ≫= blocks_of s <-> exists j, a <= j < a + n /\ b ∈ blocks_of s j.
Proof.
  rewrite list_elem_of_bind. split; intros (j & H1 & H2); exists j; rewrite elem_of_seqZ in *; naive_solver lia.
Qed.

Lemma elem_of_other s len k b : (k <= len)%nat ->
  b ∈ other_blocks s len k <-> b ∈ meta_blocks \/ exists j, 1 <= j <= Z.of_nat len /\ j <> Z.of_nat k + 1 /\ b ∈ blocks_of s j.
Proof.
  intros Hk. unfold other_blocks. rewrite !elem_of_app, !elem_of_blocks. split.
  - intros [H|[(j & Hj & H)|(j & Hj & H)]]; [by left | right; exists j; split_and!; try done; lia ..].
  - intros [H|(j & Hj & Hne & H)]; [by left|]. destruct (Z.lt_ge_cases j (Z.of_nat k + 1)).
    + right; left. exists j. split; [lia | done].
    + right; right. exists j. split; [lia | done].
Qed.

Lemma all_blocks_split s len k : (k < len)%nat ->
  all_blocks s len ≡ₚ blocks_of s (Z.of_nat k + 1) ++ other_blocks s len k.
Proof.
  intros Hk. unfold all_blocks, other_blocks.
  replace (Z.of_nat len) with (Z.of_nat k + (1 + (Z.of_nat len - Z.of_nat k - 1))) at 1 by lia.
  rewrite seqZ_app, bind_app, (seqZ_cons (1 + Z.of_nat k)), bind_cons by lia.
  replace (Z.succ (1 + Z.of_nat k)) with (Z.of_nat k + 2) by lia. replace (1 + Z.of_nat k) with (Z.of_nat k + 1) by lia.
  replace (Z.pred (1 + (Z.of_nat len - Z.of_nat k - 1))) with (Z.of_nat len - Z.of_nat k - 1) by lia. solve_Permutation.
Qed.

Lemma all_blocks_end s len : all_blocks s len = other_blocks s len len.
Proof. unfold all_blocks, other_blocks. by rewrite (seqZ_nil (Z.of_nat len + 2)), app_nil_r by lia. Qed.

(** a kernel state that shows the same blocks image_holds the same files *)
Lemma image_holds_same fs s s' :
  Blocks.sb s = mkfs_sb -> Blocks.sb s' = mkfs_sb -> (forall c, 0 <= c < FSSIZE -> used s' c = used s c) ->
  (forall b, plain b -> block_of s' b = block_of s b) -> image_holds fs s -> image_holds fs s'.
Proof.
  intros E1 E2 Hu Hb [H1 H2 H3 H4 H5].
  assert (forall b, data_block s b -> plain b /\ data_block s' b) as Hd.
  { intros b (D1 & D2 & D3). rewrite E1 in D1, D3. change (sb_size mkfs_sb) with FSSIZE in *. split.
    - unfold plain. destruct (Z.lt_ge_cases b (sb_bmapstart mkfs_sb)); [by left|]. destruct (Z.lt_ge_cases b nmeta); [|by right].
      destruct (BBLOCK_onto b) as (c & Hc & E); [lia|]. by destruct (D3 c Hc).
    - unfold data_block. rewrite E2. change (sb_size mkfs_sb) with FSSIZE. rewrite Hu by lia. done. }
  assert (forall n, 0 <= n < NINODES -> dino s' n = dino s n) as Hi.
  { intros n Hn. unfold dino, disk_inode. rewrite E1, E2, Hb; [done|]. left. apply IBLOCK_in, elem_of_meta in Hn. lia. }
  assert (forall n, 1 <= n <= Z.of_nat (length fs) -> forall b, b ∈ blocks_of s n -> block_of s' b = block_of s b) as Hk.
  { intros n Hn b Hin. apply Hb, Hd. eapply owned_in; [exact H4|]. unfold all_blocks. apply elem_of_app. right.
    apply elem_of_blocks. exists n. split; [lia | done]. }
  split; [done | | | |].
  - intros k f Hf. apply lookup_lt_Some in Hf as Hlt. rewrite Hi by lia.
    apply (is_file_kept s); [apply Hk; lia | by apply H2].
  - intros n Hn. rewrite Hi by lia. by apply H3.
  - assert (all_blocks s' (length fs) = all_blocks s (length fs)) as ->.
    { unfold all_blocks. f_equal. apply Forall_bind_ext, Forall_forall. intros n Hn. apply elem_of_seqZ in Hn. unfold blocks_of.
      rewrite Hi by lia. apply view_kept, Hk. lia. }
    destruct H4 as [N D]. split; [done|]. eapply Forall_impl; [exact D|]. intros b Hin. by apply Hd.
  - intros b Hbr. rewrite Hb; [by apply H5|]. left. sizes. lia.
Qed.

(** ** The image under construction *)

Record built (fs : list afile) (m : image) (s : fsys) : Prop := {
  bu_sim : sim m s;
  bu_next : freeinode m = Z.of_nat (length fs) + 1;
  bu_holds : image_holds fs s
}.

(** writing the inode of a file, when the rest of its change is done *)
Lemma winode_file fs m s m1 s1 k f i :
  built fs m s -> sim m1 s1 -> (k <= length fs)%nat -> Z.of_nat k + 1 < NINODES ->
  freeinode m1 = Z.max (Z.of_nat (length fs)) (Z.of_nat k + 1) + 1 ->
  (forall b, b ∈ other_blocks s (length fs) k -> block_of s1 b = block_of s b) ->
  reloaded i (blank (Z.of_nat k + 1)) = i -> is_file s1 i f ->
  owned s1 (ml_blocks s1 i ++ other_blocks s (length fs) k) ->
  exists m2 s2, winode (Z.of_nat k + 1) i m1 = Ok (tt, m2) /\ built (set_file fs k f) m2 s2 /\ freeblock m2 = freeblock m1.
Proof.
  intros [A _ [Hc Hfiles Hfree _ Hhead]] A1 Hk Hk1 Hfi Hsame Hbl Hif Ho.
  destruct (winode_ok m1 s1 (Z.of_nat k + 1) i A1 ltac:(lia) (if_fields _ _ _ Hif) Hbl) as (s2 & d & W & A2 & _ & Hlog & Ei & Eo).
  set (b0 := IBLOCK (Z.of_nat k + 1) mkfs_sb) in *. exists (write_sector b0 d m1), s2. split; [done|]. split; [|done].
  assert (b0 ∈ meta_blocks) as Hb0 by (apply IBLOCK_in; lia). set (len := length fs) in *.
  assert (forall b, b ∈ meta_blocks -> b ∈ other_blocks s len k) as Hio by (intros; apply elem_of_other; [done | by left]).
  assert (forall b, b <> b0 -> block_of s2 b = block_of s1 b) as E21.
  { intros b Hb. by rewrite (block_of_insert _ _ _ _ _ (l_blk _ _ _ _ Hlog)), decide_False. }
  pose proof Ho as [Hn Hd]. apply NoDup_app in Hn as (_ & Hn1 & Hn2).
  assert (forall b, b ∈ ml_blocks s1 i -> block_of s2 b = block_of s1 b) as Ki.
  { intros b Hb. apply E21. intros ->. apply (Hn1 b0 Hb). auto. }
  assert (forall j, 1 <= j <= Z.of_nat len -> j <> Z.of_nat k + 1 -> forall b, b ∈ blocks_of s j -> block_of s2 b = block_of s b) as Kj.
  { intros j Hj Hne b Hb. assert (b ∈ other_blocks s len k) as Hbo by (apply elem_of_other; [done | right; by exists j]).
    rewrite E21; [by apply Hsame|]. intros ->. unfold other_blocks in Hn2. apply NoDup_app in Hn2 as (_ & Hn2 & _).
    apply (Hn2 b0 Hb0). rewrite elem_of_app, !elem_of_blocks. destruct (Z.lt_ge_cases j (Z.of_nat k + 1)).
    - left. exists j. split; [lia | done].
    - right. exists j. split; [lia | done]. }
  assert (forall j, 0 <= j < NINODES -> j <> Z.of_nat k + 1 -> dino s2 j = dino s j) as Dj.
  { intros j Hj Hne. rewrite Eo by done. unfold dino, disk_inode. rewrite (s_sb _ _ A1), (s_sb _ _ A), Hsame; [done|].
    by apply Hio, IBLOCK_in. }
  split; [done | rewrite length_set_file by done; cbn [write_sector set_im freeinode]; fold len; lia |]. split.
  - rewrite length_set_file by done. fold len. lia.
  - intros j f' Hf'. rewrite lookup_set_file in Hf' by done. case_decide as E.
    + injection Hf' as <-. subst j. rewrite Ei. by apply (is_file_kept s1).
    + apply lookup_lt_Some in Hf' as Hlt. fold len in Hlt. rewrite Dj by lia. apply (is_file_kept s); [apply Kj; lia | by apply Hfiles].
  - rewrite length_set_file by done. fold len. intros n Hn. rewrite Dj by lia. apply Hfree. fold len. lia.
  - rewrite length_set_file by done. fold len. apply (owned_perm _ _ _ (Permutation_sym (all_blocks_split s2 (len `max` S k) k ltac:(lia)))).
    assert (blocks_of s2 (Z.of_nat k + 1) = ml_blocks s1 i) as ->.
    { unfold blocks_of. rewrite Ei. by apply view_kept. }
    assert (forall j, 1 <= j <= Z.of_nat len -> j <> Z.of_nat k + 1 -> blocks_of s2 j = blocks_of s j) as Ej.
    { intros j Hj Hne. unfold blocks_of. rewrite Dj by lia. apply view_kept. by apply Kj. }
    assert (other_blocks s2 (len `max` S k) k = other_blocks s len k) as ->.
    { unfold other_blocks. f_equal. f_equal; [apply Forall_bind_ext, Forall_forall; intros j Hj; apply elem_of_seqZ in Hj; apply Ej; lia|].
      destruct (decide (k = len)) as [->|]; [by rewrite !seqZ_nil by lia|]. replace (len `max` S k)%nat with len by lia.
      apply Forall_bind_ext, Forall_forall. intros j Hj. apply elem_of_seqZ in Hj. apply Ej; lia. }
    split; [apply Ho|]. eapply Forall_impl; [exact Hd|]. intros b Hb. apply (sim_data _ _ A2). by apply (sim_data m1 s1 A1).
  - intros b Hb. rewrite <- Hhead by done. rewrite E21.
    + apply Hsame, Hio, elem_of_meta. sizes. lia.
    + intros ->. unfold b0, IBLOCK in Hb. change IPB with 8 in Hb. Z.div_mod_to_equations. lia.
Qed.

Lemma set_file_end fs f : set_file fs (length fs) f = fs ++ [f].
Proof. unfold set_file. by rewrite take_ge, drop_ge by lia. Qed.

Lemma nil_file s i ty :
  fields_ok i -> i_type i = ty -> i_nlink i = 1 -> i_size i = 0 -> i_addrs i = replicate (Z.to_nat NADDRS) 0 ->
  is_file s i (mkafile ty [] 0) /\ ml_blocks s i = [].
Proof.
  intros Hf Ht Hn Hs Ha.
  assert (forall k, 0 <= k < NADDRS -> i_addrs i !!! Z.to_nat k = 0) as E.
  { intros k Hk. rewrite Ha. apply list_lookup_total_correct, lookup_replicate_2. unfold NADDRS in *. lia. }
  assert (forall bn, 0 <= bn < MAXFILE -> ml_lookup s i bn = 0) as El.
  { intros bn Hbn. destruct (slot_path_ok bn Hbn) as (Hk & _). unfold ml_lookup. rewrite (surjective_pairing (slot_path bn)), E by done.
    apply lookup_path_zero. }
  split; [split; try done|].
  - intros o Ho. unfold ml_byte. by rewrite El by (by apply off_block_range).
  - cbn [a_data length]. intros o Ho. lia.
  - unfold ml_blocks. rewrite (Forall_bind_ext _ (fun _ => [])); [by induction (seqZ 0 NADDRS)|].
    apply Forall_forall. intros k Hk. apply elem_of_seqZ in Hk. unfold slot_blocks. rewrite E by lia. apply tree_zero.
Qed.

Lemma ialloc_ok fs m s ty :
  built fs m s -> Z.of_nat (length fs) + 1 < NINODES -> 0 <= ty < 2 ^ 15 ->
  returns (Mkfs.ialloc ty) m (fun n m' => n = Z.of_nat (length fs) + 1 /\ freeblock m' = freeblock m /\
    exists s', built (fs ++ [mkafile ty [] 0]) m' s').
Proof.
  intros Hb Hlen Hty. pose proof Hb as [A Hn Hh]. change NINODES with 200 in Hlen. unfold Mkfs.ialloc. step. step. apply returns_bind.
  set (i := mkinode _ _ _ _ _ _ _ _ _ _ _). set (m1 := set_freeinode _ m).
  assert (i = mkinode ROOTDEV (freeinode m) 1 false true ty 0 0 1 0 (replicate (Z.to_nat NADDRS) 0)) as Ei.
  { unfold i, xshort. rewrite le_val_bytes. change (256 ^ Z.of_nat 2) with 65536. by rewrite Z.mod_small by lia. }
  clearbody i. subst i. set (i := mkinode _ _ _ _ _ _ _ _ _ _ _).
  assert (fields_ok i) as Hfi.
  { split; try done; unfold short_ok, uint_ok; cbn; try lia. apply Forall_replicate. unfold uint_ok. lia. }
  destruct (nil_file s i ty Hfi) as [Hif Hnil]; try done.
  rewrite Hn. destruct (winode_file fs m s m1 s (length fs) (mkafile ty [] 0) i) as (m2 & s2 & W & B & F); try done.
  - by destruct A.
  - cbn [m1 set_freeinode freeinode]. rewrite Hn, u32_small; lia.
  - unfold i, blank, reloaded. cbn. by rewrite Hn.
  - rewrite Hnil, <- all_blocks_end. apply Hh.
  - unfold returns at 1. rewrite W. step. split; [done|]. split; [done|]. exists s2. by rewrite <- set_file_end.
Qed.

(** one chunk at the end of a file *)
Lemma iappend_ok fs m s k ty c x :
  built fs m s -> fs !! k = Some (mkafile ty c (Z.of_nat (length c))) -> Z.of_nat (length x) <= BSIZE ->
  Z.of_nat (length (c ++ x)) <= FILE_LIMIT -> freeblock m + 8 <= FSSIZE ->
  returns (iappend (Z.of_nat k + 1) x) m (fun _ m' => freeblock m' <= freeblock m + 8 /\
    exists s', built (set_file fs k (mkafile ty (c ++ x) (Z.of_nat (length (c ++ x))))) m' s').
Proof.
  intros [A Hn Hh] Hk Hx Hlim Hfree. set (n := Z.of_nat k + 1). set (i := dino s n).
  set (s0 := mkfs (Blocks.sb s) (blk s) [] 1 [i] (console s)).
  assert (built fs m s0) as B0.
  { split; [by apply sim_cache | done |]. eapply (image_holds_same fs s); try done; apply A. }
  clear Hh. pose proof B0 as [A0 _ Hh]. apply lookup_lt_Some in Hk as Hlt. pose proof (h_count _ _ Hh) as Hc.
  pose proof (h_files _ _ Hh k _ Hk) as Hif. fold n in Hif. change (dino s0 n) with i in Hif.
  assert (FILE_LIMIT = 1090784256) as HFL by reflexivity. rewrite length_app in Hlim.
  set (R := other_blocks s0 (length fs) k).
  assert (ml_file s0 0 R) as Hf.
  { split; try apply Hif; [apply A0 | by apply (sim_small m) | simpl; lia |].
    apply (owned_perm _ _ _ (all_blocks_split s0 (length fs) k Hlt)). apply Hh. }
  set (off := Z.of_nat (length c)) in *. set (rem := Z.of_nat (length x)) in *.
  assert (FileIo.nblocks off rem <= 2) as Hnb.
  { unfold FileIo.nblocks. destruct (Z.leb_spec rem 0); [lia|]. pose proof (off_mod off). change BSIZE with 512 in *.
    Z.div_mod_to_equations. lia. }
  unfold iappend. unfold returns, mbind at 1, M_bind. rewrite (rinode_ok m s n A ltac:(unfold n; lia)). fold i.
  cbv beta iota zeta. assert (i_size i = off) as Esz by apply Hif. rewrite Esz, xint_small by lia. fold rem.
  assert (returns (iappend_loop (Z.to_nat (rem / BSIZE + 3)) i x off rem) m (fun r m' => exists s',
    r = (off + rem, icache s' !!! 0%nat) /\ sim m' s' /\ freeinode m' = freeinode m /\ wrote 0 R off x s0 s' /\
    avail s' (Z.to_nat (FSSIZE - freeblock m - 8)))) as HL.
  { apply (iappend_loop_ok _ _ 0%nat R off rem x m s0); try done; try lia; [by apply fuel_enough; lia | split; [|done] |].
    - rewrite (s_sb _ _ A0). assert (Z.min LOGSIZE (sb_nlog mkfs_sb - 1) = 29) as -> by done. cbn [s0 lh length]. lia.
    - apply (sim_avail m s0 A0). lia. }
  apply returns_eq in HL as (r & m1 & E1 & s1 & -> & A1 & N1 & W & Hav). unfold mbind, M_bind. rewrite E1. cbv beta iota.
  apply (sim_avail m1 s1 A1) in Hav. rewrite xint_small by lia.
  destruct (w_inode _ _ _ _ _ _ W) as [a Ea]. cbn in Ea. pose proof (w_file _ _ _ _ _ _ W) as Hf1.
  set (f' := mkafile ty (c ++ x) (Z.of_nat (length (c ++ x)))).
  assert (icache s1 !!! 0%nat = with_addrs a i) as Ei1 by (by rewrite Ea). rewrite Ei1.
  pose proof (mf_fields _ _ _ Hf1) as Hfi1. pose proof (mf_owned _ _ _ Hf1) as Ho1.
  pose proof (w_bytes _ _ _ _ _ _ W) as Wb. pose proof (w_keep _ _ _ _ _ _ W) as Wk. pose proof (w_map _ _ _ _ _ _ W) as Wm.
  rewrite Ei1 in Hfi1, Ho1, Wb, Wk, Wm. change (icache s0 !!! 0%nat) with i in Wb, Wk, Wm.
  set (i2 := with_size (off + rem) (with_addrs a i)).
  destruct (ml_view_ext s1 s1 (with_addrs a i) i2 ltac:(done) eq_refl) as [Vl Vb].
  destruct (winode_file fs m s0 m1 s1 k f' i2) as (m2 & s2 & W2 & B2 & F2); try done; try lia.
  - by apply (w_R _ _ _ _ _ _ W).
  - destruct Hif as [_ I2 I3 _ _ I6 I7]. split; try done; cbn [a_data a_size f' a_type]; rewrite ?length_app.
    + destruct Hfi1. split; try done. unfold uint_ok. cbn. lia.
    + cbn. lia.
    + lia.
    + intros o Ho. rewrite Vb, Wb by done. cbn [a_data] in I6. unfold byte_at. fold rem. case_decide as Eo.
      * rewrite lookup_app_r by lia. replace (Z.to_nat o - length c)%nat with (Z.to_nat (o - off)) by lia.
        rewrite (list_lookup_lookup_total_lt x) by lia. done.
      * rewrite I6 by done. unfold byte_at. destruct (Z.lt_ge_cases o off); [by rewrite lookup_app_l by lia|].
        rewrite !lookup_ge_None_2; rewrite ?length_app; done || lia.
    + intros o Ho. rewrite Vl. cbn [a_data] in I7. destruct (Z.lt_ge_cases o off).
      * apply Wk; [apply off_block_range; lia|]. apply I7. fold off. lia.
      * apply Wm. fold rem. lia.
  - fold n in W2. rewrite W2. split; [lia|]. by exists s2.
Qed.

(** ** The bitmap *)

Lemma balloc_bits_ok k : forall i buf, length buf = Z.to_nat BSIZE -> 0 <= i -> i + Z.of_nat k <= BPB ->
  length (balloc_bits k i buf) = Z.to_nat BSIZE /\
  forall j, 0 <= j -> bit_at (balloc_bits k i buf) j = ((i <=? j) && (j <? i + Z.of_nat k)) || bit_at buf j.
Proof.
  induction k as [|k IH]; intros i buf Hl Hi Hk; cbn [balloc_bits].
  { split; [done|]. intros j Hj. destruct (Z.leb_spec i j), (Z.ltb_spec j (i + Z.of_nat 0)); try lia; done. }
  destruct (IH (i + 1) (set_bit buf i)) as [L B]; [by rewrite length_set_bit | lia | lia|]. split; [done|]. intros j Hj.
  rewrite B, bit_at_set by (rewrite ?Hl; change BPB with 4096 in *; change BSIZE with 512 in *; lia).
  destruct (bit_at buf j); [by rewrite !orb_true_r|]. rewrite !orb_false_r.
  apply eq_true_iff_eq. rewrite orb_true_iff, !andb_true_iff, Z.eqb_eq, !Z.leb_le, !Z.ltb_lt. lia.
Qed.

(** the bit of block [c] *)
Definition marked (m : image) (c : Z) : bool := bit_at (sector_of m (BBLOCK c mkfs_sb)) (c mod BPB).

Lemma marked_zero m c : sector_of m (BBLOCK c mkfs_sb) = zero_block -> marked m c = false.
Proof.
  intros E. unfold marked, bit_at. rewrite E. unfold zero_block. change BPB with 4096. change BSIZE with 512.
  rewrite (list_lookup_total_correct _ _ 0); [apply Z.bits_0|]. apply lookup_replicate_2.
  pose proof (Z.mod_pos_bound c 4096). Z.div_mod_to_equations. lia.
Qed.

(** only the bitmap differs *)
Record bitmap_only (m m' : image) : Prop := {
  bo_len : im_len m' = im_len m;
  bo_next : freeblock m' = freeblock m;
  bo_plain : forall b, plain b -> sector_of m' b = sector_of m b;
  bo_size : (forall b, length (sector_of m b) = Z.to_nat BSIZE) -> forall b, length (sector_of m' b) = Z.to_nat BSIZE
}.

Lemma bitmap_only_trans m1 m2 m3 : bitmap_only m1 m2 -> bitmap_only m2 m3 -> bitmap_only m1 m3.
Proof. intros [A1 A2 A3 A4] [B1 B2 B3 B4]. split; [congruence | congruence | | auto]. intros b Hb. by rewrite B3, A3. Qed.

Lemma bitmap_loop_ok used fuel : forall b m,
  im_len m = FSSIZE -> used <= FSSIZE -> 0 <= b -> b mod BPB = 0 -> used - b <= (Z.of_nat fuel - 1) * BPB -> (0 < fuel)%nat ->
  (forall c, 0 <= c < FSSIZE -> marked m c = (c <? used) && (c <? b)) ->
  returns (Mkfs.balloc_loop fuel used b) m (fun _ m' => bitmap_only m m' /\
    forall c, 0 <= c < FSSIZE -> marked m' c = (c <? used)).
Proof.
  induction fuel as [|fuel IH]; intros b m Hl Hu Hb Hmod Hfuel Hf0 Hm; [lia|]. cbn [Mkfs.balloc_loop].
  change BPB with 4096 in *. destruct (Z.ltb_spec b used) as [Hlt|Hge].
  2:{ step. split; [by split|]. intros c Hc. rewrite Hm by done. destruct (Z.ltb_spec c used), (Z.ltb_spec c b); try done; lia. }
  set (n := if 4096 <? used - b then 4096 else used - b). assert (n = Z.min 4096 (used - b)) as En.
  { unfold n. destruct (Z.ltb_spec 4096 (used - b)); lia. }
  pose proof (BBLOCK_mkfs b ltac:(lia)) as Hbb.
  assert (xint (sb_bmapstart mkfs_sb) + b / 4096 = BBLOCK b mkfs_sb) as Eb.
  { unfold BBLOCK. change BPB with 4096. change (xint (sb_bmapstart mkfs_sb)) with (sb_bmapstart mkfs_sb). lia. }
  cbv zeta. rewrite Eb. set (d := balloc_bits (Z.to_nat n) 0 zero_block).
  destruct (balloc_bits_ok (Z.to_nat n) 0 zero_block) as [Ld Bd]; [done | done | change BPB with 4096; lia|]. fold d in Ld, Bd.
  apply returns_bind. unfold returns at 1. rewrite wsect_ok by (done || sizes; lia).
  set (m1 := write_sector (BBLOCK b mkfs_sb) d m).
  assert (bitmap_only m m1) as HB.
  { split; [done | done | |].
    - intros b' Hp. unfold m1. rewrite sector_of_put, decide_False; [done|]. intros <-. by apply (plain_BBLOCK _ b ltac:(lia) Hp).
    - intros Hs b'. unfold m1. rewrite sector_of_put. by case_decide. }
  eapply returns_mono; [apply (IH (b + 4096) m1); try done; try lia|].
  - by rewrite Z.add_mod, Hmod by done.
  - intros c Hc. unfold marked, m1. rewrite sector_of_put. change BPB with 4096.
    assert (BBLOCK b mkfs_sb = BBLOCK c mkfs_sb <-> b <= c < b + 4096) as Hbc.
    { unfold BBLOCK. change BPB with 4096. Z.div_mod_to_equations. lia. }
    case_decide as E.
    + apply Hbc in E. replace (c mod 4096) with (c - b) by (Z.div_mod_to_equations; lia). rewrite Bd by lia.
      pose proof (marked_zero empty_image (c - b) ltac:(done)) as Hz. unfold marked in Hz. change BPB with 4096 in Hz.
      rewrite Z.mod_small in Hz by lia. change (sector_of empty_image _) with zero_block in Hz. rewrite Hz, orb_false_r.
      apply eq_true_iff_eq. rewrite !andb_true_iff, Z.leb_le, !Z.ltb_lt. lia.
    + pose proof (Hm c Hc) as Hmc. unfold marked in Hmc. change BPB with 4096 in Hmc. rewrite Hmc.
      destruct (Z.ltb_spec c b), (Z.ltb_spec c (b + 4096)); try done; try lia; rewrite ?andb_false_r, ?andb_true_r; try done.
  - cbv beta. intros _ m' [HB' Hm']. split; [by eapply bitmap_only_trans | done].
Qed.

Lemma mkfs_balloc_ok used m :
  im_len m = FSSIZE -> 0 <= used < FSSIZE -> (forall b, ~ plain b -> sector_of m b = zero_block) ->
  returns (Mkfs.balloc used) m (fun _ m' => bitmap_only m m' /\ forall c, 0 <= c < FSSIZE -> marked m' c = (c <? used)).
Proof.
  intros Hl Hu Hz. unfold Mkfs.balloc. destruct (Z.ltb_spec used FSSIZE); [|lia].
  apply bitmap_loop_ok; try done; try lia; change BPB with 4096; [Z.div_mod_to_equations; lia .. |].
  intros c Hc. rewrite andb_comm. destruct (Z.ltb_spec c 0); [lia|]. cbn [andb].
  apply marked_zero, Hz. intros Hp. by apply (plain_BBLOCK _ c Hc Hp).
Qed.

(** the kernel that starts on the image, in a transaction *)
Definition booted (m : image) (cache : list inode) : fsys := mkfs mkfs_sb (im m) [] 1 cache [].

Lemma booted_ok m m' cache :
  bitmap_only m m' -> (forall b, length (sector_of m b) = Z.to_nat BSIZE) -> nmeta <= freeblock m <= FSSIZE ->
  (forall c, 0 <= c < FSSIZE -> marked m' c = (c <? freeblock m)) ->
  geom (booted m' cache) /\ forall c, 0 <= c < FSSIZE -> used (booted m' cache) c = (c <? freeblock m).
Proof.
  intros HB Hs Hf Hm. pose proof (bo_size _ _ HB Hs) as Hs'.
  assert (forall c, 0 <= c < FSSIZE -> used (booted m' cache) c = (c <? freeblock m)) as Hu by exact Hm.
  split; [|done]. split; try done.
  - rewrite Hu by (sizes; lia). apply Z.ltb_lt. sizes. lia.
  - intros b Hb. change (sb_size (Blocks.sb (booted m' cache))) with FSSIZE in *. change (Blocks.sb (booted m' cache)) with mkfs_sb.
    pose proof (BBLOCK_mkfs b Hb). sizes. lia.
  - intros b Hb. change (sb_size (Blocks.sb (booted m' cache))) with FSSIZE in *. change (Blocks.sb (booted m' cache)) with mkfs_sb.
    pose proof (BBLOCK_mkfs b Hb). rewrite Hu by (sizes; lia). apply Z.ltb_lt. lia.
Qed.

(** ** The run of mkfs *)

(** a directory entry *)
Definition entry (inum : Z) (name : list Z) : list Z := dirent_bytes (mkdirent inum (strncpy (Z.to_nat DIRSIZ) name)).

Lemma length_entry inum name : length (entry inum name) = 16%nat.
Proof. unfold entry, dirent_bytes. cbn [de_inum de_name]. by rewrite length_app, length_le_bytes, length_strncpy. Qed.

(** a file whose size is the number of its bytes *)
Definition whole (ty : Z) (c : list Z) : afile := mkafile ty c (Z.of_nat (length c)).

(** [m'] is the image after some appends to [m] that take at most [n] blocks *)
Definition grows (n : Z) (m : image) (fs : list afile) (m' : image) : Prop :=
  freeblock m' <= freeblock m + n /\ exists s', built fs m' s'.

Lemma add_entry_ok c fs m s inum name :
  built (whole T_DIR c :: fs) m s -> 0 <= inum < NINODES -> Z.of_nat (length c) + 16 <= FILE_LIMIT -> freeblock m + 8 <= FSSIZE ->
  returns (add_entry inum name) m (fun _ m' => grows 8 m (whole T_DIR (c ++ entry inum name) :: fs) m').
Proof.
  intros B Hi Hl Hf. change NINODES with 200 in Hi. unfold add_entry.
  assert (xshort (u16 inum) = inum) as ->.
  { unfold xshort, u16. rewrite le_val_bytes. change (256 ^ Z.of_nat 2) with (2 ^ 16). rewrite Z.mod_mod, Z.mod_small by lia. done. }
  apply (iappend_ok _ m s 0 T_DIR c (entry inum name) B eq_refl); [by rewrite length_entry | rewrite length_app, length_entry; lia | done].
Qed.

Lemma add_chunks_ok ty fs chunks : forall c m s,
  built (fs ++ [whole ty c]) m s -> Forall (fun x => Z.of_nat (length x) <= BSIZE) chunks ->
  Z.of_nat (length (c ++ concat chunks)) <= FILE_LIMIT -> freeblock m + 8 * Z.of_nat (length chunks) <= FSSIZE ->
  returns (add_chunks (Z.of_nat (length fs) + 1) chunks) m (fun _ m' =>
    grows (8 * Z.of_nat (length chunks)) m (fs ++ [whole ty (c ++ concat chunks)]) m').
Proof.
  induction chunks as [|x chunks IH]; intros c m s B Hx Hl Hf; cbn [add_chunks concat].
  { step. split; [lia|]. exists s. by rewrite app_nil_r. }
  apply Forall_cons in Hx as [Hx Hxs]. cbn [concat length] in Hl, Hf |- *. rewrite (assoc_L (++)) in Hl |- *.
  apply returns_bind. eapply returns_mono; [apply (iappend_ok _ m s (length fs) ty c x B)|]; try done; try lia.
  - by rewrite lookup_app_r, Nat.sub_diag by lia.
  - rewrite length_app in Hl. lia.
  - cbv beta. intros _ m1 [Hf1 (s1 & B1)].
    assert (set_file (fs ++ [whole ty c]) (length fs) (whole ty (c ++ x)) = fs ++ [whole ty (c ++ x)]) as E.
    { unfold set_file. rewrite take_app_length. by rewrite drop_ge by (rewrite length_app; simpl; lia). }
    unfold whole in E at 2. rewrite E in B1. eapply returns_mono; [apply (IH (c ++ x) m1 s1 B1)|]; try done; try lia.
    cbv beta. intros _ m2 [Hf2 HB]. split; [lia | done].
Qed.

(** the host's files: a name without slashes, and at most one block per call of
    [read] *)
Definition readable (x : list Z * option (list (list Z))) : Prop :=
  SLASH ∉ x.1 /\ match x.2 with Some chunks => Forall (fun c => Z.of_nat (length c) <= BSIZE) chunks | None => False end.

Definition chunks_of (x : list Z * option (list (list Z))) : list (list Z) := default [] x.2.
Definition host_file (x : list Z * option (list (list Z))) : afile := whole T_FILE (concat (chunks_of x)).

(** the entries for [files], with inode numbers from [n] *)
Fixpoint named (n : Z) (files : list (list Z * option (list (list Z)))) : list dirent :=
  match files with
  | [] => []
  | x :: files => mkdirent n (strncpy (Z.to_nat DIRSIZ) (strip x.1)) :: named (n + 1) files
  end.
Definition entries (n : Z) (files : list (list Z * option (list (list Z)))) : list Z := dir_bytes (named n files).

Lemma entries_cons n x files : entries n (x :: files) = entry n (strip x.1) ++ entries (n + 1) files.
Proof. unfold entries, dir_bytes. cbn [named]. by rewrite bind_cons. Qed.

(** appends needed *)
Definition appends (files : list (list Z * option (list (list Z)))) : Z :=
  foldr (fun x a => 1 + Z.of_nat (length (chunks_of x)) + a) 0 files.

Lemma appends_nonneg files : 0 <= appends files.
Proof. induction files as [|x files IH]; simpl; lia. Qed.

Lemma length_chunks (chunks : list (list Z)) : Forall (fun c => Z.of_nat (length c) <= BSIZE) chunks ->
  Z.of_nat (length (concat chunks)) <= BSIZE * Z.of_nat (length chunks).
Proof. induction 1 as [|c l Hc _ IH]; cbn [concat length]; [lia|]. rewrite length_app. change BSIZE with 512 in *. lia. Qed.

Lemma add_files_ok files : forall c fs m s,
  built (whole T_DIR c :: fs) m s -> Forall readable files ->
  Z.of_nat (length fs) + 1 + Z.of_nat (length files) < NINODES ->
  Z.of_nat (length c) = 16 * (Z.of_nat (length fs) + 2) -> nmeta <= freeblock m -> freeblock m + 8 * appends files <= FSSIZE ->
  returns (add_files files) m (fun _ m' => grows (8 * appends files) m
    (whole T_DIR (c ++ entries (Z.of_nat (length fs) + 2) files) :: fs ++ (host_file <$> files)) m').
Proof.
  assert (FILE_LIMIT = 1090784256) as HFL by reflexivity.
  induction files as [|[arg host] files IH]; intros c fs m s B Hr Hn Hc H0 Hf; cbn [add_files].
  { step. split; [cbn; lia|]. exists s. unfold entries, dir_bytes. cbn [named]. by rewrite !app_nil_r. }
  rewrite entries_cons.
  apply Forall_cons in Hr as [[Hs Hh] Hr]. cbn [fst snd] in Hs, Hh. destruct host as [chunks|]; [|done].
  cbn [appends foldr length] in Hf, Hn |- *. change (chunks_of (arg, Some chunks)) with chunks in *.
  pose proof (appends_nonneg files) as Ha. fold (appends files) in *. pose proof FSSIZE_eq as HFS. pose proof nmeta_eq as Hnm. pose proof (length_chunks chunks Hh) as Hlc. change BSIZE with 512 in Hlc.
  change NINODES with 200 in Hn. apply returns_bind. unfold add_file. rewrite bool_decide_eq_false_2 by done. apply returns_bind.
  eapply returns_mono; [apply (ialloc_ok _ m s T_FILE B); [cbn [length]; change NINODES with 200; lia | done]|].
  cbv beta. intros n m1 (-> & F1 & s1 & B1). apply returns_bind. cbn [app] in B1.
  eapply returns_mono; [apply (add_entry_ok c _ m1 s1 _ (strip arg) B1); [cbn [length]; change NINODES with 200; lia | lia | lia]|].
  cbv beta. intros _ m2 (F2 & s2 & B2). set (n := Z.of_nat (length (whole T_DIR c :: fs)) + 1) in *.
  set (c2 := c ++ entry n (strip arg)) in *.
  eapply returns_mono; [apply (add_chunks_ok T_FILE (whole T_DIR c2 :: fs) chunks [] m2 s2)|]; try done; [cbn [app]; lia | lia |].
  cbv beta. cbn [app]. intros _ m3 (F3 & s3 & B3).
  eapply returns_mono; [apply (IH c2 (fs ++ [whole T_FILE (concat chunks)]) m3 s3 B3 Hr)|].
  - rewrite length_app. cbn [length]. change NINODES with 200. lia.
  - unfold c2. rewrite !length_app, length_entry. cbn [length]. lia.
  - apply (s_free _ _ (bu_sim _ _ _ B3)).
  - lia.
  - cbv beta. intros _ m4 (F4 & s4 & B4). split; [lia|]. exists s4. cbn [fst] in *.
    rewrite length_app in B4. cbn [length] in B4. unfold c2 in B4. rewrite <- !(assoc_L (++)) in B4.
    replace (Z.of_nat (length fs) + 2) with n by (unfold n; cbn [length]; lia).
    replace (Z.of_nat (length fs + 1) + 2) with (n + 1) in B4 by (unfold n; cbn [length]; lia). exact B4.
Qed.

(** the image before the first inode *)
Definition start : image := write_sector 1 (head_block 1) (mkimage ∅ FSSIZE 1 nmeta).

Lemma start_sector b : sector_of start b = if decide (1 = b) then head_block 1 else zero_block.
Proof. unfold start. by rewrite sector_of_put. Qed.

Lemma start_ok : wsect 1 (splice zero_block 0 (superblock_bytes mkfs_sb)) (mkimage ∅ FSSIZE 1 nmeta) = Ok (tt, start).
Proof. rewrite wsect_ok; [|reflexivity | sizes; lia]. unfold start, head_block. by rewrite decide_True. Qed.

Lemma slice_zero_block off n : le_val (slice zero_block off n) = 0.
Proof.
  unfold slice, zero_block. rewrite drop_replicate, take_replicate. generalize (Z.to_nat n `min` (Z.to_nat BSIZE - Z.to_nat off))%nat as k.
  induction k as [|k IH]; [done|]. cbn [replicate le_val]. by rewrite IH.
Qed.

Lemma start_built : exists s, built [] start s.
Proof.
  destruct (proj1 (returns_eq _ _ _) (mkfs_balloc_ok nmeta start eq_refl ltac:(sizes; lia) ltac:(
    intros b Hp; rewrite start_sector, decide_False; [done | intros <-; apply Hp; left; sizes; lia])))
    as ([] & m' & _ & HB & Hm).
  assert (forall b, length (sector_of start b) = Z.to_nat BSIZE) as Hs.
  { intros b. rewrite start_sector. by case_decide. }
  destruct (booted_ok start m' [] HB Hs ltac:(cbn; sizes; lia) Hm) as [G U]. exists (booted m' []).
  assert (sim start (booted m' [])) as A.
  { split; [done | done | done | change (freeblock start) with nmeta; sizes; lia | done | by apply HB |].
    intros b Hb. rewrite start_sector, decide_False; [done|]. intros <-. change (freeblock start) with nmeta in Hb.
    destruct Hb as [Hb|Hb]; [sizes; lia | apply Hb; left; sizes; lia]. }
  assert (forall b, b ∈ meta_blocks -> block_of (booted m' []) b = head_block b) as Hmeta.
  { intros b Hb. apply elem_of_meta in Hb. rewrite (s_blk _ _ A) by (left; lia). rewrite start_sector. unfold head_block.
    repeat case_decide; done. }
  split; [done | done |]. split; [cbn; change NINODES with 200; lia | done | | |].
  - intros n Hn. cbn in Hn. unfold dino, disk_inode. change (Blocks.sb (booted m' [])) with mkfs_sb.
    rewrite Hmeta by (apply IBLOCK_in; lia). unfold head_block. rewrite decide_False.
    + cbn [read_dinode i_type]. by rewrite slice_zero_block.
    + unfold IBLOCK. change IPB with 8. sizes. Z.div_mod_to_equations. lia.
  - unfold all_blocks. cbn [length]. rewrite seqZ_nil, app_nil_r by lia. split; [apply NoDup_seqZ|].
    apply Forall_forall. intros b Hb. by apply (meta_data start).
  - intros b Hb. apply Hmeta, elem_of_meta. sizes. lia.
Qed.

(** ** The root directory *)

(** its entries: itself, the root as its own parent, and the files *)
Definition root_names (files : list (list Z * option (list (list Z)))) : list dirent :=
  mkdirent ROOTINO (strncpy (Z.to_nat DIRSIZ) (str ".")) :: mkdirent ROOTINO (strncpy (Z.to_nat DIRSIZ) (str "..")) :: named 2 files.

Definition no_entry : dirent := mkdirent 0 (replicate (Z.to_nat DIRSIZ) 0).

(** the size is rounded up to the next block, past the last entry *)
Definition root_file (files : list (list Z * option (list (list Z)))) : afile :=
  let c := dir_bytes (root_names files) in
  mkafile T_DIR c ((Z.of_nat (length c) / BSIZE + 1) * BSIZE).
Definition root_entries (files : list (list Z * option (list (list Z)))) : list dirent :=
  root_names files ++
  replicate (Z.to_nat (a_size (root_file files) / DIRENT_SIZE) - length (root_names files)) no_entry.

Definition image_files (files : list (list Z * option (list (list Z)))) : list afile :=
  root_file files :: (host_file <$> files).

Lemma image_files_lookup files k x : files !! k = Some x -> image_files files !! S k = Some (host_file x).
Proof. intros Hx. change ((host_file <$> files) !! k = Some (host_file x)). by rewrite list_lookup_fmap, Hx. Qed.

Record fits (files : list (list Z * option (list (list Z)))) : Prop := {
  ft_readable : Forall readable files;
  ft_inodes : Z.of_nat (length files) + 1 < NINODES;
  ft_blocks : nmeta + 8 * (2 + appends files) < FSSIZE
}.

Lemma length_named n files : length (named n files) = length files.
Proof. revert n. induction files as [|x files IH]; intros n; cbn [named length]; [done|]. by rewrite IH. Qed.

Lemma named_ok n files de : 0 < n -> n + Z.of_nat (length files) < NINODES + 1 -> de ∈ named n files ->
  dirent_ok de /\ n <= de_inum de < n + Z.of_nat (length files).
Proof.
  change NINODES with 200. revert n. induction files as [|x files IH]; intros n H0 Hn Hd; cbn [named length] in *; [by apply elem_of_nil in Hd|].
  apply elem_of_cons in Hd as [->|Hd].
  - split; [split; cbn [de_inum de_name]; [lia | by rewrite length_strncpy] | cbn [de_inum]; lia].
  - destruct (IH (n + 1)) as [H1 H2]; try done; try lia. split; [done | lia].
Qed.

Lemma root_names_ok files de : fits files -> de ∈ root_names files ->
  dirent_ok de /\ 1 <= de_inum de <= Z.of_nat (length files) + 1.
Proof.
  intros [_ Hn _] Hd. change NINODES with 200 in Hn. unfold root_names in Hd. rewrite !elem_of_cons in Hd.
  destruct Hd as [->|[->|Hd]]; [split; [split; vm_compute; split; congruence | change (1 <= 1 <= Z.of_nat (length files) + 1); lia] .. |].
  destruct (named_ok 2 files de) as [H1 H2]; [lia | change NINODES with 200; lia | done |]. split; [done | lia].
Qed.

Lemma root_bytes files : dir_bytes (root_names files) = (entry ROOTINO (str ".") ++ entry ROOTINO (str "..")) ++ entries 2 files.
Proof. unfold root_names, dir_bytes. by rewrite !bind_cons, <- (assoc_L (++)). Qed.

Lemma length_root_bytes files : fits files ->
  Z.of_nat (length (dir_bytes (root_names files))) = 16 * (Z.of_nat (length files) + 2).
Proof.
  intros Hf. rewrite length_dir_bytes; [|by apply Forall_forall; intros; apply (root_names_ok files)].
  unfold root_names. cbn [length]. rewrite length_named. lia.
Qed.

Lemma sim_length m s b : sim m s -> length (sector_of m b) = Z.to_nat BSIZE.
Proof.
  intros A. destruct (decide (b < sb_bmapstart mkfs_sb \/ nmeta <= b)) as [Hp|Hp].
  - rewrite <- (s_blk _ _ A b Hp). apply (g_len _ (s_geom _ _ A)).
  - by rewrite (s_zero _ _ A b (or_intror Hp)).
Qed.

Lemma main_ok files : fits files ->
  returns (main files) empty_image (fun _ m' => exists m s, built (image_files files) m s /\ bitmap_only m m' /\
    freeblock m < FSSIZE /\ forall c, 0 <= c < FSSIZE -> marked m' c = (c <? freeblock m)).
Proof.
  intros Hfit. pose proof (length_root_bytes files Hfit) as Hlr. destruct Hfit as [Hr Hn Hb]. pose proof FSSIZE_eq as HFS. pose proof nmeta_eq as Hnm.
  pose proof (appends_nonneg files) as Ha. assert (FILE_LIMIT = 1090784256) as HFL by reflexivity. change NINODES with 200 in Hn.
  unfold main. apply returns_bind, returns_modify, returns_bind, returns_modify, returns_bind.
  change (set_im_len _ _) with (mkimage ∅ FSSIZE 1 nmeta). unfold returns at 1. rewrite start_ok.
  destruct start_built as [s0 B0]. apply returns_bind.
  eapply returns_mono; [apply (ialloc_ok [] start s0 T_DIR B0); [cbn; change NINODES with 200; lia | done]|].
  cbv beta. intros n m1 (-> & F1 & s1 & B1). cbn [length Z.of_nat Z.add app] in *. change (negb (1 =? ROOTINO)) with false. cbv iota.
  change (freeblock start) with nmeta in F1. apply returns_bind.
  eapply returns_mono; [apply (add_entry_ok [] [] m1 s1 1 (str ".") B1); [change NINODES with 200; lia | cbn; lia | lia]|].
  cbv beta. intros _ m2 (F2 & s2 & B2). apply returns_bind.
  eapply returns_mono; [apply (add_entry_ok _ [] m2 s2 1 (str "..") B2); [change NINODES with 200; lia | rewrite length_app, length_entry; cbn; lia | lia]|].
  cbv beta. intros _ m3 (F3 & s3 & B3). apply returns_bind.
  eapply returns_mono; [apply (add_files_ok files _ [] m3 s3 B3 Hr)|].
  { change NINODES with 200. cbn. lia. } { rewrite !length_app, !length_entry. cbn. lia. } { apply (bu_sim _ _ _ B3). } { lia. }
  cbv beta. intros _ m4 (F4 & s4 & B4). cbn [app length Z.of_nat Z.add] in B4.
  change (entry 1 (str ".") ++ entry 1 (str "..")) with (entry ROOTINO (str ".") ++ entry ROOTINO (str "..")) in B4.
  change (Z.of_nat 0 + 2) with 2 in B4. change (Z.of_nat 0 + 1) with 1. rewrite <- (root_bytes files) in B4. set (c := dir_bytes (root_names files)) in *. pose proof B4 as [A4 N4 H4].
  unfold returns, mbind at 1, M_bind. rewrite (rinode_ok m4 s4 1 A4 ltac:(change NINODES with 200; lia)). cbv beta iota zeta.
  pose proof (h_files _ _ H4 0%nat _ eq_refl) as Hif. change (Z.of_nat 0 + 1) with 1 in Hif. set (i := dino s4 1) in *.
  assert (i_size i = Z.of_nat (length c)) as Hz by apply Hif. set (z := (Z.of_nat (length c) / 512 + 1) * 512).
  assert (0 <= z < 2 ^ 32) as Hzr by (unfold z; Z.div_mod_to_equations; lia).
  assert (xint (u32 ((xint (i_size i) / BSIZE + 1) * BSIZE)) = z) as ->.
  { rewrite Hz, (xint_small (Z.of_nat (length c))) by lia. change BSIZE with 512. fold z. by rewrite u32_small, xint_small. }
  destruct (winode_file (whole T_DIR c :: (host_file <$> files)) m4 s4 m4 s4 0 (root_file files) (with_size z i)) as (m5 & s5 & W & B5 & F5);
    try done; try lia.
  - cbn [length] in N4 |- *. change NINODES with 200. lia.
  - destruct Hif as [I1 I2 I3 I4 I5 I6 I7]. split; try done. by destruct I1.
  - apply (owned_perm _ _ _ (all_blocks_split s4 _ 0 (Nat.lt_0_succ _))). apply H4.
  - change (Z.of_nat 0 + 1) with 1 in W. unfold mbind, M_bind. rewrite W. cbv beta iota. unfold get.
    change (set_file _ 0 _) with (image_files files) in B5. pose proof (s_free _ _ (bu_sim _ _ _ B5)) as Hf5.
    pose proof (mkfs_balloc_ok (freeblock m5) m5 (s_len _ _ (bu_sim _ _ _ B5)) ltac:(lia)
      ltac:(intros b Hp; apply (s_zero _ _ (bu_sim _ _ _ B5)); by right)) as HM.
    unfold returns in HM. destruct (Mkfs.balloc (freeblock m5) m5) as [[[] m']| |]; [|done|done]. destruct HM as [HB HM].
    exists m5, s5. split_and!; try done. lia.
Qed.

(** what the kernel loads is the file, its data followed by zeros *)
Lemma file_ml_holds fs s k f :
  geom s -> Blocks.sb s = mkfs_sb -> image_holds fs s -> fs !! k = Some f -> a_type f <> T_DEV ->
  Z.of_nat (length (a_data f)) <= a_size f <= FILE_LIMIT ->
  (forall o, Z.of_nat (length (a_data f)) <= o < a_size f -> 0 < Z.of_nat (length (a_data f)) /\ o / BSIZE = (Z.of_nat (length (a_data f)) - 1) / BSIZE) ->
  ml_holds (put_cache s [dino s (Z.of_nat k + 1)]) 0
    (a_data f ++ replicate (Z.to_nat (a_size f) - length (a_data f)) 0).
Proof.
  intros G Hs H Hk Hty Hz Hlast. apply lookup_lt_Some in Hk as Hlt. pose proof (h_files _ _ H k f Hk) as [I1 I2 I3 I4 I5 I6 I7].
  pose proof (h_count _ _ H) as Hc. set (n := Z.of_nat k + 1) in *. set (i := dino s n) in *. set (s' := put_cache s [i]).
  change (icache s' !!! 0%nat) with i in *. set (R := other_blocks s (length fs) k).
  assert (forall o, 0 <= o < a_size f -> ml_lookup s i (o / BSIZE) <> 0) as Hd.
  { intros o Ho. destruct (Z.lt_ge_cases o (Z.of_nat (length (a_data f)))); [apply I7; lia|].
    destruct (Hlast o ltac:(lia)) as [Hpos ->]. apply I7. lia. }
  destruct (ml_view_ext s s' i i ltac:(done) eq_refl) as [Vl Vb].
  exists R. change (icache s' !!! 0%nat) with i. split_and!.
  - split; try done; [by apply geom_set_icache | unfold small_disk; change (Blocks.sb s') with (Blocks.sb s); rewrite Hs; sizes; lia | simpl; lia |].
    apply (owned_perm _ _ _ (all_blocks_split s (length fs) k Hlt)), H.
  - by rewrite I2.
  - change (i_inum i) with n. lia.
  - apply elem_of_app. left. change (i_inum i) with n. change (Blocks.sb s') with (Blocks.sb s). rewrite Hs. apply IBLOCK_in. lia.
  - intros j. done.
  - unfold dense. change (icache s' !!! 0%nat) with i. rewrite I4. split; [lia|]. intros o Ho. rewrite Vl. by apply Hd.
  - apply list_eq. intros j. rewrite I4. destruct (decide (j < Z.to_nat (a_size f))%nat) as [Hj|Hj].
    + rewrite lookup_bytes_from, Z.add_0_l by done. rewrite Vb, I6 by lia. unfold byte_at. rewrite Nat2Z.id. destruct (decide (j < length (a_data f))%nat) as [Hl|Hl].
      * rewrite lookup_app_l by done. apply lookup_lt_is_Some in Hl as [v ->]. done.
      * rewrite lookup_app_r, (lookup_ge_None_2 (a_data f)) by lia. rewrite lookup_replicate_2 by lia. done.
    + rewrite !lookup_ge_None_2; [done | rewrite length_bytes_from; lia | rewrite length_app, length_replicate; lia].
Qed.

Lemma no_entries_bytes p : dir_bytes (replicate p no_entry) = replicate (16 * p) 0.
Proof.
  unfold dir_bytes. induction p as [|p IH]; [done|]. cbn [replicate]. rewrite bind_cons, IH.
  replace (16 * S p)%nat with (16 + 16 * p)%nat by lia. by rewrite replicate_add.
Qed.

Lemma root_entries_bytes files : fits files ->
  a_data (root_file files) ++ replicate (Z.to_nat (a_size (root_file files)) - length (a_data (root_file files))) 0 =
  dir_bytes (root_entries files).
Proof.
  intros Hf. pose proof (length_root_bytes files Hf) as Hl. unfold root_entries. rewrite dir_bytes_app, no_entries_bytes.
  unfold root_file. cbn [a_data a_size]. do 2 f_equal. rewrite Hl.
  assert (length (root_names files) = length files + 2)%nat as -> by (unfold root_names; cbn [length]; rewrite length_named; lia).
  change BSIZE with 512. change DIRENT_SIZE with 16. set (z := (16 * (Z.of_nat (length files) + 2) / 512 + 1) * 512).
  assert (z = 16 * (32 * (16 * (Z.of_nat (length files) + 2) / 512 + 1))) as Ez by (unfold z; lia).
  rewrite Ez, (Z.mul_comm 16 (32 * _)), Z.div_mul by lia. lia.
Qed.

Lemma root_entries_ok files : fits files -> Forall dirent_ok (root_entries files).
Proof.
  intros Hf. apply Forall_app. split; [apply Forall_forall; intros; by apply (root_names_ok files)|].
  apply Forall_replicate. split; [vm_compute; split; congruence | done].
Qed.

Section Result.
Context `{DevSw}.

(** the directories of the image *)
Lemma image_tree files s :
  fits files -> (Z.of_nat (length files) + 2) mod 32 <> 0 ->
  geom s -> Blocks.sb s = mkfs_sb -> image_holds (image_files files) s ->
  tree_ok s {[ROOTINO := root_entries files]}.
Proof.
  intros Hf Hmod G Hs Hh. pose proof (length_root_bytes files Hf) as Hl. pose proof (ft_inodes _ Hf) as Hn. change NINODES with 200 in Hn.
  split.
  - intros n es Hes. apply lookup_singleton_Some in Hes as [<- <-]. pose proof (h_files _ _ Hh 0%nat _ eq_refl) as Hif.
    change (dino s (Z.of_nat 0 + 1)) with (inode_of s ROOTINO) in Hif. split; [split|].
    + apply Hif.
    + rewrite <- (root_entries_bytes files Hf). apply (file_ml_holds (image_files files) s 0 (root_file files)); try done.
      * assert (FILE_LIMIT = 1090784256) as HFL by reflexivity. unfold root_file. cbn [a_data a_size]. rewrite Hl. change BSIZE with 512.
        Z.div_mod_to_equations. lia.
      * unfold root_file. cbn [a_data a_size]. rewrite Hl. change BSIZE with 512. intros o Ho. split; [lia|].
        Z.div_mod_to_equations. lia.
    + by apply root_entries_ok.
    + change (i_nlink (inode_of s ROOTINO) <> 0). rewrite (if_nlink _ _ _ Hif). lia.
  - intros n es name k Hes Hk. apply lookup_singleton_Some in Hes as [<- <-]. unfold dir_map in Hk.
    destruct (dir_find name (root_entries files)) as [[j k']|] eqn:E; [|done]. injection Hk as ->.
    apply dir_find_Some in E as (de & Hde & Hi & Hk0 & _). apply list_elem_of_lookup_2 in Hde. unfold root_entries in Hde.
    apply elem_of_app in Hde as [Hde|Hde]; [|apply elem_of_replicate in Hde as [-> _]; by subst k].
    destruct (root_names_ok files de Hf Hde) as [_ Hr]. rewrite Hi in Hr. destruct (Z.eq_dec k ROOTINO) as [->|Hne].
    { left. rewrite lookup_singleton_eq. by eexists. }
    right. split; [by apply lookup_singleton_ne|]. change ROOTINO with 1 in Hne.
    destruct (lookup_lt_is_Some_2 files (Z.to_nat (k - 2)) ltac:(lia)) as [x Hx].
    pose proof (image_files_lookup _ _ _ Hx) as Hx'.
    pose proof (h_files _ _ Hh _ _ Hx') as Hif. replace (Z.of_nat (S (Z.to_nat (k - 2))) + 1) with k in Hif by lia.
    unfold disk_file. change (inode_of s k) with (dino s k). rewrite (if_type _ _ _ Hif), (if_nlink _ _ _ Hif). done.
Qed.

(** C15: mkfs.  For host files that can be read and fit, mkfs ends, and on the
    image it leaves, whatever the inode cache of the kernel holds: the blocks in
    use are those before the first free one; the superblock is there and the log
    empty; inode 1 is the root directory and the inodes that follow are the host
    files, no block having two uses, and every other inode is free; what the
    kernel loads of a file holds the bytes of the host's; and the directories
    form the tree of one root with an entry for each file (the entries must not
    fill the last block). *)
Theorem mkfs_correct files : fits files ->
  returns (main files) empty_image (fun _ m =>
    im_len m = FSSIZE /\ nmeta <= freeblock m < FSSIZE /\
    forall cache, let s := booted m cache in
      geom s /\ (forall b, 0 <= b < FSSIZE -> used s b = (b <? freeblock m)) /\
      image_holds (image_files files) s /\
      (forall k x, files !! k = Some x ->
         ml_holds (put_cache s [inode_of s (Z.of_nat k + 2)]) 0 (concat (chunks_of x))) /\
      ((Z.of_nat (length files) + 2) mod 32 <> 0 -> tree_ok s {[ROOTINO := root_entries files]})).
Proof.
  intros Hf. eapply returns_mono; [by apply main_ok|]. cbv beta. intros _ m' (m & s & B & HB & Hlt & HM).
  pose proof (bu_sim _ _ _ B) as A. pose proof (s_free _ _ A) as Hfree. rewrite (bo_len _ _ HB), (bo_next _ _ HB).
  split; [apply A|]. split; [lia|]. intros cache.
  destruct (booted_ok m m' cache HB (fun b => sim_length m s b A) Hfree HM) as [G U].
  assert (image_holds (image_files files) (booted m' cache)) as Hh.
  { apply (image_holds_same _ s); [apply A | done | | | apply B].
    - intros c Hc. by rewrite U, (s_used _ _ A).
    - intros b Hb. rewrite (s_blk _ _ A) by done. by apply (bo_plain _ _ HB). }
  split_and!; [done | done | done | | by intros; apply image_tree].
  intros k x Hx. pose proof (file_ml_holds (image_files files) (booted m' cache) (S k) (host_file x) G eq_refl Hh) as Hm.
  replace (Z.of_nat (S k) + 1) with (Z.of_nat k + 2) in Hm by lia. cbn [host_file whole a_data a_size a_type] in Hm.
  rewrite Nat2Z.id, Nat.sub_diag, app_nil_r in Hm.
  pose proof (image_files_lookup _ _ _ Hx) as Hx'.
  apply Hm; try done; [|lia]. split; [done|]. apply (if_limit _ _ _ (h_files _ _ Hh _ _ Hx')).
Qed.
End Result.

(** two programs and an empty file *)
Definition demo_files : list (list Z * option (list (list Z))) :=
  [(str "_cat", Some [replicate 512 7; [1; 2]]); (str "README", Some [])].

Lemma demo_files_fit : fits demo_files.
Proof.
  split; [|vm_compute; reflexivity..].
  repeat constructor; try (vm_compute; congruence); apply (bool_decide_unpack _); vm_compute; exact I.
Qed.

Lemma mkfs_correct_witness :
  returns (main demo_files) empty_image (fun _ m => let s := booted m [] in
    freeblock m < FSSIZE /\ i_size (inode_of s 2) = 514 /\
    ml_holds (put_cache s [inode_of s 2]) 0 (replicate 512 7 ++ [1; 2]) /\
    exists es, tree_ok (H := ml_ops (H := no_devs)) s {[ROOTINO := es]} /\
      dir_map es (str "cat") = Some 2 /\ dir_map es (str "README") = Some 3 /\ dir_map es (str "_cat") = None).
Proof.
  eapply returns_mono; [apply (mkfs_correct (H := no_devs) demo_files demo_files_fit)|].
  cbv beta zeta. intros _ m (_ & Hm & Hs). destruct (Hs []) as (_ & _ & Hh & Hb & Ht). split; [apply Hm|].
  split; [exact (if_size _ _ _ (h_files _ _ Hh 1%nat _ eq_refl))|]. split; [exact (Hb 0%nat _ eq_refl)|].
  exists (root_entries demo_files). split; [apply Ht; vm_compute; congruence|]. by vm_compute.
Defined.

(** the 208th inode is written over the bitmap: nothing compares [freeinode]
    with [NINODES] *)
Example inode_on_bitmap : IBLOCK 208 mkfs_sb = sb_bmapstart mkfs_sb.
Proof. by vm_compute. Qed.

(** with 30 files the root directory has one block more than its entries fill,
    and that block is not mapped: a read of the directory outside a transaction,
    as [read] of a program does it, panics *)
Definition thirty_files : list (list Z * option (list (list Z))) :=
  (fun k => ([97; 65 + k], Some [])) <$> seqZ 0 30.
Example full_directory_panics :
  match main thirty_files empty_image with
  | Ok (_, m) =>
      let s := booted m [] in
      let s := mkfs (Blocks.sb s) (blk s) [] 0 [inode_of s ROOTINO] [] in
      MlIo.readi (H := no_devs) 0 496 16 s = Ok ((16, entry 31 [97; 94]), s) /\
      MlIo.readi (H := no_devs) 0 512 16 s = Panic "log_write outside of trans"
  | _ => False
  end.
Proof. vm_compute. split; reflexivity. Qed.
