(* ===== verification/Grep.v ===== *)
(** * The grep program ([grep.c])

    The matcher for the operators [^], [.], [*] and [$], the loop that reads a
    file through a buffer of 1024 bytes and writes the lines that match, and
    [main].  A string is the list of its bytes before the NUL; [match] is a
    keyword, so that function is [match_].

    A file is read in order; a [read] of a regular file gives as many bytes as
    fit in the buffer, and one of a pipe or of the console may give fewer. *)

From S2P Require Import Prelude CStr.

Definition CARET : Z := 94.
Definition DOLLAR : Z := 36.
Definition STAR : Z := 42.
Definition DOT : Z := 46.
Definition NL : Z := 10.

(** [matchstar(c, re, text)], where [here] is [matchhere] of [re] *)
Fixpoint matchstar (here : list Z -> bool) (c : Z) (text : list Z) : bool :=
  if here text then true
  else match text with
       | [] => false
       | t :: text' => if (t =? c) || (c =? DOT) then matchstar here c text' else false
       end.

(** [matchhere]: [re] at the beginning of [text] *)
Fixpoint matchhere (re text : list Z) {struct re} : bool :=
  match re with
  | [] => true
  | c :: re1 =>
      let next := match text with
                  | [] => false
                  | t :: text' => if (c =? DOT) || (c =? t) then matchhere re1 text' else false
                  end in
      match re1 with
      | d :: re2 => if d =? STAR then matchstar (matchhere re2) c text else next
      | [] => if c =? DOLLAR then (match text with [] => true | _ => false end) else next
      end
  end.

(** the [do] loop of [match] *)
Fixpoint match_anywhere (re text : list Z) : bool :=
  if matchhere re text then true
  else match text with [] => false | _ :: text' => match_anywhere re text' end.

Definition match_ (re text : list Z) : bool :=
  match re with
  | c :: re' => if c =? CARET then matchhere re' text else match_anywhere re text
  | [] => match_anywhere re text
  end.

(** ** Reading a file and writing its matching lines *)

(** what is left of an input, and how many bytes its next reads give when that
    is fewer than asked for ([sizes] is empty for a regular file) *)
Record input := mkinput { left : list Z; sizes : list Z }.

Definition read (cap : Z) (f : input) : list Z * input :=
  let n := match sizes f with [] => cap | k :: _ => Z.min cap (Z.max 1 k) end in
  (take (Z.to_nat n) (left f), mkinput (drop (Z.to_nat n) (left f)) (tail (sizes f))).

(** [strchr(p, '\n')]: the bytes before it and after it *)
Fixpoint strchr_nl (p : list Z) : option (list Z * list Z) :=
  match p with
  | [] => None
  | b :: p' => if b =? 0 then None
               else if b =? NL then Some ([], p')
               else match strchr_nl p' with Some (l, r) => Some (b :: l, r) | None => None end
  end.

(** the inner loop: the bytes left at [p] and what was written *)
Fixpoint grep_lines (fuel : nat) (pattern p : list Z) : list Z * list Z :=
  match fuel with
  | O => (p, [])
  | S fuel =>
      match strchr_nl p with
      | None => (p, [])
      | Some (line, p') =>
          let '(rest, out) := grep_lines fuel pattern p' in
          (rest, (if match_ pattern line then line ++ [NL] else []) ++ out)
      end
  end.

Definition BUFSIZE : Z := 1024.

(** the outer loop; [kept] is the first [m] bytes of [buf] *)
Fixpoint grep_loop (fuel : nat) (pattern kept : list Z) (f : input) : option (list Z) :=
  match fuel with
  | O => None
  | S fuel =>
      let '(bytes, f') := read (BUFSIZE - Z.of_nat (length kept) - 1) f in
      if (length bytes =? 0)%nat then Some []
      else
        let buf := kept ++ bytes in
        let '(p, out) := grep_lines (length buf) pattern buf in
        let kept' := if (length p =? length buf)%nat then [] else p in
        match grep_loop fuel pattern kept' f' with
        | Some out' => Some (out ++ out')
        | None => None
        end
  end.

Definition grep (pattern : list Z) (f : input) : option (list Z) :=
  grep_loop (S (length (left f))) pattern [] f.

(** the file arguments of [main], one after the other; a file that does not
    open ends the program *)
Fixpoint grep_files (open : list Z -> option input) (pattern : list Z) (names : list (list Z)) : option (list Z) :=
  match names with
  | [] => Some []
  | name :: names' =>
      match open name with
      | None => Some (str "grep: cannot open " ++ name ++ [NL])
      | Some f =>
          match grep pattern f, grep_files open pattern names' with
          | Some out, Some out' => Some (out ++ out')
          | _, _ => None
          end
      end
  end.

(** [main]: what it writes to descriptors 1 and 2 *)
Definition grep_main (open : list Z -> option input) (stdin : input) (args : list (list Z)) : option (list Z * list Z) :=
  match args with
  | [] => Some ([], str "usage: grep pattern [file ...]" ++ [NL])
  | [pattern] => out ← grep pattern stdin; Some (out, [])
  | pattern :: names => out ← grep_files open pattern names; Some (out, [])
  end.

(** ** What a pattern means *)

Inductive item :=
| One (c : Z)        (* one byte that [c] accepts *)
| Many (c : Z)       (* any number of them *)
| Eol.               (* the end of the line *)

Fixpoint parse (re : list Z) : list item :=
  match re with
  | [] => []
  | c :: re1 =>
      match re1 with
      | d :: re2 => if d =? STAR then Many c :: parse re2 else One c :: parse re1
      | [] => if c =? DOLLAR then [Eol] else [One c]
      end
  end.

Definition accepts (c t : Z) : Prop := c = DOT \/ c = t.

(** the word [u], followed by [v], matches *)
Fixpoint denotes (p : list item) (u v : list Z) : Prop :=
  match p with
  | [] => u = []
  | One c :: p' => exists t u', u = t :: u' /\ accepts c t /\ denotes p' u' v
  | Many c :: p' => exists u1 u2, u = u1 ++ u2 /\ Forall (accepts c) u1 /\ denotes p' u2 v
  | Eol :: p' => u ++ v = [] /\ denotes p' u v
  end.

(** a line that the pattern selects *)
Definition selects (re line : list Z) : Prop :=
  match re with
  | c :: re' =>
      if c =? CARET then exists u v, line = u ++ v /\ denotes (parse re') u v
      else exists s u v, line = s ++ u ++ v /\ denotes (parse re) u v
  | [] => exists s u v, line = s ++ u ++ v /\ denotes (parse re) u v
  end.

(** lines: the ones that a newline ends, and what follows the last newline *)
Fixpoint break_lines (l : list Z) : list (list Z) * list Z :=
  match l with
  | [] => ([], [])
  | b :: l' =>
      let '(ls, t) := break_lines l' in
      if b =? NL then ([] :: ls, t)
      else match ls with
           | [] => ([], b :: t)
           | x :: xs => ((b :: x) :: xs, t)
           end
  end.

Definition lines (l : list Z) : list (list Z) := (break_lines l).1.

(** ** The matcher *)

Lemma matchstar_spec here c text :
  matchstar here c text = true <->
  exists u v, text = u ++ v /\ Forall (accepts c) u /\ here v = true.
Proof.
  induction text as [|t text IH]; simpl.
  - split.
    + destruct (here []) eqn:E; [|done]. intros _. by exists [], [].
    + intros (u & v & H & _ & Hv). symmetry in H. apply app_eq_nil in H as [-> ->]. by rewrite Hv.
  - split.
    + destruct (here (t :: text)) eqn:E; [intros _; by exists [], (t :: text)|].
      destruct ((t =? c) || (c =? DOT)) eqn:Et; [|done]. intros H. apply IH in H as (u & v & -> & Hu & Hv).
      exists (t :: u), v. split_and!; [done| |done]. constructor; [|done].
      apply orb_true_iff in Et as [Et|Et]; apply Z.eqb_eq in Et; [right | left]; congruence.
    + intros ([|t' u] & v & H & Hu & Hv); simpl in H.
      { by rewrite H, Hv. }
      injection H as <- ->. inversion Hu as [|? ? Ht Hu']; subst.
      destruct (here (t :: u ++ v)); [done|].
      replace ((t =? c) || (c =? DOT)) with true.
      { apply IH. eauto. }
      symmetry. apply orb_true_iff. destruct Ht as [->| ->]; [right | left]; apply Z.eqb_refl.
Qed.

Lemma accepts_eqb c t : (c =? DOT) || (c =? t) = true <-> accepts c t.
Proof. unfold accepts. rewrite orb_true_iff, !Z.eqb_eq. done. Qed.

(** strong induction on the pattern: two bytes at a time *)
Lemma matchhere_spec re : forall text,
  matchhere re text = true <-> exists u v, text = u ++ v /\ denotes (parse re) u v.
Proof.
  induction re as [re IH] using (induction_ltof1 _ length); unfold ltof in IH.
  destruct re as [|c re1]; intros text; simpl.
  { split; [|done]. intros _. by exists [], text. }
  assert (
    match text with [] => false | t :: text' => if (c =? DOT) || (c =? t) then matchhere re1 text' else false end = true <->
    exists u v, text = u ++ v /\ denotes (One c :: parse re1) u v) as Hnext.
  { destruct text as [|t text]; simpl.
    - split; [done|]. intros (u & v & H & t & u' & -> & _). done.
    - split.
      + destruct ((c =? DOT) || (c =? t)) eqn:E; [|done]. apply accepts_eqb in E.
        intros H. apply IH in H as (u & v & -> & Hd); [|simpl; lia]. exists (t :: u), v. eauto 10.
      + intros (u & v & H & t' & u' & -> & Ha & Hd). injection H as <- ->.
        apply accepts_eqb in Ha as ->. apply IH; [simpl; lia|]. eauto. }
  destruct re1 as [|d re2].
  - destruct (c =? DOLLAR) eqn:Ec.
    + destruct text as [|t text]; simpl.
      * split; [|done]. intros _. by exists [], [].
      * split; [done|]. intros (u & v & H & Hn & _). by rewrite <- H in Hn.
    + exact Hnext.
  - destruct (d =? STAR) eqn:Ed.
    + rewrite matchstar_spec. split.
      * intros (u & v & -> & Hu & Hv). apply IH in Hv as (u2 & v' & -> & Hd); [|simpl; lia].
        exists (u ++ u2), v'. rewrite <- app_assoc. split; [done|]. exists u, u2. eauto.
      * intros (u & v & -> & u1 & u2 & -> & Hu & Hd). exists u1, (u2 ++ v). rewrite <- app_assoc.
        split_and!; [done|done|]. apply IH; [simpl; lia|]. eauto.
    + exact Hnext.
Qed.

Lemma match_anywhere_spec re text :
  match_anywhere re text = true <-> exists s u v, text = s ++ u ++ v /\ denotes (parse re) u v.
Proof.
  induction text as [|t text IH]; cbn [match_anywhere].
  - destruct (matchhere re []) eqn:E.
    + split; [|done]. intros _. apply matchhere_spec in E as (u & v & ? & ?). by exists [], u, v.
    + split; [done|]. intros (s & u & v & H & Hd). symmetry in H. apply app_eq_nil in H as [-> H].
      assert (matchhere re [] = true) by (apply matchhere_spec; eauto). congruence.
  - destruct (matchhere re (t :: text)) eqn:E.
    + split; [|done]. intros _. apply matchhere_spec in E as (u & v & ? & ?). by exists [], u, v.
    + rewrite IH. split.
      * intros (s & u & v & -> & Hd). by exists (t :: s), u, v.
      * intros ([|t' s] & u & v & H & Hd); simpl in H.
        { assert (matchhere re (t :: text) = true) by (apply matchhere_spec; eauto). congruence. }
        injection H as <- ->. eauto.
Qed.

Lemma match_spec re line : match_ re line = true <-> selects re line.
Proof.
  unfold match_, selects. destruct re as [|c re].
  - apply match_anywhere_spec.
  - destruct (c =? CARET); [apply matchhere_spec | apply match_anywhere_spec].
Qed.

#[export] Instance selects_dec re line : Decision (selects re line).
Proof.
  destruct (match_ re line) eqn:E; [left | right]; rewrite <- match_spec; congruence.
Defined.

(** the output for a list of lines *)
Definition printed (re : list Z) (ls : list (list Z)) : list Z :=
  concat ((fun line => line ++ [NL]) <$> filter (selects re) ls).

(** ** Lines *)

Lemma break_no_nl l : NL ∉ l -> break_lines l = ([], l).
Proof.
  induction l as [|b l IH]; intros H; cbn [break_lines]; [done|].
  apply not_elem_of_cons in H as [Hb Hl]. rewrite (IH Hl).
  destruct (Z.eqb_spec b NL); [by subst|done].
Qed.

Lemma break_line x r : NL ∉ x -> break_lines (x ++ NL :: r) = (x :: (break_lines r).1, (break_lines r).2).
Proof.
  induction x as [|b x IH]; intros H; cbn [break_lines app].
  - by destruct (break_lines r).
  - apply not_elem_of_cons in H as [Hb Hx]. rewrite (IH Hx). destruct (Z.eqb_spec b NL); [by subst|done].
Qed.

Lemma break_nil l : (break_lines l).1 = [] <-> NL ∉ l.
Proof.
  split; [|intros H; by rewrite break_no_nl].
  induction l as [|b l IH]; cbn [break_lines]; [intros _; apply not_elem_of_nil|].
  destruct (break_lines l) as [[|x ls] t]; destruct (Z.eqb_spec b NL); simpl; try done.
  intros _. apply not_elem_of_cons. split; [done|]. by apply IH.
Qed.

Lemma strchr_nl_spec p : nonul p ->
  match strchr_nl p with
  | None => NL ∉ p
  | Some (l, r) => p = l ++ NL :: r /\ NL ∉ l
  end.
Proof.
  induction 1 as [|b p Hb _ IH]; simpl; [apply not_elem_of_nil|].
  destruct (Z.eqb_spec b 0); [done|]. destruct (Z.eqb_spec b NL) as [->|Hn].
  { split; [done | apply not_elem_of_nil]. }
  destruct (strchr_nl p) as [[l r]|].
  - destruct IH as [-> Hl]. split; [done|]. by apply not_elem_of_cons.
  - by apply not_elem_of_cons.
Qed.

Lemma break_app p q : lines (p ++ q) = lines p ++ lines ((break_lines p).2 ++ q).
Proof.
  induction p as [p IH] using (induction_ltof1 _ length); unfold ltof, lines in *.
  destruct (decide (NL ∈ p)) as [Hin|Hin]; [|by rewrite (break_no_nl p)].
  apply list_elem_of_split_l in Hin as (x & r & -> & Hx).
  rewrite <- app_assoc. cbn [app]. rewrite !break_line by done. cbn [fst snd app]. f_equal.
  apply IH. rewrite length_app. simpl. lia.
Qed.

Lemma break_tail p : NL ∉ (break_lines p).2.
Proof.
  induction p as [p IH] using (induction_ltof1 _ length); unfold ltof in *.
  destruct (decide (NL ∈ p)) as [Hin|Hin]; [|by rewrite (break_no_nl p)].
  apply list_elem_of_split_l in Hin as (x & r & -> & Hx).
  rewrite break_line by done. apply IH. rewrite length_app. simpl. lia.
Qed.

(** the tail is shorter than the text exactly when there is a line *)
Lemma break_tail_suffix p : exists x, p = x ++ (break_lines p).2 /\ (lines p = [] <-> x = []).
Proof.
  induction p as [p IH] using (induction_ltof1 _ length); unfold ltof, lines in *.
  destruct (decide (NL ∈ p)) as [Hin|Hin].
  - apply list_elem_of_split_l in Hin as (x & r & -> & Hx).
    rewrite break_line by done. destruct (IH r) as (y & Hy & _); [rewrite length_app; simpl; lia|].
    exists (x ++ NL :: y). cbn [fst snd]. split; [by rewrite <- app_assoc; cbn [app]; rewrite <- Hy|].
    split; [done|]. by destruct x.
  - exists []. by rewrite break_no_nl.
Qed.

Lemma printed_app re a b : printed re (a ++ b) = printed re a ++ printed re b.
Proof. unfold printed. by rewrite filter_app, fmap_app, concat_app. Qed.

Lemma printed_cons re l ls :
  printed re (l :: ls) = (if match_ re l then l ++ [NL] else []) ++ printed re ls.
Proof.
  unfold printed. rewrite filter_cons. destruct (decide (selects re l)) as [H|H]; rewrite <- match_spec in H.
  - by rewrite H.
  - destruct (match_ re l); done.
Qed.

Lemma grep_lines_spec re : forall fuel p, nonul p -> (length p <= fuel)%nat ->
  grep_lines fuel re p = ((break_lines p).2, printed re (lines p)).
Proof.
  induction fuel as [|fuel IH]; intros p Hp Hf.
  { destruct p; simpl in *; [done|lia]. }
  cbn [grep_lines]. pose proof (strchr_nl_spec p Hp) as H. destruct (strchr_nl p) as [[x r]|].
  - destruct H as [-> Hx]. apply Forall_app in Hp as [_ Hr]. inversion Hr; subst.
    rewrite length_app in Hf. simpl in Hf. rewrite IH by (done || lia).
    unfold lines. rewrite break_line by done. cbn [fst snd]. by rewrite printed_cons.
  - unfold lines. by rewrite (break_no_nl p H).
Qed.

(** ** The loop *)

(** an input whose lines fit in the buffer *)
Definition lines_fit (l : list Z) : Prop := Forall (fun x => Z.of_nat (length x) < BUFSIZE - 1) (lines l).

(** a full buffer with no newline: no line of the rest ends *)
Lemma no_line_in_full_buffer buf l :
  lines buf = [] -> l = [] \/ BUFSIZE - 1 <= Z.of_nat (length buf) -> lines_fit (buf ++ l) ->
  lines (buf ++ l) = lines l.
Proof.
  intros Hb%break_nil [->|Hfull] Hfit.
  { rewrite app_nil_r. unfold lines. by rewrite break_no_nl. }
  destruct (decide (NL ∈ l)) as [Hin|Hin].
  - apply list_elem_of_split_l in Hin as (y & r & -> & Hy). exfalso.
    unfold lines_fit, lines in Hfit. rewrite app_assoc, break_line in Hfit by set_solver.
    inversion Hfit as [|? ? H _]; subst. rewrite length_app in H. lia.
  - unfold lines. rewrite !break_no_nl; set_solver.
Qed.

Lemma grep_loop_spec re : forall fuel kept l,
  NL ∉ kept -> nonul (kept ++ l) -> Z.of_nat (length kept) < BUFSIZE - 1 ->
  lines_fit (kept ++ l) -> (length l < fuel)%nat ->
  grep_loop fuel re kept (mkinput l []) = Some (printed re (lines (kept ++ l))).
Proof.
  induction fuel as [|fuel IH]; intros kept l Hk Hn Hlen Hfit Hf; [lia|].
  cbn [grep_loop]. unfold read; cbn [left sizes tail].
  set (n := Z.to_nat _). assert (0 < n)%nat as Hpos by (unfold BUFSIZE in *; lia).
  assert (Z.of_nat (length kept + n) = BUFSIZE - 1) as En by (unfold BUFSIZE in *; lia).
  set (bytes := take n l). set (l' := drop n l).
  assert (l = bytes ++ l') as El by (symmetry; apply take_drop).
  assert (length bytes = n `min` length l)%nat as Hb by (subst bytes; apply length_take).
  assert (length l' = length l - n)%nat as Hl' by (subst l'; apply length_drop).
  destruct (Nat.eqb_spec (length bytes) 0) as [E0|E0].
  { assert (l = []) as -> by (apply nil_length_inv; lia).
    rewrite app_nil_r. unfold lines. by rewrite (break_no_nl kept). }
  rewrite El, app_assoc in *. clearbody bytes l'. subst l. set (buf := kept ++ bytes) in *.
  assert (length buf = length kept + length bytes)%nat as Hbuf by apply length_app.
  rewrite length_app in *. pose proof (proj1 (Forall_app _ _ _) Hn) as [Hnb Hnl].
  rewrite (grep_lines_spec re _ _ Hnb) by done.
  destruct (break_tail_suffix buf) as (x & Ex & Hx). pose proof (f_equal length Ex) as Hlx.
  rewrite length_app in Hlx. destruct (Nat.eqb_spec (length (break_lines buf).2) (length buf)) as [Et|Et].
  - assert (lines buf = []) as Hnone by (apply Hx, nil_length_inv; lia).
    assert (lines (buf ++ l') = lines l') as Eq.
    { apply no_line_in_full_buffer; [done| |done].
      destruct (decide (length l' = 0)%nat); [left; by apply nil_length_inv | right; lia]. }
    rewrite (IH [] l'); rewrite ?Hnone, ?Eq; try done; [apply not_elem_of_nil | | lia].
    unfold lines_fit in *. cbn [app]. by rewrite <- Eq.
  - pose proof (break_app buf l') as Eq. unfold lines_fit in Hfit. rewrite Eq in Hfit |- *.
    apply Forall_app in Hfit as [_ Hfit]. rewrite IH; [by rewrite printed_app | apply break_tail | | lia | done | lia].
    rewrite Ex, <- app_assoc in Hn. by apply Forall_app in Hn as [_ Hn].
Qed.

Lemma strchr_nl_shorter q x r : strchr_nl q = Some (x, r) -> (length r < length q)%nat.
Proof.
  revert x. induction q as [|b q IH]; intros x; simpl; [done|].
  destruct (b =? 0); [done|]. destruct (b =? NL); [intros [= <- <-]; lia|].
  destruct (strchr_nl q) as [[x' r']|] eqn:E; [|done]. intros [= <- <-]. specialize (IH x' eq_refl). lia.
Qed.

Lemma grep_lines_shorter re fuel : forall q p out,
  grep_lines fuel re q = (p, out) -> (length p <= length q)%nat.
Proof.
  induction fuel as [|fuel IH]; intros q p out; simpl; [by intros [= <- _]|].
  destruct (strchr_nl q) as [[x r]|] eqn:E; [|by intros [= <- _]].
  apply strchr_nl_shorter in E. destruct (grep_lines fuel re r) as [p' o'] eqn:Eg.
  intros [= <- _]. apply IH in Eg. lia.
Qed.

(** every loop of [grep] ends, whatever the reads give *)
Lemma grep_loop_total re : forall fuel kept f, Z.of_nat (length kept) < BUFSIZE - 1 ->
  (length (left f) < fuel)%nat -> exists out, grep_loop fuel re kept f = Some out.
Proof.
  induction fuel as [|fuel IH]; intros kept f Hlen Hf; [lia|]. cbn [grep_loop]. unfold read.
  set (n := match sizes f with [] => _ | _ => _ end).
  assert (0 < n <= BUFSIZE - 1 - Z.of_nat (length kept)) as Hn.
  { subst n. unfold BUFSIZE in *. destruct (sizes f); lia. }
  cbn zeta. destruct (Nat.eqb_spec (length (take (Z.to_nat n) (left f))) 0) as [E|E]; [by exists []|].
  set (buf := kept ++ _). destruct (grep_lines (length buf) re buf) as [p out] eqn:Eg.
  apply grep_lines_shorter in Eg. subst buf. rewrite length_app, !length_take in *.
  match goal with |- context [grep_loop fuel re ?k ?g] => destruct (IH k g) as [out' ->] end; [| |eauto].
  - destruct (Nat.eqb_spec (length p) (length kept + (Z.to_nat n `min` length (left f)))); simpl; unfold BUFSIZE in *; lia.
  - cbn [left]. rewrite length_drop. lia.
Qed.

Lemma grep_total re f : exists out, grep re f = Some out.
Proof. apply grep_loop_total; simpl; unfold BUFSIZE; lia. Qed.

(** a regular file that fits the buffer line by line *)
Definition plain (f : input) : Prop := sizes f = [] /\ nonul (left f) /\ lines_fit (left f).

Lemma grep_plain re f : plain f -> grep re f = Some (printed re (lines (left f))).
Proof.
  destruct f as [l sz]. intros (Hs & Hn & Hf). simpl in *. subst sz. unfold grep.
  apply grep_loop_spec; simpl; [apply not_elem_of_nil | done | unfold BUFSIZE; lia | done | lia].
Qed.

(** the files that [main] reads: the ones before the first that does not open *)
Fixpoint readable (open : list Z -> option input) (names : list (list Z)) : list input * option (list Z) :=
  match names with
  | [] => ([], None)
  | name :: names' =>
      match open name with
      | None => ([], Some name)
      | Some f => let '(fs, bad) := readable open names' in (f :: fs, bad)
      end
  end.

Definition complaint (bad : option (list Z)) : list Z :=
  match bad with Some name => str "grep: cannot open " ++ name ++ [NL] | None => [] end.

Lemma grep_files_spec open re names :
  (forall name f, open name = Some f -> plain f) ->
  grep_files open re names =
    Some (concat ((fun f => printed re (lines (left f))) <$> (readable open names).1) ++ complaint (readable open names).2).
Proof.
  intros Hp. induction names as [|name names IH]; cbn [grep_files readable]; [done|].
  destruct (open name) as [f|] eqn:E; [|done]. rewrite (grep_plain re f) by eauto. rewrite IH.
  destruct (readable open names) as [fs bad]. cbn [fst snd fmap list_fmap concat]. by rewrite <- app_assoc.
Qed.

Lemma grep_files_total open re names : exists out, grep_files open re names = Some out.
Proof.
  induction names as [|name names [out IH]]; simpl; [eauto|].
  destruct (open name) as [f|]; [|eauto]. destruct (grep_total re f) as [o ->]. rewrite IH. eauto.
Qed.

(** C35: [match] decides exactly the lines that a pattern denotes: a byte stands
    for itself and [.] for any byte, [c*] for any number of bytes that [c]
    accepts, a final [$] for the end of the line, and an initial [^] asks for
    a match that begins the line. *)
Theorem match_correct re line : match_ re line = true <-> selects re line.
Proof. apply match_spec. Qed.

(** grep ends on every command line, for files of any contents and reads of
    any size.  When every input is a regular file without NUL bytes whose
    newline-terminated lines fit in the buffer, it writes exactly the selected
    lines of its files in order, and stops with a complaint at the first file
    that does not open; without a file it reads its standard input, and
    without a pattern it prints its usage. *)
Theorem grep_main_correct open stdin args :
  plain stdin -> (forall name f, open name = Some f -> plain f) ->
  (forall open' stdin', exists w, grep_main open' stdin' args = Some w) /\
  grep_main open stdin args = Some
    match args with
    | [] => ([], str "usage: grep pattern [file ...]" ++ [NL])
    | [re] => (printed re (lines (left stdin)), [])
    | re :: names =>
        (concat ((fun f => printed re (lines (left f))) <$> (readable open names).1) ++
         complaint (readable open names).2, [])
    end.
Proof.
  intros Hin Hopen. split.
  - intros open' stdin'. destruct args as [|re [|name names]]; unfold grep_main; [eauto| |].
    + destruct (grep_total re stdin') as [o ->]. simpl. eauto.
    + destruct (grep_files_total open' re (name :: names)) as [o ->]. simpl. eauto.
  - destruct args as [|re [|name names]]; unfold grep_main; [done| |].
    + by rewrite grep_plain.
    + by rewrite grep_files_spec.
Qed.

Definition demo_open (name : list Z) : option input :=
  if streq name (str "a") then Some (mkinput (str "one" ++ [NL] ++ str "two" ++ [NL]) []) else None.

Lemma grep_main_correct_witness :
  grep_main demo_open (mkinput [] []) [str "o.*$"; str "a"; str "b"] =
  Some (str "one" ++ [NL] ++ str "two" ++ [NL] ++ str "grep: cannot open b" ++ [NL], []).
Proof.
  rewrite (proj2 (grep_main_correct demo_open (mkinput [] []) [str "o.*$"; str "a"; str "b"] ltac:(repeat constructor)
    ltac:(intros name f; unfold demo_open; destruct (streq name (str "a")); [intros [= <-] | done];
          split; [done|]; split; [repeat constructor; done | repeat constructor; vm_compute; reflexivity]))).
  vm_compute. reflexivity.
Defined.

(** a line that two reads of a pipe split loses its first part *)
Example grep_split_line :
  grep (str "ab") (mkinput (str "ab" ++ [NL]) []) = Some (str "ab" ++ [NL]) /\
  grep (str "ab") (mkinput (str "ab" ++ [NL]) [1]) = Some [].
Proof. split; reflexivity. Qed.
