(* ===== verification/Ext2.v ===== *)
(** * The ext2 image reader: [ssu_ext2.c]

    The whole program: opening an image, inodes, the block map with three
    levels of indirection, directories as sorted linked lists, path
    resolution, the [tree], [print] and [help] commands, the in-place
    tokenizer and the prompt loop.

    The image is a regular file that nobody changes while the program runs; a
    [pread] may return fewer bytes than asked for ([short]) but makes progress
    and does not fail.  Memory allocation succeeds.  Names are byte lists
    without the terminating NUL. *)

From S2P Require Import Prelude CStr.

Definition EXT2_SUPER_OFFSET : Z := 1024.
Definition EXT2_SUPER_SIZE : Z := 1024.
Definition EXT2_SUPER_MAGIC : Z := 0xEF53.
Definition EXT2_ROOT_INODE : Z := 2.
Definition EXT2_GOOD_OLD_INODE_SIZE : Z := 128.
Definition EXT2_GROUP_DESC_SIZE : Z := 32.
Definition EXT2_NAME_LEN : Z := 255.
Definition EXT2_NDIR_BLOCKS : Z := 12.
Definition EXT2_N_BLOCKS : Z := 15.
Definition EXT2_FEATURE_INCOMPAT_FILETYPE : Z := 2.
Definition PATH_MAX : Z := 4096.
Definition COMMAND_MAX : Z := 4096.
Definition MAX_TOKENS : Z := 256.
Definition MAX_TREE_DEPTH : Z := PATH_MAX.
Definition EXT2_S_IFMT : Z := 0xF000.
Definition EXT2_S_IFSOCK : Z := 0xC000.
Definition EXT2_S_IFLNK : Z := 0xA000.
Definition EXT2_S_IFREG : Z := 0x8000.
Definition EXT2_S_IFBLK : Z := 0x6000.
Definition EXT2_S_IFDIR : Z := 0x4000.
Definition EXT2_S_IFCHR : Z := 0x2000.
Definition EXT2_S_IFIFO : Z := 0x1000.

Record Ext2Inode : Type := mkExt2Inode {
  mode : Z;
  size_low : Z;
  size_high : Z;
  blocks : list Z
}.

Record Ext2Fs : Type := mkExt2Fs {
  image : list Z;               (** the file behind [fd] *)
  inodes_count : Z;
  blocks_count : Z;
  first_data_block : Z;
  block_size : Z;
  blocks_per_group : Z;
  inodes_per_group : Z;
  inode_size : Z;
  groups_count : Z;
  inode_tables : list Z
}.

Definition image_size (fs : Ext2Fs) : Z := Z.of_nat (length (image fs)).

(** [EntryNode]; an [EntryList] is the list of its nodes *)
Record EntryNode : Type := mkEntry { e_inode : Z; e_type : Z; e_name : list Z }.

(** the process: its streams, and the visited bitmap and counters of [tree] *)
Record io : Type := mkio {
  out : list Z;
  err : list Z;
  input : list Z;
  visited : list Z;
  directories : Z;
  files : Z
}.

Definition printf (b : list Z) : M io unit := modify (fun s =>
  mkio (out s ++ b) (err s) (input s) (visited s) (directories s) (files s)).
Definition eprintf (b : list Z) : M io unit := modify (fun s =>
  mkio (out s) (err s ++ b) (input s) (visited s) (directories s) (files s)).
Definition set_visited (v : list Z) : M io unit := modify (fun s =>
  mkio (out s) (err s) (input s) v (directories s) (files s)).
Definition set_count (d f : Z) : M io unit := modify (fun s =>
  mkio (out s) (err s) (input s) (visited s) d f).
Definition nl : list Z := [10].
Definition quoted (s : list Z) : list Z := 39 :: s ++ [39].

(** the host: how much a [pread] at an offset transfers, [strerror] of a
    failed [open] *)
Class Host : Type := { short : Z -> Z; strerror : list Z }.

Definition read_le16 (b : list Z) (o : Z) : Z :=
  Z.lor (b !!! Z.to_nat o) (Z.shiftl (b !!! Z.to_nat (o + 1)) 8).
Definition read_le32 (b : list Z) (o : Z) : Z :=
  Z.lor (Z.lor (Z.lor (b !!! Z.to_nat o) (Z.shiftl (b !!! Z.to_nat (o + 1)) 8))
               (Z.shiftl (b !!! Z.to_nat (o + 2)) 16))
        (Z.shiftl (b !!! Z.to_nat (o + 3)) 24).

Definition ceil_div_u32 (value divisor : Z) : Z :=
  value / divisor + (if value mod divisor =? 0 then 0 else 1).

Definition INT64_MAX : Z := 2 ^ 63 - 1.
Definition UINT64_MAX : Z := 2 ^ 64 - 1.

Section Image.
Context `{Host}.

(** [pread(fd, cursor, want, off)]: the bytes transferred *)
Definition pread (img : list Z) (off want : Z) : list Z :=
  slice img off (Z.max 1 (Z.min want (short off))).

(** the loop of [image_read] while [remaining] bytes of the size are not read *)
Fixpoint image_read_loop (remaining : nat) (img : list Z) (offset : Z) (got : list Z) : option (list Z) :=
  match remaining with
  | O => Some got
  | S r =>
      match pread img (offset + Z.of_nat (length got)) (Z.of_nat remaining) with
      | [] => None
      | b :: chunk => image_read_loop (r - length chunk) img offset (got ++ b :: chunk)
      end
  end.

Definition image_read (fs : Ext2Fs) (offset size : Z) : option (list Z) :=
  if (image_size fs <? offset) || (image_size fs - offset <? size) || (INT64_MAX <? offset) then None
  else image_read_loop (Z.to_nat size) (image fs) offset [].

(** the loop of [ext2_open] over the group descriptors *)
Fixpoint load_groups (k : nat) (fs : Ext2Fs) (descriptor_offset group : Z) (tables : list Z) : M io (option (list Z)) :=
  match k with
  | O => mret (Some tables)
  | S k' =>
      match image_read fs (descriptor_offset + group * EXT2_GROUP_DESC_SIZE) EXT2_GROUP_DESC_SIZE with
      | None => eprintf (str "Error: cannot read ext2 group descriptor " ++ dec group ++ nl) ;; mret None
      | Some descriptor =>
          let t := read_le32 descriptor 8 in
          if (t =? 0) || (blocks_count fs <=? t) then
            eprintf (str "Error: invalid inode table in block group " ++ dec group ++ nl) ;; mret None
          else load_groups k' fs descriptor_offset (group + 1) (tables ++ [t])
      end
  end.

Definition geometry_bad (fs : Ext2Fs) : bool :=
  (inodes_count fs <? EXT2_ROOT_INODE) || (blocks_count fs =? 0) ||
  (blocks_per_group fs =? 0) || (inodes_per_group fs =? 0) ||
  (blocks_count fs <=? first_data_block fs) ||
  (inode_size fs <? EXT2_GOOD_OLD_INODE_SIZE) ||
  (block_size fs <? inode_size fs) || negb (inode_size fs mod 4 =? 0).

(** the 8 hexadecimal digits of [0x%08x] *)
Definition hex8 (n : Z) : list Z :=
  (fun k => let d := Z.shiftr n (4 * k) mod 16 in if d <? 10 then 48 + d else 87 + d) <$> [7; 6; 5; 4; 3; 2; 1; 0].

(** [ext2_open]; [file] is what [open] and [fstat] find at the path: nothing, or
    whether it is a regular file and its bytes *)
Definition ext2_open (image_path : list Z) (file : option (bool * list Z)) : M io (option Ext2Fs) :=
  match file with
  | None => eprintf (str "Error: cannot open " ++ quoted image_path ++ str ": " ++ strerror ++ nl) ;; mret None
  | Some (regular, bytes) =>
      let fail (msg : list Z) : M io (option Ext2Fs) := eprintf msg ;; mret None in
      let fs0 := mkExt2Fs bytes 0 0 0 0 0 0 0 0 [] in
      if negb regular then fail (str "Error: " ++ quoted image_path ++ str " is not a regular image file" ++ nl)
      else
        match (if image_size fs0 <? EXT2_SUPER_OFFSET + EXT2_SUPER_SIZE then None
               else image_read fs0 EXT2_SUPER_OFFSET EXT2_SUPER_SIZE) with
        | None => fail (str "Error: image is too small to contain an ext2 superblock" ++ nl)
        | Some super =>
            if negb (read_le16 super 56 =? EXT2_SUPER_MAGIC) then
              fail (str "Error: " ++ quoted image_path ++ str " is not a valid ext2 image" ++ nl)
            else
              let log_block_size := read_le32 super 24 in
              let revision := read_le32 super 76 in
              let feature_incompat := read_le32 super 96 in
              if 6 <? log_block_size then
                fail (str "Error: unsupported ext2 block-size exponent " ++ dec log_block_size ++ nl)
              else
                let isize := if revision =? 0 then EXT2_GOOD_OLD_INODE_SIZE else read_le16 super 88 in
                let isize := if isize =? 0 then EXT2_GOOD_OLD_INODE_SIZE else isize in
                let fs := mkExt2Fs bytes (read_le32 super 0) (read_le32 super 4) (read_le32 super 20)
                  (Z.shiftl 1024 log_block_size) (read_le32 super 32) (read_le32 super 40) isize 0 [] in
                if geometry_bad fs then fail (str "Error: invalid ext2 superblock geometry" ++ nl)
                else
                  let bad := Z.land feature_incompat (2 ^ 32 - 1 - EXT2_FEATURE_INCOMPAT_FILETYPE) in
                  if negb (bad =? 0) then
                    fail (str "Error: image uses unsupported incompatible filesystem features (0x" ++ hex8 bad ++ str ")" ++ nl)
                  else if (image_size fs <? blocks_count fs * block_size fs) ||
                          (image_size fs / EXT2_GOOD_OLD_INODE_SIZE + 1 <? inodes_count fs) then
                    fail (str "Error: ext2 geometry exceeds the image size" ++ nl)
                  else
                    let block_groups := ceil_div_u32 (blocks_count fs - first_data_block fs) (blocks_per_group fs) in
                    let inode_groups := ceil_div_u32 (inodes_count fs) (inodes_per_group fs) in
                    let groups := if inode_groups <? block_groups then block_groups else inode_groups in
                    if groups =? 0 then fail (str "Error: invalid ext2 block-group count" ++ nl)
                    else
                      r ← load_groups (Z.to_nat groups) fs ((first_data_block fs + 1) * block_size fs) 0 [];
                      match r with
                      | None => mret None
                      | Some tables =>
                          mret (Some (mkExt2Fs bytes (inodes_count fs) (blocks_count fs) (first_data_block fs)
                            (block_size fs) (blocks_per_group fs) (inodes_per_group fs) (inode_size fs) groups tables))
                      end
        end
  end.

Definition ext2_read_inode (fs : Ext2Fs) (inode_number : Z) : option Ext2Inode :=
  if (inode_number =? 0) || (inodes_count fs <? inode_number) then None
  else
    let group := (inode_number - 1) / inodes_per_group fs in
    let index := (inode_number - 1) mod inodes_per_group fs in
    if groups_count fs <=? group then None
    else
      let offset := (inode_tables fs !!! Z.to_nat group) * block_size fs + index * inode_size fs in
      match image_read fs offset EXT2_GOOD_OLD_INODE_SIZE with
      | None => None
      | Some raw =>
          Some (mkExt2Inode (read_le16 raw 0) (read_le32 raw 4) (read_le32 raw 108)
            ((fun i => read_le32 raw (40 + i * 4)) <$> seqZ 0 EXT2_N_BLOCKS))
      end.

Definition ext2_inode_size (inode : Ext2Inode) : Z :=
  if Z.land (mode inode) EXT2_S_IFMT =? EXT2_S_IFREG then Z.lor (size_low inode) (Z.shiftl (size_high inode) 32)
  else size_low inode.

Definition ext2_read_pointer (fs : Ext2Fs) (pointer_block index : Z) : option Z :=
  if pointer_block =? 0 then Some 0
  else if (blocks_count fs <=? pointer_block) || (block_size fs / 4 <=? index) then None
  else
    match image_read fs (pointer_block * block_size fs + index * 4) 4 with
    | None => None
    | Some raw => if blocks_count fs <=? read_le32 raw 0 then None else Some (read_le32 raw 0)
    end.

Definition ext2_data_block (fs : Ext2Fs) (inode : Ext2Inode) (logical_block : Z) : option Z :=
  let per_block := block_size fs / 4 in
  let double_count := per_block * per_block in
  if logical_block <? EXT2_NDIR_BLOCKS then
    let physical_block := blocks inode !!! Z.to_nat logical_block in
    if physical_block <? blocks_count fs then Some physical_block else None
  else
    let logical_block := logical_block - EXT2_NDIR_BLOCKS in
    if logical_block <? per_block then ext2_read_pointer fs (blocks inode !!! 12%nat) logical_block
    else
      let logical_block := logical_block - per_block in
      if logical_block <? double_count then
        first ← ext2_read_pointer fs (blocks inode !!! 13%nat) (logical_block / per_block);
        ext2_read_pointer fs first (logical_block mod per_block)
      else
        let logical_block := logical_block - double_count in
        if UINT64_MAX / double_count <? per_block then None
        else
          let triple_count := per_block * double_count in
          if triple_count <=? logical_block then None
          else
            first ← ext2_read_pointer fs (blocks inode !!! 14%nat) (logical_block / double_count);
            let logical_block := logical_block mod double_count in
            second ← ext2_read_pointer fs first (logical_block / per_block);
            ext2_read_pointer fs second (logical_block mod per_block).

(** [entry_list_insert]: after the last node whose name is not greater *)
Fixpoint entry_list_insert (l : list EntryNode) (node : EntryNode) : list EntryNode :=
  match l with
  | [] => [node]
  | x :: l' => if strcmp (e_name x) (e_name node) <=? 0 then x :: entry_list_insert l' node else node :: l
  end.

(** the record loop over one directory block.  Here and in what calls it the
    outer [None] says that the loop did not end within its fuel, and the inner
    one that the program found an error. *)
Fixpoint dir_records (fuel : nat) (fs : Ext2Fs) (hide_lost_found : bool) (block : list Z) (valid offset : Z)
    (l : list EntryNode) : option (option (list EntryNode)) :=
  match fuel with
  | O => None
  | S f =>
      if offset <? valid then
        if valid - offset <? 8 then Some None
        else
          let child_inode := read_le32 block offset in
          let record_length := read_le16 block (offset + 4) in
          let name_length := block !!! Z.to_nat (offset + 6) in
          let file_type := block !!! Z.to_nat (offset + 7) in
          if (record_length <? 8) || negb (record_length mod 4 =? 0) || (valid - offset <? record_length) ||
             (record_length - 8 <? name_length) || (EXT2_NAME_LEN <? name_length) then Some None
          else if negb (child_inode =? 0) then
            if inodes_count fs <? child_inode then Some None
            else
              let name := cstr (slice block (offset + 8) name_length) in
              let l := if negb (streq name (str ".")) && negb (streq name (str "..")) &&
                          (negb hide_lost_found || negb (streq name (str "lost+found")))
                       then entry_list_insert l (mkEntry child_inode file_type name) else l in
              dir_records f fs hide_lost_found block valid (offset + record_length) l
          else dir_records f fs hide_lost_found block valid (offset + record_length) l
      else Some (Some l)
  end.

(** the block loop *)
Fixpoint dir_blocks (k : nat) (fs : Ext2Fs) (hide_lost_found : bool) (inode : Ext2Inode) (directory_size logical : Z)
    (l : list EntryNode) : option (option (list EntryNode)) :=
  match k with
  | O => Some (Some l)
  | S k' =>
      let consumed := logical * block_size fs in
      let valid := if block_size fs <? directory_size - consumed then block_size fs else directory_size - consumed in
      match ext2_data_block fs inode logical with
      | None => Some None
      | Some physical =>
          if physical =? 0 then dir_blocks k' fs hide_lost_found inode directory_size (logical + 1) l
          else
            match image_read fs (physical * block_size fs) (block_size fs) with
            | None => Some None
            | Some block =>
                match dir_records (S (Z.to_nat valid)) fs hide_lost_found block valid 0 l with
                | None => None
                | Some None => Some None
                | Some (Some l) => dir_blocks k' fs hide_lost_found inode directory_size (logical + 1) l
                end
            end
      end
  end.

Definition is_dir (inode : Ext2Inode) : bool := Z.land (mode inode) EXT2_S_IFMT =? EXT2_S_IFDIR.

Definition ext2_read_directory (fs : Ext2Fs) (inode_number : Z) (hide_lost_found : bool) : option (option (list EntryNode)) :=
  match ext2_read_inode fs inode_number with
  | None => Some None
  | Some inode =>
      if negb (is_dir inode) then Some None
      else
        let directory_size := ext2_inode_size inode in
        let block_count := directory_size / block_size fs + (if directory_size mod block_size fs =? 0 then 0 else 1) in
        dir_blocks (Z.to_nat block_count) fs hide_lost_found inode directory_size 0 []
  end.

(** the components that [strtok_r] with the delimiter "/" returns *)
Fixpoint strtok_slash (l cur : list Z) : list (list Z) :=
  match l with
  | [] => if cur is [] then [] else [cur]
  | c :: l' =>
      if c =? 47 then (if cur is [] then strtok_slash l' [] else cur :: strtok_slash l' [])
      else strtok_slash l' (cur ++ [c])
  end.

Fixpoint find_entry (l : list EntryNode) (component : list Z) : option Z :=
  match l with
  | [] => None
  | x :: l' => if streq (e_name x) component then Some (e_inode x) else find_entry l' component
  end.

(** the component loop of [ext2_resolve_path] *)
Fixpoint resolve_loop (fs : Ext2Fs) (components : list (list Z)) (current : Z) : option (option Z) :=
  match components with
  | [] => Some (Some current)
  | component :: rest =>
      if streq component (str ".") then resolve_loop fs rest current
      else if streq component (str "..") then Some None
      else
        match ext2_read_directory fs current false with
        | None => None
        | Some None => Some None
        | Some (Some l) =>
            match find_entry l component with
            | None => Some None
            | Some next => resolve_loop fs rest next
            end
        end
  end.

Definition ext2_resolve_path (fs : Ext2Fs) (path : list Z) : option (option Z) :=
  if (match path with [] => true | c :: _ => c =? 47 end) || (PATH_MAX <? Z.of_nat (length path)) then Some None
  else resolve_loop fs (strtok_slash path []) EXT2_ROOT_INODE.
End Image.

(** ** Printing *)

Definition ext2_type_character (m : Z) : Z :=
  let t := Z.land m EXT2_S_IFMT in
  if t =? EXT2_S_IFDIR then 100
  else if t =? EXT2_S_IFREG then 45
  else if t =? EXT2_S_IFLNK then 108
  else if t =? EXT2_S_IFCHR then 99
  else if t =? EXT2_S_IFBLK then 98
  else if t =? EXT2_S_IFIFO then 112
  else if t =? EXT2_S_IFSOCK then 115
  else 63.

Definition bit_set (m b : Z) : bool := negb (Z.land m b =? 0).

Definition ext2_permission_string (m : Z) : list Z :=
  let bits := [256; 128; 64; 32; 16; 8; 4; 2; 1] in
  let letters := str "rwxrwxrwx" in
  let output := ext2_type_character m ::
    zip_with (fun b letter => if bit_set m b then letter else 45) bits letters in
  let output := if bit_set m 2048 then <[3%nat := if bit_set m 64 then 115 else 83]> output else output in
  let output := if bit_set m 1024 then <[6%nat := if bit_set m 8 then 115 else 83]> output else output in
  if bit_set m 512 then <[9%nat := if bit_set m 1 then 116 else 84]> output else output.

Definition print_entry_label (name : list Z) (inode : Ext2Inode) (show_size show_permissions : bool) : M io unit :=
  if show_permissions then
    let permissions := ext2_permission_string (mode inode) in
    if show_size then printf (str "[" ++ permissions ++ str " " ++ dec (ext2_inode_size inode) ++ str "] " ++ name)
    else printf (str "[" ++ permissions ++ str "] " ++ name)
  else if show_size then printf (str "[" ++ dec (ext2_inode_size inode) ++ str "] " ++ name)
  else printf name.

Definition visited_test (v : list Z) (inode : Z) : bool :=
  negb (Z.land (v !!! Z.to_nat (inode / 8)) (Z.shiftl 1 (inode mod 8)) =? 0).
Definition visited_set (v : list Z) (inode : Z) : list Z :=
  <[Z.to_nat (inode / 8) := Z.lor (v !!! Z.to_nat (inode / 8)) (Z.shiftl 1 (inode mod 8))]> v.

Section Commands.
Context `{Host}.

(** the entry loop of [print_tree_children]; [descend] is the recursive call on
    a child and the longer prefix *)
Fixpoint print_entries (fs : Ext2Fs) (descend : Z -> list Z -> M io bool) (prefix : list Z)
    (recursive show_size show_permissions : bool) (depth : Z) (l : list EntryNode) : M io bool :=
  match l with
  | [] => mret true
  | entry :: next =>
      let is_last := match next with [] => true | _ => false end in
      match ext2_read_inode fs (e_inode entry) with
      | None => mret false
      | Some child =>
          let is_directory := is_dir child in
          s ← get;
          (if is_directory then set_count (directories s + 1) (files s) else set_count (directories s) (files s + 1)) ;;
          printf (prefix ++ (if is_last then str "└──" else str "├──") ++ str " ") ;;
          print_entry_label (e_name entry) child show_size show_permissions ;;
          printf nl ;;
          s ← get;
          ok ← (if recursive && is_directory && (depth <? MAX_TREE_DEPTH) && negb (visited_test (visited s) (e_inode entry)) then
                  set_visited (visited_set (visited s) (e_inode entry)) ;;
                  descend (e_inode entry) (prefix ++ (if is_last then str "    " else str "│   "))
                else mret true);
          if negb ok then mret false
          else print_entries fs descend prefix recursive show_size show_permissions depth next
      end
  end.

(** [print_tree_children]; the depth grows up to [MAX_TREE_DEPTH], which bounds
    the fuel *)
Fixpoint print_tree_children (fuel : nat) (fs : Ext2Fs) (directory_inode : Z) (prefix : list Z)
    (recursive show_size show_permissions : bool) (depth : Z) : M io bool :=
  match fuel with
  | O => block
  | S f =>
      match ext2_read_directory fs directory_inode true with
      | None => block
      | Some None => mret false
      | Some (Some l) =>
          print_entries fs
            (fun child next_prefix => print_tree_children f fs child next_prefix recursive show_size show_permissions (depth + 1))
            prefix recursive show_size show_permissions depth l
      end
  end.

Definition tree_fuel : nat := Z.to_nat (MAX_TREE_DEPTH + 1).

(** the loop that strips trailing slashes in [path_display_name], on the
    reversed path: the first byte stays *)
Fixpoint strip_slashes (l : list Z) : list Z :=
  match l with
  | c :: ((_ :: _) as l') => if c =? 47 then strip_slashes l' else l
  | _ => l
  end.

(** the bytes after the last slash, all of them when there is none ([strrchr]) *)
Fixpoint after_last_slash (l acc : list Z) : list Z :=
  match l with
  | [] => acc
  | c :: l' => if c =? 47 then after_last_slash l' [] else after_last_slash l' (acc ++ [c])
  end.

Definition path_display_name (path : list Z) : list Z :=
  let output := rev (strip_slashes (rev path)) in
  if streq output (str ".") || streq output (str "./") then str "." else after_last_slash output [].

Definition print_tree_usage : M io unit := printf (str "Usage : tree <PATH> [OPTION]..." ++ nl).
Definition print_file_usage : M io unit := printf (str "Usage : print <PATH> [OPTION]..." ++ nl).

(** the option letters of one token, then of all of them: -r, -s, -p *)
Fixpoint tree_letters (l : list Z) (o : bool * bool * bool) : option (bool * bool * bool) :=
  match l with
  | [] => Some o
  | c :: l' =>
      let '(r, s, p) := o in
      if c =? 114 then tree_letters l' (true, s, p)
      else if c =? 115 then tree_letters l' (r, true, p)
      else if c =? 112 then tree_letters l' (r, s, true)
      else None
  end.

Fixpoint tree_options (tokens : list (list Z)) (o : bool * bool * bool) : option (bool * bool * bool) :=
  match tokens with
  | [] => Some o
  | (d :: (_ :: _) as letters) :: rest =>
      if d =? 45 then
        match tree_letters (tail letters) o with
        | None => None
        | Some o => tree_options rest o
        end
      else None
  | _ :: _ => None
  end.

Definition command_tree (fs : Ext2Fs) (tokens : list (list Z)) : M io unit :=
  match tokens with
  | _ :: path :: rest =>
      match tree_options rest (false, false, false) with
      | None => print_tree_usage
      | Some (recursive, show_size, show_permissions) =>
          match ext2_resolve_path fs path with
          | None => block
          | Some None => print_tree_usage
          | Some (Some inode_number) =>
              match ext2_read_inode fs inode_number with
              | None => printf (str "Error: cannot read inode for " ++ quoted path ++ nl)
              | Some inode =>
                  if negb (is_dir inode) then printf (str "Error: " ++ quoted path ++ str " is not directory" ++ nl)
                  else
                    print_entry_label (path_display_name path) inode show_size show_permissions ;;
                    printf nl ;;
                    let v := replicate (Z.to_nat (inodes_count fs / 8 + 1)) 0 in
                    set_visited (visited_set v inode_number) ;;
                    set_count 1 0 ;;
                    ok ← print_tree_children tree_fuel fs inode_number [] recursive show_size show_permissions 0;
                    if negb ok then printf (str "Error: malformed directory data in image" ++ nl)
                    else
                      s ← get;
                      printf (nl ++ dec (directories s) ++ str " directories, " ++ dec (files s) ++ str " files" ++ nl ++ nl)
              end
          end
      end
  | _ => print_tree_usage
  end.

(** [strtoumax(text, &end, 10)]: the value, whether it overflowed, and the rest *)
Fixpoint digits_value (l : list Z) (v : Z) (any : bool) : Z * bool * list Z :=
  match l with
  | c :: l' => if isdigit c then digits_value l' (10 * v + (c - 48)) true else (v, any, l)
  | [] => (v, any, [])
  end.
Fixpoint skip_spaces (l : list Z) : list Z :=
  match l with c :: l' => if isspace c then skip_spaces l' else l | [] => [] end.
Definition strtoumax (text : list Z) : Z * bool * list Z :=
  let t := skip_spaces text in
  let '(neg, body) := match t with
    | c :: t' => if c =? 45 then (true, t') else if c =? 43 then (false, t') else (false, t)
    | [] => (false, t)
    end in
  let '(v, any, rest) := digits_value body 0 false in
  if negb any then (0, false, text)
  else if UINT64_MAX <? v then (UINT64_MAX, true, rest)
  else ((if neg then u64 (- v) else v), false, rest).

Definition parse_positive_line_count (text : list Z) : option Z :=
  match text with
  | [] => None
  | c :: _ =>
      if c =? 45 then None
      else
        let '(parsed, overflow, rest) := strtoumax text in
        if overflow || negb (match rest with [] => true | _ => false end) || (parsed =? 0) || (UINT64_MAX <? parsed)
        then None else Some parsed
  end.

(** the scan for the line limit: how many bytes to print, or the line count so
    far *)
Fixpoint scan_lines (l : list Z) (i lines line_limit : Z) : Z + Z :=
  match l with
  | [] => inr lines
  | c :: l' =>
      if c =? 10 then
        if lines + 1 =? line_limit then inl (i + 1) else scan_lines l' (i + 1) (lines + 1) line_limit
      else scan_lines l' (i + 1) lines line_limit
  end.

(** the block loop of [print_inode_data] *)
Fixpoint print_blocks (k : nat) (fs : Ext2Fs) (inode : Ext2Inode) (limited : bool) (line_limit size logical lines : Z) : M io bool :=
  match k with
  | O => mret true
  | S k' =>
      let consumed := logical * block_size fs in
      let amount := if block_size fs <? size - consumed then block_size fs else size - consumed in
      match ext2_data_block fs inode logical with
      | None => mret false
      | Some physical =>
          match (if physical =? 0 then Some (replicate (Z.to_nat amount) 0)
                 else image_read fs (physical * block_size fs) amount) with
          | None => mret false
          | Some buffer =>
              match (if limited then scan_lines buffer 0 lines line_limit else inr lines) with
              | inl output_amount => printf (take (Z.to_nat output_amount) buffer) ;; mret true
              | inr lines =>
                  printf buffer ;;
                  print_blocks k' fs inode limited line_limit size (logical + 1) lines
              end
          end
      end
  end.

Definition print_inode_data (fs : Ext2Fs) (inode : Ext2Inode) (limited : bool) (line_limit : Z) : M io bool :=
  let size := ext2_inode_size inode in
  let count := size / block_size fs + (if size mod block_size fs =? 0 then 0 else 1) in
  print_blocks (Z.to_nat count) fs inode limited line_limit size 0 0.

Definition is_reg (inode : Ext2Inode) : bool := Z.land (mode inode) EXT2_S_IFMT =? EXT2_S_IFREG.

(** the part of [command_print] after the options *)
Definition print_path (fs : Ext2Fs) (path : list Z) (limited : bool) (line_limit : Z) : M io unit :=
  match ext2_resolve_path fs path with
  | None => block
  | Some None => print_file_usage
  | Some (Some inode_number) =>
      match ext2_read_inode fs inode_number with
      | None => printf (str "Error: cannot read inode for " ++ quoted path ++ nl)
      | Some inode =>
          if negb (is_reg inode) then printf (str "Error: " ++ quoted path ++ str " is not file" ++ nl)
          else
            ok ← print_inode_data fs inode limited line_limit;
            if negb ok then printf (nl ++ str "Error: cannot read file data for " ++ quoted path ++ nl) else mret tt
      end
  end.

Definition command_print (fs : Ext2Fs) (tokens : list (list Z)) : M io unit :=
  match tokens with
  | _ :: path :: [] => print_path fs path false 0
  | _ :: path :: opt :: rest =>
      if negb (streq opt (str "-n")) then print_file_usage
      else
        match rest with
        | [] => printf (str "print: option requires an argument -- 'n'" ++ nl)
        | [arg] =>
            match parse_positive_line_count arg with
            | None => print_file_usage
            | Some line_limit => print_path fs path true line_limit
            end
        | _ => print_file_usage
        end
  | _ => print_file_usage
  end.

Definition lines_of (l : list string) : list Z := l ≫= fun s => str s ++ nl.

Definition print_tree_help : M io unit := printf (lines_of
  [ "Usage : tree <PATH> [OPTION]... : display the directory structure if <PATH> is a directory";
    "  -r : display the directory structure recursively";
    "  -s : include the size of each directory and file";
    "  -p : include the permissions of each directory and file" ]%string).

Definition print_print_help : M io unit := printf (lines_of
  [ "Usage : print <PATH> [OPTION]... : print file contents on standard output";
    "  -n <line_number> : print only the first <line_number> lines" ]%string).

Definition print_all_help : M io unit := printf (lines_of
  [ "Usage:";
    "  > tree <PATH> [OPTION]... : display the directory structure if <PATH> is a directory";
    "    -r : display the directory structure recursively";
    "    -s : include the size of each directory and file";
    "    -p : include the permissions of each directory and file";
    "  > print <PATH> [OPTION]... : print file contents on standard output";
    "    -n <line_number> : print only the first <line_number> lines";
    "  > help [COMMAND] : show commands for program";
    "  > exit : exit program" ]%string).

Definition command_help (tokens : list (list Z)) : M io unit :=
  match tokens with
  | [_] => print_all_help
  | [_; c] =>
      if streq c (str "tree") then print_tree_help
      else if streq c (str "print") then print_print_help
      else if streq c (str "help") then printf (lines_of ["Usage : help [COMMAND] : show commands for program"%string])
      else if streq c (str "exit") then printf (lines_of ["Usage : exit : exit program"%string])
      else printf (str "invalid command -- " ++ quoted c ++ nl) ;; print_all_help
  | _ => printf (lines_of ["Usage : help [COMMAND]"%string]) ;; print_all_help
  end.

(** ** The tokenizer, which works inside the line buffer *)

Inductive tokens_res : Type :=
| Tokens (buf : list Z) (starts : list Z)
| TooMany                                  (** -1 *)
| Unclosed                                 (** -2 *)
| Endless.                                 (** a loop did not end within its fuel *)

(** [while (isspace( *readp)) readp++]; [None] when the fuel runs out *)
Fixpoint skip_ws (fuel : nat) (buf : list Z) (readp : Z) : option Z :=
  match fuel with
  | O => None
  | S f => if isspace (buf !!! Z.to_nat readp) then skip_ws f buf (readp + 1) else Some readp
  end.

(** the copy loop of one token; [quote] is 0 outside quotes *)
Fixpoint copy_token (fuel : nat) (buf : list Z) (quote readp writep : Z) : option (list Z * Z * Z * Z) :=
  match fuel with
  | O => None
  | S f =>
      let c := buf !!! Z.to_nat readp in
      if c =? 0 then Some (buf, quote, readp, writep)
      else if negb (quote =? 0) && (c =? quote) then copy_token f buf 0 (readp + 1) writep
      else if (quote =? 0) && ((c =? 39) || (c =? 34)) then copy_token f buf c (readp + 1) writep
      else if (quote =? 0) && isspace c then Some (buf, quote, readp + 1, writep)
      else
        let readp := if (c =? 92) && negb (buf !!! Z.to_nat (readp + 1) =? 0) then readp + 1 else readp in
        copy_token f (<[Z.to_nat writep := buf !!! Z.to_nat readp]> buf) quote (readp + 1) (writep + 1)
  end.

Fixpoint tokenize_loop (fuel : nat) (buf : list Z) (readp writep : Z) (starts : list Z) (maximum : Z) : tokens_res :=
  match fuel with
  | O => Endless
  | S f =>
      if buf !!! Z.to_nat readp =? 0 then Tokens buf starts
      else
        match skip_ws (length buf) buf readp with
        | None => Endless
        | Some readp =>
            if buf !!! Z.to_nat readp =? 0 then Tokens buf starts
            else if Z.of_nat (length starts) =? maximum then TooMany
            else
              match copy_token (length buf) buf 0 readp writep with
              | None => Endless
              | Some (buf', quote, readp', writep') =>
                  if negb (quote =? 0) then Unclosed
                  else tokenize_loop f (<[Z.to_nat writep' := 0]> buf') readp' (writep' + 1) (starts ++ [writep]) maximum
              end
        end
  end.

(** [tokenize] on a line buffer that ends in NUL *)
Definition tokenize (line : list Z) (maximum : Z) : tokens_res :=
  tokenize_loop (S (length line)) line 0 0 [] maximum.

(** the strings that the token pointers point to *)
Definition token_strings (buf : list Z) (starts : list Z) : list (list Z) :=
  (fun p => cstr (drop (Z.to_nat p) buf)) <$> starts.

Definition execute_command (fs : Ext2Fs) (line : list Z) : M io bool :=
  match tokenize line MAX_TOKENS with
  | Tokens buf starts =>
      let tokens := token_strings buf starts in
      match tokens with
      | [] => mret true
      | t0 :: rest =>
          if streq t0 (str "tree") then command_tree fs tokens ;; mret true
          else if streq t0 (str "print") then command_print fs tokens ;; mret true
          else if streq t0 (str "help") then command_help tokens ;; mret true
          else if streq t0 (str "exit") then
            match rest with
            | [] => mret false
            | _ => printf (str "Usage : exit" ++ nl) ;; mret true
            end
          else print_all_help ;; mret true
      end
  | TooMany | Unclosed => print_all_help ;; mret true
  | Endless => block
  end.

Definition PROMPT : list Z := str "20211426> ".

(** [fgets]: at most [n] bytes, up to and including a newline; the rest of the
    input, and whether the end of the input was met *)
Fixpoint fgets (n : nat) (inp : list Z) : list Z * list Z * bool :=
  match n with
  | O => ([], inp, false)
  | S n' =>
      match inp with
      | [] => ([], [], true)
      | c :: inp' => if c =? 10 then ([c], inp', false)
                     else let '(l, r, e) := fgets n' inp' in (c :: l, r, e)
      end
  end.

Definition set_input (i : list Z) : M io unit := modify (fun s =>
  mkio (out s) (err s) i (visited s) (directories s) (files s)).

(** the rest of an over-long line is skipped *)
Fixpoint skip_line (l : list Z) : list Z :=
  match l with [] => [] | c :: l' => if c =? 10 then l' else skip_line l' end.

(** [strcspn(command, nl)]: the bytes before the first newline *)
Fixpoint upto_newline (l : list Z) : list Z :=
  match l with [] => [] | c :: l' => if c =? 10 then [] else c :: upto_newline l' end.

(** [prompt_loop]; every round but the last consumes input, which bounds the
    fuel *)
Fixpoint prompt_loop (fuel : nat) (fs : Ext2Fs) : M io unit :=
  match fuel with
  | O => block
  | S f =>
      printf PROMPT ;;
      s ← get;
      let '(raw, rest, eof) := fgets (Z.to_nat (COMMAND_MAX + 1)) (input s) in
      set_input rest ;;
      match raw with
      | [] => mret tt
      | _ =>
          let command := cstr raw in
          if (0 <? Z.of_nat (length command)) && negb (List.last command 0 =? 10) && negb eof then
            set_input (skip_line rest) ;; print_all_help ;; prompt_loop f fs
          else
            running ← execute_command fs (upto_newline command ++ [0]);
            if running : bool then prompt_loop f fs else mret tt
      end
  end.

(** [main]: the exit status *)
Definition ext2_main (argv : list (list Z)) (file : option (bool * list Z)) : M io Z :=
  match argv with
  | [_; image_path] =>
      r ← ext2_open image_path file;
      match r with
      | None => mret 1
      | Some fs => s ← get; prompt_loop (S (length (input s))) fs ;; mret 0
      end
  | _ => eprintf (str "Usage Error : " ++ hd [] argv ++ str " <EXT2_IMAGE>" ++ nl) ;; mret 1
  end.
End Commands.
