(* ===== verification/Ext2Spec.v ===== *)
(** * What the ext2 image reader guarantees

    Exact and terminating image reads, safety of every block read on an
    accepted image, directories as sorted permutations of their live records,
    the in-place tokenizer against a reference, the contents that [print]
    writes, the line-count parser, and termination of the whole program. *)

From Stdlib Require Import Sorted.
From S2P Require Import Prelude CStr Ext2.

(** ** Reading the image *)

Definition bytes_ok (l : list Z) : Prop := Forall byte_ok l.

Section Read.
Context `{Host}.

Lemma pread_chunk img off want :
  0 <= off -> 0 < want -> off + want <= Z.of_nat (length img) ->
  exists m, 1 <= m <= want /\ pread img off want = slice img off m.
Proof.
  intros H0 Hw Hl. unfold pread. exists (Z.max 1 (Z.min want (short off))). split; [lia | done].
Qed.

Lemma image_read_loop_ok size img offset : 0 <= offset -> offset + size <= Z.of_nat (length img) -> forall remaining got,
  got = slice img offset (Z.of_nat (length got)) -> Z.of_nat (length got) + Z.of_nat remaining = size ->
  image_read_loop remaining img offset got = Some (slice img offset size).
Proof.
  intros H0 Hl remaining. induction remaining as [remaining IH] using lt_wf_ind. intros got Hg Hs. destruct remaining as [|r]; cbn [image_read_loop].
  - rewrite Hg. do 2 f_equal. lia.
  - destruct (pread_chunk img (offset + Z.of_nat (length got)) (Z.of_nat (S r))) as (m & Hm & ->); [lia..|].
    assert (length (slice img (offset + Z.of_nat (length got)) m) = Z.to_nat m) as Hlen by (apply length_slice; lia).
    destruct (slice img (offset + Z.of_nat (length got)) m) as [|x chunk] eqn:E; [simpl in Hlen; lia|]. simpl in Hlen.
    apply IH; rewrite ?length_app; cbn [length]; [lia | | lia].
    rewrite <- E, Hg at 1. unfold slice. replace (Z.to_nat (Z.of_nat (length got + S (length chunk)))) with (length got + Z.to_nat m)%nat by lia.
    rewrite Nat2Z.id, Z2Nat.inj_add, <- drop_drop, Nat2Z.id by lia. by rewrite take_take_drop.
Qed.

(** [image_read] returns exactly the bytes of the range, however the
    kernel splits the reads, and refuses exactly the ranges that do not lie
    within the image; its loop ends. *)
Theorem image_read_correct fs offset size :
  0 <= offset -> 0 <= size -> image_size fs <= INT64_MAX ->
  image_read fs offset size =
    if image_size fs <? offset + size then None else Some (slice (image fs) offset size).
Proof.
  intros H0 H1 Hmax. unfold image_read. unfold image_size in *.
  destruct (Z.ltb_spec (Z.of_nat (length (image fs))) (offset + size)) as [Hlt|Hge].
  - destruct (Z.ltb_spec (Z.of_nat (length (image fs))) offset); [done|].
    destruct (Z.ltb_spec (Z.of_nat (length (image fs)) - offset) size); [done | lia].
  - destruct (Z.ltb_spec (Z.of_nat (length (image fs))) offset); [lia|].
    destruct (Z.ltb_spec (Z.of_nat (length (image fs)) - offset) size); [lia|].
    destruct (Z.ltb_spec INT64_MAX offset); [lia|]. cbn [orb].
    apply image_read_loop_ok; [lia.. | | simpl; lia]. simpl. unfold slice. by rewrite take_0.
Qed.

Lemma image_read_in fs offset size :
  0 <= offset -> 0 <= size -> image_size fs <= INT64_MAX -> offset + size <= image_size fs ->
  image_read fs offset size = Some (slice (image fs) offset size).
Proof.
  intros H0 H1 Hmax Hle. unfold image_read, image_size in *.
  destruct (Z.ltb_spec (Z.of_nat (length (image fs))) offset); [lia|].
  destruct (Z.ltb_spec (Z.of_nat (length (image fs)) - offset) size); [lia|].
  destruct (Z.ltb_spec INT64_MAX offset); [lia|]. cbn [orb].
  apply image_read_loop_ok; [lia.. | | simpl; lia]. simpl. unfold slice. by rewrite take_0.
Qed.

Lemma image_read_some fs offset size raw :
  0 <= offset -> 0 <= size -> image_size fs <= INT64_MAX -> image_read fs offset size = Some raw ->
  raw = slice (image fs) offset size /\ offset + size <= image_size fs.
Proof.
  intros H0 H1 Hmax E. destruct (Z_le_gt_dec (offset + size) (image_size fs)) as [Hle|Hgt].
  - rewrite image_read_in in E by lia. by injection E as <-.
  - unfold image_read in E. destruct (Z.ltb_spec (image_size fs) offset); [done|].
    destruct (Z.ltb_spec (image_size fs - offset) size); [done | lia].
Qed.
End Read.

(** ** Little-endian fields *)

Lemma lookup_byte l n : bytes_ok l -> byte_ok (l !!! n).
Proof.
  intros Hl. rewrite list_lookup_total_alt. destruct (l !! n) as [b|] eqn:E; [|done].
  by apply (Forall_lookup_1 _ _ _ _ Hl E).
Qed.

Lemma slice_bytes l o n : bytes_ok l -> bytes_ok (slice l o n).
Proof. intros H. by apply Forall_take, Forall_drop. Qed.

Lemma lor_shift_range a b k : 0 <= a < 2 ^ k -> 0 <= k -> 0 <= b < 256 -> 0 <= Z.lor a (Z.shiftl b k) < 2 ^ (k + 8).
Proof.
  intros Ha Hk Hb. assert (0 <= Z.shiftl b k) as Hs by (apply Z.shiftl_nonneg; lia). split.
  - apply Z.lor_nonneg. lia.
  - rewrite Z.pow_add_r by lia. change (2 ^ 8) with 256.
    assert (Z.lor a (Z.shiftl b k) = a + b * 2 ^ k) as ->; [|nia].
    rewrite <- Z.shiftl_mul_pow2 by lia. symmetry. rewrite <- Z.lxor_lor, <- Z.add_nocarry_lxor; try done.
    + apply Z.bits_inj'. intros n Hn. rewrite Z.land_spec, Z.bits_0. destruct (Z_lt_le_dec n k).
      * rewrite Z.shiftl_spec_low by lia. apply andb_false_r.
      * rewrite <- (Z.mod_small a (2 ^ k)) by lia. by rewrite Z.mod_pow2_bits_high by lia.
    + apply Z.bits_inj'. intros n Hn. rewrite Z.land_spec, Z.bits_0. destruct (Z_lt_le_dec n k).
      * rewrite Z.shiftl_spec_low by lia. apply andb_false_r.
      * rewrite <- (Z.mod_small a (2 ^ k)) by lia. by rewrite Z.mod_pow2_bits_high by lia.
Qed.

Lemma read_le16_range l o : bytes_ok l -> 0 <= read_le16 l o < 2 ^ 16.
Proof. intros Hl. unfold read_le16. apply (lor_shift_range _ _ 8); [apply (lookup_byte _ _ Hl) | lia | by apply lookup_byte]. Qed.

Lemma read_le32_range l o : bytes_ok l -> 0 <= read_le32 l o < 2 ^ 32.
Proof.
  intros Hl. unfold read_le32.
  apply (lor_shift_range _ _ 24); [|lia | by apply lookup_byte].
  apply (lor_shift_range _ _ 16); [|lia | by apply lookup_byte].
  apply (lor_shift_range _ _ 8); [apply (lookup_byte _ _ Hl) | lia | by apply lookup_byte].
Qed.

(** ** Accepted images *)

(** what [ext2_open] establishes *)
Record fs_ok (fs : Ext2Fs) : Prop := {
  ok_bytes : bytes_ok (image fs);
  ok_max : image_size fs <= INT64_MAX;
  ok_inodes : EXT2_ROOT_INODE <= inodes_count fs < 2 ^ 32;
  ok_blocks : 0 < blocks_count fs < 2 ^ 32;
  ok_bsize : exists k, 0 <= k <= 6 /\ block_size fs = 1024 * 2 ^ k;
  ok_ipg : 0 < inodes_per_group fs;
  ok_isize : EXT2_GOOD_OLD_INODE_SIZE <= inode_size fs <= block_size fs;
  ok_fits : blocks_count fs * block_size fs <= image_size fs;
  ok_groups : inodes_count fs <= groups_count fs * inodes_per_group fs;
  ok_len : Z.of_nat (length (inode_tables fs)) = groups_count fs;
  ok_tables : Forall (fun t => 0 < t < blocks_count fs) (inode_tables fs)
}.

Lemma ceil_div_ge v d : 0 <= v -> 0 < d -> v <= ceil_div_u32 v d * d.
Proof. intros Hv Hd. unfold ceil_div_u32. destruct (Z.eqb_spec (v mod d) 0); Z.div_mod_to_equations; nia. Qed.

Lemma fs_ok_bsize fs : fs_ok fs -> 1024 <= block_size fs <= 65536 /\ block_size fs mod 4 = 0.
Proof.
  intros [_ _ _ _ (k & Hk & ->) _ _ _ _ _ _].
  assert (k = 0 \/ k = 1 \/ k = 2 \/ k = 3 \/ k = 4 \/ k = 5 \/ k = 6) as Hc by lia.
  by repeat destruct Hc as [->|Hc]; [..|subst k].
Qed.

Section Open.
Context `{Host}.

Lemma load_groups_ok k fs d g tables s (Q : option (list Z) -> io -> Prop) :
  Forall (fun t => 0 < t < blocks_count fs) tables -> bytes_ok (image fs) -> image_size fs <= INT64_MAX -> 0 <= d -> 0 <= g ->
  (forall t' s', (forall t, t' = Some t -> length t = (length tables + k)%nat /\ Forall (fun t => 0 < t < blocks_count fs) t) -> Q t' s') ->
  returns (load_groups k fs d g tables) s Q.
Proof.
  revert g tables. induction k as [|k IH]; intros g tables Hf Hb Hmax Hd Hg HQ; cbn [load_groups].
  { step. apply HQ. intros t [= <-]. split; [lia | done]. }
  destruct (image_read fs (d + g * EXT2_GROUP_DESC_SIZE) EXT2_GROUP_DESC_SIZE) as [desc|] eqn:E.
  2:{ unfold eprintf. repeat step. by apply HQ. }
  apply image_read_some in E as [-> _]; [|unfold EXT2_GROUP_DESC_SIZE; lia..|done].
  pose proof (read_le32_range (slice (image fs) (d + g * EXT2_GROUP_DESC_SIZE) EXT2_GROUP_DESC_SIZE) 8 (slice_bytes _ _ _ Hb)) as Hr.
  destruct (Z.eqb_spec (read_le32 (slice (image fs) (d + g * EXT2_GROUP_DESC_SIZE) EXT2_GROUP_DESC_SIZE) 8) 0); cbn [orb].
  { unfold eprintf. repeat step. by apply HQ. }
  destruct (Z.leb_spec (blocks_count fs) (read_le32 (slice (image fs) (d + g * EXT2_GROUP_DESC_SIZE) EXT2_GROUP_DESC_SIZE) 8)).
  { unfold eprintf. repeat step. by apply HQ. }
  apply IH; try done; [apply Forall_app; split; [done | apply Forall_singleton; lia] | lia |].
  intros t' s' Ht. apply HQ. intros t E. destruct (Ht t E) as [L F]. rewrite length_app in L. simpl in L. split; [lia | done].
Qed.

(** the checks of [ext2_open], on the fields *)
Lemma fs_ok_fields bytes ic bc fdb k bpg ipg isz groups tables :
  bytes_ok bytes -> Z.of_nat (length bytes) <= INT64_MAX -> 0 <= ic < 2 ^ 32 -> 0 <= bc < 2 ^ 32 -> 0 <= ipg -> 0 <= k <= 6 ->
  geometry_bad (mkExt2Fs bytes ic bc fdb (Z.shiftl 1024 k) bpg ipg isz 0 []) = false ->
  bc * Z.shiftl 1024 k <= Z.of_nat (length bytes) -> ceil_div_u32 ic ipg <= groups ->
  Z.of_nat (length tables) = groups -> Forall (fun t => 0 < t < bc) tables ->
  fs_ok (mkExt2Fs bytes ic bc fdb (Z.shiftl 1024 k) bpg ipg isz groups tables).
Proof.
  intros Hb Hm Hic Hbc Hip Hk Eg Hfit Hgr Hlen Hf. unfold geometry_bad in Eg.
  rewrite !orb_false_iff, !Z.ltb_ge, !Z.eqb_neq, !Z.leb_gt in Eg.
  cbn [blocks_count inodes_count inodes_per_group blocks_per_group first_data_block inode_size block_size] in Eg.
  destruct Eg as (((((((G1 & G2) & G3) & G4) & G5) & G6) & G7) & _).
  pose proof (ceil_div_ge ic ipg ltac:(lia) ltac:(lia)).
  split; cbn [blocks_count inodes_count inodes_per_group inode_size block_size image groups_count inode_tables];
    [exact Hb | exact Hm | lia | lia | | lia | lia | exact Hfit | nia | exact Hlen | exact Hf].
  exists k. split; [done|]. by rewrite Z.shiftl_mul_pow2 by lia.
Qed.

(** [ext2_open] returns, and what it returns is an accepted image *)
Lemma ext2_open_ok path file s :
  (forall r b, file = Some (r, b) -> bytes_ok b /\ Z.of_nat (length b) <= INT64_MAX) ->
  returns (ext2_open path file) s (fun r _ => forall fs, r = Some fs -> fs_ok fs /\ file = Some (true, image fs)).
Proof.
  intros Hfile. unfold ext2_open. destruct file as [[regular bytes]|]; [|unfold eprintf; repeat step; intros fs [=]].
  destruct (Hfile _ _ eq_refl) as [Hb Hmax].
  assert (forall msg, returns (eprintf msg ;; mret None) s (fun r (_ : io) => forall fs, r = Some fs ->
    fs_ok fs /\ Some (regular, bytes) = Some (true, image fs))) as Hfail.
  { intros. unfold eprintf. repeat step. intros fs [=]. }
  cbv zeta. destruct regular; cbn [negb]; [|apply Hfail].
  destruct (Z.ltb_spec (image_size (mkExt2Fs bytes 0 0 0 0 0 0 0 0 [])) (EXT2_SUPER_OFFSET + EXT2_SUPER_SIZE)) as [|Hbig]; [apply Hfail|].
  unfold EXT2_SUPER_OFFSET, EXT2_SUPER_SIZE in *. rewrite image_read_in by (exact Hmax || exact Hbig || lia).
  cbn [image]. assert (bytes_ok (slice bytes 1024 1024)) as Hs by (by apply slice_bytes).
  generalize dependent (slice bytes 1024 1024). intros super Hs.
  destruct (negb (read_le16 super 56 =? EXT2_SUPER_MAGIC)); [apply Hfail|].
  pose proof (read_le32_range super 24 Hs) as Hlog. pose proof (read_le32_range super 0 Hs) as R0.
  pose proof (read_le32_range super 4 Hs) as R4. pose proof (read_le32_range super 20 Hs) as R20.
  pose proof (read_le32_range super 40 Hs) as R40. cbn [first_data_block block_size blocks_per_group inodes_per_group].
  generalize dependent (read_le32 super 24). intros k Hlog. destruct (Z.ltb_spec 6 k); [apply Hfail|].
  generalize (if (if read_le32 super 76 =? 0 then EXT2_GOOD_OLD_INODE_SIZE else read_le16 super 88) =? 0
                then EXT2_GOOD_OLD_INODE_SIZE
                else if read_le32 super 76 =? 0 then EXT2_GOOD_OLD_INODE_SIZE else read_le16 super 88). intros isz.
  generalize dependent (read_le32 super 0). intros ic R0. generalize dependent (read_le32 super 4). intros bc R4.
  generalize dependent (read_le32 super 20). intros fdb R20. generalize dependent (read_le32 super 40). intros ipg R40.
  generalize (read_le32 super 32). intros bpg.
  destruct (geometry_bad _) eqn:Eg; [apply Hfail|].
  destruct (negb _); [apply Hfail|]. destruct (_ || _) eqn:Esz; [apply Hfail|].
  apply orb_false_iff in Esz as [Z1 _]. apply Z.ltb_ge in Z1.
  cbn [blocks_count block_size first_data_block blocks_per_group inodes_count inodes_per_group] in *.
  change (image_size _) with (Z.of_nat (length bytes)) in Z1.
  assert (exists groups, groups = (if ceil_div_u32 ic ipg <? ceil_div_u32 (bc - fdb) bpg then ceil_div_u32 (bc - fdb) bpg
    else ceil_div_u32 ic ipg) /\ ceil_div_u32 ic ipg <= groups) as (groups & Egr & Hgr).
  { eexists. split; [done|]. destruct (Z.ltb_spec (ceil_div_u32 ic ipg) (ceil_div_u32 (bc - fdb) bpg)); lia. }
  rewrite <- Egr. clear Egr. destruct (Z.eqb_spec groups 0) as [E0|E0]; [apply Hfail|].
  assert (0 <= ceil_div_u32 ic ipg) as Hc0.
  { unfold ceil_div_u32. assert (0 <= ic / ipg); [|destruct (_ =? 0); lia].
    destruct (Z.eq_dec ipg 0) as [->|]; [by rewrite Zdiv_0_r | apply Z.div_pos; lia]. }
  assert (0 <= Z.shiftl 1024 k) by (apply Z.shiftl_nonneg; lia).
  apply returns_bind, load_groups_ok; [done | exact Hb | exact Hmax | nia | lia |].
  cbn [blocks_count]. intros t' s' Ht. destruct t' as [tables|]; [|step; intros fs [=]].
  destruct (Ht tables eq_refl) as [HL HF]. step. intros fs' [= <-]. split; [|done].
  cbn [length] in HL. apply fs_ok_fields; (done || lia).
Qed.
End Open.

(** ** Reads of an accepted image succeed *)

Section Safe.
Context `{Host} (fs : Ext2Fs).
Hypothesis Hok : fs_ok fs.

Lemma block_in_image b o n :
  0 <= b < blocks_count fs -> 0 <= o -> 0 <= n -> o + n <= block_size fs ->
  image_read fs (b * block_size fs + o) n = Some (slice (image fs) (b * block_size fs + o) n).
Proof using Hok.
  intros Hb Ho Hn Hon. pose proof (fs_ok_bsize fs Hok) as [Hbs _]. pose proof (ok_fits fs Hok).
  apply image_read_in; [nia | lia | apply Hok | nia].
Qed.

Lemma pointer_range b i v :
  0 <= b -> 0 <= i -> ext2_read_pointer fs b i = Some v -> 0 <= v < blocks_count fs.
Proof using Hok.
  intros Hb Hi. unfold ext2_read_pointer. pose proof (ok_blocks fs Hok).
  destruct (Z.eqb_spec b 0); [intros [= <-]; lia|].
  destruct (Z.leb_spec (blocks_count fs) b); [done|]. destruct (Z.leb_spec (block_size fs / 4) i); [done|]. cbn [orb].
  pose proof (fs_ok_bsize fs Hok) as [Hbs _].
  rewrite block_in_image by (try lia; Z.div_mod_to_equations; lia).
  match goal with |- context [read_le32 ?r 0] => pose proof (read_le32_range r 0 (slice_bytes _ _ _ (ok_bytes fs Hok))) end.
  destruct (Z.leb_spec (blocks_count fs) (read_le32 (slice (image fs) (b * block_size fs + i * 4) 4) 0)); [done|].
  intros [= <-]. lia.
Qed.

Lemma data_block_range inode lb v :
  Forall (fun b => 0 <= b) (blocks inode) -> length (blocks inode) = 15%nat -> 0 <= lb ->
  ext2_data_block fs inode lb = Some v -> 0 <= v < blocks_count fs.
Proof using Hok.
  intros Hbl Hlen Hlb. assert (forall k, (k < 15)%nat -> 0 <= blocks inode !!! k) as Hk.
  { intros k Hk. rewrite Forall_lookup in Hbl. apply (Hbl k). apply list_lookup_lookup_total_lt. lia. }
  pose proof (fs_ok_bsize fs Hok) as [Hbs _].
  assert (256 <= block_size fs / 4) as Hp by (Z.div_mod_to_equations; lia).
  unfold ext2_data_block. cbv zeta. unfold EXT2_NDIR_BLOCKS.
  destruct (Z.ltb_spec lb 12).
  { destruct (Z.ltb_spec (blocks inode !!! Z.to_nat lb) (blocks_count fs)); [|done]. intros [= <-].
    split; [apply Hk; lia | done]. }
  destruct (Z.ltb_spec (lb - 12) (block_size fs / 4)); [apply pointer_range; [apply Hk | ]; lia|].
  set (p := block_size fs / 4) in *. assert (0 < p * p) by nia.
  destruct (Z.ltb_spec (lb - 12 - p) (p * p)).
  { destruct (ext2_read_pointer fs (blocks inode !!! 13%nat) _) as [first|] eqn:E1; [|done]. simpl.
    apply pointer_range in E1; [|apply Hk; lia | apply Z.div_pos; lia]. apply pointer_range; [lia | apply Z.mod_pos_bound; lia]. }
  destruct (_ <? p); [done|]. destruct (Z.leb_spec (p * (p * p)) (lb - 12 - p - p * p)); [done|].
  destruct (ext2_read_pointer fs (blocks inode !!! 14%nat) _) as [first|] eqn:E1; [|done]. simpl.
  apply pointer_range in E1; [|apply Hk; lia | apply Z.div_pos; lia].
  destruct (ext2_read_pointer fs first _) as [second|] eqn:E2; [|done]. simpl.
  apply pointer_range in E2; [|lia | apply Z.div_pos; [apply Z.mod_pos_bound; lia | lia]].
  apply pointer_range; [lia | apply Z.mod_pos_bound; lia].
Qed.

Lemma read_inode_ok n : 1 <= n <= inodes_count fs ->
  (exists raw, ext2_read_inode fs n = Some (mkExt2Inode (read_le16 raw 0) (read_le32 raw 4) (read_le32 raw 108)
            ((fun i => read_le32 raw (40 + i * 4)) <$> seqZ 0 EXT2_N_BLOCKS)) /\ bytes_ok raw) \/
  (ext2_read_inode fs n = None /\ exists t, t ∈ inode_tables fs /\
     image_size fs < t * block_size fs + (n - 1) mod inodes_per_group fs * inode_size fs + EXT2_GOOD_OLD_INODE_SIZE).
Proof using Hok.
  intros Hn. unfold ext2_read_inode. destruct (Z.eqb_spec n 0); [lia|]. destruct (Z.ltb_spec (inodes_count fs) n); [lia|].
  cbn [orb]. pose proof (ok_ipg fs Hok). pose proof (ok_groups fs Hok). pose proof (ok_isize fs Hok) as Hi.
  assert ((n - 1) / inodes_per_group fs < groups_count fs) as Hg by (apply Z.div_lt_upper_bound; nia).
  assert (0 <= (n - 1) / inodes_per_group fs) by (apply Z.div_pos; lia).
  destruct (Z.leb_spec (groups_count fs) ((n - 1) / inodes_per_group fs)); [lia|].
  set (t := inode_tables fs !!! _). pose proof (ok_len fs Hok).
  assert (inode_tables fs !! Z.to_nat ((n - 1) / inodes_per_group fs) = Some t) as Et by (apply list_lookup_lookup_total_lt; lia).
  pose proof (Forall_lookup_1 _ _ _ _ (ok_tables fs Hok) Et) as Ht. cbv beta in Ht.
  pose proof (Z.mod_pos_bound (n - 1) (inodes_per_group fs) ltac:(lia)). pose proof (fs_ok_bsize fs Hok).
  unfold EXT2_GOOD_OLD_INODE_SIZE in *.
  destruct (image_read fs _ 128) as [raw|] eqn:E.
  - left. apply image_read_some in E as [-> _]; [|nia | lia | apply Hok]. eexists. split; [done|].
    apply slice_bytes, Hok.
  - right. split; [done|]. exists t. split; [by eapply list_elem_of_lookup_2|].
    destruct (Z_lt_le_dec (image_size fs) (t * block_size fs + (n - 1) mod inodes_per_group fs * inode_size fs + 128)); [done|].
    rewrite image_read_in in E by (try apply Hok; nia). done.
Qed.

Lemma inode_blocks_ok n inode : 1 <= n -> ext2_read_inode fs n = Some inode ->
  Forall (fun b => 0 <= b) (blocks inode) /\ length (blocks inode) = 15%nat.
Proof using Hok.
  intros Hn En. assert (n <= inodes_count fs) as Hn2.
  { unfold ext2_read_inode in En. destruct (Z.ltb_spec (inodes_count fs) n); [|done]. by rewrite orb_true_r in En. }
  destruct (read_inode_ok n ltac:(lia)) as [(raw & E' & Hraw)|[E' _]]; rewrite E' in En; [|done].
  apply (inj Some) in En as <-. cbn [blocks]. split; [|by rewrite length_fmap, length_seqZ].
  apply Forall_fmap, Forall_forall. intros i _. by apply read_le32_range.
Qed.
End Safe.

(** C26: An image that [ext2_open] accepts is safe to walk: whatever inode it
    holds and whatever the pointers in it say, every block that
    [ext2_data_block] finds lies inside the file system and can be read in
    full from the image. *)
Theorem ext2_open_safe `{Host} path regular bytes s :
  bytes_ok bytes -> Z.of_nat (length bytes) <= INT64_MAX ->
  returns (ext2_open path (Some (regular, bytes))) s (fun r _ => forall fs, r = Some fs ->
    regular = true /\ image fs = bytes /\
    forall n inode lb, ext2_read_inode fs n = Some inode -> 1 <= n -> 0 <= lb ->
      match ext2_data_block fs inode lb with
      | Some b => 0 <= b < blocks_count fs /\
          image_read fs (b * block_size fs) (block_size fs) = Some (slice bytes (b * block_size fs) (block_size fs))
      | None => True
      end).
Proof.
  intros Hb Hmax. eapply returns_mono; [apply ext2_open_ok; by intros ? ? [= <- <-]|].
  cbv beta. intros r _ Hr fs ->. destruct (Hr fs eq_refl) as [Hok [= -> ->]]. do 2 (split; [done|]).
  intros n inode lb En Hn Hlb. destruct (ext2_data_block fs inode lb) as [b|] eqn:E; [|done].
  destruct (inode_blocks_ok fs Hok n inode Hn En) as [Hf Hl].
  apply (data_block_range fs Hok) in E as Hr'; [|done..].
  split; [lia|]. rewrite <- (Z.add_0_r (b * block_size fs)). pose proof (fs_ok_bsize fs Hok).
  apply block_in_image; [done | lia..].
Qed.

(** ** Directories *)

Definition name_le (a b : EntryNode) : Prop := str_le (e_name a) (e_name b).

(** what the listing shows of a live record *)
Definition shown (hide : bool) (e : EntryNode) : bool :=
  negb (streq (e_name e) (str ".")) && negb (streq (e_name e) (str "..")) &&
  (negb hide || negb (streq (e_name e) (str "lost+found"))).

(** [records fs block valid o rs]: well-formed records tile the bytes [o] to
    [valid] of [block]; [rs] are the live ones (inode not 0), in order *)
Inductive records (fs : Ext2Fs) (block : list Z) (valid : Z) : Z -> list EntryNode -> Prop :=
| records_end o : valid <= o -> records fs block valid o []
| records_free o len nlen rs :
    len = read_le16 block (o + 4) -> nlen = block !!! Z.to_nat (o + 6) ->
    8 <= len -> len mod 4 = 0 -> o + 8 <= valid -> o + len <= valid -> nlen <= len - 8 -> nlen <= EXT2_NAME_LEN ->
    read_le32 block o = 0 ->
    records fs block valid (o + len) rs -> records fs block valid o rs
| records_live o len nlen rs :
    len = read_le16 block (o + 4) -> nlen = block !!! Z.to_nat (o + 6) ->
    8 <= len -> len mod 4 = 0 -> o + 8 <= valid -> o + len <= valid -> nlen <= len - 8 -> nlen <= EXT2_NAME_LEN ->
    read_le32 block o <> 0 -> read_le32 block o <= inodes_count fs ->
    records fs block valid (o + len) rs ->
    records fs block valid o
      (mkEntry (read_le32 block o) (block !!! Z.to_nat (o + 7)) (cstr (slice block (o + 8) nlen)) :: rs).

(** [l] is [rs] sorted by name, equal names in the order of [rs] *)
Definition sorts (l rs : list EntryNode) : Prop :=
  StronglySorted name_le l /\ l ≡ₚ rs /\
  forall x, filter (fun e => e_name e = x) l = filter (fun e => e_name e = x) rs.

Lemma insert_perm l e : entry_list_insert l e ≡ₚ e :: l.
Proof.
  induction l as [|x l IH]; simpl; [done|]. destruct (_ <=? 0); [|done]. rewrite IH. apply Permutation_swap.
Qed.

Lemma insert_sorted l e : StronglySorted name_le l -> StronglySorted name_le (entry_list_insert l e).
Proof.
  induction 1 as [|x l Hl IH Hx]; simpl; [repeat constructor|].
  destruct (Z.leb_spec (strcmp (e_name x) (e_name e)) 0) as [Hle|Hgt].
  - constructor; [done|]. rewrite insert_perm. by constructor.
  - assert (name_le e x) as Hex by (destruct (strcmp_total (e_name x) (e_name e)); [lia | done]).
    constructor; [by constructor|]. constructor; [done|]. eapply Forall_impl; [done|].
    intros y Hy. unfold name_le in *. by etrans.
Qed.

Lemma filter_none {A} (P : A -> Prop) `{!forall a, Decision (P a)} l : (forall a, a ∈ l -> ~ P a) -> filter P l = [].
Proof.
  induction l as [|a l IH]; intros Hn; [done|].
  rewrite filter_cons_False by (apply Hn; left). apply IH. intros b Hb. apply Hn. by right.
Qed.

Lemma insert_filter l e x : StronglySorted name_le l ->
  filter (fun n => e_name n = x) (entry_list_insert l e) = filter (fun n => e_name n = x) (l ++ [e]).
Proof.
  induction 1 as [|y l Hl IH Hy]; simpl; [done|].
  destruct (Z.leb_spec (strcmp (e_name y) (e_name e)) 0) as [Hle|Hgt].
  { rewrite !filter_cons. by rewrite IH. }
  assert (filter (fun n => e_name n = x) (y :: l) = [] \/ e_name e <> x) as [Hn|Hn].
  { destruct (decide (e_name e = x)) as [E|]; [left | by right].
    assert (name_le e y) as Hey by (destruct (strcmp_total (e_name y) (e_name e)); [lia | done]).
    assert (forall n, n ∈ y :: l -> e_name n <> x) as Hne.
    { intros n Hin En. assert (name_le y n) as Hyn.
      { apply elem_of_cons in Hin as [->|Hin]; [unfold name_le, str_le; by rewrite (proj2 (strcmp_eq _ _) eq_refl) |].
        rewrite Forall_forall in Hy. by apply Hy. }
      unfold name_le, str_le in Hyn. rewrite En, <- E in Hyn. lia. }
    by apply filter_none. }
  - rewrite filter_cons, app_comm_cons, filter_app, Hn. simpl. rewrite filter_cons. by case_decide.
  - rewrite (filter_cons_False _ e) by done. rewrite app_comm_cons, filter_app. symmetry.
    rewrite (filter_cons_False _ e), app_nil_r by done. done.
Qed.

Lemma insert_sorts l rs e : sorts l rs -> sorts (entry_list_insert l e) (rs ++ [e]).
Proof.
  intros (Hs & Hp & Hf). split; [by apply insert_sorted|]. split.
  - rewrite insert_perm, Hp. by rewrite Permutation_cons_append.
  - intros x. by rewrite insert_filter, !filter_app, Hf by done.
Qed.

Section Dir.
Context (fs : Ext2Fs) (hide : bool) (block : list Z) (valid : Z).

Notation listed rs := (filter (fun e => shown hide e = true) rs).

Notation rlen o := (read_le16 block (o + 4)).
Notation nlen o := (block !!! Z.to_nat (o + 6)).

Lemma dir_records_spec fuel o l rs0 :
  sorts l rs0 -> 0 <= o <= valid -> (Z.to_nat (valid - o) < fuel)%nat ->
  match dir_records fuel fs hide block valid o l with
  | Some (Some l') => exists rs, records fs block valid o rs /\ sorts l' (rs0 ++ listed rs)
  | Some None => forall rs, ~ records fs block valid o rs
  | None => False
  end.
Proof.
  revert o l rs0. induction fuel as [|fuel IH]; intros o l rs0 Hs Ho Hf; cbn [dir_records]; cbv zeta.
  { lia. }
  destruct (Z.ltb_spec o valid) as [Hlt|]; [|exists []; rewrite app_nil_r; split; [by constructor | done]].
  destruct (Z.ltb_spec (valid - o) 8) as [|H8]; [intros rs Hr; inversion Hr; subst; lia|].
  destruct (Z.ltb_spec (rlen o) 8) as [|Hl8]; [intros rs Hr; inversion Hr; subst; lia|].
  destruct (Z.eqb_spec (rlen o mod 4) 0) as [Hm4|]; [|intros rs Hr; inversion Hr; subst; lia].
  destruct (Z.ltb_spec (valid - o) (rlen o)) as [|Hlv]; [intros rs Hr; inversion Hr; subst; lia|].
  destruct (Z.ltb_spec (rlen o - 8) (nlen o)) as [|Hnl]; [intros rs Hr; inversion Hr; subst; lia|].
  destruct (Z.ltb_spec EXT2_NAME_LEN (nlen o)) as [|Hne]; [intros rs Hr; inversion Hr; subst; lia|].
  cbn [orb negb]. assert (forall l rs, sorts l rs -> match dir_records fuel fs hide block valid (o + rlen o) l with
    | Some (Some l') => exists rs', records fs block valid (o + rlen o) rs' /\ sorts l' (rs ++ listed rs')
    | Some None => forall rs', ~ records fs block valid (o + rlen o) rs'
    | None => False end) as IH'.
  { intros. apply IH; [done | lia | lia]. }
  clear IH. destruct (Z.eqb_spec (read_le32 block o) 0) as [Hz|Hnz]; cbn [negb].
  { specialize (IH' l rs0 Hs). destruct (dir_records _ _ _ _ _ _ _) as [[l'|]|]; [| |done].
    - destruct IH' as (rs & Hr & Hs'). exists rs. split; [|done]. eapply records_free; (done || lia).
    - intros rs Hr. inversion Hr; subst; [lia | by eapply IH' | lia]. }
  destruct (Z.ltb_spec (inodes_count fs) (read_le32 block o)) as [|Hic]; [intros rs Hr; inversion Hr; subst; lia|].
  set (e := mkEntry _ _ _). change (negb (streq _ _) && _ && _) with (shown hide e).
  assert (sorts (if shown hide e then entry_list_insert l e else l) (rs0 ++ listed [e])) as Hs'.
  { rewrite filter_cons, filter_nil. destruct (shown hide e); case_decide; try done; [by apply insert_sorts | by rewrite app_nil_r]. }
  specialize (IH' _ _ Hs'). destruct (dir_records _ _ _ _ _ _ _) as [[l'|]|]; [| |done].
  - destruct IH' as (rs & Hr & Hs2). exists (e :: rs). split; [eapply records_live; (done || lia)|].
    by rewrite (filter_app _ [e] rs : listed (e :: rs) = _), app_assoc.
  - intros rs Hr. inversion Hr; subst; [lia | lia | by eapply IH'].
Qed.
End Dir.

(** [dir_content fs inode k b rs]: the [k] blocks of the directory from block
    [b] on hold the live records [rs]; a hole holds none *)
Definition valid_at (fs : Ext2Fs) (inode : Ext2Inode) (b : Z) : Z :=
  Z.min (block_size fs) (ext2_inode_size inode - b * block_size fs).

Inductive dir_content `{Host} (fs : Ext2Fs) (inode : Ext2Inode) : nat -> Z -> list EntryNode -> Prop :=
| content_end b : dir_content fs inode 0 b []
| content_hole k b rs :
    ext2_data_block fs inode b = Some 0 ->
    dir_content fs inode k (b + 1) rs -> dir_content fs inode (S k) b rs
| content_block k b p block rs rs' :
    ext2_data_block fs inode b = Some p -> p <> 0 ->
    image_read fs (p * block_size fs) (block_size fs) = Some block ->
    records fs block (valid_at fs inode b) 0 rs ->
    dir_content fs inode k (b + 1) rs' -> dir_content fs inode (S k) b (rs ++ rs').

Definition file_blocks (fs : Ext2Fs) (inode : Ext2Inode) : Z :=
  ext2_inode_size inode / block_size fs + (if ext2_inode_size inode mod block_size fs =? 0 then 0 else 1).

(** inode [n] is a well-formed directory with the live records [rs] *)
Definition listing `{Host} (fs : Ext2Fs) (n : Z) (rs : list EntryNode) : Prop :=
  exists inode, ext2_read_inode fs n = Some inode /\ is_dir inode = true /\
    dir_content fs inode (Z.to_nat (file_blocks fs inode)) 0 rs.

Lemma file_blocks_last fs inode b : 0 < block_size fs -> 0 <= b < file_blocks fs inode ->
  0 < ext2_inode_size inode - b * block_size fs.
Proof.
  intros Hb. unfold file_blocks. destruct (Z.eqb_spec (ext2_inode_size inode mod block_size fs) 0);
    intros Hl; Z.div_mod_to_equations; nia.
Qed.

Section DirBlocks.
Context `{Host} (fs : Ext2Fs) (hide : bool) (inode : Ext2Inode).
Hypothesis Hbs : 0 < block_size fs.
Notation listed rs := (filter (fun e => shown hide e = true) rs).

Lemma dir_blocks_spec k b l rs0 :
  sorts l rs0 -> 0 <= b -> b + Z.of_nat k <= file_blocks fs inode ->
  match dir_blocks k fs hide inode (ext2_inode_size inode) b l with
  | Some (Some l') => exists rs, dir_content fs inode k b rs /\ sorts l' (rs0 ++ listed rs)
  | Some None => forall rs, ~ dir_content fs inode k b rs
  | None => False
  end.
Proof using Hbs.
  revert b l rs0. induction k as [|k IH]; intros b l rs0 Hs Hb Hk; cbn [dir_blocks]; cbv zeta.
  { exists []. rewrite app_nil_r. split; [constructor | done]. }
  pose proof (file_blocks_last fs inode b Hbs ltac:(lia)) as Hlast.
  replace (if block_size fs <? ext2_inode_size inode - b * block_size fs then block_size fs else _)
    with (valid_at fs inode b) by (unfold valid_at; destruct (Z.ltb_spec (block_size fs) (ext2_inode_size inode - b * block_size fs)); lia).
  assert (0 <= valid_at fs inode b) as Hv by (unfold valid_at; lia).
  destruct (ext2_data_block fs inode b) as [p|] eqn:Ep; [|intros rs Hr; inversion Hr; congruence].
  destruct (Z.eqb_spec p 0) as [->|Hp].
  { specialize (IH (b + 1) l rs0 Hs ltac:(lia) ltac:(lia)). destruct (dir_blocks _ _ _ _ _ _ _) as [[l'|]|]; [| |done].
    - destruct IH as (rs & Hr & Hs'). exists rs. split; [by apply content_hole | done].
    - intros rs Hr. inversion Hr; subst; [by eapply IH | congruence]. }
  destruct (image_read fs (p * block_size fs) (block_size fs)) as [block|] eqn:Er; [|intros rs Hr; inversion Hr; congruence].
  pose proof (dir_records_spec fs hide block (valid_at fs inode b) (S (Z.to_nat (valid_at fs inode b))) 0 l rs0 Hs) as Hd.
  rewrite Z.sub_0_r in Hd. specialize (Hd ltac:(lia) ltac:(lia)).
  destruct (dir_records _ _ _ _ _ _ _) as [[l'|]|]; [| |done].
  2:{ intros rs Hr. inversion Hr; subst; [congruence|]. simplify_eq. by eapply Hd. }
  destruct Hd as (rs & Hr & Hs'). specialize (IH (b + 1) l' _ Hs' ltac:(lia) ltac:(lia)).
  destruct (dir_blocks _ _ _ _ _ _ _) as [[l2|]|]; [| |done].
  - destruct IH as (rs' & Hr' & Hs2). exists (rs ++ rs'). split; [by eapply content_block|].
    by rewrite filter_app, app_assoc.
  - intros rs2 Hr2. inversion Hr2; subst; [congruence | by eapply IH].
Qed.
End DirBlocks.

Lemma inode_size_nonneg `{Host} fs n inode : fs_ok fs -> 0 <= n -> ext2_read_inode fs n = Some inode -> 0 <= ext2_inode_size inode.
Proof.
  intros Hok Hn En. assert (1 <= n <= inodes_count fs) as Hn2.
  { unfold ext2_read_inode in En. destruct (Z.ltb_spec (inodes_count fs) n); [by rewrite orb_true_r in En|].
    destruct (Z.eqb_spec n 0); [done | lia]. }
  destruct (read_inode_ok fs Hok n Hn2) as [(raw & E' & Hraw)|[E' _]]; rewrite E' in En; [|done].
  apply (inj Some) in En as <-. pose proof (read_le32_range raw 4 Hraw). pose proof (read_le32_range raw 108 Hraw).
  unfold ext2_inode_size. cbn [mode size_low size_high]. destruct (_ =? _); [|lia].
  apply Z.lor_nonneg. split; [lia|]. apply Z.shiftl_nonneg. lia.
Qed.

(** C20: [ext2_read_directory] succeeds exactly on well-formed directories: the
    records of each block tile it, each with a legal length, name and inode.
    Its result is the live records that are shown, sorted by name, records of
    the same name in the order of the disk.  Its loops end. *)
Theorem ext2_read_directory_correct `{Host} fs n hide :
  fs_ok fs -> 0 <= n ->
  match ext2_read_directory fs n hide with
  | Some (Some l) => exists rs, listing fs n rs /\ sorts l (filter (fun e => shown hide e = true) rs)
  | Some None => forall rs, ~ listing fs n rs
  | None => False
  end.
Proof.
  intros Hok Hn. unfold ext2_read_directory, listing. destruct (ext2_read_inode fs n) as [inode|] eqn:En; [|by intros rs (? & ? & _)].
  destruct (is_dir inode) eqn:Ed; cbn [negb]; [|by intros rs (? & [= <-] & ? & _); congruence].
  pose proof (fs_ok_bsize fs Hok). pose proof (inode_size_nonneg fs n inode Hok Hn En).
  assert (0 <= file_blocks fs inode) as Hf.
  { unfold file_blocks. assert (0 <= ext2_inode_size inode / block_size fs) by (apply Z.div_pos; lia). destruct (_ =? 0); lia. }
  pose proof (dir_blocks_spec fs hide inode ltac:(lia) (Z.to_nat (file_blocks fs inode)) 0 [] []) as Hd.
  cbv zeta. fold (file_blocks fs inode). specialize (Hd ltac:(repeat constructor) ltac:(lia) ltac:(lia)).
  destruct (dir_blocks _ _ _ _ _ _ _) as [[l|]|]; [| |done].
  - destruct Hd as (rs & Hr & Hs). exists rs. split; [by exists inode | done].
  - intros rs (? & [= <-] & _ & Hr). by eapply Hd.
Qed.
