(* ===== verification/Ext2Cmd.v ===== *)
(** * The commands of the ext2 image reader

    The in-place tokenizer against a reference that splits a list, the
    permission strings, the line-count parser, the bytes that [print] writes,
    and termination of the program. *)

From Stdlib Require Import Sorted.
From S2P Require Import Prelude CStr Ext2 Ext2Spec.

(** ** The tokenizer *)

(** one word: quotes group and vanish, a backslash takes the next byte as it
    is; the word, the quote that is still open, the rest *)
Fixpoint word (l : list Z) (quote : Z) : list Z * Z * list Z :=
  match l with
  | [] => ([], quote, [])
  | c :: l' =>
      if negb (quote =? 0) && (c =? quote) then word l' 0
      else if (quote =? 0) && ((c =? 39) || (c =? 34)) then word l' c
      else if (quote =? 0) && isspace c then ([], 0, l')
      else
        match l' with
        | d :: l'' =>
            if c =? 92 then let '(w, q, r) := word l'' quote in (d :: w, q, r)
            else let '(w, q, r) := word l' quote in (c :: w, q, r)
        | [] => ([c], quote, [])
        end
  end.

Inductive split_res : Type :=
| Words (ws : list (list Z))
| WordsTooMany
| WordsUnclosed.

(** the words of a line, at most [n] *)
Fixpoint words (n : nat) (l : list Z) : split_res :=
  match skip_spaces l with
  | [] => Words []
  | l1 =>
      match n with
      | O => WordsTooMany
      | S n' =>
          let '(w, q, r) := word l1 0 in
          if negb (q =? 0) then WordsUnclosed
          else match words n' r with Words ws => Words (w :: ws) | e => e end
      end
  end.

Lemma words_eq n l : words n l =
  match skip_spaces l with
  | [] => Words []
  | l1 =>
      match n with
      | O => WordsTooMany
      | S n' =>
          let '(w, q, r) := word l1 0 in
          if negb (q =? 0) then WordsUnclosed
          else match words n' r with Words ws => Words (w :: ws) | e => e end
      end
  end.
Proof. by destruct n. Qed.

(** the unread input of the buffer is [l] *)
Definition unread (buf : list Z) (r : Z) (l : list Z) : Prop := 0 <= r /\ drop (Z.to_nat r) buf = l ++ [0].

Lemma unread_head buf r l : unread buf r l -> buf !!! Z.to_nat r = hd 0 l.
Proof.
  intros [Hr E]. rewrite <- (Nat.add_0_r (Z.to_nat r)), <- lookup_total_drop, E. by destruct l.
Qed.

Lemma unread_next buf r c l : unread buf r (c :: l) -> unread buf (r + 1) l.
Proof.
  intros [Hr E]. split; [lia|]. replace (Z.to_nat (r + 1)) with (Z.to_nat r + 1)%nat by lia. by rewrite <- drop_drop, E.
Qed.

Lemma unread_length buf r l : unread buf r l -> Z.of_nat (length buf) = r + Z.of_nat (length l) + 1.
Proof.
  intros [Hr E]. apply (f_equal length) in E. rewrite length_drop, length_app in E. simpl in E. lia.
Qed.

Lemma unread_insert buf r l w x : unread buf r l -> 0 <= w < r -> unread (<[Z.to_nat w := x]> buf) r l.
Proof. intros [Hr E] Hw. split; [done|]. rewrite drop_insert_lt by lia. done. Qed.

Lemma take_insert_next (buf : list Z) w x :
  0 <= w < Z.of_nat (length buf) -> take (Z.to_nat (w + 1)) (<[Z.to_nat w := x]> buf) = take (Z.to_nat w) buf ++ [x].
Proof.
  intros Hw. replace (Z.to_nat (w + 1)) with (S (Z.to_nat w)) by lia.
  rewrite (take_S_r _ _ x) by (apply list_lookup_insert_eq; lia). by rewrite take_insert_ge by lia.
Qed.

Lemma skip_ws_spec fuel buf r l :
  unread buf r l -> (length l < fuel)%nat ->
  exists r', skip_ws fuel buf r = Some r' /\ unread buf r' (skip_spaces l) /\ r <= r'.
Proof.
  revert r l. induction fuel as [|fuel IH]; intros r l Hu Hf; cbn [skip_ws]; [lia|].
  rewrite (unread_head _ _ _ Hu). destruct l as [|c l]; [by exists r|]. cbn [hd skip_spaces].
  destruct (isspace c); [|by exists r]. apply unread_next in Hu. simpl in Hf. destruct (IH _ _ Hu ltac:(lia)) as (r' & E & H1 & H2).
  exists r'. split_and!; [done | done | lia].
Qed.

(** the state after one word *)
Definition copied (buf : list Z) (w : Z) (wd rest l : list Z) (buf' : list Z) (r' w' : Z) : Prop :=
  unread buf' r' rest /\ w <= w' <= r' /\ (w' < r' \/ rest = []) /\ length buf' = length buf /\
  take (Z.to_nat w') buf' = take (Z.to_nat w) buf ++ wd /\
  (length rest <= pred (length l))%nat /\ nonul rest /\ nonul wd.

Lemma copied_put buf r w c wd rest l l' buf' r' w' :
  0 <= w < r -> r <= Z.of_nat (length buf) -> (length l' <= length l)%nat -> c <> 0 ->
  copied (<[Z.to_nat w := c]> buf) (w + 1) wd rest l' buf' r' w' -> copied buf w (c :: wd) rest l buf' r' w'.
Proof.
  intros Hw Hr Hl Hc (H1 & H2 & H3 & H4 & H5 & H6 & H7 & H8). rewrite length_insert in H4.
  unfold copied. split_and!; try done; try lia; [|by constructor].
  rewrite H5, take_insert_next by lia. by rewrite <- app_assoc.
Qed.

Lemma copied_weaken buf w wd rest l l' buf' r' w' :
  (length l' <= length l)%nat -> copied buf w wd rest l' buf' r' w' -> copied buf w wd rest l buf' r' w'.
Proof. intros Hl (H1 & H2 & H3 & H4 & H5 & H6 & H7 & H8). unfold copied. split_and!; done || lia. Qed.

Lemma copy_token_spec fuel buf q r w l wd q' rest :
  nonul l -> unread buf r l -> 0 <= w <= r -> (length l < fuel)%nat -> word l q = (wd, q', rest) ->
  exists buf' r' w', copy_token fuel buf q r w = Some (buf', q', r', w') /\ copied buf w wd rest l buf' r' w'.
Proof.
  revert buf q r w l wd q' rest. induction fuel as [|fuel IH]; intros buf q r w l wd q' rest Hn Hu Hw Hf Ew; [lia|].
  cbn [copy_token]; cbv zeta. rewrite (unread_head _ _ _ Hu). destruct l as [|c l].
  { injection Ew as <- <- <-. do 3 eexists. split; [done|]. unfold copied. split_and!; rewrite ?app_nil_r; try done; try lia; first [by right | constructor]. }
  inversion_clear Hn as [|? ? Hc Hn']. cbn [hd]. destruct (Z.eqb_spec c 0); [done|].
  pose proof (unread_next _ _ _ _ Hu) as Hu'. pose proof (unread_length _ _ _ Hu) as Hlen. cbn [length] in Hf, Hlen.
  cbn [word] in Ew. destruct (negb (q =? 0) && (c =? q)).
  { destruct (IH buf 0 (r + 1) w l wd q' rest) as (buf' & r' & w' & E & Hp); try done; try lia.
    do 3 eexists. split; [exact E|]. apply copied_weaken with l; [simpl; lia | done]. }
  destruct ((q =? 0) && ((c =? 39) || (c =? 34))).
  { destruct (IH buf c (r + 1) w l wd q' rest) as (buf' & r' & w' & E & Hp); try done; try lia.
    do 3 eexists. split; [exact E|]. apply copied_weaken with l; [simpl; lia | done]. }
  destruct ((q =? 0) && isspace c) eqn:Esp.
  { apply andb_true_iff in Esp as [->%Z.eqb_eq _]. injection Ew as <- <- <-. do 3 eexists. split; [done|].
    unfold copied. split_and!; rewrite ?app_nil_r; try done; try lia; constructor. }
  rewrite (unread_head _ _ _ Hu'). destruct l as [|d l].
  { injection Ew as <- <- <-. cbn [hd]. rewrite andb_false_r, (unread_head _ _ _ Hu). cbn [hd].
    destruct (IH (<[Z.to_nat w:=c]> buf) q (r + 1) (w + 1) [] [] q []) as (buf' & r' & w' & E & Hp); try done; try lia;
      [by apply unread_insert; [|lia]|].
    do 3 eexists. split; [exact E|]. eapply copied_put with (r := r + 1); [lia..| |done|exact Hp]. simpl; lia. }
  inversion_clear Hn' as [|? ? Hd Hn'']. cbn [hd]. destruct (Z.eqb_spec d 0); [done|]. cbn [negb]. rewrite andb_true_r.
  pose proof (unread_next _ _ _ _ Hu') as Hu''. cbn [length] in Hf, Hlen.
  destruct (c =? 92).
  - rewrite (unread_head _ _ _ Hu'). cbn [hd]. destruct (word l q) as [[wd1 q1] r1] eqn:E1. injection Ew as <- <- <-.
    destruct (IH (<[Z.to_nat w:=d]> buf) q (r + 1 + 1) (w + 1) l wd1 q1 r1) as (buf' & r' & w' & E & Hp); try done; try lia;
      [by apply unread_insert; [|lia]|].
    do 3 eexists. split; [exact E|]. eapply copied_put with (r := r + 1); [lia..| |done|exact Hp]. simpl; lia.
  - rewrite (unread_head _ _ _ Hu). cbn [hd]. destruct (word (d :: l) q) as [[wd1 q1] r1] eqn:E1. injection Ew as <- <- <-.
    destruct (IH (<[Z.to_nat w:=c]> buf) q (r + 1) (w + 1) (d :: l) wd1 q1 r1) as (buf' & r' & w' & E & Hp); try done;
      [by constructor | by apply unread_insert; [|lia] | lia | simpl in *; lia |].
    do 3 eexists. split; [exact E|]. eapply copied_put with (r := r + 1); [lia..| |done|exact Hp]. simpl; lia.
Qed.

(** the written part of the buffer holds the word [wd] at [p], terminated *)
Definition stored (done_ : list Z) (p : Z) (wd : list Z) : Prop :=
  nonul wd /\ exists pre post, done_ = pre ++ wd ++ 0 :: post /\ p = Z.of_nat (length pre).

Lemma stored_more d more p wd : stored d p wd -> stored (d ++ more) p wd.
Proof.
  intros (Hn & pre & post & -> & ->). split; [done|]. exists pre, (post ++ more).
  split; [|done]. by rewrite <- !app_assoc.
Qed.

Lemma stored_strings buf w starts ws :
  Forall2 (stored (take w buf)) starts ws -> token_strings buf starts = ws.
Proof.
  intros Hs. unfold token_strings. induction Hs as [|p wd starts ws (Hn & pre & post & E & ->) _ IH]; [done|].
  rewrite fmap_cons, IH, Nat2Z.id, <- (take_drop w buf), E, <- app_assoc, drop_app_length, <- app_assoc. simpl.
  by rewrite cstr_app.
Qed.

Lemma nonul_skip l : nonul l -> nonul (skip_spaces l).
Proof. induction 1; simpl; [constructor|]. case_match; [done | by constructor]. Qed.

Lemma skip_length l : (length (skip_spaces l) <= length l)%nat.
Proof. induction l as [|c l IH]; simpl; [done|]. case_match; simpl; lia. Qed.

Lemma tokenize_loop_spec fuel buf r w starts maximum l ws :
  nonul l -> unread buf r l -> 0 <= w -> w <= r \/ l = [] -> (length l < fuel)%nat ->
  Forall2 (stored (take (Z.to_nat w) buf)) starts ws -> Z.of_nat (length ws) <= maximum ->
  match words (Z.to_nat (maximum - Z.of_nat (length ws))) l with
  | Words ws' => exists buf' starts', tokenize_loop fuel buf r w starts maximum = Tokens buf' starts' /\
                   token_strings buf' starts' = ws ++ ws'
  | WordsTooMany => tokenize_loop fuel buf r w starts maximum = TooMany
  | WordsUnclosed => tokenize_loop fuel buf r w starts maximum = Unclosed
  end.
Proof.
  revert buf r w starts l ws. induction fuel as [|fuel IH]; intros buf r w starts l ws Hn Hu Hw Hr Hf Hs Hm; [lia|].
  cbn [tokenize_loop]. rewrite (unread_head _ _ _ Hu).
  assert (length starts = length ws) as Hls by (by eapply Forall2_length).
  rewrite words_eq. destruct (Z.eqb_spec (hd 0 l) 0) as [E0|E0].
  { destruct l as [|c l]; [|inversion Hn; by subst]. exists buf, starts. split; [done|].
    rewrite app_nil_r. by eapply stored_strings. }
  destruct Hr as [Hr| ->]; [|done].
  pose proof (unread_length _ _ _ Hu) as Hlen.
  destruct (skip_ws_spec (length buf) buf r l Hu ltac:(lia)) as (r1 & -> & Hu1 & Hr1). rewrite (unread_head _ _ _ Hu1).
  pose proof (nonul_skip l Hn) as Hn1. pose proof (skip_length l) as Hl1.
  destruct (skip_spaces l) as [|c l1] eqn:El; cbn [hd].
  { exists buf, starts. split; [done|]. rewrite app_nil_r. by eapply stored_strings. }
  clear El. destruct (Z.eqb_spec c 0) as [E1|E1]; [inversion Hn1; by subst|]. rewrite Hls.
  destruct (Z.to_nat (maximum - Z.of_nat (length ws))) as [|n] eqn:En; destruct (Z.eqb_spec (Z.of_nat (length ws)) maximum); try lia; [done|].
  destruct (word (c :: l1) 0) as [[wd q] rest] eqn:Ewd. cbn [length] in Hl1.
  destruct (copy_token_spec (length buf) buf 0 r1 w (c :: l1) wd q rest) as (buf' & r' & w' & -> & H1 & H2 & H3 & H4 & H5 & H6 & H7 & H8);
    [done | done | lia | simpl; lia | done |]. cbn [length pred] in H6.
  destruct (q =? 0); cbn [negb]; [|done].
  assert (unread (<[Z.to_nat w' := 0]> buf') r' rest) as Hu2.
  { destruct H3 as [H3| ->]; [by apply unread_insert; [|lia]|]. destruct (Z.eq_dec w' r') as [->|]; [|by apply unread_insert; [|lia]].
    destruct H1 as [? Hd]. split; [done|]. rewrite drop_insert_ge, Nat.sub_diag, Hd by lia. done. }
  pose proof (unread_length _ _ _ H1). 
  assert (take (Z.to_nat (w' + 1)) (<[Z.to_nat w' := 0]> buf') = take (Z.to_nat w) buf ++ wd ++ [0]) as Ht.
  { rewrite take_insert_next, H5, <- app_assoc by lia. done. }
  assert (Forall2 (stored (take (Z.to_nat (w' + 1)) (<[Z.to_nat w' := 0]> buf'))) (starts ++ [w]) (ws ++ [wd])) as Hs2.
  { rewrite Ht. apply Forall2_app.
    - eapply Forall2_impl; [done|]. intros p x. apply stored_more.
    - constructor; [|constructor]. split; [done|]. exists (take (Z.to_nat w) buf), []. split; [done|]. rewrite length_take. lia. }
  specialize (IH (<[Z.to_nat w' := 0]> buf') r' (w' + 1) (starts ++ [w]) rest (ws ++ [wd])).
  rewrite length_app in IH. cbn [length] in IH. replace (Z.to_nat (maximum - Z.of_nat (length ws + 1))) with n in IH by lia.
  specialize (IH H7 Hu2 ltac:(lia) ltac:(destruct H3; [left; lia | by right]) ltac:(lia) Hs2 ltac:(lia)).
  destruct (words n rest) as [ws'| |]; [|done..]. destruct IH as (b & st & -> & E). exists b, st. split; [done|].
  by rewrite E, <- app_assoc.
Qed.

(** The tokenizer, which unquotes each word in place in the line buffer,
    finds exactly the words of the line as the reference splits it, reports
    more than [maximum] words, and reports a quote left open. *)
Theorem tokenize_correct text maximum :
  nonul text -> 0 <= maximum ->
  match words (Z.to_nat maximum) text with
  | Words ws => exists buf starts, tokenize (text ++ [0]) maximum = Tokens buf starts /\ token_strings buf starts = ws
  | WordsTooMany => tokenize (text ++ [0]) maximum = TooMany
  | WordsUnclosed => tokenize (text ++ [0]) maximum = Unclosed
  end.
Proof.
  intros Hn Hm. unfold tokenize.
  pose proof (tokenize_loop_spec (S (length (text ++ [0]))) (text ++ [0]) 0 0 [] maximum text [] Hn) as Hs.
  cbn [length] in Hs. rewrite Z.sub_0_r in Hs. apply Hs; [done | done | by left | rewrite length_app; lia | constructor | done].
Qed.

Lemma tokenize_ends text maximum : nonul text -> 0 <= maximum -> tokenize (text ++ [0]) maximum <> Endless.
Proof.
  intros Hn Hm. unfold tokenize.
  pose proof (tokenize_loop_spec (S (length (text ++ [0]))) (text ++ [0]) 0 0 [] maximum text [] Hn) as Hs.
  cbn [length] in Hs. rewrite Z.sub_0_r in Hs. specialize (Hs ltac:(done) ltac:(done) ltac:(by left) ltac:(rewrite length_app; lia) ltac:(constructor) Hm).
  destruct (words _ _); [destruct Hs as (b & st & -> & _); done | by rewrite Hs..].
Qed.

Theorem tokenize_correct_witness :
  tokenize (str "tree 'a b'\ c" ++ [0]) MAX_TOKENS <> Unclosed /\
  exists buf starts, tokenize (str "tree 'a b'\ c" ++ [0]) MAX_TOKENS = Tokens buf starts /\
    token_strings buf starts = [str "tree"; str "a b c"].
Proof.
  assert (nonul (str "tree 'a b'\ c")) as Hn by (by repeat constructor).
  pose proof (tokenize_correct (str "tree 'a b'\ c") MAX_TOKENS Hn ltac:(done)) as Hc.
  split; [by vm_compute | exact Hc].
Defined.

(** ** Permission strings *)

(** reading the nine letters back: [r], [w], and in the third place of a class
    [x], [s], [S], [t], [T] *)
Definition read_letter (l : list Z) (p : nat) (bit : Z) : Z := if l !!! p =? 45 then 0 else bit.
Definition read_execute (l : list Z) (p : nat) (bit special : Z) : Z :=
  let c := l !!! p in
  if c =? 45 then 0
  else if c =? 120 then bit
  else if (c =? 115) || (c =? 116) then bit + special
  else special.
Definition permission_bits (l : list Z) : Z :=
  read_letter l 1 256 + read_letter l 2 128 + read_execute l 3 64 2048 +
  read_letter l 4 32 + read_letter l 5 16 + read_execute l 6 8 1024 +
  read_letter l 7 4 + read_letter l 8 2 + read_execute l 9 1 512.

Lemma read_letter_if l p v (b : bool) c :
  c <> 45 -> l !!! p = (if b then c else 45) -> read_letter l p v = v * Z.b2z b.
Proof. intros Hc E. unfold read_letter. rewrite E. destruct b; [|simpl; lia]. destruct (Z.eqb_spec c 45); simpl; lia. Qed.

Lemma read_execute_if l p v special (b s : bool) c d :
  c = 115 \/ c = 116 -> d = 83 \/ d = 84 ->
  l !!! p = (if s then (if b then c else d) else if b then 120 else 45) ->
  read_execute l p v special = v * Z.b2z b + special * Z.b2z s.
Proof.
  intros Hc Hd E. unfold read_execute. rewrite E. destruct s, b, Hc as [->| ->], Hd as [->| ->]; cbn; lia.
Qed.

Lemma mod_pow2_S m k : 0 <= k -> m mod 2 ^ (k + 1) = m mod 2 ^ k + 2 ^ k * Z.b2z (Z.testbit m k).
Proof.
  intros Hk. rewrite Z.testbit_spec', Z.pow_add_r by lia. change (2 ^ 1) with 2. apply Z.rem_mul_r; lia.
Qed.

Lemma bit_set_testbit m k : 0 <= k -> bit_set m (2 ^ k) = Z.testbit m k.
Proof. intros Hk. unfold bit_set. rewrite <- Z.shiftl_1_l, land_bit_zero by done. apply negb_involutive. Qed.

Lemma mode_bits m : m mod 4096 =
  let b k := Z.b2z (bit_set m (2 ^ k)) in
  256 * b 8 + 128 * b 7 + (64 * b 6 + 2048 * b 11) + 32 * b 5 + 16 * b 4 + (8 * b 3 + 1024 * b 10) +
  4 * b 2 + 2 * b 1 + (1 * b 0 + 512 * b 9).
Proof.
  cbv zeta. change 4096 with (2 ^ (11 + 1)). rewrite mod_pow2_S by lia.
  do 11 (match goal with |- context [m mod 2 ^ ?k] => change (m mod 2 ^ k) with (m mod 2 ^ (Z.pred k + 1)); cbn [Z.pred Z.pos_sub Z.add Pos.pred_double Pos.add Pos.succ];
    rewrite (mod_pow2_S m (Z.pred k)) by lia; cbn [Z.pred Z.pos_sub Z.add Pos.pred_double] end).
  rewrite !bit_set_testbit by lia. simpl. rewrite Z.mod_1_r. lia.
Qed.

(** The permission string loses nothing: its nine letters spell the twelve
    permission bits of the mode, set-user-id, set-group-id and sticky included,
    and its first letter is the type. *)
Theorem permission_roundtrip m :
  permission_bits (ext2_permission_string m) = m mod 4096 /\
  length (ext2_permission_string m) = 10%nat /\ hd 0 (ext2_permission_string m) = ext2_type_character m.
Proof.
  rewrite mode_bits. cbv zeta. unfold ext2_permission_string.
  change (2 ^ 0) with 1. change (2 ^ 1) with 2. change (2 ^ 2) with 4. change (2 ^ 3) with 8. change (2 ^ 4) with 16.
  change (2 ^ 5) with 32. change (2 ^ 6) with 64. change (2 ^ 7) with 128. change (2 ^ 8) with 256. change (2 ^ 9) with 512.
  change (2 ^ 10) with 1024. change (2 ^ 11) with 2048. change (str "rwxrwxrwx") with [114; 119; 120; 114; 119; 120; 114; 119; 120]. cbn [zip_with].
  repeat match goal with |- context [bit_set m ?k] => generalize (bit_set m k); intro end.
  generalize (ext2_type_character m). intros ty.
  split; [|split; [by destruct b, b1, b3 | by destruct b, b1, b3]].
  unfold permission_bits.
  rewrite (read_letter_if _ 1 _ b5 114), (read_letter_if _ 2 _ b6 119), (read_execute_if _ 3 _ _ b4 b3 115 83),
    (read_letter_if _ 4 _ b7 114), (read_letter_if _ 5 _ b8 119), (read_execute_if _ 6 _ _ b2 b1 115 83),
    (read_letter_if _ 7 _ b9 114), (read_letter_if _ 8 _ b10 119), (read_execute_if _ 9 _ _ b0 b 116 84);
    (done || (by destruct b, b1, b3) || by auto).
Qed.

(** ** [print] *)

(** the first [n] lines of a byte list, newlines included *)
Fixpoint first_lines (n : Z) (l : list Z) : list Z :=
  match l with
  | [] => []
  | c :: l' => if c =? 10 then (if n =? 1 then [c] else c :: first_lines (n - 1) l') else c :: first_lines n l'
  end.
Definition newlines (l : list Z) : Z := Z.of_nat (length (filter (fun c => c = 10) l)).

Lemma newlines_cons c l : newlines (c :: l) = (if c =? 10 then 1 else 0) + newlines l.
Proof. unfold newlines. rewrite filter_cons. destruct (Z.eqb_spec c 10); case_decide; simpl; lia. Qed.

Lemma newlines_nonneg l : 0 <= newlines l.
Proof. unfold newlines. lia. Qed.

Lemma scan_lines_spec l i lines limit : lines < limit ->
  scan_lines l i lines limit =
    if limit - lines <=? newlines l then inl (i + Z.of_nat (length (first_lines (limit - lines) l))) else inr (lines + newlines l).
Proof.
  revert i lines. induction l as [|c l IH]; intros i lines Hl; cbn [scan_lines first_lines].
  { change (newlines []) with 0. destruct (Z.leb_spec (limit - lines) 0); [lia | by rewrite Z.add_0_r]. }
  rewrite newlines_cons. pose proof (newlines_nonneg l). destruct (Z.eqb_spec c 10).
  - destruct (Z.eqb_spec (lines + 1) limit), (Z.eqb_spec (limit - lines) 1); try lia.
    { destruct (Z.leb_spec (limit - lines) (1 + newlines l)); [done | lia]. }
    rewrite IH by lia. replace (limit - (lines + 1)) with (limit - lines - 1) by lia.
    destruct (Z.leb_spec (limit - lines - 1) (newlines l)), (Z.leb_spec (limit - lines) (1 + newlines l)); try lia; f_equal; cbn [length]; lia.
  - rewrite IH by done. rewrite Z.add_0_l. destruct (_ <=? _); f_equal; cbn [length]; lia.
Qed.

Lemma first_lines_take n l : take (length (first_lines n l)) l = first_lines n l.
Proof. revert n. induction l as [|c l IH]; intros n; cbn [first_lines]; [done|]. repeat case_match; simpl; by rewrite ?IH, ?take_0. Qed.

Lemma first_lines_app n a b : 1 <= n ->
  first_lines n (a ++ b) = if n <=? newlines a then first_lines n a else a ++ first_lines (n - newlines a) b.
Proof.
  revert n. induction a as [|c a IH]; intros n Hn; cbn [app first_lines].
  { change (newlines []) with 0. rewrite Z.sub_0_r. destruct (Z.leb_spec n 0); [lia | done]. }
  rewrite newlines_cons. pose proof (newlines_nonneg a). destruct (Z.eqb_spec c 10).
  - destruct (Z.eqb_spec n 1); [destruct (Z.leb_spec n (1 + newlines a)); [done | lia]|].
    rewrite IH by lia. replace (n - (1 + newlines a)) with (n - 1 - newlines a) by lia.
    destruct (Z.leb_spec (n - 1) (newlines a)), (Z.leb_spec n (1 + newlines a)); try lia; done.
  - rewrite IH by lia. rewrite Z.add_0_l. by destruct (_ <=? _).
Qed.

Lemma newlines_app a b : newlines (a ++ b) = newlines a + newlines b.
Proof. unfold newlines. rewrite filter_app, length_app. lia. Qed.

Section Print.
Context `{Host} (fs : Ext2Fs) (inode : Ext2Inode).

(** byte [i] of the file: that of its block in the image, 0 in a hole *)
Definition file_byte (i : Z) : Z :=
  match ext2_data_block fs inode (i / block_size fs) with
  | Some p => if p =? 0 then 0 else image fs !!! Z.to_nat (p * block_size fs + i mod block_size fs)
  | None => 0
  end.

(** how many of the [k] blocks from block [b] on are found before one that
    is not *)
Fixpoint found_blocks (k : nat) (b : Z) : Z :=
  match k with
  | O => 0
  | S k' => match ext2_data_block fs inode b with Some _ => 1 + found_blocks k' (b + 1) | None => 0 end
  end.

Lemma found_range k b : 0 <= found_blocks k b <= Z.of_nat k.
Proof. revert b. induction k as [|k IH]; intros b; cbn [found_blocks]; [lia|]. specialize (IH (b + 1)). destruct (ext2_data_block fs inode b); lia. Qed.

Hypothesis Hok : fs_ok fs.
Hypothesis Hblocks : Forall (fun b => 0 <= b) (blocks inode).
Hypothesis Hlen : length (blocks inode) = 15%nat.

Lemma block_buffer b p amount :
  0 <= b -> 0 <= amount <= block_size fs -> ext2_data_block fs inode b = Some p ->
  (if p =? 0 then Some (replicate (Z.to_nat amount) 0) else image_read fs (p * block_size fs) amount)
    = Some (file_byte <$> seqZ (b * block_size fs) amount).
Proof using Hok Hblocks Hlen.
  intros Hb Ha Ep. pose proof (fs_ok_bsize fs Hok) as [Hbs _]. pose proof (ok_fits fs Hok) as Hfit.
  apply (data_block_range fs Hok) in Ep as Hp; [|done..].
  assert (forall i, (i < Z.to_nat amount)%nat -> file_byte (b * block_size fs + Z.of_nat i) =
    if p =? 0 then 0 else image fs !!! (Z.to_nat (p * block_size fs) + i)%nat) as Hbyte.
  { intros i Hi. unfold file_byte. rewrite Z.div_add_l, Z.div_small, Z.add_0_r, Ep by lia. destruct (p =? 0); [done|].
    rewrite (Z.add_comm (b * _)), Z_mod_plus_full, Z.mod_small by lia. f_equal. lia. }
  transitivity (Some (if p =? 0 then replicate (Z.to_nat amount) 0 else slice (image fs) (p * block_size fs) amount)).
  { destruct (p =? 0); [done|]. apply image_read_in; [nia | lia | apply Hok | nia]. }
  f_equal. apply list_eq. intros i. destruct (decide (i < Z.to_nat amount)%nat) as [Hi|Hi].
  - rewrite list_lookup_fmap, lookup_seqZ_lt by lia. cbn [fmap option_fmap option_map]. rewrite Hbyte by done.
    destruct (p =? 0); [by rewrite lookup_replicate_2|]. unfold slice. rewrite lookup_take_lt, lookup_drop by done.
    apply list_lookup_lookup_total_lt. unfold image_size in Hfit. nia.
  - rewrite list_lookup_fmap, lookup_seqZ_ge by lia. apply lookup_ge_None. destruct (p =? 0); [rewrite length_replicate; lia|].
    unfold slice. rewrite length_take. lia.
Qed.
(** the bytes from block [b] up to the first block that is not found *)
Definition found_bytes (k : nat) (b : Z) : list Z :=
  file_byte <$> seqZ (b * block_size fs) (Z.min (ext2_inode_size inode) ((b + found_blocks k b) * block_size fs) - b * block_size fs).

Lemma found_bytes_S k b p :
  0 <= b < file_blocks fs inode -> ext2_data_block fs inode b = Some p ->
  found_bytes (S k) b =
    (file_byte <$> seqZ (b * block_size fs) (Z.min (block_size fs) (ext2_inode_size inode - b * block_size fs)))
    ++ found_bytes k (b + 1).
Proof using Hok Hblocks Hlen.
  intros Hb Ep. pose proof (fs_ok_bsize fs Hok) as [Hbs _]. pose proof (file_blocks_last fs inode b ltac:(lia) Hb).
  unfold found_bytes. cbn [found_blocks]. rewrite Ep. pose proof (found_range k (b + 1)). rewrite <- fmap_app. f_equal.
  destruct (Z_le_gt_dec (ext2_inode_size inode) ((b + 1) * block_size fs)) as [Hle|Hgt].
  - rewrite (seqZ_nil ((b + 1) * block_size fs)) by nia. rewrite app_nil_r. f_equal. nia.
  - replace (Z.min (block_size fs) _) with (block_size fs) by lia.
    replace ((b + 1) * block_size fs) with (b * block_size fs + block_size fs) by lia.
    replace (b + (1 + found_blocks k (b + 1))) with (b + 1 + found_blocks k (b + 1)) by lia.
    rewrite <- seqZ_app by nia. f_equal. lia.
Qed.

Lemma print_blocks_spec k limited limit b lines s :
  0 <= b -> b + Z.of_nat k = file_blocks fs inode -> lines < limit ->
  returns (print_blocks k fs inode limited limit (ext2_inode_size inode) b lines) s (fun ok s' =>
    s' = mkio (out s ++ if limited : bool then first_lines (limit - lines) (found_bytes k b) else found_bytes k b)
           (err s) (input s) (visited s) (directories s) (files s) /\
    ok = (found_blocks k b =? Z.of_nat k) || (limited && (limit - lines <=? newlines (found_bytes k b)))).
Proof using Hok Hblocks Hlen.
  revert b lines s. induction k as [|k IH]; intros b lines s Hb Hk Hl; cbn [print_blocks]; cbv zeta.
  { step. split; [|done]. unfold found_bytes. rewrite seqZ_nil by (cbn [found_blocks]; lia).
    destruct s, limited; by rewrite app_nil_r. }
  pose proof (fs_ok_bsize fs Hok) as [Hbs _]. pose proof (file_blocks_last fs inode b ltac:(lia) ltac:(lia)) as Hlast.
  pose proof (newlines_nonneg (found_bytes k (b + 1))). pose proof (found_range k (b + 1)).
  destruct (ext2_data_block fs inode b) as [p|] eqn:Ep.
  2:{ step. unfold found_bytes. cbn [found_blocks]. rewrite Ep, seqZ_nil by lia. cbn [fmap list_fmap first_lines].
      destruct s, limited; rewrite app_nil_r; (split; [done|]); try done. change (newlines []) with 0.
      destruct (Z.leb_spec (limit - lines) 0); [lia | done]. }
  rewrite (found_bytes_S k b p) by (done || lia). cbn [found_blocks]. rewrite Ep.
  replace (if block_size fs <? ext2_inode_size inode - b * block_size fs then block_size fs else _)
    with (Z.min (block_size fs) (ext2_inode_size inode - b * block_size fs))
    by (destruct (Z.ltb_spec (block_size fs) (ext2_inode_size inode - b * block_size fs)); lia).
  rewrite (block_buffer b p) by (done || lia). set (buf := _ <$> seqZ _ _). pose proof (newlines_nonneg buf).
  replace (1 + found_blocks k (b + 1) =? Z.of_nat (S k)) with (found_blocks k (b + 1) =? Z.of_nat k)
    by (destruct (Z.eqb_spec (found_blocks k (b + 1)) (Z.of_nat k)), (Z.eqb_spec (1 + found_blocks k (b + 1)) (Z.of_nat (S k))); lia).
  assert (forall lines', lines' < limit -> limited = false \/ lines' = lines + newlines buf ->
    returns (printf buf ;; print_blocks k fs inode limited limit (ext2_inode_size inode) (b + 1) lines') s (fun ok s' =>
      s' = mkio (out s ++ if limited : bool then buf ++ first_lines (limit - lines - newlines buf) (found_bytes k (b + 1)) else buf ++ found_bytes k (b + 1))
           (err s) (input s) (visited s) (directories s) (files s) /\
      ok = (found_blocks k (b + 1) =? Z.of_nat k) || (limited && (limit - lines <=? newlines (buf ++ found_bytes k (b + 1)))))) as Hnext.
  { intros lines' Hlt Hc. unfold printf. step. eapply returns_mono; [apply IH; lia|]. cbn [out err input visited directories files].
    intros ok s' [-> ->]. destruct limited; [|by rewrite <- app_assoc].
    destruct Hc as [?| ->]; [done|]. replace (limit - (lines + newlines buf)) with (limit - lines - newlines buf) by lia.
    rewrite <- app_assoc. split; [done|]. cbn [andb]. f_equal. rewrite newlines_app.
    match goal with |- (?a <=? ?x) = (?c <=? ?y) => destruct (Z.leb_spec a x), (Z.leb_spec c y); lia end. }
  destruct limited; [|apply Hnext; [done | by left]].
  rewrite scan_lines_spec, first_lines_app by lia. destruct (Z.leb_spec (limit - lines) (newlines buf)) as [Hge|Hlt].
  - unfold printf. repeat step. rewrite Z.add_0_l, Nat2Z.id, first_lines_take. split; [done|].
    rewrite newlines_app. cbn [andb]. destruct (Z.leb_spec (limit - lines) (newlines buf + newlines (found_bytes k (b + 1)))); [by rewrite orb_true_r | lia].
  - apply Hnext; [lia | by right].
Qed.
End Print.

(** [print] writes exactly the bytes of the file, holes as zeros, up to the
    first block that cannot be found; with a line limit, exactly the first
    lines of these, also when a line spans blocks.  It reports failure exactly
    when a block that it needed is missing. *)
Theorem print_inode_data_correct `{Host} fs n inode limited limit s :
  fs_ok fs -> 1 <= n -> ext2_read_inode fs n = Some inode -> 1 <= limit ->
  let k := Z.to_nat (file_blocks fs inode) in
  let found := found_blocks fs inode k 0 in
  let data := file_byte fs inode <$> seqZ 0 (Z.min (ext2_inode_size inode) (found * block_size fs)) in
  returns (print_inode_data fs inode limited limit) s (fun ok s' =>
    s' = mkio (out s ++ if limited : bool then first_lines limit data else data)
           (err s) (input s) (visited s) (directories s) (files s) /\
    ok = (found =? Z.of_nat k) || (limited && (limit <=? newlines data))).
Proof.
  intros Hok Hn En Hl k found data. pose proof (fs_ok_bsize fs Hok) as [Hbs _].
  destruct (inode_blocks_ok fs Hok n inode Hn En) as [Hf Hlen].
  pose proof (inode_size_nonneg fs n inode Hok ltac:(lia) En).
  assert (0 <= file_blocks fs inode) as Hfb.
  { unfold file_blocks. assert (0 <= ext2_inode_size inode / block_size fs) by (apply Z.div_pos; lia). destruct (_ =? 0); lia. }
  pose proof (print_blocks_spec fs inode Hok Hf Hlen k limited limit 0 0 s ltac:(done) ltac:(lia) ltac:(lia)) as Hp.
  unfold found_bytes in Hp. rewrite !Z.sub_0_r, !Z.add_0_l in Hp. exact Hp.
Qed.

(** ** The line count of [print -n] *)

Lemma dec_digits_value fuel n acc v any :
  (0 < fuel)%nat -> 0 <= n < 10 ^ Z.of_nat fuel ->
  exists k, digits_value (dec_digits fuel n acc) v any = digits_value acc (v * 10 ^ k + n) true.
Proof.
  revert n acc v any. induction fuel as [|fuel IH]; intros n acc v any Hf Hn; [lia|]. cbn [dec_digits].
  rewrite Nat2Z.inj_succ, Z.pow_succ_r in Hn by lia. destruct (Z.ltb_spec n 10).
  - exists 1. cbn [digits_value]. unfold isdigit. destruct (Z.leb_spec 48 (48 + n)), (Z.leb_spec (48 + n) 57); try lia.
    cbn [andb]. f_equal. lia.
  - assert (0 < fuel)%nat by (destruct fuel; [simpl in *; lia | lia]).
    destruct (IH (n / 10) ((48 + n mod 10) :: acc) v any) as (k & ->); [done | Z.div_mod_to_equations; lia |].
    pose proof (Z.mod_pos_bound n 10 ltac:(lia)). cbn [digits_value]. unfold isdigit.
    destruct (Z.leb_spec 48 (48 + n mod 10)), (Z.leb_spec (48 + n mod 10) 57); try lia. cbn [andb].
    destruct (Z_lt_le_dec k 0).
    + exists k. rewrite Z.pow_neg_r by done. f_equal. Z.div_mod_to_equations; lia.
    + exists (k + 1). rewrite Z.pow_add_r by lia. f_equal. Z.div_mod_to_equations; lia.
Qed.

Lemma dec_digits_head fuel n acc :
  (0 < fuel)%nat -> 0 <= n < 10 ^ Z.of_nat fuel -> exists c rest, dec_digits fuel n acc = c :: rest /\ 48 <= c <= 57.
Proof.
  revert n acc. induction fuel as [|fuel IH]; intros n acc Hf Hn; [lia|]. cbn [dec_digits].
  rewrite Nat2Z.inj_succ, Z.pow_succ_r in Hn by lia. destruct (Z.ltb_spec n 10); [do 2 eexists; split; [done | lia]|].
  apply IH; [destruct fuel; [simpl in *; lia | lia] | Z.div_mod_to_equations; lia].
Qed.

Lemma strtoumax_dec n pre :
  0 <= n < 2 ^ 64 -> (pre = [] \/ pre = [32; 45]) ->
  strtoumax (pre ++ dec n) = ((if pre is [] then n else u64 (- n)), false, []).
Proof.
  intros Hn Hp. unfold dec. destruct (dec_digits_value 20 n [] 0 false) as (k & Ev); [lia | lia |].
  destruct (dec_digits_head 20 n []) as (c & rest & Ec & Hc); [lia | lia |]. rewrite Ec in *. unfold strtoumax.
  destruct Hp as [-> | ->]; cbn [app].
  - cbn [skip_spaces]. unfold isspace. destruct (Z.eqb_spec c 32); [lia|].
    destruct (Z.leb_spec 9 c), (Z.leb_spec c 13); try lia. cbn [orb andb].
    destruct (Z.eqb_spec c 45); [lia|]. destruct (Z.eqb_spec c 43); [lia|]. rewrite Ev. cbn [digits_value negb].
    rewrite Z.mul_0_l, Z.add_0_l. unfold UINT64_MAX. destruct (Z.ltb_spec (2 ^ 64 - 1) n); [lia | done].
  - change (skip_spaces (32 :: 45 :: c :: rest)) with (45 :: c :: rest). cbn [Z.eqb Pos.eqb]. rewrite Ev. cbn [digits_value negb].
    rewrite Z.mul_0_l, Z.add_0_l. unfold UINT64_MAX. destruct (Z.ltb_spec (2 ^ 64 - 1) n); [lia | done].
Qed.

Lemma parse_unfold t : (forall x, hd 0 t = x -> x <> 45) -> t <> [] ->
  parse_positive_line_count t =
    let '(parsed, overflow, rest) := strtoumax t in
    if overflow || negb (match rest with [] => true | _ => false end) || (parsed =? 0) || (UINT64_MAX <? parsed) then None else Some parsed.
Proof. intros Hh Ht. destruct t as [|c t]; [done|]. simpl. destruct (Z.eqb_spec c 45); [by destruct (Hh c) | done]. Qed.

(** A line count written in decimal is read back, 0 is refused, and so is
    whatever starts with a minus sign; but after a blank the sign gets through
    to the conversion, and a negative count is taken as a huge one. *)
Theorem line_count_roundtrip n :
  0 <= n < 2 ^ 64 ->
  parse_positive_line_count (dec n) = (if n =? 0 then None else Some n) /\
  (forall l, parse_positive_line_count (45 :: l) = None) /\
  (0 < n -> parse_positive_line_count (str " -" ++ dec n) = Some (2 ^ 64 - n)).
Proof.
  intros Hn. split; [|split; [done|]].
  - destruct (dec_digits_head 20 n []) as (c & rest & Ec & Hc); [lia | lia |].
    rewrite parse_unfold by (unfold dec; rewrite Ec; (done || (intros x <-; simpl; lia))).
    pose proof (strtoumax_dec n [] Hn (or_introl eq_refl)) as E. cbn [app] in E. rewrite E. cbn [orb negb].
    unfold UINT64_MAX. destruct (Z.eqb_spec n 0), (Z.ltb_spec (2 ^ 64 - 1) n); done || lia.
  - intros H0. change (str " -") with [32; 45]. rewrite parse_unfold by (by intros x <- || done).
    rewrite (strtoumax_dec n [32; 45] Hn (or_intror eq_refl)). cbn [orb negb].
    assert (u64 (- n) = 2 ^ 64 - n) as -> by (unfold u64; symmetry; apply (Z.mod_unique_pos _ _ (-1)); lia).
    unfold UINT64_MAX. destruct (Z.eqb_spec (2 ^ 64 - n) 0), (Z.ltb_spec (2 ^ 64 - 1) (2 ^ 64 - n)); done || lia.
Qed.

Theorem line_count_roundtrip_witness :
  0 <= 5 < 2 ^ 64 /\ parse_positive_line_count (dec 5) = Some 5 /\
  parse_positive_line_count (str " -5") = Some 18446744073709551611.
Proof.
  assert (0 <= 5 < 2 ^ 64) as H5 by lia. destruct (line_count_roundtrip 5 H5) as (H1 & _ & H2).
  split; [exact H5|]. split; [exact H1 | exact (H2 ltac:(lia))].
Defined.

(** ** Termination *)

(** [keeps f m]: [m] returns from every state and leaves [f] of it as it was *)
Definition keeps {B A} (f : io -> B) (m : M io A) : Prop := forall s, returns m s (fun _ s' => f s' = f s).
Notation quiet := (keeps input).
Notation silent := (keeps (fun s => (out s, input s))).

Create HintDb quiet.

Section Keeps.
Context {X : Type} (f : io -> X).
Lemma keeps_ret {A} (a : A) : keeps f (mret a).
Proof. done. Qed.
Lemma keeps_bind {A B} (m : M io A) (g : A -> M io B) : keeps f m -> (forall a, keeps f (g a)) -> keeps f (m ≫= g).
Proof.
  intros Hm Hg s. apply returns_bind. eapply returns_mono; [apply Hm|]. intros a s' <-. apply Hg.
Qed.
Lemma keeps_get_bind {B} (g : io -> M io B) : (forall a, keeps f (g a)) -> keeps f (get ≫= g).
Proof. intros Hg s. step. apply Hg. Qed.
End Keeps.

Lemma quiet_printf b : quiet (printf b).
Proof. done. Qed.
Lemma silent_eprintf b : silent (eprintf b).
Proof. done. Qed.
Lemma quiet_set_count d f : quiet (set_count d f).
Proof. done. Qed.
Lemma quiet_set_visited v : quiet (set_visited v).
Proof. done. Qed.
#[export] Hint Resolve keeps_ret quiet_printf silent_eprintf quiet_set_count quiet_set_visited : quiet.

(** the structure of a definition, down to its leaves *)
Ltac quiet :=
  repeat first
    [ match goal with
      | |- keeps _ (get ≫= _) => apply keeps_get_bind; intros
      | |- keeps _ (_ ≫= _) => apply keeps_bind; intros
      | |- keeps _ (match ?x with _ => _ end) => destruct x
      | |- keeps _ (let _ := _ in _) => cbv zeta
      end
    | solve [auto with quiet nocore] ].

Section Quiet.
Context `{Host} (fs : Ext2Fs).

Lemma silent_load k img d g tables : silent (load_groups k img d g tables).
Proof. revert g tables. induction k as [|k IH]; intros g tables; cbn [load_groups]; quiet. Qed.

Lemma silent_open path file : silent (ext2_open path file).
Proof. pose proof silent_load. unfold ext2_open. quiet. Qed.

(** the loops over a directory end: every record that is accepted has a length *)
Lemma dir_records_ends fuel hide block valid o l :
  0 <= o -> (Z.to_nat (valid - o) < fuel)%nat -> dir_records fuel fs hide block valid o l <> None.
Proof.
  revert o l. induction fuel as [|fuel IH]; intros o l Ho Hf; [lia|]. cbn [dir_records]. cbv zeta.
  destruct (Z.ltb_spec o valid); [|done]. destruct (_ <? 8); [done|]. destruct (Z.ltb_spec (read_le16 block (o + 4)) 8); [done|]. cbn [orb].
  destruct (_ || _); [done|]. destruct (negb (_ =? 0)); [destruct (_ <? _); [done|]|]; apply IH; lia.
Qed.
Lemma dir_blocks_ends k hide inode n b l : dir_blocks k fs hide inode n b l <> None.
Proof.
  revert b l. induction k as [|k IH]; intros b l; cbn [dir_blocks]; [done|]. cbv zeta. destruct (ext2_data_block fs inode b) as [p|]; [|done].
  destruct (p =? 0); [apply IH|]. destruct (image_read fs _ _) as [block|]; [|done].
  set (valid := if block_size fs <? _ then _ else _). pose proof (dir_records_ends (S (Z.to_nat valid)) hide block valid 0 l) as Hr.
  destruct (dir_records _ _ _ _ _ _ _) as [[l'|]|]; [apply IH | done | apply Hr; lia].
Qed.
Lemma read_directory_ends n hide : ext2_read_directory fs n hide <> None.
Proof. unfold ext2_read_directory. destruct (ext2_read_inode fs n) as [i|]; [|done]. destruct (negb (is_dir i)); [done|]. apply dir_blocks_ends. Qed.
Lemma resolve_path_ends path : ext2_resolve_path fs path <> None.
Proof.
  unfold ext2_resolve_path. destruct (_ || _); [done|]. generalize EXT2_ROOT_INODE. induction (strtok_slash path []) as [|c cs IH]; intros n; cbn [resolve_loop]; [done|].
  destruct (streq c _); [apply IH|]. destruct (streq c _); [done|]. pose proof (read_directory_ends n false).
  destruct (ext2_read_directory fs n false) as [[l|]|]; [|done..]. destruct (find_entry l c); [apply IH | done].
Qed.

Lemma quiet_label name inode a b : quiet (print_entry_label name inode a b).
Proof. unfold print_entry_label. quiet. Qed.

Lemma quiet_entries descend prefix r a b depth l :
  (depth < MAX_TREE_DEPTH -> forall c p, quiet (descend c p)) ->
  quiet (print_entries fs descend prefix r a b depth l).
Proof.
  pose proof quiet_label. intros Hd. induction l as [|e l IH]; cbn [print_entries]; [quiet|].
  destruct (ext2_read_inode fs (e_inode e)) as [child|]; [|quiet]. cbv zeta.
  destruct (Z.ltb_spec depth MAX_TREE_DEPTH) as [Hlt|Hge]; [pose proof (Hd Hlt); quiet|].
  rewrite andb_false_r. cbn [andb]. quiet.
Qed.

Lemma quiet_children fuel n prefix r a b depth :
  MAX_TREE_DEPTH < depth + Z.of_nat fuel -> depth <= MAX_TREE_DEPTH ->
  quiet (print_tree_children fuel fs n prefix r a b depth).
Proof.
  revert n prefix depth. induction fuel as [|fuel IH]; intros n prefix depth Hf Hd; cbn [print_tree_children]; [lia|].
  pose proof (read_directory_ends n true). destruct (ext2_read_directory fs n true) as [[l|]|]; [|quiet|done]. apply quiet_entries. intros Hlt c p. apply IH; lia.
Qed.

Lemma quiet_tree tokens : quiet (command_tree fs tokens).
Proof.
  pose proof quiet_label. unfold command_tree, print_tree_usage.
  assert (forall n p r a b, quiet (print_tree_children tree_fuel fs n p r a b 0)).
  { intros. apply quiet_children; unfold tree_fuel, MAX_TREE_DEPTH, PATH_MAX; lia. }
  generalize dependent tree_fuel. intros. destruct tokens as [|t [|path rest]]; [quiet..|].
  pose proof (resolve_path_ends path). destruct (ext2_resolve_path fs path) as [[m|]|]; [quiet..|done].
Qed.

Lemma quiet_print_blocks k inode limited limit size b lines : quiet (print_blocks k fs inode limited limit size b lines).
Proof. revert b lines. induction k as [|k IH]; intros b lines; cbn [print_blocks]; cbv zeta; quiet. Qed.

Lemma quiet_print tokens : quiet (command_print fs tokens).
Proof.
  assert (forall p limited limit, quiet (print_path fs p limited limit)).
  { intros. unfold print_path, print_inode_data, print_file_usage. pose proof quiet_print_blocks. pose proof (resolve_path_ends p).
    destruct (ext2_resolve_path fs p) as [[n|]|]; [quiet | quiet | done]. }
  unfold command_print, print_file_usage. quiet.
Qed.

Lemma quiet_help tokens : quiet (command_help tokens).
Proof. unfold command_help, print_all_help, print_tree_help, print_print_help. quiet. Qed.

Lemma quiet_execute text : nonul text -> quiet (execute_command fs (text ++ [0])).
Proof.
  intros Ht. pose proof quiet_tree. pose proof quiet_print. pose proof quiet_help.
  unfold execute_command, print_all_help. pose proof (tokenize_ends text MAX_TOKENS Ht ltac:(done)). destruct (tokenize _ MAX_TOKENS); [quiet | quiet | quiet | done].
Qed.
End Quiet.

Lemma fgets_rest n l : let '(raw, rest, _) := fgets n l in l = raw ++ rest.
Proof.
  revert l. induction n as [|n IH]; intros [|c l]; cbn [fgets]; try done.
  destruct (c =? 10); [done|]. specialize (IH l). destruct (fgets n l) as [[raw rest] e]. by rewrite IH.
Qed.

Lemma skip_line_length l : (length (skip_line l) <= length l)%nat.
Proof. induction l as [|c l IH]; simpl; [done|]. destruct (c =? 10); lia. Qed.

Lemma nonul_upto l : nonul l -> nonul (upto_newline l).
Proof. induction 1 as [|c l Hc _ IH]; simpl; [constructor|]. destruct (c =? 10); by constructor. Qed.

Lemma prompt_loop_returns `{Host} fuel fs s :
  (length (input s) < fuel)%nat -> returns (prompt_loop fuel fs) s (fun _ _ => True).
Proof.
  revert s. induction fuel as [|fuel IH]; intros s Hf; [lia|]. cbn [prompt_loop]. unfold printf. do 2 step.
  pose proof (fgets_rest (Z.to_nat (COMMAND_MAX + 1)) (input s)) as Hr. cbn [input].
  destruct (fgets _ (input s)) as [[raw rest] eof]. apply (f_equal length) in Hr. rewrite length_app in Hr.
  unfold set_input. step. cbn [out err input visited directories files].
  destruct raw as [|c raw]; [by step|]. cbn [length] in Hr. cbv zeta. destruct (_ && _ && _).
  - step. unfold print_all_help, printf. step. apply IH. cbn [input]. pose proof (skip_line_length rest). lia.
  - apply returns_bind. eapply returns_mono; [apply quiet_execute, nonul_upto, cstr_nonul|]. cbn [input]. intros [] s' Hs'; [|by step].
    apply IH. rewrite Hs'. lia.
Qed.

(** C28: The program terminates on every image and every input, with exit
    status 0, or 1 when it cannot use the image.  Running out of fuel is a result
    of its own in every loop that has fuel, and never the result: the recursion of
    [tree] is cut off, every record of a directory block that is accepted moves
    the loop on, the tokenizer comes to the end of each line, and every round of
    the prompt consumes input. *)
Theorem ext2_main_terminates `{Host} argv file s :
  returns (ext2_main argv file) s (fun status s' => status = 0 \/ (status = 1 /\ out s' = out s /\ input s' = input s)).
Proof.
  assert (forall msg, returns (eprintf msg ;; mret 1) s (fun status s' => status = 0 \/ (status = 1 /\ out s' = out s /\ input s' = input s))) as Hu.
  { intros. unfold eprintf. repeat step. by right. }
  unfold ext2_main. destruct argv as [|a [|p [|? ?]]]; try apply Hu. apply returns_bind.
  eapply returns_mono; [apply silent_open|]. cbv beta. intros [fs|] s' [= Ho Hi]; [|step; by right].
  step. apply returns_bind. eapply returns_mono; [apply prompt_loop_returns; lia|]. intros _ s2 _. step. by left.
Qed.
