(* ===== verification/Ext2Image.v ===== *)
(** * A concrete ext2 image

    Eight blocks of 1024 bytes: a root directory with two files, on which the
    theorems about the reader are applied.  Reads transfer at most 100 bytes at
    a time. *)

From Stdlib Require Import Sorted.
From S2P Require Import Prelude CStr Ext2 Ext2Spec Ext2Cmd.

#[local] Instance small_reads : Host := { short := fun _ => 100; strerror := [] }.

Definition put_at (off : Z) (bytes img : list Z) : list Z := splice img off bytes.

Definition record (inode len : Z) (name : string) : list Z :=
  le_bytes 4 inode ++ le_bytes 2 len ++ [Z.of_nat (length (str name)); 0] ++ str name.

Definition demo_image : list Z :=
  put_at 1024 (le_bytes 4 8 ++ le_bytes 4 8) (                   (* inodes, blocks *)
  put_at 1044 (le_bytes 4 1 ++ le_bytes 4 0) (                   (* first data block, block-size exponent *)
  put_at 1056 (le_bytes 4 8192) (put_at 1064 (le_bytes 4 8) (       (* blocks and inodes per group *)
  put_at 1080 (le_bytes 2 EXT2_SUPER_MAGIC) (
  put_at 2056 (le_bytes 4 3) (                                   (* inode table *)
  put_at 3200 (le_bytes 2 0x41ED ++ [0; 0] ++ le_bytes 4 1024) (put_at 3240 (le_bytes 4 4) (
  put_at 3328 (le_bytes 2 0x81A4 ++ [0; 0] ++ le_bytes 4 6) (put_at 3368 (le_bytes 4 5) (
  put_at 4096 (record 2 12 "." ++ [0; 0; 0]) (put_at 4108 (record 2 12 ".." ++ [0; 0]) (
  put_at 4120 (record 3 12 "b" ++ [0; 0; 0]) (put_at 4132 (record 4 988 "a") (
  put_at 5120 [104; 105; 10; 121; 111; 10] (replicate 8192 0))))))))))))))).

Definition demo_fs : Ext2Fs := mkExt2Fs demo_image 8 8 1 1024 8192 8 128 1 [3].

Definition demo_io : io := mkio [] [] [] [] 0 0.

Lemma bytes_ok_put_at off b img : bytes_ok b -> bytes_ok img -> bytes_ok (put_at off b img).
Proof. intros Hb Hi. unfold put_at, splice. by repeat (apply Forall_app_2 || apply Forall_take || apply Forall_drop). Qed.

Lemma demo_bytes : bytes_ok demo_image.
Proof.
  unfold demo_image. repeat (apply bytes_ok_put_at; [unfold bytes_ok; repeat (apply Forall_app_2 || apply le_bytes_ok);
    repeat constructor; unfold byte_ok; vm_compute; done |]).
  apply Forall_replicate. done.
Qed.

#[local] Opaque demo_image.

Lemma demo_size : Z.of_nat (length demo_image) = 8192.
Proof. by vm_compute. Qed.

Lemma demo_open : ext2_open (str "img") (Some (true, demo_image)) demo_io = Ok (Some demo_fs, demo_io).
Proof. by vm_compute. Qed.

Lemma demo_ok : fs_ok demo_fs.
Proof.
  pose proof (ext2_open_ok (str "img") (Some (true, demo_image)) demo_io) as Hr. unfold returns in Hr. rewrite demo_open in Hr.
  apply Hr; [|done]. intros r b [= <- <-]. rewrite demo_size. split; [apply demo_bytes | done].
Qed.

Theorem image_read_correct_witness :
  image_size demo_fs <= INT64_MAX /\ image_read demo_fs 1024 1024 = Some (slice demo_image 1024 1024) /\
  image_read demo_fs 8000 193 = None.
Proof.
  assert (image_size demo_fs = 8192) as Hs by exact demo_size.
  assert (image_size demo_fs <= INT64_MAX) as Hm by (rewrite Hs; done).
  pose proof (image_read_correct demo_fs 1024 1024 ltac:(lia) ltac:(lia) Hm) as H1.
  pose proof (image_read_correct demo_fs 8000 193 ltac:(lia) ltac:(lia) Hm) as H2.
  rewrite Hs in H1, H2. split; [exact Hm|]. split; [exact H1 | exact H2].
Defined.

Theorem ext2_open_safe_witness :
  returns (ext2_open (str "img") (Some (true, demo_image))) demo_io (fun r _ => r = Some demo_fs) /\
  returns (ext2_open (str "img") (Some (true, demo_image))) demo_io (fun r _ => forall fs, r = Some fs ->
    forall n inode lb, ext2_read_inode fs n = Some inode -> 1 <= n -> 0 <= lb ->
      match ext2_data_block fs inode lb with Some b => 0 <= b < blocks_count fs | None => True end).
Proof.
  split; [unfold returns; by rewrite demo_open|].
  eapply returns_mono; [apply (ext2_open_safe (str "img") true demo_image demo_io demo_bytes); by rewrite demo_size|].
  cbv beta. intros r s0 Hr fs E n inode lb H1 H2 H3. destruct (Hr fs E) as (_ & _ & Hs). specialize (Hs n inode lb H1 H2 H3).
  destruct (ext2_data_block fs inode lb); [by destruct Hs | done].
Defined.

(** the root lists [a] before [b], [.] and [..] hidden *)
Theorem ext2_read_directory_correct_witness :
  ext2_read_directory demo_fs 2 true = Some (Some [mkEntry 4 0 (str "a"); mkEntry 3 0 (str "b")]) /\
  exists rs, listing demo_fs 2 rs /\
    sorts [mkEntry 4 0 (str "a"); mkEntry 3 0 (str "b")] (filter (fun e => shown true e = true) rs).
Proof.
  pose proof (ext2_read_directory_correct demo_fs 2 true demo_ok ltac:(lia)) as Hd.
  assert (ext2_read_directory demo_fs 2 true = Some (Some [mkEntry 4 0 (str "a"); mkEntry 3 0 (str "b")])) as E by by vm_compute.
  rewrite E in Hd. split; [exact E | exact Hd].
Defined.

(** the file [b] holds two lines; [print -n 1] writes the first *)
Theorem print_inode_data_correct_witness :
  exists inode, ext2_read_inode demo_fs 3 = Some inode /\
    returns (print_inode_data demo_fs inode true 1) demo_io (fun ok s' => ok = true /\ out s' = str "hi" ++ [10]).
Proof.
  destruct (ext2_read_inode demo_fs 3) as [inode|] eqn:E; [|exfalso; vm_compute in E; discriminate].
  exists inode. split; [done|].
  eapply returns_mono; [apply (print_inode_data_correct demo_fs 3 inode true 1 demo_io demo_ok ltac:(lia) E ltac:(lia))|].
  vm_compute in E. injection E as <-. intros ok s' [-> ->]. split; by vm_compute.
Defined.
