(* ===== verification/Proc.v ===== *)
(** * Processes: [proc.c]

    The process table, process creation, [exit], [wait], the scheduler, [sleep],
    [wakeup] and [kill] of the kernels (the file is the same in both).

    Each definition that the code runs under [ptable.lock] is one atomic step; the
    parts of [fork] that run without the lock are definitions of their own, so
    that other processors can run between them.  What the other components do
    for a process (its kernel stack, its address space, its files) goes through
    the class [Env]. *)

From S2P Require Import Prelude CStr.

Definition NPROC : nat := 64.
Definition NOFILE : nat := 16.

Inductive procstate : Type := UNUSED | EMBRYO | SLEEPING | RUNNABLE | RUNNING | ZOMBIE.
#[export] Instance procstate_dec : EqDecision procstate.
Proof. solve_decision. Defined.

(** what [chan] points to: nothing, a process (only [wait] sleeps on one), or
    something else *)
Inductive channel : Type := NoChan | ProcChan (i : nat) | Chan (a : Z).
#[export] Instance channel_dec : EqDecision channel.
Proof. solve_decision. Defined.

Record trapframe : Type := mktf {
  tf_eax : Z; tf_cs : Z; tf_ds : Z; tf_es : Z; tf_ss : Z; tf_eflags : Z; tf_esp : Z; tf_eip : Z;
  tf_other : list Z
}.

(** where the saved context of a process returns to *)
Inductive context : Type := ToForkret | InSleep | InYield | InExit.

Record proc : Type := mkproc {
  sz : Z;
  pgdir : Z;
  kstack : Z;                (** 0 is the null pointer *)
  state : procstate;
  pid : Z;
  parent : option nat;       (** a slot of the table *)
  tf : trapframe;
  ctx : context;
  chan : channel;
  killed : bool;
  ofile : list Z;            (** 0 is the null pointer *)
  cwd : Z;
  name : list Z
}.

Definition set_space (z d : Z) (p : proc) : proc :=
  mkproc z d (kstack p) (state p) (pid p) (parent p) (tf p) (ctx p) (chan p) (killed p) (ofile p) (cwd p) (name p).
Definition set_pgdir (d : Z) (p : proc) : proc :=
  mkproc (sz p) d (kstack p) (state p) (pid p) (parent p) (tf p) (ctx p) (chan p) (killed p) (ofile p) (cwd p) (name p).
Definition set_kstack (k : Z) (p : proc) : proc :=
  mkproc (sz p) (pgdir p) k (state p) (pid p) (parent p) (tf p) (ctx p) (chan p) (killed p) (ofile p) (cwd p) (name p).
Definition set_state (st : procstate) (p : proc) : proc :=
  mkproc (sz p) (pgdir p) (kstack p) st (pid p) (parent p) (tf p) (ctx p) (chan p) (killed p) (ofile p) (cwd p) (name p).
Definition set_pid (n : Z) (p : proc) : proc :=
  mkproc (sz p) (pgdir p) (kstack p) (state p) n (parent p) (tf p) (ctx p) (chan p) (killed p) (ofile p) (cwd p) (name p).
Definition set_parent (q : option nat) (p : proc) : proc :=
  mkproc (sz p) (pgdir p) (kstack p) (state p) (pid p) q (tf p) (ctx p) (chan p) (killed p) (ofile p) (cwd p) (name p).
Definition set_tf (t : trapframe) (p : proc) : proc :=
  mkproc (sz p) (pgdir p) (kstack p) (state p) (pid p) (parent p) t (ctx p) (chan p) (killed p) (ofile p) (cwd p) (name p).
Definition set_ctx (x : context) (p : proc) : proc :=
  mkproc (sz p) (pgdir p) (kstack p) (state p) (pid p) (parent p) (tf p) x (chan p) (killed p) (ofile p) (cwd p) (name p).
Definition set_chan (c : channel) (p : proc) : proc :=
  mkproc (sz p) (pgdir p) (kstack p) (state p) (pid p) (parent p) (tf p) (ctx p) c (killed p) (ofile p) (cwd p) (name p).
Definition set_killed (b : bool) (p : proc) : proc :=
  mkproc (sz p) (pgdir p) (kstack p) (state p) (pid p) (parent p) (tf p) (ctx p) (chan p) b (ofile p) (cwd p) (name p).
Definition set_ofile (l : list Z) (p : proc) : proc :=
  mkproc (sz p) (pgdir p) (kstack p) (state p) (pid p) (parent p) (tf p) (ctx p) (chan p) (killed p) l (cwd p) (name p).
Definition set_cwd (d : Z) (p : proc) : proc :=
  mkproc (sz p) (pgdir p) (kstack p) (state p) (pid p) (parent p) (tf p) (ctx p) (chan p) (killed p) (ofile p) d (name p).
Definition set_name (n : list Z) (p : proc) : proc :=
  mkproc (sz p) (pgdir p) (kstack p) (state p) (pid p) (parent p) (tf p) (ctx p) (chan p) (killed p) (ofile p) (cwd p) n.

(** the slots as the kernel finds them at boot *)
Definition blank_tf : trapframe := mktf 0 0 0 0 0 0 0 0 [].
Definition blank_proc : proc :=
  mkproc 0 0 0 UNUSED 0 None blank_tf ToForkret NoChan false (replicate NOFILE 0) 0 [].

(** what the other components do for processes; [K] is their state *)
Class Env (K : Type) : Type := {
  kalloc : K -> Z * K;
  kfree : Z -> K -> K;
  setupkvm : K -> Z * K;
  inituvm : Z -> K -> K;
  copyuvm : Z -> Z -> K -> Z * K;
  freevm : Z -> K -> K;
  filedup : Z -> K -> K;
  fileclose : Z -> K -> K;
  idup : Z -> K -> K;
  iput_op : Z -> K -> K;        (** [begin_op], [iput], [end_op] *)
  namei_root : K -> Z * K;
}.

Section Table.
Context {K : Type} `{Env K}.

Record pstate : Type := mkps {
  procs : list proc;
  nextpid : Z;
  initproc : nat;
  cpus : list (option nat);     (** [c->proc] *)
  env : K
}.

Definition upd (i : nat) (f : proc -> proc) : M pstate unit := modify (fun s =>
  mkps (alter f i (procs s)) (nextpid s) (initproc s) (cpus s) (env s)).
Definition set_procs (l : list proc) : M pstate unit := modify (fun s =>
  mkps l (nextpid s) (initproc s) (cpus s) (env s)).
Definition set_nextpid (n : Z) : M pstate unit := modify (fun s =>
  mkps (procs s) n (initproc s) (cpus s) (env s)).
Definition set_initproc (i : nat) : M pstate unit := modify (fun s =>
  mkps (procs s) (nextpid s) i (cpus s) (env s)).
Definition set_cpu (c : nat) (o : option nat) : M pstate unit := modify (fun s =>
  mkps (procs s) (nextpid s) (initproc s) (<[c := o]> (cpus s)) (env s)).
Definition ask {A} (f : K -> A * K) : M pstate A := fun s =>
  Ok (fst (f (env s)), mkps (procs s) (nextpid s) (initproc s) (cpus s) (snd (f (env s)))).
Definition tell (f : K -> K) : M pstate unit := modify (fun s =>
  mkps (procs s) (nextpid s) (initproc s) (cpus s) (f (env s))).
Definition slot (i : nat) : M pstate proc := gets (fun s => nth i (procs s) blank_proc).

(** [myproc] on processor [c] *)
Definition myproc (c : nat) : M pstate (option nat) := gets (fun s => nth c (cpus s) None).

(** the first slot from [j] on that satisfies [f] *)
Fixpoint find_slot (f : proc -> bool) (l : list proc) (j : nat) : option nat :=
  match l with
  | [] => None
  | p :: l' => if f p then Some j else find_slot f l' (S j)
  end.

(** the part of [allocproc] under the lock *)
Definition alloc_slot : M pstate (option nat) :=
  s ← get;
  match find_slot (fun p => bool_decide (state p = UNUSED)) (procs s) 0 with
  | None => mret None
  | Some j =>
      upd j (set_state EMBRYO) ;;
      upd j (set_pid (nextpid s)) ;;
      set_nextpid (i32 (nextpid s + 1)) ;;
      mret (Some j)
  end.

(** the rest of [allocproc]: the kernel stack, with room for the trap frame, and
    the context that starts at [forkret] *)
Definition alloc_stack (j : nat) : M pstate (option nat) :=
  k ← ask kalloc;
  upd j (set_kstack k) ;;
  if k =? 0 then upd j (set_state UNUSED) ;; mret None
  else upd j (set_ctx ToForkret) ;; mret (Some j).

Definition allocproc : M pstate (option nat) :=
  r ← alloc_slot;
  match r with
  | None => mret None
  | Some j => alloc_stack j
  end.

Definition SEG_UCODE : Z := 3.
Definition SEG_UDATA : Z := 4.
Definition DPL_USER : Z := 3.
Definition FL_IF : Z := 512.
Definition USER_PAGE : Z := 4096.

(** [safestrcpy(s, t, n)]: at most [n - 1] bytes of the string, terminated *)
Definition safestrcpy (t : list Z) (n : nat) : list Z := take (n - 1) (cstr t).

Definition userinit : M pstate unit :=
  r ← allocproc;
  match r with
  | None => panic "null process"        (* the kernel dereferences the null pointer *)
  | Some j =>
      set_initproc j ;;
      d ← ask setupkvm;
      upd j (set_pgdir d) ;;
      if d =? 0 then panic "userinit: out of memory?"
      else
        tell (inituvm d) ;;
        upd j (set_space USER_PAGE d) ;;
        let cs := Z.lor (Z.shiftl SEG_UCODE 3) DPL_USER in
        let ds := Z.lor (Z.shiftl SEG_UDATA 3) DPL_USER in
        upd j (set_tf (mktf 0 cs ds ds ds FL_IF USER_PAGE 0 [])) ;;
        upd j (set_name (safestrcpy (str "initcode") 16)) ;;
        d ← ask namei_root;
        upd j (set_cwd d) ;;
        upd j (set_state RUNNABLE)
  end.

(** ** [fork] *)

(** the copy of the address space; the child's slot is given back when it
    fails *)
Definition fork_copy (i j : nat) : M pstate bool :=
  cur ← slot i;
  d ← ask (copyuvm (pgdir cur) (sz cur));
  upd j (set_pgdir d) ;;
  if d =? 0 then
    np ← slot j;
    tell (kfree (kstack np)) ;;
    upd j (set_kstack 0) ;;
    upd j (set_state UNUSED) ;;
    mret false
  else mret true.

(** [for(i = 0; i < NOFILE; i++)]: duplicate the open files *)
Fixpoint fork_files (fds : list Z) (n j : nat) : M pstate unit :=
  match fds with
  | [] => mret tt
  | f :: fds' =>
      (if f =? 0 then mret tt else tell (filedup f) ;; upd j (fun p => set_ofile (<[n := f]> (ofile p)) p)) ;;
      fork_files fds' (S n) j
  end.

(** the fields of the child; it returns 0 from its [fork] *)
Definition fork_fill (i j : nat) : M pstate unit :=
  cur ← slot i;
  np ← slot j;
  upd j (set_space (sz cur) (pgdir np)) ;;
  upd j (set_parent (Some i)) ;;
  let t := tf cur in
  upd j (set_tf (mktf 0 (tf_cs t) (tf_ds t) (tf_es t) (tf_ss t) (tf_eflags t) (tf_esp t) (tf_eip t) (tf_other t))) ;;
  fork_files (ofile cur) 0 j ;;
  tell (idup (cwd cur)) ;;
  upd j (set_cwd (cwd cur)) ;;
  upd j (set_name (safestrcpy (name cur) 16)).

Definition fork_publish (j : nat) : M pstate Z :=
  np ← slot j;
  upd j (set_state RUNNABLE) ;;
  mret (pid np).

Definition fork (c : nat) : M pstate Z :=
  cur ← myproc c;
  match cur with
  | None => panic "no process"
  | Some i =>
      np ← allocproc;
      match np with
      | None => mret (-1)
      | Some j =>
          ok ← fork_copy i j;
          if negb ok then mret (-1)
          else fork_fill i j ;; fork_publish j
      end
  end.

(** ** [sleep], [wakeup], [sched] *)

Definition wakeup1 (ch : channel) : M pstate unit :=
  s ← get;
  set_procs ((fun p => if bool_decide (state p = SLEEPING) && bool_decide (chan p = ch) then set_state RUNNABLE p else p) <$> procs s).
Definition wakeup (ch : channel) : M pstate unit := wakeup1 ch.

(** [sched]: the process leaves the processor with its state changed; the
    scheduler clears [c->proc] *)
Definition sched (c : nat) (x : context) : M pstate unit :=
  cur ← myproc c;
  match cur with
  | None => panic "no process"
  | Some i =>
      p ← slot i;
      if bool_decide (state p = RUNNING) then panic "sched running"
      else upd i (set_ctx x) ;; set_cpu c None
  end.

Definition yield (c : nat) : M pstate unit :=
  cur ← myproc c;
  match cur with
  | None => panic "no process"
  | Some i => upd i (set_state RUNNABLE) ;; sched c InYield
  end.

(** [sleep] up to the switch *)
Definition sleep (c : nat) (ch : channel) : M pstate unit :=
  cur ← myproc c;
  match cur with
  | None => panic "sleep"
  | Some i => upd i (set_chan ch) ;; upd i (set_state SLEEPING) ;; sched c InSleep
  end.

(** what a process does when it is switched to, before it releases the lock:
    [sleep] tidies up, [yield] and [forkret] do nothing to the table, and no process
    returns from [exit] *)
Definition resume (j : nat) : M pstate unit :=
  p ← slot j;
  match ctx p with
  | InSleep => upd j (set_chan NoChan)
  | InExit => panic "zombie exit"
  | ToForkret | InYield => mret tt
  end.

(** [scheduler] runs slot [j] *)
Definition sched_run (c j : nat) : M pstate unit :=
  set_cpu c (Some j) ;;
  upd j (set_state RUNNING) ;;
  resume j.

(** one pass of the loop of [scheduler] over the [k] slots from [j] on; [run]
    is what happens until the chosen process is back in the scheduler.  The
    slots chosen, in order. *)
Fixpoint scheduler_pass (run : nat -> nat -> M pstate unit) (c k j : nat) : M pstate (list nat) :=
  match k with
  | O => mret []
  | S k' =>
      p ← slot j;
      if negb (bool_decide (state p = RUNNABLE)) then scheduler_pass run c k' (S j)
      else
        sched_run c j ;;
        run c j ;;
        l ← scheduler_pass run c k' (S j);
        mret (j :: l)
  end.

(** ** [exit], [wait], [kill] *)

(** the loop of [exit] that closes the files *)
Fixpoint exit_files (fds : list Z) (n i : nat) : M pstate unit :=
  match fds with
  | [] => mret tt
  | f :: fds' =>
      (if f =? 0 then mret tt else tell (fileclose f) ;; upd i (fun p => set_ofile (<[n := 0]> (ofile p)) p)) ;;
      exit_files fds' (S n) i
  end.

(** the loop of [exit] that passes the children to init *)
Fixpoint reparent (l : list proc) (j i : nat) : M pstate unit :=
  match l with
  | [] => mret tt
  | _ :: l' =>
      p ← slot j;
      s ← get;
      (if bool_decide (parent p = Some i) then
         upd j (set_parent (Some (initproc s))) ;;
         if bool_decide (state p = ZOMBIE) then wakeup1 (ProcChan (initproc s)) else mret tt
       else mret tt) ;;
      reparent l' (S j) i
  end.

(** the part of [exit] before the lock *)
Definition exit_close (c : nat) : M pstate unit :=
  cur ← myproc c;
  match cur with
  | None => panic "no process"
  | Some i =>
      s ← get;
      if (i =? initproc s)%nat then panic "init exiting"
      else
        p ← slot i;
        exit_files (ofile p) 0 i ;;
        p ← slot i;
        tell (iput_op (cwd p)) ;;
        upd i (set_cwd 0)
  end.

(** the part under the lock *)
Definition exit_locked (c : nat) : M pstate unit :=
  cur ← myproc c;
  match cur with
  | None => panic "no process"
  | Some i =>
      p ← slot i;
      (match parent p with Some q => wakeup1 (ProcChan q) | None => wakeup1 NoChan end) ;;
      s ← get;
      reparent (procs s) 0 i ;;
      upd i (set_state ZOMBIE) ;;
      sched c InExit
  end.

Definition exit (c : nat) : M pstate unit := exit_close c ;; exit_locked c.

(** the scan of [wait]: a zombie child, or whether there are children *)
Fixpoint wait_scan (l : list proc) (j i : nat) (havekids : bool) : nat + bool :=
  match l with
  | [] => inr havekids
  | p :: l' =>
      if negb (bool_decide (parent p = Some i)) then wait_scan l' (S j) i havekids
      else if bool_decide (state p = ZOMBIE) then inl j
      else wait_scan l' (S j) i true
  end.

Inductive wait_res : Type :=
| Reaped (pid : Z)
| NoChildren          (** [wait] returns -1 *)
| Waiting.            (** asleep; the scan is repeated when it wakes up *)

(** one round of the loop of [wait] *)
Definition wait_round (c : nat) : M pstate wait_res :=
  cur ← myproc c;
  match cur with
  | None => panic "no process"
  | Some i =>
      s ← get;
      cp ← slot i;
      match wait_scan (procs s) 0 i false with
      | inl j =>
          p ← slot j;
          tell (kfree (kstack p)) ;;
          upd j (set_kstack 0) ;;
          tell (freevm (pgdir p)) ;;
          upd j (set_pid 0) ;;
          upd j (set_parent None) ;;
          upd j (fun p => set_name [] p) ;;
          upd j (set_killed false) ;;
          upd j (set_state UNUSED) ;;
          mret (Reaped (pid p))
      | inr havekids =>
          if negb havekids || killed cp then mret NoChildren
          else sleep c (ProcChan i) ;; mret Waiting
      end
  end.

Definition kill (n : Z) : M pstate Z :=
  s ← get;
  match find_slot (fun p => pid p =? n) (procs s) 0 with
  | None => mret (-1)
  | Some j =>
      p ← slot j;
      upd j (set_killed true) ;;
      (if bool_decide (state p = SLEEPING) then upd j (set_state RUNNABLE) else mret tt) ;;
      mret 0
  end.

End Table.
Arguments pstate K : clear implicits.
