(* ===== verification/ProcInv.v ===== *)
(** * The process table keeps its invariant

    A step relation in which any processor may run any step of a system call at
    any time, and what holds in every state it reaches: unique process ids, one
    processor for each running process, no orphans, no slot lost in a [fork], and
    no zombie whose parent sleeps in [wait]. *)

From S2P Require Import Prelude CStr Proc.

(** ** The part of a slot that the invariant is about *)

Record core : Type := mkcore { c_state : procstate; c_pid : Z; c_parent : option nat; c_chan : channel }.
Definition core_of (p : proc) : core := mkcore (state p) (pid p) (parent p) (chan p).

Definition alive (st : procstate) : Prop := st = SLEEPING \/ st = RUNNABLE \/ st = RUNNING.

(** a process in [fork] owns a slot: how far it is *)
Record claim : Type := mkclaim { child : nat; filled : bool }.

(** [f] the slots, [n] the next process id, [init] the slot of init, [cp] what
    runs on each processor, [fk] the processes that are in [fork] *)
Record pinv (f : nat -> core) (n : Z) (init : nat) (cp : nat -> option nat) (fk : nat -> option claim) : Prop := {
  inv_cpu c i : cp c = Some i -> c_state (f i) = RUNNING;
  inv_cpu_inj c c' i : cp c = Some i -> cp c' = Some i -> c = c';
  inv_running i : c_state (f i) = RUNNING -> exists c, cp c = Some i;
  inv_init : alive (c_state (f init));
  inv_init_parent : c_parent (f init) = None;
  inv_pid i : 0 <= c_pid (f i) < n;
  inv_pid_used i : c_state (f i) <> UNUSED -> c_pid (f i) <> 0;
  inv_pid_inj i j : c_pid (f i) = c_pid (f j) -> c_pid (f i) <> 0 -> i = j;
  inv_unused i : c_state (f i) = UNUSED -> c_parent (f i) = None;
  inv_embryo j : c_state (f j) = EMBRYO -> exists i x, fk i = Some x /\ child x = j;
  inv_fork i x : fk i = Some x -> c_state (f (child x)) = EMBRYO /\ alive (c_state (f i)) /\
    c_parent (f (child x)) = (if filled x then Some i else None);
  inv_fork_inj i j x y : fk i = Some x -> fk j = Some y -> child x = child y -> i = j;
  inv_parent i q : c_parent (f i) = Some q -> alive (c_state (f q)) /\ q <> i;
  inv_orphan i : i <> init -> alive (c_state (f i)) \/ c_state (f i) = ZOMBIE -> c_parent (f i) <> None;
  inv_wait i q : c_state (f i) = ZOMBIE -> c_parent (f i) = Some q ->
    ~ (c_state (f q) = SLEEPING /\ c_chan (f q) = ProcChan q)
}.

(** pointwise update *)
Definition fup {A} (f : nat -> A) (i : nat) (a : A) : nat -> A := fun j => if decide (j = i) then a else f j.

Lemma fup_same {A} (f : nat -> A) i a : fup f i a i = a.
Proof. unfold fup. by rewrite decide_True. Qed.
Lemma fup_ne {A} (f : nat -> A) i j a : j <> i -> fup f i a j = f j.
Proof. unfold fup. intros. by rewrite decide_False. Qed.

(** case analysis on the updated index *)
Ltac fup_case :=
  match goal with
  | |- context [fup ?f ?i ?a ?j] =>
      destruct (decide (j = i)); [subst; rewrite ?(fup_same f i a) in * | rewrite ?(fup_ne f i j a) in * by assumption]
  | H : context [fup ?f ?i ?a ?j] |- _ =>
      destruct (decide (j = i)); [subst; rewrite ?(fup_same f i a) in * | rewrite ?(fup_ne f i j a) in * by assumption]
  end; cbn [c_state c_pid c_parent c_chan child filled] in *; simplify_eq.
Ltac fup_cases := repeat fup_case.

Section Steps.
Context (f : nat -> core) (n : Z) (init : nat) (cp : nat -> option nat) (fk : nat -> option claim).
Hypothesis Hi : pinv f n init cp fk.

Notation st i := (c_state (f i)).

Lemma alive_not i x : alive (st i) -> st i = x -> x <> UNUSED /\ x <> EMBRYO /\ x <> ZOMBIE.
Proof. intros [E|[E|E]] <-; by rewrite E. Qed.

Lemma claimed_not i x j : fk i = Some x -> st j <> EMBRYO -> child x <> j.
Proof using Hi. intros Hx Hj <-. by apply (inv_fork _ _ _ _ _ Hi) in Hx as [Hx _]. Qed.

(** [alloc_slot] by process [i] *)
Lemma inv_alloc i j :
  fk i = None -> alive (st i) -> st j = UNUSED -> 0 < n ->
  pinv (fup f j (mkcore EMBRYO n (c_parent (f j)) (c_chan (f j)))) (n + 1) init cp (fup fk i (Some (mkclaim j false))).
Proof using Hi.
  intros Hfk Ha Hu Hn. pose proof (inv_unused _ _ _ _ _ Hi j Hu) as Hpar.
  assert (forall k, alive (st k) -> k <> j) as Hal by (intros k Hk ->; apply (alive_not _ _ Hk) in Hu; tauto).
  split.
  - intros c k Hc. pose proof (inv_cpu _ _ _ _ _ Hi c k Hc). fup_cases; congruence.
  - apply (inv_cpu_inj _ _ _ _ _ Hi).
  - intros k. fup_cases; try done; apply Hi.
  - pose proof (Hal _ (inv_init _ _ _ _ _ Hi)). fup_cases; try done; apply Hi.
  - pose proof (Hal _ (inv_init _ _ _ _ _ Hi)). fup_cases; try done; apply Hi.
  - intros k. pose proof (inv_pid _ _ _ _ _ Hi k). fup_cases; lia.
  - intros k. fup_cases; try lia; apply Hi.
  - intros k l. pose proof (inv_pid _ _ _ _ _ Hi k). pose proof (inv_pid _ _ _ _ _ Hi l). fup_cases; try lia; try done. apply (inv_pid_inj _ _ _ _ _ Hi).
  - intros k. fup_cases; try done; apply Hi.
  - intros k. fup_cases.
    + intros _. exists i, (mkclaim j false). by rewrite fup_same.
    + intros Hk. destruct (inv_embryo _ _ _ _ _ Hi k Hk) as (l & x & Hl & <-). exists l, x. rewrite fup_ne; [done | congruence].
  - intros k x Hk. destruct (decide (k = i)) as [->|Hne].
    + rewrite fup_same in Hk. injection Hk as <-. cbn [child filled]. by rewrite fup_same, fup_ne by auto.
    + rewrite fup_ne in Hk by done. destruct (inv_fork _ _ _ _ _ Hi k x Hk) as (H1 & H2 & H3).
      pose proof (Hal _ H2). rewrite !fup_ne by congruence. done.
  - intros k l x y. assert (forall x m, fk m = Some x -> child x <> j) as Hn2.
    { intros x' m Hm E. apply (inv_fork _ _ _ _ _ Hi) in Hm as [Hm _]. rewrite E in Hm. congruence. }
    destruct (decide (k = i)) as [->|?], (decide (l = i)) as [->|?]; rewrite ?fup_same, ?fup_ne by done; try done.
    + intros [= <-] Hl E. by destruct (Hn2 _ _ Hl).
    + intros Hk [= <-] E. by destruct (Hn2 _ _ Hk).
    + apply Hi.
  - intros k q Hk. assert (c_parent (f k) = Some q) as Hk' by (fup_cases; congruence).
    destruct (inv_parent _ _ _ _ _ Hi k q Hk') as [Hq ?]. rewrite fup_ne by auto. done.
  - intros k Hk. fup_cases; [unfold alive; intros [[?|[?|?]]|?]; done | by apply Hi].
  - intros k q Hk Hq. assert (k <> j) by (intros ->; by rewrite fup_same in Hk). rewrite fup_ne in Hk, Hq by done.
    destruct (inv_parent _ _ _ _ _ Hi k q Hq) as [Ha' _]. rewrite fup_ne by auto. by apply (inv_wait _ _ _ _ _ Hi k).
Qed.

(** an update that keeps each slot unused, embryonic, a zombie or alive, and its
    identity: [yield], [sleep], [wakeup], [kill], scheduling *)
Lemma inv_live f' cp' :
  (forall k, c_pid (f' k) = c_pid (f k) /\ c_parent (f' k) = c_parent (f k)) ->
  (forall k, c_state (f' k) = st k \/ alive (st k) /\ alive (c_state (f' k))) ->
  (forall c k, cp' c = Some k -> c_state (f' k) = RUNNING) ->
  (forall c c' k, cp' c = Some k -> cp' c' = Some k -> c = c') ->
  (forall k, c_state (f' k) = RUNNING -> exists c, cp' c = Some k) ->
  (forall k, c_state (f' k) = SLEEPING -> c_chan (f' k) = ProcChan k ->
    (st k = SLEEPING /\ c_chan (f k) = ProcChan k) \/ forall z, c_parent (f z) = Some k -> st z <> ZOMBIE) ->
  pinv f' n init cp' fk.
Proof using Hi.
  intros Hid Hst H1 H2 H3 Hw.
  assert (forall k, alive (st k) -> alive (c_state (f' k))) as Hal by (intros k Hk; by destruct (Hst k) as [->|[_ ?]]).
  assert (forall k x, c_state (f' k) = x -> x = UNUSED \/ x = EMBRYO \/ x = ZOMBIE -> st k = x) as Hdead.
  { intros k x E Hx. destruct (Hst k) as [E'|[_ [E'|[E'|E']]]]; [congruence|..]; rewrite E' in E; subst x; naive_solver. }
  assert (forall k x, st k = x -> x = UNUSED \/ x = EMBRYO \/ x = ZOMBIE -> c_state (f' k) = x) as Hdead2.
  { intros k x E Hx. destruct (Hst k) as [E'|[[E'|[E'|E']] _]]; [congruence|..]; rewrite E' in E; subst x; naive_solver. }
  split; try done.
  - apply Hal, Hi.
  - rewrite (proj2 (Hid _)). apply Hi.
  - intros k. rewrite (proj1 (Hid _)). apply Hi.
  - intros k Hk. rewrite (proj1 (Hid _)). apply (inv_pid_used _ _ _ _ _ Hi). intros E. apply Hk. by apply Hdead2; [|left].
  - intros k l. rewrite !(proj1 (Hid _)). apply Hi.
  - intros k Hk. rewrite (proj2 (Hid _)). apply (inv_unused _ _ _ _ _ Hi), Hdead; auto.
  - intros k Hk. apply (inv_embryo _ _ _ _ _ Hi), Hdead; auto.
  - intros k x Hk. destruct (inv_fork _ _ _ _ _ Hi k x Hk) as (E1 & E2 & E3). rewrite (proj2 (Hid _)). split; [|by auto].
    apply Hdead2; auto.
  - apply Hi.
  - intros k q. rewrite (proj2 (Hid _)). intros Hk. destruct (inv_parent _ _ _ _ _ Hi k q Hk). auto.
  - intros k Hk Hs. rewrite (proj2 (Hid _)). apply (inv_orphan _ _ _ _ _ Hi k Hk). destruct Hs as [Hs|Hs].
    + destruct (Hst k) as [E|[E _]]; [rewrite E in Hs|]; by left.
    + right. apply Hdead; auto.
  - intros k q Hz. rewrite (proj2 (Hid _)). intros Hq [Hs Hc]. apply Hdead in Hz; [|auto].
    destruct (Hw q Hs Hc) as [Ho|Hn]; [by apply (inv_wait _ _ _ _ _ Hi k q Hz Hq) | by apply (Hn k)].
Qed.

(** a slot that is not alive is given back: a failed [fork], or [wait] *)
Lemma inv_free j m fk' :
  ~ alive (st j) -> st j <> UNUSED -> (m = 0 \/ m = c_pid (f j)) ->
  (forall k x, fk' k = Some x -> fk k = Some x /\ child x <> j) ->
  (forall k x, fk k = Some x -> child x <> j -> fk' k = Some x) ->
  pinv (fup f j (mkcore UNUSED m None (c_chan (f j)))) n init cp fk'.
Proof using Hi.
  intros Ha Hu Hm Hf1 Hf2.
  assert (forall k, alive (st k) -> k <> j) as Hal by (intros k Hk ->; done).
  assert (0 <= m < n) by (pose proof (inv_pid _ _ _ _ _ Hi j); lia).
  split.
  - intros c k Hc. pose proof (inv_cpu _ _ _ _ _ Hi c k Hc) as Hr. rewrite fup_ne; [done|]. apply Hal. by right; right.
  - apply Hi.
  - intros k. fup_cases; try done; apply Hi.
  - rewrite fup_ne by apply Hal, Hi. apply Hi.
  - rewrite fup_ne by apply Hal, Hi. apply Hi.
  - intros k. fup_cases; try done; apply Hi.
  - intros k. fup_cases; try done; apply Hi.
  - intros k l. fup_cases; try done; destruct Hm as [->| ->]; try done; intros; by apply (inv_pid_inj _ _ _ _ _ Hi).
  - intros k. fup_cases; try done; apply Hi.
  - intros k. fup_cases; [done|]. intros Hk. destruct (inv_embryo _ _ _ _ _ Hi k Hk) as (l & x & Hl & <-). exists l, x.
    split; [by apply Hf2 | done].
  - intros k x Hk. destruct (Hf1 k x Hk) as [Hk' Hc]. destruct (inv_fork _ _ _ _ _ Hi k x Hk') as (H1 & H2 & H3).
    by rewrite !fup_ne by (done || by apply Hal).
  - intros k l x y Hk Hl. apply (inv_fork_inj _ _ _ _ _ Hi); [apply (Hf1 k x Hk) | apply (Hf1 l y Hl)].
  - intros k q. destruct (decide (k = j)) as [->|]; [by rewrite fup_same|]. rewrite fup_ne by done. intros Hk.
    destruct (inv_parent _ _ _ _ _ Hi k q Hk) as [Hq ?]. rewrite fup_ne by auto. done.
  - intros k Hk. fup_cases; [unfold alive; intros [[?|[?|?]]|?]; done | by apply Hi].
  - intros k q. destruct (decide (k = j)) as [->|]; [by rewrite fup_same|]. rewrite fup_ne by done. intros Hz Hq.
    destruct (inv_parent _ _ _ _ _ Hi k q Hq) as [Ha' _]. rewrite fup_ne by auto. by apply (inv_wait _ _ _ _ _ Hi k).
Qed.

(** [fork] sets the parent of the child, then makes it runnable *)
Lemma inv_fill i j b :
  fk i = Some (mkclaim j b) ->
  pinv (fup f j (mkcore EMBRYO (c_pid (f j)) (Some i) (c_chan (f j)))) n init cp (fup fk i (Some (mkclaim j true))).
Proof using Hi.
  intros Hfk. destruct (inv_fork _ _ _ _ _ Hi i _ Hfk) as (He & Ha & _). cbn [child] in He.
  assert (forall k, alive (st k) -> k <> j) as Hal by (intros k Hk ->; apply (alive_not _ _ Hk) in He; tauto).
  assert (i <> j) by auto.
  split.
  - intros c k Hc. pose proof (inv_cpu _ _ _ _ _ Hi c k Hc) as Hr. rewrite fup_ne; [done|]. apply Hal. by right; right.
  - apply Hi.
  - intros k. fup_cases; try done; apply Hi.
  - rewrite fup_ne by apply Hal, Hi. apply Hi.
  - rewrite fup_ne by apply Hal, Hi. apply Hi.
  - intros k. fup_cases; apply Hi.
  - intros k. fup_cases; intros; apply (inv_pid_used _ _ _ _ _ Hi); congruence.
  - intros k l. fup_cases; try done; apply Hi.
  - intros k. fup_cases; try done; apply Hi.
  - intros k. assert (st k = EMBRYO -> exists l x, fup fk i (Some (mkclaim j true)) l = Some x /\ child x = k) as Hk.
    { intros Hk. destruct (inv_embryo _ _ _ _ _ Hi k Hk) as (l & x & Hl & <-).
      destruct (decide (l = i)) as [->|?]; [exists i, (mkclaim j true); rewrite fup_same; rewrite Hfk in Hl; by injection Hl as <-|].
      exists l, x. by rewrite fup_ne. }
    destruct (decide (k = j)) as [->|]; [rewrite fup_same; by intros _; apply Hk | by rewrite fup_ne].
  - intros k x Hk. destruct (decide (k = i)) as [->|Hne].
    + rewrite fup_same in Hk. injection Hk as <-. cbn [child filled]. rewrite fup_same, fup_ne by done. done.
    + rewrite fup_ne in Hk by done. destruct (inv_fork _ _ _ _ _ Hi k x Hk) as (H1 & H2 & H3).
      assert (child x <> j) by (intros E; apply Hne; by apply (inv_fork_inj _ _ _ _ _ Hi k i x (mkclaim j b))).
      rewrite !fup_ne by auto. done.
  - assert (forall k x, fup fk i (Some (mkclaim j true)) k = Some x -> exists y, fk k = Some y /\ child y = child x) as Hc.
    { intros k x Hk. destruct (decide (k = i)) as [->|]; [rewrite fup_same in Hk; injection Hk as <-; by eexists|].
      rewrite fup_ne in Hk by done. by exists x. }
    intros k l x y Hk Hl E. destruct (Hc k x Hk) as (x' & Hx & Ex), (Hc l y Hl) as (y' & Hy & Ey).
    apply (inv_fork_inj _ _ _ _ _ Hi k l x' y'); congruence.
  - intros k q. destruct (decide (k = j)) as [->|]; [rewrite fup_same; intros [= <-]; by rewrite fup_ne|].
    rewrite (fup_ne f j k) by done. intros Hk. destruct (inv_parent _ _ _ _ _ Hi k q Hk) as [Hq ?]. rewrite fup_ne by auto. done.
  - intros k Hk. fup_cases; [done | by apply Hi].
  - intros k q. destruct (decide (k = j)) as [->|]; [by rewrite fup_same|]. rewrite (fup_ne f j k) by done. intros Hz Hq.
    destruct (inv_parent _ _ _ _ _ Hi k q Hq) as [Ha' _]. rewrite fup_ne by auto. by apply (inv_wait _ _ _ _ _ Hi k).
Qed.

Lemma inv_publish i j :
  fk i = Some (mkclaim j true) ->
  pinv (fup f j (mkcore RUNNABLE (c_pid (f j)) (c_parent (f j)) (c_chan (f j)))) n init cp (fup fk i None).
Proof using Hi.
  intros Hfk. destruct (inv_fork _ _ _ _ _ Hi i _ Hfk) as (He & Ha & Hp). cbn [child filled] in He, Hp.
  assert (forall k, alive (st k) -> k <> j) as Hal by (intros k Hk ->; apply (alive_not _ _ Hk) in He; tauto).
  assert (forall k x, fup fk i None k = Some x -> fk k = Some x /\ child x <> j) as Hf.
  { intros k x Hk. destruct (decide (k = i)) as [->|Hne]; [by rewrite fup_same in Hk|]. rewrite fup_ne in Hk by done.
    split; [done|]. intros E. apply Hne. by apply (inv_fork_inj _ _ _ _ _ Hi k i x (mkclaim j true)). }
  assert (forall k, alive (st k) -> alive (c_state (fup f j (mkcore RUNNABLE (c_pid (f j)) (c_parent (f j)) (c_chan (f j))) k))) as Hal2
    by (intros k Hk; by rewrite fup_ne by auto).
  split.
  - intros c k Hc. pose proof (inv_cpu _ _ _ _ _ Hi c k Hc) as Hr. rewrite fup_ne; [done|]. apply Hal. by right; right.
  - apply Hi.
  - intros k. fup_cases; try done; apply Hi.
  - apply Hal2, Hi.
  - rewrite fup_ne by apply Hal, Hi. apply Hi.
  - intros k. fup_cases; apply Hi.
  - intros k. fup_cases; intros; apply (inv_pid_used _ _ _ _ _ Hi); congruence.
  - intros k l. fup_cases; try done; apply Hi.
  - intros k. fup_cases; try done; apply Hi.
  - intros k. fup_cases; [done|]. intros Hk. destruct (inv_embryo _ _ _ _ _ Hi k Hk) as (l & x & Hl & <-). exists l, x.
    split; [|done]. rewrite fup_ne; [done|]. intros ->. rewrite Hfk in Hl. by injection Hl as <-.
  - intros k x Hk. destruct (Hf k x Hk) as [Hk' Hc]. destruct (inv_fork _ _ _ _ _ Hi k x Hk') as (H1 & H2 & H3).
    rewrite (fup_ne f j (child x)) by done. auto.
  - intros k l x y Hk Hl. apply (inv_fork_inj _ _ _ _ _ Hi); [apply (Hf k x Hk) | apply (Hf l y Hl)].
  - intros k q Hk. assert (c_parent (f k) = Some q) as Hk' by (fup_cases; congruence).
    destruct (inv_parent _ _ _ _ _ Hi k q Hk'). auto.
  - intros k Hk Hs. destruct (decide (k = j)) as [->|]; [rewrite fup_same; cbn; congruence|]. rewrite fup_ne in * by done. by apply Hi.
  - intros k q. destruct (decide (k = j)) as [->|]; [by rewrite fup_same|]. rewrite (fup_ne f j k) by done. intros Hz Hq.
    destruct (inv_parent _ _ _ _ _ Hi k q Hq) as [Ha' _]. destruct (decide (q = j)) as [->|]; [by rewrite fup_same; intros [? _]|].
    rewrite fup_ne by done. by apply (inv_wait _ _ _ _ _ Hi k).
Qed.

(** [exit]: the parent is woken, the children go to init, which is woken when
    one of them is a zombie, and the process becomes a zombie *)
Lemma inv_exit i f' cp' :
  i <> init -> alive (st i) -> fk i = None ->
  (forall k, c_pid (f' k) = c_pid (f k)) ->
  (forall k, c_parent (f' k) = if decide (c_parent (f k) = Some i) then Some init else c_parent (f k)) ->
  c_state (f' i) = ZOMBIE ->
  (forall k, k <> i -> c_state (f' k) = st k \/ st k = SLEEPING /\ c_state (f' k) = RUNNABLE) ->
  (forall k, k <> i -> c_chan (f' k) = c_chan (f k)) ->
  (forall q, c_parent (f i) = Some q -> ~ (c_state (f' q) = SLEEPING /\ c_chan (f' q) = ProcChan q)) ->
  (forall z, c_parent (f z) = Some i -> st z = ZOMBIE -> ~ (c_state (f' init) = SLEEPING /\ c_chan (f' init) = ProcChan init)) ->
  (forall c k, cp' c = Some k <-> cp c = Some k /\ k <> i) ->
  pinv f' n init cp' fk.
Proof using Hi.
  intros Hin Hai Hfi Hpid Hpar Hz Hst Hch Hw1 Hw2 Hcp.
  assert (forall k, k <> i -> alive (st k) -> alive (c_state (f' k))) as Hal.
  { intros k Hk Ha. destruct (Hst k Hk) as [-> | [_ ->]]; [done | by right; left]. }
  assert (forall k x, c_state (f' k) = x -> x = UNUSED \/ x = EMBRYO \/ x = RUNNING -> k <> i /\ st k = x) as Hback.
  { intros k x E Hx. assert (k <> i) as Hk by (intros ->; rewrite Hz in E; subst x; by destruct Hx as [?|[?|?]]).
    split; [done|]. destruct (Hst k Hk) as [E'|[_ E']]; rewrite E' in E; [done|]. subst x. by destruct Hx as [?|[?|?]]. }
  assert (i <> init /\ forall k, c_parent (f k) = Some i -> k <> init) as [_ Hni].
  { split; [done|]. intros k Hk ->. pose proof (inv_init_parent _ _ _ _ _ Hi). congruence. }
  split.
  - intros c k Hc. apply Hcp in Hc as [Hc Hk]. pose proof (inv_cpu _ _ _ _ _ Hi c k Hc). destruct (Hst k Hk) as [?|[? _]]; congruence.
  - intros c c' k Hc Hc'. apply Hcp in Hc as [Hc _]. apply Hcp in Hc' as [Hc' _]. by apply (inv_cpu_inj _ _ _ _ _ Hi c c' k).
  - intros k Hk. destruct (Hback k _ Hk) as [Hne Hs]; [auto|]. destruct (inv_running _ _ _ _ _ Hi k Hs) as [c Hc]. exists c. by apply Hcp.
  - apply Hal; [done | apply Hi].
  - rewrite Hpar, (inv_init_parent _ _ _ _ _ Hi). by rewrite decide_False.
  - intros k. rewrite Hpid. apply Hi.
  - intros k Hk. rewrite Hpid. apply (inv_pid_used _ _ _ _ _ Hi). intros E. apply Hk.
    assert (k <> i) as Hne by (intros ->; destruct Hai as [?|[?|?]]; congruence). destruct (Hst k Hne) as [?|[? _]]; congruence.
  - intros k l. rewrite !Hpid. apply Hi.
  - intros k Hk. destruct (Hback k _ Hk) as [Hne Hs]; [auto|]. rewrite Hpar, (inv_unused _ _ _ _ _ Hi k Hs). by rewrite decide_False.
  - intros k Hk. destruct (Hback k _ Hk) as [Hne Hs]; [auto|]. by apply (inv_embryo _ _ _ _ _ Hi).
  - intros k x Hk. destruct (inv_fork _ _ _ _ _ Hi k x Hk) as (H1 & H2 & H3).
    assert (k <> i) by congruence. assert (child x <> i) as Hci by (intros E; rewrite E in H1; by apply (alive_not _ _ Hai) in H1 as (_ & ? & _)).
    split; [destruct (Hst _ Hci) as [?|[? _]]; congruence|]. split; [by apply Hal|]. rewrite Hpar, H3. rewrite decide_False; [done|].
    destruct (filled x); congruence.
  - apply Hi.
  - intros k q. rewrite Hpar. case_decide as E.
    + intros [= <-]. split; [apply Hal; [done | apply Hi] | by apply not_eq_sym, Hni].
    + intros Hq. destruct (inv_parent _ _ _ _ _ Hi k q Hq). split; [apply Hal; [congruence|done] | done].
  - intros k Hk Hs. rewrite Hpar. case_decide; [done|]. apply (inv_orphan _ _ _ _ _ Hi k Hk).
    destruct (decide (k = i)) as [->|Hne]; [by left|]. destruct (Hst k Hne) as [E|[E _]]; [rewrite <- E; exact Hs|]. left. by left.
  - intros k q Hk. rewrite Hpar. case_decide as E.
    + intros [= <-]. assert (k <> i) as Hne by (intros ->; by destruct (inv_parent _ _ _ _ _ Hi i i E)).
      apply (Hw2 k E). destruct (Hst k Hne) as [<-|[_ ?]]; congruence.
    + intros Hq. destruct (decide (k = i)) as [->|Hne]; [by apply Hw1|]. intros [Hs Hc].
      destruct (inv_parent _ _ _ _ _ Hi k q Hq) as [_ _]. assert (q <> i) as Hqi by congruence. rewrite Hch in Hc by done.
      apply (inv_wait _ _ _ _ _ Hi k q); [destruct (Hst k Hne) as [<-|[_ ?]]; congruence | done|].
      split; [|done]. destruct (Hst q Hqi) as [<-|[_ ?]]; congruence.
Qed.
End Steps.

(** ** The table and its steps *)

Section Machine.
Context {K : Type} `{Env K}.
Implicit Types (s : pstate K) (fk : nat -> option claim).

Definition slot_of s (i : nat) : proc := nth i (procs s) blank_proc.
Definition view s (i : nat) : core := core_of (slot_of s i).
Definition on_cpu s (c : nat) : option nat := nth c (cpus s) None.

Definition table_ok s fk : Prop :=
  length (procs s) = NPROC /\ 1 <= nextpid s < 2 ^ 31 /\ pinv (view s) (nextpid s) (initproc s) (on_cpu s) fk.

Lemma pinv_ext f f' n init cp cp' fk fk' :
  (forall i, f' i = f i) -> (forall c, cp' c = cp c) -> (forall i, fk' i = fk i) -> pinv f n init cp fk -> pinv f' n init cp' fk'.
Proof.
  intros Ef Ec Ek [I1 I2 I3 I4 I5 I6 I7 I8 I9 I10 I11 I12 I13 I14 I15].
  split; intros *; rewrite ?Ef, ?Ec, ?Ek; eauto.
  - intros Hs. destruct (I3 _ Hs) as [c Hc]. exists c. by rewrite Ec.
  - intros Hs. destruct (I10 _ Hs) as (i & x & Hx & <-). exists i, x. by rewrite Ek.
Qed.

(** [steps_to]: one step of the machine.  A process runs its system calls on the
    processor that it occupies; [fork] is cut into its parts, and a process
    in [fork] may lose the processor to the clock.  The premise of [step_alloc]
    says that the process ids have not been used up. *)
Inductive steps_to : pstate K -> (nat -> option claim) -> pstate K -> (nat -> option claim) -> Prop :=
| step_alloc s fk c i r s' :
    on_cpu s c = Some i -> fk i = None -> nextpid s < 2 ^ 31 - 1 -> alloc_slot s = Ok (r, s') ->
    steps_to s fk s' (match r with Some j => fup fk i (Some (mkclaim j false)) | None => fk end)
| step_stack s fk c i j r s' :
    on_cpu s c = Some i -> fk i = Some (mkclaim j false) -> alloc_stack j s = Ok (r, s') ->
    steps_to s fk s' (match r with Some _ => fk | None => fup fk i None end)
| step_copy s fk c i j (ok : bool) s' :
    on_cpu s c = Some i -> fk i = Some (mkclaim j false) -> fork_copy i j s = Ok (ok, s') ->
    steps_to s fk s' (if ok then fk else fup fk i None)
| step_fill s fk c i j s' :
    on_cpu s c = Some i -> fk i = Some (mkclaim j false) -> fork_fill i j s = Ok (tt, s') ->
    steps_to s fk s' (fup fk i (Some (mkclaim j true)))
| step_publish s fk c i j n s' :
    on_cpu s c = Some i -> fk i = Some (mkclaim j true) -> fork_publish j s = Ok (n, s') ->
    steps_to s fk s' (fup fk i None)
| step_yield s fk c s' : yield c s = Ok (tt, s') -> steps_to s fk s' fk
| step_sleep s fk c i a s' :
    on_cpu s c = Some i -> fk i = None -> sleep c (Chan a) s = Ok (tt, s') -> steps_to s fk s' fk
| step_wakeup s fk a s' : wakeup (Chan a) s = Ok (tt, s') -> steps_to s fk s' fk
| step_close s fk c i s' :
    on_cpu s c = Some i -> fk i = None -> exit_close c s = Ok (tt, s') -> steps_to s fk s' fk
| step_exit s fk c i s' :
    on_cpu s c = Some i -> fk i = None -> i <> initproc s -> exit_locked c s = Ok (tt, s') -> steps_to s fk s' fk
| step_wait s fk c i r s' :
    on_cpu s c = Some i -> fk i = None -> wait_round c s = Ok (r, s') -> steps_to s fk s' fk
| step_kill s fk n r s' : 0 < n -> kill n s = Ok (r, s') -> steps_to s fk s' fk
| step_run s fk c j s' :
    (c < length (cpus s))%nat -> on_cpu s c = None -> state (slot_of s j) = RUNNABLE ->
    sched_run c j s = Ok (tt, s') -> steps_to s fk s' fk.

(** *** What each step does to the slots *)

Lemma nth_alter (g : proc -> proc) j l i :
  nth i (alter g j l) blank_proc = if decide (i = j /\ (j < length l)%nat) then g (nth j l blank_proc) else nth i l blank_proc.
Proof.
  rewrite !nth_lookup. destruct (decide (i = j)) as [->|Hne].
  - rewrite list_lookup_alter_eq. destruct (decide (j < length l)%nat) as [Hj|Hj].
    + rewrite decide_True by done. destruct (lookup_lt_is_Some_2 l j Hj) as [p Hp]. by rewrite Hp.
    + rewrite decide_False by tauto. by rewrite lookup_ge_None_2 by lia.
  - rewrite decide_False by tauto. by rewrite list_lookup_alter_ne.
Qed.

Lemma alter_alter (g h : proc -> proc) j (l : list proc) : alter g j (alter h j l) = alter (fun p => g (h p)) j l.
Proof.
  apply list_eq. intros i. destruct (decide (i = j)) as [->|].
  - rewrite !list_lookup_alter_eq. by destruct (l !! j).
  - by rewrite !list_lookup_alter_ne.
Qed.

Lemma alter_id (l : list proc) j : alter (fun p => p) j l = l.
Proof.
  apply list_eq. intros i. destruct (decide (i = j)) as [->|].
  - rewrite list_lookup_alter_eq. by destruct (l !! j).
  - by rewrite list_lookup_alter_ne.
Qed.

Lemma nth_core (l : list proc) i : (length l <= i)%nat -> nth i l blank_proc = blank_proc.
Proof. apply nth_overflow. Qed.

Lemma slot_lt s i : state (slot_of s i) <> UNUSED -> (i < length (procs s))%nat.
Proof. unfold slot_of. intros Hs. destruct (decide (i < length (procs s))%nat); [done|]. rewrite nth_overflow in Hs by lia. done. Qed.

Lemma find_slot_spec g l j0 :
  match find_slot g l j0 with
  | Some j => exists k, j = (j0 + k)%nat /\ (k < length l)%nat /\ g (nth k l blank_proc) = true /\ forall m, (m < k)%nat -> g (nth m l blank_proc) = false
  | None => forall k, (k < length l)%nat -> g (nth k l blank_proc) = false
  end.
Proof.
  revert j0. induction l as [|p l IH]; intros j0; cbn [find_slot]; [intros k Hk; simpl in Hk; lia|].
  destruct (g p) eqn:E.
  - exists O. split; [lia|]. split; [simpl; lia|]. split; [done|]. intros; lia.
  - specialize (IH (S j0)). destruct (find_slot g l (S j0)) as [j|].
    + destruct IH as (k & -> & H1 & H2 & H3). exists (S k). split; [lia|]. split; [simpl; lia|]. split; [done|].
      intros [|m] Hm; [done|]. apply H3. lia.
    + intros [|k] Hk; [done|]. apply IH. simpl in Hk. lia.
Qed.

Lemma alloc_slot_spec s :
  returns alloc_slot s (fun r s' =>
    match r with
    | Some j => (j < length (procs s))%nat /\ state (slot_of s j) = UNUSED /\
        (forall m, (m < j)%nat -> state (slot_of s m) <> UNUSED) /\
        s' = mkps (alter (fun p => set_pid (nextpid s) (set_state EMBRYO p)) j (procs s)) (i32 (nextpid s + 1)) (initproc s) (cpus s) (env s)
    | None => s' = s /\ forall m, (m < length (procs s))%nat -> state (slot_of s m) <> UNUSED
    end).
Proof.
  unfold alloc_slot. step. pose proof (find_slot_spec (fun p => bool_decide (state p = UNUSED)) (procs s) 0) as Hf.
  destruct (find_slot _ (procs s) 0) as [j|].
  - unfold upd, set_nextpid. repeat step. cbn [procs nextpid initproc cpus env]. destruct Hf as (k & -> & Hk & Hu & Hm). cbn [Nat.add].
    split; [done|]. split; [by apply bool_decide_eq_true in Hu|].
    split; [intros m Hm2; by specialize (Hm m Hm2); apply bool_decide_eq_false in Hm|]. by rewrite alter_alter.
  - step. split; [done|]. intros m Hm. specialize (Hf m Hm). by apply bool_decide_eq_false in Hf.
Qed.

(** the state with slot [j] changed by [g] and the environment by [h] *)
Definition with_slot (j : nat) (g : proc -> proc) (h : K -> K) s : pstate K :=
  mkps (alter g j (procs s)) (nextpid s) (initproc s) (cpus s) (h (env s)).

Lemma slot_with s j g h i : (j < length (procs s))%nat ->
  slot_of (with_slot j g h s) i = if decide (i = j) then g (slot_of s j) else slot_of s i.
Proof.
  intros Hj. unfold slot_of, with_slot. cbn [procs]. rewrite nth_alter.
  destruct (decide (i = j)); [rewrite decide_True by done | rewrite decide_False by tauto]; done.
Qed.

Lemma view_with s j g h : (j < length (procs s))%nat ->
  forall i, view (with_slot j g h s) i = fup (view s) j (core_of (g (slot_of s j))) i.
Proof. intros Hj i. unfold view, fup. rewrite slot_with by done. by case_decide. Qed.

Lemma table_ok_with s fk fk' j g h :
  (j < length (procs s))%nat -> table_ok s fk ->
  pinv (fup (view s) j (core_of (g (slot_of s j)))) (nextpid s) (initproc s) (on_cpu s) fk' ->
  table_ok (with_slot j g h s) fk'.
Proof.
  intros Hj (Hl & Hn & _) Hp. split; [by cbn [with_slot procs]; rewrite length_alter|]. split; [done|].
  eapply pinv_ext; [by apply view_with | done | done | exact Hp].
Qed.

(** a change that the invariant does not see *)
Lemma table_ok_neutral s fk j g h :
  (forall p, core_of (g p) = core_of p) -> table_ok s fk -> table_ok (with_slot j g h s) fk.
Proof.
  intros Hg (Hl & Hn & Hp). split; [by cbn [with_slot procs]; rewrite length_alter|]. split; [done|].
  eapply pinv_ext; [|done|done|exact Hp]. intros i. unfold view, slot_of, with_slot. cbn [procs]. rewrite nth_alter.
  destruct (decide _) as [[-> _]|]; [apply Hg | done].
Qed.

Lemma alloc_stack_spec j s :
  returns (alloc_stack j) s (fun r s' =>
    let k := fst (kalloc (env s)) in
    s' = with_slot j (fun p => if k =? 0 then set_state UNUSED (set_kstack k p) else set_ctx ToForkret (set_kstack k p))
           (fun e => snd (kalloc e)) s /\ r = if k =? 0 then None else Some j).
Proof.
  unfold alloc_stack, ask. apply returns_bind. unfold returns at 1. cbn [procs env]. unfold upd. step. cbn [procs nextpid initproc cpus env].
  unfold with_slot. destruct (fst (kalloc (env s)) =? 0); repeat step; cbn [procs nextpid initproc cpus env]; by rewrite alter_alter.
Qed.

Lemma fork_copy_spec i j s :
  (j < length (procs s))%nat -> i <> j ->
  returns (fork_copy i j) s (fun ok s' =>
    let r := copyuvm (pgdir (slot_of s i)) (sz (slot_of s i)) (env s) in
    ok = negb (fst r =? 0) /\
    s' = with_slot j (fun p => if fst r =? 0 then set_state UNUSED (set_kstack 0 (set_pgdir (fst r) p)) else set_pgdir (fst r) p)
           (fun e => if fst r =? 0 then kfree (kstack (slot_of s j)) (snd r) else snd r) s).
Proof.
  intros Hj Hij. unfold fork_copy, slot. step. fold (slot_of s i). unfold ask. apply returns_bind. unfold returns at 1.
  cbn [procs env]. unfold upd. step. cbn [procs nextpid initproc cpus env]. unfold with_slot.
  set (r := copyuvm (pgdir (slot_of s i)) (sz (slot_of s i)) (env s)).
  destruct (fst r =? 0).
  - step. cbn [procs]. rewrite nth_alter, decide_True by done. fold (slot_of s j). unfold tell. repeat step.
    cbn [procs nextpid initproc cpus env negb]. split; [done|]. by rewrite !alter_alter.
  - step. by cbn [procs nextpid initproc cpus env negb].
Qed.

(** the files of the child, and their reference counts *)
Fixpoint dup_fds (fds : list Z) (n : nat) (o : list Z) : list Z :=
  match fds with
  | [] => o
  | f :: fds' => dup_fds fds' (S n) (if f =? 0 then o else <[n := f]> o)
  end.
Definition dup_refs (fds : list Z) (e : K) : K := fold_left (fun e f => if f =? 0 then e else filedup f e) fds e.

Lemma with_slot_twice j g h g' h' s :
  with_slot j g' h' (with_slot j g h s) = with_slot j (fun p => g' (g p)) (fun e => h' (h e)) s.
Proof. unfold with_slot. cbn [procs nextpid initproc cpus env]. by rewrite alter_alter. Qed.

Lemma with_slot_id j s : with_slot j (fun p => p) (fun e => e) s = s.
Proof. unfold with_slot. rewrite alter_id. by destruct s. Qed.

Lemma with_slot_ext j g h g' h' s : (forall p, g p = g' p) -> (forall e, h e = h' e) -> with_slot j g h s = with_slot j g' h' s.
Proof.
  intros Hg Hh. unfold with_slot. rewrite Hh. f_equal. apply list_eq. intros i. destruct (decide (i = j)) as [->|].
  - rewrite !list_lookup_alter_eq. destruct (procs s !! j); [|done]. simpl. by rewrite Hg.
  - by rewrite !list_lookup_alter_ne.
Qed.

Lemma fork_files_spec fds n j s :
  returns (fork_files fds n j) s (fun _ s' => s' = with_slot j (fun p => set_ofile (dup_fds fds n (ofile p)) p) (dup_refs fds) s).
Proof.
  revert n s. induction fds as [|f fds IH]; intros n s; cbn [fork_files].
  - step. symmetry. rewrite <- (with_slot_id j s) at 2. by apply with_slot_ext; [intros []|].
  - destruct (f =? 0) eqn:E.
    + step. eapply returns_mono; [apply IH|]. cbv beta. intros _ s' ->. apply with_slot_ext; intros; cbn [dup_fds dup_refs fold_left]; by rewrite E.
    + apply returns_bind. unfold tell, upd. repeat step. cbn [procs nextpid initproc cpus env].
      eapply returns_mono; [apply IH|]. cbv beta. intros _ s' ->. change (mkps _ _ _ _ _) with (with_slot j (fun p => set_ofile (<[n:=f]> (ofile p)) p) (filedup f) s).
      rewrite with_slot_twice. apply with_slot_ext; intros; cbn [dup_fds dup_refs fold_left]; by rewrite E.
Qed.

Definition child_tf (t : trapframe) : trapframe :=
  mktf 0 (tf_cs t) (tf_ds t) (tf_es t) (tf_ss t) (tf_eflags t) (tf_esp t) (tf_eip t) (tf_other t).

(** the child of [cur], in slot [i], as [fork_fill] leaves it *)
Definition filled_child (cur : proc) (i : nat) (p : proc) : proc :=
  set_name (safestrcpy (name cur) 16) (set_cwd (cwd cur) (set_ofile (dup_fds (ofile cur) 0 (ofile p))
    (set_tf (child_tf (tf cur)) (set_parent (Some i) (set_space (sz cur) (pgdir p) p))))).

Lemma fork_fill_spec i j s :
  (j < length (procs s))%nat -> i <> j ->
  returns (fork_fill i j) s (fun _ s' =>
    s' = with_slot j (filled_child (slot_of s i) i) (fun e => idup (cwd (slot_of s i)) (dup_refs (ofile (slot_of s i)) e)) s).
Proof.
  intros Hj Hij. unfold fork_fill, slot. do 2 step. fold (slot_of s i) (slot_of s j). unfold upd at 1 2 3. do 3 step.
  cbn [procs nextpid initproc cpus env]. apply returns_bind. eapply returns_mono; [apply fork_files_spec|].
  cbv beta. intros _ s' ->. unfold with_slot. unfold tell, upd. repeat step. cbn [procs nextpid initproc cpus env].
  rewrite !alter_alter. f_equal. apply list_eq. intros k. destruct (decide (k = j)) as [->|]; [|by rewrite !list_lookup_alter_ne].
  rewrite !list_lookup_alter_eq. unfold slot_of. destruct (lookup_lt_is_Some_2 (procs s) j Hj) as [p Hp].
  rewrite Hp. cbn. f_equal. unfold filled_child, child_tf. rewrite (nth_lookup_Some _ _ _ _ Hp). done.
Qed.

Lemma fork_publish_spec j s :
  returns (fork_publish j) s (fun n s' => n = pid (slot_of s j) /\ s' = with_slot j (set_state RUNNABLE) (fun e => e) s).
Proof. unfold fork_publish, slot, upd. repeat step. done. Qed.

(** the process in slot [i] leaves processor [c] *)
Definition off_cpu (c i : nat) (g : proc -> proc) s : pstate K :=
  mkps (alter g i (procs s)) (nextpid s) (initproc s) (<[c := None]> (cpus s)) (env s).

Lemma sched_spec c x i s :
  on_cpu s c = Some i -> state (slot_of s i) <> RUNNING ->
  returns (sched c x) s (fun _ s' => s' = off_cpu c i (set_ctx x) s).
Proof.
  intros Hc Hr. unfold sched, myproc. step. unfold on_cpu in Hc. rewrite Hc. unfold slot. step. fold (slot_of s i).
  rewrite bool_decide_eq_false_2 by done. unfold upd, set_cpu. repeat step. done.
Qed.

(** [yield] and [sleep] *)
Lemma leave_spec c i x (g : proc -> proc) s :
  on_cpu s c = Some i -> (i < length (procs s))%nat -> state (g (slot_of s i)) <> RUNNING ->
  returns (sched c x) (with_slot i g (fun e => e) s) (fun _ s' => s' = off_cpu c i (fun p => set_ctx x (g p)) s).
Proof.
  intros Hc Hi Hr. eapply returns_mono; [apply sched_spec; [exact Hc|]|].
  - rewrite slot_with, decide_True by done. done.
  - cbv beta. intros _ s' ->. unfold off_cpu, with_slot. cbn [procs nextpid initproc cpus env]. by rewrite alter_alter.
Qed.

Lemma yield_spec c i s :
  on_cpu s c = Some i -> (i < length (procs s))%nat ->
  returns (yield c) s (fun _ s' => s' = off_cpu c i (fun p => set_ctx InYield (set_state RUNNABLE p)) s).
Proof.
  intros Hc Hi. unfold yield, myproc. step. pose proof Hc as Hc'. unfold on_cpu in Hc'. rewrite Hc'. unfold upd. step.
  by apply (leave_spec c i InYield (set_state RUNNABLE)).
Qed.

Lemma sleep_spec c i ch s :
  on_cpu s c = Some i -> (i < length (procs s))%nat ->
  returns (sleep c ch) s (fun _ s' => s' = off_cpu c i (fun p => set_ctx InSleep (set_state SLEEPING (set_chan ch p))) s).
Proof.
  intros Hc Hi. unfold sleep, myproc. step. pose proof Hc as Hc'. unfold on_cpu in Hc'. rewrite Hc'. unfold upd. do 2 step.
  cbn [procs nextpid initproc cpus env]. rewrite alter_alter.
  by apply (leave_spec c i InSleep (fun p => set_state SLEEPING (set_chan ch p))).
Qed.

(** what [wakeup1] does to a slot *)
Definition woken (ch : channel) (p : proc) : proc :=
  if bool_decide (state p = SLEEPING) && bool_decide (chan p = ch) then set_state RUNNABLE p else p.
Definition with_procs (g : list proc -> list proc) s : pstate K :=
  mkps (g (procs s)) (nextpid s) (initproc s) (cpus s) (env s).

Lemma wakeup1_spec ch s : returns (wakeup1 ch) s (fun _ s' => s' = with_procs (fmap (woken ch)) s).
Proof. unfold wakeup1, set_procs. repeat step. done. Qed.

(** the loop of [exit]: every child of [i] gets init for a parent, and init is
    woken when one of them is a zombie *)
Definition adopted (init i : nat) (p : proc) : proc :=
  if bool_decide (parent p = Some i) then set_parent (Some init) p else p.
Definition zombie_child (i : nat) (p : proc) : bool := bool_decide (parent p = Some i) && bool_decide (state p = ZOMBIE).

Lemma woken_adopted ch init i p : woken ch (adopted init i p) = adopted init i (woken ch p).
Proof. unfold woken, adopted. destruct p. simpl. repeat case_bool_decide; simpl in *; try done; tauto. Qed.

Lemma woken_twice ch p : woken ch (woken ch p) = woken ch p.
Proof. unfold woken. destruct p. simpl. repeat (case_bool_decide; simpl in *); try done; tauto. Qed.

Lemma zombie_woken ch i p : zombie_child i (woken ch p) = zombie_child i p.
Proof. unfold zombie_child, woken. destruct p. simpl. repeat (case_bool_decide; simpl in *); subst; try done; tauto. Qed.

Lemma with_procs_const g h s : g (procs s) = h -> with_procs g s = with_procs (fun _ => h) s.
Proof. unfold with_procs. by intros <-. Qed.

Lemma adopt_chunk init i (l l1 : list proc) :
  existsb (zombie_child i) (woken (ProcChan init) <$> l) = existsb (zombie_child i) l /\
  adopted init i <$> (woken (ProcChan init) <$> l) = woken (ProcChan init) <$> (adopted init i <$> l) /\
  woken (ProcChan init) <$> (woken (ProcChan init) <$> l1) = woken (ProcChan init) <$> l1.
Proof.
  split; [|split].
  - induction l as [|q l IH]; [done|]. rewrite fmap_cons. cbn [existsb]. by rewrite zombie_woken, IH.
  - rewrite <- !list_fmap_compose. apply list_fmap_ext. intros ? q _. simpl. by rewrite woken_adopted.
  - rewrite <- list_fmap_compose. apply list_fmap_ext. intros ? q _. simpl. by rewrite woken_twice.
Qed.

Lemma reparent_spec l0 l done_ i s :
  length l0 = length l -> procs s = done_ ++ l ->
  returns (reparent l0 (length done_) i) s (fun _ s' =>
    s' = with_procs (fun _ => (if existsb (zombie_child i) l then fmap (woken (ProcChan (initproc s))) else fun x => x)
                              (done_ ++ (adopted (initproc s) i <$> l))) s).
Proof.
  revert l done_ s. induction l0 as [|p0 l0 IH]; intros [|p l] done_ s Hlen Hp; try done; cbn [reparent existsb].
  { step. unfold with_procs. cbn [fmap list_fmap]. rewrite <- Hp. by destruct s. }
  injection Hlen as Hlen. unfold slot. step. rewrite Hp, nth_middle. step. set (init := initproc s). rewrite fmap_cons.
  assert (forall p' : proc, length (done_ ++ [p']) = S (length done_)) as Hld by (intros; rewrite length_app; simpl; lia).
  assert (alter (set_parent (Some init)) (length done_) (done_ ++ p :: l) = done_ ++ set_parent (Some init) p :: l) as Ha.
  { clear. induction done_ as [|d done_ IH]; [done|]. cbn [length app]. simpl. by f_equal. }
  unfold zombie_child at 1, adopted at 1. destruct (bool_decide (parent p = Some i)) eqn:Epar; cbn [andb orb].
  - unfold upd. apply returns_bind. step. cbn [procs nextpid initproc cpus env]. rewrite Hp, Ha.
    destruct (bool_decide (state p = ZOMBIE)); cbn [orb].
    + eapply returns_mono; [apply wakeup1_spec|]. cbv beta. intros _ s1 ->. unfold with_procs. cbn [procs nextpid initproc cpus env].
      set (w := woken (ProcChan init)). rewrite <- (Hld (w (set_parent (Some init) p))).
      replace (length (done_ ++ _)) with (length (w <$> done_ ++ [set_parent (Some init) p])) by (rewrite length_fmap, !length_app; done).
      eapply returns_mono; [apply (IH (w <$> l))|].
      * by rewrite length_fmap.
      * cbn [procs]. rewrite <- fmap_app, <- app_assoc. done.
      * cbn [procs nextpid initproc cpus env]. fold init. intros _ s' ->.
        destruct (adopt_chunk init i l (done_ ++ set_parent (Some init) p :: (adopted init i <$> l))) as (E1 & E2 & E3).
        unfold with_procs. cbn [procs nextpid initproc cpus env]. fold w in E1, E2, E3. fold w. rewrite E1, E2, <- fmap_app, <- app_assoc. cbn [app].
        destruct (existsb (zombie_child i) l); [by rewrite E3 | done].
    + step. cbn [procs nextpid initproc cpus env]. rewrite <- (Hld (set_parent (Some init) p)).
      eapply returns_mono; [apply (IH l); [done|]; cbn [procs]; by rewrite <- app_assoc|].
      cbn [procs nextpid initproc cpus env]. fold init. intros _ s' ->. unfold with_procs. cbn [procs nextpid initproc cpus env]. by rewrite <- app_assoc.
  - step. rewrite <- (Hld p). eapply returns_mono; [apply (IH l); [done|]; by rewrite <- app_assoc|].
    fold init. intros _ s' ->. unfold with_procs. by rewrite <- app_assoc.
Qed.

Fixpoint close_fds (fds : list Z) (n : nat) (o : list Z) : list Z :=
  match fds with
  | [] => o
  | f :: fds' => close_fds fds' (S n) (if f =? 0 then o else <[n := 0]> o)
  end.
Definition close_refs (fds : list Z) (e : K) : K := fold_left (fun e f => if f =? 0 then e else fileclose f e) fds e.

Lemma exit_files_spec fds n i s :
  returns (exit_files fds n i) s (fun _ s' => s' = with_slot i (fun p => set_ofile (close_fds fds n (ofile p)) p) (close_refs fds) s).
Proof.
  revert n s. induction fds as [|f fds IH]; intros n s; cbn [exit_files].
  - step. symmetry. rewrite <- (with_slot_id i s) at 2. by apply with_slot_ext; [intros []|].
  - destruct (f =? 0) eqn:E.
    + step. eapply returns_mono; [apply IH|]. cbv beta. intros _ s' ->. apply with_slot_ext; intros; cbn [close_fds close_refs fold_left]; by rewrite E.
    + apply returns_bind. unfold tell, upd. repeat step. cbn [procs nextpid initproc cpus env].
      eapply returns_mono; [apply IH|]. cbv beta. intros _ s' ->. change (mkps _ _ _ _ _) with (with_slot i (fun p => set_ofile (<[n:=0]> (ofile p)) p) (fileclose f) s).
      rewrite with_slot_twice. apply with_slot_ext; intros; cbn [close_fds close_refs fold_left]; by rewrite E.
Qed.

Lemma exit_close_spec c i s :
  on_cpu s c = Some i -> (i < length (procs s))%nat -> i <> initproc s ->
  returns (exit_close c) s (fun _ s' =>
    s' = with_slot i (fun p => set_cwd 0 (set_ofile (close_fds (ofile (slot_of s i)) 0 (ofile p)) p))
           (fun e => iput_op (cwd (slot_of s i)) (close_refs (ofile (slot_of s i)) e)) s).
Proof.
  intros Hc Hi Hin. unfold exit_close, myproc. step. unfold on_cpu in Hc. rewrite Hc. step.
  destruct (Nat.eqb_spec i (initproc s)); [done|]. unfold slot. step. fold (slot_of s i). apply returns_bind.
  eapply returns_mono; [apply exit_files_spec|]. cbv beta. intros _ s' ->. step. fold (slot_of (with_slot i (fun p => set_ofile (close_fds (ofile (slot_of s i)) 0 (ofile p)) p) (close_refs (ofile (slot_of s i))) s) i).
  rewrite slot_with, decide_True by done. unfold tell, upd. repeat step. cbn [procs nextpid initproc cpus env].
  unfold with_slot. cbn [procs nextpid initproc cpus env]. by rewrite alter_alter.
Qed.

(** the table after [exit] of slot [i] *)
Definition exit_procs (init i : nat) (l : list proc) : list proc :=
  let up := match parent (nth i l blank_proc) with Some q => ProcChan q | None => NoChan end in
  (if existsb (zombie_child i) l then fmap (woken (ProcChan init)) else fun x => x) (adopted init i <$> (woken up <$> l)).

Lemma length_exit_procs init i l : length (exit_procs init i l) = length l.
Proof. unfold exit_procs. destruct (existsb _ _); by rewrite !length_fmap. Qed.

Lemma existsb_woken ch i l : existsb (zombie_child i) (woken ch <$> l) = existsb (zombie_child i) l.
Proof. induction l as [|p l IH]; [done|]. rewrite fmap_cons. cbn [existsb]. by rewrite zombie_woken, IH. Qed.

Lemma exit_locked_spec c i s :
  on_cpu s c = Some i -> (i < length (procs s))%nat ->
  returns (exit_locked c) s (fun _ s' =>
    s' = off_cpu c i (fun p => set_ctx InExit (set_state ZOMBIE p)) (with_procs (exit_procs (initproc s) i) s)).
Proof.
  intros Hc Hi. unfold exit_locked, myproc. step. pose proof Hc as Hc'. unfold on_cpu in Hc'. rewrite Hc'. unfold slot. step.
  set (up := match parent (slot_of s i) with Some q => ProcChan q | None => NoChan end).
  assert (forall Q, returns (wakeup1 up) s Q -> returns (match parent (nth i (procs s) blank_proc) with Some q => wakeup1 (ProcChan q) | None => wakeup1 NoChan end) s Q) as Hup.
  { intros Q. unfold up, slot_of. by destruct (parent _). }
  apply returns_bind, Hup. eapply returns_mono; [apply wakeup1_spec|]. cbv beta. intros _ s1 ->. step. apply returns_bind.
  eapply returns_mono; [apply (reparent_spec _ (woken up <$> procs s) []); [done | done]|].
  cbv beta. intros _ s2 ->. cbn [app]. unfold with_procs at 1 2 3. cbn [procs nextpid initproc cpus env].
  rewrite existsb_woken. unfold upd. step. cbn [procs nextpid initproc cpus env].
  set (s1 := with_procs (exit_procs (initproc s) i) s).
  change (mkps _ _ _ _ _) with (with_slot i (set_state ZOMBIE) (fun e => e) s1).
  apply (leave_spec c i InExit (set_state ZOMBIE) s1); [done | | done].
  unfold s1, with_procs. cbn [procs]. by rewrite length_exit_procs.
Qed.

Lemma wait_scan_spec l j0 i b :
  match wait_scan l j0 i b with
  | inl j => exists k, j = (j0 + k)%nat /\ (k < length l)%nat /\ zombie_child i (nth k l blank_proc) = true /\
      forall m, (m < k)%nat -> zombie_child i (nth m l blank_proc) = false
  | inr b' => existsb (zombie_child i) l = false /\ b' = b || existsb (fun p => bool_decide (parent p = Some i)) l
  end.
Proof.
  revert j0 b. induction l as [|p l IH]; intros j0 b; cbn [wait_scan existsb]; [by rewrite orb_false_r|].
  assert (forall b', match wait_scan l (S j0) i b' with
    | inl j => exists k, j = (j0 + k)%nat /\ (k < length (p :: l))%nat /\ zombie_child i (nth k (p :: l) blank_proc) = true /\
        forall m, (m < k)%nat -> (m <> 0)%nat -> zombie_child i (nth m (p :: l) blank_proc) = false
    | inr b2 => existsb (zombie_child i) l = false /\ b2 = b' || existsb (fun p => bool_decide (parent p = Some i)) l end) as Hn.
  { intros b'. specialize (IH (S j0) b'). destruct (wait_scan l (S j0) i b'); [|done].
    destruct IH as (k & -> & H1 & H2 & H3). exists (S k). split; [lia|]. split; [simpl; lia|]. split; [done|].
    intros [|m] Hm ?; [done|]. apply H3. lia. }
  assert (zombie_child i p = bool_decide (parent p = Some i) && bool_decide (state p = ZOMBIE)) as Ez by done.
  destruct (bool_decide (parent p = Some i)) eqn:E1; cbn [negb andb orb] in *.
  - destruct (bool_decide (state p = ZOMBIE)) eqn:E2.
    + exists O. split; [lia|]. split; [simpl; lia|]. split; [done | intros; lia].
    + specialize (Hn true). destruct (wait_scan l (S j0) i true); [|rewrite Ez, orb_true_r; exact Hn].
      destruct Hn as (k & H1 & H2 & H3 & H4). exists k. do 3 (split; [done|]). intros [|m] Hm; [done | by apply H4].
  - specialize (Hn b). destruct (wait_scan l (S j0) i b); [|rewrite Ez; exact Hn].
    destruct Hn as (k & H1 & H2 & H3 & H4). exists k. do 3 (split; [done|]). intros [|m] Hm; [done | by apply H4].
Qed.

(** a reaped slot *)
Definition reaped (p : proc) : proc :=
  set_state UNUSED (set_killed false (set_name [] (set_parent None (set_pid 0 (set_kstack 0 p))))).

Lemma wait_round_spec c i s :
  on_cpu s c = Some i -> (i < length (procs s))%nat ->
  returns (wait_round c) s (fun r s' =>
    match r with
    | Reaped n => exists j, (j < length (procs s))%nat /\ zombie_child i (slot_of s j) = true /\
        (forall m, (m < j)%nat -> zombie_child i (slot_of s m) = false) /\ n = pid (slot_of s j) /\
        s' = with_slot j reaped (fun e => freevm (pgdir (slot_of s j)) (kfree (kstack (slot_of s j)) e)) s
    | NoChildren => s' = s /\ existsb (zombie_child i) (procs s) = false /\
        (existsb (fun p => bool_decide (parent p = Some i)) (procs s) = false \/ killed (slot_of s i) = true)
    | Waiting => s' = off_cpu c i (fun p => set_ctx InSleep (set_state SLEEPING (set_chan (ProcChan i) p))) s /\
        existsb (zombie_child i) (procs s) = false /\
        existsb (fun p => bool_decide (parent p = Some i)) (procs s) = true /\ killed (slot_of s i) = false
    end).
Proof.
  intros Hc Hi. unfold wait_round, myproc. step. pose proof Hc as Hc'. unfold on_cpu in Hc'. rewrite Hc'. unfold slot. do 2 step. fold (slot_of s i).
  pose proof (wait_scan_spec (procs s) 0 i false) as Hs. destruct (wait_scan (procs s) 0 i false) as [j|b].
  - destruct Hs as (k & -> & Hk & Hz & Hm). cbn [Nat.add]. step. fold (slot_of s k). unfold tell, upd. repeat (step; cbn [procs nextpid initproc cpus env]).
    cbn [procs nextpid initproc cpus env]. exists k. do 4 (split; [done|]). unfold with_slot. by rewrite !alter_alter.
  - destruct Hs as [Hz Hb]. cbn [orb] in Hb. subst b. destruct (existsb (fun p => _) (procs s)) eqn:E; cbn [negb orb].
    + destruct (killed (slot_of s i)) eqn:Ek; [step; auto|]. apply returns_bind.
      eapply returns_mono; [by apply sleep_spec|]. cbv beta. intros _ s' ->. by step.
    + step. auto.
Qed.

Lemma kill_spec n s :
  returns (kill n) s (fun r s' =>
    match find_slot (fun p => pid p =? n) (procs s) 0 with
    | Some j => r = 0 /\ (j < length (procs s))%nat /\ pid (slot_of s j) = n /\
        s' = with_slot j (fun p => if bool_decide (state p = SLEEPING) then set_state RUNNABLE (set_killed true p) else set_killed true p) (fun e => e) s
    | None => r = -1 /\ s' = s /\ forall i, (i < length (procs s))%nat -> pid (slot_of s i) <> n
    end).
Proof.
  unfold kill. step. pose proof (find_slot_spec (fun p => pid p =? n) (procs s) 0) as Hf.
  destruct (find_slot _ (procs s) 0) as [j|].
  - destruct Hf as (k & -> & Hk & E & _). cbn [Nat.add] in *. apply Z.eqb_eq in E. unfold slot. step. fold (slot_of s k).
    unfold upd. step. destruct (bool_decide (state (slot_of s k) = SLEEPING)) eqn:Es; repeat step; cbn [procs nextpid initproc cpus env];
      do 3 (split; [done|]); unfold with_slot; rewrite ?alter_alter; f_equal; apply list_eq; intros m;
      (destruct (decide (m = k)) as [->|]; [|by rewrite !list_lookup_alter_ne]);
      rewrite !list_lookup_alter_eq; unfold slot_of in Es; destruct (lookup_lt_is_Some_2 (procs s) k Hk) as [p Hp];
      rewrite (nth_lookup_Some _ _ _ _ Hp) in Es; rewrite Hp; simpl; by rewrite Es.
  - step. do 2 (split; [done|]). intros i Hi. specialize (Hf i Hi). by apply Z.eqb_neq in Hf.
Qed.

(** what the scheduler does to the slot that it runs *)
Definition resumed (p : proc) : proc :=
  let p := set_state RUNNING p in if ctx p is InSleep then set_chan NoChan p else p.

Lemma sched_run_safe c j s :
  (j < length (procs s))%nat ->
  safe (sched_run c j) s (fun _ s' => s' = mkps (alter resumed j (procs s)) (nextpid s) (initproc s) (<[c := Some j]> (cpus s)) (env s)).
Proof.
  intros Hj. unfold sched_run, set_cpu, upd, resume, slot. do 3 step. cbn [procs nextpid initproc cpus env].
  rewrite nth_alter, decide_True by done. fold (slot_of s j). destruct (ctx (set_state RUNNING (slot_of s j))) eqn:E; [|unfold upd|..]; repeat step;
    cbn [procs nextpid initproc cpus env]; rewrite ?alter_alter; f_equal; apply list_eq; intros m;
      (destruct (decide (m = j)) as [->|]; [|by rewrite !list_lookup_alter_ne]);
      rewrite !list_lookup_alter_eq; unfold slot_of in E; destruct (lookup_lt_is_Some_2 (procs s) j Hj) as [p Hp];
      rewrite (nth_lookup_Some _ _ _ _ Hp) in E; rewrite Hp; simpl; unfold resumed; by rewrite E.
Qed.

(** *** Every step keeps the invariant *)

Lemma nth_insert_cpu (l : list (option nat)) c c' o :
  nth c' (<[c := o]> l) None = if decide (c' = c /\ (c < length l)%nat) then o else nth c' l None.
Proof.
  rewrite !nth_lookup. destruct (decide (c' = c)) as [->|].
  - destruct (decide (c < length l)%nat).
    + rewrite decide_True by done. by rewrite list_lookup_insert_eq.
    + rewrite decide_False by tauto. by rewrite list_insert_ge by lia.
  - rewrite decide_False by tauto. by rewrite list_lookup_insert_ne.
Qed.

Lemma on_cpu_lt s c i : on_cpu s c = Some i -> (c < length (cpus s))%nat.
Proof. unfold on_cpu. intros Hc. destruct (decide (c < length (cpus s))%nat); [done|]. by rewrite nth_overflow in Hc by lia. Qed.

Lemma on_cpu_off s c i g k c' : on_cpu s c = Some k -> on_cpu (off_cpu c i g s) c' = fup (on_cpu s) c None c'.
Proof.
  intros Hc%on_cpu_lt. unfold on_cpu, off_cpu, fup. cbn [cpus]. rewrite nth_insert_cpu.
  destruct (decide (c' = c)); [by rewrite decide_True | by rewrite decide_False by tauto].
Qed.

Lemma slot_off s c i g k : (i < length (procs s))%nat ->
  slot_of (off_cpu c i g s) k = if decide (k = i) then g (slot_of s i) else slot_of s k.
Proof.
  intros Hi. unfold slot_of, off_cpu. cbn [procs]. rewrite nth_alter.
  destruct (decide (k = i)); [by rewrite decide_True | by rewrite decide_False by tauto].
Qed.

Lemma slot_fmap s (g : proc -> proc) k : g blank_proc = blank_proc -> slot_of (with_procs (fmap g) s) k = g (slot_of s k).
Proof. intros Hg. unfold slot_of, with_procs. cbn [procs]. rewrite <- Hg at 1. apply map_nth. Qed.

Lemma running_slot s fk c i : table_ok s fk -> on_cpu s c = Some i ->
  state (slot_of s i) = RUNNING /\ (i < length (procs s))%nat /\ alive (c_state (view s i)).
Proof.
  intros (_ & _ & Hp) Hc. pose proof (inv_cpu _ _ _ _ _ Hp c i Hc) as Hr. cbn in Hr.
  split; [done|]. split; [apply slot_lt; congruence|]. right; right. done.
Qed.

Lemma claimed_slot s fk i x : table_ok s fk -> fk i = Some x ->
  (child x < length (procs s))%nat /\ i <> child x /\ state (slot_of s (child x)) = EMBRYO /\ 
  parent (slot_of s (child x)) = if filled x then Some i else None.
Proof.
  intros (_ & _ & Hp) Hx. destruct (inv_fork _ _ _ _ _ Hp i x Hx) as (H1 & H2 & H3). cbn in H1, H3.
  split; [apply slot_lt; congruence|]. split; [|done]. intros E. rewrite <- E in H1. by apply (alive_not _ _ _ H2) in H1 as (_ & ? & _).
Qed.

Lemma free_claimed s fk i j b : table_ok s fk -> fk i = Some (mkclaim j b) ->
  (forall k x, fup fk i None k = Some x -> fk k = Some x /\ child x <> j) /\
  (forall k x, fk k = Some x -> child x <> j -> fup fk i None k = Some x).
Proof.
  intros (_ & _ & Hp) Hx. split; intros k x.
  - destruct (decide (k = i)) as [->|Hne]; [by rewrite fup_same|]. rewrite fup_ne by done. intros Hk. split; [done|].
    intros E. apply Hne. by apply (inv_fork_inj _ _ _ _ _ Hp k i x (mkclaim j b)).
  - intros Hk Hc. rewrite fup_ne; [done|]. intros ->. rewrite Hx in Hk. by injection Hk as <-.
Qed.

(** a process leaves its processor *)
Lemma table_off s fk c i g :
  table_ok s fk -> on_cpu s c = Some i -> 
  pid (g (slot_of s i)) = pid (slot_of s i) -> parent (g (slot_of s i)) = parent (slot_of s i) ->
  state (g (slot_of s i)) = RUNNABLE \/ state (g (slot_of s i)) = SLEEPING ->
  (state (g (slot_of s i)) = SLEEPING -> chan (g (slot_of s i)) = ProcChan i -> forall z, parent (slot_of s z) = Some i -> state (slot_of s z) <> ZOMBIE) ->
  table_ok (off_cpu c i g s) fk.
Proof.
  intros Ht Hc H1 H2 H3 H4. destruct (running_slot s fk c i Ht Hc) as (Hr & Hi & Ha). destruct Ht as (Hl & Hn & Hp).
  split; [by cbn [off_cpu procs]; rewrite length_alter|]. split; [done|]. cbn [off_cpu nextpid initproc].
  assert (forall k, view (off_cpu c i g s) k = fup (view s) i (core_of (g (slot_of s i))) k) as Hv.
  { intros k. unfold view, fup. rewrite slot_off by done. by case_decide. }
  apply (inv_live _ _ _ _ _ Hp).
  - intros k. rewrite Hv. unfold fup. case_decide; subst; done.
  - intros k. rewrite Hv. unfold fup. case_decide; subst; [right | by left]. split; [done|]. cbn. unfold alive. tauto.
  - intros c' k. rewrite (on_cpu_off _ _ _ _ i), Hv by done. unfold fup. case_decide; [done|]. intros Hk.
    rewrite decide_False; [by apply (inv_cpu _ _ _ _ _ Hp c')|]. intros ->. by destruct (inv_cpu_inj _ _ _ _ _ Hp c' c i Hk Hc).
  - intros c1 c2 k. rewrite !(on_cpu_off _ _ _ _ i) by done. unfold fup. repeat case_decide; try done. apply Hp.
  - intros k. rewrite Hv. unfold fup. case_decide; subst; [cbn; intros E; destruct H3; congruence|]. intros Hk.
    destruct (inv_running _ _ _ _ _ Hp k Hk) as [c' Hc']. exists c'. rewrite (on_cpu_off _ _ _ _ i) by done. rewrite fup_ne; [done|].
    intros ->. congruence.
  - intros k. rewrite Hv. unfold fup. case_decide; subst; [|by left]. cbn. intros E1 E2. right. intros z Hz. by apply H4.
Qed.

Lemma table_woken s fk a : table_ok s fk -> table_ok (with_procs (fmap (woken (Chan a))) s) fk.
Proof.
  intros (Hl & Hn & Hp). split; [by cbn [with_procs procs]; rewrite length_fmap|]. split; [done|].
  assert (forall k, slot_of (with_procs (fmap (woken (Chan a))) s) k = woken (Chan a) (slot_of s k)) as Hs by (intros; by apply slot_fmap).
  assert (forall k, state (woken (Chan a) (slot_of s k)) = state (slot_of s k) \/
     (state (slot_of s k) = SLEEPING /\ state (woken (Chan a) (slot_of s k)) = RUNNABLE)) as Hw.
  { intros k. unfold woken. destruct (bool_decide (state (slot_of s k) = SLEEPING)) eqn:E; [|by left].
    apply bool_decide_eq_true in E. destruct (bool_decide _); [by right | by left]. }
  assert (forall k, pid (woken (Chan a) (slot_of s k)) = pid (slot_of s k) /\ parent (woken (Chan a) (slot_of s k)) = parent (slot_of s k) /\
     chan (woken (Chan a) (slot_of s k)) = chan (slot_of s k)) as He by (intros; unfold woken; by case_match).
  apply (inv_live _ _ _ _ _ Hp); intros k; unfold view; rewrite ?Hs; cbn [core_of c_pid c_parent c_state c_chan].
  - split; apply He.
  - destruct (Hw k) as [->|[E ->]]; [by left | right]. split; [left; exact E | by right; left].
  - intros i Hc. rewrite Hs. pose proof (inv_cpu _ _ _ _ _ Hp k i Hc) as Hr. cbn in Hr. destruct (Hw i) as [->|[? _]]; congruence.
  - apply Hp.
  - intros E. apply Hp. cbn. destruct (Hw k) as [<-|[_ ?]]; congruence.
  - intros E1 E2. left. destruct (He k) as (_ & _ & E3). rewrite E3 in E2. split; [|done]. destruct (Hw k) as [<-|[_ ?]]; congruence.
Qed.

Lemma woken_cases ch p :
  pid (woken ch p) = pid p /\ parent (woken ch p) = parent p /\ chan (woken ch p) = chan p /\
  (state (woken ch p) = state p \/ state p = SLEEPING /\ state (woken ch p) = RUNNABLE) /\
  ~ (state (woken ch p) = SLEEPING /\ chan p = ch).
Proof.
  unfold woken. destruct (bool_decide (state p = SLEEPING)) eqn:E1; [|apply bool_decide_eq_false in E1; naive_solver].
  apply bool_decide_eq_true in E1. destruct (bool_decide (chan p = ch)) eqn:E2; cbn [andb set_state state pid parent chan];
    [|apply bool_decide_eq_false in E2]; naive_solver.
Qed.

(** slot [k] in the table that [exit] leaves, its own slot apart *)
Lemma slot_exit s i k :
  let up := match parent (slot_of s i) with Some q => ProcChan q | None => NoChan end in
  slot_of (with_procs (exit_procs (initproc s) i) s) k =
    (if existsb (zombie_child i) (procs s) then woken (ProcChan (initproc s)) else fun p => p)
      (adopted (initproc s) i (woken up (slot_of s k))).
Proof.
  cbv zeta. unfold slot_of, with_procs, exit_procs. cbn [procs]. set (up := match _ with Some _ => _ | None => _ end).
  rewrite <- list_fmap_compose.
  assert (forall (g : proc -> proc), g blank_proc = blank_proc -> nth k (g <$> procs s) blank_proc = g (nth k (procs s) blank_proc)) as Hn.
  { intros g Hg. rewrite <- Hg at 1. apply map_nth. }
  destruct (existsb _ _); rewrite <- ?list_fmap_compose, Hn; done.
Qed.

Lemma existsb_zombie s i k : zombie_child i (slot_of s k) = true -> existsb (zombie_child i) (procs s) = true.
Proof.
  intros Hz. apply existsb_exists. exists (slot_of s k). split; [|done]. unfold slot_of in *.
  destruct (decide (k < length (procs s))%nat) as [Hk|]; [by apply nth_In | by rewrite nth_overflow in Hz by lia].
Qed.

Lemma table_exit s fk c i :
  table_ok s fk -> on_cpu s c = Some i -> fk i = None -> i <> initproc s ->
  table_ok (off_cpu c i (fun p => set_ctx InExit (set_state ZOMBIE p)) (with_procs (exit_procs (initproc s) i) s)) fk.
Proof.
  intros Ht Hc Hf Hin. destruct (running_slot s fk c i Ht Hc) as (Hr & Hi & Ha). destruct Ht as (Hl & Hn & Hp).
  set (s1 := with_procs _ s). set (g := fun p => set_ctx InExit (set_state ZOMBIE p)).
  split; [cbn [off_cpu s1 with_procs procs]; by rewrite length_alter, length_exit_procs|]. split; [done|]. cbn [off_cpu nextpid initproc s1 with_procs].
  set (up := match parent (slot_of s i) with Some q => ProcChan q | None => NoChan end).
  set (wk := if existsb (zombie_child i) (procs s) then woken (ProcChan (initproc s)) else fun p => p).
  assert (forall k, slot_of (off_cpu c i g s1) k = if decide (k = i) then g (slot_of s1 i) else slot_of s1 k) as Hv.
  { intros k. apply slot_off. unfold s1. cbn [with_procs procs]. by rewrite length_exit_procs. }
  assert (forall k, slot_of s1 k = wk (adopted (initproc s) i (woken up (slot_of s k)))) as Hs1 by (intros; apply slot_exit).
  assert (forall k, pid (slot_of s1 k) = pid (slot_of s k) /\ chan (slot_of s1 k) = chan (slot_of s k) /\
    parent (slot_of s1 k) = (if decide (parent (slot_of s k) = Some i) then Some (initproc s) else parent (slot_of s k)) /\
    (state (slot_of s1 k) = state (slot_of s k) \/ state (slot_of s k) = SLEEPING /\ state (slot_of s1 k) = RUNNABLE) /\
    ~ (state (slot_of s1 k) = SLEEPING /\ chan (slot_of s k) = up) /\
    (existsb (zombie_child i) (procs s) = true -> ~ (state (slot_of s1 k) = SLEEPING /\ chan (slot_of s k) = ProcChan (initproc s)))) as Hk.
  { intros k. rewrite Hs1. destruct (woken_cases up (slot_of s k)) as (A1 & A2 & A3 & A4 & A5).
    set (p1 := woken up (slot_of s k)) in *.
    assert (pid (adopted (initproc s) i p1) = pid p1 /\ chan (adopted (initproc s) i p1) = chan p1 /\ state (adopted (initproc s) i p1) = state p1 /\
      parent (adopted (initproc s) i p1) = if decide (parent p1 = Some i) then Some (initproc s) else parent p1) as (B1 & B2 & B3 & B4).
    { unfold adopted. by case_bool_decide; case_decide. }
    set (p2 := adopted (initproc s) i p1) in *. destruct (woken_cases (ProcChan (initproc s)) p2) as (C1 & C2 & C3 & C4 & C5).
    unfold wk. destruct (existsb (zombie_child i) (procs s)).
    - rewrite C1, C2, C3, B1, B2, B4, A1, A2, A3. split_and!; try done.
      + rewrite B3 in C4. destruct C4 as [->|[E1 ->]]; [done|]. right. destruct A4 as [<-|[? _]]; done.
      + rewrite B3 in C4. intros [E1 E2]. destruct C4 as [E|[_ E]]; [|congruence]. apply A5. split; congruence.
      + intros _. rewrite <- A3, <- B2. done.
    - rewrite B1, B2, B3, B4, A1, A2, A3. by split_and!. }
  apply (inv_exit _ _ _ _ _ Hp i); try done.
  - intros k. unfold view. rewrite Hv. case_decide; subst; apply Hk.
  - intros k. unfold view. rewrite Hv. case_decide; subst; apply Hk.
  - unfold view. by rewrite Hv, decide_True.
  - intros k Hne. unfold view. rewrite Hv, decide_False by done. apply Hk.
  - intros k Hne. unfold view. rewrite Hv, decide_False by done. apply Hk.
  - intros q Hq. cbn in Hq. destruct (inv_parent _ _ _ _ _ Hp i q Hq) as [_ Hqi]. unfold view. rewrite Hv, decide_False by done.
    destruct (Hk q) as (_ & E & _ & _ & Hup & _). cbn [core_of c_state c_chan]. rewrite E. unfold up in Hup. by rewrite Hq in Hup.
  - intros z Hz Hzs. unfold view. rewrite Hv, decide_False by done.
    destruct (Hk (initproc s)) as (_ & E & _ & _ & _ & Hw). cbn [core_of c_state c_chan]. rewrite E. apply Hw. apply (existsb_zombie s i z).
    unfold zombie_child. cbn in Hz, Hzs. by rewrite !bool_decide_eq_true_2.
  - intros c' k. rewrite (on_cpu_off s1 c i g i) by done. unfold fup. case_decide as E; [subst|].
    + split; [done|]. intros [Hc' Hne]. change (on_cpu s1 c) with (on_cpu s c) in *. congruence.
    + split; [|by intros [? _]]. intros Hc'. split; [done|]. intros ->. by destruct (inv_cpu_inj _ _ _ _ _ Hp c' c i Hc' Hc).
Qed.

Lemma table_run s fk c j :
  table_ok s fk -> on_cpu s c = None -> (c < length (cpus s))%nat -> state (slot_of s j) = RUNNABLE ->
  table_ok (mkps (alter resumed j (procs s)) (nextpid s) (initproc s) (<[c := Some j]> (cpus s)) (env s)) fk.
Proof.
  intros (Hl & Hn & Hp) Hc Hlt Hr. assert (j < length (procs s))%nat as Hj by (apply slot_lt; congruence).
  set (s' := mkps _ _ _ _ _). split; [cbn [s' procs]; by rewrite length_alter|]. split; [done|]. cbn [s' nextpid initproc].
  assert (forall k, slot_of s' k = if decide (k = j) then resumed (slot_of s j) else slot_of s k) as Hv.
  { intros k. unfold slot_of, s'. cbn [procs]. rewrite nth_alter. destruct (decide (k = j)); [by rewrite decide_True | by rewrite decide_False by tauto]. }
  assert (forall c', on_cpu s' c' = fup (on_cpu s) c (Some j) c') as Hcp.
  { intros c'. unfold on_cpu, s', fup. cbn [cpus]. rewrite nth_insert_cpu.
    destruct (decide (c' = c)); [by rewrite decide_True | by rewrite decide_False by tauto]. }
  assert (forall c', on_cpu s c' <> Some j) as Hfree.
  { intros c' Hc'. pose proof (inv_cpu _ _ _ _ _ Hp c' j Hc') as E. cbn in E. congruence. }
  assert (pid (resumed (slot_of s j)) = pid (slot_of s j) /\ parent (resumed (slot_of s j)) = parent (slot_of s j) /\
    state (resumed (slot_of s j)) = RUNNING) as (R1 & R2 & R3) by (unfold resumed; by case_match).
  apply (inv_live _ _ _ _ _ Hp).
  - intros k. unfold view. rewrite Hv. case_decide; subst; done.
  - intros k. unfold view. rewrite Hv. case_decide; subst; [right | by left]. cbn. rewrite R3, Hr. unfold alive. tauto.
  - intros c' k. rewrite Hcp. unfold view, fup. rewrite Hv. case_decide as E; [intros [= <-]; by rewrite decide_True|].
    intros Hk. case_decide; [subst; by destruct (Hfree c')|]. by apply (inv_cpu _ _ _ _ _ Hp c').
  - intros c1 c2 k. rewrite !Hcp. unfold fup. repeat case_decide; subst; try done.
    + intros [= <-] Hk. by destruct (Hfree c2).
    + intros Hk [= <-]. by destruct (Hfree c1).
    + apply Hp.
  - intros k. unfold view. rewrite Hv. case_decide as E; subst.
    + intros _. exists c. by rewrite Hcp, fup_same.
    + intros Hk. destruct (inv_running _ _ _ _ _ Hp k Hk) as [c' Hc']. exists c'. rewrite Hcp, fup_ne; [done | congruence].
  - intros k. unfold view. rewrite Hv. case_decide; subst; [cbn; congruence | by left].
Qed.

Lemma table_reap s fk i j h :
  table_ok s fk -> (j < length (procs s))%nat -> zombie_child i (slot_of s j) = true -> table_ok (with_slot j reaped h s) fk.
Proof.
  intros Ht Hj Hz. pose proof Ht as (Hl & Hn & Hp). unfold zombie_child in Hz. apply andb_true_iff in Hz as [Hpar Hs].
  apply bool_decide_eq_true in Hpar, Hs. apply (table_ok_with s fk); [done | done|].
  assert (forall k x, fk k = Some x -> child x <> j) as Hc.
  { intros k x Hk E. apply (inv_fork _ _ _ _ _ Hp) in Hk as [Hk _]. rewrite E in Hk. cbn in Hk. congruence. }
  apply (inv_free _ _ _ _ _ Hp j 0); [| |by left| |].
  - cbn. rewrite Hs. unfold alive. naive_solver.
  - cbn. congruence.
  - intros k x Hk. split; [done | by apply (Hc k)].
  - by intros k x Hk _.
Qed.

Lemma table_kill s fk j :
  table_ok s fk -> (j < length (procs s))%nat ->
  table_ok (with_slot j (fun p => if bool_decide (state p = SLEEPING) then set_state RUNNABLE (set_killed true p) else set_killed true p) (fun e => e) s) fk.
Proof.
  intros Ht Hj. destruct (decide (state (slot_of s j) = SLEEPING)) as [Hs|Hs].
  - pose proof Ht as (Hl & Hn & Hp). apply (table_ok_with s fk); [done | done|].
    rewrite bool_decide_eq_true_2 by done. apply (inv_live _ _ _ _ _ Hp).
    + intros k. unfold fup. case_decide; subst; done.
    + intros k. unfold fup. case_decide; subst; [right | by left]. cbn. rewrite Hs. unfold alive. tauto.
    + intros c k Hc. pose proof (inv_cpu _ _ _ _ _ Hp c k Hc) as Hr. rewrite fup_ne; [done|]. intros ->. cbn in Hr. congruence.
    + apply Hp.
    + intros k. unfold fup. case_decide; [done | apply Hp].
    + intros k. unfold fup. case_decide; [done | by left].
  - assert (with_slot j (fun p => if bool_decide (state p = SLEEPING) then set_state RUNNABLE (set_killed true p) else set_killed true p) (fun e => e) s =
      with_slot j (set_killed true) (fun e => e) s) as ->; [|by apply table_ok_neutral].
    unfold with_slot. f_equal. apply list_eq. intros k. destruct (decide (k = j)) as [->|]; [|by rewrite !list_lookup_alter_ne].
    rewrite !list_lookup_alter_eq. unfold slot_of in Hs. destruct (lookup_lt_is_Some_2 (procs s) j Hj) as [p Hq].
    rewrite (nth_lookup_Some _ _ _ _ Hq) in Hs. rewrite Hq. simpl. by rewrite bool_decide_eq_false_2.
Qed.

Lemma step_table_ok s fk s' fk' : steps_to s fk s' fk' -> table_ok s fk -> table_ok s' fk'.
Proof.
  intros Hstep Ht. pose proof Ht as (Hl & Hn & Hp). destruct Hstep as
    [s fk c i r s' Hc Hf Hlt E | s fk c i j r s' Hc Hf E | s fk c i j ok s' Hc Hf E | s fk c i j s' Hc Hf E | s fk c i j n s' Hc Hf E
    | s fk c s' E | s fk c i a s' Hc Hf E | s fk a s' E | s fk c i s' Hc Hf E | s fk c i s' Hc Hf Hin E | s fk c i r s' Hc Hf E
    | s fk n r s' Hpos E | s fk c j s' Hlt Hc Hr E].
  - apply (returns_inv _ _ _ _ _ (alloc_slot_spec s)) in E. destruct r as [j|]; [|by destruct E as [-> _]].
    destruct E as (Hj & Hu & _ & ->). destruct (running_slot s fk c i Ht Hc) as (_ & _ & Ha).
    rewrite i32_small by lia. split; [by cbn [procs]; rewrite length_alter|]. cbn [nextpid initproc]. split; [lia|].
    eapply pinv_ext; [| | |apply (inv_alloc _ _ _ _ _ Hp i j Hf Ha Hu); lia].
    + intros k. unfold view, slot_of, fup. cbn [procs]. rewrite nth_alter.
      destruct (decide (k = j)); [by rewrite decide_True | by rewrite decide_False by tauto].
    + done.
    + done.
  - apply (returns_inv _ _ _ _ _ (alloc_stack_spec j s)) in E. destruct E as [-> ->].
    destruct (claimed_slot s fk i _ Ht Hf) as (Hj & _ & He & Hpar). cbn [child filled] in *.
    destruct (fst (kalloc (env s)) =? 0).
    + apply (table_ok_with s fk); [done | done|]. destruct (free_claimed s fk i j false Ht Hf) as [F1 F2].
      assert (core_of (set_state UNUSED (set_kstack (fst (kalloc (env s))) (slot_of s j))) = mkcore UNUSED (c_pid (view s j)) None (c_chan (view s j))) as ->
        by (unfold core_of; cbn; by rewrite Hpar).
      apply (inv_free _ _ _ _ _ Hp); [cbn; rewrite He; unfold alive; naive_solver | cbn; congruence | by right | done | done].
    + by apply table_ok_neutral.
  - destruct (claimed_slot s fk i _ Ht Hf) as (Hj & Hij & He & Hpar). cbn [child filled] in *.
    apply (returns_inv _ _ _ _ _ (fork_copy_spec i j s Hj Hij)) in E. destruct E as [-> ->].
    destruct (fst _ =? 0); cbn [negb].
    + apply (table_ok_with s fk); [done | done|]. destruct (free_claimed s fk i j false Ht Hf) as [F1 F2].
      set (d := fst _). assert (core_of (set_state UNUSED (set_kstack 0 (set_pgdir d (slot_of s j)))) = mkcore UNUSED (c_pid (view s j)) None (c_chan (view s j))) as ->
        by (unfold core_of; cbn; by rewrite Hpar).
      apply (inv_free _ _ _ _ _ Hp); [cbn; rewrite He; unfold alive; naive_solver | cbn; congruence | by right | done | done].
    + by apply table_ok_neutral.
  - destruct (claimed_slot s fk i _ Ht Hf) as (Hj & Hij & He & Hpar). cbn [child filled] in *.
    apply (returns_inv _ _ _ _ _ (fork_fill_spec i j s Hj Hij)) in E. subst s'.
    apply (table_ok_with s fk); [done | done|].
    assert (core_of (filled_child (slot_of s i) i (slot_of s j)) = mkcore EMBRYO (c_pid (view s j)) (Some i) (c_chan (view s j))) as ->
      by (unfold core_of; cbn; by rewrite He).
    by apply (inv_fill _ _ _ _ _ Hp i j false).
  - destruct (claimed_slot s fk i _ Ht Hf) as (Hj & Hij & He & Hpar). cbn [child filled] in *.
    apply (returns_inv _ _ _ _ _ (fork_publish_spec j s)) in E. destruct E as [_ ->].
    apply (table_ok_with s fk); [done | done|]. by apply (inv_publish _ _ _ _ _ Hp i j).
  - destruct (on_cpu s c) as [i|] eqn:Hc.
    2:{ unfold yield, myproc, on_cpu in *. unfold mbind, M_bind, gets in E. by rewrite Hc in E. }
    destruct (running_slot s fk c i Ht Hc) as (Hr & Hi & Ha).
    apply (returns_inv _ _ _ _ _ (yield_spec c i s Hc Hi)) in E. subst s'. apply table_off; try done. by left.
  - destruct (running_slot s fk c i Ht Hc) as (Hr & Hi & Ha).
    apply (returns_inv _ _ _ _ _ (sleep_spec c i (Chan a) s Hc Hi)) in E. subst s'. apply table_off; try done. by right.
  - apply (returns_inv _ _ _ _ _ (wakeup1_spec (Chan a) s)) in E. subst s'. by apply table_woken.
  - destruct (running_slot s fk c i Ht Hc) as (Hr & Hi & Ha). destruct (decide (i = initproc s)) as [->|Hin].
    { unfold exit_close, myproc, on_cpu in *. unfold mbind, M_bind, gets, get in E. rewrite Hc, Nat.eqb_refl in E. done. }
    apply (returns_inv _ _ _ _ _ (exit_close_spec c i s Hc Hi Hin)) in E. subst s'. by apply table_ok_neutral.
  - destruct (running_slot s fk c i Ht Hc) as (Hr & Hi & Ha).
    apply (returns_inv _ _ _ _ _ (exit_locked_spec c i s Hc Hi)) in E. subst s'. by apply table_exit.
  - destruct (running_slot s fk c i Ht Hc) as (Hr & Hi & Ha).
    apply (returns_inv _ _ _ _ _ (wait_round_spec c i s Hc Hi)) in E. destruct r as [n| |].
    + destruct E as (j & Hj & Hz & _ & _ & ->). by apply (table_reap s fk i).
    + by destruct E as [-> _].
    + destruct E as (-> & Hz & _ & _). apply table_off; try done; [by right|]. intros _ _ z Hpz Hsz.
      assert (existsb (zombie_child i) (procs s) = true); [|congruence]. apply (existsb_zombie s i z). unfold zombie_child.
      by rewrite !bool_decide_eq_true_2.
  - apply (returns_inv _ _ _ _ _ (kill_spec n s)) in E. destruct (find_slot _ (procs s) 0) as [j|].
    + destruct E as (_ & Hj & _ & ->). by apply table_kill.
    + by destruct E as (_ & -> & _).
  - assert (j < length (procs s))%nat as Hj by (apply slot_lt; congruence).
    pose proof (safe_eq _ _ _ _ _ (sched_run_safe c j s Hj) E) as Es. cbv beta in Es. subst s'. by apply table_run.
Qed.

(** the machine at boot, and what it can reach *)
Definition boot (ncpu : nat) (e : K) : pstate K := mkps (replicate NPROC blank_proc) 1 0 (replicate ncpu None) e.
Definition idle : nat -> option claim := fun _ => None.
Inductive reachable (ncpu : nat) (e : K) : pstate K -> (nat -> option claim) -> Prop :=
| reach_boot s : userinit (boot ncpu e) = Ok (tt, s) -> reachable ncpu e s idle
| reach_step s fk s' fk' : reachable ncpu e s fk -> steps_to s fk s' fk' -> reachable ncpu e s' fk'.
End Machine.
