(* ===== verification/ProcSpec.v ===== *)
(** * What processes can rely on

    The invariant of the process table on every reachable state, [fork], [exit]
    and [wait] on every branch, the fairness of the scheduler's pass, and a
    concrete run in which [kill] marks a free slot. *)

From Stdlib Require Import Sorted.
From S2P Require Import Prelude CStr Proc ProcInv.

Lemma nth_same {A} (x : A) n k : nth k (replicate n x) x = x.
Proof. revert k. induction n as [|n IH]; intros [|k]; simpl; try done. Qed.

Section Spec.
Context {K : Type} `{Env K}.
Implicit Types (s : pstate K) (fk : nat -> option claim).

Lemma userinit_safe ncpu e :
  safe userinit (boot ncpu e) (fun _ s' => exists g, core_of (g blank_proc) = mkcore RUNNABLE 1 None NoChan /\
    procs s' = alter g 0%nat (replicate NPROC blank_proc) /\ nextpid s' = 2 /\ initproc s' = 0%nat /\ cpus s' = replicate ncpu None).
Proof.
  unfold userinit, allocproc. apply safe_bind, safe_bind.
  assert (alloc_slot (boot ncpu e) = Ok (Some 0%nat, with_slot 0 (fun p => set_pid 1 (set_state EMBRYO p)) (fun e => e)
    (mkps (replicate NPROC blank_proc) 2 0 (replicate ncpu None) e))) as E by done.
  unfold safe at 1. rewrite E. clear E. set (s1 := with_slot _ _ _ _).
  pose proof (alloc_stack_spec 0 s1) as Hs. apply returns_eq in Hs as (r & s2 & E & Hs). unfold safe at 1. rewrite E. clear E.
  destruct Hs as [-> ->]. destruct (fst (kalloc (env s1)) =? 0); [done|].
  unfold s1, with_slot. cbn [procs nextpid initproc cpus env]. rewrite alter_alter. clear s1.
  unfold set_initproc. step. cbn [procs nextpid initproc cpus env]. unfold ask. apply safe_bind. unfold safe at 1.
  cbn [procs nextpid initproc cpus env]. unfold upd. step. cbn [procs nextpid initproc cpus env].
  destruct (fst (setupkvm _) =? 0); [done|]. unfold tell. do 4 (step; cbn [procs nextpid initproc cpus env]).
  apply safe_bind. unfold safe at 1. cbn [procs nextpid initproc cpus env]. do 2 (step; cbn [procs nextpid initproc cpus env]).
  rewrite !alter_alter. eexists. split; [|split; [reflexivity|done]]. done.
Qed.

Lemma boot_table_ok ncpu e s : userinit (boot ncpu e) = Ok (tt, s) -> table_ok s idle.
Proof.
  intros E. pose proof (safe_eq _ _ _ _ _ (userinit_safe ncpu e) E) as (g & Hg & Ep & En & Ei & Ec). cbv beta in *.
  assert (forall k, view s k = if decide (k = 0%nat) then mkcore RUNNABLE 1 None NoChan else core_of blank_proc) as Hv.
  { intros k. unfold view, slot_of. rewrite Ep, nth_alter, length_replicate. destruct (decide (k = 0%nat)) as [->|].
    - rewrite decide_True by (unfold NPROC; split; [done | lia]). rewrite nth_same. exact Hg.
    - rewrite decide_False by tauto. by rewrite nth_same. }
  assert (forall c, on_cpu s c = None) as Hc by (intros c; unfold on_cpu; rewrite Ec; apply nth_same).
  split; [rewrite Ep, length_alter; apply length_replicate|]. rewrite En, Ei. split; [lia|].
  split; unfold idle, alive; try done; intros *; rewrite ?Hv, ?Hc; repeat case_decide; subst; cbn; try done; try lia; try naive_solver.
Qed.

Lemma reachable_table_ok ncpu e s fk : reachable ncpu e s fk -> table_ok s fk.
Proof. induction 1; [by eapply boot_table_ok | by eapply step_table_ok]. Qed.

(** C21: Whatever the interleaving of system calls, interrupts and schedulers on
    all processors: processes have distinct ids; a processor runs a running
    process and a running process has exactly one processor; init lives, and every
    other live or zombie process has a live parent, so that it can be reaped; no
    zombie has a parent that sleeps in [wait]; and a slot being filled belongs to
    exactly one [fork]. *)
Theorem ptable_invariant ncpu e s fk :
  reachable ncpu e s fk ->
  (forall i j, state (slot_of s i) <> UNUSED -> pid (slot_of s i) = pid (slot_of s j) -> i = j) /\
  (forall c i, on_cpu s c = Some i -> state (slot_of s i) = RUNNING) /\
  (forall i, state (slot_of s i) = RUNNING -> exists! c, on_cpu s c = Some i) /\
  alive (state (slot_of s (initproc s))) /\
  (forall i, i <> initproc s -> alive (state (slot_of s i)) \/ state (slot_of s i) = ZOMBIE ->
     exists q, parent (slot_of s i) = Some q /\ alive (state (slot_of s q))) /\
  (forall i q, state (slot_of s i) = ZOMBIE -> parent (slot_of s i) = Some q ->
     ~ (state (slot_of s q) = SLEEPING /\ chan (slot_of s q) = ProcChan q)) /\
  (forall j, state (slot_of s j) = EMBRYO -> exists! i, exists b, fk i = Some (mkclaim j b)).
Proof.
  intros (_ & _ & Hp)%reachable_table_ok. split_and!.
  - intros i j Hu E. apply (inv_pid_inj _ _ _ _ _ Hp); [done | by apply (inv_pid_used _ _ _ _ _ Hp)].
  - apply (inv_cpu _ _ _ _ _ Hp).
  - intros i Hr. destruct (inv_running _ _ _ _ _ Hp i Hr) as [c Hc]. exists c. split; [done|].
    intros c' Hc'. by apply (inv_cpu_inj _ _ _ _ _ Hp c c' i).
  - apply (inv_init _ _ _ _ _ Hp).
  - intros i Hi Hs. destruct (parent (slot_of s i)) as [q|] eqn:E.
    + exists q. split; [done|]. apply (inv_parent _ _ _ _ _ Hp i q E).
    + by destruct (inv_orphan _ _ _ _ _ Hp i Hi Hs).
  - apply (inv_wait _ _ _ _ _ Hp).
  - intros j Hj. destruct (inv_embryo _ _ _ _ _ Hp j Hj) as (i & [c b] & Hx & E). cbn in E. subst c. exists i.
    split; [by exists b|]. intros k [b' Hk]. by apply (inv_fork_inj _ _ _ _ _ Hp i k _ _ Hx Hk).
Qed.

Lemma dup_fds_lookup fds n o k :
  (n + length fds <= length o)%nat ->
  dup_fds fds n o !! k = if decide (n <= k < n + length fds)%nat
    then (if fds !!! (k - n)%nat =? 0 then o !! k else Some (fds !!! (k - n)%nat)) else o !! k.
Proof.
  revert n o. induction fds as [|f fds IH]; intros n o Hl; cbn [dup_fds length] in *.
  { by rewrite decide_False by lia. }
  rewrite IH by (destruct (f =? 0); rewrite ?length_insert; lia).
  destruct (decide (k = n)) as [->|Hne].
  - rewrite decide_False, decide_True, Nat.sub_diag by lia. cbn. destruct (f =? 0); [done|].
    by rewrite list_lookup_insert_eq by lia.
  - assert ((if f =? 0 then o else <[n:=f]> o) !! k = o !! k) as -> by (destruct (f =? 0); [done | by rewrite list_lookup_insert_ne]).
    destruct (decide (S n <= k < S n + length fds)%nat).
    + rewrite decide_True by lia. replace (k - n)%nat with (S (k - S n)) by lia. done.
    + by rewrite decide_False by lia.
Qed.

Lemma dup_fds_fresh fds : dup_fds fds 0 (replicate (length fds) 0) = fds.
Proof.
  apply list_eq. intros k. rewrite dup_fds_lookup by (rewrite length_replicate; lia). rewrite Nat.sub_0_r. case_decide as Hk.
  - destruct (lookup_lt_is_Some_2 fds k) as [x Hx]; [lia|]. rewrite (list_lookup_total_correct _ _ _ Hx), Hx.
    destruct (Z.eqb_spec x 0); [subst; apply lookup_replicate_2; lia | done].
  - rewrite !lookup_ge_None_2; [done | lia | rewrite length_replicate; lia].
Qed.

(** the slots but [j] are as before *)
Definition others_same (j : nat) s s' : Prop :=
  (forall k, k <> j -> slot_of s' k = slot_of s k) /\ cpus s' = cpus s /\ initproc s' = initproc s.

(** [s'] is [s] after [nextpid++], with [p] in slot [j] *)
Definition only_slot (j : nat) (p : proc) s s' : Prop :=
  others_same j s s' /\ nextpid s' = nextpid s + 1 /\ slot_of s' j = p /\ length (procs s') = length (procs s).

Lemma only_slot_with j p s s' g h :
  (j < length (procs s))%nat -> only_slot j p s s' -> only_slot j (g p) s (with_slot j g h s').
Proof.
  intros Hj ((H1 & H2 & H3) & H4 & H5 & H6). unfold only_slot, others_same. split_and!; try done.
  - intros k Hk. by rewrite slot_with, decide_False, H1 by (done || lia).
  - rewrite slot_with, decide_True, H5 by (done || lia). done.
  - unfold with_slot. cbn [procs]. by rewrite length_alter.
Qed.

(** C23: [fork] takes the lowest free slot.  The child has its own id, kernel
    stack and address space, the parent's slot as its parent and 0 as the result
    of its [fork]; the size, the registers, the open files, the directory and the
    name are the parent's, and it is runnable; [chan], [killed] and the entries of
    the file table that the parent does not use are what the slot had before.
    The other components are asked for a stack, for the copy of the address
    space, for one more reference to each open file and one to the directory,
    and for nothing else.  When there is no slot, no stack or no memory, [fork]
    returns -1, the slot is free again and its stack is given back. *)
Theorem fork_correct s fk c i :
  table_ok s fk -> on_cpu s c = Some i -> nextpid s < 2 ^ 31 - 1 ->
  returns (fork c) s (fun r s' =>
    (r = -1 /\ s' = s /\ (forall k, (k < NPROC)%nat -> state (slot_of s k) <> UNUSED)) \/
    exists j, state (slot_of s j) = UNUSED /\ (forall k, (k < j)%nat -> state (slot_of s k) <> UNUSED) /\
      others_same j s s' /\ nextpid s' = nextpid s + 1 /\
      let cur := slot_of s i in let old := slot_of s j in let np := slot_of s' j in
      let '(k, e1) := kalloc (env s) in
      let '(d, e2) := copyuvm (pgdir cur) (sz cur) e1 in
      let failed := r = -1 /\ state np = UNUSED /\ kstack np = 0 /\ parent np = None in
      (k = 0 /\ failed /\ env s' = e1) \/
      (k <> 0 /\ d = 0 /\ failed /\ env s' = kfree k e2) \/
      (k <> 0 /\ d <> 0 /\ r = nextpid s /\ env s' = idup (cwd cur) (dup_refs (ofile cur) e2) /\
          np = mkproc (sz cur) d k RUNNABLE r (Some i) (child_tf (tf cur)) ToForkret (chan old) (killed old)
                 (dup_fds (ofile cur) 0 (ofile old)) (cwd cur) (safestrcpy (name cur) 16))).
Proof.
  intros Ht Hc Hlt. destruct (running_slot s fk c i Ht Hc) as (Hr & Hi & Ha). pose proof Ht as (Hl & Hn & Hp).
  unfold fork, myproc. step. unfold on_cpu in Hc. rewrite Hc. unfold allocproc. apply returns_bind, returns_bind.
  eapply returns_mono; [apply alloc_slot_spec|]. cbv beta. intros [j|] s1 Hs1.
  2:{ destruct Hs1 as [-> Hnone]. do 2 step. left. rewrite <- Hl. done. }
  destruct Hs1 as (Hj & Hu & Hlow & ->). set (s1 := mkps _ _ _ _ _).
  assert (forall k, slot_of s1 k = if decide (k = j) then set_pid (nextpid s) (set_state EMBRYO (slot_of s j)) else slot_of s k) as E1.
  { intros k. unfold s1, slot_of. cbn [procs]. rewrite nth_alter. destruct (decide (k = j)); [by rewrite decide_True | by rewrite decide_False by tauto]. }
  assert (length (procs s1) = length (procs s)) as L1 by (unfold s1; cbn [procs]; apply length_alter).
  assert (i <> j) as Hij by (intros ->; congruence).
  assert (parent (slot_of s j) = None) as Hpar by (by apply (inv_unused _ _ _ _ _ Hp j)).
  assert (only_slot j (set_pid (nextpid s) (set_state EMBRYO (slot_of s j))) s s1) as O1.
  { unfold only_slot, others_same. split_and!; try done.
    - intros k Hk. by rewrite E1, decide_False.
    - unfold s1. cbn [nextpid]. rewrite i32_small; lia.
    - by rewrite E1, decide_True. }
  assert (env s1 = env s) as V1 by done.
  clearbody s1. clear E1. eapply returns_mono; [apply alloc_stack_spec|]. cbv beta zeta. intros r s2 [-> ->]. rewrite V1.
  destruct (kalloc (env s)) as [kst e1] eqn:Ekst. cbn [fst snd].
  destruct (Z.eqb_spec kst 0) as [Ek|Ek].
  { step. destruct (only_slot_with _ _ _ _ (fun p => set_state UNUSED (set_kstack kst p)) (fun e => snd (kalloc e)) Hj O1) as (X1 & X2 & X3 & _).
    right. exists j. do 2 (split; [done|]). cbv zeta. rewrite X3. split; [done|]. split; [done|]. destruct (copyuvm _ _ e1) as [d e2]. left.
    cbn [with_slot env]. rewrite V1, Ekst, Ek. done. }
  pose proof (only_slot_with _ _ _ _ (fun p => set_ctx ToForkret (set_kstack kst p)) (fun e => snd (kalloc e)) Hj O1) as O2; clear O1; rename O2 into O1.
  set (s2 := with_slot _ _ _ _) in *. assert (env s2 = e1) as V2 by (unfold s2; cbn [with_slot env]; by rewrite V1, Ekst).
  assert (kstack (slot_of s2 j) = kst) as Kst by (assert (slot_of s2 j = _) as -> by apply O1; done).
  clearbody s2. clear s1 L1 V1.
  assert (slot_of s2 i = slot_of s i) as Ei by (by apply O1). assert (length (procs s2) = length (procs s)) as L2 by apply O1.
  apply returns_bind. eapply returns_mono; [apply (fork_copy_spec i j s2); [lia | done]|]. cbv beta zeta. intros ok s3 [-> ->].
  rewrite Ei, V2, Kst. destruct (copyuvm _ _ e1) as [d e2] eqn:Ecp. cbn [fst snd].
  destruct (Z.eqb_spec d 0) as [Ed|Ed]; cbn [negb].
  { step. match goal with |- context [with_slot j ?g ?h s2] => destruct (only_slot_with _ _ _ _ g h Hj O1) as (X1 & X2 & X3 & _) end.
    right. exists j. do 2 (split; [done|]). cbv zeta. rewrite X3. split; [done|]. split; [done|]. right; left. done. }
  match goal with |- context [with_slot j ?g ?h s2] => pose proof (only_slot_with _ _ _ _ g h Hj O1) as O2; clear O1; rename O2 into O1 end.
  set (s3 := with_slot _ _ _ _) in *. assert (env s3 = e2) as V3 by done. clearbody s3. clear s2 Ei L2 V2 Kst.
  assert (slot_of s3 i = slot_of s i) as Ei by (by apply O1). assert (length (procs s3) = length (procs s)) as L3 by apply O1.
  apply returns_bind. eapply returns_mono; [apply fork_fill_spec; [lia | done]|]. cbv beta. intros _ s4 ->. rewrite Ei.
  match goal with |- context [with_slot j ?g ?h s3] => pose proof (only_slot_with _ _ _ _ g h Hj O1) as O2; clear O1; rename O2 into O1 end.
  set (s4 := with_slot _ _ _ _) in *. assert (env s4 = idup (cwd (slot_of s i)) (dup_refs (ofile (slot_of s i)) e2)) as V4 by (unfold s4; cbn [with_slot env]; by rewrite V3).
  clearbody s4.
  eapply returns_mono; [apply fork_publish_spec|]. cbv beta. intros r s5 [-> ->].
  assert (slot_of s4 j = _) as -> by apply O1.
  destruct (only_slot_with _ _ _ _ (set_state RUNNABLE) (fun e => e) Hj O1) as (Y1 & Y2 & Y3 & _).
  right. exists j. do 2 (split; [done|]). cbv zeta. rewrite Y3. split; [done|]. split; [done|].
  right; right. do 3 (split; [done|]). split; [exact V4|].
  unfold filled_child.
  cbn [set_state set_name set_cwd set_ofile set_tf set_parent set_space set_pgdir set_ctx set_kstack set_pid
       sz pgdir kstack state pid parent tf ctx chan killed ofile cwd name]. f_equal.
Qed.

Lemma close_fds_lookup fds n o k :
  (n + length fds <= length o)%nat ->
  close_fds fds n o !! k = if decide (n <= k < n + length fds)%nat
    then (if fds !!! (k - n)%nat =? 0 then o !! k else Some 0) else o !! k.
Proof.
  revert n o. induction fds as [|f fds IH]; intros n o Hl; cbn [close_fds length] in *.
  { by rewrite decide_False by lia. }
  rewrite IH by (destruct (f =? 0); rewrite ?length_insert; lia).
  destruct (decide (k = n)) as [->|Hne].
  - rewrite decide_False, decide_True, Nat.sub_diag by lia. cbn. destruct (f =? 0); [done|].
    by rewrite list_lookup_insert_eq by lia.
  - assert ((if f =? 0 then o else <[n:=0]> o) !! k = o !! k) as -> by (destruct (f =? 0); [done | by rewrite list_lookup_insert_ne]).
    destruct (decide (S n <= k < S n + length fds)%nat).
    + rewrite decide_True by lia. replace (k - n)%nat with (S (k - S n)) by lia. done.
    + by rewrite decide_False by lia.
Qed.

Lemma close_fds_all fds : close_fds fds 0 fds = replicate (length fds) 0.
Proof.
  apply list_eq. intros k. rewrite close_fds_lookup by lia. rewrite Nat.sub_0_r. case_decide as Hk.
  - rewrite lookup_replicate_2 by lia. destruct (lookup_lt_is_Some_2 fds k) as [x Hx]; [lia|].
    rewrite (list_lookup_total_correct _ _ _ Hx), Hx. destruct (Z.eqb_spec x 0); congruence.
  - rewrite !lookup_ge_None_2; [done | rewrite length_replicate; lia | lia].
Qed.

(** C24: [exit] makes the process a zombie that holds no file and no directory
    and gives up its processor.  Its parent is woken if it sleeps in [wait]; its
    children belong to init, which is woken from [wait] when one of them is a
    zombie; nothing else in the table changes.  Of the other components, each
    open file is closed once, in the order of the table, and then the directory
    is put.  Init itself cannot exit. *)
Theorem exit_correct s fk c i :
  table_ok s fk -> on_cpu s c = Some i ->
  (i = initproc s -> exit c s = Panic "init exiting") /\
  (i <> initproc s -> returns (exit c) s (fun _ s' =>
    let cur := slot_of s i in
    on_cpu s' c = None /\
    env s' = iput_op (cwd cur) (close_refs (ofile cur) (env s)) /\
    slot_of s' i = set_ctx InExit (set_state ZOMBIE (set_cwd 0 (set_ofile (replicate (length (ofile cur)) 0) cur))) /\
    forall k, k <> i -> slot_of s' k =
      (if existsb (zombie_child i) (procs s) then woken (ProcChan (initproc s)) else fun p => p)
        (adopted (initproc s) i (woken (match parent cur with Some q => ProcChan q | None => NoChan end) (slot_of s k))))).
Proof.
  intros Ht Hc. destruct (running_slot s fk c i Ht Hc) as (Hr & Hi & Ha). pose proof Ht as (Hl & Hn & Hp). split.
  { intros ->. unfold exit, exit_close, myproc. unfold mbind, M_bind, gets, get. unfold on_cpu in Hc. by rewrite Hc, Nat.eqb_refl. }
  intros Hin. unfold exit. apply returns_bind. eapply returns_mono; [by apply (exit_close_spec c i s)|]. cbv beta. intros _ s1 ->.
  set (s1 := with_slot _ _ _ _). set (cur := set_cwd 0 (set_ofile (replicate (length (ofile (slot_of s i))) 0) (slot_of s i))).
  assert (forall k, slot_of s1 k = if decide (k = i) then cur else slot_of s k) as E1.
  { intros k. unfold s1. rewrite slot_with by done. by rewrite close_fds_all. }
  assert (length (procs s1) = length (procs s)) as L1 by (unfold s1, with_slot; cbn [procs]; apply length_alter).
  assert (existsb (zombie_child i) (procs s1) = existsb (zombie_child i) (procs s)) as Ez.
  { apply eq_true_iff_eq. rewrite !existsb_exists. split; intros (p & (m & Hm & <-)%(In_nth _ _ blank_proc) & Hz).
    - exists (slot_of s m). split; [apply nth_In; lia|]. fold (slot_of s1 m) in Hz. rewrite E1 in Hz. by case_decide; subst.
    - exists (slot_of s1 m). split; [apply nth_In; lia|]. fold (slot_of s m) in Hz. rewrite E1. by case_decide; subst. }
  assert (env s1 = iput_op (cwd (slot_of s i)) (close_refs (ofile (slot_of s i)) (env s))) as Ev by done.
  assert (initproc s1 = initproc s) as Ein by done. assert (on_cpu s1 c = Some i) as Hc1 by done.
  clearbody s1. eapply returns_mono; [apply (exit_locked_spec c i s1); [done | lia]|]. cbv beta. intros _ s2 ->.
  split; [rewrite (on_cpu_off _ _ _ _ i) by done; apply fup_same|]. split; [exact Ev|].
  set (up := match parent (slot_of s i) with Some q => ProcChan q | None => NoChan end).
  assert (forall k, slot_of (with_procs (exit_procs (initproc s1) i) s1) k =
    (if existsb (zombie_child i) (procs s) then woken (ProcChan (initproc s)) else fun p => p) (adopted (initproc s) i (woken up (slot_of s1 k)))) as E3.
  { intros k. rewrite slot_exit, Ez, Ein. unfold up. rewrite (E1 i), decide_True by done. done. }
  assert (forall k, slot_of (off_cpu c i (fun p => set_ctx InExit (set_state ZOMBIE p)) (with_procs (exit_procs (initproc s1) i) s1)) k =
    if decide (k = i) then set_ctx InExit (set_state ZOMBIE (slot_of (with_procs (exit_procs (initproc s1) i) s1) i))
    else slot_of (with_procs (exit_procs (initproc s1) i) s1) k) as E2.
  { intros k. apply slot_off. unfold with_procs. cbn [procs]. rewrite length_exit_procs. lia. }
  split; [|by intros k Hk; rewrite E2, decide_False, E3, E1, decide_False].
  rewrite E2, decide_True, E3, E1, decide_True by done. f_equal. f_equal.
  assert (state cur = RUNNING) as Hrc by done. assert (parent cur <> Some i) as Hpc.
  { intros E. by destruct (inv_parent _ _ _ _ _ Hp i i E). }
  clearbody cur. assert (forall ch, woken ch cur = cur) as Hw by (intros; unfold woken; by rewrite bool_decide_eq_false_2 by congruence).
  assert (adopted (initproc s) i cur = cur) as Had by (unfold adopted; by rewrite bool_decide_eq_false_2).
  rewrite (Hw up), Had. destruct (existsb (zombie_child i) (procs s)); [apply Hw | done].
Qed.

(** [wait] reaps the first zombie child of the table and nothing else: its
    stack and address space are freed and its slot is free for a new process.
    With no zombie child it returns -1 when there is no child or the caller
    was killed, and otherwise goes to sleep, the table unchanged. *)
Theorem wait_correct s fk c i :
  table_ok s fk -> on_cpu s c = Some i ->
  returns (wait_round c) s (fun r s' =>
    match r with
    | Reaped n => exists j, j <> i /\ parent (slot_of s j) = Some i /\ state (slot_of s j) = ZOMBIE /\
        n = pid (slot_of s j) /\ 0 < n /\
        (forall m, (m < j)%nat -> ~ (parent (slot_of s m) = Some i /\ state (slot_of s m) = ZOMBIE)) /\
        others_same j s s' /\ slot_of s' j = reaped (slot_of s j) /\
        env s' = freevm (pgdir (slot_of s j)) (kfree (kstack (slot_of s j)) (env s))
    | NoChildren => s' = s /\
        ((forall m, parent (slot_of s m) <> Some i) \/ killed (slot_of s i) = true) /\
        (forall m, ~ (parent (slot_of s m) = Some i /\ state (slot_of s m) = ZOMBIE))
    | Waiting => others_same i (mkps (procs s) (nextpid s) (initproc s) (<[c := None]> (cpus s)) (env s)) s' /\
        slot_of s' i = set_ctx InSleep (set_state SLEEPING (set_chan (ProcChan i) (slot_of s i))) /\
        (exists m, parent (slot_of s m) = Some i) /\ killed (slot_of s i) = false /\
        (forall m, ~ (parent (slot_of s m) = Some i /\ state (slot_of s m) = ZOMBIE))
    end).
Proof.
  intros Ht Hc. destruct (running_slot s fk c i Ht Hc) as (Hr & Hi & Ha). pose proof Ht as (Hl & Hn & Hp).
  assert (forall m, zombie_child i (slot_of s m) = true <-> parent (slot_of s m) = Some i /\ state (slot_of s m) = ZOMBIE) as Hz.
  { intros m. unfold zombie_child. by rewrite andb_true_iff, !bool_decide_eq_true. }
  assert (existsb (zombie_child i) (procs s) = false -> forall m, ~ (parent (slot_of s m) = Some i /\ state (slot_of s m) = ZOMBIE)) as Hnz.
  { intros E m Hm%Hz. apply existsb_zombie in Hm. congruence. }
  eapply returns_mono; [by apply wait_round_spec|]. cbv beta. intros [n| |] s'.
  - intros (j & Hj & Hzj & Hlow & -> & ->). apply Hz in Hzj as [Hpj Hsj]. exists j. split; [congruence|]. do 3 (split; [done|]).
    pose proof (inv_pid _ _ _ _ _ Hp j) as Hpr. pose proof (inv_pid_used _ _ _ _ _ Hp j) as Hpu. cbn in Hpr, Hpu.
    split; [assert (pid (slot_of s j) <> 0) by (apply Hpu; congruence); lia|].
    split; [intros m Hm Hzm%Hz; by rewrite Hlow in Hzm|].
    split; [split; [|done]; intros k Hk; by rewrite slot_with, decide_False|].
    split; [by rewrite slot_with, decide_True | done].
  - intros (-> & E & Hkid). split; [done|]. split; [|by apply Hnz]. destruct Hkid as [Hkid|]; [left | by right].
    intros m Hm. assert (existsb (fun p => bool_decide (parent p = Some i)) (procs s) = true); [|congruence].
    apply existsb_exists. exists (slot_of s m). split; [|by apply bool_decide_eq_true].
    unfold slot_of in *. destruct (decide (m < length (procs s))%nat); [by apply nth_In | by rewrite nth_overflow in Hm by lia].
  - intros (-> & E & Hkid & Hk). split; [|split; [|split; [|split; [done | by apply Hnz]]]].
    + split; [|done]. intros k Hk2. by rewrite slot_off, decide_False.
    + by rewrite slot_off, decide_True.
    + apply existsb_exists in Hkid as (p & (m & Hm & <-)%(In_nth _ _ blank_proc) & E2%bool_decide_eq_true). by exists m.
Qed.

(** ** The scheduler *)

(** every runnable process can be switched to *)
Definition resumable s : Prop := forall k, state (slot_of s k) = RUNNABLE -> ctx (slot_of s k) <> InExit.

(** a sequence of steps of the whole machine, and the slots that processors
    started to run in it *)
Definition started s s' (T : list nat) : Prop := forall m, m ∈ T <-> exists c, on_cpu s c = None /\ on_cpu s' c = Some m.
Inductive evolves : list nat -> pstate K -> (nat -> option claim) -> pstate K -> (nat -> option claim) -> Prop :=
| evolves_refl s fk : evolves [] s fk s fk
| evolves_step s fk s1 fk1 s' fk' T T' :
    steps_to s fk s1 fk1 -> started s s1 T -> evolves T' s1 fk1 s' fk' -> evolves (T ++ T') s fk s' fk'.

Lemma evolves_app T s fk s1 fk1 T' s' fk' : evolves T s fk s1 fk1 -> evolves T' s1 fk1 s' fk' -> evolves (T ++ T') s fk s' fk'.
Proof. induction 1 as [|s fk s0 fk0 s1 fk1 T0 T1 H1 H2 _ IH]; intros H'; [done|]. rewrite <- app_assoc. eapply evolves_step; eauto. Qed.

(** what happens between the switch to a process on processor [c] and the switch
    back: steps of this and of the other processors, until [c] is given up *)
Definition gives_back (run : nat -> nat -> M (pstate K) unit) (c : nat) : Prop := forall j s fk,
  table_ok s fk -> resumable s -> on_cpu s c = Some j ->
  returns (run c j) s (fun _ s' => exists T fk', evolves T s fk s' fk' /\ on_cpu s' c = None /\ resumable s').

Definition stays s s' : Prop := forall m, state (slot_of s m) = RUNNABLE -> state (slot_of s' m) = RUNNABLE.
Lemma stays_with s j g h : (j < length (procs s))%nat ->
  (state (slot_of s j) = RUNNABLE -> state (g (slot_of s j)) = RUNNABLE) -> stays s (with_slot j g h s).
Proof. intros Hj Hg m Hm. rewrite slot_with by done. case_decide; [subst; by apply Hg | done]. Qed.
Lemma stays_off s c i g : (i < length (procs s))%nat -> state (slot_of s i) = RUNNING -> stays s (off_cpu c i g s).
Proof. intros Hi Hr m Hm. rewrite slot_off by done. case_decide; [congruence | done]. Qed.
Lemma stays_woken ch p : state p = RUNNABLE -> state (woken ch p) = RUNNABLE.
Proof. intros E. unfold woken. by rewrite bool_decide_eq_false_2 by congruence. Qed.
Lemma stays_adopted n i p : state p = RUNNABLE -> state (adopted n i p) = RUNNABLE.
Proof. intros E. unfold adopted. by case_bool_decide. Qed.

(** a runnable process stays runnable until a processor runs it *)
Lemma step_keeps s fk s' fk' : steps_to s fk s' fk' -> table_ok s fk -> length (cpus s') = length (cpus s) /\
  forall m, state (slot_of s m) = RUNNABLE -> state (slot_of s' m) = RUNNABLE \/ exists c, on_cpu s c = None /\ on_cpu s' c = Some m.
Proof.
  intros Hstep Ht. assert (length (cpus s') = length (cpus s) /\ stays s s' -> length (cpus s') = length (cpus s) /\
    forall m, state (slot_of s m) = RUNNABLE -> state (slot_of s' m) = RUNNABLE \/ exists c, on_cpu s c = None /\ on_cpu s' c = Some m) as Hs.
  { intros [HL HS]. split; [done|]. intros m Hm. left. by apply HS. }
  destruct Hstep as
    [s fk c i r s' Hc Hf Hlt E | s fk c i j r s' Hc Hf E | s fk c i j ok s' Hc Hf E | s fk c i j s' Hc Hf E | s fk c i j n s' Hc Hf E
    | s fk c s' E | s fk c i a s' Hc Hf E | s fk a s' E | s fk c i s' Hc Hf E | s fk c i s' Hc Hf Hin E | s fk c i r s' Hc Hf E
    | s fk n r s' Hpos E | s fk c j s' Hlt Hc Hr E].
  - apply Hs. apply (returns_inv _ _ _ _ _ (alloc_slot_spec s)) in E. destruct r as [j|]; [|destruct E as [-> _]; split; [done | by intros m]].
    destruct E as (Hj & Hu & _ & ->). split; [done|]. intros m Hm. unfold slot_of. cbn [procs]. rewrite nth_alter.
    destruct (decide _) as [[-> _]|]; [congruence | done].
  - apply Hs. destruct (claimed_slot s fk i _ Ht Hf) as (Hj & _ & He & _). cbn [child] in *.
    apply (returns_inv _ _ _ _ _ (alloc_stack_spec j s)) in E. destruct E as [-> _]. split; [done|]. apply stays_with; [done | congruence].
  - apply Hs. destruct (claimed_slot s fk i _ Ht Hf) as (Hj & Hij & He & _). cbn [child] in *.
    apply (returns_inv _ _ _ _ _ (fork_copy_spec i j s Hj Hij)) in E. destruct E as [_ ->]. split; [done|]. apply stays_with; [done | congruence].
  - apply Hs. destruct (claimed_slot s fk i _ Ht Hf) as (Hj & Hij & He & _). cbn [child] in *.
    apply (returns_inv _ _ _ _ _ (fork_fill_spec i j s Hj Hij)) in E. subst s'. split; [done|]. apply stays_with; [done | congruence].
  - apply Hs. destruct (claimed_slot s fk i _ Ht Hf) as (Hj & Hij & He & _). cbn [child] in *.
    apply (returns_inv _ _ _ _ _ (fork_publish_spec j s)) in E. destruct E as [_ ->]. split; [done|]. by apply stays_with.
  - apply Hs. destruct (on_cpu s c) as [i|] eqn:Hc.
    2:{ unfold yield, myproc, on_cpu in *. unfold mbind, M_bind, gets in E. by rewrite Hc in E. }
    destruct (running_slot s fk c i Ht Hc) as (Hr & Hi & _). apply (returns_inv _ _ _ _ _ (yield_spec c i s Hc Hi)) in E. subst s'.
    split; [apply length_insert | by apply stays_off].
  - apply Hs. destruct (running_slot s fk c i Ht Hc) as (Hr & Hi & _). apply (returns_inv _ _ _ _ _ (sleep_spec c i (Chan a) s Hc Hi)) in E. subst s'.
    split; [apply length_insert | by apply stays_off].
  - apply Hs. apply (returns_inv _ _ _ _ _ (wakeup1_spec (Chan a) s)) in E. subst s'. split; [done|]. intros m Hm.
    rewrite slot_fmap by done. by apply stays_woken.
  - apply Hs. destruct (running_slot s fk c i Ht Hc) as (Hr & Hi & _). destruct (decide (i = initproc s)) as [->|Hin].
    { unfold exit_close, myproc, on_cpu in *. unfold mbind, M_bind, gets, get in E. rewrite Hc, Nat.eqb_refl in E. done. }
    apply (returns_inv _ _ _ _ _ (exit_close_spec c i s Hc Hi Hin)) in E. subst s'. split; [done|]. by apply stays_with.
  - apply Hs. destruct (running_slot s fk c i Ht Hc) as (Hr & Hi & _).
    apply (returns_inv _ _ _ _ _ (exit_locked_spec c i s Hc Hi)) in E. subst s'. split; [apply length_insert|]. intros m Hm.
    rewrite slot_off by (unfold with_procs; cbn [procs]; by rewrite length_exit_procs). case_decide; [congruence|]. rewrite slot_exit.
    destruct (existsb _ _); repeat first [apply stays_woken | apply stays_adopted]; done.
  - apply Hs. destruct (running_slot s fk c i Ht Hc) as (Hr & Hi & _). apply (returns_inv _ _ _ _ _ (wait_round_spec c i s Hc Hi)) in E. destruct r as [n| |].
    + destruct E as (j & Hj & Hz & _ & _ & ->). split; [done|]. apply stays_with; [done|]. intros Hrj. unfold zombie_child in Hz.
      rewrite Hrj, andb_false_r in Hz. done.
    + destruct E as [-> _]. split; [done | by intros m].
    + destruct E as (-> & _). split; [apply length_insert | by apply stays_off].
  - apply Hs. apply (returns_inv _ _ _ _ _ (kill_spec n s)) in E. destruct (find_slot _ (procs s) 0) as [j|].
    + destruct E as (_ & Hj & _ & ->). split; [done|]. apply stays_with; [done|]. intros Hrj. by rewrite bool_decide_eq_false_2 by congruence.
    + destruct E as (_ & -> & _). split; [done | by intros m].
  - assert (j < length (procs s))%nat as Hj by (apply slot_lt; congruence).
    pose proof (safe_eq _ _ _ _ _ (sched_run_safe c j s Hj) E) as Es. cbv beta in Es. subst s'. split; [apply length_insert|]. intros m Hm.
    destruct (decide (m = j)) as [->|Hne].
    + right. exists c. split; [done|]. unfold on_cpu. cbn [cpus]. by rewrite nth_insert_cpu, decide_True.
    + left. unfold slot_of. cbn [procs]. rewrite nth_alter, decide_False by tauto. done.
Qed.

Lemma evolves_keeps T s fk s' fk' : evolves T s fk s' fk' -> table_ok s fk ->
  table_ok s' fk' /\ length (cpus s') = length (cpus s) /\
  forall m, state (slot_of s m) = RUNNABLE -> m ∈ T \/ state (slot_of s' m) = RUNNABLE.
Proof.
  induction 1 as [|s fk s1 fk1 s' fk' T T' H1 H2 _ IH]; intros Ht; [split_and!; auto|].
  destruct (step_keeps _ _ _ _ H1 Ht) as [HL HS]. destruct (IH (step_table_ok _ _ _ _ H1 Ht)) as (A & B & C). split_and!; [done | congruence|].
  intros m Hm. destruct (HS m Hm) as [Hm1|Hc]; [|left; apply elem_of_app; left; by apply H2].
  destruct (C m Hm1); [left; apply elem_of_app; by right | by right].
Qed.

Lemma resumable_check s :
  forallb (fun p => negb (bool_decide (state p = RUNNABLE)) || match ctx p with InExit => false | _ => true end) (procs s) = true -> resumable s.
Proof.
  intros Hf k Hk. assert (k < length (procs s))%nat as Hl by (apply slot_lt; congruence).
  rewrite forallb_forall in Hf. specialize (Hf (slot_of s k) (nth_In _ _ Hl)). rewrite bool_decide_eq_true_2 in Hf by done. intros E. by rewrite E in Hf.
Qed.

Lemma sched_run_returns c j s :
  (j < length (procs s))%nat -> ctx (slot_of s j) <> InExit ->
  returns (sched_run c j) s (fun _ s' => s' = mkps (alter resumed j (procs s)) (nextpid s) (initproc s) (<[c := Some j]> (cpus s)) (env s)).
Proof.
  intros Hj Hx. pose proof (sched_run_safe c j s Hj) as Hs. unfold returns. unfold safe in Hs.
  destruct (sched_run c j s) as [[[] s']| |] eqn:E; [done|..].
  - unfold sched_run, resume, set_cpu, upd, slot in E. unfold mbind, M_bind, modify, gets in E. cbn [procs nextpid initproc cpus env] in E.
    rewrite nth_alter, decide_True in E by done. fold (slot_of s j) in E. cbn [set_state ctx] in E. by destruct (ctx (slot_of s j)).
  - unfold sched_run, resume, set_cpu, upd, slot in E. unfold mbind, M_bind, modify, gets in E. cbn [procs nextpid initproc cpus env] in E.
    rewrite nth_alter, decide_True in E by done. fold (slot_of s j) in E. cbn [set_state ctx] in E. by destruct (ctx (slot_of s j)).
Qed.

Lemma run_step s fk c j : table_ok s fk -> on_cpu s c = None -> (c < length (cpus s))%nat -> resumable s -> state (slot_of s j) = RUNNABLE ->
  returns (sched_run c j) s (fun _ s' => evolves [j] s fk s' fk /\ table_ok s' fk /\ on_cpu s' c = Some j /\ length (cpus s') = length (cpus s) /\
    resumable s' /\ forall m, m <> j -> slot_of s' m = slot_of s m).
Proof.
  intros Ht Hc Hlt Hr Hj. assert (j < length (procs s))%nat as Hjl by (apply slot_lt; congruence).
  pose proof (sched_run_returns c j s Hjl (Hr j Hj)) as Hs. unfold returns in *. destruct (sched_run c j s) as [[[] s1]| |] eqn:E; [|done..].
  assert (steps_to s fk s1 fk) as Hst by (by eapply step_run).
  assert (forall c', on_cpu s1 c' = if decide (c' = c) then Some j else on_cpu s c') as Hcpu.
  { intros c'. subst s1. unfold on_cpu. cbn [cpus]. rewrite nth_insert_cpu. case_decide as Hd; [rewrite decide_True by tauto; done|].
    destruct (decide (c' = c)); [tauto | done]. }
  assert (forall m, slot_of s1 m = if decide (m = j) then resumed (slot_of s j) else slot_of s m) as Hslot.
  { intros m. subst s1. unfold slot_of. cbn [procs]. rewrite nth_alter. destruct (decide (m = j)); [by rewrite decide_True | by rewrite decide_False by tauto]. }
  split_and!.
  - rewrite <- (app_nil_r [j]). eapply evolves_step; [exact Hst | | constructor]. intros m. rewrite list_elem_of_singleton. split.
    + intros ->. exists c. split; [done|]. by rewrite Hcpu, decide_True.
    + intros (c' & Hn & Hs'). rewrite Hcpu in Hs'. case_decide; congruence.
  - by eapply step_table_ok.
  - by rewrite Hcpu, decide_True.
  - subst s1. apply length_insert.
  - intros m. rewrite Hslot. case_decide; [|apply Hr]. unfold resumed. destruct (ctx _); done.
  - intros m Hm. by rewrite Hslot, decide_False.
Qed.

Lemma scheduler_pass_spec run c k j s fk :
  gives_back run c -> (k + j = NPROC)%nat -> table_ok s fk -> on_cpu s c = None -> (c < length (cpus s))%nat -> resumable s ->
  returns (scheduler_pass run c k j) s (fun l s' => StronglySorted lt l /\ Forall (fun m => (j <= m < NPROC)%nat) l /\
    exists T others fk', evolves T s fk s' fk' /\ T ≡ₚ l ++ others /\ on_cpu s' c = None /\
      forall m, (j <= m)%nat -> state (slot_of s m) = RUNNABLE -> m ∈ l \/ m ∈ others).
Proof.
  intros Hrun. revert j s fk. induction k as [|k IH]; intros j s fk Hk Ht Hc Hlt Hr; cbn [scheduler_pass].
  { step. split; [constructor|]. split; [constructor|]. exists [], [], fk. split_and!; [constructor | done | done|]. intros m Hm Hs.
    assert (m < length (procs s))%nat by (apply slot_lt; congruence). destruct Ht as (Hl & _). lia. }
  unfold slot. step. fold (slot_of s j). destruct (bool_decide (state (slot_of s j) = RUNNABLE)) eqn:E; cbn [negb].
  - apply bool_decide_eq_true in E. apply returns_bind. eapply returns_mono; [by apply (run_step s fk c j)|].
    cbv beta. intros _ s1 (E1 & T1 & C1 & L1 & R1 & S1). apply returns_bind. eapply returns_mono; [by apply (Hrun j s1 fk)|].
    cbv beta. intros _ s2 (T & fk2 & E2 & C2 & R2). destruct (evolves_keeps _ _ _ _ _ E2 T1) as (T2 & L2 & K2). apply returns_bind.
    eapply returns_mono; [apply (IH (S j) s2 fk2); [lia | done | done | by rewrite L2, L1 | done]|].
    cbv beta. intros l s3 (H1 & H2 & T3 & o & fk3 & E3 & P3 & C3 & K3). step. split; [|split].
    + constructor; [done|]. eapply Forall_impl; [exact H2|]. cbv beta. lia.
    + constructor; [lia|]. eapply Forall_impl; [exact H2|]. cbv beta. lia.
    + exists ([j] ++ T ++ T3), (T ++ o), fk3. split_and!.
      * eapply evolves_app; [exact E1|]. by eapply evolves_app.
      * rewrite P3. cbn [app]. rewrite (Permutation_app_comm T (l ++ o)), (Permutation_app_comm T o), <- app_assoc. done.
      * done.
      * intros m Hm Hs. destruct (decide (m = j)) as [->|Hne]; [left; by left|]. rewrite <- (S1 m Hne) in Hs.
        destruct (K2 m Hs) as [HT|Hs2]; [right; apply elem_of_app; by left|].
        destruct (K3 m ltac:(lia) Hs2); [left; by right | right; apply elem_of_app; by right].
  - apply bool_decide_eq_false in E. eapply returns_mono; [apply (IH (S j) s fk); [lia | done..]|].
    cbv beta. intros l s' (H1 & H2 & T & o & fk' & E1 & P1 & C1 & K1). split; [done|]. split; [eapply Forall_impl; [exact H2|]; cbv beta; lia|].
    exists T, o, fk'. split_and!; try done. intros m Hm Hs. apply K1; [|done]. assert (m <> j) by congruence. lia.
Qed.

(** C22: No process starves, on any number of processors.  Let one processor's
    scheduler make one pass over the table, and let each process that it switches
    to give the processor back after some steps of the machine: system calls,
    wakeups, and the schedulers of the other processors; no runnable process has
    exited, which would be a panic.  The pass ends; it has
    run its slots in the order of the table, each once; and every process that
    was runnable when the pass began has been run meanwhile, by this scheduler
    or by another processor's. *)
Theorem scheduler_fair run c s fk :
  table_ok s fk -> resumable s -> (c < length (cpus s))%nat -> on_cpu s c = None -> gives_back run c ->
  returns (scheduler_pass run c NPROC 0) s (fun l s' => StronglySorted lt l /\
    exists T others fk', evolves T s fk s' fk' /\ T ≡ₚ l ++ others /\ on_cpu s' c = None /\
      forall m, state (slot_of s m) = RUNNABLE -> m ∈ l \/ m ∈ others).
Proof.
  intros Ht Hr Hlt Hc Hrun. eapply returns_mono; [by apply (scheduler_pass_spec run c NPROC 0 s fk)|].
  cbv beta. intros l s' (H1 & _ & T & o & fk' & E & P & C & K3). split; [done|]. exists T, o, fk'. split_and!; try done.
  intros m. apply K3. lia.
Qed.

Lemma yield_gives_back c : gives_back (fun c _ => yield c) c.
Proof.
  intros j s fk Ht Hr Hc. destruct (running_slot s fk c j Ht Hc) as (Hrun & Hj & _). pose proof (yield_spec c j s Hc Hj) as Hy.
  unfold returns in *. destruct (yield c s) as [[[] s1]| |] eqn:E; [|done..]. exists ([] ++ []), fk. split_and!.
  - eapply evolves_step; [by eapply step_yield | | constructor]. intros m. split; [intros []%not_elem_of_nil|]. intros (c' & Hn & Hs).
    rewrite Hy, (on_cpu_off _ _ _ _ j) in Hs by done. unfold fup in Hs. case_decide; congruence.
  - rewrite Hy, (on_cpu_off _ _ _ _ j) by done. apply fup_same.
  - intros k. rewrite Hy, slot_off by done. case_decide; [done | apply Hr].
Qed.
End Spec.

(** ** Concrete runs *)

(** an environment that counts the copies of address spaces; the first
    copy fails *)
#[local] Instance demo_env : Env Z := {
  kalloc := fun k => (4096, k); kfree := fun _ k => k; setupkvm := fun k => (8192, k); inituvm := fun _ k => k;
  copyuvm := fun _ _ k => ((if k =? 0 then 0 else 8192), k + 1); freevm := fun _ k => k;
  filedup := fun _ k => k; fileclose := fun _ k => k; idup := fun _ k => k; iput_op := fun _ k => k; namei_root := fun k => (16, k)
}.

(** [fork] of init fails for want of memory; [kill] of the id that the slot got
    succeeds, though there is no such process; the next child, which reuses the slot,
    is killed from birth *)
Example kill_marks_free_slot :
  returns (userinit ;; sched_run 0 0 ;; r1 ← fork 0; r2 ← kill 2; r3 ← fork 0; p ← slot 1; mret (r1, r2, r3, killed p, state p))
    (boot 2 0) (fun r _ => r = (-1, 0, 3, true, RUNNABLE)).
Proof. vm_compute. reflexivity. Qed.

(** *** Executing the step relation *)

Inductive act : Type :=
| AAlloc (c : nat) | AStack (c : nat) | ACopy (c : nat) | AFill (c : nat) | APublish (c : nat)
| ARun (c j : nat) | AExit (c : nat).

(** the step that [a] names, when it is possible; otherwise nothing *)
Definition perform (a : act) (x : pstate Z * (nat -> option claim)) : pstate Z * (nat -> option claim) :=
  let '(s, fk) := x in
  match a with
  | AAlloc c =>
      match on_cpu s c with
      | Some i =>
          match fk i, alloc_slot s with
          | None, Ok (r, s') => if nextpid s <? 2 ^ 31 - 1 then (s', match r with Some j => fup fk i (Some (mkclaim j false)) | None => fk end) else x
          | _, _ => x
          end
      | None => x
      end
  | AStack c | ACopy c | AFill c | APublish c =>
      match on_cpu s c with
      | Some i =>
          match fk i with
          | Some (mkclaim j false) =>
              match a with
              | AStack _ => match alloc_stack j s with Ok (r, s') => (s', match r with Some _ => fk | None => fup fk i None end) | _ => x end
              | ACopy _ => match fork_copy i j s with Ok (ok, s') => (s', if ok : bool then fk else fup fk i None) | _ => x end
              | AFill _ => match fork_fill i j s with Ok (_, s') => (s', fup fk i (Some (mkclaim j true))) | _ => x end
              | _ => x
              end
          | Some (mkclaim j true) =>
              match a with
              | APublish _ => match fork_publish j s with Ok (_, s') => (s', fup fk i None) | _ => x end
              | _ => x
              end
          | None => x
          end
      | None => x
      end
  | ARun c j =>
      if bool_decide ((c < length (cpus s))%nat /\ on_cpu s c = None /\ state (slot_of s j) = RUNNABLE) then
        match sched_run c j s with Ok (_, s') => (s', fk) | _ => x end
      else x
  | AExit c =>
      match on_cpu s c with
      | Some i =>
          if (match fk i with None => true | Some _ => false end) && negb (i =? initproc s)%nat then
            match exit_locked c s with Ok (_, s') => (s', fk) | _ => x end
          else x
      | None => x
      end
  end.

Definition demo (e : Z) (acts : list act) : pstate Z * (nat -> option claim) :=
  fold_left (fun x a => perform a x) acts
    (match userinit (boot 2 e) with Ok (_, s) => s | _ => boot 2 e end, idle).

Lemma perform_step a s fk : perform a (s, fk) = (s, fk) \/ steps_to s fk (fst (perform a (s, fk))) (snd (perform a (s, fk))).
Proof.
  destruct a as [c|c|c|c|c|c j|c]; cbn [perform]; try (destruct (on_cpu s c) as [i|] eqn:Hc; [|by left]).
  - destruct (fk i) eqn:Hf; [by left|]. destruct (alloc_slot s) as [[r s']| |] eqn:E; [|by left..].
    destruct (Z.ltb_spec (nextpid s) (2 ^ 31 - 1)); [right | by left]. by eapply step_alloc.
  - destruct (fk i) as [[j [|]]|] eqn:Hf; [by left| |by left]. destruct (alloc_stack j s) as [[r s']| |] eqn:E; [right | by left..].
    by eapply step_stack.
  - destruct (fk i) as [[j [|]]|] eqn:Hf; [by left| |by left]. destruct (fork_copy i j s) as [[r s']| |] eqn:E; [right | by left..].
    by eapply step_copy.
  - destruct (fk i) as [[j [|]]|] eqn:Hf; [by left| |by left]. destruct (fork_fill i j s) as [[[] s']| |] eqn:E; [right | by left..].
    by eapply step_fill.
  - destruct (fk i) as [[j [|]]|] eqn:Hf; [|by left..]. destruct (fork_publish j s) as [[r s']| |] eqn:E; [right | by left..].
    by eapply step_publish.
  - case_bool_decide as Hb; [|by left]. destruct Hb as (H1 & H2 & H3). destruct (sched_run c j s) as [[[] s']| |] eqn:E; [right | by left..].
    by eapply step_run.
  - destruct (fk i) eqn:Hf; [by left|]. destruct (Nat.eqb_spec i (initproc s)); [by left|]. cbn [andb negb].
    destruct (exit_locked c s) as [[[] s']| |] eqn:E; [right | by left..]. by eapply step_exit.
Qed.

Lemma demo_reachable e acts : reachable 2 e (fst (demo e acts)) (snd (demo e acts)).
Proof.
  unfold demo. assert (reachable 2 e (match userinit (boot 2 e) with Ok (_, s) => s | _ => boot 2 e end) idle) as H0.
  { apply reach_boot. destruct (userinit (boot 2 e)) as [[[] s]| |] eqn:E; [done|..]; vm_compute in E; discriminate. }
  revert H0. generalize (match userinit (boot 2 e) with Ok (_, s) => s | _ => boot 2 e end) as s. generalize idle as fk.
  induction acts as [|a acts IH]; intros fk s H0; [done|]. cbn [fold_left].
  destruct (perform_step a s fk) as [E|Hs]; [rewrite E; by apply IH|].
  destruct (perform a (s, fk)) as [s' fk']. apply IH. by eapply reach_step.
Qed.

(** init on processor 0 has forked a child, which runs on processor 1 *)
Definition two : list act := [ARun 0 0; AAlloc 0; AStack 0; ACopy 0; AFill 0; APublish 0; ARun 1 1].

Theorem ptable_invariant_witness :
  state (slot_of (fst (demo 1 two)) 1) = RUNNING /\ pid (slot_of (fst (demo 1 two)) 1) = 2 /\
  (exists! c, on_cpu (fst (demo 1 two)) c = Some 1%nat) /\
  exists q, parent (slot_of (fst (demo 1 two)) 1) = Some q /\ alive (state (slot_of (fst (demo 1 two)) q)).
Proof.
  destruct (ptable_invariant 2 1 _ _ (demo_reachable 1 two)) as (_ & _ & H3 & _ & H5 & _).
  assert (state (slot_of (fst (demo 1 two)) 1) = RUNNING) as E by by vm_compute.
  split; [exact E|]. split; [by vm_compute|]. split; [exact (H3 1%nat E)|].
  apply (H5 1%nat); [by vm_compute | left; right; right; exact E].
Defined.

Theorem fork_correct_witness :
  on_cpu (fst (demo 1 [ARun 0 0])) 0 = Some 0%nat /\
  returns (fork 0) (fst (demo 1 [ARun 0 0])) (fun r s' => r = -1 \/ r = 2) /\
  (match fork 0 (fst (demo 1 [ARun 0 0])) with Ok (r, _) => r =? 2 | _ => false end) = true.
Proof.
  assert (on_cpu (fst (demo 1 [ARun 0 0])) 0 = Some 0%nat) as Hc by by vm_compute.
  assert (nextpid (fst (demo 1 [ARun 0 0])) = 2) as Hn by by vm_compute.
  split; [exact Hc|]. split; [|by vm_compute].
  eapply returns_mono; [apply (fork_correct _ _ 0 0 (reachable_table_ok _ _ _ _ (demo_reachable 1 [ARun 0 0])) Hc); rewrite Hn; lia|].
  cbv beta. rewrite Hn. intros r s' [(-> & _)|(j & _ & _ & _ & _ & Hb)]; [by left|].
  cbv zeta in Hb. destruct (kalloc (env _)) as [k e1]. destruct (copyuvm _ _ e1) as [d e2].
  destruct Hb as [(_ & (-> & _) & _)|[(_ & _ & (-> & _) & _)|(_ & _ & -> & _)]]; [by left | by left | by right].
Defined.

Theorem exit_correct_witness :
  on_cpu (fst (demo 1 two)) 1 = Some 1%nat /\
  returns (exit 1) (fst (demo 1 two)) (fun _ s' => on_cpu s' 1 = None /\ state (slot_of s' 1) = ZOMBIE) /\
  exit 0 (fst (demo 1 two)) = Panic "init exiting".
Proof.
  assert (on_cpu (fst (demo 1 two)) 1 = Some 1%nat) as Hc by by vm_compute.
  assert (on_cpu (fst (demo 1 two)) 0 = Some 0%nat) as Hc0 by by vm_compute.
  pose proof (reachable_table_ok _ _ _ _ (demo_reachable 1 two)) as Ht.
  split; [exact Hc|]. split.
  - eapply returns_mono; [apply (proj2 (exit_correct _ _ 1 1 Ht Hc)); by vm_compute|].
    cbv beta zeta. intros _ s' (H1 & _ & H2 & _). split; [exact H1 | by rewrite H2].
  - apply (proj1 (exit_correct _ _ 0 0 Ht Hc0)). by vm_compute.
Defined.

Theorem wait_correct_witness :
  on_cpu (fst (demo 1 (two ++ [AExit 1]))) 0 = Some 0%nat /\
  returns (wait_round 0) (fst (demo 1 (two ++ [AExit 1]))) (fun r s' => r = Reaped 2) /\
  returns (wait_round 0) (fst (demo 1 (two ++ [AExit 1]))) (fun r s' =>
    match r with Reaped n => exists j, state (slot_of s' j) = UNUSED /\ 0 < n | _ => True end).
Proof.
  assert (on_cpu (fst (demo 1 (two ++ [AExit 1]))) 0 = Some 0%nat) as Hc by by vm_compute.
  split; [exact Hc|]. split; [by vm_compute|].
  eapply returns_mono; [apply (wait_correct _ _ 0 0 (reachable_table_ok _ _ _ _ (demo_reachable 1 (two ++ [AExit 1]))) Hc)|].
  cbv beta. intros [n| |] s'; [|done|done]. intros (j & _ & _ & _ & _ & Hn & _ & _ & E & _). exists j. split; [by rewrite E | exact Hn].
Defined.

(** init runs on processor 0 and has forked a child, which waits for processor 1 *)
Definition one_ready : list act := [ARun 0 0; AAlloc 0; AStack 0; ACopy 0; AFill 0; APublish 0].

Theorem scheduler_fair_witness :
  let '(s, fk) := demo 1 one_ready in
  (match scheduler_pass (fun c _ => yield c) 1 NPROC 0 s with Ok (l, _) => bool_decide (l = [1%nat]) | _ => false end) = true /\
  returns (scheduler_pass (fun c _ => yield c) 1 NPROC 0) s
    (fun l s' => StronglySorted lt l /\ exists T fk', evolves T s fk s' fk' /\ 1%nat ∈ T).
Proof.
  assert (state (slot_of (fst (demo 1 one_ready)) 1) = RUNNABLE) as E1 by by vm_compute.
  assert (resumable (fst (demo 1 one_ready))) as Hr by (apply resumable_check; by vm_compute).
  assert ((1 < length (cpus (fst (demo 1 one_ready))))%nat) as Hl by (vm_compute; lia).
  assert (on_cpu (fst (demo 1 one_ready)) 1 = None) as Hc by by vm_compute.
  pose proof (reachable_table_ok _ _ _ _ (demo_reachable 1 one_ready)) as Ht.
  assert ((match scheduler_pass (fun c _ => yield c) 1 NPROC 0 (fst (demo 1 one_ready)) with Ok (l, _) => bool_decide (l = [1%nat]) | _ => false end) = true) as Ep by by vm_compute.
  destruct (demo 1 one_ready) as [s fk]. cbn [fst snd] in *. split; [exact Ep|].
  eapply returns_mono; [apply (scheduler_fair _ 1 s fk Ht Hr Hl Hc (yield_gives_back 1))|].
  cbv beta. intros l s' (H1 & T & o & fk' & Ev & P & _ & H2). split; [exact H1|]. exists T, fk'.
  split; [exact Ev|]. rewrite P. apply elem_of_app. by apply H2.
Defined.
